(* ===== verification/_CoqProject ===== *)
-Q . S2P
Prelude.v
Serial.v
Float64.v
Trace.v
Registry.v
GoValue.v
DCSend.v
Bytes.v
Params.v
Causes.v
Chunks.v
Packet.v
RoundTrip.v
RingQueue.v
PayloadQueue.v
RecvQueue.v
Settings.v
Bridge.v
Handler.v
HandlerSpec.v
HandlerOps.v
Detached.v
Session.v
Server.v
WindowedMin.v
PendingQueue.v
PendingSpec.v
Reassembly.v
ReassemblySpec.v
Stream.v
StreamSpec.v
Timers.v
RackList.v
Sender.v
SenderSpec.v
Sack.v
SackSpec.v
SenderSteps.v
Endpoint.v
Receive.v
Handshake.v
Outbound.v
Config.v
ReceiveSpec.v
AckSpec.v
HandshakeSpec.v
SnapSpec.v
ReadySpec.v
StateSpec.v
TransferSpec.v
WriteSpec.v
DeliverySpec.v
ThreadSpec.v
StreamDelivery.v
TimerLoop.v
Lifecycle.v
Connection.v
Entry.v
