(* ===== verification/Prelude.v ===== *)
(** * A verification library for flutter-pion-bridge

    The program is a Go process that gives a Flutter application WebRTC data
    channels through pion.  The application talks to it in msgpack frames over a
    WebSocket or an in-process session; the bridge (src/go/internal/pionserver)
    keeps a registry of handles, runs the requests, and sends data-channel
    messages through a queue and a goroutine per channel.  Underneath, a patched
    copy of pion's SCTP (src/go/pion-sctp-patched) carries the messages: packets
    of chunks, a sending and a receiving half, streams and timers, held together
    by the association.  pion/webrtc, the network, the clock and random numbers
    are not part of the sources: they are arguments or class members.

    ** Files

    The bridge:
    - Trace.v: trace.go, the slots of the per-channel counters.
    - Registry.v: registry.go, the five maps of handles, deletion with its
      cascade, the clean-up sweep.
    - GoValue.v: types.go and the numeric conversions of handler.go and
      settings_engine.go, on the values a frame decodes to.
    - Settings.v: settings_engine.go and media_engine.go, as the calls they make.
    - DCSend.v: dcsend.go and the send path of handler.go; Module Queue is the
      step relation of the work channel, [done] and their goroutines, Module
      Drain that of the wait for the buffered amount.
    - Bridge.v, Handler.v: the state of the bridge, a state monad with panics and
      blocking, and every handler and callback of handler.go and hooks.go, over
      the class [Env] for pion; HandlerSpec.v and HandlerOps.v are their theorems.
    - Detached.v: readDetached; Session.v: frame_session.go and the connection
      writer of server.go; Server.v: the read loop, message pool and panic
      recovery of server.go; Connection.v: the goroutines of a WebSocket
      connection; Entry.v: the session table of cshared.go, start and stop of
      mobile.go.

    SCTP, data:
    - Serial.v: util.go.  Bytes.v: byte slices, encoding/binary and the outcome
      of a decoder (value, error, panic, out of fuel).
    - Params.v, Causes.v, Chunks.v, Packet.v: param*.go, error_cause*.go,
      chunk*.go, packet.go; RoundTrip.v: encoding and decoding are inverse.
    - RingQueue.v: queue.go behind the class [QueueImpl]/[QueueLaws].
    - PayloadQueue.v: payload_queue.go over a store of shared chunks.
    - RecvQueue.v: receive_payload_queue.go, the bit ring of received TSNs.
    - WindowedMin.v: windowedmin.go and control_queue.go.
    - PendingQueue.v, PendingSpec.v: pending_queue.go; the pending queue is
      stated over [StreamScheduler]/[StreamSchedulerLaws], which round robin and
      weighted fair queueing (binary64, Float64.v) provide.
    - Reassembly.v, ReassemblySpec.v: reassembly_queue.go.
    - Timers.v: rtx_timer.go and ack_timer.go, the runtime timer and its late
      goroutines as separate steps.
    - Stream.v, StreamSpec.v: stream.go.

    SCTP, the association (association.go):
    - RackList.v: the doubly linked list of RACK, shown to be a list.
    - Sender.v, SenderSpec.v: writing, sending within the windows, bundling.
    - Sack.v, SackSpec.v: SACK processing, congestion control, RACK, tail loss
      probes, T3-rtx and the retransmissions.
    - SenderSteps.v: what holds over any run of the sending half.
    - Endpoint.v: the rest of the struct.  Receive.v: DATA, FORWARD TSN and
      RE-CONFIG, acknowledgements.  Handshake.v: handshake, shutdown, timers and
      the dispatch of inbound packets.  Outbound.v: gatherOutbound and the write
      loop.
    - Config.v: association_options.go, association_rack_options.go,
      association_interleaving_options.go, the configuration, the association
      built from it, and out-of-band tokens; Module Builtin puts the two
      schedulers behind the interface.
    - ReceiveSpec.v: what is acknowledged over any run of inbound chunks.
      AckSpec.v: that an acknowledgement is sent, and is read by the peer as it
      was meant.  HandshakeSpec.v: two ends over a network that loses, repeats
      and reorders packets.  SnapSpec.v: two ends that exchange tokens.
      ReadySpec.v: that associations start from the state the theorems on
      sending assume.  StateSpec.v: the diagram of states.
    - TransferSpec.v: the sender, the network and the receiver as one system.
      WriteSpec.v: the fragments of a write are fit to be sent.
      DeliverySpec.v: data from one connected association to the other.
      ThreadSpec.v: the log of TSNs as whole messages.  StreamDelivery.v: from
      one application to the other, on one stream.
    - TimerLoop.v: timerLoop with the goroutines that move its deadlines.
      Lifecycle.v: the read and write loops and the calls that wait for them.

    ** Theorems

    The theorems marked C<n> are the main ones; the other lemmas serve them.  Of the
    bridge they show: the registry is well formed under every operation, deletion
    takes exactly the subtree, a sweep exactly what expired; each dc:send is
    answered once, in order, under every interleaving, and no wake-up is lost
    with one threshold change at a time; each frame has one outcome and no panic
    escapes; the state of the bridge stays consistent; sessions and connections
    deliver in order, stop when closed and come down as a whole.  Of SCTP: decoding is total and inverse to encoding;
    each queue refines its abstract counterpart (list, set of TSNs, set of
    messages, schedule); a stream delivers the messages written, in order; the
    timers report each expiry once; the sender stays within its windows, SACKs
    account exactly, data in flight is always timed, nothing received makes a
    handler panic, and a time-out leads to a retransmission; a receiver
    acknowledges exactly the TSNs it handed over or was told to skip, hands none
    over twice, and its SACK reaches the peer's accounting unchanged; the ends of
    a handshake agree on what they negotiated and can always complete it; an
    association moves along the edges of its state diagram; its timer loop
    neither loses a deadline nor fires one early, and closing it comes to an end.
    Two theorems join
    the parts: [data_crosses_unharmed], that what one association hands to its
    streams is what the other sent, chunk by chunk; and
    [messages_arrive_in_order], that the reader of an ordered stream gets
    the messages of the writer, over the handshake, the pending queue, the TSNs,
    the bytes of the packets, the received TSNs and the reassembly queue.

    ** Conventions

    Integers are in Z, reduced to their width where the source's type wraps
    ([u16], [u32], [u64], [i64] and the operators of go_scope); float64 is the
    Standard Library's binary64.  Shared Go objects (chunks, send states, I-DATA
    chunk sets) live in stores and are referred to by location.  [None] in the
    result of an operation is a panic, a blocked goroutine or exhausted fuel, as
    its comment says.  Loops that are not structural take fuel: the decoders the
    number of bytes left, the loops over the in-flight queue its size plus one
    ([inflight_fuel]), the loop over the pending queue more than twice its size,
    the pop loop of the receiver the number of TSNs it holds plus one.  The
    theorems on these functions show that this is enough.  Map iteration takes
    the order as an argument.  A handler that holds the association's lock is one
    step, also where it releases the lock for a callback of a stream; it reads
    the clock once.

    ** Not modelled

    The benchmark peer, the Dart plugin, main.go and embed.go (they print, wait
    and set hooks), C memory; the HTTP upgrade and listener; logging, String
    methods, statistics and accessors; drainTrack.  Where a theorem is about one
    association (SenderSteps.v, ReceiveSpec.v, HandshakeSpec.v, TransferSpec.v,
    StreamDelivery.v) the turns of its loops are its steps; their goroutines are
    in Lifecycle.v and TimerLoop.v only.  The end-to-end theorem on messages is
    for an ordered stream without interleaving and without partial reliability.
    Verification tags of inbound packets are not checked
    by the source, so no theorem speaks of forged packets beyond totality. *)

From stdpp Require Export base tactics list list_numbers numbers gmap strings.
From Stdlib Require Export ZArith Lia.

Local Open Scope Z_scope.

(** ** Fixed-width integers

    A Go [uintN] is a [Z] in [0, 2^N); every arithmetic operation of the
    source is followed by the reduction modulo [2^N] written out here. *)

Definition wrap (w z : Z) : Z := z mod 2 ^ w.

Definition u8 (z : Z) : Z := wrap 8 z.

Definition u16 (z : Z) : Z := wrap 16 z.

Definition u32 (z : Z) : Z := wrap 32 z.

Definition u64 (z : Z) : Z := wrap 64 z.

(** Two's complement reading of the low 64 bits: Go's [int64] and [int]. *)
Definition i64 (z : Z) : Z :=
  let r := z mod 2 ^ 64 in if (r <? 2 ^ 63) then r else (r - 2 ^ 64).

Definition in_u (w z : Z) : Prop := (0 <= z < 2 ^ w).

Declare Scope go_scope.
Delimit Scope go_scope with go.

Notation "x '+32' y" := (u32 (x + y)%Z) (at level 50, left associativity) : go_scope.
Notation "x '-32' y" := (u32 (x - y)%Z) (at level 50, left associativity) : go_scope.
Notation "x '+16' y" := (u16 (x + y)%Z) (at level 50, left associativity) : go_scope.
Notation "x '-16' y" := (u16 (x - y)%Z) (at level 50, left associativity) : go_scope.

(** [go_lia] decides goals of linear arithmetic that mention the width
    reductions above at constant widths. *)
Ltac go_pow :=
  change (2 ^ 8) with 256 in *;
  change (2 ^ 15) with 32768 in *;
  change (2 ^ 16) with 65536 in *;
  change (2 ^ 31) with 2147483648 in *;
  change (2 ^ 32) with 4294967296 in *;
  change (2 ^ 63) with 9223372036854775808 in *;
  change (2 ^ 64) with 18446744073709551616 in *.

Ltac go_unfold := unfold u8, u16, u32, u64, i64, wrap, in_u in *; go_pow.

Ltac go_lia := go_unfold; Z.to_euclidean_division_equations; lia.

(** [go_bool] turns the boolean comparisons of the code into propositions. *)
Ltac go_bool :=
  repeat match goal with
  | H : (_ && _)%bool = true |- _ => apply andb_prop in H; destruct H
  | H : (_ && _)%bool = false |- _ => apply andb_false_iff in H
  | H : (_ || _)%bool = true |- _ => apply orb_prop in H
  | H : (_ || _)%bool = false |- _ => apply orb_false_elim in H; destruct H
  | H : negb _ = true |- _ => apply negb_true_iff in H
  | H : negb _ = false |- _ => apply negb_false_iff in H
  | H : (_ <? _) = true |- _ => apply Z.ltb_lt in H
  | H : (_ <? _) = false |- _ => apply Z.ltb_ge in H
  | H : (_ <=? _) = true |- _ => apply Z.leb_le in H
  | H : (_ <=? _) = false |- _ => apply Z.leb_gt in H
  | H : (_ =? _) = true |- _ => apply Z.eqb_eq in H
  | H : (_ =? _) = false |- _ => apply Z.eqb_neq in H
  end.

(** [break] splits the first [match] or [if] on which the goal, or a
    hypothesis, depends, remembering the equation. *)
Ltac break_goal :=
  match goal with
  | |- context [match ?x with _ => _ end] =>
      match x with
      | context [match _ with _ => _ end] => fail 1
      | _ => let E := fresh "E" in destruct x eqn:E
      end
  end.

Ltac break_hyp :=
  match goal with
  | H : context [match ?x with _ => _ end] |- _ =>
      match x with
      | context [match _ with _ => _ end] => fail 1
      | _ => let E := fresh "E" in destruct x eqn:E
      end
  end.

Create HintDb go.
Create Rewrite HintDb go.
Create Rewrite HintDb zlen.

Lemma wrap_range w z : (0 <= w) -> in_u w (wrap w z).
Proof.
  intros Hw. unfold in_u, wrap. apply Z.mod_pos_bound. apply Z.pow_pos_nonneg; lia.
Qed.

Lemma u8_range z : in_u 8 (u8 z).
Proof. apply wrap_range; lia. Qed.

Lemma u16_range z : in_u 16 (u16 z).
Proof. apply wrap_range; lia. Qed.

Lemma u32_range z : in_u 32 (u32 z).
Proof. apply wrap_range; lia. Qed.

Lemma u64_range z : in_u 64 (u64 z).
Proof. apply wrap_range; lia. Qed.

Lemma wrap_small w z : in_u w z -> wrap w z = z.
Proof. intros H. unfold wrap. by apply Z.mod_small. Qed.

Lemma u32_small z : in_u 32 z -> u32 z = z.
Proof. apply wrap_small. Qed.

Lemma u16_small z : in_u 16 z -> u16 z = z.
Proof. apply wrap_small. Qed.

#[export] Hint Resolve u8_range u16_range u32_range u64_range : go.
#[export] Hint Rewrite u32_small u16_small using (unfold in_u; lia) : go.

(** ** Runs *)

(** What a step preserves, a run preserves. *)
Lemma rtc_preserve {A} (R : A -> A -> Prop) (P : A -> Prop) x y :
  (forall a b, P a -> R a b -> P b) -> P x -> rtc R x y -> P y.
Proof. intros Hstep Hx Hr. revert Hx. induction Hr as [|a b c Hab _ IH]; eauto. Qed.

(** ** Lists *)

Lemma elem_of_map {A B} (f : A -> B) l x : x ∈ map f l <-> exists y, x = f y /\ y ∈ l.
Proof.
  rewrite list_elem_of_In, in_map_iff. setoid_rewrite list_elem_of_In. naive_solver.
Qed.

Lemma filter_all {A} (P : A -> Prop) `{forall x, Decision (P x)} (l : list A) :
  (forall x, x ∈ l -> P x) -> filter P l = l.
Proof.
  induction l as [|y l IH]; [done|]. intros Hl. rewrite filter_cons_True by (apply Hl; left).
  f_equal. apply IH. intros. apply Hl. by right.
Qed.

Lemma filter_none {A} (P : A -> Prop) `{forall x, Decision (P x)} (l : list A) :
  (forall x, x ∈ l -> ~ P x) -> filter P l = [].
Proof.
  induction l as [|y l IH]; [done|]. intros Hl. rewrite filter_cons_False by (apply Hl; left).
  apply IH. intros. apply Hl. by right.
Qed.

(** ** Bisection *)

(** [sort.Search]: the least index of [i, j) at which [f] holds, [j] if none,
    by bisection. *)
Fixpoint search (fuel : nat) (f : nat -> bool) (i j : nat) : nat :=
  match fuel with
  | O => i
  | S n =>
      if (i <? j)%nat then
        let h := Nat.div2 (i + j) in
        if f h then search n f i h else search n f (S h) j
      else i
  end.

Definition Search (n : nat) (f : nat -> bool) : nat := search n f 0 n.

Lemma search_spec f n i j :
  (j - i <= n)%nat -> (i <= j)%nat ->
  (forall a b, (a <= b)%nat -> f a = true -> f b = true) ->
  (i <= search n f i j <= j)%nat
  /\ (forall k, (i <= k < search n f i j)%nat -> f k = false)
  /\ (forall k, (search n f i j <= k < j)%nat -> f k = true).
Proof.
  intros Hn Hij Hmono. revert i j Hn Hij.
  induction n as [|n IH]; intros i j Hn Hij; simpl; [repeat split; intros; lia|].
  destruct (Nat.ltb_spec i j) as [Hlt|Hge]; [|repeat split; intros; lia].
  assert (Hd : (i <= Nat.div2 (i + j) < j)%nat).
  { rewrite Nat.div2_div. split; [apply Nat.div_le_lower_bound|apply Nat.Div0.div_lt_upper_bound]; lia. }
  destruct (f _) eqn:Ef.
  - destruct (IH i (Nat.div2 (i + j))) as (H1 & H2 & H3); [lia..|].
    split; [lia|]. split; [done|]. intros k Hk. destruct (Nat.lt_ge_cases k (Nat.div2 (i + j))); [apply H3; lia|].
    by apply (Hmono (Nat.div2 (i + j))).
  - destruct (IH (S (Nat.div2 (i + j))) j) as (H1 & H2 & H3); [lia..|].
    split; [lia|]. split; [|done]. intros k Hk.
    destruct (Nat.lt_ge_cases (Nat.div2 (i + j)) k); [apply H2; lia|].
    destruct (f k) eqn:Ek; [|done]. by rewrite (Hmono k (Nat.div2 (i + j))) in Ef by (done || lia).
Qed.
