(* ===== verification/Serial.v ===== *)
(** * Serial numbers and padding (src/go/pion-sctp-patched/util.go) *)

From S2P Require Import Prelude.

Local Open Scope Z_scope.
Local Open Scope go_scope.

(** ** Padding *)

Definition paddingMultiple : Z := 4.

Definition getPadding (l : Z) : Z :=
  Z.rem (paddingMultiple - Z.rem l paddingMultiple) paddingMultiple.

Definition padByte (inp : list Z) (cnt : Z) : list Z :=
  let cnt := if cnt <? 0 then 0 else cnt in
  inp ++ replicate (Z.to_nat cnt) 0.

(** ** Serial number arithmetic (RFC 1982) *)

Definition sna32LT (i1 i2 : Z) : bool :=
  ((i1 <? i2) && (i2 -32 i1 <? 2 ^ 31)) || ((i2 <? i1) && (2 ^ 31 <? i1 -32 i2)).

Definition sna32LTE (i1 i2 : Z) : bool := (i1 =? i2) || sna32LT i1 i2.

Definition sna32GT (i1 i2 : Z) : bool :=
  ((i1 <? i2) && (2 ^ 31 <=? i2 -32 i1)) || ((i2 <? i1) && (i1 -32 i2 <=? 2 ^ 31)).

Definition sna32GTE (i1 i2 : Z) : bool := (i1 =? i2) || sna32GT i1 i2.

Definition sna32EQ (i1 i2 : Z) : bool := i1 =? i2.

Definition sna16LT (i1 i2 : Z) : bool :=
  ((i1 <? i2) && (i2 -16 i1 <? 2 ^ 15)) || ((i2 <? i1) && (2 ^ 15 <? i1 -16 i2)).

Definition sna16LTE (i1 i2 : Z) : bool := (i1 =? i2) || sna16LT i1 i2.

Definition sna16GT (i1 i2 : Z) : bool :=
  ((i1 <? i2) && (2 ^ 15 <=? i2 -16 i1)) || ((i2 <? i1) && (i1 -16 i2 <=? 2 ^ 15)).

Definition sna16GTE (i1 i2 : Z) : bool := (i1 =? i2) || sna16GT i1 i2.

Definition sna16EQ (i1 i2 : Z) : bool := i1 =? i2.

(** The forward distance from [a] to [b] on the ring of 32-bit serials. *)
Definition dist32 (a b : Z) : Z := b -32 a.

Definition dist16 (a b : Z) : Z := b -16 a.

Lemma sna32LT_dist a b :
  in_u 32 a -> in_u 32 b -> sna32LT a b = true <-> 0 < dist32 a b < 2 ^ 31.
Proof.
  unfold sna32LT, dist32. intros Ha Hb.
  rewrite orb_true_iff, !andb_true_iff, !Z.ltb_lt. go_lia.
Qed.

Lemma sna32LTE_dist a b :
  in_u 32 a -> in_u 32 b -> sna32LTE a b = true <-> dist32 a b < 2 ^ 31.
Proof.
  intros Ha Hb. unfold sna32LTE. rewrite orb_true_iff, Z.eqb_eq, sna32LT_dist by done.
  unfold dist32. go_lia.
Qed.

Lemma sna32GT_dist a b :
  in_u 32 a -> in_u 32 b -> sna32GT a b = true <-> 2 ^ 31 <= dist32 a b.
Proof.
  unfold sna32GT, dist32. intros Ha Hb.
  rewrite orb_true_iff, !andb_true_iff, !Z.ltb_lt, !Z.leb_le. go_lia.
Qed.

Lemma sna16LT_dist a b :
  in_u 16 a -> in_u 16 b -> sna16LT a b = true <-> 0 < dist16 a b < 2 ^ 15.
Proof.
  unfold sna16LT, dist16. intros Ha Hb.
  rewrite orb_true_iff, !andb_true_iff, !Z.ltb_lt. go_lia.
Qed.

Lemma sna16LTE_dist a b :
  in_u 16 a -> in_u 16 b -> sna16LTE a b = true <-> dist16 a b < 2 ^ 15.
Proof.
  intros Ha Hb. unfold sna16LTE. rewrite orb_true_iff, Z.eqb_eq, sna16LT_dist by done.
  unfold dist16. go_lia.
Qed.

Lemma sna16GT_dist a b :
  in_u 16 a -> in_u 16 b -> sna16GT a b = true <-> 2 ^ 15 <= dist16 a b.
Proof.
  unfold sna16GT, dist16. intros Ha Hb.
  rewrite orb_true_iff, !andb_true_iff, !Z.ltb_lt, !Z.leb_le. go_lia.
Qed.

Lemma sna32GT_negb_LTE a b :
  in_u 32 a -> in_u 32 b -> sna32GT a b = negb (sna32LTE a b).
Proof.
  intros Ha Hb. apply eq_true_iff_eq.
  rewrite negb_true_iff, <- not_true_iff_false, sna32GT_dist, sna32LTE_dist by done. lia.
Qed.

Lemma sna16GT_negb_LTE a b :
  in_u 16 a -> in_u 16 b -> sna16GT a b = negb (sna16LTE a b).
Proof.
  intros Ha Hb. apply eq_true_iff_eq.
  rewrite negb_true_iff, <- not_true_iff_false, sna16GT_dist, sna16LTE_dist by done. lia.
Qed.

Lemma sna32LT_window base x y :
  0 <= x < 2 ^ 31 -> 0 <= y < 2 ^ 31 -> sna32LT (base +32 x) (base +32 y) = (x <? y).
Proof.
  intros Hx Hy. apply eq_true_iff_eq. rewrite sna32LT_dist, Z.ltb_lt by auto with go.
  unfold dist32. go_lia.
Qed.

Lemma sna32LTE_window base x y :
  0 <= x < 2 ^ 31 -> 0 <= y < 2 ^ 31 -> sna32LTE (base +32 x) (base +32 y) = (x <=? y).
Proof.
  intros Hx Hy. apply eq_true_iff_eq. rewrite sna32LTE_dist, Z.leb_le by auto with go.
  unfold dist32. go_lia.
Qed.

Lemma sna16LT_window base x y :
  0 <= x < 2 ^ 15 -> 0 <= y < 2 ^ 15 -> sna16LT (base +16 x) (base +16 y) = (x <? y).
Proof.
  intros Hx Hy. apply eq_true_iff_eq. rewrite sna16LT_dist, Z.ltb_lt by auto with go.
  unfold dist16. go_lia.
Qed.

Lemma sna16LTE_window base x y :
  0 <= x < 2 ^ 15 -> 0 <= y < 2 ^ 15 -> sna16LTE (base +16 x) (base +16 y) = (x <=? y).
Proof.
  intros Hx Hy. apply eq_true_iff_eq. rewrite sna16LTE_dist, Z.leb_le by auto with go.
  unfold dist16. go_lia.
Qed.

(** On any half ring, wherever it starts and whether or not it wraps, the
    32-bit serial comparisons are the integer comparisons of the offsets, and
    the greater-than of the source is the exact complement of its
    less-or-equal. *)
Theorem sna32_window_order base x y :
  0 <= x < 2 ^ 31 -> 0 <= y < 2 ^ 31 ->
  sna32LT (base +32 x) (base +32 y) = (x <? y)
  /\ sna32LTE (base +32 x) (base +32 y) = (x <=? y)
  /\ sna32GT (base +32 x) (base +32 y) = (y <? x)
  /\ sna32GTE (base +32 x) (base +32 y) = (y <=? x).
Proof.
  intros Hx Hy.
  assert (HE : (base +32 x =? base +32 y) = (x =? y)) by go_lia.
  unfold sna32GTE.
  rewrite sna32GT_negb_LTE, sna32LT_window, sna32LTE_window, HE by auto with go.
  repeat split; lia.
Qed.

Lemma sna32_window_order_witness :
  sna32LT (4294967290 +32 3) (4294967290 +32 9) = true.
Proof. apply (sna32_window_order 4294967290 3 9); lia. Defined.
