(* ===== verification/Float64.v ===== *)
(** * Binary64 arithmetic

    Go's [float64] as the Standard Library's [spec_float] with 53 bits of
    precision, with what the schedulers and the timers use of it and of the
    package math. *)

From Stdlib Require Import SpecFloat.
From S2P Require Import Prelude.

Local Open Scope Z_scope.

(** Go's [float64], as binary64 of the Standard Library. *)
Module F64.

Abbreviation float64 := spec_float.

Definition zero : float64 := S754_zero false.

Definition inf : float64 := S754_infinity false.

Definition of_int (z : Z) : float64 := binary_normalize 53 1024 z 0 false.

Definition add : float64 -> float64 -> float64 := SFadd 53 1024.

Definition div : float64 -> float64 -> float64 := SFdiv 53 1024.

Definition lt : float64 -> float64 -> bool := SFltb.

Definition eq : float64 -> float64 -> bool := SFeqb.

(** [math.Max]. *)
Definition max (x y : float64) : float64 :=
  match x, y with
  | S754_infinity false, _ | _, S754_infinity false => inf
  | S754_nan, _ | _, S754_nan => S754_nan
  | S754_zero true, S754_zero _ => y
  | S754_zero false, S754_zero _ => x
  | _, _ => if lt y x then x else y
  end.

Definition finite (f : float64) : bool :=
  match f with S754_zero _ | S754_finite _ _ _ => true | _ => false end.

(** The order of finite floats is the lexicographic order of these triples. *)
Definition key (f : float64) : Z * Z * Z :=
  match f with
  | S754_finite false m e => (1, e, Zpos m)
  | S754_finite true m e => (-1, - e, - Zpos m)
  | _ => (0, 0, 0)
  end.

Definition klt (a b : Z * Z * Z) : Prop :=
  a.1.1 < b.1.1 \/ (a.1.1 = b.1.1 /\ (a.1.2 < b.1.2 \/ (a.1.2 = b.1.2 /\ a.2 < b.2))).

Lemma compare_key a b :
  finite a = true -> finite b = true ->
  match SFcompare a b with
  | Some Lt => klt (key a) (key b)
  | Some Eq => key a = key b
  | Some Gt => klt (key b) (key a)
  | None => False
  end.
Proof.
  unfold klt. destruct a as [sa|sa| |sa ma ea], b as [sb|sb| |sb mb eb]; try done; intros _ _; simpl;
    try (destruct sa); try (destruct sb); simpl; try done; try lia.
  all: destruct (Z.compare_spec ea eb); simpl; try lia.
  all: change (Pos.compare_cont Eq ma mb) with (Pos.compare ma mb).
  all: destruct (Pos.compare_spec ma mb); simpl; subst; try done; lia.
Qed.

Lemma lt_key a b : finite a = true -> finite b = true -> lt a b = true <-> klt (key a) (key b).
Proof.
  intros Ha Hb. pose proof (compare_key a b Ha Hb) as H. unfold lt, SFltb.
  destruct (SFcompare a b) as [[]|]; unfold klt in *; split; try done; intros; try (rewrite H in *); lia.
Qed.

Lemma eq_key a b : finite a = true -> finite b = true -> eq a b = true <-> key a = key b.
Proof.
  intros Ha Hb. pose proof (compare_key a b Ha Hb) as H. unfold eq, SFeqb.
  destruct (SFcompare a b) as [[]|]; unfold klt in *; split; try done; intros E; rewrite E in H; lia.
Qed.

Lemma lt_inf a : finite a = true -> lt a inf = true.
Proof. by destruct a. Qed.

(** Products, differences and the rest of what the timers use. *)
Definition mul : float64 -> float64 -> float64 := SFmul 53 1024.

Definition sub : float64 -> float64 -> float64 := SFsub 53 1024.

Definition abs : float64 -> float64 := SFabs.

(** [math.Min]. *)
Definition min (x y : float64) : float64 :=
  match x, y with
  | S754_infinity true, _ | _, S754_infinity true => S754_infinity true
  | S754_nan, _ | _, S754_nan => S754_nan
  | S754_zero false, S754_zero _ => y
  | S754_zero true, S754_zero _ => x
  | _, _ => if lt x y then x else y
  end.

Definition le : float64 -> float64 -> bool := SFleb.

(** The conversion to [int64], toward zero.  What does not fit is left to the
    processor; here it gives the least value, as amd64 does. *)
Definition to_int (f : float64) : Z :=
  match f with
  | S754_zero _ => 0
  | S754_finite s m e =>
      let a := if 0 <=? e then Zpos m * 2 ^ e else Zpos m / 2 ^ (- e) in
      let v := if s then - a else a in
      if (- 2 ^ 63 <=? v) && (v <? 2 ^ 63) then v else - 2 ^ 63
  | _ => - 2 ^ 63
  end.

(** ** Floats that are at least zero *)

Definition nonneg (f : float64) : bool :=
  match f with
  | S754_zero _ | S754_infinity false | S754_finite false _ _ => true
  | _ => false
  end.

Definition positive_finite (f : float64) : bool := match f with S754_finite false _ _ => true | _ => false end.

Lemma shr_nonneg m e n : 0 <= shr_m m -> 0 <= shr_m (shr m e n).1.
Proof.
  assert (H1 : forall r, 0 <= shr_m r -> 0 <= shr_m (shr_1 r)).
  { intros [[|[p|p|]|p] r s]; simpl; lia. }
  assert (Hi : forall p r, 0 <= shr_m r -> 0 <= shr_m (SpecFloat.iter_pos shr_1 p r)).
  { induction p as [p IH|p IH|]; intros r Hr; simpl; auto. }
  intros Hm. destruct n as [|p|p]; simpl; auto.
Qed.

Lemma shr_fexp_nonneg m e l : 0 <= m -> 0 <= shr_m (shr_fexp 53 1024 m e l).1.
Proof. intros Hm. apply shr_nonneg. by destruct l as [|[]]. Qed.

(** Rounding a magnitude keeps the sign and never gives NaN. *)
Lemma round_aux_sign b m e l : 0 <= m ->
  match binary_round_aux 53 1024 b m e l with
  | S754_zero s | S754_infinity s | S754_finite s _ _ => s = b
  | S754_nan => False
  end.
Proof.
  intros Hm. unfold binary_round_aux. pose proof (shr_fexp_nonneg m e l Hm) as H1.
  destruct (shr_fexp 53 1024 m e l) as [r e']. simpl in H1.
  assert (H2 : 0 <= round_nearest_even (shr_m r) (loc_of_shr_record r)).
  { unfold round_nearest_even. destruct (loc_of_shr_record r) as [|[]]; try lia. destruct (Z.even (shr_m r)); lia. }
  pose proof (shr_fexp_nonneg _ e' loc_Exact H2) as H3. destruct (shr_fexp _ _ _ e' _) as [r' e'']. simpl in H3.
  destruct (shr_m r'); [done| |lia]. by destruct (_ <=? _).
Qed.

Lemma nonneg_round m e l : 0 <= m -> nonneg (binary_round_aux 53 1024 false m e l) = true.
Proof. intros Hm. pose proof (round_aux_sign false m e l Hm) as H. by destruct (binary_round_aux _ _ _ _ _ _) as [|[]| |[]]. Qed.

Lemma nonneg_normalize m e : 0 <= m -> nonneg (binary_normalize 53 1024 m e false) = true.
Proof.
  destruct m as [|m|m]; simpl; intros Hm; [done| |lia]. unfold binary_round. destruct (shl_align _ _ _) as [mz ez].
  by apply nonneg_round.
Qed.

Lemma nonneg_add x y : nonneg x = true -> nonneg y = true -> nonneg (add x y) = true.
Proof.
  destruct x as [[]|[]| |[] mx ex], y as [[]|[]| |[] my ey]; simpl; try done. intros _ _.
  by apply (nonneg_normalize (Zpos _)).
Qed.

Lemma nonneg_mul x y : positive_finite x = true -> nonneg y = true -> nonneg (mul x y) = true.
Proof.
  destruct x as [| | |[] mx ex], y as [[]|[]| |[] my ey]; simpl; try done. intros _ _. by apply nonneg_round.
Qed.

Lemma normalize_not_nan m e b : binary_normalize 53 1024 m e b <> S754_nan.
Proof.
  destruct m as [|m|m]; simpl; [done|..]; unfold binary_round; destruct (shl_align _ _ _) as [mz ez]; intros E.
  - by pose proof (round_aux_sign false (Zpos mz) ez loc_Exact ltac:(lia)) as H; rewrite E in H.
  - by pose proof (round_aux_sign true (Zpos mz) ez loc_Exact ltac:(lia)) as H; rewrite E in H.
Qed.

Lemma nonneg_abs_sub x y : nonneg x = true -> nonneg y = true -> finite y = true -> nonneg (abs (sub x y)) = true.
Proof.
  assert (Ha : forall f, f <> S754_nan -> nonneg (abs f) = true) by (by intros [[]|[]| |[]]).
  destruct x as [[]|[]| |[] mx ex], y as [[]|[]| |[] my ey]; simpl; try done. intros _ _ _. by apply Ha, normalize_not_nan.
Qed.

Lemma nonneg_div x y : nonneg x = true -> finite x = true -> positive_finite y = true -> nonneg (div x y) = true.
Proof.
  destruct x as [[]|[]| |[] mx ex], y as [| | |[] my ey]; try done. intros _ _ _. unfold div, SFdiv, SFdiv_core_binary.
  set (m' := match _ with Z0 => _ | Zpos _ => _ | Zneg _ => _ end).
  assert (Hm : 0 <= m') by (unfold m'; destruct (_ - _)%Z; [lia|apply Z.shiftl_nonneg; lia|lia]).
  destruct (Z.div_eucl m' (Zpos my)) as [q r] eqn:E. apply nonneg_round.
  change q with (q, r).1. rewrite <- E. change (Z.div_eucl m' (Zpos my)).1 with (fst (Z.div_eucl m' (Zpos my))).
  assert (Hq : q = m' / Zpos my) by (unfold Z.div; by rewrite E). rewrite E. simpl. rewrite Hq. apply Z.div_pos; lia.
Qed.

(** ** Order *)

Definition number (f : float64) : bool := match f with S754_nan => false | _ => true end.

Lemma compare_swap a b : SFcompare b a = CompOpp <$> SFcompare a b.
Proof.
  destruct a as [[]|[]| |[] ma ea], b as [[]|[]| |[] mb eb]; simpl; try done; f_equal.
  all: rewrite (Z.compare_antisym ea eb); destruct (Z.compare ea eb); simpl; try done.
  all: change (Pos.compare_cont Eq ?x ?y) with (Pos.compare x y); rewrite (Pos.compare_antisym ma mb); by destruct (Pos.compare ma mb).
Qed.

Lemma compare_number a b : number a = true -> number b = true -> exists c, SFcompare a b = Some c.
Proof. destruct a as [[]|[]| |[]], b as [[]|[]| |[]]; simpl; try done; intros _ _; by eexists. Qed.

Lemma not_lt_le a b : number a = true -> number b = true -> lt a b = false -> le b a = true.
Proof.
  intros Ha Hb. unfold lt, le, SFltb, SFleb. rewrite (compare_swap a b). destruct (compare_number a b Ha Hb) as [[] ->]; done.
Qed.

Lemma lt_le a b : lt a b = true -> le a b = true.
Proof. unfold lt, le, SFltb, SFleb. by destruct (SFcompare a b) as [[]|]. Qed.

Lemma le_refl a : number a = true -> le a a = true.
Proof. intros Ha. apply not_lt_le; [done..|]. unfold lt, SFltb. pose proof (compare_swap a a) as H. destruct (SFcompare a a) as [[]|]; done. Qed.

(** The value between two bounds. *)
Lemma clamp x lo hi :
  nonneg x = true -> positive_finite lo = true -> positive_finite hi = true -> le lo hi = true ->
  le lo (min (max x lo) hi) = true /\ le (min (max x lo) hi) hi = true.
Proof.
  intros Hx Hlo Hhi Hle.
  assert (Hn : number lo = true /\ number hi = true) by (by destruct lo as [[]|[]| |[]], hi as [[]|[]| |[]]).
  destruct Hn as [Hnlo Hnhi].
  assert (Hmax : max x lo = inf \/ (positive_finite (max x lo) = true /\ le lo (max x lo) = true)).
  { destruct x as [[]|[]| |[] mx ex]; try done; [| |by left|].
    - right. destruct lo as [| | |[] ml el]; try done. simpl. split; [done|]. by apply le_refl.
    - right. destruct lo as [| | |[] ml el]; try done. simpl. split; [done|]. by apply le_refl.
    - right. destruct lo as [| | |[] ml el]; try done.
      assert (E : max (S754_finite false mx ex) (S754_finite false ml el)
                  = if lt (S754_finite false ml el) (S754_finite false mx ex) then S754_finite false mx ex else S754_finite false ml el) by done.
      rewrite E. destruct (lt _ _) eqn:El; split; try done; [by apply lt_le|by apply le_refl]. }
  assert (Hmin : forall y, (y = inf \/ positive_finite y = true) -> min y hi = if lt y hi then y else hi).
  { intros y [-> |Hy]; destruct hi as [| | |[] mh eh]; try done; by destruct y as [| | |[]]. }
  destruct Hmax as [->|[Hp Hl]].
  - rewrite Hmin by (by left). assert (E : lt inf hi = false) by (by destruct hi as [[]|[]| |[]]). rewrite E. split; [done|]. by apply le_refl.
  - rewrite Hmin by (by right). destruct (lt (max x lo) hi) eqn:El; split; try done; [by apply lt_le|by apply le_refl].
Qed.

Lemma min_le x hi : nonneg x = true -> positive_finite hi = true -> le (min x hi) hi = true.
Proof.
  intros Hx Hhi. destruct hi as [| | |[] mh eh]; try done. destruct x as [[]|[]| |[] mx ex]; try done;
    [by apply le_refl|]. 
  assert (E : min (S754_finite false mx ex) (S754_finite false mh eh)
              = if lt (S754_finite false mx ex) (S754_finite false mh eh) then S754_finite false mx ex else S754_finite false mh eh) by done.
  rewrite E. destruct (lt _ _) eqn:El; [by apply lt_le|by apply le_refl].
Qed.

End F64.
