(* ===== verification/Trace.v ===== *)
(** * Pipeline trace counters (src/go/internal/pionserver/trace.go)

    The process-wide [Trace] value: its on/off flag, the counters of the read
    loop, of the sixteen data-channel slots and of the writer, and the
    assignment of data-channel handles to slots with the free list that
    recycles them.  The per-second printer is output only and is not
    modelled. *)

From S2P Require Import Prelude.

Local Open Scope Z_scope.

Record PionTrace := mkPionTrace {
  enabled : Z;
  ReadFrames : Z;
  ReadBytes : Z;
  DCFrames : list Z;
  DCBytes : list Z;
  DCNs : list Z;
  DCQDepth : list Z;
  WriteFrames : Z;
  WriteBytes : Z;
  WriteNs : Z;
  dcIndex : gmap string Z;
  nextIdx : Z;
  freeIdx : list Z
}.

Definition Trace0 : PionTrace := {|
  enabled := 0; ReadFrames := 0; ReadBytes := 0;
  DCFrames := replicate 16 0; DCBytes := replicate 16 0;
  DCNs := replicate 16 0; DCQDepth := replicate 16 0;
  WriteFrames := 0; WriteBytes := 0; WriteNs := 0;
  dcIndex := ∅; nextIdx := 0; freeIdx := [] |}.

Definition Enabled (t : PionTrace) : bool := negb (enabled t =? 0).

(** The slot table is the only part [DCIdx] and [ReleaseDC] write. *)
Definition set_slots (t : PionTrace) (m : gmap string Z) (n : Z) (fr : list Z) : PionTrace := {|
  enabled := enabled t; ReadFrames := ReadFrames t; ReadBytes := ReadBytes t;
  DCFrames := DCFrames t; DCBytes := DCBytes t; DCNs := DCNs t; DCQDepth := DCQDepth t;
  WriteFrames := WriteFrames t; WriteBytes := WriteBytes t; WriteNs := WriteNs t;
  dcIndex := m; nextIdx := n; freeIdx := fr |}.

Definition DCIdx (t : PionTrace) (dcHandle : string) : Z * PionTrace :=
  match dcIndex t !! dcHandle with
  | Some idx => (idx, t)
  | None =>
      match last (freeIdx t) with
      | Some idx =>
          (idx, set_slots t (<[dcHandle := idx]> (dcIndex t)) (nextIdx t)
                  (take (length (freeIdx t) - 1) (freeIdx t)))
      | None =>
          let idx := nextIdx t in
          let idx := if 16 <=? idx then 15 else idx in
          (idx, set_slots t (<[dcHandle := idx]> (dcIndex t)) (nextIdx t + 1) (freeIdx t))
      end
  end.

Definition ReleaseDC (t : PionTrace) (dcHandle : string) : PionTrace :=
  match dcIndex t !! dcHandle with
  | Some idx =>
      set_slots t (delete dcHandle (dcIndex t)) (nextIdx t)
        (if idx <? 15 then freeIdx t ++ [idx] else freeIdx t)
  | None => t
  end.

(** [StartTracing] flips the flag on its first call only; the result says
    whether this call started the printer. *)
Definition StartTracing (t : PionTrace) : bool * PionTrace :=
  if enabled t =? 0 then
    (true, {| enabled := 1; ReadFrames := ReadFrames t; ReadBytes := ReadBytes t;
       DCFrames := DCFrames t; DCBytes := DCBytes t; DCNs := DCNs t; DCQDepth := DCQDepth t;
       WriteFrames := WriteFrames t; WriteBytes := WriteBytes t; WriteNs := WriteNs t;
       dcIndex := dcIndex t; nextIdx := nextIdx t; freeIdx := freeIdx t |})
  else (false, t).

Record traceSnapshot := mkSnapshot {
  s_ReadFrames : Z; s_ReadBytes : Z;
  s_DCFrames : list Z; s_DCBytes : list Z; s_DCNs : list Z;
  s_WriteFrames : Z; s_WriteBytes : Z; s_WriteNs : Z
}.

Definition captureSnapshot (t : PionTrace) : traceSnapshot := {|
  s_ReadFrames := ReadFrames t; s_ReadBytes := ReadBytes t;
  s_DCFrames := DCFrames t; s_DCBytes := DCBytes t; s_DCNs := DCNs t;
  s_WriteFrames := WriteFrames t; s_WriteBytes := WriteBytes t; s_WriteNs := WriteNs t |}.

(** ** Slot discipline *)

(** A slot below 15 is either held by exactly one handle or listed once in the
    free list; slot 15 is the shared overflow slot. *)
Record slots_ok (t : PionTrace) : Prop := {
  so_next : 0 <= nextIdx t;
  so_used : forall h i, dcIndex t !! h = Some i -> 0 <= i <= 15 /\ i < nextIdx t;
  so_excl : forall h1 h2 i, i < 15 ->
    dcIndex t !! h1 = Some i -> dcIndex t !! h2 = Some i -> h1 = h2;
  so_free : forall i, i ∈ freeIdx t -> 0 <= i < 15 /\ i < nextIdx t;
  so_nodup : NoDup (freeIdx t);
  so_disj : forall h i, dcIndex t !! h = Some i -> i ∉ freeIdx t;
  so_total : forall i, 0 <= i < 15 -> i < nextIdx t ->
    i ∈ freeIdx t \/ exists h, dcIndex t !! h = Some i
}.

Lemma slots_ok_init : slots_ok Trace0.
Proof. split; simpl; intros; try done; try (by constructor); try lia; set_solver. Qed.

Lemma last_take_split {A} (l : list A) (x : A) :
  last l = Some x -> l = take (length l - 1) l ++ [x].
Proof.
  intros H. apply last_Some in H as [l' ->].
  rewrite length_app, Nat.add_sub, take_app_length. done.
Qed.

Lemma slots_ok_DCIdx t h : slots_ok t -> slots_ok (DCIdx t h).2.
Proof.
  intros Hok. destruct Hok as [Hn Hu He Hf Hnd Hd Ht]. unfold DCIdx.
  destruct (dcIndex t !! h) eqn:Eh; [done|].
  destruct (last (freeIdx t)) as [idx|] eqn:El; simpl.
  - pose proof (last_take_split _ _ El) as Hsplit.
    set (fr := take _ _) in *. rewrite Hsplit in Hf, Hnd, Hd, Ht.
    apply NoDup_app in Hnd as (Hnd & Hni & _).
    assert (Hidx : 0 <= idx < 15 /\ idx < nextIdx t) by (apply Hf; set_solver).
    split; simpl; [done| | | | done | | ].
    + intros k i [[<- <-]|[Hk Hl]]%lookup_insert_Some; [lia|eauto].
    + intros k1 k2 i Hi [[<- <-]|[Hk1 Hl1]]%lookup_insert_Some [[<- Hx]|[Hk2 Hl2]]%lookup_insert_Some;
        [done| | |eauto].
      * exfalso. apply (Hd _ _ Hl2). set_solver.
      * subst. exfalso. apply (Hd _ _ Hl1). set_solver.
    + intros i Hi. apply Hf. set_solver.
    + intros k i [[<- <-]|[Hk Hl]]%lookup_insert_Some; [set_solver|].
      intros Hi. apply (Hd _ _ Hl). set_solver.
    + intros i Hi Hi'. destruct (Ht i Hi Hi') as [Hin|[k Hk]].
      * apply elem_of_app in Hin as [Hin| ->%list_elem_of_singleton]; [by left|].
        right. exists h. by simplify_map_eq.
      * right. exists k. rewrite lookup_insert_ne; [done|]. intros ->. congruence.
  - assert (Hnil : freeIdx t = []) by (by apply last_None).
    split; simpl; [lia| | | | done | | ].
    + intros k i [[<- <-]|[Hk Hl]]%lookup_insert_Some.
      * destruct (16 <=? nextIdx t) eqn:E16; go_bool; lia.
      * apply Hu in Hl. lia.
    + intros k1 k2 i Hi [[<- <-]|[Hk1 Hl1]]%lookup_insert_Some [[<- Hx]|[Hk2 Hl2]]%lookup_insert_Some;
        [done| | |eauto].
      * apply Hu in Hl2. destruct (16 <=? nextIdx t) eqn:E16; go_bool; lia.
      * apply Hu in Hl1. destruct (16 <=? nextIdx t) eqn:E16; go_bool; lia.
    + intros i Hi. apply Hf in Hi. lia.
    + intros k i _. rewrite Hnil. set_solver.
    + intros i Hi Hi'. destruct (decide (i = nextIdx t)) as [->|Hne].
      * right. exists h. rewrite lookup_insert_eq.
        destruct (16 <=? nextIdx t) eqn:E16; go_bool; [lia|done].
      * destruct (Ht i Hi ltac:(lia)) as [Hin|[k Hk]]; [by left|].
        right. exists k. rewrite lookup_insert_ne; [done|]. intros ->. congruence.
Qed.

Lemma slots_ok_ReleaseDC t h : slots_ok t -> slots_ok (ReleaseDC t h).
Proof.
  intros Hok. destruct Hok as [Hn Hu He Hf Hnd Hd Ht]. unfold ReleaseDC.
  destruct (dcIndex t !! h) as [idx|] eqn:Eh; [|by split].
  pose proof (Hu _ _ Eh) as Hidx.
  split; simpl; [done| | | | | | ].
  - intros k i [Hk Hl]%lookup_delete_Some. eauto.
  - intros k1 k2 i Hi [_ Hl1]%lookup_delete_Some [_ Hl2]%lookup_delete_Some. eauto.
  - intros i. destruct (idx <? 15) eqn:E; go_bool; [|apply Hf].
    intros [Hi| ->%list_elem_of_singleton]%elem_of_app; [eauto|lia].
  - destruct (idx <? 15) eqn:E; go_bool; [|done].
    apply NoDup_app. split_and!; [done| |apply NoDup_singleton].
    intros x Hx ->%list_elem_of_singleton. by apply (Hd _ _ Eh).
  - intros k i [Hk Hl]%lookup_delete_Some. pose proof (Hd _ _ Hl).
    destruct (idx <? 15) eqn:E; go_bool; [|done].
    intros [Hi| ->%list_elem_of_singleton]%elem_of_app; [done|].
    apply Hk. symmetry. by apply (He k h idx).
  - intros i Hi Hi'. destruct (Ht i Hi Hi') as [Hin|[k Hk]].
    + left. destruct (idx <? 15); set_solver.
    + destruct (decide (k = h)) as [->|Hne].
      * left. assert (i = idx) as -> by congruence.
        destruct (idx <? 15) eqn:E; go_bool; [set_solver|lia].
      * right. exists k. by rewrite lookup_delete_ne.
Qed.

(** Operations on the slot table, for statements about every history. *)
Inductive slot_op := OpIdx (h : string) | OpRelease (h : string).

Definition run_slot_op (t : PionTrace) (o : slot_op) : PionTrace :=
  match o with OpIdx h => (DCIdx t h).2 | OpRelease h => ReleaseDC t h end.

Lemma slots_ok_run t ops : slots_ok t -> slots_ok (fold_left run_slot_op ops t).
Proof.
  revert t. induction ops as [|o ops IH]; intros t H; [done|].
  apply IH. destruct o; simpl; auto using slots_ok_DCIdx, slots_ok_ReleaseDC.
Qed.

Lemma DCIdx_lookup t h : dcIndex (DCIdx t h).2 !! h = Some (DCIdx t h).1.
Proof.
  unfold DCIdx. destruct (dcIndex t !! h) eqn:E; [done|].
  destruct (last (freeIdx t)); simpl; by rewrite lookup_insert_eq.
Qed.

(** After any history of slot requests and releases, the slot handed out
    for a handle is an index of the sixteen-entry counter arrays; a slot below
    the overflow slot belongs to that handle alone; asking again gives the
    same slot and changes nothing; and every slot below the overflow slot that
    was ever handed out is either held or on the free list, so churn leaks
    none. *)
Theorem trace_slot_discipline (ops : list slot_op) (h : string) :
  let t := fold_left run_slot_op ops Trace0 in
  let r := DCIdx t h in
  0 <= r.1 < 16
  /\ (r.1 < 15 -> forall h', dcIndex r.2 !! h' = Some r.1 -> h' = h)
  /\ DCIdx r.2 h = r
  /\ forall i, 0 <= i < 15 -> i < nextIdx r.2 ->
       i ∈ freeIdx r.2 \/ exists h', dcIndex r.2 !! h' = Some i.
Proof.
  intros t r.
  assert (Hok : slots_ok r.2) by (apply slots_ok_DCIdx, slots_ok_run, slots_ok_init).
  pose proof (DCIdx_lookup t h) as Hl. fold r in Hl.
  split; [|split; [|split]].
  - destruct (so_used _ Hok _ _ Hl). lia.
  - intros Hlt h' Hh'. by apply (so_excl _ Hok h' h r.1).
  - unfold DCIdx at 1. rewrite Hl. by destruct r.
  - apply (so_total _ Hok).
Qed.
