(* ===== verification/Registry.v ===== *)
(** * The handle registry (src/go/internal/pionserver/registry.go)

    Handles name PeerConnections and DataChannels; a DataChannel is a child of
    the PeerConnection that owns it.  The model keeps the five maps of the
    source.  A resource is identified by the object it points to; a
    data-channel send state by its address, since the registry only stores and
    hands out the pointer (DCSend.v models what is behind it).  Time stamps are
    nanoseconds.  [generateHandle] is a UUID: the handle is an argument of the
    registering operations. *)

From S2P Require Import Prelude Trace.

Local Open Scope Z_scope.

Inductive resource :=
  | ResPC (pc : positive)
  | ResDC (dc : positive)
  | ResOther (n : positive).

#[export] Instance resource_eq_dec : EqDecision resource.
Proof. solve_decision. Defined.

(** Whether the dynamic type of the resource implements [io.Closer]. *)
Definition is_closer (r : resource) : bool :=
  match r with ResPC _ | ResDC _ => true | ResOther _ => false end.

Record Registry := mkRegistry {
  resources : gmap string resource;
  parent : gmap string string;
  children : gmap string (list string);
  dcSendStates : gmap string positive;
  lastSeen : gmap string Z
}.

Definition NewRegistry : Registry := mkRegistry ∅ ∅ ∅ ∅ ∅.

Definition second : Z := 1000000000.

Definition newStampLocked (r : Registry) (handle : string) (now : Z) : Registry :=
  mkRegistry (resources r) (parent r) (children r) (dcSendStates r)
    (<[handle := now]> (lastSeen r)).

(** The new value of a stamp: it is stored only when more than a second old. *)
Definition touchStamp (now st : Z) : Z := if second <? now - st then now else st.

Definition RegisterDCSendState (r : Registry) (handle : string) (state : positive)
  : bool * Registry :=
  match dcSendStates r !! handle with
  | Some _ => (false, r)
  | None =>
      (true, mkRegistry (resources r) (parent r) (children r)
               (<[handle := state]> (dcSendStates r)) (lastSeen r))
  end.

Definition LookupDCSendState (r : Registry) (handle : string) : option positive :=
  dcSendStates r !! handle.

Definition removeDCSendStateLocked (r : Registry) (handle : string)
  : option positive * Registry :=
  match dcSendStates r !! handle with
  | Some state =>
      (Some state, mkRegistry (resources r) (parent r) (children r)
                     (delete handle (dcSendStates r)) (lastSeen r))
  | None => (None, r)
  end.

Definition RemoveDCSendState (r : Registry) (handle : string)
  : option positive * Registry := removeDCSendStateLocked r handle.

Definition Register (r : Registry) (handle : string) (res : resource) (now : Z) : Registry :=
  newStampLocked
    (mkRegistry (<[handle := res]> (resources r)) (parent r) (children r)
       (dcSendStates r) (lastSeen r)) handle now.

Definition RegisterChild (r : Registry) (handle : string) (res : resource)
    (parentHandle : string) (now : Z) : Registry :=
  newStampLocked
    (mkRegistry (<[handle := res]> (resources r))
       (<[handle := parentHandle]> (parent r))
       (<[parentHandle := default [] (children r !! parentHandle) ++ [handle]]> (children r))
       (dcSendStates r) (lastSeen r)) handle now.

Definition set_lastSeen (r : Registry) (ls : gmap string Z) : Registry :=
  mkRegistry (resources r) (parent r) (children r) (dcSendStates r) ls.

Definition Lookup (r : Registry) (handle : string) (now : Z) : option resource * Registry :=
  match resources r !! handle with
  | Some res => (Some res, set_lastSeen r (alter (touchStamp now) handle (lastSeen r)))
  | None => (None, r)
  end.

(** The handles met by following parent links from [h]; the loop of the source
    ends when a handle has no parent.  [size (parent r)] steps are enough on a
    well-formed registry ([parentChain_complete]). *)
Fixpoint parentChain (fuel : nat) (r : Registry) (h : string) : list string :=
  match fuel with
  | O => []
  | S n => match parent r !! h with
           | Some p => p :: parentChain n r p
           | None => []
           end
  end.

Definition ancestors (r : Registry) (h : string) : list string :=
  parentChain (size (parent r)) r h.

(** [clk k] is the reading of the clock when the stamp of [k] is refreshed:
    every [touchStamp] of the chain reads the clock again. *)
Definition Touch (r : Registry) (handle : string) (clk : string -> Z) : Registry :=
  match lastSeen r !! handle with
  | None => r
  | Some _ =>
      set_lastSeen r
        (fold_left (fun ls k => alter (touchStamp (clk k)) k ls)
           (handle :: ancestors r handle) (lastSeen r))
  end.

(** ** Cascade deletion *)

(** [append(kids[:i], kids[i+1:]...)] at the first [i] with [kids[i] = h]. *)
Fixpoint remove_first (h : string) (kids : list string) : list string :=
  match kids with
  | [] => []
  | k :: ks => if decide (k = h) then ks else k :: remove_first h ks
  end.

(** What [collectLocked] works on: the registry, the global trace, and the two
    accumulators passed by pointer. *)
Record collection := mkCollection {
  c_reg : Registry;
  c_trace : PionTrace;
  c_closers : list resource;
  c_states : list positive
}.

Definition detachChildren (r : Registry) (h : string) : Registry :=
  mkRegistry (resources r) (parent r) (delete h (children r)) (dcSendStates r) (lastSeen r).

Definition unlinkParent (r : Registry) (h : string) : Registry :=
  match parent r !! h with
  | None => r
  | Some p =>
      let kids := default [] (children r !! p) in
      mkRegistry (resources r) (delete h (parent r))
        (if decide (h ∈ kids) then <[p := remove_first h kids]> (children r) else children r)
        (dcSendStates r) (lastSeen r)
  end.

Definition dropEntry (r : Registry) (h : string) : Registry :=
  mkRegistry (delete h (resources r)) (parent r) (children r) (dcSendStates r)
    (delete h (lastSeen r)).

(** The part of [collectLocked] after the cascade: everything that concerns
    the handle itself. *)
Definition collectSelf (c : collection) (h : string) (res : resource) : collection :=
  let (state, r1) := removeDCSendStateLocked (c_reg c) h in
  mkCollection (dropEntry (unlinkParent r1 h) h)
    (ReleaseDC (c_trace c) h)
    (c_closers c ++ (if is_closer res then [res] else []))
    (c_states c ++ (match state with Some s => [s] | None => [] end)).

Fixpoint collectLocked (fuel : nat) (c : collection) (h : string) : collection :=
  match fuel with
  | O => c
  | S n =>
      match resources (c_reg c) !! h with
      | None => c
      | Some res =>
          let c1 :=
            match children (c_reg c) !! h with
            | Some kids =>
                fold_left (collectLocked n) kids
                  (mkCollection (detachChildren (c_reg c) h) (c_trace c)
                     (c_closers c) (c_states c))
            | None => c
            end in
          collectSelf c1 h res
      end
  end.

(** Every nested call consumes one entry of [children], so this many calls
    deep is as far as the recursion can go ([collectLocked_fuel]). *)
Definition collectFuel (c : collection) : nat := S (size (children (c_reg c))).

Definition collect (c : collection) (h : string) : collection :=
  collectLocked (collectFuel c) c h.

(** [Delete]: the error for an unknown handle, or the registry after the
    cascade with what [closeCollected] then shuts down, in order: all the send
    states first, then all the closers. *)
Inductive shutdown := CloseState (s : positive) | CloseResource (r : resource).

Definition closeCollected (closers : list resource) (states : list positive) : list shutdown :=
  map CloseState states ++ map CloseResource closers.

Definition Delete (r : Registry) (tr : PionTrace) (handle : string)
  : option (Registry * PionTrace * list shutdown) :=
  match resources r !! handle with
  | None => None
  | Some _ =>
      let c := collect (mkCollection r tr [] []) handle in
      Some (c_reg c, c_trace c, closeCollected (c_closers c) (c_states c))
  end.

(** ** Expiry *)

Definition expired (r : Registry) (now maxAge : Z) (h : string) : bool :=
  match lastSeen r !! h with
  | Some st => maxAge <? now - st
  | None => false
  end.

(** The last handle of the parent chain. *)
Definition rootOf (r : Registry) (h : string) : string :=
  default h (last (ancestors r h)).

(** [isLivePeerConnection]; [connected pc] is pion's
    [pc.ConnectionState() == Connected] at the time of the sweep. *)
Definition isLivePeerConnection (connected : positive -> bool) (res : option resource) : bool :=
  match res with Some (ResPC pc) => connected pc | _ => false end.

(** One sweep.  [order] is the order in which the range over the map visits
    the handles, which Go leaves open. *)
Definition Cleanup (connected : positive -> bool) (r : Registry) (tr : PionTrace)
    (order : list string) (now maxAge : Z) (clk : string -> Z)
  : Registry * PionTrace * list shutdown :=
  let exp := filter (fun h => expired r now maxAge h = true) order in
  let live h := isLivePeerConnection connected (resources r !! rootOf r h) in
  let spared := filter (fun h => live h = true) exp in
  let reap := filter (fun h => live h = false) exp in
  let c := fold_left collect reap (mkCollection r tr [] []) in
  (fold_left (fun r h => Touch r h clk) spared (c_reg c), c_trace c,
   closeCollected (c_closers c) (c_states c)).

(** ** Well-formedness

    [D] is the set of handles whose [children] entry is detached at the moment
    (empty between operations); [rank] decreases along parent links. *)

Record reg_wf (D : gset string) (rank : string -> nat) (r : Registry) : Prop := {
  rw_seen : dom (lastSeen r) = dom (resources r);
  rw_kids : forall p kids, children r !! p = Some kids ->
    NoDup kids /\ forall k, k ∈ kids -> parent r !! k = Some p;
  rw_par : forall h p, parent r !! h = Some p ->
    h ∈ dom (resources r)
    /\ (p ∈ D \/ exists kids, children r !! p = Some kids /\ h ∈ kids);
  rw_det : forall p, p ∈ D -> children r !! p = None;
  rw_rank : forall h p, parent r !! h = Some p -> (rank p < rank h)%nat
}.

Definition wf (r : Registry) : Prop := exists rank, reg_wf ∅ rank r.

(** [k] is [h] or one of its descendants. *)
Definition below (r : Registry) (h k : string) : Prop :=
  rtc (fun a b => parent r !! a = Some b) k h.

Definition acyclic (r : Registry) : Prop :=
  exists rank : string -> nat, forall h p, parent r !! h = Some p -> (rank p < rank h)%nat.

Lemma wf_acyclic r : wf r -> acyclic r.
Proof. intros [rank H]. exists rank. apply H. Qed.

Lemma parentChain_below n r h k : k ∈ parentChain n r h -> below r k h.
Proof.
  revert h. induction n as [|n IH]; simpl; intros h; [set_solver|].
  destruct (parent r !! h) as [p|] eqn:E; [|set_solver].
  intros [->|Hk]%elem_of_cons; [by apply rtc_once|].
  eapply rtc_l; [exact E|]. by apply IH.
Qed.

Lemma parentChain_rank rank n r h :
  (forall h p, parent r !! h = Some p -> (rank p < rank h)%nat) ->
  Forall (fun k => (rank k < rank h)%nat) (parentChain n r h) /\ NoDup (parentChain n r h).
Proof.
  intros Hr. revert h. induction n as [|n IH]; simpl; intros h; [split; constructor|].
  destruct (parent r !! h) as [p|] eqn:E; [|split; constructor].
  destruct (IH p) as [HF HN]. apply Hr in E. split.
  - constructor; [done|]. eapply Forall_impl; [exact HF|]. simpl. lia.
  - constructor; [|done]. rewrite Forall_forall in HF. intros Hp. apply HF in Hp. lia.
Qed.

(** A chain that has not ended after [n] steps has met [n] handles that have a
    parent. *)
Lemma parentChain_full n r h :
  length (parentChain n r h) = n \/
  exists z, last (h :: parentChain n r h) = Some z /\ parent r !! z = None.
Proof.
  revert h. induction n as [|n IH]; simpl; intros h; [by left|].
  destruct (parent r !! h) as [p|] eqn:E; [|right; by exists h].
  destruct (IH p) as [IH'|(z & Hz & Hn)]; [left; simpl; lia|].
  right. exists z. by rewrite last_cons_cons.
Qed.

Lemma parentChain_init_dom n r h :
  forall k, k ∈ take (length (parentChain n r h)) (h :: parentChain n r h) -> k ∈ dom (parent r).
Proof.
  revert h. induction n as [|n IH]; simpl; intros h k; [set_solver|].
  destruct (parent r !! h) as [p|] eqn:E; simpl; [|set_solver].
  intros [->|Hk]%elem_of_cons; [apply elem_of_dom; eauto|]. by apply (IH p).
Qed.

Lemma NoDup_length_dom {V} (l : list string) (m : gmap string V) :
  NoDup l -> (forall k, k ∈ l -> k ∈ dom m) -> (length l <= size m)%nat.
Proof.
  intros Hn Hd. rewrite <- size_dom, <- (size_list_to_set (C := gset string)) by done.
  apply subseteq_size. intros k Hk. apply Hd. set_solver.
Qed.

(** Fuel [size (parent r)] reaches the end of the chain. *)
Lemma parentChain_complete r h :
  acyclic r ->
  exists z, last (h :: ancestors r h) = Some z /\ parent r !! z = None.
Proof.
  intros [rank Hr]. unfold ancestors.
  destruct (parentChain_full (size (parent r)) r h) as [Hlen|?]; [|done].
  destruct (parentChain_rank rank (size (parent r)) r h Hr) as [HF HN].
  set (l := parentChain _ r h) in *.
  destruct (last (h :: l)) as [z|] eqn:Ez; [|by apply last_None in Ez].
  exists z. split; [done|]. destruct (parent r !! z) as [p|] eqn:Ep; [exfalso|done].
  assert (HN' : NoDup (h :: l)).
  { constructor; [|done]. rewrite Forall_forall in HF. intros Hh. apply HF in Hh. lia. }
  assert (length (h :: l) <= size (parent r))%nat; [|simpl in *; lia].
  apply NoDup_length_dom; [done|]. intros k Hk.
  apply last_Some in Ez as [l' Hl']. rewrite Hl' in Hk.
  apply elem_of_app in Hk as [Hk| ->%list_elem_of_singleton]; [|apply elem_of_dom; eauto].
  apply (parentChain_init_dom (size (parent r)) r h). fold l. rewrite Hl'.
  assert (length l = length l') as ->.
  { assert (length (h :: l) = length (l' ++ [z])) as He by (by rewrite Hl').
    rewrite length_app in He. simpl in He. lia. }
  by rewrite take_app_length.
Qed.

Lemma chain_last_below n r h k z :
  last (h :: parentChain n r h) = Some z -> parent r !! z = None ->
  below r k h -> k = h \/ k ∈ parentChain n r h.
Proof.
  intros Hz Hn Hb. revert n Hz. induction Hb as [x|x y k' Hxy Hb IH]; intros n Hz; [by left|].
  right. destruct n as [|n]; simpl in *; [by simplify_eq|].
  rewrite Hxy in *. rewrite last_cons_cons in Hz.
  destruct (IH n Hz) as [->|?]; set_solver.
Qed.

Lemma ancestors_below r h k :
  acyclic r -> below r k h <-> k = h \/ k ∈ ancestors r h.
Proof.
  intros Ha. destruct (parentChain_complete r h Ha) as (z & Hz & Hn). split.
  - by eapply chain_last_below.
  - intros [->|Hk]; [apply rtc_refl|by eapply parentChain_below].
Qed.

(** The registered handles at or below [h]. *)
Definition desc (r : Registry) (h : string) : gset string :=
  filter (fun k => h = k \/ h ∈ ancestors r k) (dom (resources r)).

Lemma elem_of_desc r h k :
  acyclic r -> k ∈ desc r h <-> k ∈ dom (resources r) /\ below r h k.
Proof.
  intros Ha. unfold desc. rewrite elem_of_filter, (ancestors_below r k h Ha). tauto.
Qed.

(** ** Removing a set of handles *)

Definition drop_keys {V} (R : gset string) (m : gmap string V) : gmap string V :=
  filter (fun kv => kv.1 ∉ R) m.

Definition drop_elems (R : gset string) (l : list string) : list string :=
  filter (fun k => k ∉ R) l.

Definition prune (R : gset string) (r : Registry) : Registry :=
  mkRegistry (drop_keys R (resources r)) (drop_keys R (parent r))
    (drop_elems R <$> drop_keys R (children r))
    (drop_keys R (dcSendStates r)) (drop_keys R (lastSeen r)).

Lemma drop_keys_lookup {V} (R : gset string) (m : gmap string V) k :
  drop_keys R m !! k = if decide (k ∈ R) then None else m !! k.
Proof.
  unfold drop_keys. rewrite map_lookup_filter.
  destruct (m !! k) as [v|]; simpl; [|by case_decide]. case_guard; case_decide; done.
Qed.

Lemma elem_of_drop_elems R l k : k ∈ drop_elems R l <-> k ∉ R /\ k ∈ l.
Proof. unfold drop_elems. by rewrite list_elem_of_filter. Qed.

Lemma drop_keys_empty {V} (m : gmap string V) : drop_keys ∅ m = m.
Proof. apply map_eq. intros k. rewrite drop_keys_lookup. case_decide; [set_solver|done]. Qed.

Lemma drop_keys_union {V} (R1 R2 : gset string) (m : gmap string V) :
  drop_keys R2 (drop_keys R1 m) = drop_keys (R1 ∪ R2) m.
Proof. apply map_eq. intros k. rewrite !drop_keys_lookup. repeat case_decide; set_solver. Qed.

Lemma drop_elems_union (R1 R2 : gset string) (l : list string) :
  drop_elems R2 (drop_elems R1 l) = drop_elems (R1 ∪ R2) l.
Proof. unfold drop_elems. rewrite list_filter_filter. apply list_filter_iff. set_solver. Qed.

Lemma drop_elems_id (R : gset string) (l : list string) :
  (forall k, k ∈ l -> k ∉ R) -> drop_elems R l = l.
Proof.
  unfold drop_elems. induction l as [|a l IH]; intros H; [done|].
  rewrite filter_cons, decide_True by set_solver. f_equal. apply IH. set_solver.
Qed.

Lemma prune_empty r : prune ∅ r = r.
Proof.
  destruct r. unfold prune. simpl. rewrite !drop_keys_empty. f_equal.
  apply map_eq. intros k. rewrite lookup_fmap. destruct (_ !! k) as [l|]; simpl; [|done].
  f_equal. apply drop_elems_id. set_solver.
Qed.

Lemma prune_union R1 R2 r : prune R2 (prune R1 r) = prune (R1 ∪ R2) r.
Proof.
  unfold prune. simpl. rewrite !drop_keys_union. f_equal.
  apply map_eq. intros k. rewrite !lookup_fmap, !drop_keys_lookup, !lookup_fmap, !drop_keys_lookup.
  repeat case_decide; try set_solver.
  destruct (children r !! k); simpl; [|done]. by rewrite drop_elems_union.
Qed.

Arguments prune : simpl never.

Lemma prune_children_lookup R r p :
  children (prune R r) !! p =
    if decide (p ∈ R) then None else drop_elems R <$> children r !! p.
Proof. unfold prune. simpl. rewrite lookup_fmap, drop_keys_lookup. by case_decide. Qed.

Lemma prune_parent_lookup R r k :
  parent (prune R r) !! k = if decide (k ∈ R) then None else parent r !! k.
Proof. apply drop_keys_lookup. Qed.

Lemma dom_drop_keys {V} (R : gset string) (m : gmap string V) :
  dom (drop_keys R m) = dom m ∖ R.
Proof.
  apply set_eq. intros k. rewrite elem_of_difference, !elem_of_dom, drop_keys_lookup.
  case_decide; [|tauto]. split; [by intros [? ?]|tauto].
Qed.

Lemma prune_dom R r : dom (resources (prune R r)) = dom (resources r) ∖ R.
Proof. apply dom_drop_keys. Qed.

Lemma prune_children_size R r : (size (children (prune R r)) <= size (children r))%nat.
Proof.
  unfold prune. simpl. rewrite map_size_fmap. apply map_subseteq_size. apply map_filter_subseteq.
Qed.

(** A set of handles that contains the children of its members. *)
Definition closed (r : Registry) (R : gset string) : Prop :=
  forall k p, parent r !! k = Some p -> p ∈ R -> k ∈ R.

Lemma closed_below r R h k : closed r R -> h ∈ R -> below r h k -> k ∈ R.
Proof.
  intros Hc Hh Hb. induction Hb as [x|x y z Hxy Hb IH]; [done|]. eapply Hc; eauto.
Qed.

Lemma below_prune r R h k :
  closed r R -> k ∉ R -> below r h k <-> below (prune R r) h k.
Proof.
  intros Hc Hk. split; intros Hb; revert Hk; induction Hb as [x|x y z Hxy Hb IH]; intros Hk;
    try apply rtc_refl.
  - assert (y ∉ R) by (intros Hy; by apply Hk, (Hc x y)).
    eapply rtc_l; [|by apply IH]. by rewrite prune_parent_lookup, decide_False.
  - rewrite prune_parent_lookup in Hxy. case_decide; [done|].
    assert (y ∉ R) by (intros Hy; by apply Hk, (Hc x y)).
    eapply rtc_l; [exact Hxy|by apply IH].
Qed.

Lemma reg_wf_acyclic D rank r : reg_wf D rank r -> acyclic r.
Proof. intros H. exists rank. apply H. Qed.

Lemma prune_wf D rank r R :
  reg_wf D rank r -> closed r R -> (forall d, d ∈ D -> d ∉ R) -> reg_wf D rank (prune R r).
Proof.
  intros Hw Hc HD. split.
  - unfold prune. simpl. rewrite !dom_drop_keys. by rewrite (rw_seen _ _ _ Hw).
  - intros p kids. rewrite prune_children_lookup. case_decide as Hp; [done|].
    destruct (children r !! p) as [ks|] eqn:E; simpl; intros ?; simplify_eq.
    destruct (rw_kids _ _ _ Hw _ _ E) as [Hn Hk]. split; [by apply NoDup_filter|].
    intros k [HkR Hin]%elem_of_drop_elems. rewrite drop_keys_lookup, decide_False; auto.
  - intros h p. rewrite prune_parent_lookup. case_decide as Hh; [done|]. intros Hp.
    destruct (rw_par _ _ _ Hw _ _ Hp) as [Hd [HpD|(ks & Hks & Hin)]]; rewrite prune_dom;
      (split; [set_solver|]); [by left|right].
    assert (p ∉ R) by (intros ?; by apply Hh, (Hc h p)).
    exists (drop_elems R ks). rewrite prune_children_lookup, decide_False, Hks by done.
    split; [done|]. by apply elem_of_drop_elems.
  - intros p Hp. rewrite prune_children_lookup, (rw_det _ _ _ Hw _ Hp). by case_decide.
  - intros h p. rewrite prune_parent_lookup. case_decide; [done|]. apply Hw.
Qed.

Lemma desc_prune D rank r R k :
  reg_wf D rank r -> closed r R -> (forall d, d ∈ D -> d ∉ R) ->
  desc (prune R r) k = desc r k ∖ R.
Proof.
  intros Hw Hc HD. apply set_eq. intros x.
  rewrite elem_of_difference, !elem_of_desc, prune_dom
    by eauto using reg_wf_acyclic, prune_wf.
  rewrite elem_of_difference. split.
  - intros [[Hd Hx] Hb]. rewrite <- below_prune in Hb by done. done.
  - intros [[Hd Hb] Hx]. rewrite below_prune in Hb by done. done.
Qed.

Lemma desc_closed D rank r h :
  reg_wf D rank r -> closed r (desc r h).
Proof.
  intros Hw k p Hp. rewrite !elem_of_desc by eauto using reg_wf_acyclic.
  intros [_ Hb]. split; [by apply (rw_par _ _ _ Hw k p)|]. eapply rtc_l; eauto.
Qed.

Lemma closed_empty r : closed r ∅.
Proof. intros k p _ Hp. by apply not_elem_of_empty in Hp. Qed.

Lemma closed_union r R1 R2 : closed r R1 -> closed r R2 -> closed r (R1 ∪ R2).
Proof. unfold closed. set_solver. Qed.

(** ** The cascade removes exactly the subtree *)

Definition closerAt (r : Registry) (k : string) : option resource :=
  match resources r !! k with
  | Some res => if is_closer res then Some res else None
  | None => None
  end.

Definition closersOf (r : Registry) (R : gset string) : list resource :=
  omap (closerAt r) (elements R).

Definition statesOf (r : Registry) (R : gset string) : list positive :=
  omap (fun k => dcSendStates r !! k) (elements R).

(** From [c] to [c'] the handles [R] were removed, and what hung on them was
    added to the accumulators, each item once. *)
Record collected (R : gset string) (c c' : collection) : Prop := {
  cl_reg : c_reg c' = prune R (c_reg c);
  cl_closers : c_closers c' ≡ₚ c_closers c ++ closersOf (c_reg c) R;
  cl_states : c_states c' ≡ₚ c_states c ++ statesOf (c_reg c) R;
  cl_trace : dcIndex (c_trace c') = drop_keys R (dcIndex (c_trace c))
}.

Lemma omap_elements_union {B} (f : string -> option B) (R1 R2 : gset string) :
  R1 ## R2 ->
  omap f (elements (R1 ∪ R2)) ≡ₚ omap f (elements R1) ++ omap f (elements R2).
Proof. intros H. rewrite <- omap_app. apply omap_Permutation. by apply elements_disj_union. Qed.

Lemma omap_elements_ext {B} (f g : string -> option B) (R : gset string) :
  (forall k, k ∈ R -> f k = g k) -> omap f (elements R) = omap g (elements R).
Proof. intros H. apply list_omap_ext. apply Forall_Forall2_diag, Forall_forall.
  intros k Hk. apply H. set_solver. Qed.

Lemma collected_refl c : collected ∅ c c.
Proof.
  split; [by rewrite prune_empty| | |by rewrite drop_keys_empty];
    unfold closersOf, statesOf; rewrite elements_empty; simpl; by rewrite app_nil_r.
Qed.

Lemma closersOf_prune R S r : R ## S -> closersOf (prune R r) S = closersOf r S.
Proof.
  intros Hd. apply omap_elements_ext. intros k Hk. unfold closerAt, prune. simpl.
  rewrite drop_keys_lookup, decide_False; [done|set_solver].
Qed.

Lemma statesOf_prune R S r : R ## S -> statesOf (prune R r) S = statesOf r S.
Proof.
  intros Hd. apply omap_elements_ext. intros k Hk. unfold prune. simpl.
  rewrite drop_keys_lookup, decide_False; [done|set_solver].
Qed.

Lemma collected_trans R1 R2 c c1 c2 :
  R1 ## R2 -> collected R1 c c1 -> collected R2 c1 c2 -> collected (R1 ∪ R2) c c2.
Proof.
  intros Hd [Hr1 Hc1 Hs1 Ht1] [Hr2 Hc2 Hs2 Ht2]. split.
  - by rewrite Hr2, Hr1, prune_union.
  - rewrite Hc2, Hc1, Hr1, closersOf_prune by done. unfold closersOf.
    by rewrite omap_elements_union, app_assoc.
  - rewrite Hs2, Hs1, Hr1, statesOf_prune by done. unfold statesOf.
    by rewrite omap_elements_union, app_assoc.
  - by rewrite Ht2, Ht1, drop_keys_union.
Qed.

Lemma detach_wf D rank r h :
  reg_wf D rank r -> reg_wf ({[h]} ∪ D) rank (detachChildren r h).
Proof.
  intros Hw. split; simpl.
  - apply Hw.
  - intros p kids [Hp Hk]%lookup_delete_Some. by apply (rw_kids _ _ _ Hw).
  - intros k p Hp. destruct (rw_par _ _ _ Hw _ _ Hp) as [Hd [HD|(ks & Hks & Hin)]];
      (split; [done|]); [set_solver|].
    destruct (decide (h = p)) as [->|Hne]; [left; set_solver|right].
    exists ks. by rewrite lookup_delete_ne.
  - intros p [->%elem_of_singleton|Hp]%elem_of_union; [apply lookup_delete_eq|].
    apply lookup_delete_None. right. by apply (rw_det _ _ _ Hw).
  - apply Hw.
Qed.

Lemma remove_first_filter h l : NoDup l -> remove_first h l = drop_elems {[h]} l.
Proof.
  unfold drop_elems. induction 1 as [|k l Hk Hn IH]; [done|]. simpl. rewrite filter_cons.
  destruct (decide (k = h)) as [->|Hne].
  - rewrite decide_False by set_solver. symmetry. apply drop_elems_id. set_solver.
  - rewrite decide_True by set_solver. by rewrite IH.
Qed.

Lemma delete_drop_keys {V} (m : gmap string V) h R :
  delete h (drop_keys R m) = drop_keys (R ∪ {[h]}) m.
Proof.
  apply map_eq. intros k. rewrite lookup_delete, !drop_keys_lookup.
  repeat case_decide; set_solver.
Qed.

Lemma drop_elems_skip R h l : h ∉ l -> drop_elems (R ∪ {[h]}) l = drop_elems R l.
Proof.
  intros Hh. rewrite <- drop_elems_union. apply drop_elems_id.
  intros k [_ Hk]%elem_of_drop_elems ->%elem_of_singleton. done.
Qed.

(** Once the children of [h] are gone, what remains of [collectLocked] removes
    [h] itself. *)
Lemma unlink_children D rank r R h p :
  reg_wf D rank r -> closed r R -> h ∉ R ->
  children (unlinkParent (prune R (detachChildren r h)) h) !! p
  = children (prune (R ∪ {[h]}) r) !! p.
Proof.
  intros Hw Hc Hh.
  assert (Hch : forall q, children (prune R (detachChildren r h)) !! q
    = if decide (q ∈ R ∪ {[h]}) then None else drop_elems R <$> children r !! q).
  { intros q. rewrite prune_children_lookup. simpl. rewrite lookup_delete.
    repeat case_decide; set_solver. }
  assert (Hsame : (forall ks, children r !! p = Some ks -> h ∉ ks) ->
    children (prune R (detachChildren r h)) !! p = children (prune (R ∪ {[h]}) r) !! p).
  { intros Hks. rewrite Hch, prune_children_lookup. case_decide; [done|].
    destruct (children r !! p) eqn:E; simpl; [|done]. by rewrite drop_elems_skip by eauto. }
  assert (Hno : forall q ks, children r !! q = Some ks -> parent r !! h <> Some q -> h ∉ ks).
  { intros q ks Hq Hne Hin. by apply Hne, (rw_kids _ _ _ Hw q ks). }
  assert (Hpar : parent (prune R (detachChildren r h)) !! h = parent r !! h).
  { by rewrite prune_parent_lookup, decide_False by done. }
  set (r1 := prune R (detachChildren r h)) in *. clearbody r1.
  unfold unlinkParent. rewrite Hpar.
  destruct (parent r !! h) as [q|] eqn:Eq; [|apply Hsame; intros; by apply (Hno p)].
  assert (q ∉ R) by (intros ?; by apply Hh, (Hc h q)).
  assert (q <> h) by (intros ->; apply (rw_rank _ _ _ Hw) in Eq; lia).
  assert (Hq : children r1 !! q = drop_elems R <$> children r !! q).
  { rewrite Hch, decide_False by set_solver. done. }
  cbn [children]. rewrite Hq.
  case_decide as Hin.
  - destruct (children r !! q) as [ks|] eqn:Eks; [|set_solver].
    destruct (rw_kids _ _ _ Hw _ _ Eks) as [Hn Hk].
    rewrite lookup_insert. case_decide as Hqp; [subst p|].
    + rewrite prune_children_lookup, decide_False, Eks by set_solver. simpl. f_equal.
      rewrite remove_first_filter by (by apply NoDup_filter). apply drop_elems_union.
    + apply Hsame. intros ks' E'. apply (Hno p ks' E'). congruence.
  - apply Hsame. intros ks' E' Hin'. destruct (decide (p = q)) as [->|Hpq].
    + apply Hin. rewrite E'. by apply elem_of_drop_elems.
    + apply (Hno p ks' E'); [congruence|done].
Qed.

Lemma detach_none r h : children r !! h = None -> detachChildren r h = r.
Proof. intros H. destruct r. unfold detachChildren. simpl in *. by rewrite delete_id. Qed.

Lemma trace_release_drop t h : dcIndex (ReleaseDC t h) = drop_keys {[h]} (dcIndex t).
Proof.
  apply map_eq. intros k. rewrite drop_keys_lookup. unfold ReleaseDC.
  destruct (dcIndex t !! h) eqn:E; simpl; [rewrite lookup_delete|]; repeat case_decide; set_solver.
Qed.

Lemma registry_eq r1 r2 :
  resources r1 = resources r2 -> parent r1 = parent r2 -> children r1 = children r2 ->
  dcSendStates r1 = dcSendStates r2 -> lastSeen r1 = lastSeen r2 -> r1 = r2.
Proof. destruct r1, r2. simpl. intros; by subst. Qed.

Lemma collectSelf_reg D rank r R h c res :
  reg_wf D rank r -> closed r R -> h ∉ R ->
  c_reg c = prune R (detachChildren r h) ->
  c_reg (collectSelf c h res) = prune (R ∪ {[h]}) r.
Proof.
  intros Hw Hc Hh Hr.
  assert (Hch := fun p => unlink_children D rank r R h p Hw Hc Hh).
  assert (Hpl : parent (prune R (detachChildren r h)) !! h = parent r !! h).
  { by rewrite prune_parent_lookup, decide_False by done. }
  set (r1 := prune R (detachChildren r h)) in *.
  assert (Hrs : delete h (resources r1) = resources (prune (R ∪ {[h]}) r))
    by apply delete_drop_keys.
  assert (Hp : delete h (parent r1) = parent (prune (R ∪ {[h]}) r))
    by apply delete_drop_keys.
  assert (Hst : delete h (dcSendStates r1) = dcSendStates (prune (R ∪ {[h]}) r))
    by apply delete_drop_keys.
  assert (Hls : delete h (lastSeen r1) = lastSeen (prune (R ∪ {[h]}) r))
    by apply delete_drop_keys.
  unfold collectSelf, removeDCSendStateLocked. rewrite Hr. clearbody r1.
  unfold dropEntry, unlinkParent in *.
  destruct (dcSendStates r1 !! h) eqn:Es; cbn [c_reg parent];
    destruct (parent r1 !! h) eqn:Ep; apply registry_eq;
    cbn [resources parent children dcSendStates lastSeen];
    first [exact Hrs | exact Hls | exact Hp | exact Hst | apply map_eq; exact Hch
          | by rewrite <- Hp, delete_id | by rewrite <- Hst, delete_id].
Qed.

Lemma collectSelf_collected D rank r R h c0 c res :
  reg_wf D rank r -> closed r R -> h ∉ R -> resources r !! h = Some res ->
  c_reg c0 = r ->
  collected R (mkCollection (detachChildren r h) (c_trace c0) (c_closers c0) (c_states c0)) c ->
  collected (R ∪ {[h]}) c0 (collectSelf c h res).
Proof.
  intros Hw Hc Hh Hres H0 [Hr Hcl Hst Ht]. simpl in *. split.
  - rewrite H0. by eapply collectSelf_reg.
  - unfold collectSelf. destruct (removeDCSendStateLocked _ _). simpl.
    rewrite Hcl, H0. rewrite <- app_assoc. f_equiv.
    unfold closersOf. rewrite omap_elements_union by set_solver.
    rewrite elements_singleton. simpl. unfold closerAt at 3. rewrite Hres.
    by destruct (is_closer res).
  - unfold collectSelf, removeDCSendStateLocked.
    assert (Hl : dcSendStates (c_reg c) !! h = dcSendStates r !! h).
    { rewrite Hr. unfold prune. simpl. by rewrite drop_keys_lookup, decide_False. }
    rewrite Hl, H0. unfold statesOf in *. rewrite omap_elements_union by set_solver.
    rewrite elements_singleton. simpl.
    destruct (dcSendStates r !! h); simpl; by rewrite Hst, <- ?app_assoc.
  - unfold collectSelf. destruct (removeDCSendStateLocked _ _). simpl.
    rewrite trace_release_drop, Ht. apply drop_keys_union.
Qed.

Definition collect_ok (n : nat) : Prop := forall D rank c h,
  reg_wf D rank (c_reg c) -> (forall d, d ∈ D -> ~ below (c_reg c) h d) ->
  (size (children (c_reg c)) < n)%nat -> h ∈ dom (resources (c_reg c)) ->
  collected (desc (c_reg c) h) c (collectLocked n c h).

Lemma collectLocked_absent n c h :
  resources (c_reg c) !! h = None -> collectLocked n c h = c.
Proof. intros H. destruct n; simpl; [done|]. by rewrite H. Qed.

(** The handles at or below one of [ks]. *)
Definition descs (r : Registry) (ks : list string) : gset string :=
  union_list (desc r <$> ks).

Lemma elem_of_descs r ks x :
  acyclic r -> x ∈ descs r ks <-> exists k, k ∈ ks /\ x ∈ dom (resources r) /\ below r k x.
Proof.
  intros Ha. unfold descs. rewrite elem_of_union_list. setoid_rewrite list_elem_of_fmap. split.
  - intros (S & (k & -> & Hk) & Hx). apply elem_of_desc in Hx; eauto.
  - intros (k & Hk & Hx). eexists. split; [eauto|]. by apply elem_of_desc.
Qed.

Lemma collect_one n D rank r R k c0 c :
  collect_ok n -> reg_wf D rank r -> closed r R -> (forall d, d ∈ D -> d ∉ R) ->
  (forall d, d ∈ D -> ~ below r k d) -> (size (children (c_reg c)) < n)%nat ->
  k ∈ dom (resources r) -> c_reg c0 = r -> collected R c0 c ->
  collected (R ∪ desc r k) c0 (collectLocked n c k).
Proof.
  intros IH Hw Hc HD Hb Hs Hk H0 Hcol.
  assert (Hreg : c_reg c = prune R r) by (rewrite (cl_reg _ _ _ Hcol); by rewrite H0).
  assert (Hlk : resources (c_reg c) !! k = if decide (k ∈ R) then None else resources r !! k).
  { rewrite Hreg. apply drop_keys_lookup. }
  case_decide as HkR.
  - rewrite collectLocked_absent by done.
    assert (R ∪ desc r k = R) as ->; [|done].
    assert (desc r k ⊆ R); [|set_solver].
    intros x. rewrite elem_of_desc by eauto using reg_wf_acyclic.
    intros [_ Hx]. by eapply closed_below.
  - assert (Hd : desc (c_reg c) k = desc r k ∖ R) by (rewrite Hreg; by eapply desc_prune).
    assert (Hu : R ∪ desc r k = R ∪ (desc r k ∖ R)) by (apply set_eq; intros x; destruct (decide (x ∈ R)); set_solver).
    rewrite Hu, <- Hd. eapply collected_trans; [set_solver|done|].
    apply (IH D rank).
    + rewrite Hreg. by apply prune_wf.
    + intros d Hd'. rewrite Hreg, <- below_prune by auto. by apply Hb.
    + done.
    + apply elem_of_dom. rewrite Hlk. by apply elem_of_dom.
Qed.

Lemma collect_fold n D rank r ks : forall R c0 c,
  collect_ok n -> reg_wf D rank r -> closed r R -> (forall d, d ∈ D -> d ∉ R) ->
  (forall k, k ∈ ks -> k ∈ dom (resources r) /\ forall d, d ∈ D -> ~ below r k d) ->
  (size (children r) < n)%nat -> c_reg c0 = r -> collected R c0 c ->
  collected (R ∪ descs r ks) c0 (fold_left (collectLocked n) ks c).
Proof.
  induction ks as [|k ks IHk]; intros R c0 c IH Hw Hc HD Hks Hs H0 Hcol.
  - unfold descs. simpl. by rewrite union_empty_r_L.
  - simpl. unfold descs. simpl. fold (descs r ks). rewrite union_assoc_L.
    destruct (Hks k) as [Hk Hkb]; [set_solver|].
    apply IHk; auto.
    + apply closed_union; [done|]. by eapply desc_closed.
    + intros d Hd [Hin|Hin]%elem_of_union; [by apply (HD d)|].
      apply elem_of_desc in Hin as [_ Hin]; [|by eapply reg_wf_acyclic]. by apply (Hkb d).
    + intros k' Hk'. apply Hks. set_solver.
    + eapply collect_one; eauto.
      rewrite (cl_reg _ _ _ Hcol), H0. pose proof (prune_children_size R r). lia.
Qed.

Lemma below_rank D rank r h k : reg_wf D rank r -> below r h k -> (rank h <= rank k)%nat.
Proof.
  intros Hw Hb. induction Hb as [x|x y z Hxy Hb IH]; [lia|].
  apply (rw_rank _ _ _ Hw) in Hxy. lia.
Qed.

(** The subtree of [h] is [h] and the subtrees of its children. *)
Lemma desc_unfold D rank r h :
  reg_wf D rank r -> h ∉ D -> h ∈ dom (resources r) ->
  desc r h = descs (detachChildren r h) (default [] (children r !! h)) ∪ {[h]}.
Proof.
  intros Hw HD Hh. apply set_eq. intros x.
  assert (Ha : acyclic r) by by eapply reg_wf_acyclic.
  rewrite elem_of_union, elem_of_singleton, elem_of_desc, elem_of_descs by done. split.
  - intros [Hd Hb]. apply rtc_inv_r in Hb as [->|(y & Hxy & Hy)]; [by right|].
    left. exists y. split; [|done].
    destruct (rw_par _ _ _ Hw _ _ Hy) as [_ [?|(ks & -> & Hin)]]; [done|]. done.
  - intros [(k & Hk & Hd & Hb)| ->]; [|split; [done|apply rtc_refl]].
    split; [done|]. eapply rtc_r; [exact Hb|].
    destruct (children r !! h) as [ks|] eqn:E; simpl in Hk; [|set_solver].
    by apply (rw_kids _ _ _ Hw h ks).
Qed.

Lemma collect_ok_all n : collect_ok n.
Proof.
  induction n as [|n IH]; intros D rank c h Hw HD Hs Hh; [lia|].
  assert (HhD : h ∉ D) by (intros Hin; apply (HD h Hin), rtc_refl).
  assert (Hh' := Hh). apply elem_of_dom in Hh as [res Hres].
  set (r1 := detachChildren (c_reg c) h).
  set (kids := default [] (children (c_reg c) !! h)).
  assert (Hw1 : reg_wf ({[h]} ∪ D) rank r1) by by apply detach_wf.
  rewrite (desc_unfold D rank) by done. fold r1 kids.
  simpl. rewrite Hres.
  eapply collectSelf_collected; [exact Hw| | |done|done|].
  - intros k p Hp. rewrite !elem_of_descs by (by eapply reg_wf_acyclic).
    intros (k' & Hk' & Hd & Hb). exists k'. split; [done|].
    split; [by apply (rw_par _ _ _ Hw k p)|]. eapply rtc_l; eauto.
  - rewrite elem_of_descs by (by eapply reg_wf_acyclic). intros (k & Hk & _ & Hb).
    eapply (below_rank _ _ _ _ _ Hw1) in Hb. unfold kids in Hk.
    destruct (children (c_reg c) !! h) as [ks|] eqn:E; simpl in Hk; [|set_solver].
    destruct (rw_kids _ _ _ Hw _ _ E) as [_ Hpar]. apply Hpar, (rw_rank _ _ _ Hw) in Hk. lia.
  - assert (Hkids : forall k, k ∈ kids -> parent (c_reg c) !! k = Some h).
    { unfold kids. destruct (children (c_reg c) !! h) as [ks|] eqn:E; simpl; [|set_solver].
      by apply (rw_kids _ _ _ Hw). }
    rewrite <- (union_empty_l_L (descs r1 kids)).
    destruct (children (c_reg c) !! h) as [ks|] eqn:E.
    + apply (collect_fold n ({[h]} ∪ D) rank r1 ks ∅); auto using collected_refl.
      * apply closed_empty.
      * intros d _. set_solver.
      * intros k Hk. specialize (Hkids k Hk).
        split; [by apply (rw_par _ _ _ Hw k h)|].
        intros d [->%elem_of_singleton|Hd]%elem_of_union Hb.
        -- eapply (below_rank _ _ _ _ _ Hw1) in Hb. apply (rw_rank _ _ _ Hw) in Hkids. lia.
        -- apply (HD d Hd). eapply rtc_r; [exact Hb|done].
      * unfold r1. simpl. rewrite map_size_delete_Some by eauto.
        assert (size (children (c_reg c)) <> 0%nat) by (eapply map_size_ne_0_lookup_2; eauto).
        lia.
    + unfold kids. simpl. unfold descs. simpl. rewrite union_empty_r_L.
      unfold r1. rewrite detach_none by done. destruct c; apply collected_refl.
Qed.

Lemma collect_collected rank c h :
  reg_wf ∅ rank (c_reg c) -> h ∈ dom (resources (c_reg c)) ->
  collected (desc (c_reg c) h) c (collect c h).
Proof.
  intros Hw Hh. eapply collect_ok_all; [exact Hw|set_solver| |done]. unfold collectFuel. lia.
Qed.

(** More fuel than [collectFuel] never changes the result. *)
Lemma collectLocked_fuel rank c h n :
  reg_wf ∅ rank (c_reg c) -> (collectFuel c <= n)%nat ->
  c_reg (collectLocked n c h) = c_reg (collect c h).
Proof.
  intros Hw Hn. destruct (resources (c_reg c) !! h) as [res|] eqn:E.
  - assert (h ∈ dom (resources (c_reg c))) by (apply elem_of_dom; eauto).
    rewrite (cl_reg _ _ _ (collect_collected rank c h Hw ltac:(done))).
    eapply cl_reg, collect_ok_all; [exact Hw|set_solver| |done]. unfold collectFuel in Hn. lia.
  - unfold collect. by rewrite !collectLocked_absent.
Qed.

Lemma collect_list rank r ks : forall R c0 c,
  reg_wf ∅ rank r -> closed r R -> (forall k, k ∈ ks -> k ∈ dom (resources r)) ->
  c_reg c0 = r -> collected R c0 c ->
  collected (R ∪ descs r ks) c0 (fold_left collect ks c).
Proof.
  induction ks as [|k ks IH]; intros R c0 c Hw Hc Hks H0 Hcol.
  - unfold descs. simpl. by rewrite union_empty_r_L.
  - simpl. unfold descs. simpl. fold (descs r ks). rewrite union_assoc_L.
    apply IH; auto.
    + apply closed_union; [done|]. by eapply desc_closed.
    + set_solver.
    + eapply (collect_one (collectFuel c) ∅ rank); eauto using collect_ok_all; try set_solver.
Qed.

(** ** Every operation preserves well-formedness *)

(** What a new UUID guarantees. *)
Definition fresh_handle (r : Registry) (h : string) : Prop :=
  resources r !! h = None /\ children r !! h = None.

Lemma wf_NewRegistry : wf NewRegistry.
Proof. exists (fun _ => O). split; simpl; try set_solver; intros *; by rewrite lookup_empty. Qed.

Lemma fresh_no_parent rank r h k :
  reg_wf ∅ rank r -> fresh_handle r h ->
  parent r !! h = None /\ parent r !! k <> Some h.
Proof.
  intros Hw [Hr Hc]. split.
  - destruct (parent r !! h) as [p|] eqn:E; [|done].
    apply (rw_par _ _ _ Hw) in E as [[? ?]%elem_of_dom _]. congruence.
  - intros E. apply (rw_par _ _ _ Hw) in E as [_ [?|(ks & ? & _)]]; [set_solver|congruence].
Qed.

Lemma wf_Register r h res now : wf r -> fresh_handle r h -> wf (Register r h res now).
Proof.
  intros [rank Hw] Hf. exists rank. split; simpl.
  - by rewrite !dom_insert_L, (rw_seen _ _ _ Hw).
  - apply Hw.
  - intros k p Hp. destruct (rw_par _ _ _ Hw _ _ Hp) as [Hd Ho].
    split; [|done]. rewrite dom_insert_L. set_solver.
  - set_solver.
  - apply Hw.
Qed.

Lemma wf_RegisterChild r h res p now :
  wf r -> fresh_handle r h -> h <> p -> wf (RegisterChild r h res p now).
Proof.
  intros [rank Hw] Hf Hne.
  exists (fun k => if decide (k = h) then S (rank p) else rank k).
  destruct (fresh_no_parent rank r h h Hw Hf) as [Hph _].
  assert (Hhk : forall k, parent r !! k <> Some h) by (intros k; by apply (fresh_no_parent rank)).
  split; simpl.
  - by rewrite !dom_insert_L, (rw_seen _ _ _ Hw).
  - intros q ks [[<- <-]|[Hq Hks]]%lookup_insert_Some.
    + destruct (children r !! p) as [ks|] eqn:E; simpl.
      * destruct (rw_kids _ _ _ Hw _ _ E) as [Hn Hk].
        assert (h ∉ ks) by (intros Hin; apply Hk in Hin; congruence).
        split; [apply NoDup_app; split_and!; [done|set_solver|apply NoDup_singleton]|].
        intros k [Hin| ->%list_elem_of_singleton]%elem_of_app; [|apply lookup_insert_eq].
        rewrite lookup_insert_ne; [auto|]. intros ->. done.
      * split; [apply NoDup_singleton|]. intros k ->%list_elem_of_singleton. apply lookup_insert_eq.
    + destruct (rw_kids _ _ _ Hw _ _ Hks) as [Hn Hk]. split; [done|].
      intros k Hin. rewrite lookup_insert_ne; [auto|]. intros ->. apply Hk in Hin. congruence.
  - intros k q [[<- <-]|[Hk Hq]]%lookup_insert_Some; rewrite dom_insert_L.
    + split; [set_solver|]. right. eexists. rewrite lookup_insert_eq. split; [done|set_solver].
    + destruct (rw_par _ _ _ Hw _ _ Hq) as [Hd [?|(ks & Hks & Hin)]]; [set_solver|].
      split; [set_solver|]. right. destruct (decide (p = q)) as [->|Hpq].
      * eexists. rewrite lookup_insert_eq. split; [done|]. rewrite Hks. set_solver.
      * exists ks. by rewrite lookup_insert_ne.
  - set_solver.
  - intros k q [[<- <-]|[Hk Hq]]%lookup_insert_Some.
    + repeat case_decide; simplify_eq; lia.
    + rewrite !decide_False; [by apply (rw_rank _ _ _ Hw)|done|].
      intros ->. by apply (Hhk k).
Qed.

(** Operations that only move stamps or send states. *)
Lemma wf_set_lastSeen r ls : wf r -> dom ls = dom (lastSeen r) -> wf (set_lastSeen r ls).
Proof.
  intros [rank Hw] Hd. exists rank. destruct Hw. split; simpl; try done. congruence.
Qed.

Lemma fold_touch_dom clk l (ls : gmap string Z) :
  dom (fold_left (fun ls k => alter (touchStamp (clk k)) k ls) l ls) = dom ls.
Proof.
  revert ls. induction l as [|k l IH]; intros ls; simpl; [done|]. by rewrite IH, dom_alter_L.
Qed.

Lemma wf_Touch r h clk : wf r -> wf (Touch r h clk).
Proof.
  intros Hw. unfold Touch. destruct (lastSeen r !! h); [|done].
  apply wf_set_lastSeen; [done|]. apply fold_touch_dom.
Qed.

Lemma wf_Lookup r h now : wf r -> wf (Lookup r h now).2.
Proof.
  intros Hw. unfold Lookup. destruct (resources r !! h); simpl; [|done].
  apply wf_set_lastSeen; [done|]. apply dom_alter_L.
Qed.

Lemma wf_RegisterDCSendState r h s : wf r -> wf (RegisterDCSendState r h s).2.
Proof.
  intros [rank Hw]. unfold RegisterDCSendState. exists rank.
  destruct (dcSendStates r !! h); [done|]. destruct Hw. by split.
Qed.

Lemma wf_RemoveDCSendState r h : wf r -> wf (RemoveDCSendState r h).2.
Proof.
  intros [rank Hw]. unfold RemoveDCSendState, removeDCSendStateLocked. exists rank.
  destruct (dcSendStates r !! h); [|done]. destruct Hw. by split.
Qed.

Lemma wf_prune_closed rank r R : reg_wf ∅ rank r -> closed r R -> wf (prune R r).
Proof. intros Hw Hc. exists rank. apply prune_wf; [done|done|set_solver]. Qed.

Lemma wf_collect c h : wf (c_reg c) -> wf (c_reg (collect c h)).
Proof.
  intros [rank Hw]. destruct (resources (c_reg c) !! h) as [res|] eqn:E.
  - assert (Hh : h ∈ dom (resources (c_reg c))) by (apply elem_of_dom; eauto).
    rewrite (cl_reg _ _ _ (collect_collected rank c h Hw Hh)).
    eapply wf_prune_closed; [done|]. by eapply desc_closed.
  - unfold collect. rewrite collectLocked_absent by done. by exists rank.
Qed.

(** The critical sections of the registry, one step each.  A sweep of
    [Cleanup] takes the lock several times, so its reaping pass appears as
    [st_collect] steps for whatever handles the scan had found expired, by then
    perhaps already gone, and its refreshes as [st_Touch] steps. *)
Inductive reg_step : Registry -> Registry -> Prop :=
  | st_Register r h res now : fresh_handle r h -> reg_step r (Register r h res now)
  | st_RegisterChild r h res p now :
      fresh_handle r h -> h <> p -> reg_step r (RegisterChild r h res p now)
  | st_Lookup r h now : reg_step r (Lookup r h now).2
  | st_Touch r h clk : reg_step r (Touch r h clk)
  | st_RegisterDCSendState r h s : reg_step r (RegisterDCSendState r h s).2
  | st_RemoveDCSendState r h : reg_step r (RemoveDCSendState r h).2
  | st_Delete r tr h r' tr' acts :
      Delete r tr h = Some (r', tr', acts) -> reg_step r r'
  | st_collect c h : reg_step (c_reg c) (c_reg (collect c h)).

Lemma wf_step r r' : reg_step r r' -> wf r -> wf r'.
Proof.
  destruct 1 as [| | | | | |r tr h r' tr' acts HD|c h]; intros Hw;
    auto using wf_Register, wf_RegisterChild, wf_Lookup, wf_Touch, wf_RegisterDCSendState,
      wf_RemoveDCSendState, wf_collect.
  unfold Delete in HD. destruct (resources r !! h); [|done]. simplify_eq.
  by apply wf_collect.
Qed.

Lemma wf_steps r r' : rtc reg_step r r' -> wf r -> wf r'.
Proof.
  induction 1; eauto using wf_step.
Qed.

(** ** Roots and expiry *)

Lemma below_trans r a b c : below r a b -> below r b c -> below r a c.
Proof. intros H1 H2. unfold below in *. etrans; eauto. Qed.

Lemma below_total r a b h : below r a h -> below r b h -> below r a b \/ below r b a.
Proof.
  intros Ha. revert b. induction Ha as [x|x y z Hxy Ha IH]; intros b Hb; [by right|].
  inversion Hb as [|x' y' z' Hxy' Hb']; subst.
  - left. eapply rtc_l; eauto.
  - assert (y' = y) as -> by congruence. by apply IH.
Qed.

Lemma below_root r z h : parent r !! h = None -> below r z h -> z = h.
Proof. intros Hn Hb. inversion Hb; [done|congruence]. Qed.

Lemma rootOf_spec r h :
  acyclic r -> below r (rootOf r h) h /\ parent r !! (rootOf r h) = None.
Proof.
  intros Ha. destruct (parentChain_complete r h Ha) as (z & Hz & Hn).
  assert (rootOf r h = z) as ->.
  { unfold rootOf. destruct (ancestors r h) as [|a l] eqn:E; simpl in *; [congruence|].
    destruct (last (a :: l)) eqn:El; simpl in *; congruence. }
  split; [|done]. apply ancestors_below; [done|].
  apply last_Some_elem_of in Hz. by apply elem_of_cons in Hz.
Qed.

Lemma rootOf_unique r h z :
  acyclic r -> below r z h -> parent r !! z = None -> rootOf r h = z.
Proof.
  intros Ha Hb Hn. destruct (rootOf_spec r h Ha) as [Hb' Hn'].
  destruct (below_total r z (rootOf r h) h Hb Hb') as [H|H].
  - symmetry. by apply (below_root r).
  - by apply (below_root r).
Qed.

Lemma rootOf_below r a h : acyclic r -> below r a h -> rootOf r a = rootOf r h.
Proof.
  intros Ha Hb. destruct (rootOf_spec r a Ha) as [Hb' Hn'].
  symmetry. apply rootOf_unique; [done| |done]. by eapply below_trans.
Qed.

Lemma fold_Touch_fields clk l : forall r,
  let r' := fold_left (fun r h => Touch r h clk) l r in
  resources r' = resources r /\ parent r' = parent r /\ (wf r -> wf r').
Proof.
  induction l as [|h l IH]; intros r; simpl; [done|].
  destruct (IH (Touch r h clk)) as (-> & -> & Hw). split_and!; [..|auto using wf_Touch].
  - unfold Touch. by destruct (lastSeen r !! h).
  - unfold Touch. by destruct (lastSeen r !! h).
Qed.

(** What a sweep takes away: a handle with an expired handle at or above it,
    unless the PeerConnection at the root is connected. *)
Definition reaped (connected : positive -> bool) (r : Registry) (now maxAge : Z) (h : string)
  : Prop :=
  isLivePeerConnection connected (resources r !! rootOf r h) = false
  /\ exists a, below r a h /\ expired r now maxAge a = true.

Lemma expired_registered rank r now maxAge h :
  reg_wf ∅ rank r -> expired r now maxAge h = true -> h ∈ dom (resources r).
Proof.
  intros Hw. unfold expired. destruct (lastSeen r !! h) eqn:E; [|done]. intros _.
  rewrite <- (rw_seen _ _ _ Hw). apply elem_of_dom. eauto.
Qed.

Lemma Cleanup_collected connected rank r tr order now maxAge clk :
  reg_wf ∅ rank r -> (forall h, h ∈ order <-> h ∈ dom (lastSeen r)) ->
  exists R c,
    (forall h, h ∈ R <-> h ∈ dom (resources r) /\ reaped connected r now maxAge h)
    /\ collected R (mkCollection r tr [] []) c
    /\ closed r R
    /\ Cleanup connected r tr order now maxAge clk
       = (fold_left (fun r h => Touch r h clk)
            (filter (fun h => isLivePeerConnection connected (resources r !! rootOf r h) = true)
               (filter (fun h => expired r now maxAge h = true) order)) (c_reg c),
          c_trace c, closeCollected (c_closers c) (c_states c)).
Proof.
  intros Hw Ho. assert (Ha : acyclic r) by by eapply reg_wf_acyclic.
  set (live h := isLivePeerConnection connected (resources r !! rootOf r h)).
  set (reap := filter (fun h => live h = false)
                 (filter (fun h => expired r now maxAge h = true) order)).
  exists (descs r reap), (fold_left collect reap (mkCollection r tr [] [])).
  assert (Hreap : forall k, k ∈ reap <-> live k = false /\ expired r now maxAge k = true).
  { intros k. unfold reap. rewrite !list_elem_of_filter, Ho. split; [tauto|].
    intros [Hl He]. split_and!; [done|done|]. rewrite (rw_seen _ _ _ Hw).
    by eapply expired_registered. }
  split; [|split; [|split]].
  - intros h. rewrite elem_of_descs by done. unfold reaped. fold (live h). split.
    + intros (k & [Hk He]%Hreap & Hd & Hb). split_and!; [done| |eauto].
      unfold live in *. by rewrite <- (rootOf_below r k h).
    + intros (Hd & Hl & a & Hb & He). exists a. split_and!; [|done|done]. apply Hreap.
      split; [|done]. unfold live in *. by rewrite (rootOf_below r a h).
  - rewrite <- (union_empty_l_L (descs r reap)).
    eapply collect_list; [exact Hw|apply closed_empty| |done|apply collected_refl].
    intros k [_ He]%Hreap. by eapply expired_registered.
  - intros k p Hp. rewrite !elem_of_descs by done. intros (k' & Hk' & Hd & Hb).
    exists k'. split_and!; [done|by apply (rw_par _ _ _ Hw k p)|]. eapply rtc_l; eauto.
  - done.
Qed.

(** ** Refreshing a stamp *)

Lemma touchStamp_idem now st : touchStamp now (touchStamp now st) = touchStamp now st.
Proof.
  unfold touchStamp, second.
  destruct (1000000000 <? now - st) eqn:E; [|by rewrite E]. by rewrite Z.sub_diag.
Qed.

Lemma touchStamp_recent now st : now - second <= touchStamp now st.
Proof. unfold touchStamp. destruct (second <? now - st) eqn:E; go_bool; unfold second in *; lia. Qed.

Lemma fold_touch_lookup clk l : forall (ls : gmap string Z) k,
  fold_left (fun ls k => alter (touchStamp (clk k)) k ls) l ls !! k
  = if decide (k ∈ l) then touchStamp (clk k) <$> ls !! k else ls !! k.
Proof.
  induction l as [|x l IH]; intros ls k; cbn [fold_left].
  - rewrite decide_False by set_solver. done.
  - rewrite IH, lookup_alter. repeat case_decide; try set_solver; subst.
    destruct (ls !! k); simpl; [|done]. by rewrite touchStamp_idem.
Qed.

Lemma Touch_not_expired r h clk t now maxAge a :
  acyclic r -> (forall k, t <= clk k) -> now - t + second <= maxAge ->
  lastSeen r !! h <> None -> below r a h -> expired (Touch r h clk) now maxAge a = false.
Proof.
  intros Ha Hclk Hage Hh Hb. unfold Touch, expired.
  destruct (lastSeen r !! h); [|done]. cbn [set_lastSeen lastSeen].
  rewrite fold_touch_lookup, decide_True.
  2:{ apply elem_of_cons. by apply ancestors_below. }
  destruct (lastSeen r !! a) as [st|]; simpl; [|done].
  pose proof (touchStamp_recent (clk a) st). specialize (Hclk a). lia.
Qed.

Lemma Touch_parent r h clk : parent (Touch r h clk) = parent r.
Proof. unfold Touch. by destruct (lastSeen r !! h). Qed.

Lemma Touch_resources r h clk : resources (Touch r h clk) = resources r.
Proof. unfold Touch. by destruct (lastSeen r !! h). Qed.

Lemma Cleanup_lookup connected r tr order now maxAge clk h :
  wf r -> (forall h, h ∈ order <-> h ∈ dom (lastSeen r)) -> h ∈ dom (resources r) ->
  (reaped connected r now maxAge h -> resources (Cleanup connected r tr order now maxAge clk).1.1 !! h = None)
  /\ (~ reaped connected r now maxAge h ->
      resources (Cleanup connected r tr order now maxAge clk).1.1 !! h = resources r !! h).
Proof.
  intros [rank Hw] Ho Hh.
  destruct (Cleanup_collected connected rank r tr order now maxAge clk Hw Ho)
    as (R & c & HR & Hc & _ & ->). simpl.
  destruct (fold_Touch_fields clk
    (filter (fun h => isLivePeerConnection connected (resources r !! rootOf r h) = true)
      (filter (fun h => expired r now maxAge h = true) order)) (c_reg c)) as (-> & _ & _).
  rewrite (cl_reg _ _ _ Hc). unfold prune. simpl. rewrite drop_keys_lookup.
  split; intros Hre; case_decide as Hin; try done.
  - exfalso. apply Hin, HR. done.
  - exfalso. apply HR in Hin as [_ Hin]. done.
Qed.

(** ** Main properties *)

(** Every registry reachable by the operations of the source, interleaved
    in any way, keeps its maps consistent: the same handles have a resource
    and a stamp, child lists and parent links are inverse to each other
    without duplicates, and the parent links have no cycle, so that every walk
    up the parent links ends. *)
Theorem registry_reachable_wf r :
  rtc reg_step NewRegistry r ->
  dom (lastSeen r) = dom (resources r)
  /\ (forall p k, parent r !! k = Some p <->
        exists kids, children r !! p = Some kids /\ k ∈ kids)
  /\ (forall p kids, children r !! p = Some kids -> NoDup kids)
  /\ (forall h, exists z, last (h :: ancestors r h) = Some z /\ parent r !! z = None).
Proof.
  intros H. destruct (wf_steps _ _ H wf_NewRegistry) as [rank Hw]. split_and!.
  - apply Hw.
  - intros p k. split.
    + intros Hp. destruct (rw_par _ _ _ Hw _ _ Hp) as [_ [?|?]]; [set_solver|done].
    + intros (kids & Hk & Hin). by apply (rw_kids _ _ _ Hw _ _ Hk).
  - intros p kids Hk. by apply (rw_kids _ _ _ Hw _ _ Hk).
  - intros h. apply parentChain_complete. by eapply reg_wf_acyclic.
Qed.

Definition ex_reg : Registry :=
  RegisterChild (RegisterChild (Register NewRegistry "pc" (ResPC 1) 0)
    "dc1" (ResDC 1) "pc" 0) "dc2" (ResDC 2) "pc" 0.

Lemma ex_reg_steps : rtc reg_step NewRegistry ex_reg.
Proof.
  unfold ex_reg. set (r1 := Register NewRegistry "pc" (ResPC 1) 0).
  eapply rtc_l; [apply (st_Register NewRegistry "pc" (ResPC 1) 0); by vm_compute|].
  eapply rtc_l; [apply (st_RegisterChild r1 "dc1" (ResDC 1) "pc" 0); by vm_compute|].
  apply rtc_once. apply st_RegisterChild; by vm_compute.
Defined.

Lemma ex_reg_wf : wf ex_reg.
Proof. exact (wf_steps _ _ ex_reg_steps wf_NewRegistry). Defined.

Lemma registry_reachable_wf_witness :
  exists z, last ("dc1" :: ancestors ex_reg "dc1")%string = Some z /\ parent ex_reg !! z = None.
Proof. exact (proj2 (proj2 (proj2 (registry_reachable_wf ex_reg ex_reg_steps))) "dc1"%string). Defined.

(** C2. Deleting a registered handle removes exactly that handle and its
    descendants from all five maps and leaves every other handle as it was; it
    shuts down each removed send state and each removed closable resource
    exactly once, the send states before the resources and the deleted
    resource itself last; the result is well formed; and deleting an unknown
    handle is an error that changes nothing. *)
Theorem registry_delete_cascade r tr h res :
  wf r -> resources r !! h = Some res ->
  exists r' tr' closers states,
    Delete r tr h = Some (r', tr', map CloseState states ++ map CloseResource closers)
    /\ r' = prune (desc r h) r
    /\ (forall k, k ∈ desc r h <-> k ∈ dom (resources r) /\ below r h k)
    /\ states ≡ₚ statesOf r (desc r h)
    /\ closers ≡ₚ closersOf r (desc r h)
    /\ (is_closer res = true -> last closers = Some res)
    /\ wf r'
    /\ (forall tr' k, resources r' !! k = None -> Delete r' tr' k = None).
Proof.
  intros [rank Hw] Hres.
  assert (Hh : h ∈ dom (resources r)) by (apply elem_of_dom; eauto).
  pose proof (collect_collected rank (mkCollection r tr [] []) h Hw Hh) as Hc.
  simpl in Hc. set (c := collect (mkCollection r tr [] []) h) in *.
  exists (c_reg c), (c_trace c), (c_closers c), (c_states c).
  split; [|split; [|split; [|split; [|split; [|split; [|split]]]]]].
  - unfold Delete. by rewrite Hres.
  - apply Hc.
  - intros k. apply elem_of_desc. by eapply reg_wf_acyclic.
  - apply Hc.
  - apply Hc.
  - intros Hcl. unfold c, collect, collectFuel. simpl. rewrite Hres. unfold collectSelf.
    destruct (removeDCSendStateLocked _ _). simpl. rewrite Hcl. apply last_snoc.
  - rewrite (cl_reg _ _ _ Hc). eapply wf_prune_closed; [done|]. by eapply desc_closed.
  - intros tr' k Hk. unfold Delete. by rewrite Hk.
Qed.

Lemma registry_delete_cascade_witness :
  exists r' tr' closers states,
    Delete ex_reg Trace0 "pc" = Some (r', tr', map CloseState states ++ map CloseResource closers)
    /\ r' = prune (desc ex_reg "pc") ex_reg.
Proof.
  destruct (registry_delete_cascade ex_reg Trace0 "pc" (ResPC 1) ex_reg_wf)
    as (r' & tr' & cl & st & H1 & H2 & _); [by vm_compute|].
  exists r', tr', cl, st. split; assumption.
Defined.



(** Activity keeps a channel and its whole ownership chain alive: after a
    [Touch] of a registered handle at time [t] or later, no sweep within
    [maxAge] minus one second (the refresh granularity) reaps that handle,
    whatever the connection state of its PeerConnection. *)
Theorem registry_touch_keeps_alive connected r tr h clk t order now maxAge clk' :
  wf r -> h ∈ dom (resources r) -> (forall k, t <= clk k) -> now - t + second <= maxAge ->
  (forall k, k ∈ order <-> k ∈ dom (lastSeen r)) ->
  let r1 := Touch r h clk in
  resources (Cleanup connected r1 tr order now maxAge clk').1.1 !! h = resources r !! h.
Proof.
  intros Hw Hh Hclk Hage Ho r1.
  assert (Hdom : dom (lastSeen (Touch r h clk)) = dom (lastSeen r)).
  { unfold Touch. destruct (lastSeen r !! h); [|done]. apply fold_touch_dom. }
  assert (Hl : lastSeen r !! h <> None).
  { destruct Hw as [rank Hw]. rewrite <- (rw_seen _ _ _ Hw) in Hh.
    apply elem_of_dom in Hh as [? ->]. done. }
  rewrite <- (Touch_resources r h clk).
  eapply Cleanup_lookup.
  - by apply wf_Touch.
  - intros k. by rewrite Hdom.
  - by rewrite Touch_resources.
  - intros (_ & a & Hb & He). unfold below in Hb. rewrite Touch_parent in Hb.
    rewrite (Touch_not_expired r h clk t now maxAge a) in He; auto using wf_acyclic. done.
Qed.

Lemma registry_touch_keeps_alive_witness :
  resources (Cleanup (fun _ => false) (Touch ex_reg "dc1" (fun _ => 5000000000)) Trace0
    ["dc1"; "pc"; "dc2"]%string 7000000000 3000000000 (fun _ => 0)).1.1 !! "dc1"%string
  = Some (ResDC 1).
Proof.
  refine (registry_touch_keeps_alive (fun _ => false) ex_reg Trace0 "dc1" (fun _ => 5000000000)
    5000000000 ["dc1"; "pc"; "dc2"]%string 7000000000 3000000000 (fun _ => 0) ex_reg_wf _ _ _ _).
  - by vm_compute.
  - intros k. apply Z.le_refl.
  - by vm_compute.
  - intros h. assert (dom (lastSeen ex_reg) = {["dc1"; "pc"; "dc2"]}%string) as -> by by vm_compute.
    set_solver.
Defined.
