(* ===== verification/GoValue.v ===== *)
(** * Dynamic values and protocol messages

    The values a msgpack frame decodes to (Go's [interface{}]), the numeric
    conversions of handler.go and settings_engine.go, and the messages of
    types.go. *)

From S2P Require Import Prelude.
From Stdlib Require Import Floats.SpecFloat.

Local Open Scope Z_scope.

(** ** Values *)

Inductive int_kind := KInt | KInt8 | KInt16 | KInt32 | KInt64
  | KUint | KUint8 | KUint16 | KUint32 | KUint64.

(** A Go map is an association list; its keys are distinct. *)
Inductive value :=
  | VNil
  | VBool (b : bool)
  | VInt (k : int_kind) (z : Z)
  | VFloat32 (f : spec_float)
  | VFloat64 (f : spec_float)
  | VString (s : string)
  | VBytes (b : list Z)
  | VList (l : list value)
  | VMap (m : list (string * value)).

Abbreviation gomap := (list (string * value)).

(** [m[k]]; a missing key reads as the nil interface. *)
Fixpoint mlookup (m : gomap) (k : string) : option value :=
  match m with
  | [] => None
  | (k', v) :: m' => if decide (k = k') then Some v else mlookup m' k
  end.

Definition mget (m : gomap) (k : string) : value := default VNil (mlookup m k).

(** Type assertions [v.(T)]. *)
Definition as_bool (v : value) : option bool :=
  match v with VBool b => Some b | _ => None end.

Definition as_string (v : value) : option string :=
  match v with VString s => Some s | _ => None end.

Definition as_list (v : value) : option (list value) :=
  match v with VList l => Some l | _ => None end.

Definition as_map (v : value) : option gomap :=
  match v with VMap m => Some m | _ => None end.

(** [cfgOrNil]: the map, or the nil map. *)
Definition cfgOrNil (v : value) : option gomap := as_map v.

(** The range of each integer type. *)
Definition kind_range (k : int_kind) : Z * Z :=
  match k with
  | KInt | KInt64 => (- 2 ^ 63, 2 ^ 63)
  | KInt8 => (- 2 ^ 7, 2 ^ 7)
  | KInt16 => (- 2 ^ 15, 2 ^ 15)
  | KInt32 => (- 2 ^ 31, 2 ^ 31)
  | KUint | KUint64 => (0, 2 ^ 64)
  | KUint8 => (0, 2 ^ 8)
  | KUint16 => (0, 2 ^ 16)
  | KUint32 => (0, 2 ^ 32)
  end.

Definition int_ok (k : int_kind) (z : Z) : Prop :=
  (kind_range k).1 <= z < (kind_range k).2.

(** Truncation of a float toward zero. *)
Definition float_trunc (f : spec_float) : option Z :=
  match f with
  | S754_zero _ => Some 0
  | S754_finite s m e =>
      let a := if 0 <=? e then Zpos m * 2 ^ e else Zpos m / 2 ^ (- e) in
      Some (if s then - a else a)
  | S754_infinity _ | S754_nan => None
  end.

(** Converting a float outside the target range is implementation specific in
    Go: the conversions below take that behaviour as a parameter. *)
Record float_conv := mkFloatConv {
  fc_i64 : spec_float -> Z;
  fc_u64 : spec_float -> Z;
  fc_u16 : spec_float -> Z
}.

Definition float_to (lo hi : Z) (other : spec_float -> Z) (f : spec_float) : Z :=
  match float_trunc f with
  | Some z => if (lo <=? z) && (z <? hi) then z else other f
  | None => other f
  end.

Section Conversions.
Context (fc : float_conv).

Definition toInt (v : value) : option Z :=
  match v with
  | VInt _ n => Some (i64 n)
  | VFloat32 f | VFloat64 f => Some (float_to (- 2 ^ 63) (2 ^ 63) (fc_i64 fc) f)
  | _ => None
  end.

Definition toUint64 (v : value) : option Z :=
  match v with
  | VInt _ n => Some (u64 n)
  | VFloat32 f | VFloat64 f => Some (float_to 0 (2 ^ 64) (fc_u64 fc) f)
  | _ => None
  end.

Definition toUint16 (v : value) : option Z :=
  match v with
  | VInt _ n => Some (u16 n)
  | VFloat32 f | VFloat64 f => Some (float_to 0 (2 ^ 16) (fc_u16 fc) f)
  | _ => None
  end.

(** Integers keep their value when the target type can hold it. *)
Lemma toInt_exact k n : int_ok k n -> n < 2 ^ 63 -> toInt (VInt k n) = Some n.
Proof.
  intros Hk Hn. simpl. f_equal.
  assert (- 2 ^ 63 <= n) by (destruct k; unfold int_ok in Hk; simpl in Hk; lia).
  unfold i64. go_pow. destruct (n mod _ <? _) eqn:E; go_bool; Z.to_euclidean_division_equations; lia.
Qed.

Lemma toUint64_exact k n : int_ok k n -> 0 <= n -> toUint64 (VInt k n) = Some n.
Proof.
  intros Hk Hn. simpl. f_equal. apply wrap_small. unfold in_u.
  destruct k; unfold int_ok in Hk; simpl in Hk; lia.
Qed.

Lemma toUint16_exact k n : 0 <= n < 2 ^ 16 -> toUint16 (VInt k n) = Some n.
Proof. intros Hn. simpl. f_equal. by apply u16_small. Qed.

End Conversions.

(** ** Messages (types.go) *)

Record Message := mkMessage {
  Type_ : string;
  ID : Z;
  Handle : string;
  Data : gomap
}.

(** The zero [Message], which a handler returns for "no synchronous answer". *)
Definition noMessage : Message := mkMessage "" 0 "" [].

Definition ErrorResponse (id : Z) (code message : string) (fatal : bool) (handle : string)
  : Message :=
  let data := [("code", VString code); ("message", VString message); ("fatal", VBool fatal)]%string in
  mkMessage "error" id ""
    (if decide (handle = ""%string) then data else data ++ [("handle"%string, VString handle)]).

(** A nil [data] is replaced by an empty map. *)
Definition AckResponse (reqType : string) (id : Z) (handle : string) (data : option gomap)
  : Message := mkMessage (reqType ++ ":ack") id handle (default [] data).

Definition Event (eventType handle : string) (data : option gomap) : Message :=
  mkMessage eventType 0 handle (default [] data).
