(* ===== verification/DCSend.v ===== *)
(** * Per-DataChannel send queue (src/go/internal/pionserver/dcsend.go and the
      dc:send path of handler.go)

    Each DataChannel has a bounded work channel, a [done] channel closed once,
    a sender goroutine that drains the work channel, and any number of
    connection read loops that enqueue onto it.  [Module Queue] models the
    interleavings of the channel operations of these goroutines; [Module Drain]
    models the condition variable on which the sender waits for the buffered
    amount to fall.  *)

From S2P Require Import Prelude GoValue.

Local Open Scope Z_scope.

Record DCConfig := mkDCConfig {
  cfgBufferedAmountLowThreshold : Z;
  cfgSendQueueDepth : Z
}.

Definition DefaultDCConfig : DCConfig := mkDCConfig (512 * 1024) 32.

(** [sendEvent] names the connection whose sink the answer goes to. *)
Record dcSendWork := mkWork {
  w_data : list Z;
  w_text : string;
  w_isText : bool;
  w_msgID : Z;
  w_handle : string;
  w_awaitDrain : bool;
  w_sendEvent : option positive
}.

(** The state behind one pointer of the registry: the buffered work channel
    with its capacity, whether [done] is closed, the low-water mark, and the
    detached channel once it is open. *)
Record DCSendState := mkSendState {
  work : list dcSendWork;
  workCap : Z;
  done_ : bool;
  threshold : Z;
  detach : bool;
  raw : option positive
}.

Definition newDCSendState (cfg : DCConfig) (det : bool) : DCSendState :=
  mkSendState [] (cfgSendQueueDepth cfg) false (cfgBufferedAmountLowThreshold cfg) det None.

Definition setDetached (s : DCSendState) (r : positive) : DCSendState :=
  mkSendState (work s) (workCap s) (done_ s) (threshold s) (detach s) (Some r).

Definition detached (s : DCSendState) : option positive := raw s.

(** The wake-up that goes with it is in [Module Drain]. *)
Definition setThreshold (s : DCSendState) (t : Z) : DCSendState :=
  mkSendState (work s) (workCap s) (done_ s) t (detach s) (raw s).

(** ** Answers *)

Definition msgClosedBeforeSend (w : dcSendWork) : Message :=
  ErrorResponse (w_msgID w) "DC_CLOSED" "data channel closed before send" false (w_handle w).

(** What [closeState] does when nothing else runs: it closes [done] and fails
    every queued item, in order; a second call changes nothing. *)
Definition closeState (s : DCSendState) : DCSendState * list (positive * Message) :=
  if done_ s then (s, [])
  else
    (mkSendState [] (workCap s) true (threshold s) (detach s) (raw s),
     omap (fun w => (fun conn => (conn, msgClosedBeforeSend w)) <$> w_sendEvent w) (work s)).

(** The pion call [doSend] makes, or the error it returns without one. *)
Inductive pion_send :=
  | CallSendText (text : string)
  | CallSend (data : list Z)
  | CallWriteDetached (r : positive) (isString : bool) (text : string) (data : list Z)
  | NotOpen.

Definition errDetachedNotOpen : string := "data channel is not open".

Definition doSend (s : DCSendState) (w : dcSendWork) : pion_send :=
  if detach s then
    match detached s with
    | None => NotOpen
    | Some r =>
        if w_isText w then CallWriteDetached r true (w_text w) []
        else CallWriteDetached r false "" (w_data w)
    end
  else if w_isText w then CallSendText (w_text w)
  else CallSend (w_data w).

(** The messages [runDCSend] emits for one item: [sendErr] is the error of
    [doSend], [drained] the result of [waitForBuffer]. *)
Definition runDCSend (dcHandle : string) (w : dcSendWork) (sendErr : option string)
    (drained : bool) : list Message :=
  match sendErr with
  | Some e =>
      [ErrorResponse (w_msgID w) "DC_SEND_ERROR" e false dcHandle;
       Event "event:dc:error" dcHandle (Some [("error"%string, VString e)])]
  | None =>
      if w_awaitDrain w && negb drained then
        [ErrorResponse (w_msgID w) "DC_CLOSED" "data channel closed during send" false dcHandle]
      else [AckResponse "dc:send" (w_msgID w) dcHandle None]
  end.

Arguments runDCSend : simpl never.

(** ** The queue under concurrency *)

Module Queue.

(** One dc:send is named by the ghost key of its enqueuing call.  Where such a
    call is in the last part of [handleDCSend]: *)
Inductive enq_pc :=
  | EnqSelect (w : dcSendWork)   (* at the select: enqueue or see [done] *)
  | EnqRecheck                   (* enqueued; about to re-check [done] *)
  | EnqReclaim                   (* saw [done]; about to take one item back *)
  | EnqReturned.

(** Where the sender goroutine is. *)
Inductive send_pc :=
  | SIdle                        (* at the select of the loop *)
  | SSending (k : nat) (w : dcSendWork)
  | SWaiting (k : nat) (w : dcSendWork)   (* in [waitForBuffer] *)
  | SExited.

(** Where the call of [closeState] that runs the body is. *)
Inductive close_pc := COpen | CDraining | CReturned.

(** What happens at the connections: an answer to a request, or a mere event. *)
Inductive output :=
  | Answer (k : nat) (conn : option positive) (m : Message)
  | Notify (conn : option positive) (m : Message).

(** The messages of one item: the first answers the request, the rest are
    events. *)
Definition emit (k : nat) (w : dcSendWork) (ms : list Message) : list output :=
  match ms with
  | [] => []
  | m :: rest => Answer k (w_sendEvent w) m :: map (Notify (w_sendEvent w)) rest
  end.

Record sys := mkSys {
  q : list (nat * dcSendWork);
  done : bool;
  enqs : gmap nat enq_pc;
  sender : send_pc;
  closer : close_pc;
  reqs : gmap nat dcSendWork;    (* ghost: the request behind each key *)
  pushed : list nat;             (* ghost: keys in the order they entered the queue *)
  taken : list nat;              (* ghost: keys in the order the sender took them *)
  out : list output
}.

Definition init : sys := mkSys [] false ∅ SIdle COpen ∅ [] [] [].

(** Field updates. *)
Definition set_enq (s : sys) (k : nat) (pc : enq_pc) : sys :=
  mkSys (q s) (done s) (<[k := pc]> (enqs s)) (sender s) (closer s) (reqs s)
    (pushed s) (taken s) (out s).

Definition set_q (s : sys) (l : list (nat * dcSendWork)) : sys :=
  mkSys l (done s) (enqs s) (sender s) (closer s) (reqs s) (pushed s) (taken s) (out s).

Definition set_sender (s : sys) (pc : send_pc) : sys :=
  mkSys (q s) (done s) (enqs s) pc (closer s) (reqs s) (pushed s) (taken s) (out s).

Definition set_closer (s : sys) (pc : close_pc) (d : bool) : sys :=
  mkSys (q s) d (enqs s) (sender s) pc (reqs s) (pushed s) (taken s) (out s).

Definition log_push (s : sys) (k : nat) : sys :=
  mkSys (q s) (done s) (enqs s) (sender s) (closer s) (reqs s) (pushed s ++ [k]) (taken s) (out s).

Definition log_take (s : sys) (k : nat) : sys :=
  mkSys (q s) (done s) (enqs s) (sender s) (closer s) (reqs s) (pushed s) (taken s ++ [k]) (out s).

Definition say (s : sys) (os : list output) : sys :=
  mkSys (q s) (done s) (enqs s) (sender s) (closer s) (reqs s) (pushed s) (taken s) (out s ++ os).

Definition new_req (s : sys) (k : nat) (w : dcSendWork) : sys :=
  mkSys (q s) (done s) (<[k := EnqSelect w]> (enqs s)) (sender s) (closer s)
    (<[k := w]> (reqs s)) (pushed s) (taken s) (out s).

Section Steps.
Context (cap : nat) (dcHandle : string).

(** Steps of the program, with the results of pion's calls chosen freely. *)
Inductive step (s : sys) : sys -> Prop :=
  | enq_push k w :
      enqs s !! k = Some (EnqSelect w) -> (length (q s) < cap)%nat ->
      step s (log_push (set_enq (set_q s (q s ++ [(k, w)])) k EnqRecheck) k)
  | enq_closed k w :
      enqs s !! k = Some (EnqSelect w) -> done s = true ->
      step s (say (set_enq s k EnqReturned) (emit k w [msgClosedBeforeSend w]))
  | enq_open k :
      enqs s !! k = Some EnqRecheck -> done s = false -> step s (set_enq s k EnqReturned)
  | enq_sees_done k :
      enqs s !! k = Some EnqRecheck -> done s = true -> step s (set_enq s k EnqReclaim)
  | enq_reclaim k k' w' rest :
      enqs s !! k = Some EnqReclaim -> q s = (k', w') :: rest ->
      step s (say (set_enq (set_q s rest) k EnqReturned) (emit k' w' [msgClosedBeforeSend w']))
  | enq_reclaim_none k :
      enqs s !! k = Some EnqReclaim -> q s = [] -> step s (set_enq s k EnqReturned)
  | send_take k w rest :
      sender s = SIdle -> q s = (k, w) :: rest ->
      step s (log_take (set_sender (set_q s rest) (SSending k w)) k)
  | send_exit :
      sender s = SIdle -> done s = true -> step s (set_sender s SExited)
  | send_error k w e :
      sender s = SSending k w ->
      step s (say (set_sender s SIdle) (emit k w (runDCSend dcHandle w (Some e) false)))
  | send_ack k w :
      sender s = SSending k w -> w_awaitDrain w = false ->
      step s (say (set_sender s SIdle) (emit k w (runDCSend dcHandle w None true)))
  | send_wait k w :
      sender s = SSending k w -> w_awaitDrain w = true -> step s (set_sender s (SWaiting k w))
  | send_drained k w :
      sender s = SWaiting k w ->
      step s (say (set_sender s SIdle) (emit k w (runDCSend dcHandle w None true)))
  | send_closed k w :
      sender s = SWaiting k w -> done s = true ->
      step s (say (set_sender s SIdle) (emit k w (runDCSend dcHandle w None false)))
  | close_drain k w rest :
      closer s = CDraining -> q s = (k, w) :: rest ->
      step s (say (set_q s rest) (emit k w [msgClosedBeforeSend w]))
  | close_return :
      closer s = CDraining -> q s = [] -> step s (set_closer s CReturned (done s)).

(** What arrives from outside: a new dc:send, and the call of [closeState]. *)
Inductive arrive (s : sys) : sys -> Prop :=
  | arrive_send k w :
      enqs s !! k = None -> is_Some (w_sendEvent w) -> arrive s (new_req s k w)
  | arrive_close : closer s = COpen -> arrive s (set_closer s CDraining true).

Definition any_step (s s' : sys) : Prop := step s s' \/ arrive s s'.

Definition reachable (s : sys) : Prop := rtc any_step init s.

(** ** Invariant *)

Definition answer_key (o : output) : option nat :=
  match o with Answer k _ _ => Some k | Notify _ _ => None end.

Definition answers (s : sys) : list nat := omap answer_key (out s).

Definition held (s : sys) : list nat :=
  match sender s with SSending k _ | SWaiting k _ => [k] | SIdle | SExited => [] end.

Definition at_select (s : sys) (k : nat) : nat :=
  match enqs s !! k with Some (EnqSelect _) => 1 | _ => 0 end.

(** How often the key occurs in the places a request can be in. *)
Definition places (s : sys) (k : nat) : nat :=
  (at_select s k + count_occ Nat.eq_dec (map fst (q s)) k + count_occ Nat.eq_dec (held s) k
   + count_occ Nat.eq_dec (answers s) k)%nat.

Definition weigh (f : enq_pc -> nat) (m : gmap nat enq_pc) : nat :=
  map_fold (fun _ pc acc => (f pc + acc)%nat) 0%nat m.

Definition between (pc : enq_pc) : nat :=
  match pc with EnqRecheck | EnqReclaim => 1 | _ => 0 end.

Record inv (s : sys) : Prop := {
  i_once : forall k, places s k = if decide (enqs s !! k = None) then 0%nat else 1%nat;
  i_done : done s = true <-> closer s <> COpen;
  i_exit : sender s = SExited -> done s = true;
  i_reclaim : forall k pc, enqs s !! k = Some pc -> pc = EnqReclaim -> done s = true;
  i_late : closer s = CReturned -> (length (q s) <= weigh between (enqs s))%nat;
  i_fifo : sublist (taken s ++ map fst (q s)) (pushed s);
  i_fifo_open : done s = false -> pushed s = taken s ++ map fst (q s)
}.

Lemma weigh_insert_new f m k pc :
  m !! k = None -> weigh f (<[k := pc]> m) = (f pc + weigh f m)%nat.
Proof. intros H. unfold weigh. rewrite map_fold_insert_L; [done|lia|done]. Qed.

Lemma weigh_insert f m k old pc :
  m !! k = Some old -> (weigh f (<[k := pc]> m) + f old = weigh f m + f pc)%nat.
Proof.
  intros H. rewrite <- (insert_id m k old H) at 2. rewrite <- !(insert_delete_eq m).
  rewrite !weigh_insert_new by apply lookup_delete_eq. lia.
Qed.

Lemma weigh_le f m k pc : m !! k = Some pc -> (f pc <= weigh f m)%nat.
Proof.
  intros H. rewrite <- (insert_id m k pc H), <- insert_delete_eq.
  rewrite weigh_insert_new by apply lookup_delete_eq. lia.
Qed.

Lemma weigh_zero f m :
  (forall k pc, m !! k = Some pc -> f pc = 0%nat) -> weigh f m = 0%nat.
Proof.
  induction m as [|k pc m Hk IH] using map_ind; intros H; [done|].
  rewrite weigh_insert_new by done. rewrite (H k pc) by apply lookup_insert_eq.
  rewrite IH; [done|]. intros k' pc' H'. apply (H k' pc').
  rewrite lookup_insert_ne; [done|]. congruence.
Qed.

Lemma answers_say s os :
  answers (say s os) = answers s ++ omap answer_key os.
Proof. unfold answers. simpl. apply omap_app. Qed.

Lemma emit_keys k w ms : ms <> [] -> omap answer_key (emit k w ms) = [k].
Proof.
  destruct ms as [|m ms]; [done|]. intros _. simpl. f_equal.
  induction ms as [|m' ms IH]; simpl; done.
Qed.

Lemma runDCSend_nonnil h w e d : runDCSend h w e d <> [].
Proof. unfold runDCSend. destruct e; [done|]. by destruct (w_awaitDrain w && negb d). Qed.

Lemma inv_init : inv init.
Proof. split; simpl; try done. Qed.

(** No step changes the number of places a request is in. *)
Lemma places_step s s' k0 : step s s' -> places s' k0 = places s k0.
Proof.
  intros Hs.
  destruct Hs as [k w Hk Hlen|k w Hk Hdn|k Hk Hdn|k Hk Hdn|k k' w' rest Hk Hq|k Hk Hq|k w rest Hs Hq
    |Hs Hdn|k w e Hs|k w Hs Hw|k w Hs Hw|k w Hs|k w Hs Hdn|k w rest Hc Hq|Hc Hq];
    unfold places, at_select, held; rewrite ?answers_say; simpl;
    rewrite ?emit_keys by (apply runDCSend_nonnil || done);
    try rewrite Hq; try rewrite Hs;
    rewrite ?map_app, ?count_occ_app, ?lookup_insert; simpl;
    try (destruct (decide (k = k0)) as [->|]; [rewrite Hk|]);
    repeat match goal with |- context [Nat.eq_dec ?a ?b] => destruct (Nat.eq_dec a b) end;
    simplify_eq; unfold answers; simpl; lia.
Qed.

Lemma keys_step s s' k0 : step s s' -> enqs s' !! k0 = None <-> enqs s !! k0 = None.
Proof.
  intros Hs. destruct Hs as [k w Hk Hlen|k w Hk Hdn|k Hk Hdn|k Hk Hdn|k k' w' rest Hk Hq|k Hk Hq
    | | | | | | | | | ]; simpl; try done;
    rewrite lookup_insert; destruct (decide (k = k0)) as [->|]; try done; by rewrite Hk.
Qed.

Lemma reqs_step s s' : step s s' -> reqs s' = reqs s.
Proof. by destruct 1. Qed.

Lemma done_step s s' : step s s' -> done s' = done s /\ (closer s' = COpen <-> closer s = COpen).
Proof. destruct 1; simpl; split; try done. split; congruence. Qed.

Lemma sublist_drop_mid {A} (l1 l2 l : list A) x :
  sublist (l1 ++ x :: l2) l -> sublist (l1 ++ l2) l.
Proof. intros H. etrans; [|exact H]. apply sublist_app; [done|]. by apply sublist_cons. Qed.

Lemma fifo_step s s' :
  step s s' -> (done s = true <-> closer s <> COpen) ->
  (forall k pc, enqs s !! k = Some pc -> pc = EnqReclaim -> done s = true) ->
  sublist (taken s ++ map fst (q s)) (pushed s) -> (done s = false -> pushed s = taken s ++ map fst (q s)) ->
  sublist (taken s' ++ map fst (q s')) (pushed s')
  /\ (done s' = false -> pushed s' = taken s' ++ map fst (q s')).
Proof.
  intros Hs Hd Hr Hf Hfo.
  destruct Hs as [k w Hk Hlen|k w Hk Hdn|k Hk Hdn|k Hk Hdn|k k' w' rest Hk Hq|k Hk Hq|k w rest Hs Hq
    |Hs Hdn|k w e Hs|k w Hs Hw|k w Hs Hw|k w Hs|k w Hs Hdn|k w rest Hc Hq|Hc Hq]; simpl; try done.
  - rewrite map_app, app_assoc. split; [by apply sublist_app|].
    intros Hdn. by rewrite (Hfo Hdn).
  - rewrite Hq in *. simpl in *. split; [by eapply sublist_drop_mid|].
    intros Hdn. rewrite (Hr k _ Hk) in Hdn; done.
  - rewrite Hq in *. simpl in *. by rewrite <- app_assoc.
  - rewrite Hq in *. simpl in *. split; [by eapply sublist_drop_mid|].
    intros Hdn. assert (done s = true) by (apply Hd; congruence). congruence.
Qed.

Lemma late_step s s' :
  step s s' -> (done s = true <-> closer s <> COpen) ->
  (closer s = CReturned -> (length (q s) <= weigh between (enqs s))%nat) ->
  closer s' = CReturned -> (length (q s') <= weigh between (enqs s'))%nat.
Proof.
  intros Hs Hd Hl.
  destruct Hs as [k w Hk Hlen|k w Hk Hdn|k Hk Hdn|k Hk Hdn|k k' w' rest Hk Hq|k Hk Hq|k w rest Hs Hq
    |Hs Hdn|k w e Hs|k w Hs Hw|k w Hs Hw|k w Hs|k w Hs Hdn|k w rest Hc Hq|Hc Hq]; simpl;
    intros HcR; try (specialize (Hl HcR)); try (rewrite Hq in *; simpl in *); try lia; try congruence.
  - pose proof (weigh_insert between _ k _ EnqRecheck Hk). rewrite length_app. simpl in *. lia.
  - pose proof (weigh_insert between _ k _ EnqReturned Hk). simpl in *. lia.
  - assert (done s = true) by (apply Hd; congruence). congruence.
  - pose proof (weigh_insert between _ k _ EnqReclaim Hk). simpl in *. lia.
  - pose proof (weigh_insert between _ k _ EnqReturned Hk). simpl in *. lia.
Qed.

Lemma inv_step s s' : inv s -> step s s' -> inv s'.
Proof.
  intros [Hi Hd He Hr Hl Hf Hfo] Hs. destruct (done_step _ _ Hs) as [Hdn Hco].
  destruct (fifo_step _ _ Hs Hd Hr Hf Hfo) as [Hf' Hfo'].
  split; try done.
  - intros k. rewrite (places_step _ _ _ Hs), Hi.
    pose proof (keys_step _ _ k Hs). repeat case_decide; tauto.
  - rewrite Hdn, Hd. tauto.
  - rewrite Hdn. destruct Hs; simpl in *; intros; try done; auto.
  - rewrite Hdn. intros k pc. destruct Hs; simpl; try eapply Hr;
      intros [[<- <-]|[_ Hk]]%lookup_insert_Some; try done; by eapply Hr.
  - by apply (late_step _ _ Hs).
Qed.

Lemma inv_arrive s s' : inv s -> arrive s s' -> inv s'.
Proof.
  intros [Hi Hd He Hr Hl Hf Hfo] Ha. destruct Ha as [k w Hk Hw|Hc]; split; simpl; try done.
  - intros k0. specialize (Hi k0). unfold places, at_select, held, answers in *. simpl.
    rewrite !lookup_insert in *. destruct (decide (k = k0)) as [->|]; [|done].
    rewrite Hk in Hi. repeat case_decide; try done. lia.
  - intros k' pc [[<- <-]|[_ Hk']]%lookup_insert_Some; [done|]. by eapply Hr.
  - intros Hc. rewrite weigh_insert_new by done. simpl. auto.
Qed.

Lemma inv_reachable s : reachable s -> inv s.
Proof.
  unfold reachable. intros H. assert (Hinv := inv_init). revert Hinv.
  induction H as [|a b c [Hs|Ha] _ IH]; eauto using inv_step, inv_arrive.
Qed.

(** ** Every run ends, and it ends with every request answered *)

Definition enq_weight (pc : enq_pc) : nat :=
  match pc with EnqSelect _ => 10 | EnqRecheck => 2 | EnqReclaim => 1 | EnqReturned => 0 end.

Definition measure (s : sys) : nat :=
  (weigh enq_weight (enqs s) + 4 * length (q s)
   + match sender s with SSending _ _ => 3 | SWaiting _ _ => 2 | SIdle => 1 | SExited => 0 end
   + match closer s with CDraining => 1 | _ => 0 end)%nat.

Lemma measure_step s s' : step s s' -> (measure s' < measure s)%nat.
Proof.
  intros Hs.
  destruct Hs as [k w Hk Hlen|k w Hk Hdn|k Hk Hdn|k Hk Hdn|k k' w' rest Hk Hq|k Hk Hq|k w rest Hs Hq
    |Hs Hdn|k w e Hs|k w Hs Hw|k w Hs Hw|k w Hs|k w Hs Hdn|k w rest Hc Hq|Hc Hq];
    unfold measure; simpl; try rewrite Hq; try rewrite Hs; try rewrite Hc;
    rewrite ?length_app; simpl; try lia;
    match goal with |- context [<[k := ?pc]> _] =>
      pose proof (weigh_insert enq_weight _ k _ pc Hk) end; simpl in *; lia.
Qed.

Lemma run_bounded n s s' : nsteps step n s s' -> (n <= measure s)%nat.
Proof.
  induction 1 as [|n a b c Hs _ IH]; [lia|]. pose proof (measure_step _ _ Hs). lia.
Qed.

Lemma quiescent_empty s :
  (1 <= cap)%nat -> inv s -> (forall s', ~ step s s') ->
  q s = [] /\ held s = [] /\ forall k, at_select s k = 0%nat.
Proof.
  intros Hcap [Hi Hd He Hr Hl Hf Hfo] Hq.
  assert (Hpc : forall k pc, enqs s !! k = Some pc ->
    (pc = EnqReturned \/ exists w, pc = EnqSelect w)).
  { intros k [w| | |] Hk; eauto; exfalso.
    - destruct (done s) eqn:E; [eapply Hq, enq_sees_done|eapply Hq, enq_open]; eauto.
    - destruct (q s) as [|[k' w'] rest] eqn:E;
        [eapply Hq, enq_reclaim_none|eapply Hq, enq_reclaim]; eauto. }
  destruct (sender s) as [|k w|k w|] eqn:Es.
  - assert (Hnil : q s = []).
    { destruct (q s) as [|[k w] rest] eqn:E; [done|]. exfalso. eapply Hq, send_take; eauto. }
    split_and!; [done|unfold held; by rewrite Es|].
    intros k. unfold at_select. destruct (enqs s !! k) as [pc|] eqn:Hk; [|done].
    destruct (Hpc _ _ Hk) as [->|[w ->]]; [done|]. exfalso. eapply Hq, enq_push; eauto.
    rewrite Hnil. simpl. lia.
  - exfalso. destruct (w_awaitDrain w) eqn:E; [eapply Hq, send_wait|eapply Hq, send_ack]; eauto.
  - exfalso. eapply Hq, send_drained; eauto.
  - assert (Hdn : done s = true) by auto.
    assert (Hsel : forall k, at_select s k = 0%nat).
    { intros k. unfold at_select. destruct (enqs s !! k) as [pc|] eqn:Hk; [|done].
      destruct (Hpc _ _ Hk) as [->|[w ->]]; [done|]. exfalso. eapply Hq, enq_closed; eauto. }
    split_and!; [|unfold held; by rewrite Es|done].
    destruct (closer s) eqn:Ec.
    + apply Hd in Hdn. done.
    + destruct (q s) as [|[k w] rest] eqn:E; [done|]. exfalso. eapply Hq, close_drain; eauto.
    + specialize (Hl eq_refl). rewrite (weigh_zero between) in Hl.
      * destruct (q s); simpl in *; [done|lia].
      * intros k pc Hk. destruct (Hpc _ _ Hk) as [->|[w ->]]; done.
Qed.

(** ** Answers go back to the connection that asked *)

Definition answer_ok (r : gmap nat dcSendWork) (o : output) : Prop :=
  match o with
  | Answer k conn m =>
      exists w, r !! k = Some w /\ conn = w_sendEvent w /\ ID m = w_msgID w
  | Notify _ _ => True
  end.

Record routed (s : sys) : Prop := {
  r_q : Forall (fun kw => reqs s !! kw.1 = Some kw.2) (q s);
  r_enq : forall k w, enqs s !! k = Some (EnqSelect w) -> reqs s !! k = Some w;
  r_dom : forall k, reqs s !! k <> None -> enqs s !! k <> None;
  r_send : forall k w, sender s = SSending k w \/ sender s = SWaiting k w ->
    reqs s !! k = Some w;
  r_out : Forall (answer_ok (reqs s)) (out s)
}.

Lemma emit_ok r k w ms :
  r !! k = Some w -> Forall (fun m => ID m = w_msgID w) (take 1 ms) ->
  Forall (answer_ok r) (emit k w ms).
Proof.
  destruct ms as [|m ms]; simpl; intros Hr Hid; [constructor|].
  inversion Hid; subst. constructor; [by exists w|].
  apply Forall_forall. intros o [m' [<- _]]%list_elem_of_In%in_map_iff. done.
Qed.

Lemma runDCSend_id h w e d : Forall (fun m => ID m = w_msgID w) (take 1 (runDCSend h w e d)).
Proof.
  unfold runDCSend. destruct e; [repeat constructor|].
  destruct (w_awaitDrain w && negb d); repeat constructor.
Qed.

Lemma routed_step s s' : routed s -> step s s' -> routed s'.
Proof.
  intros [Hq He Hd Hs Ho] Hst.
  destruct Hst as [k w Hk Hlen|k w Hk Hdn|k Hk Hdn|k Hk Hdn|k k' w' rest Hk Hq'|k Hk Hq'|k w rest Hs' Hq'
    |Hs' Hdn|k w e Hs'|k w Hs' Hw|k w Hs' Hw|k w Hs'|k w Hs' Hdn|k w rest Hc Hq'|Hc Hq'];
    try (rewrite Hq' in Hq; inversion Hq; subst);
    (split; simpl; try done).
  all: try (intros k0 w0; rewrite lookup_insert; case_decide; [done|by apply He]).
  all: try (intros k0 Hk0; rewrite lookup_insert; case_decide; [done|by apply Hd]).
  all: try (apply Forall_app; split; [done|apply emit_ok];
            [|first [apply runDCSend_id|repeat constructor]]; eauto; fail).
  all: try (intros k0 w0 [?|?]; simplify_eq; eauto; fail).
  all: try (rewrite Hq'; by constructor).
  all: apply Forall_app; split; [done|]; repeat constructor; simpl; eauto 6.
Qed.

Lemma routed_arrive s s' : routed s -> arrive s s' -> routed s'.
Proof.
  intros [Hq He Hd Hs Ho] Ha. destruct Ha as [k w Hk Hw|Hc]; split; simpl; try done.
  all: assert (Hold : forall k0 w0, reqs s !! k0 = Some w0 -> <[k:=w]> (reqs s) !! k0 = Some w0)
    by (intros k0 w0 Hk0; rewrite lookup_insert_ne; [done|];
        intros <-; apply (Hd k); [congruence|done]).
  - eapply Forall_impl; [exact Hq|]. auto.
  - intros k0 w0. rewrite !lookup_insert. case_decide; [congruence|auto].
  - intros k0. rewrite !lookup_insert. case_decide; [done|auto].
  - auto.
  - eapply Forall_impl; [exact Ho|]. intros [k0 conn m|conn m]; simpl; [|done].
    intros (w0 & Hw0 & ?). eauto.
Qed.

Lemma routed_reachable s : reachable s -> routed s.
Proof.
  unfold reachable. intros H.
  assert (Hinv : routed init) by (split; simpl; naive_solver).
  revert Hinv. induction H as [|a b c [Hs|Ha] _ IH]; eauto using routed_step, routed_arrive.
Qed.

End Steps.

(** C1. However the read loops, the sender goroutine and the closing of the
    channel interleave: no dc:send ever gets two answers; any run of the
    program after the last arrival is finite, with an explicit bound; and
    where it stops, every dc:send that arrived has been answered exactly once,
    acked, failed by the sender, or failed because the channel closed. *)
Theorem dc_send_answered_exactly_once cap dcHandle s s' :
  (1 <= cap)%nat -> reachable cap dcHandle s -> rtc (step cap dcHandle) s s' ->
  (forall k, (count_occ Nat.eq_dec (answers s') k <= 1)%nat)
  /\ (forall n t, nsteps (step cap dcHandle) n s t -> (n <= measure s)%nat)
  /\ ((forall t, ~ step cap dcHandle s' t) ->
      forall k, enqs s !! k <> None -> count_occ Nat.eq_dec (answers s') k = 1%nat).
Proof.
  intros Hcap Hr Hrun. apply inv_reachable in Hr.
  assert (Hinv : inv s') by (clear -Hr Hrun; induction Hrun; eauto using inv_step).
  assert (Hkeys : forall k, enqs s' !! k = None <-> enqs s !! k = None).
  { clear -Hrun. induction Hrun as [|a b c Hs _ IH]; [done|].
    intros k. by rewrite IH, (keys_step _ _ _ _ k Hs). }
  split; [|split].
  - intros k. pose proof (i_once _ Hinv k) as Ho. unfold places in Ho. case_decide; lia.
  - intros n t. apply run_bounded.
  - intros Hstop k Hk. destruct (quiescent_empty cap dcHandle s' Hcap Hinv Hstop) as (Hq & Hh & Hsel).
    pose proof (i_once _ Hinv k) as Ho. unfold places in Ho.
    rewrite Hq, Hh, Hsel, decide_False in Ho by (by rewrite Hkeys). simpl in Ho. lia.
Qed.

Definition ex_work : dcSendWork := mkWork [1; 2] "" false 7 "dc" true (Some 1%positive).

(** A request arrives, is enqueued, and the channel closes. *)
Definition ex_arrived : sys := new_req init 0 ex_work.

Definition ex_pushed : sys :=
  log_push (set_enq (set_q ex_arrived (q ex_arrived ++ [(0%nat, ex_work)])) 0 EnqRecheck) 0.

Definition ex_closing : sys := set_closer ex_pushed CDraining true.

Lemma ex_closing_reachable : reachable 1 "dc" ex_closing.
Proof.
  eapply rtc_l; [right; apply (arrive_send init 0 ex_work); [done|by eexists]|].
  eapply rtc_l; [left; apply (enq_push 1 "dc" ex_arrived 0 ex_work); [done|simpl; lia]|].
  apply rtc_once. right. by apply arrive_close.
Defined.

Lemma dc_send_answered_exactly_once_witness :
  (forall k, (count_occ Nat.eq_dec (answers ex_closing) k <= 1)%nat)
  /\ enqs ex_closing !! 0%nat <> None.
Proof.
  split; [|done].
  exact (proj1 (dc_send_answered_exactly_once 1 "dc" ex_closing ex_closing (le_n 1)
    ex_closing_reachable (rtc_refl _ _))).
Defined.

(** C37. A DataChannel is one FIFO for text and binary alike: in every reachable
    state the items the sender took, followed by those still queued, appear
    in the order they were enqueued, and while the channel is open none is
    skipped; and every answer carries the ID of its request and goes to the
    connection that issued it. *)
Theorem dc_send_fifo_and_routing cap dcHandle s :
  reachable cap dcHandle s ->
  sublist (taken s ++ map fst (q s)) (pushed s)
  /\ (done s = false -> pushed s = taken s ++ map fst (q s))
  /\ (forall k conn m, Answer k conn m ∈ out s ->
        exists w, reqs s !! k = Some w /\ conn = w_sendEvent w /\ ID m = w_msgID w).
Proof.
  intros Hr. pose proof (inv_reachable _ _ _ Hr) as Hinv.
  split_and!; [apply Hinv|apply Hinv|].
  intros k conn m Hin. pose proof (r_out _ (routed_reachable _ _ _ Hr)) as Ho.
  rewrite Forall_forall in Ho. exact (Ho _ Hin).
Qed.

Lemma dc_send_fifo_and_routing_witness :
  sublist (taken ex_closing ++ map fst (q ex_closing)) (pushed ex_closing).
Proof. exact (proj1 (dc_send_fifo_and_routing 1 "dc" ex_closing ex_closing_reachable)). Defined.

End Queue.


(** ** Waiting for the buffer to drain

    The sender waits on a condition variable until the channel's buffered
    amount is at or below the threshold.  It is woken by the callback the SCTP
    stream makes when the amount crosses *its* threshold, by a change of the
    threshold, and by the close. *)

Module Drain.

(** Where the sender is in [waitForBuffer].  It holds the lock at [WCheck] and
    at [WDecided]; [cond.Wait] gives the lock up and parks in one step. *)
Inductive wait_pc :=
  | WEnter                 (* about to lock *)
  | WCheck                 (* at the loop condition *)
  | WDecided               (* saw a full buffer and an open channel *)
  | WParked                (* inside cond.Wait *)
  | WWoken                 (* broadcast to; about to lock again *)
  | WReturned (b : bool).

Record sys := mkSys {
  buf : Z;                 (* the stream's bufferedAmount *)
  dcThr : Z;               (* the stream's bufferedAmountLow *)
  thr : Z;                 (* DCSendState.threshold *)
  closed : bool;           (* done is closed *)
  closing : bool;          (* closeState has closed done, not yet broadcast *)
  lows : nat;              (* callbacks the stream started, not yet broadcast *)
  setters : list Z;        (* threshold changes between their two writes *)
  pc : wait_pc
}.

Definition locked (s : sys) : bool :=
  match pc s with WCheck | WDecided => true | _ => false end.

Definition set_pc (s : sys) (p : wait_pc) : sys :=
  mkSys (buf s) (dcThr s) (thr s) (closed s) (closing s) (lows s) (setters s) p.

(** [cond.Broadcast]. *)
Definition broadcast (s : sys) : sys :=
  match pc s with WParked => set_pc s WWoken | _ => s end.

(** [for dc.BufferedAmount() > s.threshold { select { case <-s.done: ... } ... }] *)
Definition check (s : sys) : sys :=
  if buf s >? thr s then
    if closed s then set_pc s (WReturned false) else set_pc s WDecided
  else set_pc s (WReturned true).

(** [Stream.onBufferReleased]: the callback is due when the amount crosses the
    stream's threshold. *)
Definition onBufferReleased (s : sys) (n : Z) : sys :=
  if n <=? 0 then s
  else
    let from := buf s in
    let now := if from <? n then 0 else from - n in
    mkSys now (dcThr s) (thr s) (closed s) (closing s)
      (if (from >? dcThr s) && (now <=? dcThr s) then S (lows s) else lows s) (setters s) (pc s).

(** Another write to the channel. *)
Definition written (s : sys) (n : Z) : sys :=
  mkSys (buf s + n) (dcThr s) (thr s) (closed s) (closing s) (lows s) (setters s) (pc s).

(** [signalLow], run by one of the callbacks. *)
Definition signalLow (s : sys) : sys :=
  let s' := broadcast s in
  mkSys (buf s') (dcThr s') (thr s') (closed s') (closing s') (pred (lows s')) (setters s') (pc s').

(** [dc.SetBufferedAmountLowThreshold(threshold)] of the request handler. *)
Definition set_dc (s : sys) (t : Z) : sys :=
  mkSys (buf s) t (thr s) (closed s) (closing s) (lows s) (t :: setters s) (pc s).

(** [state.setThreshold(threshold)], its second half. *)
Definition set_state (s : sys) (before : list Z) (t : Z) (after : list Z) : sys :=
  let s' := broadcast s in
  mkSys (buf s') (dcThr s') t (closed s') (closing s') (lows s') (before ++ after) (pc s').

(** [close(s.done)] of [closeState], and the broadcast after it. *)
Definition close_done (s : sys) : sys :=
  mkSys (buf s) (dcThr s) (thr s) true true (lows s) (setters s) (pc s).

Definition close_broadcast (s : sys) : sys :=
  let s' := broadcast s in
  mkSys (buf s') (dcThr s') (thr s') (closed s') false (lows s') (setters s') (pc s').

(** What the bridge's goroutines do by themselves. *)
Inductive step (s : sys) : sys -> Prop :=
  | wait_lock : (pc s = WEnter \/ pc s = WWoken) -> step s (set_pc s WCheck)
  | wait_check : pc s = WCheck -> step s (check s)
  | wait_park : pc s = WDecided -> step s (set_pc s WParked)
  | run_low : (0 < lows s)%nat -> locked s = false -> step s (signalLow s)
  | run_setter before t after :
      setters s = before ++ t :: after -> locked s = false ->
      step s (set_state s before t after)
  | run_close : closing s = true -> locked s = false -> step s (close_broadcast s).

(** What happens to it: bytes are released, written, thresholds are changed by
    at most [limit] requests at a time, the channel is closed. *)
Inductive happens (limit : nat) (s : sys) : sys -> Prop :=
  | released n : happens limit s (onBufferReleased s n)
  | wrote n : 0 <= n -> happens limit s (written s n)
  | setting t : (length (setters s) < limit)%nat -> happens limit s (set_dc s t)
  | closes : closed s = false -> happens limit s (close_done s).

Definition any_step (limit : nat) (s s' : sys) : Prop := step s s' \/ happens limit s s'.

(** The sender enters [waitForBuffer] after [startDCSendGoroutine] gave both
    sides the same threshold. *)
Definition start (amount t : Z) : sys := mkSys amount t t false false 0 [] WEnter.

Definition wake_due (s : sys) : Prop :=
  (0 < lows s)%nat \/ setters s <> [] \/ closing s = true.

(** With one threshold change at a time the two thresholds can differ only
    while it is under way; a waiter that has decided to park, or is parked, has
    reason to, or will be woken. *)
Definition in_step (s : sys) : Prop :=
  match setters s with
  | [] => dcThr s = thr s
  | [t] => dcThr s = t
  | _ => False
  end.

Definition inv (s : sys) : Prop :=
  in_step s
  /\ (pc s = WDecided \/ pc s = WParked ->
      wake_due s \/ (thr s < buf s /\ closed s = false)).

Lemma broadcast_pc s : locked s = false -> pc (broadcast s) <> WDecided /\ pc (broadcast s) <> WParked.
Proof. unfold locked, broadcast. destruct (pc s) eqn:E; simpl; try done; by rewrite E. Qed.

Lemma broadcast_fields s :
  buf (broadcast s) = buf s /\ dcThr (broadcast s) = dcThr s /\ thr (broadcast s) = thr s
  /\ closed (broadcast s) = closed s /\ closing (broadcast s) = closing s
  /\ lows (broadcast s) = lows s /\ setters (broadcast s) = setters s.
Proof. unfold broadcast. by destruct (pc s). Qed.

(** After a broadcast nobody is parked, whatever else changes. *)
Lemma inv_broadcast s s' :
  locked s = false -> pc s' = pc (broadcast s) -> in_step s' -> inv s'.
Proof.
  intros Hl Hp Ht. split; [done|]. rewrite Hp.
  destruct (broadcast_pc s Hl). intros [?|?]; done.
Qed.

Lemma drain_inv_step s s' : inv s -> step s s' -> inv s'.
Proof.
  intros [Ht Hp] Hs.
  destruct (broadcast_fields s) as (Hb & Hd & Hth & Hc & Hcl & Hlo & Hse).
  destruct Hs as [He|He|He|Hlow Hl|before t after Hset Hl|Hclose Hl].
  - split; simpl; [done|]. intros [?|?]; done.
  - unfold check. destruct (buf s >? thr s) eqn:E; [destruct (closed s) eqn:Ec|]; split; simpl;
      try done; try (intros [?|?]; done).
    intros _. right. split; [apply Z.gtb_lt in E; lia|done].
  - split; simpl; [done|]. intros _. apply Hp. by left.
  - apply (inv_broadcast s); [done|done|]. unfold in_step. simpl. by rewrite Hse, Hd, Hth.
  - apply (inv_broadcast s); [done|done|]. unfold in_step in *. simpl. rewrite Hset in Ht.
    destruct before as [|? [|]]; destruct after; simpl in *; congruence || done.
  - apply (inv_broadcast s); [done|done|]. unfold in_step. simpl. by rewrite Hse, Hd, Hth.
Qed.

Lemma inv_happens s s' : inv s -> happens 1 s s' -> inv s'.
Proof.
  intros [Ht Hp] Hs. destruct Hs as [n|n Hn|t Hlen|Hc].
  - unfold onBufferReleased. case_match; [by split|]. split; simpl; [exact Ht|].
    intros Hpc. destruct (Hp Hpc) as [[Hw|[Hw|Hw]]|[Hb Hc]]; unfold wake_due; simpl.
    + left. left. case_match; lia.
    + left. by right; left.
    + left. by right; right.
    + unfold in_step in Ht. destruct (setters s) as [|t l]; [|left; by right; left].
      set (now := if buf s <? n then 0 else buf s - n).
      destruct (decide (thr s < now)); [by right|]. left. left.
      replace ((buf s >? dcThr s) && (now <=? dcThr s)) with true; [lia|].
      symmetry. apply andb_true_intro. split; [apply Z.gtb_lt|apply Z.leb_le]; lia.
  - split; simpl; [done|]. intros Hpc. destruct (Hp Hpc) as [Hw|[Hb Hc]]; [by left|].
    right. split; [lia|done].
  - destruct (setters s) as [|x l] eqn:E; simpl in Hlen; [|lia].
    split; [unfold in_step; simpl; by rewrite E|]. intros _. left. right. left. simpl. done.
  - split; [exact Ht|]. intros _. left. right. right. done.
Qed.

Lemma drain_inv_reachable a t s : rtc (any_step 1) (start a t) s -> inv s.
Proof.
  assert (Hinv : inv (start a t)) by (split; simpl; [done|intros [?|?]; done]).
  intros H. revert Hinv.
  induction H as [|x y z [Hs|Ha] _ IH]; eauto using drain_inv_step, inv_happens.
Qed.

(** Each broadcast lets the sender re-check at most once. *)
Definition pc_weight (p : wait_pc) : nat :=
  match p with WEnter | WWoken => 3 | WCheck => 2 | WDecided => 1 | WParked | WReturned _ => 0 end.

Definition measure (s : sys) : nat :=
  (4 * (lows s + length (setters s) + (if closing s then 1 else 0)) + pc_weight (pc s))%nat.

Lemma broadcast_weight s : (pc_weight (pc (broadcast s)) <= pc_weight (pc s) + 3)%nat.
Proof. unfold broadcast. destruct (pc s) eqn:E; simpl; try lia; rewrite E; simpl; lia. Qed.

Lemma drain_measure_step s s' : step s s' -> (measure s' < measure s)%nat.
Proof.
  intros Hs. pose proof (broadcast_weight s) as Hw.
  destruct (broadcast_fields s) as (_ & _ & _ & _ & Hcl & Hlo & Hse).
  unfold measure.
  destruct Hs as [He|He|He|Hlow Hl|before t after Hset Hl|Hclose Hl]; simpl;
    rewrite ?Hcl, ?Hlo, ?Hse; try (rewrite Hset, ?length_app; simpl); try rewrite Hclose; try lia.
  - destruct He as [->| ->]; simpl; lia.
  - unfold check. destruct (buf s >? thr s); [destruct (closed s)|]; simpl; rewrite He; simpl; lia.
  - rewrite He. simpl. lia.
Qed.

Lemma stuck_state s :
  (forall s', ~ step s s') ->
  ~ wake_due s /\ (pc s = WParked \/ exists b, pc s = WReturned b).
Proof.
  intros Hstuck.
  assert (Hpc : pc s = WParked \/ exists b, pc s = WReturned b).
  { destruct (pc s) eqn:E; eauto; exfalso.
    - eapply Hstuck, wait_lock. by left.
    - by eapply Hstuck, wait_check.
    - by eapply Hstuck, wait_park.
    - eapply Hstuck, wait_lock. by right. }
  assert (Hl : locked s = false) by (unfold locked; destruct Hpc as [->|[b ->]]; done).
  split; [|done]. intros [Hw|[Hw|Hw]].
  - by eapply Hstuck, run_low.
  - destruct (setters s) as [|t l] eqn:E; [done|]. by eapply Hstuck, (run_setter s [] t l).
  - by eapply Hstuck, run_close.
Qed.

(** Conversely. *)
Lemma settled s u :
  lows s = 0%nat -> setters s = [] -> closing s = false ->
  pc s = WParked \/ (exists b, pc s = WReturned b) -> ~ step s u.
Proof.
  intros Hl Hs Hc Hp Hst.
  destruct Hst as [He|He|He|Hlow _|before t after Hset _|Hclose _]; try lia; try congruence.
  - destruct Hp as [Hp|[b Hp]], He; congruence.
  - destruct Hp as [Hp|[b Hp]]; congruence.
  - destruct Hp as [Hp|[b Hp]]; congruence.
  - rewrite Hs in Hset. by destruct before.
Qed.

(** C31. No lost wake-up.  While threshold changes come one at a time, whatever
    else interleaves (bytes released or written, the close, earlier
    callbacks): the bridge's goroutines settle after a bounded number of
    steps, and where they settle with the buffer at or below the threshold, or
    with the channel closed, the sender has returned from [waitForBuffer]. *)
Theorem wait_for_buffer_no_lost_wakeup a t s s' :
  rtc (any_step 1) (start a t) s -> rtc step s s' ->
  (forall n u, nsteps step n s u -> (n <= measure s)%nat)
  /\ ((forall u, ~ step s' u) -> buf s' <= thr s' \/ closed s' = true ->
      exists b, pc s' = WReturned b).
Proof.
  intros Hr Hrun. apply drain_inv_reachable in Hr. split.
  - intros n u Hn. clear -Hn.
    induction Hn as [|n x y z Hs _ IH]; [lia|]. pose proof (drain_measure_step _ _ Hs). lia.
  - intros Hstop Hlow. assert (Hinv : inv s').
    { clear -Hr Hrun. induction Hrun; eauto using drain_inv_step. }
    destruct (stuck_state _ Hstop) as [Hw [Hp|Hp]]; [|done].
    destruct Hinv as [_ Hi]. destruct Hi as [?|[Hb Hc]]; [by right|done|].
    destruct Hlow; [lia|congruence].
Qed.

(** The sender parks on a full buffer; the buffer drains. *)
Definition ex_parked : sys := set_pc (check (set_pc (start 20 10) WCheck)) WParked.

Definition ex_drained : sys := onBufferReleased ex_parked 15.

Lemma ex_parked_steps : rtc step (start 20 10) ex_parked.
Proof.
  eapply rtc_l; [apply wait_lock; by left|].
  eapply rtc_l; [by apply wait_check|]. apply rtc_once. by apply wait_park.
Defined.

Lemma ex_drained_reachable : rtc (any_step 1) (start 20 10) ex_drained.
Proof.
  eapply rtc_r; [|right; apply released].
  eapply rtc_subrel, ex_parked_steps. intros x y Hs. by left.
Defined.

(** The callback runs, the sender locks, checks and returns. *)
Definition ex_returned : sys := check (set_pc (signalLow ex_drained) WCheck).

Lemma ex_returned_steps : rtc step ex_drained ex_returned.
Proof.
  eapply rtc_l; [apply run_low; [simpl; lia|done]|].
  eapply rtc_l; [apply wait_lock; by right|]. apply rtc_once. by apply wait_check.
Defined.

Lemma ex_returned_settled u : ~ step ex_returned u.
Proof.
  apply settled; [done|done|done|right; by eexists].
Qed.

Lemma wait_for_buffer_no_lost_wakeup_witness :
  buf ex_returned <= thr ex_returned /\ exists b, pc ex_returned = WReturned b.
Proof.
  assert (H : buf ex_returned <= thr ex_returned) by (vm_compute; discriminate).
  split; [exact H|].
  exact (proj2 (wait_for_buffer_no_lost_wakeup 20 10 ex_drained ex_returned
    ex_drained_reachable ex_returned_steps) ex_returned_settled (or_introl H)).
Defined.

(** Two requests change the threshold at once, to 10 and to 100: the stream
    keeps 100 and the state 10.  Afterwards the buffer drains to nothing. *)
Definition ex_race : sys :=
  set_state (set_state (set_dc (set_dc ex_parked 10) 100) [] 100 [10]) [] 10 [].

(** With two threshold changes in flight a wake-up can be lost: a state is
    reachable in which the buffer is empty, the channel open, and the sender
    parked with no callback, threshold change or close left to wake it. *)
Theorem threshold_race_loses_wakeup :
  exists s, rtc (any_step 2) (start 20 10) s
    /\ pc s = WParked /\ buf s = 0 /\ 0 <= thr s /\ closed s = false
    /\ (forall u, ~ step s u).
Proof.
  set (s1 := set_pc (check (set_pc ex_race WCheck)) WParked).
  exists (onBufferReleased s1 20). split_and!; try done.
  - eapply rtc_r; [|right; apply released].
    etrans;
      [eapply rtc_subrel, ex_parked_steps; intros x y Hs; by left|].
    eapply rtc_l; [right; apply (setting 2 ex_parked 10); simpl; lia|].
    eapply rtc_l; [right; apply setting; simpl; lia|].
    eapply rtc_l; [left; by apply (run_setter _ [] 100 [10])|].
    eapply rtc_l; [left; by apply (run_setter _ [] 10 [])|].
    eapply rtc_l; [left; apply wait_lock; by right|].
    eapply rtc_l; [left; by apply wait_check|].
    apply rtc_once. left. by apply wait_park.
  - intros u. apply settled; [done|done|done|by left].
Qed.

End Drain.
