(* ===== verification/Bytes.v ===== *)
(** * Byte slices and the results of the SCTP decoders

    Go's byte slices as lists of integers, big- and little-endian reads and
    writes (encoding/binary), and the outcome of a decoder: a value, an error
    of the package, a run-time panic (an index out of range), or a loop that
    did not end within its fuel.  *)

From S2P Require Import Prelude.

Local Open Scope Z_scope.

(** ** Outcomes *)

(** The error values of the package that the decoders and encoders return.  A
    wrapped error is named by its outermost value. *)
Inductive err :=
  | ErrParamPacketTooShort | ErrParamHeaderTooShort | ErrParamHeaderSelfReportedLengthShorter
  | ErrParamHeaderSelfReportedLengthLonger | ErrParamHeaderParseFailed | ErrParamTypeUnhandled
  | ErrInvalidChunkLength | ErrInvalidAlgorithmType | ErrSSNResetRequestParamTooShort
  | ErrReconfigRespParamTooShort | ErrZeroChecksumParamTooShort
  | ErrBuildErrorCaseHandle | ErrInvalidSCTPChunk | ErrProtocolViolationUnmarshal
  | ErrChunkHeaderTooSmall | ErrChunkHeaderNotEnoughSpace | ErrChunkHeaderPaddingNonZero
  | ErrChunkPayloadSmall | ErrChunkTypeUnhandled
  | ErrChunkTypeNotAbort | ErrBuildAbortChunkFailed | ErrChunkTypeNotCtError
  | ErrBuildErrorChunkFailed | ErrChunkTypeNotCookieAck | ErrChunkTypeNotCookieEcho
  | ErrMarshalStreamFailed | ErrChunkTooShort | ErrChunkTypeNotHeartbeat
  | ErrHeartbeatNotLongEnoughInfo | ErrParseParamTypeFailed | ErrHeartbeatParam
  | ErrHeartbeatChunkUnmarshal | ErrHeartbeatExtraNonZero | ErrHeartbeatMarshalNoInfo
  | ErrChunkTypeNotHeartbeatAck | ErrHeartbeatAckParams | ErrHeartbeatAckNotHeartbeatInfo
  | ErrHeartbeatAckMarshalParam | ErrInvalidChunkSize | ErrChunkTypeNotShutdown
  | ErrIForwardTSNChunkTooShort | ErrIForwardTSNTooManyStreams
  | ErrChunkTypeNotTypeInit | ErrChunkValueNotLongEnough | ErrChunkTypeInitFlagZero
  | ErrChunkTypeInitUnmarshalFailed | ErrChunkTypeNotInitAck | ErrChunkNotLongEnoughForParams
  | ErrChunkTypeInitAckFlagZero | ErrInitAckUnmarshalFailed | ErrInitChunkParseParamTypeFailed
  | ErrChunkTypeInitInitateTagZero | ErrInitInboundStreamRequestZero
  | ErrInitOutboundStreamRequestZero | ErrInitAdvertisedReceiver1500 | ErrInitUnknownParam
  | ErrChunkTypeInitAckInitateTagZero | ErrInitAckInboundStreamRequestZero
  | ErrInitAckOutboundStreamRequestZero | ErrInitAckAdvertisedReceiver1500
  | ErrChunkParseParamTypeFailed | ErrChunkTypeNotSack | ErrSackSizeNotLargeEnoughInfo
  | ErrSackSizeNotMatchPredicted | ErrChunkTypeNotShutdownAck | ErrChunkTypeNotShutdownComplete
  | ErrPacketRawTooSmall | ErrParseSCTPChunkNotEnoughData | ErrUnmarshalUnknownChunkType
  | ErrChecksumMismatch.

#[export] Instance err_eq_dec : EqDecision err.
Proof. solve_decision. Defined.

Inductive res (A : Type) :=
  | Ok (a : A)
  | Err (e : err)
  | Panic
  | OutOfFuel.
Arguments Ok {A} a.
Arguments Err {A} e.
Arguments Panic {A}.
Arguments OutOfFuel {A}.

#[export] Instance res_ret : MRet res := fun A => @Ok A.

#[export] Instance res_bind : MBind res := fun A B f m =>
  match m with Ok a => f a | Err e => Err e | Panic => Panic | OutOfFuel => OutOfFuel end.

#[export] Instance res_fmap : FMap res := fun A B f m =>
  match m with Ok a => Ok (f a) | Err e => Err e | Panic => Panic | OutOfFuel => OutOfFuel end.

(** [if err != nil { return fmt.Errorf("%w: %v", e, err) }] *)
Definition wrap_err {A} (e : err) (m : res A) : res A :=
  match m with Err _ => Err e | _ => m end.

(** [if cond { return e }] *)
Definition guard_err (ok : bool) (e : err) : res unit := if ok then Ok tt else Err e.

(** Neither a panic nor an unfinished loop. *)
Definition safe {A} (m : res A) : Prop :=
  match m with Ok _ | Err _ => True | Panic | OutOfFuel => False end.

Lemma safe_bind {A B} (m : res A) (f : A -> res B) :
  safe m -> (forall a, m = Ok a -> safe (f a)) -> safe (m ≫= f).
Proof. destruct m; simpl; intros H Hf; try done. by apply Hf. Qed.

Lemma Ok_inj {A} (a b : A) : Ok a = Ok b -> a = b.
Proof. congruence. Qed.

Lemma safe_wrap {A} e (m : res A) : safe m -> safe (wrap_err e m).
Proof. by destruct m. Qed.

Lemma safe_guard b e : safe (guard_err b e).
Proof. by destruct b. Qed.

Lemma guard_ok b e u : guard_err b e = Ok u -> b = true.
Proof. by destruct b. Qed.

Lemma wrap_ok {A} e (m : res A) a : wrap_err e m = Ok a <-> m = Ok a.
Proof. destruct m; simpl; naive_solver. Qed.

Lemma bind_ok {A B} (m : res A) (f : A -> res B) b :
  m ≫= f = Ok b <-> exists a, m = Ok a /\ f a = Ok b.
Proof. destruct m; simpl; naive_solver. Qed.

(** ** Slices *)

Definition is_byte (b : Z) : Prop := 0 <= b < 256.

Abbreviation bytes := (Forall is_byte).

Definition zlen {A} (l : list A) : Z := Z.of_nat (length l).

(** [l[n:]], [l[a:b]] and [l[i]]. *)
Definition slice_from {A} (n : Z) (l : list A) : res (list A) :=
  if (0 <=? n) && (n <=? zlen l) then Ok (drop (Z.to_nat n) l) else Panic.

Definition slice {A} (a b : Z) (l : list A) : res (list A) :=
  if (0 <=? a) && (a <=? b) && (b <=? zlen l)
  then Ok (take (Z.to_nat (b - a)) (drop (Z.to_nat a) l)) else Panic.

Definition index {A} (i : Z) (l : list A) : res A :=
  if 0 <=? i then match l !! Z.to_nat i with Some x => Ok x | None => Panic end else Panic.

(** binary.BigEndian.Uint16/Uint32 and binary.LittleEndian.Uint32, which read
    the front of the slice and panic when it is too short. *)
Definition be16 (l : list Z) : res Z :=
  match l with a :: b :: _ => Ok (256 * a + b) | _ => Panic end.

Definition be32 (l : list Z) : res Z :=
  match l with
  | a :: b :: c :: d :: _ => Ok (16777216 * a + 65536 * b + 256 * c + d)
  | _ => Panic
  end.

Definition le32 (l : list Z) : res Z := be32 (rev (take 4 l)).

(** binary.BigEndian.PutUint16/PutUint32: the bytes written. *)
Definition put16 (z : Z) : list Z := [z / 256; z mod 256].

Definition put32 (z : Z) : list Z :=
  [z / 16777216; (z / 65536) mod 256; (z / 256) mod 256; z mod 256].

Definition put32le (z : Z) : list Z := rev (put32 z).

Arguments be16 : simpl never.
Arguments be32 : simpl never.
Arguments le32 : simpl never.
Arguments put16 : simpl never.
Arguments put32 : simpl never.
Arguments slice_from : simpl never.
Arguments slice : simpl never.
Arguments index : simpl never.

(** ** Lemmas *)

Lemma zlen_nonneg {A} (l : list A) : 0 <= zlen l.
Proof. unfold zlen. lia. Qed.

Lemma zlen_app {A} (l k : list A) : zlen (l ++ k) = zlen l + zlen k.
Proof. unfold zlen. rewrite length_app. lia. Qed.

Lemma zlen_cons {A} (x : A) l : zlen (x :: l) = 1 + zlen l.
Proof. unfold zlen. simpl. lia. Qed.

Lemma zlen_nil {A} : zlen (@nil A) = 0.
Proof. done. Qed.

Lemma zlen_put16 z : zlen (put16 z) = 2.
Proof. done. Qed.

Lemma zlen_put32 z : zlen (put32 z) = 4.
Proof. done. Qed.

Lemma zlen_replicate {A} n (x : A) : 0 <= n -> zlen (replicate (Z.to_nat n) x) = n.
Proof. intros H. unfold zlen. rewrite length_replicate. lia. Qed.

Lemma put16_bytes z : in_u 16 z -> bytes (put16 z).
Proof. intros H. unfold put16. repeat constructor; go_lia. Qed.

Lemma put32_bytes z : in_u 32 z -> bytes (put32 z).
Proof. intros H. unfold put32. repeat constructor; go_lia. Qed.

Lemma be16_put16 z l : in_u 16 z -> be16 (put16 z ++ l) = Ok z.
Proof. intros H. unfold be16, put16. simpl. f_equal. go_lia. Qed.

Lemma be32_put32 z l : in_u 32 z -> be32 (put32 z ++ l) = Ok z.
Proof. intros H. unfold be32, put32. simpl. f_equal. go_lia. Qed.

Lemma le32_put32le z l : in_u 32 z -> le32 (put32le z ++ l) = Ok z.
Proof.
  intros H. unfold le32. rewrite take_app_length' by done. unfold put32le.
  rewrite rev_involutive. rewrite <- (app_nil_r (put32 z)). by apply be32_put32.
Qed.

Lemma be16_safe l : 2 <= zlen l -> safe (be16 l).
Proof. destruct l as [|a [|b l]]; rewrite ?zlen_cons, ?zlen_nil; intros H; done. Qed.

Lemma be32_safe l : 4 <= zlen l -> safe (be32 l).
Proof. destruct l as [|a [|b [|c [|d l]]]]; rewrite ?zlen_cons, ?zlen_nil; intros H; done. Qed.

Lemma le32_safe l : 4 <= zlen l -> safe (le32 l).
Proof.
  intros H. unfold le32. apply be32_safe. unfold zlen in *.
  rewrite length_rev, length_take. lia.
Qed.

Lemma be16_range l z : bytes l -> be16 l = Ok z -> in_u 16 z.
Proof.
  unfold be16. destruct l as [|a [|b l]]; try done. intros Hl [= <-].
  apply Forall_cons in Hl as [Ha [Hb _]%Forall_cons]. unfold is_byte in *. go_lia.
Qed.

Lemma be32_range l z : bytes l -> be32 l = Ok z -> in_u 32 z.
Proof.
  unfold be32. destruct l as [|a [|b [|c [|d l]]]]; try done. intros Hl [= <-].
  apply Forall_cons in Hl as [Ha [Hb [Hc [Hd _]%Forall_cons]%Forall_cons]%Forall_cons].
  unfold is_byte in *. go_lia.
Qed.

Lemma slice_from_ok {A} n (l : list A) :
  0 <= n <= zlen l -> slice_from n l = Ok (drop (Z.to_nat n) l).
Proof.
  intros H. unfold slice_from.
  replace ((0 <=? n) && (n <=? zlen l)) with true; [done|].
  symmetry. apply andb_true_intro. split; apply Z.leb_le; lia.
Qed.

Lemma slice_from_0 {A} (l : list A) : slice_from 0 l = Ok l.
Proof. rewrite slice_from_ok; [done|]. pose proof (zlen_nonneg l). lia. Qed.

Lemma slice_ok {A} a b (l : list A) :
  0 <= a <= b -> b <= zlen l ->
  slice a b l = Ok (take (Z.to_nat (b - a)) (drop (Z.to_nat a) l)).
Proof.
  intros H H'. unfold slice.
  replace ((0 <=? a) && (a <=? b) && (b <=? zlen l)) with true; [done|].
  symmetry. rewrite !andb_true_iff. split_and!; apply Z.leb_le; lia.
Qed.

Lemma slice_from_app {A} n (h l : list A) : n = zlen h -> slice_from n (h ++ l) = Ok l.
Proof.
  intros ->. rewrite slice_from_ok by (rewrite zlen_app; pose proof (zlen_nonneg h);
    pose proof (zlen_nonneg l); lia).
  unfold zlen. by rewrite Nat2Z.id, drop_app_length.
Qed.

Lemma slice_mid {A} a b (h m t : list A) :
  a = zlen h -> b = zlen h + zlen m -> slice a b (h ++ m ++ t) = Ok m.
Proof.
  intros -> ->. pose proof (zlen_nonneg h). pose proof (zlen_nonneg m). pose proof (zlen_nonneg t).
  rewrite slice_ok by (rewrite ?zlen_app; lia).
  replace (zlen h + zlen m - zlen h) with (zlen m) by lia. unfold zlen.
  by rewrite !Nat2Z.id, drop_app_length, take_app_length.
Qed.

Lemma zlen_drop {A} n (l : list A) : 0 <= n <= zlen l -> zlen (drop (Z.to_nat n) l) = zlen l - n.
Proof. unfold zlen. rewrite length_drop. lia. Qed.

Lemma zlen_slice {A} a b (l m : list A) : slice a b l = Ok m -> zlen m = b - a.
Proof.
  unfold slice. case_match eqn:E; [|done]. go_bool. intros [= <-]. unfold zlen in *.
  rewrite length_take, length_drop. lia.
Qed.

Lemma slice_bytes a b l m : bytes l -> slice a b l = Ok m -> bytes m.
Proof.
  unfold slice. case_match; [|done]. intros Hl [= <-]. by apply Forall_take, Forall_drop.
Qed.

Lemma slice_from_bytes n l m : bytes l -> slice_from n l = Ok m -> bytes m.
Proof. unfold slice_from. case_match; [|done]. intros Hl [= <-]. by apply Forall_drop. Qed.

Lemma index_app {A} i (h : list A) x l : i = zlen h -> index i (h ++ x :: l) = Ok x.
Proof.
  intros ->. unfold index, zlen. replace (0 <=? Z.of_nat (length h)) with true by (symmetry; apply Z.leb_le; lia).
  rewrite Nat2Z.id, lookup_app_r, Nat.sub_diag by lia. done.
Qed.

Lemma index_ok {A} i (l : list A) : 0 <= i < zlen l -> exists x, index i l = Ok x.
Proof.
  intros H. unfold index. replace (0 <=? i) with true by (symmetry; apply Z.leb_le; lia).
  destruct (lookup_lt_is_Some_2 l (Z.to_nat i)) as [x ->]; [unfold zlen in H; lia|by exists x].
Qed.

Lemma index_safe {A} i (l : list A) : 0 <= i < zlen l -> safe (index i l).
Proof. intros H. by destruct (index_ok i l H) as [x ->]. Qed.

#[export] Hint Resolve be16_safe be32_safe le32_safe safe_wrap safe_guard put16_bytes put32_bytes : go.
#[export] Hint Rewrite @zlen_app @zlen_cons @zlen_nil zlen_put16 zlen_put32 : zlen.

(** [zlen_lia]: lengths of concatenations of fields. *)
Ltac zlen_lia := autorewrite with zlen in *; lia.

(** [res_cbn]: runs the error monad without unfolding the reads and writes. *)
Ltac res_cbn := cbn [mbind res_bind mret res_ret fmap res_fmap wrap_err guard_err].
