(* ===== verification/Params.v ===== *)
(** * SCTP parameters (param*.go, paramheader.go, paramtype.go)

    A parameter is a type-length-value record with a header common to all and
    a body per type.  Each Go method is a definition of its own: the encoder of
    a type gives the header it fills before calling [paramHeader.marshal], the
    decoder is [unmarshal]. *)

From S2P Require Import Prelude Serial Bytes.

Local Open Scope Z_scope.

(** ** Types *)

Definition heartbeatInfo : Z := 1.
Definition stateCookie : Z := 7.
Definition outSSNResetReq : Z := 13.
Definition reconfigResp : Z := 16.
Definition ecnCapable : Z := 32768.
Definition zeroChecksumAcceptable : Z := 32769.
Definition random : Z := 32770.
Definition chunkList : Z := 32771.
Definition reqHMACAlgo : Z := 32772.
Definition supportedExt : Z := 32776.
Definition forwardTSNSupp : Z := 49152.

Definition parseParamType (raw : list Z) : res Z :=
  if zlen raw <? 2 then Err ErrParamPacketTooShort else be16 raw.

(** ** Header *)

Record paramHeader := mkParamHeader {
  ph_typ : Z;
  ph_unrecognizedAction : Z;
  ph_len : Z;
  ph_raw : list Z
}.

Definition zeroParamHeader : paramHeader := mkParamHeader 0 0 0 [].

Definition paramHeaderLength : Z := 4.
Definition paramHeaderUnrecognizedActionMask : Z := 192.
Definition paramHeaderUnrecognizedActionStop : Z := 0.
Definition paramHeaderUnrecognizedActionStopAndReport : Z := 64.

Definition paramHeader_marshal (p : paramHeader) : list Z :=
  let paramLengthPlusHeader := paramHeaderLength + zlen (ph_raw p) in
  put16 (ph_typ p) ++ put16 (u16 paramLengthPlusHeader) ++ ph_raw p.

Definition paramHeader_unmarshal (raw : list Z) : res paramHeader :=
  if zlen raw <? paramHeaderLength then Err ErrParamHeaderTooShort
  else
    r2 ← slice_from 2 raw; paramLengthPlusHeader ← be16 r2;
    if paramLengthPlusHeader <? paramHeaderLength then Err ErrParamHeaderSelfReportedLengthShorter
    else if zlen raw <? paramLengthPlusHeader then Err ErrParamHeaderSelfReportedLengthLonger
    else
      r0 ← slice_from 0 raw; typ ← wrap_err ErrParamHeaderParseFailed (parseParamType r0);
      b0 ← index 0 raw; body ← slice paramHeaderLength paramLengthPlusHeader raw;
      mret (mkParamHeader typ (Z.land b0 paramHeaderUnrecognizedActionMask)
              paramLengthPlusHeader body).

(** ** Bodies *)

Inductive param_body :=
  | paramForwardTSNSupported
  | paramSupportedExtensions (ChunkTypes : list Z)
  | paramECNCapable
  | paramRandom (randomData : list Z)
  | paramRequestedHMACAlgorithm (availableAlgorithms : list Z)
  | paramChunkList (chunkTypes : list Z)
  | paramStateCookie (cookie : list Z)
  | paramHeartbeatInfo (heartbeatInformation : list Z)
  | paramOutgoingResetRequest (reconfigRequestSequenceNumber reconfigResponseSequenceNumber
      senderLastTSN : Z) (streamIdentifiers : list Z)
  | paramReconfigResponse (reconfigResponseSequenceNumber result : Z)
  | paramZeroChecksumAcceptable (edmid : Z).

Record param := mkParam { p_hdr : paramHeader; p_body : param_body }.

Definition param_length (p : param) : Z := ph_len (p_hdr p).

(** The header an encoder leaves in the struct. *)
Definition filled (h : paramHeader) (typ : Z) (raw : list Z) : paramHeader :=
  mkParamHeader typ (ph_unrecognizedAction h) (ph_len h) raw.

Definition paramForwardTSNSupported_marshal (h : paramHeader) : paramHeader :=
  filled h forwardTSNSupp [].

Definition paramForwardTSNSupported_unmarshal (raw : list Z) : res param :=
  h ← paramHeader_unmarshal raw; mret (mkParam h paramForwardTSNSupported).

Definition paramSupportedExtensions_marshal (h : paramHeader) (ChunkTypes : list Z) : paramHeader :=
  filled h supportedExt ChunkTypes.

Definition paramSupportedExtensions_unmarshal (raw : list Z) : res param :=
  h ← paramHeader_unmarshal raw; mret (mkParam h (paramSupportedExtensions (ph_raw h))).

Definition paramECNCapable_marshal (h : paramHeader) : paramHeader := filled h ecnCapable [].

Definition paramECNCapable_unmarshal (raw : list Z) : res param :=
  h ← paramHeader_unmarshal raw; mret (mkParam h paramECNCapable).

Definition paramRandom_marshal (h : paramHeader) (randomData : list Z) : paramHeader :=
  filled h random randomData.

Definition paramRandom_unmarshal (raw : list Z) : res param :=
  h ← paramHeader_unmarshal raw; mret (mkParam h (paramRandom (ph_raw h))).

Definition hmacSHA128 : Z := 1.
Definition hmacSHA256 : Z := 3.

Definition paramRequestedHMACAlgorithm_marshal (h : paramHeader) (algs : list Z) : paramHeader :=
  filled h reqHMACAlgo (concat (map put16 algs)).

(** The loop over the algorithms, two bytes at a time. *)
Fixpoint hmacAlgorithms (raw : list Z) : res (list Z) :=
  match raw with
  | [] => Ok []
  | b0 :: b1 :: rest =>
      a ← be16 [b0; b1];
      if (a =? hmacSHA128) || (a =? hmacSHA256) then
        tail ← hmacAlgorithms rest; mret (a :: tail)
      else Err ErrInvalidAlgorithmType
  | [_] => Panic
  end.

Definition paramRequestedHMACAlgorithm_unmarshal (raw : list Z) : res param :=
  h ← paramHeader_unmarshal raw;
  if zlen (ph_raw h) mod 2 =? 1 then Err ErrInvalidChunkLength
  else algs ← hmacAlgorithms (ph_raw h); mret (mkParam h (paramRequestedHMACAlgorithm algs)).

Definition paramChunkList_marshal (h : paramHeader) (chunkTypes : list Z) : paramHeader :=
  filled h chunkList chunkTypes.

Definition paramChunkList_unmarshal (raw : list Z) : res param :=
  h ← paramHeader_unmarshal raw; mret (mkParam h (paramChunkList (ph_raw h))).

Definition paramStateCookie_marshal (h : paramHeader) (cookie : list Z) : paramHeader :=
  filled h stateCookie cookie.

Definition paramStateCookie_unmarshal (raw : list Z) : res param :=
  h ← paramHeader_unmarshal raw; mret (mkParam h (paramStateCookie (ph_raw h))).

Definition paramHeartbeatInfo_marshal (h : paramHeader) (info : list Z) : paramHeader :=
  filled h heartbeatInfo info.

Definition paramHeartbeatInfo_unmarshal (raw : list Z) : res param :=
  h ← paramHeader_unmarshal raw; mret (mkParam h (paramHeartbeatInfo (ph_raw h))).

Definition paramOutgoingResetRequestStreamIdentifiersOffset : Z := 12.

Definition paramOutgoingResetRequest_marshal (h : paramHeader) (req resp last : Z)
    (streamIdentifiers : list Z) : paramHeader :=
  filled h outSSNResetReq
    (put32 req ++ put32 resp ++ put32 last ++ concat (map put16 streamIdentifiers)).

(** [n] sixteen-bit values from the front of the slice. *)
Fixpoint be16s (n : nat) (raw : list Z) : res (list Z) :=
  match n with
  | O => Ok []
  | S n' =>
      x ← be16 raw; rest ← slice_from 2 raw; xs ← be16s n' rest; mret (x :: xs)
  end.

Definition paramOutgoingResetRequest_unmarshal (raw : list Z) : res param :=
  h ← paramHeader_unmarshal raw;
  if zlen (ph_raw h) <? paramOutgoingResetRequestStreamIdentifiersOffset
  then Err ErrSSNResetRequestParamTooShort
  else
    req ← be32 (ph_raw h);
    r4 ← slice_from 4 (ph_raw h); resp ← be32 r4;
    r8 ← slice_from 8 (ph_raw h); last ← be32 r8;
    let lim := (zlen (ph_raw h) - paramOutgoingResetRequestStreamIdentifiersOffset) / 2 in
    r12 ← slice_from paramOutgoingResetRequestStreamIdentifiersOffset (ph_raw h);
    sids ← be16s (Z.to_nat lim) r12;
    mret (mkParam h (paramOutgoingResetRequest req resp last sids)).

Definition paramReconfigResponse_marshal (h : paramHeader) (seq result : Z) : paramHeader :=
  filled h reconfigResp (put32 seq ++ put32 result).

Definition paramReconfigResponse_unmarshal (raw : list Z) : res param :=
  h ← paramHeader_unmarshal raw;
  if zlen (ph_raw h) <? 8 then Err ErrReconfigRespParamTooShort
  else
    seq ← be32 (ph_raw h);
    r4 ← slice_from 4 (ph_raw h); result ← be32 r4;
    mret (mkParam h (paramReconfigResponse seq result)).

Definition paramZeroChecksumAcceptable_marshal (h : paramHeader) (edmid : Z) : paramHeader :=
  filled h zeroChecksumAcceptable (put32 edmid).

Definition paramZeroChecksumAcceptable_unmarshal (raw : list Z) : res param :=
  h ← paramHeader_unmarshal raw;
  if zlen (ph_raw h) <? 4 then Err ErrZeroChecksumParamTooShort
  else edmid ← be32 (ph_raw h); mret (mkParam h (paramZeroChecksumAcceptable edmid)).

(** ** The interface *)

(** The header [p.marshal()] fills, and the bytes it returns. *)
Definition param_filled (p : param) : paramHeader :=
  let h := p_hdr p in
  match p_body p with
  | paramForwardTSNSupported => paramForwardTSNSupported_marshal h
  | paramSupportedExtensions cts => paramSupportedExtensions_marshal h cts
  | paramECNCapable => paramECNCapable_marshal h
  | paramRandom d => paramRandom_marshal h d
  | paramRequestedHMACAlgorithm algs => paramRequestedHMACAlgorithm_marshal h algs
  | paramChunkList cts => paramChunkList_marshal h cts
  | paramStateCookie c => paramStateCookie_marshal h c
  | paramHeartbeatInfo i => paramHeartbeatInfo_marshal h i
  | paramOutgoingResetRequest req resp last sids =>
      paramOutgoingResetRequest_marshal h req resp last sids
  | paramReconfigResponse seq result => paramReconfigResponse_marshal h seq result
  | paramZeroChecksumAcceptable edmid => paramZeroChecksumAcceptable_marshal h edmid
  end.

Definition param_marshal (p : param) : list Z := paramHeader_marshal (param_filled p).

Definition buildParam (typeParam : Z) (rawParam : list Z) : res param :=
  if typeParam =? forwardTSNSupp then paramForwardTSNSupported_unmarshal rawParam
  else if typeParam =? supportedExt then paramSupportedExtensions_unmarshal rawParam
  else if typeParam =? ecnCapable then paramECNCapable_unmarshal rawParam
  else if typeParam =? random then paramRandom_unmarshal rawParam
  else if typeParam =? reqHMACAlgo then paramRequestedHMACAlgorithm_unmarshal rawParam
  else if typeParam =? chunkList then paramChunkList_unmarshal rawParam
  else if typeParam =? stateCookie then paramStateCookie_unmarshal rawParam
  else if typeParam =? heartbeatInfo then paramHeartbeatInfo_unmarshal rawParam
  else if typeParam =? outSSNResetReq then paramOutgoingResetRequest_unmarshal rawParam
  else if typeParam =? reconfigResp then paramReconfigResponse_unmarshal rawParam
  else if typeParam =? zeroChecksumAcceptable then paramZeroChecksumAcceptable_unmarshal rawParam
  else Err ErrParamTypeUnhandled.

(** ** Decoding never panics *)

Lemma parseParamType_safe raw : safe (parseParamType raw).
Proof. unfold parseParamType. case_match; [done|]. go_bool. by apply be16_safe. Qed.

Lemma paramHeader_unmarshal_safe raw : safe (paramHeader_unmarshal raw).
Proof.
  unfold paramHeader_unmarshal, paramHeaderLength. case_match eqn:E; [done|]. go_bool.
  rewrite !slice_from_ok by lia. simpl.
  apply safe_bind; [apply be16_safe; rewrite zlen_drop; lia|]. intros n Hn.
  case_match eqn:E1; [done|]. case_match eqn:E2; [done|]. go_bool.
  apply safe_bind; [apply safe_wrap, parseParamType_safe|].
  intros typ _. apply safe_bind; [apply index_safe; lia|]. intros b0 _.
  rewrite slice_ok by lia. done.
Qed.

(** What a decoded header says about the bytes. *)
Lemma paramHeader_unmarshal_ok raw h :
  paramHeader_unmarshal raw = Ok h ->
  paramHeaderLength <= ph_len h <= zlen raw /\ zlen (ph_raw h) = ph_len h - paramHeaderLength
  /\ be16 raw = Ok (ph_typ h).
Proof.
  unfold paramHeader_unmarshal, paramHeaderLength. case_match eqn:E; [done|].
  intros (r2 & _ & (n & Hn & H)%bind_ok)%bind_ok.
  case_match eqn:E1; [done|]. case_match eqn:E2; [done|].
  apply bind_ok in H as (r0 & Hr0 & (typ & Ht & (b0 & _ & (body & Hb & [= <-])%bind_ok)%bind_ok)%bind_ok).
  go_bool. rewrite slice_from_ok in Hr0 by lia. injection Hr0 as <-.
  apply wrap_ok in Ht. unfold parseParamType in Ht. simpl in *. case_match; [done|].
  apply zlen_slice in Hb. split_and!; [lia|lia|lia|done].
Qed.

Lemma be16s_safe n raw : 2 * Z.of_nat n <= zlen raw -> safe (be16s n raw).
Proof.
  revert raw. induction n as [|n IH]; intros raw H; [done|]. simpl.
  apply safe_bind; [apply be16_safe; lia|]. intros x _.
  rewrite slice_from_ok by lia. simpl. apply safe_bind; [|done].
  apply IH. rewrite zlen_drop; lia.
Qed.

Lemma hmacAlgorithms_safe raw : zlen raw mod 2 <> 1 -> safe (hmacAlgorithms raw).
Proof.
  remember (length raw) as n eqn:Hn. revert raw Hn.
  induction n as [n IH] using lt_wf_ind. intros raw Hn Hm.
  destruct raw as [|b0 [|b1 rest]]; [done|done|]. simpl in *.
  case_match; [|done]. apply safe_bind; [|done].
  apply (IH (length rest)); [lia|done|]. unfold zlen in *. simpl in Hm.
  intros Hr. apply Hm. replace (Z.of_nat (S (S (length rest)))) with (Z.of_nat (length rest) + 1 * 2) by lia.
  by rewrite Z_mod_plus_full.
Qed.

Ltac param_hdr := apply safe_bind; [apply paramHeader_unmarshal_safe|intros h Hh]; try done.

Lemma paramOutgoingResetRequest_safe raw : safe (paramOutgoingResetRequest_unmarshal raw).
Proof.
  unfold paramOutgoingResetRequest_unmarshal, paramOutgoingResetRequestStreamIdentifiersOffset.
  param_hdr. case_match eqn:E; [done|]. go_bool. rewrite !slice_from_ok by lia. simpl.
  apply safe_bind; [apply be32_safe; lia|intros req _].
  apply safe_bind; [apply be32_safe; rewrite zlen_drop; lia|intros resp _].
  apply safe_bind; [apply be32_safe; rewrite zlen_drop; lia|intros last _].
  apply safe_bind; [|done]. apply be16s_safe. rewrite zlen_drop by lia.
  rewrite Z2Nat.id by (apply Z.div_pos; lia). Z.to_euclidean_division_equations. lia.
Qed.

(** A decoded parameter keeps the length and the type of the header. *)
Lemma buildParam_hdr t raw p : buildParam t raw = Ok p -> paramHeader_unmarshal raw = Ok (p_hdr p).
Proof.
  unfold buildParam. intros H.
  repeat (case_match; [unfold paramForwardTSNSupported_unmarshal, paramSupportedExtensions_unmarshal,
    paramECNCapable_unmarshal, paramRandom_unmarshal, paramRequestedHMACAlgorithm_unmarshal,
    paramChunkList_unmarshal, paramStateCookie_unmarshal, paramHeartbeatInfo_unmarshal,
    paramOutgoingResetRequest_unmarshal, paramReconfigResponse_unmarshal,
    paramZeroChecksumAcceptable_unmarshal in H; apply bind_ok in H as (h & Hh & H);
    repeat case_match; try done; repeat (apply bind_ok in H as (? & _ & H)); by injection H as <-|]).
  done.
Qed.

Lemma buildParam_safe t raw : safe (buildParam t raw).
Proof.
  unfold buildParam. repeat (case_match; [shelve|]). done.
  Unshelve.
  all: unfold paramForwardTSNSupported_unmarshal, paramSupportedExtensions_unmarshal,
    paramECNCapable_unmarshal, paramRandom_unmarshal, paramRequestedHMACAlgorithm_unmarshal,
    paramChunkList_unmarshal, paramStateCookie_unmarshal, paramHeartbeatInfo_unmarshal,
    paramReconfigResponse_unmarshal, paramZeroChecksumAcceptable_unmarshal;
    first [apply paramOutgoingResetRequest_safe|param_hdr].
  - case_match eqn:E'; [done|]. apply safe_bind; [|done]. apply hmacAlgorithms_safe. by go_bool.
  - case_match eqn:E'; [done|]. go_bool.
    apply safe_bind; [apply be32_safe; lia|intros seq _]. rewrite slice_from_ok by lia. simpl.
    apply safe_bind; [apply be32_safe; rewrite zlen_drop; lia|done].
  - case_match eqn:E'; [done|]. go_bool. apply safe_bind; [apply be32_safe; lia|done].
Qed.

Lemma buildParam_length t raw p :
  buildParam t raw = Ok p -> paramHeaderLength <= param_length p <= zlen raw.
Proof. intros H. apply buildParam_hdr, paramHeader_unmarshal_ok in H. apply H. Qed.

(** ** Round trip *)

Lemma paramHeader_roundtrip h tail :
  in_u 16 (ph_typ h) -> paramHeaderLength + zlen (ph_raw h) < 2 ^ 16 ->
  paramHeader_unmarshal (paramHeader_marshal h ++ tail) =
  Ok (mkParamHeader (ph_typ h) (Z.land (ph_typ h / 256) paramHeaderUnrecognizedActionMask)
        (paramHeaderLength + zlen (ph_raw h)) (ph_raw h)).
Proof.
  intros Ht Hl. unfold paramHeader_unmarshal, paramHeader_marshal, paramHeaderLength in *.
  set (raw := ph_raw h) in *. pose proof (zlen_nonneg raw) as Hr. pose proof (zlen_nonneg tail).
  rewrite u16_small by (unfold in_u; lia). rewrite <- !app_assoc.
  assert (E1 : (zlen (put16 (ph_typ h) ++ put16 (4 + zlen raw) ++ raw ++ tail) <? 4) = false)
    by (apply Z.ltb_ge; zlen_lia).
  rewrite E1. rewrite (slice_from_app 2) by done. res_cbn.
  rewrite be16_put16 by (unfold in_u; lia). res_cbn.
  assert (E2 : (4 + zlen raw <? 4) = false) by (apply Z.ltb_ge; lia). rewrite E2.
  assert (E3 : (zlen (put16 (ph_typ h) ++ put16 (4 + zlen raw) ++ raw ++ tail) <? 4 + zlen raw) = false)
    by (apply Z.ltb_ge; zlen_lia).
  rewrite E3. rewrite slice_from_0. res_cbn. unfold parseParamType.
  assert (E4 : (zlen (put16 (ph_typ h) ++ put16 (4 + zlen raw) ++ raw ++ tail) <? 2) = false)
    by (apply Z.ltb_ge; zlen_lia).
  rewrite E4, be16_put16 by done. res_cbn.
  rewrite (app_assoc (put16 (ph_typ h))), (slice_mid 4 (4 + zlen raw)); [done|done|].
  rewrite zlen_app, !zlen_put16. lia.
Qed.

(** What the encoders need of a body: values within their Go types, known
    algorithms, and a length that fits the 16-bit length field. *)
Definition body_fields_ok (b : param_body) : Prop :=
  match b with
  | paramForwardTSNSupported | paramECNCapable => True
  | paramSupportedExtensions l | paramRandom l | paramChunkList l | paramStateCookie l
  | paramHeartbeatInfo l => bytes l
  | paramRequestedHMACAlgorithm algs => Forall (fun a => a = hmacSHA128 \/ a = hmacSHA256) algs
  | paramOutgoingResetRequest req resp last sids =>
      in_u 32 req /\ in_u 32 resp /\ in_u 32 last /\ Forall (in_u 16) sids
  | paramReconfigResponse seq result => in_u 32 seq /\ in_u 32 result
  | paramZeroChecksumAcceptable edmid => in_u 32 edmid
  end.

Definition param_ok (p : param) : Prop :=
  body_fields_ok (p_body p) /\ zlen (param_marshal p) < 2 ^ 16.

Lemma zlen_paramHeader_marshal h : zlen (paramHeader_marshal h) = 4 + zlen (ph_raw h).
Proof. unfold paramHeader_marshal. zlen_lia. Qed.

Lemma zlen_put16s l : zlen (concat (map put16 l)) = 2 * zlen l.
Proof. induction l as [|x l IH]; [done|]. simpl. autorewrite with zlen. lia. Qed.

Lemma be16s_put16s l tail :
  Forall (in_u 16) l -> be16s (length l) (concat (map put16 l) ++ tail) = Ok l.
Proof.
  induction 1 as [|x l Hx Hl IH]; [done|]. cbn [be16s map concat length]. rewrite <- app_assoc.
  rewrite be16_put16 by done. res_cbn. rewrite (slice_from_app 2) by done. res_cbn.
  by rewrite IH.
Qed.

Lemma hmac_put16s l :
  Forall (fun a => a = hmacSHA128 \/ a = hmacSHA256) l ->
  hmacAlgorithms (concat (map put16 l)) = Ok l.
Proof.
  induction 1 as [|x l Hx Hl IH]; [done|].
  destruct Hx as [-> | ->]; cbn [map concat]; unfold put16 at 1; simpl app; simpl hmacAlgorithms;
    rewrite IH; done.
Qed.

Lemma param_filled_typ p : in_u 16 (ph_typ (param_filled p)).
Proof. unfold param_filled. destruct (p_body p); simpl; unfold in_u; vm_compute; split; congruence. Qed.

(** [build_param] picks the branch of [buildParam] for a constant type. *)
Ltac build_param :=
  unfold buildParam;
  cbn [Z.eqb Pos.eqb reqHMACAlgo outSSNResetReq reconfigResp zeroChecksumAcceptable forwardTSNSupp
       supportedExt ecnCapable random chunkList stateCookie heartbeatInfo].

(** Decoding an encoded parameter gives its body back, and the length it
    occupies, whatever follows it. *)
Lemma param_roundtrip p tail :
  param_ok p -> exists p',
    buildParam (ph_typ (param_filled p)) (param_marshal p ++ tail) = Ok p'
    /\ p_body p' = p_body p /\ param_length p' = zlen (param_marshal p).
Proof.
  intros [Hf Hl]. unfold param_marshal in *. rewrite zlen_paramHeader_marshal in *.
  pose proof (param_filled_typ p) as Ht.
  pose proof (paramHeader_roundtrip (param_filled p) tail Ht Hl) as Hh.
  set (raw := paramHeader_marshal (param_filled p) ++ tail) in *. clearbody raw.
  destruct p as [h b].
  match type of Hh with _ = Ok ?h' => exists (mkParam h' b); split; [|done] end.
  unfold param_filled in *. cbn [p_body p_hdr] in *.
  destruct b as [| cts | | d | algs | cts | c | i | req resp last sids | seq result | edmid];
    unfold paramRequestedHMACAlgorithm_marshal, paramOutgoingResetRequest_marshal,
      paramReconfigResponse_marshal, paramZeroChecksumAcceptable_marshal, filled in *;
    cbn [ph_typ ph_raw body_fields_ok] in *;
    try (
      unfold buildParam, paramForwardTSNSupported_unmarshal, paramSupportedExtensions_unmarshal,
        paramECNCapable_unmarshal, paramRandom_unmarshal, paramChunkList_unmarshal,
        paramStateCookie_unmarshal, paramHeartbeatInfo_unmarshal; simpl; by rewrite Hh).
  - build_param.
    unfold paramRequestedHMACAlgorithm_unmarshal. rewrite Hh. res_cbn. cbn [ph_raw filled].
    rewrite zlen_put16s. rewrite (Z.mul_comm 2), Z_mod_mult. simpl. by rewrite hmac_put16s.
  - destruct Hf as (H1 & H2 & H3 & H4).
    build_param.
    unfold paramOutgoingResetRequest_unmarshal, paramOutgoingResetRequestStreamIdentifiersOffset.
    rewrite Hh. res_cbn. cbn [ph_raw filled]. autorewrite with zlen. rewrite zlen_put16s.
    replace (4 + (4 + (4 + 2 * zlen sids)) <? 12) with false
      by (symmetry; apply Z.ltb_ge; pose proof (zlen_nonneg sids); lia).
    rewrite be32_put32 by done. res_cbn. rewrite (slice_from_app 4) by done. res_cbn.
    rewrite be32_put32 by done. res_cbn. rewrite (app_assoc (put32 req)), (slice_from_app 8) by done. res_cbn.
    rewrite be32_put32 by done. res_cbn. rewrite app_assoc, (slice_from_app 12) by done. res_cbn.
    replace (Z.to_nat ((4 + (4 + (4 + 2 * zlen sids)) - 12) / 2)) with (length sids).
    2: { replace (4 + (4 + (4 + 2 * zlen sids)) - 12) with (zlen sids * 2) by lia.
         rewrite Z_div_mult by lia. unfold zlen. lia. }
    rewrite <- (app_nil_r (concat _)). by rewrite be16s_put16s.
  - destruct Hf as (H1 & H2).
    build_param.
    unfold paramReconfigResponse_unmarshal. rewrite Hh. res_cbn. cbn [ph_raw filled].
    rewrite be32_put32 by done. res_cbn. rewrite (slice_from_app 4) by done. res_cbn.
    rewrite <- (app_nil_r (put32 result)). by rewrite be32_put32.
  - build_param.
    unfold paramZeroChecksumAcceptable_unmarshal. rewrite Hh. res_cbn. cbn [ph_raw filled].
    rewrite <- (app_nil_r (put32 edmid)) at 2. by rewrite be32_put32.
Qed.
