(* ===== verification/Causes.v ===== *)
(** * SCTP error causes (error_cause*.go)

    The causes carried by ERROR and ABORT chunks: a header with code and
    length, and a body per code. *)

From S2P Require Import Prelude Bytes.

Local Open Scope Z_scope.

Definition unrecognizedChunkType : Z := 6.
Definition invalidMandatoryParameter : Z := 7.
Definition userInitiatedAbort : Z := 12.
Definition protocolViolation : Z := 13.

Definition errorCauseHeaderLength : Z := 4.

Record errorCauseHeader := mkCauseHeader {
  ec_code : Z;
  ec_len : Z;
  ec_raw : list Z
}.

(** The length is computed in 16 bits and the output buffer has that length:
    a body that makes it wrap below the header length panics on the first
    write, and one that makes it wrap above loses its tail. *)
Definition errorCauseHeader_marshal (e : errorCauseHeader) : res (list Z) :=
  let len := u16 (u16 (zlen (ec_raw e)) + u16 errorCauseHeaderLength) in
  if len <? errorCauseHeaderLength then Panic
  else Ok (put16 (ec_code e) ++ put16 len ++ take (Z.to_nat (len - errorCauseHeaderLength)) (ec_raw e)).

Definition errorCauseHeader_unmarshal (raw : list Z) : res errorCauseHeader :=
  code ← be16 raw;
  r2 ← slice_from 2 raw; len ← be16 r2;
  if (len <? errorCauseHeaderLength) || (zlen raw <? len) then Err ErrInvalidSCTPChunk
  else
    let valueLength := u16 (len - errorCauseHeaderLength) in
    body ← slice errorCauseHeaderLength (u16 (errorCauseHeaderLength + valueLength)) raw;
    mret (mkCauseHeader code len body).

Inductive cause_body :=
  | errorCauseInvalidMandatoryParameter
  | errorCauseUnrecognizedChunkType (unrecognizedChunk : list Z)
  | errorCauseProtocolViolation (additionalInformation : list Z)
  | errorCauseUserInitiatedAbort (upperLayerAbortReason : list Z).

Record errorCause := mkCause { c_hdr : errorCauseHeader; c_body : cause_body }.

(** The header an encoder fills before [errorCauseHeader.marshal]. *)
Definition errorCauseInvalidMandatoryParameter_marshal (h : errorCauseHeader) : errorCauseHeader := h.

Definition errorCauseUnrecognizedChunkType_marshal (h : errorCauseHeader) (chunk : list Z) :=
  mkCauseHeader unrecognizedChunkType (ec_len h) chunk.

Definition errorCauseProtocolViolation_marshal (h : errorCauseHeader) (info : list Z) :=
  mkCauseHeader (ec_code h) (ec_len h) info.

Definition errorCauseUserInitiatedAbort_marshal (h : errorCauseHeader) (reason : list Z) :=
  mkCauseHeader userInitiatedAbort (ec_len h) reason.

Definition errorCauseInvalidMandatoryParameter_unmarshal (raw : list Z) : res errorCause :=
  h ← errorCauseHeader_unmarshal raw; mret (mkCause h errorCauseInvalidMandatoryParameter).

Definition errorCauseUnrecognizedChunkType_unmarshal (raw : list Z) : res errorCause :=
  h ← errorCauseHeader_unmarshal raw; mret (mkCause h (errorCauseUnrecognizedChunkType (ec_raw h))).

Definition errorCauseProtocolViolation_unmarshal (raw : list Z) : res errorCause :=
  h ← wrap_err ErrProtocolViolationUnmarshal (errorCauseHeader_unmarshal raw);
  mret (mkCause h (errorCauseProtocolViolation (ec_raw h))).

Definition errorCauseUserInitiatedAbort_unmarshal (raw : list Z) : res errorCause :=
  h ← errorCauseHeader_unmarshal raw; mret (mkCause h (errorCauseUserInitiatedAbort (ec_raw h))).

Definition cause_filled (c : errorCause) : errorCauseHeader :=
  match c_body c with
  | errorCauseInvalidMandatoryParameter => errorCauseInvalidMandatoryParameter_marshal (c_hdr c)
  | errorCauseUnrecognizedChunkType ch => errorCauseUnrecognizedChunkType_marshal (c_hdr c) ch
  | errorCauseProtocolViolation info => errorCauseProtocolViolation_marshal (c_hdr c) info
  | errorCauseUserInitiatedAbort r => errorCauseUserInitiatedAbort_marshal (c_hdr c) r
  end.

Definition cause_marshal (c : errorCause) : res (list Z) := errorCauseHeader_marshal (cause_filled c).

Definition cause_length (c : errorCause) : Z := ec_len (c_hdr c).

Definition buildErrorCause (raw : list Z) : res errorCause :=
  c ← be16 raw;
  if c =? invalidMandatoryParameter then errorCauseInvalidMandatoryParameter_unmarshal raw
  else if c =? unrecognizedChunkType then errorCauseUnrecognizedChunkType_unmarshal raw
  else if c =? protocolViolation then errorCauseProtocolViolation_unmarshal raw
  else if c =? userInitiatedAbort then errorCauseUserInitiatedAbort_unmarshal raw
  else Err ErrBuildErrorCaseHandle.

(** ** Decoding never panics on a full header, and makes progress *)

Lemma errorCauseHeader_unmarshal_safe raw :
  bytes raw -> errorCauseHeaderLength <= zlen raw -> safe (errorCauseHeader_unmarshal raw).
Proof.
  unfold errorCauseHeader_unmarshal, errorCauseHeaderLength. intros Hb H.
  apply safe_bind; [apply be16_safe; lia|intros code _].
  rewrite slice_from_ok by lia. simpl.
  apply safe_bind; [apply be16_safe; rewrite zlen_drop; lia|intros len Hlen].
  apply be16_range in Hlen; [|by apply Forall_drop].
  case_match eqn:E; [done|]. go_bool. unfold in_u in Hlen.
  rewrite (u16_small (len - 4)) by (unfold in_u; lia).
  rewrite u16_small by (unfold in_u; lia). rewrite slice_ok by lia. done.
Qed.

Lemma errorCauseHeader_unmarshal_ok raw h :
  errorCauseHeader_unmarshal raw = Ok h -> errorCauseHeaderLength <= ec_len h <= zlen raw.
Proof.
  unfold errorCauseHeader_unmarshal.
  intros (code & _ & (r2 & _ & (len & _ & H)%bind_ok)%bind_ok)%bind_ok.
  case_match eqn:E; [done|]. apply bind_ok in H as (body & _ & [= <-]). go_bool. simpl. lia.
Qed.

Lemma buildErrorCause_safe raw :
  bytes raw -> errorCauseHeaderLength <= zlen raw -> safe (buildErrorCause raw).
Proof.
  intros Hb H. pose proof (errorCauseHeader_unmarshal_safe raw Hb H) as Hs.
  unfold buildErrorCause, errorCauseInvalidMandatoryParameter_unmarshal,
    errorCauseUnrecognizedChunkType_unmarshal, errorCauseProtocolViolation_unmarshal,
    errorCauseUserInitiatedAbort_unmarshal, errorCauseHeaderLength in *.
  apply safe_bind; [apply be16_safe; lia|intros c _].
  repeat case_match; try done; (apply safe_bind; [|done]); by try apply safe_wrap.
Qed.

Lemma buildErrorCause_length raw c :
  buildErrorCause raw = Ok c -> errorCauseHeaderLength <= cause_length c <= zlen raw.
Proof.
  intros (n & _ & H)%bind_ok. unfold cause_length.
  assert (Hh : errorCauseHeader_unmarshal raw = Ok (c_hdr c)).
  { repeat case_match; try done; apply bind_ok in H as (h & Hh & [= <-]); simpl; try done.
    by apply wrap_ok in Hh. }
  by apply errorCauseHeader_unmarshal_ok.
Qed.

(** ** Round trip *)

Definition cause_code (b : cause_body) : Z :=
  match b with
  | errorCauseInvalidMandatoryParameter => invalidMandatoryParameter
  | errorCauseUnrecognizedChunkType _ => unrecognizedChunkType
  | errorCauseProtocolViolation _ => protocolViolation
  | errorCauseUserInitiatedAbort _ => userInitiatedAbort
  end.

(** A cause as its code and value. *)
Definition cause_content (c : errorCause) : Z * list Z :=
  (ec_code (cause_filled c), ec_raw (cause_filled c)).

Definition cause_ok (c : errorCause) : Prop :=
  ec_code (cause_filled c) = cause_code (c_body c)
  /\ errorCauseHeaderLength + zlen (ec_raw (cause_filled c)) < 2 ^ 16.

Definition cause_bytes (c : errorCause) : list Z :=
  let h := cause_filled c in
  put16 (ec_code h) ++ put16 (errorCauseHeaderLength + zlen (ec_raw h)) ++ ec_raw h.

Lemma cause_marshal_ok c : cause_ok c -> cause_marshal c = Ok (cause_bytes c).
Proof.
  intros [_ Hl]. unfold cause_marshal, cause_bytes, errorCauseHeader_marshal, errorCauseHeaderLength in *.
  set (raw := ec_raw (cause_filled c)) in *. pose proof (zlen_nonneg raw).
  rewrite (u16_small (zlen raw)), (u16_small 4), u16_small by (unfold in_u; lia).
  rewrite (Z.add_comm (zlen raw)).
  replace (4 + zlen raw <? 4) with false by (symmetry; apply Z.ltb_ge; lia).
  do 3 f_equal. replace (4 + zlen raw - 4) with (zlen raw) by lia. unfold zlen.
  by rewrite Nat2Z.id, take_ge.
Qed.

Lemma zlen_cause_bytes c : zlen (cause_bytes c) = 4 + zlen (ec_raw (cause_filled c)).
Proof. unfold cause_bytes. zlen_lia. Qed.

Lemma cause_roundtrip c tail :
  cause_ok c -> exists c',
    buildErrorCause (cause_bytes c ++ tail) = Ok c'
    /\ c_body c' = c_body c /\ cause_content c' = cause_content c /\ cause_length c' = zlen (cause_bytes c).
Proof.
  intros [Hc Hl].
  set (h := mkCauseHeader (ec_code (cause_filled c)) (4 + zlen (ec_raw (cause_filled c)))
              (ec_raw (cause_filled c))).
  assert (Hcode : in_u 16 (ec_code (cause_filled c))).
  { rewrite Hc. destruct (c_body c); unfold in_u; vm_compute; split; congruence. }
  assert (Hh : errorCauseHeader_unmarshal (cause_bytes c ++ tail) = Ok h).
  { unfold errorCauseHeader_unmarshal, cause_bytes, errorCauseHeaderLength in *. subst h.
    set (raw := ec_raw (cause_filled c)) in *. pose proof (zlen_nonneg raw). pose proof (zlen_nonneg tail).
    rewrite <- !app_assoc. rewrite be16_put16 by done. res_cbn.
    rewrite (slice_from_app 2) by done. res_cbn. rewrite be16_put16 by (unfold in_u; lia). res_cbn.
    replace ((4 + zlen raw <? 4) || (zlen (put16 (ec_code (cause_filled c)) ++ put16 (4 + zlen raw) ++ raw ++ tail) <? 4 + zlen raw))
      with false by (symmetry; apply orb_false_intro; apply Z.ltb_ge; zlen_lia).
    rewrite (u16_small (4 + zlen raw - 4)), u16_small by (unfold in_u; lia).
    rewrite (app_assoc (put16 _)), (slice_mid 4); [done|done|zlen_lia]. }
  assert (Hbe : be16 (cause_bytes c ++ tail) = Ok (cause_code (c_body c))).
  { unfold cause_bytes. rewrite <- app_assoc, be16_put16 by done. by rewrite Hc. }
  rewrite zlen_cause_bytes. unfold buildErrorCause. rewrite Hbe. res_cbn.
  unfold errorCauseInvalidMandatoryParameter_unmarshal, errorCauseUnrecognizedChunkType_unmarshal,
    errorCauseProtocolViolation_unmarshal, errorCauseUserInitiatedAbort_unmarshal.
  rewrite Hh. res_cbn. unfold cause_content, cause_filled in *.
  destruct (c_body c); eexists; (split; [reflexivity|]); simpl in *; split_and!; try done; by rewrite Hc.
Qed.
