(* ===== verification/Chunks.v ===== *)
(** * SCTP chunks (chunk*.go, chunkheader.go, chunktype.go)

    A chunk is the header common to all and a body per type.  For each Go type
    there is a decoder [X_unmarshal], from the bytes that start at the chunk to
    the end of the packet, and an encoder, given as the header it fills before
    it calls [chunkHeader.marshal]. *)

From S2P Require Import Prelude Serial Bytes Params Causes.

Local Open Scope Z_scope.

(** ** Chunk types *)

Definition ctPayloadData : Z := 0.
Definition ctInit : Z := 1.
Definition ctInitAck : Z := 2.
Definition ctSack : Z := 3.
Definition ctHeartbeat : Z := 4.
Definition ctHeartbeatAck : Z := 5.
Definition ctAbort : Z := 6.
Definition ctShutdown : Z := 7.
Definition ctShutdownAck : Z := 8.
Definition ctError : Z := 9.
Definition ctCookieEcho : Z := 10.
Definition ctCookieAck : Z := 11.
Definition ctShutdownComplete : Z := 14.
Definition ctIData : Z := 64.
Definition ctReconfig : Z := 130.
Definition ctForwardTSN : Z := 192.
Definition ctIForwardTSN : Z := 194.

(** ** Header *)

Record chunkHeader := mkChunkHeader {
  ch_typ : Z;
  ch_flags : Z;
  ch_raw : list Z
}.

Definition chunkHeaderSize : Z := 4.

(** [for i := lengthAfterValue; i > 0; i-- { ... }]: the padding bytes. *)
Fixpoint check_padding (i : nat) (start : Z) (raw : list Z) : res unit :=
  match i with
  | O => Ok tt
  | S i' =>
      b ← index (start + Z.of_nat i') raw;
      if b =? 0 then check_padding i' start raw else Err ErrChunkHeaderPaddingNonZero
  end.

Definition chunkHeader_unmarshal (raw : list Z) : res chunkHeader :=
  if zlen raw <? chunkHeaderSize then Err ErrChunkHeaderTooSmall
  else
    typ ← index 0 raw; flags ← index 1 raw;
    r2 ← slice_from 2 raw; length ← be16 r2;
    let valueLength := u16 (length - chunkHeaderSize) in
    let lengthAfterValue := zlen raw - (chunkHeaderSize + valueLength) in
    if lengthAfterValue <? 0 then Err ErrChunkHeaderNotEnoughSpace
    else
      _ ← (if lengthAfterValue <? 4
           then check_padding (Z.to_nat lengthAfterValue) (chunkHeaderSize + valueLength) raw
           else Ok tt);
      body ← slice chunkHeaderSize (chunkHeaderSize + valueLength) raw;
      mret (mkChunkHeader typ flags body).

Definition chunkHeader_marshal (c : chunkHeader) : list Z :=
  [ch_typ c; ch_flags c] ++ put16 (u16 (zlen (ch_raw c) + chunkHeaderSize)) ++ ch_raw c.

Definition valueLength (c : chunkHeader) : Z := zlen (ch_raw c).

(** ** Bodies *)

Record chunkInitCommon := mkInitCommon {
  initiateTag : Z;
  advertisedReceiverWindowCredit : Z;
  numOutboundStreams : Z;
  numInboundStreams : Z;
  initialTSN : Z;
  params : list param;
  unrecognizedParams : list paramHeader
}.

(** The wire fields of [chunkPayloadData]. *)
Record payloadData := mkPayload {
  unordered : bool;
  beginningFragment : bool;
  endingFragment : bool;
  immediateSack : bool;
  tsn : Z;
  streamIdentifier : Z;
  streamSequenceNumber : Z;
  messageIdentifier : Z;
  fragmentSequenceNumber : Z;
  payloadType : Z;
  userData : list Z;
  iData : bool
}.

Record gapAckBlock := mkGap { gap_start : Z; gap_end : Z }.

Record chunkForwardTSNStream := mkFwdStream { fs_identifier : Z; fs_sequence : Z }.

Record chunkIForwardTSNStream := mkIFwdStream {
  is_identifier : Z;
  is_unordered : bool;
  is_messageIdentifier : Z
}.

Inductive chunk_body :=
  | chunkInit (i : chunkInitCommon)
  | chunkInitAck (i : chunkInitCommon)
  | chunkAbort (errorCauses : list errorCause)
  | chunkError (errorCauses : list errorCause)
  | chunkCookieEcho (cookie : list Z)
  | chunkCookieAck
  | chunkHeartbeat (hb_params : list param)
  | chunkHeartbeatAck (hb_params : list param)
  | chunkPayloadData (d : payloadData)
  | chunkSelectiveAck (cumulativeTSNAck a_rwnd : Z) (gapAckBlocks : list gapAckBlock)
      (duplicateTSN : list Z)
  | chunkReconfig (paramA : option param) (paramB : option param)
  | chunkForwardTSN (newCumulativeTSN : Z) (streams : list chunkForwardTSNStream)
  | chunkIForwardTSN (newCumulativeTSN : Z) (istreams : list chunkIForwardTSNStream)
  | chunkShutdown (cumulativeTSNAck : Z)
  | chunkShutdownAck
  | chunkShutdownComplete.

Record chunk := mkChunk { k_hdr : chunkHeader; k_body : chunk_body }.

(** The header with [typ] and [raw] set, and with [typ], [flags] and [raw]. *)
Definition fill (h : chunkHeader) (typ : Z) (raw : list Z) : chunkHeader :=
  mkChunkHeader typ (ch_flags h) raw.

(** ** INIT and INIT ACK *)

Definition initChunkMinLength : Z := 16.
Definition initOptionalVarHeaderLength : Z := 4.

(** The loop over the variable-length parameters. *)
Fixpoint init_params (fuel : nat) (raw : list Z) (offset remaining : Z) (ps : list param)
    (us : list paramHeader) : res (list param * list paramHeader) :=
  match fuel with
  | O => OutOfFuel
  | S fuel' =>
      if 0 <? remaining then
        if initOptionalVarHeaderLength <? remaining then
          rest ← slice_from offset raw;
          pHeader ← wrap_err ErrInitChunkParseParamTypeFailed (paramHeader_unmarshal rest);
          let pad := getPadding (ph_len pHeader) in
          let next := init_params fuel' raw (offset + (ph_len pHeader + pad))
                        (remaining - (ph_len pHeader + pad)) in
          match buildParam (ph_typ pHeader) rest with
          | Ok p => next (ps ++ [p]) us
          | Err _ => next ps (us ++ [pHeader])
          | Panic => Panic
          | OutOfFuel => OutOfFuel
          end
        else Ok (ps, us)
      else Ok (ps, us)
  end.

Definition chunkInitCommon_unmarshal (raw : list Z) : res chunkInitCommon :=
  r0 ← slice_from 0 raw; tag ← be32 r0;
  r4 ← slice_from 4 raw; rwnd ← be32 r4;
  r8 ← slice_from 8 raw; outb ← be16 r8;
  r10 ← slice_from 10 raw; inb ← be16 r10;
  r12 ← slice_from 12 raw; itsn ← be32 r12;
  pu ← init_params (S (length raw)) raw initChunkMinLength (zlen raw - initChunkMinLength) [] [];
  mret (mkInitCommon tag rwnd outb inb itsn pu.1 pu.2).

(** Each parameter but the last is padded. *)
Fixpoint params_marshal (ps : list param) : list Z :=
  match ps with
  | [] => []
  | [p] => param_marshal p
  | p :: ps' => padByte (param_marshal p) (getPadding (zlen (param_marshal p))) ++ params_marshal ps'
  end.

Definition chunkInitCommon_marshal (i : chunkInitCommon) : list Z :=
  put32 (initiateTag i) ++ put32 (advertisedReceiverWindowCredit i)
  ++ put16 (numOutboundStreams i) ++ put16 (numInboundStreams i) ++ put32 (initialTSN i)
  ++ params_marshal (params i).

Definition chunkInit_unmarshal (raw : list Z) : res chunk :=
  h ← chunkHeader_unmarshal raw;
  if negb (ch_typ h =? ctInit) then Err ErrChunkTypeNotTypeInit
  else if zlen (ch_raw h) <? initChunkMinLength then Err ErrChunkValueNotLongEnough
  else if negb (ch_flags h =? 0) then Err ErrChunkTypeInitFlagZero
  else i ← wrap_err ErrChunkTypeInitUnmarshalFailed (chunkInitCommon_unmarshal (ch_raw h));
       mret (mkChunk h (chunkInit i)).

Definition chunkInitAck_unmarshal (raw : list Z) : res chunk :=
  h ← chunkHeader_unmarshal raw;
  if negb (ch_typ h =? ctInitAck) then Err ErrChunkTypeNotInitAck
  else if zlen (ch_raw h) <? initChunkMinLength then Err ErrChunkNotLongEnoughForParams
  else if negb (ch_flags h =? 0) then Err ErrChunkTypeInitAckFlagZero
  else i ← wrap_err ErrInitAckUnmarshalFailed (chunkInitCommon_unmarshal (ch_raw h));
       mret (mkChunk h (chunkInitAck i)).

Definition chunkInit_marshal (h : chunkHeader) (i : chunkInitCommon) : chunkHeader :=
  fill h ctInit (chunkInitCommon_marshal i).

Definition chunkInitAck_marshal (h : chunkHeader) (i : chunkInitCommon) : chunkHeader :=
  fill h ctInitAck (chunkInitCommon_marshal i).

(** [check]: whether to abort, and the error. *)
Definition chunkInit_check (i : chunkInitCommon) : bool * option err :=
  if initiateTag i =? 0 then (true, Some ErrChunkTypeInitInitateTagZero)
  else if numInboundStreams i =? 0 then (true, Some ErrInitInboundStreamRequestZero)
  else if numOutboundStreams i =? 0 then (true, Some ErrInitOutboundStreamRequestZero)
  else if advertisedReceiverWindowCredit i <? 1500 then (true, Some ErrInitAdvertisedReceiver1500)
  else if existsb (fun p =>
            (ph_unrecognizedAction p =? paramHeaderUnrecognizedActionStop)
            || (ph_unrecognizedAction p =? paramHeaderUnrecognizedActionStopAndReport))
            (unrecognizedParams i)
       then (true, Some ErrInitUnknownParam)
  else (false, None).

Definition chunkInitAck_check (i : chunkInitCommon) : bool * option err :=
  if initiateTag i =? 0 then (true, Some ErrChunkTypeInitAckInitateTagZero)
  else if numInboundStreams i =? 0 then (true, Some ErrInitAckInboundStreamRequestZero)
  else if numOutboundStreams i =? 0 then (true, Some ErrInitAckOutboundStreamRequestZero)
  else if advertisedReceiverWindowCredit i <? 1500 then (true, Some ErrInitAckAdvertisedReceiver1500)
  else (false, None).

(** ** ABORT and ERROR *)

(** [for len(raw)-offset >= 4 { ... }]: [raw] here is what is left of the
    packet, not of the chunk. *)
Fixpoint error_causes (fuel : nat) (e : err) (raw : list Z) (offset : Z) (cs : list errorCause)
  : res (list errorCause) :=
  match fuel with
  | O => OutOfFuel
  | S fuel' =>
      if 4 <=? zlen raw - offset then
        rest ← slice_from offset raw;
        c ← wrap_err e (buildErrorCause rest);
        error_causes fuel' e raw (offset + cause_length c) (cs ++ [c])
      else Ok cs
  end.

Definition chunkAbort_unmarshal (raw : list Z) : res chunk :=
  h ← chunkHeader_unmarshal raw;
  if negb (ch_typ h =? ctAbort) then Err ErrChunkTypeNotAbort
  else cs ← error_causes (S (length raw)) ErrBuildAbortChunkFailed raw chunkHeaderSize [];
       mret (mkChunk h (chunkAbort cs)).

Definition chunkError_unmarshal (raw : list Z) : res chunk :=
  h ← chunkHeader_unmarshal raw;
  if negb (ch_typ h =? ctError) then Err ErrChunkTypeNotCtError
  else cs ← error_causes (S (length raw)) ErrBuildErrorChunkFailed raw chunkHeaderSize [];
       mret (mkChunk h (chunkError cs)).

Fixpoint causes_marshal (cs : list errorCause) : res (list Z) :=
  match cs with
  | [] => Ok []
  | c :: cs' => b ← cause_marshal c; bs ← causes_marshal cs'; mret (b ++ bs)
  end.

Definition chunkAbort_marshal (cs : list errorCause) : res chunkHeader :=
  raw ← causes_marshal cs; mret (mkChunkHeader ctAbort 0 raw).

Definition chunkError_marshal (cs : list errorCause) : res chunkHeader :=
  raw ← causes_marshal cs; mret (mkChunkHeader ctError 0 raw).

(** ** COOKIE ECHO, COOKIE ACK *)

Definition chunkCookieEcho_unmarshal (raw : list Z) : res chunk :=
  h ← chunkHeader_unmarshal raw;
  if negb (ch_typ h =? ctCookieEcho) then Err ErrChunkTypeNotCookieEcho
  else mret (mkChunk h (chunkCookieEcho (ch_raw h))).

Definition chunkCookieEcho_marshal (h : chunkHeader) (cookie : list Z) : chunkHeader :=
  fill h ctCookieEcho cookie.

Definition chunkCookieAck_unmarshal (raw : list Z) : res chunk :=
  h ← chunkHeader_unmarshal raw;
  if negb (ch_typ h =? ctCookieAck) then Err ErrChunkTypeNotCookieAck
  else mret (mkChunk h chunkCookieAck).

Definition chunkCookieAck_marshal (h : chunkHeader) : chunkHeader := fill h ctCookieAck (ch_raw h).

(** ** SHUTDOWN, SHUTDOWN ACK, SHUTDOWN COMPLETE *)

Definition cumulativeTSNAckLength : Z := 4.

Definition chunkShutdown_unmarshal (raw : list Z) : res chunk :=
  h ← chunkHeader_unmarshal raw;
  if negb (ch_typ h =? ctShutdown) then Err ErrChunkTypeNotShutdown
  else if negb (zlen (ch_raw h) =? cumulativeTSNAckLength) then Err ErrInvalidChunkSize
  else r0 ← slice_from 0 (ch_raw h); cum ← be32 r0; mret (mkChunk h (chunkShutdown cum)).

Definition chunkShutdown_marshal (h : chunkHeader) (cum : Z) : chunkHeader :=
  fill h ctShutdown (put32 cum).

Definition chunkShutdownAck_unmarshal (raw : list Z) : res chunk :=
  h ← chunkHeader_unmarshal raw;
  if negb (ch_typ h =? ctShutdownAck) then Err ErrChunkTypeNotShutdownAck
  else mret (mkChunk h chunkShutdownAck).

Definition chunkShutdownAck_marshal (h : chunkHeader) : chunkHeader :=
  fill h ctShutdownAck (ch_raw h).

Definition chunkShutdownComplete_unmarshal (raw : list Z) : res chunk :=
  h ← chunkHeader_unmarshal raw;
  if negb (ch_typ h =? ctShutdownComplete) then Err ErrChunkTypeNotShutdownComplete
  else mret (mkChunk h chunkShutdownComplete).

Definition chunkShutdownComplete_marshal (h : chunkHeader) : chunkHeader :=
  fill h ctShutdownComplete (ch_raw h).

(** ** HEARTBEAT, HEARTBEAT ACK *)

Definition allZero (b : list Z) : bool := forallb (fun v => v =? 0) b.

Definition chunkHeartbeat_unmarshal (raw : list Z) : res chunk :=
  h ← chunkHeader_unmarshal raw;
  if negb (ch_typ h =? ctHeartbeat) then Err ErrChunkTypeNotHeartbeat
  else if zlen (ch_raw h) =? 0 then mret (mkChunk h (chunkHeartbeat []))
  else if zlen (ch_raw h) <? initOptionalVarHeaderLength then Err ErrHeartbeatNotLongEnoughInfo
  else
    pType ← wrap_err ErrParseParamTypeFailed (parseParamType (ch_raw h));
    if negb (pType =? heartbeatInfo) then Err ErrHeartbeatParam
    else
      pHeader ← wrap_err ErrParseParamTypeFailed (paramHeader_unmarshal (ch_raw h));
      let plen := ph_len pHeader in
      if (plen <? initOptionalVarHeaderLength) || (zlen (ch_raw h) <? plen)
      then Err ErrHeartbeatNotLongEnoughInfo
      else
        rp ← slice 0 plen (ch_raw h);
        p ← wrap_err ErrHeartbeatChunkUnmarshal (buildParam pType rp);
        rem ← slice_from plen (ch_raw h);
        if (0 <? zlen rem) && negb (allZero rem) then Err ErrHeartbeatExtraNonZero
        else mret (mkChunk h (chunkHeartbeat [p])).

(** The exported [Marshal]; the interface's [marshal] is the one promoted from
    the header. *)
Definition chunkHeartbeat_Marshal (h : chunkHeader) (ps : list param) : res (list Z) :=
  match ps with
  | [p] =>
      match p_body p with
      | paramHeartbeatInfo _ => Ok (chunkHeader_marshal (mkChunkHeader ctHeartbeat 0 (param_marshal p)))
      | _ => Err ErrHeartbeatParam
      end
  | _ => Err ErrHeartbeatMarshalNoInfo
  end.

Definition chunkHeartbeatAck_unmarshal (raw : list Z) : res chunk :=
  h ← chunkHeader_unmarshal raw;
  if negb (ch_typ h =? ctHeartbeatAck) then Err ErrChunkTypeNotHeartbeatAck
  else if zlen (ch_raw h) =? 0 then mret (mkChunk h (chunkHeartbeatAck []))
  else if zlen (ch_raw h) <? initOptionalVarHeaderLength then Err ErrHeartbeatAckParams
  else
    pType ← wrap_err ErrHeartbeatAckParams (parseParamType (ch_raw h));
    if negb (pType =? heartbeatInfo) then Err ErrHeartbeatAckNotHeartbeatInfo
    else
      pHeader ← wrap_err ErrHeartbeatAckParams (paramHeader_unmarshal (ch_raw h));
      let plen := ph_len pHeader in
      if (plen <? initOptionalVarHeaderLength) || (zlen (ch_raw h) <? plen)
      then Err ErrHeartbeatAckParams
      else
        rp ← slice 0 plen (ch_raw h);
        p ← wrap_err ErrHeartbeatAckMarshalParam (buildParam pType rp);
        rem ← slice_from plen (ch_raw h);
        if (0 <? zlen rem) && negb (allZero rem) then Err ErrHeartbeatExtraNonZero
        else mret (mkChunk h (chunkHeartbeatAck [p])).

Definition chunkHeartbeatAck_marshal (h : chunkHeader) (ps : list param) : res chunkHeader :=
  match ps with
  | [p] =>
      match p_body p with
      | paramHeartbeatInfo _ => Ok (fill h ctHeartbeatAck (param_marshal p))
      | _ => Err ErrHeartbeatAckNotHeartbeatInfo
      end
  | _ => Err ErrHeartbeatAckParams
  end.

(** ** DATA and I-DATA *)

Definition payloadDataHeaderSize : Z := 12.
Definition iDataHeaderSize : Z := 16.

Definition payloadDataEndingFragmentBitmask : Z := 1.
Definition payloadDataBeginingFragmentBitmask : Z := 2.
Definition payloadDataUnorderedBitmask : Z := 4.
Definition payloadDataImmediateSACK : Z := 8.

Definition flag_set (flags mask : Z) : bool := negb (Z.land flags mask =? 0).

Definition chunkPayloadData_unmarshal (raw : list Z) : res chunk :=
  h ← chunkHeader_unmarshal raw;
  let imm := flag_set (ch_flags h) payloadDataImmediateSACK in
  let uno := flag_set (ch_flags h) payloadDataUnorderedBitmask in
  let beg := flag_set (ch_flags h) payloadDataBeginingFragmentBitmask in
  let fin := flag_set (ch_flags h) payloadDataEndingFragmentBitmask in
  let r := ch_raw h in
  if ch_typ h =? ctPayloadData then
    if zlen r <? payloadDataHeaderSize then Err ErrChunkPayloadSmall
    else
      r0 ← slice_from 0 r; t ← be32 r0;
      r4 ← slice_from 4 r; sid ← be16 r4;
      r6 ← slice_from 6 r; ssn ← be16 r6;
      r8 ← slice_from 8 r; ppi ← be32 r8;
      ud ← slice_from payloadDataHeaderSize r;
      mret (mkChunk h (chunkPayloadData (mkPayload uno beg fin imm t sid ssn 0 0 ppi ud false)))
  else if ch_typ h =? ctIData then
    if zlen r <? iDataHeaderSize then Err ErrChunkPayloadSmall
    else
      r0 ← slice_from 0 r; t ← be32 r0;
      r4 ← slice_from 4 r; sid ← be16 r4;
      r8 ← slice_from 8 r; mid ← be32 r8;
      r12 ← slice_from 12 r; last ← be32 r12;
      let ppi := if beg then last else 0 in
      let fsn := if beg then 0 else last in
      ud ← slice_from iDataHeaderSize r;
      mret (mkChunk h (chunkPayloadData (mkPayload uno beg fin imm t sid (u16 mid) mid fsn ppi ud true)))
  else Err ErrChunkTypeUnhandled.

Definition isIData (h : chunkHeader) (d : payloadData) : bool := iData d || (ch_typ h =? ctIData).

Definition data_flags (d : payloadData) : Z :=
  let flags := if endingFragment d then 1 else 0 in
  let flags := if beginningFragment d then Z.lor flags (Z.shiftl 1 1) else flags in
  let flags := if unordered d then Z.lor flags (Z.shiftl 1 2) else flags in
  if immediateSack d then Z.lor flags (Z.shiftl 1 3) else flags.

Definition chunkPayloadData_marshal (h : chunkHeader) (d : payloadData) : chunkHeader :=
  if isIData h d then
    mkChunkHeader ctIData (data_flags d)
      (put32 (tsn d) ++ put16 (streamIdentifier d) ++ put16 0 ++ put32 (messageIdentifier d)
       ++ put32 (if beginningFragment d then payloadType d else fragmentSequenceNumber d)
       ++ userData d)
  else
    mkChunkHeader ctPayloadData (data_flags d)
      (put32 (tsn d) ++ put16 (streamIdentifier d) ++ put16 (streamSequenceNumber d)
       ++ put32 (payloadType d) ++ userData d).

Definition chunkSize (h : chunkHeader) (d : payloadData) : Z :=
  chunkHeaderSize + (if isIData h d then iDataHeaderSize else payloadDataHeaderSize)
  + zlen (userData d).

Definition chunkSizeInPacket (h : chunkHeader) (d : payloadData) : Z :=
  chunkSize h d + getPadding (chunkSize h d).

(** ** SACK *)

Definition selectiveAckHeaderSize : Z := 12.

Fixpoint gap_blocks (n : nat) (raw : list Z) (offset : Z) : res (list gapAckBlock) :=
  match n with
  | O => Ok []
  | S n' =>
      r0 ← slice_from offset raw; s ← be16 r0;
      r2 ← slice_from (offset + 2) raw; e ← be16 r2;
      gs ← gap_blocks n' raw (offset + 4); mret (mkGap s e :: gs)
  end.

Fixpoint dup_tsns (n : nat) (raw : list Z) (offset : Z) : res (list Z) :=
  match n with
  | O => Ok []
  | S n' =>
      r0 ← slice_from offset raw; t ← be32 r0;
      ts ← dup_tsns n' raw (offset + 4); mret (t :: ts)
  end.

Definition chunkSelectiveAck_unmarshal (raw : list Z) : res chunk :=
  h ← chunkHeader_unmarshal raw;
  let r := ch_raw h in
  if negb (ch_typ h =? ctSack) then Err ErrChunkTypeNotSack
  else if zlen r <? selectiveAckHeaderSize then Err ErrSackSizeNotLargeEnoughInfo
  else
    r0 ← slice_from 0 r; cum ← be32 r0;
    r4 ← slice_from 4 r; rwnd ← be32 r4;
    r8 ← slice_from 8 r; nGaps ← be16 r8;
    r10 ← slice_from 10 r; nDups ← be16 r10;
    if negb (zlen r =? selectiveAckHeaderSize + (4 * nGaps + 4 * nDups))
    then Err ErrSackSizeNotMatchPredicted
    else
      gs ← gap_blocks (Z.to_nat nGaps) r selectiveAckHeaderSize;
      ds ← dup_tsns (Z.to_nat nDups) r (selectiveAckHeaderSize + 4 * nGaps);
      mret (mkChunk h (chunkSelectiveAck cum rwnd gs ds)).

Definition chunkSelectiveAck_marshal (h : chunkHeader) (cum rwnd : Z) (gs : list gapAckBlock)
    (ds : list Z) : chunkHeader :=
  fill h ctSack
    (put32 cum ++ put32 rwnd ++ put16 (u16 (zlen gs)) ++ put16 (u16 (zlen ds))
     ++ concat (map (fun g => put16 (gap_start g) ++ put16 (gap_end g)) gs)
     ++ concat (map put32 ds)).

(** ** RE-CONFIG *)

Definition chunkReconfig_unmarshal (raw : list Z) : res chunk :=
  h ← chunkHeader_unmarshal raw;
  pType ← wrap_err ErrChunkParseParamTypeFailed (parseParamType (ch_raw h));
  a ← buildParam pType (ch_raw h);
  let offset := param_length a + getPadding (param_length a) in
  if offset <? zlen (ch_raw h) then
    rest ← slice_from offset (ch_raw h);
    pType ← wrap_err ErrChunkParseParamTypeFailed (parseParamType rest);
    b ← buildParam pType rest;
    mret (mkChunk h (chunkReconfig (Some a) (Some b)))
  else mret (mkChunk h (chunkReconfig (Some a) None)).

(** A nil [paramA] is a nil interface: calling its method panics. *)
Definition chunkReconfig_marshal (h : chunkHeader) (paramA paramB : option param) : res chunkHeader :=
  match paramA with
  | None => Panic
  | Some a =>
      let out := param_marshal a in
      let out := match paramB with
                 | None => out
                 | Some b => padByte out (getPadding (zlen out)) ++ param_marshal b
                 end in
      Ok (fill h ctReconfig out)
  end.

(** ** FORWARD TSN *)

Definition newCumulativeTSNLength : Z := 4.
Definition forwardTSNStreamLength : Z := 4.

Definition chunkForwardTSNStream_unmarshal (raw : list Z) : res chunkForwardTSNStream :=
  if zlen raw <? forwardTSNStreamLength then Err ErrChunkTooShort
  else
    r0 ← slice_from 0 raw; i ← be16 r0;
    r2 ← slice_from 2 raw; s ← be16 r2; mret (mkFwdStream i s).

Definition chunkForwardTSNStream_marshal (s : chunkForwardTSNStream) : list Z :=
  put16 (fs_identifier s) ++ put16 (fs_sequence s).

Fixpoint fwd_streams (fuel : nat) (raw : list Z) (offset remaining : Z)
  : res (list chunkForwardTSNStream) :=
  match fuel with
  | O => OutOfFuel
  | S fuel' =>
      if 0 <? remaining then
        rest ← slice_from offset raw;
        s ← wrap_err ErrMarshalStreamFailed (chunkForwardTSNStream_unmarshal rest);
        ss ← fwd_streams fuel' raw (offset + forwardTSNStreamLength)
               (remaining - forwardTSNStreamLength);
        mret (s :: ss)
      else Ok []
  end.

Definition chunkForwardTSN_unmarshal (raw : list Z) : res chunk :=
  h ← chunkHeader_unmarshal raw;
  let r := ch_raw h in
  if zlen r <? newCumulativeTSNLength then Err ErrChunkTooShort
  else
    r0 ← slice_from 0 r; cum ← be32 r0;
    ss ← fwd_streams (S (length r)) r newCumulativeTSNLength (zlen r - newCumulativeTSNLength);
    mret (mkChunk h (chunkForwardTSN cum ss)).

Definition chunkForwardTSN_marshal (h : chunkHeader) (cum : Z) (ss : list chunkForwardTSNStream)
  : chunkHeader :=
  fill h ctForwardTSN (put32 cum ++ concat (map chunkForwardTSNStream_marshal ss)).

(** ** I-FORWARD-TSN *)

Definition iForwardTSNEntryLength : Z := 8.

Definition maxIForwardTSNStreams : Z :=
  (2 ^ 16 - 1 - chunkHeaderSize - newCumulativeTSNLength) / iForwardTSNEntryLength.

Definition chunkIForwardTSNStream_unmarshal (raw : list Z) : res chunkIForwardTSNStream :=
  if zlen raw <? iForwardTSNEntryLength then Err ErrIForwardTSNChunkTooShort
  else
    r0 ← slice_from 0 raw; i ← be16 r0;
    r2 ← slice_from 2 raw; flags ← be16 r2;
    r4 ← slice_from 4 raw; mid ← be32 r4;
    mret (mkIFwdStream i (flag_set flags 1) mid).

Definition chunkIForwardTSNStream_marshal (s : chunkIForwardTSNStream) : list Z :=
  put16 (is_identifier s) ++ put16 (if is_unordered s then 1 else 0) ++ put32 (is_messageIdentifier s).

(** One pass: [forwarded] maps a key to its place in [normalized]. *)
Definition normalize_step (acc : list chunkIForwardTSNStream * gmap (Z * bool) nat)
    (stream : chunkIForwardTSNStream) : list chunkIForwardTSNStream * gmap (Z * bool) nat :=
  let '(normalized, forwarded) := acc in
  let key := (is_identifier stream, is_unordered stream) in
  match forwarded !! key with
  | Some idx =>
      (alter (fun s =>
         if sna32LT (is_messageIdentifier s) (is_messageIdentifier stream)
         then mkIFwdStream (is_identifier s) (is_unordered s) (is_messageIdentifier stream)
         else s) idx normalized, forwarded)
  | None => (normalized ++ [stream], <[key := length normalized]> forwarded)
  end.

Definition normalizeIForwardTSNStreams (streams : list chunkIForwardTSNStream)
  : list chunkIForwardTSNStream :=
  if (length streams <? 2)%nat then streams
  else (fold_left normalize_step streams ([], ∅)).1.

(** [for i := range streamCount { ... }] *)
Fixpoint ifwd_streams (n : nat) (raw : list Z) (offset : Z) : res (list chunkIForwardTSNStream) :=
  match n with
  | O => Ok []
  | S n' =>
      r ← slice offset (offset + iForwardTSNEntryLength) raw;
      s ← wrap_err ErrMarshalStreamFailed (chunkIForwardTSNStream_unmarshal r);
      ss ← ifwd_streams n' raw (offset + iForwardTSNEntryLength); mret (s :: ss)
  end.

Definition chunkIForwardTSN_unmarshal (raw : list Z) : res chunk :=
  h ← chunkHeader_unmarshal raw;
  let r := ch_raw h in
  if zlen r <? newCumulativeTSNLength then Err ErrIForwardTSNChunkTooShort
  else
    r0 ← slice_from 0 r; cum ← be32 r0;
    let streamBytes := zlen r - newCumulativeTSNLength in
    if negb (streamBytes mod iForwardTSNEntryLength =? 0) then Err ErrMarshalStreamFailed
    else
      let streamCount := streamBytes / iForwardTSNEntryLength in
      if maxIForwardTSNStreams <? streamCount then Err ErrIForwardTSNTooManyStreams
      else
        ss ← ifwd_streams (Z.to_nat streamCount) r newCumulativeTSNLength;
        mret (mkChunk h (chunkIForwardTSN cum (normalizeIForwardTSNStreams ss))).

Definition chunkIForwardTSN_check (ss : list chunkIForwardTSNStream) : bool * option err :=
  if maxIForwardTSNStreams <? zlen (normalizeIForwardTSNStreams ss)
  then (true, Some ErrIForwardTSNTooManyStreams) else (false, None).

Definition chunkIForwardTSN_marshal (h : chunkHeader) (cum : Z) (ss : list chunkIForwardTSNStream)
  : res chunkHeader :=
  let ss := normalizeIForwardTSNStreams ss in
  match chunkIForwardTSN_check ss with
  | (_, Some e) => Err e
  | (_, None) =>
      let ss := normalizeIForwardTSNStreams ss in
      Ok (fill h ctIForwardTSN (put32 cum ++ concat (map chunkIForwardTSNStream_marshal ss)))
  end.

(** ** The interface *)

Definition chunk_filled (c : chunk) : res chunkHeader :=
  let h := k_hdr c in
  match k_body c with
  | chunkInit i => Ok (chunkInit_marshal h i)
  | chunkInitAck i => Ok (chunkInitAck_marshal h i)
  | chunkAbort cs => chunkAbort_marshal cs
  | chunkError cs => chunkError_marshal cs
  | chunkCookieEcho cookie => Ok (chunkCookieEcho_marshal h cookie)
  | chunkCookieAck => Ok (chunkCookieAck_marshal h)
  | chunkHeartbeat _ => Ok h
  | chunkHeartbeatAck ps => chunkHeartbeatAck_marshal h ps
  | chunkPayloadData d => Ok (chunkPayloadData_marshal h d)
  | chunkSelectiveAck cum rwnd gs ds => Ok (chunkSelectiveAck_marshal h cum rwnd gs ds)
  | chunkReconfig a b => chunkReconfig_marshal h a b
  | chunkForwardTSN cum ss => Ok (chunkForwardTSN_marshal h cum ss)
  | chunkIForwardTSN cum ss => chunkIForwardTSN_marshal h cum ss
  | chunkShutdown cum => Ok (chunkShutdown_marshal h cum)
  | chunkShutdownAck => Ok (chunkShutdownAck_marshal h)
  | chunkShutdownComplete => Ok (chunkShutdownComplete_marshal h)
  end.

(** [c.marshal()]: a HEARTBEAT has no [marshal] of its own, so the header's is
    called, with whatever the header holds. *)
Definition chunk_marshal (c : chunk) : res (list Z) := chunkHeader_marshal <$> chunk_filled c.

Definition chunk_valueLength (c : chunk) : Z := valueLength (k_hdr c).

(** ** Decoding never panics and every loop ends *)

Ltac read_safe :=
  first [apply be16_safe | apply be32_safe]; rewrite ?zlen_drop; lia.

Lemma check_padding_safe i start raw :
  0 <= start -> start + Z.of_nat i <= zlen raw -> safe (check_padding i start raw).
Proof.
  intros Hs. induction i as [|i IH]; intros Hl; [done|]. simpl.
  apply safe_bind; [apply index_safe; lia|intros b _]. case_match; [apply IH; lia|done].
Qed.

Lemma chunkHeader_unmarshal_safe raw : safe (chunkHeader_unmarshal raw).
Proof.
  unfold chunkHeader_unmarshal, chunkHeaderSize. case_match eqn:E; [done|]. go_bool.
  apply safe_bind; [apply index_safe; lia|intros typ _].
  apply safe_bind; [apply index_safe; lia|intros flags _].
  rewrite slice_from_ok by lia. res_cbn.
  apply safe_bind; [read_safe|intros len _].
  pose proof (u16_range (len - 4)) as Hr. unfold in_u in Hr.
  case_match eqn:E1; [done|]. go_bool.
  apply safe_bind; [case_match; [apply check_padding_safe; lia|done]|intros [] _].
  rewrite slice_ok by lia. done.
Qed.

Lemma chunkHeader_unmarshal_ok raw h :
  chunkHeader_unmarshal raw = Ok h ->
  chunkHeaderSize + zlen (ch_raw h) <= zlen raw /\ zlen (ch_raw h) < 2 ^ 16
  /\ (bytes raw -> bytes (ch_raw h)).
Proof.
  unfold chunkHeader_unmarshal, chunkHeaderSize. case_match eqn:E; [done|].
  intros (typ & _ & (flags & _ & (r2 & _ & (len & _ & H)%bind_ok)%bind_ok)%bind_ok)%bind_ok.
  case_match eqn:E1; [done|]. apply bind_ok in H as (u & _ & (body & Hb & [= <-])%bind_ok).
  go_bool. cbn [ch_raw]. pose proof (u16_range (len - 4)) as Hr. unfold in_u in Hr.
  pose proof (zlen_slice _ _ _ _ Hb). split_and!; [lia|lia|]. intros Hraw. by eapply slice_bytes.
Qed.

Lemma getPadding_range l : 0 <= l -> 0 <= getPadding l < 4.
Proof. intros H. unfold getPadding, paddingMultiple. Z.to_euclidean_division_equations. lia. Qed.

Lemma init_params_safe fuel raw offset remaining ps us :
  0 <= offset -> offset + remaining = zlen raw -> remaining < Z.of_nat fuel -> (0 < fuel)%nat ->
  safe (init_params fuel raw offset remaining ps us).
Proof.
  revert offset remaining ps us. induction fuel as [|fuel IH]; intros off rem ps us Ho Hs Hf Hp; [lia|].
  simpl. case_match eqn:E; [|done]. case_match eqn:E1; [|done]. go_bool.
  unfold initOptionalVarHeaderLength in *.
  rewrite slice_from_ok by lia. res_cbn. set (rest := drop (Z.to_nat off) raw).
  apply safe_bind; [apply safe_wrap, paramHeader_unmarshal_safe|intros h Hh].
  apply wrap_ok, paramHeader_unmarshal_ok in Hh as (Hlen & _).
  unfold paramHeaderLength in Hlen. pose proof (getPadding_range (ph_len h)) as Hp'.
  pose proof (buildParam_safe (ph_typ h) rest) as Hb.
  destruct (buildParam (ph_typ h) rest); simpl in Hb; try done; apply IH; lia.
Qed.

Lemma chunkInitCommon_safe raw : 16 <= zlen raw -> safe (chunkInitCommon_unmarshal raw).
Proof.
  intros H. unfold chunkInitCommon_unmarshal, initChunkMinLength.
  rewrite !slice_from_ok by lia. res_cbn.
  apply safe_bind; [read_safe|intros tag _].
  apply safe_bind; [read_safe|intros rw _].
  apply safe_bind; [read_safe|intros ob _].
  apply safe_bind; [read_safe|intros ib _].
  apply safe_bind; [read_safe|intros it _].
  apply safe_bind; [|done]. apply (init_params_safe (S (length raw))); unfold zlen in *; lia.
Qed.

Lemma error_causes_safe fuel e raw offset cs :
  bytes raw -> 0 <= offset -> zlen raw - offset < Z.of_nat fuel -> (0 < fuel)%nat ->
  safe (error_causes fuel e raw offset cs).
Proof.
  intros Hb. revert offset cs. induction fuel as [|fuel IH]; intros off cs Ho Hf Hp; [lia|].
  simpl. case_match eqn:E; [|done]. go_bool. rewrite slice_from_ok by lia. res_cbn.
  apply safe_bind.
  { apply safe_wrap, buildErrorCause_safe; [by apply Forall_drop|].
    unfold errorCauseHeaderLength. rewrite zlen_drop; lia. }
  intros c Hc. apply wrap_ok, buildErrorCause_length in Hc. unfold errorCauseHeaderLength in Hc.
  apply IH; lia.
Qed.

Lemma gap_blocks_safe n raw off :
  0 <= off -> off + 4 * Z.of_nat n <= zlen raw -> safe (gap_blocks n raw off).
Proof.
  revert off. induction n as [|n IH]; intros off Ho Hl; [done|]. simpl.
  rewrite !slice_from_ok by lia. res_cbn.
  apply safe_bind; [read_safe|intros s _].
  apply safe_bind; [read_safe|intros e _].
  apply safe_bind; [apply IH; lia|done].
Qed.

Lemma dup_tsns_safe n raw off :
  0 <= off -> off + 4 * Z.of_nat n <= zlen raw -> safe (dup_tsns n raw off).
Proof.
  revert off. induction n as [|n IH]; intros off Ho Hl; [done|]. simpl.
  rewrite !slice_from_ok by lia. res_cbn.
  apply safe_bind; [read_safe|intros t _].
  apply safe_bind; [apply IH; lia|done].
Qed.

Lemma fwd_stream_safe raw : safe (chunkForwardTSNStream_unmarshal raw).
Proof.
  unfold chunkForwardTSNStream_unmarshal, forwardTSNStreamLength. case_match eqn:E; [done|]. go_bool.
  rewrite !slice_from_ok by lia. res_cbn.
  apply safe_bind; [read_safe|intros i _].
  apply safe_bind; [read_safe|done].
Qed.

Lemma fwd_streams_safe fuel raw off rem :
  0 <= off -> off + rem = zlen raw -> rem < Z.of_nat fuel -> (0 < fuel)%nat ->
  safe (fwd_streams fuel raw off rem).
Proof.
  revert off rem. induction fuel as [|fuel IH]; intros off rem Ho Hs Hf Hp; [lia|].
  simpl. case_match eqn:E; [|done]. go_bool. rewrite slice_from_ok by lia. res_cbn.
  apply safe_bind; [apply safe_wrap, fwd_stream_safe|intros s _].
  apply safe_bind; [unfold forwardTSNStreamLength; apply IH; lia|done].
Qed.

Lemma ifwd_stream_safe raw : safe (chunkIForwardTSNStream_unmarshal raw).
Proof.
  unfold chunkIForwardTSNStream_unmarshal, iForwardTSNEntryLength. case_match eqn:E; [done|]. go_bool.
  rewrite !slice_from_ok by lia. res_cbn.
  apply safe_bind; [read_safe|intros i _].
  apply safe_bind; [read_safe|intros f _].
  apply safe_bind; [read_safe|done].
Qed.

Lemma ifwd_streams_safe n raw off :
  0 <= off -> off + 8 * Z.of_nat n <= zlen raw -> safe (ifwd_streams n raw off).
Proof.
  revert off. induction n as [|n IH]; intros off Ho Hl; [done|]. simpl.
  unfold iForwardTSNEntryLength in *. rewrite slice_ok by lia. res_cbn.
  apply safe_bind; [apply safe_wrap, ifwd_stream_safe|intros s _].
  apply safe_bind; [apply IH; lia|done].
Qed.

Ltac chunk_hdr :=
  apply safe_bind; [apply chunkHeader_unmarshal_safe|];
  let h := fresh "h" in let Hh := fresh "Hh" in intros h Hh;
  apply chunkHeader_unmarshal_ok in Hh as (? & ? & ?).

(** Splits a guard of the decoder, closing the branch that returns the error. *)
Ltac chunk_guard := case_match; [done|]; go_bool.

Lemma chunkInit_safe raw : safe (chunkInit_unmarshal raw).
Proof.
  unfold chunkInit_unmarshal, initChunkMinLength. chunk_hdr. do 3 chunk_guard.
  apply safe_bind; [|done]. by apply safe_wrap, chunkInitCommon_safe.
Qed.

Lemma chunkInitAck_safe raw : safe (chunkInitAck_unmarshal raw).
Proof.
  unfold chunkInitAck_unmarshal, initChunkMinLength. chunk_hdr. do 3 chunk_guard.
  apply safe_bind; [|done]. by apply safe_wrap, chunkInitCommon_safe.
Qed.

Lemma chunkAbort_safe raw : bytes raw -> safe (chunkAbort_unmarshal raw).
Proof.
  intros Hb. unfold chunkAbort_unmarshal, chunkHeaderSize. chunk_hdr. chunk_guard.
  apply safe_bind; [|done]. apply error_causes_safe; [done|lia|unfold zlen; lia|lia].
Qed.

Lemma chunkError_safe raw : bytes raw -> safe (chunkError_unmarshal raw).
Proof.
  intros Hb. unfold chunkError_unmarshal, chunkHeaderSize. chunk_hdr. chunk_guard.
  apply safe_bind; [|done]. apply error_causes_safe; [done|lia|unfold zlen; lia|lia].
Qed.

Lemma chunkHeartbeat_safe raw : safe (chunkHeartbeat_unmarshal raw).
Proof.
  unfold chunkHeartbeat_unmarshal, initOptionalVarHeaderLength. chunk_hdr. do 3 chunk_guard.
  apply safe_bind; [apply safe_wrap, parseParamType_safe|].
  intros pType _. chunk_guard.
  apply safe_bind; [apply safe_wrap, paramHeader_unmarshal_safe|intros ph _]. chunk_guard.
  rewrite slice_ok by lia. res_cbn.
  apply safe_bind; [apply safe_wrap, buildParam_safe|intros p _].
  rewrite slice_from_ok by lia. res_cbn. by case_match.
Qed.

Lemma chunkPayloadData_safe raw : safe (chunkPayloadData_unmarshal raw).
Proof.
  unfold chunkPayloadData_unmarshal, payloadDataHeaderSize, iDataHeaderSize. chunk_hdr.
  case_match; [|case_match; [|done]].
  - chunk_guard. rewrite !slice_from_ok by lia. res_cbn.
    repeat (apply safe_bind; [read_safe|intros ? _]). done.
  - chunk_guard. rewrite !slice_from_ok by lia. res_cbn.
    repeat (apply safe_bind; [read_safe|intros ? _]). done.
Qed.

Lemma chunkSelectiveAck_safe raw : bytes raw -> safe (chunkSelectiveAck_unmarshal raw).
Proof.
  intros Hb. unfold chunkSelectiveAck_unmarshal, selectiveAckHeaderSize. chunk_hdr.
  do 2 chunk_guard. rewrite !slice_from_ok by lia. res_cbn.
  do 2 (apply safe_bind; [read_safe|intros ? _]).
  apply safe_bind; [read_safe|intros ng Hng]. apply safe_bind; [read_safe|intros nd Hnd].
  apply be16_range in Hng; [|by apply Forall_drop; auto].
  apply be16_range in Hnd; [|by apply Forall_drop; auto]. unfold in_u in *.
  chunk_guard. apply safe_bind; [apply gap_blocks_safe; lia|intros gs _].
  apply safe_bind; [apply dup_tsns_safe; lia|done].
Qed.

Lemma chunkReconfig_safe raw : safe (chunkReconfig_unmarshal raw).
Proof.
  unfold chunkReconfig_unmarshal. chunk_hdr.
  apply safe_bind; [apply safe_wrap, parseParamType_safe|].
  intros pType _. apply safe_bind; [apply buildParam_safe|intros a Ha].
  apply buildParam_length in Ha. unfold paramHeaderLength in Ha.
  pose proof (getPadding_range (param_length a)).
  case_match; [|done]. go_bool. rewrite slice_from_ok by lia. res_cbn.
  apply safe_bind; [apply safe_wrap, parseParamType_safe|].
  intros pType' _. apply safe_bind; [apply buildParam_safe|done].
Qed.

Lemma chunkForwardTSN_safe raw : safe (chunkForwardTSN_unmarshal raw).
Proof.
  unfold chunkForwardTSN_unmarshal, newCumulativeTSNLength. chunk_hdr. chunk_guard.
  rewrite slice_from_ok by lia. res_cbn. apply safe_bind; [read_safe|intros cum _].
  apply safe_bind; [|done]. apply fwd_streams_safe; unfold zlen in *; lia.
Qed.

Lemma chunkIForwardTSN_safe raw : safe (chunkIForwardTSN_unmarshal raw).
Proof.
  unfold chunkIForwardTSN_unmarshal, newCumulativeTSNLength, iForwardTSNEntryLength. chunk_hdr.
  chunk_guard. rewrite slice_from_ok by lia. res_cbn. apply safe_bind; [read_safe|intros cum _].
  do 2 chunk_guard. apply safe_bind; [|done]. apply ifwd_streams_safe; [lia|].
  rewrite Z2Nat.id by (apply Z.div_pos; lia). Z.to_euclidean_division_equations. lia.
Qed.

Lemma chunkShutdown_safe raw : safe (chunkShutdown_unmarshal raw).
Proof.
  unfold chunkShutdown_unmarshal, cumulativeTSNAckLength. chunk_hdr. do 2 chunk_guard.
  rewrite slice_from_ok by lia. res_cbn. apply safe_bind; [read_safe|done].
Qed.
