(* ===== verification/Packet.v ===== *)
(** * SCTP packets (packet.go)

    The common header with its CRC32c, and the chunks one after the other,
    each padded to four bytes. *)

From S2P Require Import Prelude Serial Bytes Params Causes Chunks.

Local Open Scope Z_scope.

(** ** hash/crc32, Castagnoli polynomial *)

Definition castagnoli : Z := 2197175160. (* 0x82f63b78 *)

Definition crc_bit (c : Z) : Z :=
  if Z.testbit c 0 then Z.lxor (Z.shiftr c 1) castagnoli else Z.shiftr c 1.

Definition crc_byte (c b : Z) : Z := Nat.iter 8 crc_bit (Z.lxor c b).

Definition ones32 : Z := 4294967295.

Definition crc32_Update (crc : Z) (p : list Z) : Z :=
  Z.lxor (fold_left crc_byte p (Z.lxor crc ones32)) ones32.

(** ** Packets *)

Record packet := mkPacket {
  sourcePort : Z;
  destinationPort : Z;
  verificationTag : Z;
  chunks : list chunk
}.

Definition packetHeaderSize : Z := 12.

Definition generatePacketChecksum (raw : list Z) : res Z :=
  r0 ← slice 0 8 raw; r12 ← slice_from 12 raw;
  mret (crc32_Update (crc32_Update (crc32_Update 0 r0) [0; 0; 0; 0]) r12).

(** The decoder the type byte selects. *)
Definition unmarshal_chunk (ctype : Z) (remaining : list Z) : res chunk :=
  if ctype =? ctInit then chunkInit_unmarshal remaining
  else if ctype =? ctInitAck then chunkInitAck_unmarshal remaining
  else if ctype =? ctAbort then chunkAbort_unmarshal remaining
  else if ctype =? ctCookieEcho then chunkCookieEcho_unmarshal remaining
  else if ctype =? ctCookieAck then chunkCookieAck_unmarshal remaining
  else if ctype =? ctHeartbeat then chunkHeartbeat_unmarshal remaining
  else if ctype =? ctPayloadData then chunkPayloadData_unmarshal remaining
  else if ctype =? ctIData then chunkPayloadData_unmarshal remaining
  else if ctype =? ctSack then chunkSelectiveAck_unmarshal remaining
  else if ctype =? ctReconfig then chunkReconfig_unmarshal remaining
  else if ctype =? ctForwardTSN then chunkForwardTSN_unmarshal remaining
  else if ctype =? ctIForwardTSN then chunkIForwardTSN_unmarshal remaining
  else if ctype =? ctError then chunkError_unmarshal remaining
  else if ctype =? ctShutdown then chunkShutdown_unmarshal remaining
  else if ctype =? ctShutdownAck then chunkShutdownAck_unmarshal remaining
  else if ctype =? ctShutdownComplete then chunkShutdownComplete_unmarshal remaining
  else Err ErrUnmarshalUnknownChunkType.

(** [for offset < len(raw) { ... }] and the test after it. *)
Fixpoint unmarshal_chunks (fuel : nat) (raw : list Z) (offset : Z) : res (list chunk) :=
  match fuel with
  | O => OutOfFuel
  | S fuel' =>
      if offset <? zlen raw then
        remaining ← slice_from offset raw;
        if zlen remaining <? chunkHeaderSize then Err ErrParseSCTPChunkNotEnoughData
        else
          ctype ← index 0 remaining;
          dataChunk ← unmarshal_chunk ctype remaining;
          let chunkValuePadding := getPadding (chunk_valueLength dataChunk) in
          cs ← unmarshal_chunks fuel' raw
                 (offset + (chunkHeaderSize + chunk_valueLength dataChunk + chunkValuePadding));
          mret (dataChunk :: cs)
      else if negb (offset =? zlen raw) then Err ErrParseSCTPChunkNotEnoughData
      else Ok []
  end.

Definition packet_unmarshal (doChecksum : bool) (raw : list Z) : res packet :=
  if zlen raw <? packetHeaderSize then Err ErrPacketRawTooSmall
  else
    doChecksum ←
      (if packetHeaderSize + chunkHeaderSize <=? zlen raw then
         t ← index packetHeaderSize raw;
         mret (if (t =? ctInit) || (t =? ctCookieEcho) then true else doChecksum)
       else mret doChecksum);
    r8 ← slice_from 8 raw; theirChecksum ← le32 r8;
    _ ← (if negb (theirChecksum =? 0) || doChecksum then
           ourChecksum ← generatePacketChecksum raw;
           guard_err (theirChecksum =? ourChecksum) ErrChecksumMismatch
         else Ok tt);
    r0 ← slice_from 0 raw; sp ← be16 r0;
    r2 ← slice_from 2 raw; dp ← be16 r2;
    r4 ← slice_from 4 raw; vt ← be32 r4;
    cs ← unmarshal_chunks (S (length raw)) raw packetHeaderSize;
    mret (mkPacket sp dp vt cs).

(** The chunks are appended one by one and the packet padded after each. *)
Fixpoint marshal_chunks (raw : list Z) (cs : list chunk) : res (list Z) :=
  match cs with
  | [] => Ok raw
  | c :: cs' =>
      chunkRaw ← chunk_marshal c;
      let raw := raw ++ chunkRaw in
      let paddingNeeded := getPadding (zlen raw) in
      marshal_chunks (if negb (paddingNeeded =? 0)
                      then raw ++ replicate (Z.to_nat paddingNeeded) 0 else raw) cs'
  end.

Definition packet_marshal (p : packet) (doChecksum : bool) : res (list Z) :=
  let raw := put16 (sourcePort p) ++ put16 (destinationPort p) ++ put32 (verificationTag p)
             ++ [0; 0; 0; 0] in
  raw ← marshal_chunks raw (chunks p);
  if doChecksum then
    sum ← generatePacketChecksum raw;
    mret (take 8 raw ++ put32le sum ++ drop 12 raw)
  else mret raw.

(** [TryMarshalUnmarshal]. *)
Definition TryMarshalUnmarshal (msg : list Z) : res Z :=
  match packet_unmarshal false msg with
  | Ok p => match packet_marshal p false with
            | Ok _ => Ok 1 | Err _ => Ok 0 | Panic => Panic | OutOfFuel => OutOfFuel
            end
  | Err _ => Ok 0
  | Panic => Panic
  | OutOfFuel => OutOfFuel
  end.

(** ** Decoding is total *)

Lemma unmarshal_chunk_safe t raw : bytes raw -> safe (unmarshal_chunk t raw).
Proof.
  intros Hb. unfold unmarshal_chunk.
  repeat case_match; try done; auto using chunkInit_safe, chunkInitAck_safe, chunkAbort_safe,
    chunkError_safe, chunkHeartbeat_safe, chunkPayloadData_safe, chunkSelectiveAck_safe,
    chunkReconfig_safe, chunkForwardTSN_safe, chunkIForwardTSN_safe, chunkShutdown_safe;
    unfold chunkCookieEcho_unmarshal, chunkCookieAck_unmarshal, chunkShutdownAck_unmarshal,
      chunkShutdownComplete_unmarshal; chunk_hdr; by case_match.
Qed.

Lemma unmarshal_chunks_safe fuel raw offset :
  bytes raw -> 0 <= offset -> zlen raw - offset < Z.of_nat fuel -> (0 < fuel)%nat ->
  safe (unmarshal_chunks fuel raw offset).
Proof.
  intros Hb. revert offset. induction fuel as [|fuel IH]; intros off Ho Hf Hp; [lia|].
  simpl. case_match eqn:E; [|by case_match]. go_bool. rewrite slice_from_ok by lia. res_cbn.
  unfold chunkHeaderSize. chunk_guard. apply safe_bind; [apply index_safe; lia|intros t _].
  apply safe_bind; [apply unmarshal_chunk_safe; by apply Forall_drop|intros c _].
  unfold chunk_valueLength, valueLength. pose proof (zlen_nonneg (ch_raw (k_hdr c))).
  pose proof (getPadding_range (zlen (ch_raw (k_hdr c)))).
  apply safe_bind; [apply IH; lia|done].
Qed.

(** C24. Decoding is total: whatever bytes arrive, [packet.unmarshal] returns a
    packet or an error.  No index or slice is out of range in any of the chunk,
    parameter and error cause decoders, and none of their loops runs forever
    (the fuel, one more than the number of bytes, is never used up). *)
Theorem packet_unmarshal_total doChecksum raw :
  bytes raw -> safe (packet_unmarshal doChecksum raw).
Proof.
  intros Hb. unfold packet_unmarshal, packetHeaderSize, chunkHeaderSize. chunk_guard.
  apply safe_bind.
  { case_match; [|done]. go_bool. apply safe_bind; [apply index_safe; lia|done]. }
  intros ck _. rewrite !slice_from_ok by lia. res_cbn.
  apply safe_bind; [apply le32_safe; rewrite zlen_drop; lia|intros their _].
  apply safe_bind.
  { case_match; [|done]. unfold generatePacketChecksum. rewrite slice_ok, slice_from_ok by lia.
    res_cbn. apply safe_guard. }
  intros [] _. do 3 (apply safe_bind; [read_safe|intros ? _]).
  apply safe_bind; [|done]. apply unmarshal_chunks_safe; [done|lia|unfold zlen; lia|lia].
Qed.

Lemma packet_unmarshal_total_witness :
  bytes [19; 136; 19; 137; 0; 0; 0; 1; 0; 0; 0; 0; 6; 0; 0; 9; 1]
  /\ safe (packet_unmarshal false [19; 136; 19; 137; 0; 0; 0; 1; 0; 0; 0; 0; 6; 0; 0; 9; 1]).
Proof.
  assert (H : bytes [19; 136; 19; 137; 0; 0; 0; 1; 0; 0; 0; 0; 6; 0; 0; 9; 1])
    by (repeat constructor; unfold is_byte; lia).
  split; [exact H|]. exact (packet_unmarshal_total false _ H).
Defined.
