(* ===== verification/RoundTrip.v ===== *)
(** * Encoding and decoding SCTP packets are inverse

    For every well-formed packet, decoding the bytes [packet.marshal] produces
    gives the packet back.  The headers inside the structs (type, flags, raw
    bytes, lengths) are scratch space that [marshal] and [unmarshal] fill, so
    packets are compared by content, [erase]. *)

From S2P Require Import Prelude Serial Bytes Params Causes Chunks Packet.

Local Open Scope Z_scope.

(** ** Content *)

Definition erase_param (p : param) : param := mkParam zeroParamHeader (p_body p).

Definition erase_cause (c : errorCause) : errorCause :=
  mkCause (mkCauseHeader (ec_code (cause_filled c)) 0 (ec_raw (cause_filled c))) (c_body c).

Definition erase_init (i : chunkInitCommon) : chunkInitCommon :=
  mkInitCommon (initiateTag i) (advertisedReceiverWindowCredit i) (numOutboundStreams i)
    (numInboundStreams i) (initialTSN i) (map erase_param (params i)) (unrecognizedParams i).

Definition erase (b : chunk_body) : chunk_body :=
  match b with
  | chunkInit i => chunkInit (erase_init i)
  | chunkInitAck i => chunkInitAck (erase_init i)
  | chunkAbort cs => chunkAbort (map erase_cause cs)
  | chunkError cs => chunkError (map erase_cause cs)
  | chunkHeartbeat ps => chunkHeartbeat (map erase_param ps)
  | chunkHeartbeatAck ps => chunkHeartbeatAck (map erase_param ps)
  | chunkReconfig a b => chunkReconfig (erase_param <$> a) (erase_param <$> b)
  | _ => b
  end.

(** ** Well-formed chunks *)

Definition init_ok (i : chunkInitCommon) : Prop :=
  in_u 32 (initiateTag i) /\ in_u 32 (advertisedReceiverWindowCredit i)
  /\ in_u 16 (numOutboundStreams i) /\ in_u 16 (numInboundStreams i) /\ in_u 32 (initialTSN i)
  /\ Forall param_ok (params i) /\ unrecognizedParams i = []
  (* a last parameter without a value is not read back *)
  /\ (forall p, last (params i) = Some p -> 4 < zlen (param_marshal p)).

Definition data_ok (h : chunkHeader) (d : payloadData) : Prop :=
  in_u 32 (tsn d) /\ in_u 16 (streamIdentifier d) /\ in_u 32 (payloadType d)
  /\ iData d = isIData h d
  /\ if iData d then
       in_u 32 (messageIdentifier d) /\ in_u 32 (fragmentSequenceNumber d)
       /\ streamSequenceNumber d = u16 (messageIdentifier d)
       /\ (if beginningFragment d then fragmentSequenceNumber d = 0 else payloadType d = 0)
     else
       in_u 16 (streamSequenceNumber d) /\ messageIdentifier d = 0 /\ fragmentSequenceNumber d = 0.

Definition body_ok (h : chunkHeader) (b : chunk_body) : Prop :=
  match b with
  | chunkInit i | chunkInitAck i => ch_flags h = 0 /\ init_ok i
  | chunkAbort cs | chunkError cs => Forall cause_ok cs
  | chunkCookieEcho _ | chunkCookieAck | chunkShutdownAck | chunkShutdownComplete => True
  | chunkHeartbeat ps => ch_typ h = ctHeartbeat /\ ps = [] /\ ch_raw h = []
  | chunkHeartbeatAck _ => False
  | chunkPayloadData d => data_ok h d
  | chunkSelectiveAck cum rwnd gs ds =>
      in_u 32 cum /\ in_u 32 rwnd
      /\ Forall (fun g => in_u 16 (gap_start g) /\ in_u 16 (gap_end g)) gs /\ Forall (in_u 32) ds
  | chunkReconfig a b => (exists p, a = Some p /\ param_ok p) /\ (forall p, b = Some p -> param_ok p)
  | chunkForwardTSN cum ss =>
      in_u 32 cum /\ Forall (fun s => in_u 16 (fs_identifier s) /\ in_u 16 (fs_sequence s)) ss
  | chunkIForwardTSN cum ss =>
      in_u 32 cum /\ normalizeIForwardTSNStreams ss = ss /\ zlen ss <= maxIForwardTSNStreams
      /\ Forall (fun s => in_u 16 (is_identifier s) /\ in_u 32 (is_messageIdentifier s)) ss
  | chunkShutdown cum => in_u 32 cum
  end.

(** The encoded chunk fits its 16-bit length field, and is made of bytes, as
    Go's types ensure. *)
Definition chunk_ok (c : chunk) : Prop :=
  body_ok (k_hdr c) (k_body c)
  /\ forall h, chunk_filled c = Ok h ->
     chunkHeaderSize + zlen (ch_raw h) < 2 ^ 16 /\ bytes (chunkHeader_marshal h).

(** ABORT and ERROR read causes to the end of the packet: nothing may follow. *)
Definition closes_packet (b : chunk_body) : bool :=
  match b with chunkAbort _ | chunkError _ => true | _ => false end.

(** ** Header *)

Definition tail_ok (rest : list Z) : Prop := zlen rest < 4 -> Forall (fun b => b = 0) rest.

Lemma check_padding_zero i start (h rest : list Z) :
  start = zlen h -> (i <= length rest)%nat -> Forall (fun b => b = 0) rest ->
  check_padding i start (h ++ rest) = Ok tt.
Proof.
  intros -> Hi Hz. induction i as [|i IH]; [done|]. cbn [check_padding].
  unfold index. replace (0 <=? zlen h + Z.of_nat i) with true
    by (symmetry; apply Z.leb_le; pose proof (zlen_nonneg h); lia).
  replace (Z.to_nat (zlen h + Z.of_nat i)) with (length h + i)%nat by (unfold zlen; lia).
  rewrite lookup_app_r, Nat.add_comm, Nat.add_sub by lia.
  destruct (lookup_lt_is_Some_2 rest i) as [b Hb]; [lia|]. rewrite Hb. res_cbn.
  rewrite Forall_forall in Hz. rewrite (Hz b) by (by eapply list_elem_of_lookup_2). simpl.
  apply IH. lia.
Qed.

Lemma zlen_chunkHeader_marshal h : zlen (chunkHeader_marshal h) = 4 + zlen (ch_raw h).
Proof. unfold chunkHeader_marshal. zlen_lia. Qed.

Lemma chunkHeader_roundtrip h rest :
  chunkHeaderSize + zlen (ch_raw h) < 2 ^ 16 -> tail_ok rest ->
  chunkHeader_unmarshal (chunkHeader_marshal h ++ rest) = Ok h.
Proof.
  intros Hl Ht. unfold chunkHeader_unmarshal.
  pose proof (zlen_nonneg (ch_raw h)) as Hr. pose proof (zlen_nonneg rest) as Hr'.
  set (all := chunkHeader_marshal h ++ rest).
  assert (Hall : zlen all = 4 + zlen (ch_raw h) + zlen rest)
    by (subst all; rewrite zlen_app, zlen_chunkHeader_marshal; lia).
  unfold chunkHeaderSize in *. rewrite Hall.
  replace (4 + zlen (ch_raw h) + zlen rest <? 4) with false by (symmetry; apply Z.ltb_ge; lia).
  assert (Hpad : forall n, n = zlen rest -> n < 4 ->
      check_padding (Z.to_nat n) (4 + zlen (ch_raw h)) all = Ok tt).
  { intros n -> Hn. subst all. apply check_padding_zero; [by rewrite zlen_chunkHeader_marshal| |auto].
    unfold zlen. lia. }
  subst all. unfold chunkHeader_marshal in *. rewrite (Z.add_comm (zlen (ch_raw h)) chunkHeaderSize) in *.
  unfold chunkHeaderSize in *. rewrite u16_small in * by (unfold in_u; lia).
  rewrite <- !app_assoc in *.
  change (index 0 ([ch_typ h; ch_flags h] ++ ?l)) with (Ok (ch_typ h)).
  change (index 1 ([ch_typ h; ch_flags h] ++ ?l)) with (Ok (ch_flags h)). res_cbn.
  rewrite (slice_from_app 2 [_; _]) by done. res_cbn.
  rewrite be16_put16 by (unfold in_u; lia). res_cbn.
  replace (4 + zlen (ch_raw h) - 4) with (zlen (ch_raw h)) by lia.
  rewrite u16_small by (unfold in_u; lia).
  replace (4 + zlen (ch_raw h) + zlen rest - (4 + zlen (ch_raw h))) with (zlen rest) by lia.
  replace (zlen rest <? 0) with false by (symmetry; apply Z.ltb_ge; lia).
  destruct (zlen rest <? 4) eqn:E; go_bool; [rewrite Hpad by done|]; res_cbn;
    rewrite (app_assoc [_; _]), (slice_mid 4) by zlen_lia; by destruct h.
Qed.

(** ** Parameters of INIT and INIT ACK *)

Lemma zlen_padByte l : zlen (padByte l (getPadding (zlen l))) = zlen l + getPadding (zlen l).
Proof.
  unfold padByte. pose proof (getPadding_range (zlen l) (zlen_nonneg l)).
  replace (getPadding (zlen l) <? 0) with false by (symmetry; apply Z.ltb_ge; lia).
  rewrite zlen_app, zlen_replicate; lia.
Qed.

(** The header read back from an encoded parameter. *)
Lemma param_roundtrip_hdr p tail :
  param_ok p -> exists p',
    paramHeader_unmarshal (param_marshal p ++ tail) = Ok (p_hdr p')
    /\ buildParam (ph_typ (p_hdr p')) (param_marshal p ++ tail) = Ok p'
    /\ p_body p' = p_body p /\ ph_len (p_hdr p') = zlen (param_marshal p).
Proof.
  intros Hok. destruct (param_roundtrip p tail Hok) as (p' & Hb & Hbody & Hlen).
  pose proof (buildParam_hdr _ _ _ Hb) as Hh. exists p'. split_and!; try done.
  replace (ph_typ (p_hdr p')) with (ph_typ (param_filled p)); [done|].
  destruct Hok as [_ Hl]. unfold param_marshal in *. rewrite zlen_paramHeader_marshal in Hl.
  rewrite (paramHeader_roundtrip (param_filled p) tail (param_filled_typ p) Hl) in Hh.
  by injection Hh as <-.
Qed.

Lemma zlen_param_marshal_ge p : 4 <= zlen (param_marshal p).
Proof.
  unfold param_marshal. rewrite zlen_paramHeader_marshal.
  pose proof (zlen_nonneg (ph_raw (param_filled p))). lia.
Qed.

Lemma zlen_params_marshal_cons p q ps :
  zlen (params_marshal (p :: q :: ps)) =
  zlen (param_marshal p) + getPadding (zlen (param_marshal p)) + zlen (params_marshal (q :: ps)).
Proof. cbn [params_marshal]. by rewrite zlen_app, zlen_padByte. Qed.

Lemma init_params_roundtrip ps : forall fuel pre acc,
  Forall param_ok ps -> (forall p, last ps = Some p -> 4 < zlen (param_marshal p)) ->
  zlen (params_marshal ps) < Z.of_nat fuel -> (0 < fuel)%nat ->
  exists ps', init_params fuel (pre ++ params_marshal ps) (zlen pre) (zlen (params_marshal ps)) acc []
              = Ok (acc ++ ps', []) /\ map p_body ps' = map p_body ps.
Proof.
  induction ps as [|p [|q ps] IH]; intros fuel pre acc Hok Hlast Hf Hp.
  - exists []. destruct fuel; [lia|]. simpl. by rewrite app_nil_r.
  - destruct fuel as [|fuel]; [lia|]. cbn [params_marshal] in *.
    apply Forall_cons in Hok as [Hok _]. specialize (Hlast p eq_refl).
    cbn [init_params]. unfold initOptionalVarHeaderLength.
    replace (0 <? zlen (param_marshal p)) with true by (symmetry; apply Z.ltb_lt; lia).
    replace (4 <? zlen (param_marshal p)) with true by (symmetry; apply Z.ltb_lt; lia).
    rewrite (slice_from_app (zlen pre)) by done. res_cbn.
    destruct (param_roundtrip_hdr p [] Hok) as (p' & Hh & Hb & Hbody & Hlen). rewrite app_nil_r in *.
    rewrite Hh. res_cbn. rewrite Hb, Hlen. exists [p']. split; [|simpl; by rewrite Hbody].
    pose proof (getPadding_range (zlen (param_marshal p)) (zlen_nonneg _)).
    destruct fuel as [|fuel]; [lia|]. cbn [init_params].
    replace (0 <? zlen (param_marshal p) - (zlen (param_marshal p) + getPadding (zlen (param_marshal p))))
      with false by (symmetry; apply Z.ltb_ge; lia). done.
  - destruct fuel as [|fuel]; [lia|]. pose proof (zlen_params_marshal_cons p q ps) as Hz.
    apply Forall_cons in Hok as [Hok Hoks].
    pose proof (zlen_param_marshal_ge p). pose proof (getPadding_range (zlen (param_marshal p)) (zlen_nonneg _)).
    assert (Hge : 4 <= zlen (params_marshal (q :: ps))).
    { pose proof (zlen_param_marshal_ge q). destruct ps as [|r ps]; [done|].
      rewrite zlen_params_marshal_cons. pose proof (zlen_nonneg (params_marshal (r :: ps))).
      pose proof (getPadding_range (zlen (param_marshal q)) (zlen_nonneg _)). lia. }
    cbn [init_params]. unfold initOptionalVarHeaderLength. rewrite Hz.
    match goal with |- context [0 <? ?x] => replace (0 <? x) with true by (symmetry; apply Z.ltb_lt; lia) end.
    match goal with |- context [4 <? ?x] => replace (4 <? x) with true by (symmetry; apply Z.ltb_lt; lia) end.
    rewrite (slice_from_app (zlen pre)) by done. res_cbn.
    set (more := params_marshal (q :: ps)) in *.
    assert (Hrest : params_marshal (p :: q :: ps) =
      param_marshal p ++ replicate (Z.to_nat (getPadding (zlen (param_marshal p)))) 0 ++ more).
    { cbn [params_marshal]. unfold padByte.
      replace (getPadding (zlen (param_marshal p)) <? 0) with false by (symmetry; apply Z.ltb_ge; lia).
      by rewrite <- app_assoc. }
    rewrite Hrest.
    destruct (param_roundtrip_hdr p
      (replicate (Z.to_nat (getPadding (zlen (param_marshal p)))) 0 ++ more) Hok)
      as (p' & Hh & Hb & Hbody & Hlen).
    rewrite Hh. res_cbn. rewrite Hb, Hlen.
    destruct (IH fuel (pre ++ padByte (param_marshal p) (getPadding (zlen (param_marshal p)))) (acc ++ [p']))
      as (ps' & HI & Hbodies); [done|done|lia|lia|].
    exists (p' :: ps'). split; [|simpl; by rewrite Hbody, Hbodies].
    rewrite <- Hrest. cbn [params_marshal]. fold more.
    rewrite zlen_app, zlen_padByte, <- app_assoc in HI.
    replace (zlen (param_marshal p) + getPadding (zlen (param_marshal p)) + zlen more
      - (zlen (param_marshal p) + getPadding (zlen (param_marshal p)))) with (zlen more) by lia.
    rewrite <- app_assoc in HI. exact HI.
Qed.

(** ** Chunk bodies

    In this section [raw] starts with a chunk whose header decodes to [h]. *)

Section Bodies.
Context (raw : list Z) (h : chunkHeader) (Hh : chunkHeader_unmarshal raw = Ok h).

Lemma bodies_erase_param ps ps' : map p_body ps' = map p_body ps -> map erase_param ps' = map erase_param ps.
Proof.
  intros H. unfold erase_param.
  rewrite <- (map_map p_body (mkParam zeroParamHeader)), H. by rewrite map_map.
Qed.

Lemma initCommon_roundtrip i :
  init_ok i -> exists i', chunkInitCommon_unmarshal (chunkInitCommon_marshal i) = Ok i'
    /\ erase_init i' = erase_init i.
Proof.
  intros (H1 & H2 & H3 & H4 & H5 & Hps & Hus & Hlast).
  unfold chunkInitCommon_unmarshal, initChunkMinLength.
  set (fixed := put32 (initiateTag i) ++ put32 (advertisedReceiverWindowCredit i)
    ++ put16 (numOutboundStreams i) ++ put16 (numInboundStreams i) ++ put32 (initialTSN i)).
  assert (Hraw : chunkInitCommon_marshal i = fixed ++ params_marshal (params i)).
  { unfold chunkInitCommon_marshal. subst fixed. by rewrite <- !app_assoc. }
  destruct (init_params_roundtrip (params i) (S (length (chunkInitCommon_marshal i))) fixed [])
    as (ps' & Hloop & Hbodies); try done; try lia.
  { rewrite Hraw, length_app. unfold zlen. lia. }
  rewrite <- Hraw in Hloop. change (zlen fixed) with 16 in Hloop.
  assert (Hlen : zlen (chunkInitCommon_marshal i) - 16 = zlen (params_marshal (params i))).
  { rewrite Hraw, zlen_app. change (zlen fixed) with 16. lia. }
  rewrite Hlen, Hloop. clear Hraw Hloop Hlen. subst fixed. unfold chunkInitCommon_marshal.
  set (t := params_marshal (params i)). clearbody t.
  rewrite slice_from_0. res_cbn. rewrite be32_put32 by done. res_cbn.
  rewrite (slice_from_app 4) by done. res_cbn. rewrite be32_put32 by done. res_cbn.
  rewrite (app_assoc (put32 (initiateTag i))), (slice_from_app 8) by done. res_cbn.
  rewrite be16_put16 by done. res_cbn.
  rewrite (app_assoc _ (put16 (numOutboundStreams i))), (slice_from_app 10) by done. res_cbn.
  rewrite be16_put16 by done. res_cbn.
  rewrite (app_assoc _ (put16 (numInboundStreams i))), (slice_from_app 12) by done. res_cbn.
  rewrite be32_put32 by done. res_cbn.
  eexists. split; [reflexivity|]. unfold erase_init. simpl.
  by rewrite (bodies_erase_param _ _ Hbodies), Hus.
Qed.

Lemma zlen_initCommon_ge i : 16 <= zlen (chunkInitCommon_marshal i).
Proof.
  unfold chunkInitCommon_marshal. pose proof (zlen_nonneg (params_marshal (params i))). zlen_lia.
Qed.

Lemma causes_marshal_ok cs : Forall cause_ok cs -> causes_marshal cs = Ok (concat (map cause_bytes cs)).
Proof.
  induction 1 as [|c cs Hc _ IH]; [done|]. cbn [causes_marshal map concat].
  by rewrite (cause_marshal_ok _ Hc), IH.
Qed.

Lemma error_causes_roundtrip e cs rest : forall fuel pre acc,
  Forall cause_ok cs -> zlen rest < 4 ->
  zlen (concat (map cause_bytes cs)) + zlen rest < Z.of_nat fuel -> (0 < fuel)%nat ->
  exists cs', error_causes fuel e (pre ++ concat (map cause_bytes cs) ++ rest) (zlen pre) acc
              = Ok (acc ++ cs') /\ map erase_cause cs' = map erase_cause cs.
Proof.
  induction cs as [|c cs IH]; intros fuel pre acc Hok Hrest Hf Hp; destruct fuel as [|fuel]; try lia;
    cbn [error_causes map concat].
  - exists []. simpl app.
    replace (4 <=? zlen (pre ++ rest) - zlen pre) with false
      by (symmetry; apply Z.leb_gt; rewrite zlen_app; lia).
    by rewrite app_nil_r.
  - apply Forall_cons in Hok as [Hc Hcs]. rewrite <- app_assoc.
    cbn [map concat] in Hf. rewrite zlen_app in Hf.
    pose proof (zlen_cause_bytes c) as Hz. pose proof (zlen_nonneg (ec_raw (cause_filled c))).
    pose proof (zlen_nonneg (concat (map cause_bytes cs) ++ rest)).
    replace (4 <=? zlen (pre ++ cause_bytes c ++ concat (map cause_bytes cs) ++ rest) - zlen pre)
      with true by (symmetry; apply Z.leb_le; rewrite (zlen_app pre), (zlen_app (cause_bytes c)); lia).
    rewrite (slice_from_app (zlen pre)) by done. res_cbn.
    destruct (cause_roundtrip c (concat (map cause_bytes cs) ++ rest) Hc)
      as (c' & Hb & Hbody & Hcont & Hlen).
    rewrite Hb. res_cbn. rewrite Hlen.
    destruct (IH fuel (pre ++ cause_bytes c) (acc ++ [c'])) as (cs' & HI & He);
      [done|done|lia|rewrite zlen_app in *; lia|].
    rewrite zlen_app, <- !app_assoc in HI.
    exists (c' :: cs'). split; [exact HI|]. simpl. rewrite He. f_equal.
    unfold erase_cause. unfold cause_content in Hcont. injection Hcont as -> ->. by rewrite Hbody.
Qed.

Lemma data_flags_bits d :
  flag_set (data_flags d) payloadDataImmediateSACK = immediateSack d
  /\ flag_set (data_flags d) payloadDataUnorderedBitmask = unordered d
  /\ flag_set (data_flags d) payloadDataBeginingFragmentBitmask = beginningFragment d
  /\ flag_set (data_flags d) payloadDataEndingFragmentBitmask = endingFragment d.
Proof.
  unfold data_flags, flag_set. by destruct (endingFragment d), (beginningFragment d), (unordered d),
    (immediateSack d).
Qed.

Lemma data_roundtrip h0 d :
  data_ok h0 d -> h = chunkPayloadData_marshal h0 d ->
  chunkPayloadData_unmarshal raw = Ok (mkChunk h (chunkPayloadData d)).
Proof.
  intros (H1 & H2 & H3 & Hid & Hrest) Heq. unfold chunkPayloadData_unmarshal. rewrite Hh. res_cbn.
  destruct (data_flags_bits d) as (F1 & F2 & F3 & F4). unfold chunkPayloadData_marshal in Heq.
  pose proof (zlen_nonneg (userData d)). rewrite <- Hid in Heq.
  destruct (iData d) eqn:Ei; subst h; cbn [ch_flags ch_typ ch_raw]; rewrite F1, F2, F3, F4.
  - destruct Hrest as (H4 & H5 & H6 & H7).
    change (ctIData =? ctPayloadData) with false. change (ctIData =? ctIData) with true.
    unfold iDataHeaderSize. cbn beta iota zeta.
    match goal with |- context [zlen ?l <? 16] =>
      replace (zlen l <? 16) with false by (symmetry; apply Z.ltb_ge; zlen_lia) end.
    rewrite slice_from_0. res_cbn. rewrite be32_put32 by done. res_cbn.
    rewrite (slice_from_app 4) by done. res_cbn. rewrite be16_put16 by done. res_cbn.
    rewrite 2!app_assoc, (slice_from_app 8) by done. res_cbn. rewrite be32_put32 by done. res_cbn.
    rewrite app_assoc, (slice_from_app 12) by done. res_cbn.
    rewrite be32_put32 by (by destruct (beginningFragment d)). res_cbn.
    rewrite app_assoc, (slice_from_app 16) by done. res_cbn.
    do 3 f_equal. destruct d as [uno beg fin imm t sid ssn mid fsn ppi ud i]. simpl in *. subst. by destruct beg; subst.
  - destruct Hrest as (H4 & H5 & H6).
    change (ctPayloadData =? ctPayloadData) with true.
    unfold payloadDataHeaderSize. cbn beta iota zeta.
    match goal with |- context [zlen ?l <? 12] =>
      replace (zlen l <? 12) with false by (symmetry; apply Z.ltb_ge; zlen_lia) end.
    rewrite slice_from_0. res_cbn. rewrite be32_put32 by done. res_cbn.
    rewrite (slice_from_app 4) by done. res_cbn. rewrite be16_put16 by done. res_cbn.
    rewrite app_assoc, (slice_from_app 6) by done. res_cbn. rewrite be16_put16 by done. res_cbn.
    rewrite app_assoc, (slice_from_app 8) by done. res_cbn. rewrite be32_put32 by done. res_cbn.
    rewrite app_assoc, (slice_from_app 12) by done. res_cbn.
    do 3 f_equal. destruct d; simpl in *. by subst.
Qed.

Lemma gap_blocks_roundtrip gs tail : forall pre,
  Forall (fun g => in_u 16 (gap_start g) /\ in_u 16 (gap_end g)) gs ->
  gap_blocks (length gs)
    (pre ++ concat (map (fun g => put16 (gap_start g) ++ put16 (gap_end g)) gs) ++ tail) (zlen pre)
  = Ok gs.
Proof.
  induction gs as [|g gs IH]; intros pre Hok; [done|]. apply Forall_cons in Hok as [[Hs He] Hok].
  cbn [gap_blocks length map concat]. rewrite <- !app_assoc.
  rewrite (slice_from_app (zlen pre)) by done. res_cbn. rewrite be16_put16 by done. res_cbn.
  rewrite (app_assoc pre), (slice_from_app (zlen pre + 2)) by (rewrite zlen_app; done). res_cbn.
  rewrite be16_put16 by done. res_cbn.
  specialize (IH (pre ++ put16 (gap_start g) ++ put16 (gap_end g)) Hok).
  rewrite !zlen_app, !zlen_put16, <- !app_assoc in IH. rewrite <- !app_assoc.
  change (2 + 2) with 4 in IH. rewrite IH. by destruct g.
Qed.

Lemma dup_tsns_roundtrip ds : forall pre,
  Forall (in_u 32) ds -> dup_tsns (length ds) (pre ++ concat (map put32 ds)) (zlen pre) = Ok ds.
Proof.
  induction ds as [|t ds IH]; intros pre Hok; [done|]. apply Forall_cons in Hok as [Ht Hok].
  cbn [dup_tsns length map concat]. rewrite (slice_from_app (zlen pre)) by done. res_cbn.
  rewrite be32_put32 by done. res_cbn.
  specialize (IH (pre ++ put32 t) Hok). rewrite zlen_app, zlen_put32, <- app_assoc in IH.
  by rewrite IH.
Qed.

Lemma zlen_gaps gs :
  zlen (concat (map (fun g => put16 (gap_start g) ++ put16 (gap_end g)) gs)) = 4 * zlen gs.
Proof. induction gs as [|g gs IH]; [done|]. cbn [map concat]. autorewrite with zlen. lia. Qed.

Lemma zlen_dups ds : zlen (concat (map put32 ds)) = 4 * zlen ds.
Proof. induction ds as [|g gs IH]; [done|]. cbn [map concat]. autorewrite with zlen. lia. Qed.

Lemma sack_roundtrip h0 cum rwnd gs ds :
  body_ok h0 (chunkSelectiveAck cum rwnd gs ds) -> h = chunkSelectiveAck_marshal h0 cum rwnd gs ds ->
  chunkHeaderSize + zlen (ch_raw h) < 2 ^ 16 ->
  chunkSelectiveAck_unmarshal raw = Ok (mkChunk h (chunkSelectiveAck cum rwnd gs ds)).
Proof.
  intros (H1 & H2 & H3 & H4) Heq Hl. unfold chunkSelectiveAck_unmarshal. rewrite Hh. res_cbn.
  unfold chunkHeaderSize, selectiveAckHeaderSize in *.
  unfold chunkSelectiveAck_marshal, fill in Heq. subst h. cbn [ch_typ ch_raw ch_flags] in *.
  autorewrite with zlen in Hl. rewrite zlen_gaps, zlen_dups in Hl.
  pose proof (zlen_nonneg gs). pose proof (zlen_nonneg ds).
  rewrite !u16_small by (unfold in_u; lia).
  change (negb (ctSack =? ctSack)) with false. cbn beta iota zeta.
  set (G := concat (map (fun g => put16 (gap_start g) ++ put16 (gap_end g)) gs)).
  set (D := concat (map put32 ds)).
  set (all := put32 cum ++ put32 rwnd ++ put16 (zlen gs) ++ put16 (zlen ds) ++ G ++ D).
  assert (Hall : zlen all = 12 + (4 * zlen gs + 4 * zlen ds)).
  { subst all G D. autorewrite with zlen. rewrite zlen_gaps, zlen_dups. lia. }
  rewrite Hall. replace (12 + (4 * zlen gs + 4 * zlen ds) <? 12) with false by (symmetry; apply Z.ltb_ge; lia).
  assert (Hg : gap_blocks (length gs) all 12 = Ok gs).
  { subst all. do 3 rewrite app_assoc.
    change 12 with (zlen (((put32 cum ++ put32 rwnd) ++ put16 (zlen gs)) ++ put16 (zlen ds))).
    by apply gap_blocks_roundtrip. }
  assert (Hd : dup_tsns (length ds) all (12 + 4 * zlen gs) = Ok ds).
  { subst all. do 4 rewrite app_assoc.
    replace (12 + 4 * zlen gs) with
      (zlen ((((put32 cum ++ put32 rwnd) ++ put16 (zlen gs)) ++ put16 (zlen ds)) ++ G))
      by (autorewrite with zlen; subst G; rewrite zlen_gaps; lia).
    by apply dup_tsns_roundtrip. }
  subst all. rewrite slice_from_0. res_cbn. rewrite be32_put32 by done. res_cbn.
  rewrite (slice_from_app 4) by done. res_cbn. rewrite be32_put32 by done. res_cbn.
  rewrite (app_assoc (put32 cum)), (slice_from_app 8) by done. res_cbn.
  rewrite be16_put16 by (unfold in_u; lia). res_cbn.
  rewrite (app_assoc _ (put16 (zlen gs))), (slice_from_app 10) by done. res_cbn.
  rewrite be16_put16 by (unfold in_u; lia). res_cbn. rewrite Z.eqb_refl. cbn [negb].
  replace (Z.to_nat (zlen gs)) with (length gs) by (unfold zlen; lia).
  replace (Z.to_nat (zlen ds)) with (length ds) by (unfold zlen; lia).
  rewrite <- !app_assoc. rewrite Hg. res_cbn. by rewrite Hd.
Qed.

Lemma fwd_streams_roundtrip ss : forall fuel pre,
  Forall (fun s => in_u 16 (fs_identifier s) /\ in_u 16 (fs_sequence s)) ss ->
  4 * zlen ss < Z.of_nat fuel ->
  fwd_streams fuel (pre ++ concat (map chunkForwardTSNStream_marshal ss)) (zlen pre) (4 * zlen ss) = Ok ss.
Proof.
  induction ss as [|s ss IH]; intros fuel pre Hok Hf.
  { destruct fuel; [unfold zlen in Hf; simpl in Hf; lia|done]. }
  pose proof (zlen_nonneg ss) as Hn. rewrite zlen_cons in *. destruct fuel as [|fuel]; [lia|].
  apply Forall_cons in Hok as [[Hi Hs] Hok].
  cbn [fwd_streams map concat]. unfold forwardTSNStreamLength.
  replace (0 <? 4 * (1 + zlen ss)) with true by (symmetry; apply Z.ltb_lt; lia).
  rewrite (slice_from_app (zlen pre)) by done. res_cbn.
  specialize (IH fuel (pre ++ chunkForwardTSNStream_marshal s) Hok).
  set (t := concat (map chunkForwardTSNStream_marshal ss)) in *. pose proof (zlen_nonneg t).
  unfold chunkForwardTSNStream_unmarshal, forwardTSNStreamLength, chunkForwardTSNStream_marshal in *.
  match goal with |- context [zlen ?l <? 4] =>
    replace (zlen l <? 4) with false
      by (symmetry; apply Z.ltb_ge; rewrite !zlen_app, !zlen_put16; lia) end.
  rewrite slice_from_0, <- !app_assoc. res_cbn. rewrite be16_put16 by done. res_cbn.
  rewrite (slice_from_app 2) by done. res_cbn. rewrite be16_put16 by done. res_cbn.
  rewrite !zlen_app, !zlen_put16, <- !app_assoc in IH. change (2 + 2) with 4 in IH.
  replace (4 * (1 + zlen ss) - 4) with (4 * zlen ss) by lia.
  rewrite IH by lia. by destruct s.
Qed.

Lemma zlen_fwd ss : zlen (concat (map chunkForwardTSNStream_marshal ss)) = 4 * zlen ss.
Proof.
  induction ss as [|s ss IH]; [done|]. cbn [map concat]. rewrite zlen_app, zlen_cons, IH.
  change (zlen (chunkForwardTSNStream_marshal s)) with 4. lia.
Qed.

Lemma forward_roundtrip h0 cum ss :
  body_ok h0 (chunkForwardTSN cum ss) -> h = chunkForwardTSN_marshal h0 cum ss ->
  chunkForwardTSN_unmarshal raw = Ok (mkChunk h (chunkForwardTSN cum ss)).
Proof.
  intros (H1 & H2) Heq. unfold chunkForwardTSN_unmarshal. rewrite Hh. res_cbn.
  unfold newCumulativeTSNLength. unfold chunkForwardTSN_marshal, fill in Heq. subst h. cbn [ch_raw].
  pose proof (zlen_nonneg ss). pose proof (zlen_fwd ss) as Hz.
  assert (Hall : zlen (put32 cum ++ concat (map chunkForwardTSNStream_marshal ss)) = 4 + 4 * zlen ss)
    by (autorewrite with zlen; lia).
  rewrite Hall. replace (4 + 4 * zlen ss <? 4) with false by (symmetry; apply Z.ltb_ge; lia).
  rewrite slice_from_0. res_cbn. rewrite be32_put32 by done. res_cbn.
  replace (4 + 4 * zlen ss - 4) with (4 * zlen ss) by lia.
  pose proof (fwd_streams_roundtrip ss
    (S (length (put32 cum ++ concat (map chunkForwardTSNStream_marshal ss)))) (put32 cum) H2) as Hf.
  change (zlen (put32 cum)) with 4 in Hf. rewrite Hf; [done|]. unfold zlen in *. lia.
Qed.

Lemma ifwd_streams_roundtrip ss : forall pre,
  Forall (fun s => in_u 16 (is_identifier s) /\ in_u 32 (is_messageIdentifier s)) ss ->
  ifwd_streams (length ss) (pre ++ concat (map chunkIForwardTSNStream_marshal ss)) (zlen pre) = Ok ss.
Proof.
  induction ss as [|s ss IH]; intros pre Hok; [done|].
  apply Forall_cons in Hok as [[Hi Hm] Hok]. cbn [ifwd_streams length map concat].
  unfold iForwardTSNEntryLength.
  rewrite (slice_mid (zlen pre)) by done. res_cbn.
  unfold chunkIForwardTSNStream_unmarshal, iForwardTSNEntryLength.
  change (zlen (chunkIForwardTSNStream_marshal s) <? 8) with false. cbn beta iota.
  specialize (IH (pre ++ chunkIForwardTSNStream_marshal s) Hok).
  rewrite zlen_app, <- app_assoc in IH. change (zlen (chunkIForwardTSNStream_marshal s)) with 8 in IH.
  rewrite IH. unfold chunkIForwardTSNStream_marshal.
  rewrite slice_from_0. res_cbn. rewrite be16_put16 by done. res_cbn.
  rewrite (slice_from_app 2) by done. res_cbn.
  rewrite be16_put16 by (destruct (is_unordered s); unfold in_u; lia). res_cbn.
  rewrite app_assoc, (slice_from_app 4) by done. res_cbn.
  rewrite <- (app_nil_r (put32 (is_messageIdentifier s))), be32_put32 by done. res_cbn.
  destruct s as [i u m]. by destruct u.
Qed.

Lemma zlen_ifwd ss : zlen (concat (map chunkIForwardTSNStream_marshal ss)) = 8 * zlen ss.
Proof.
  induction ss as [|s ss IH]; [done|]. cbn [map concat]. rewrite zlen_app, zlen_cons, IH.
  change (zlen (chunkIForwardTSNStream_marshal s)) with 8. lia.
Qed.

Lemma iforward_roundtrip h0 cum ss :
  body_ok h0 (chunkIForwardTSN cum ss) -> chunkIForwardTSN_marshal h0 cum ss = Ok h ->
  chunkIForwardTSN_unmarshal raw = Ok (mkChunk h (chunkIForwardTSN cum ss)).
Proof.
  intros (H1 & Hn & _ & H2) Heq. unfold chunkIForwardTSN_unmarshal. rewrite Hh. res_cbn.
  unfold newCumulativeTSNLength, iForwardTSNEntryLength.
  unfold chunkIForwardTSN_marshal, chunkIForwardTSN_check, fill in Heq. rewrite !Hn in Heq.
  destruct (maxIForwardTSNStreams <? zlen ss) eqn:Emax; [done|]. apply Ok_inj in Heq. subst h. cbn [ch_raw].
  pose proof (zlen_nonneg ss). pose proof (zlen_ifwd ss) as Hz.
  assert (Hall : zlen (put32 cum ++ concat (map chunkIForwardTSNStream_marshal ss)) = 4 + 8 * zlen ss)
    by (autorewrite with zlen; lia).
  rewrite Hall. replace (4 + 8 * zlen ss <? 4) with false by (symmetry; apply Z.ltb_ge; lia).
  rewrite slice_from_0. res_cbn. rewrite be32_put32 by done. res_cbn.
  replace (4 + 8 * zlen ss - 4) with (zlen ss * 8) by lia.
  rewrite Z_mod_mult, Z_div_mult by lia. change (negb (0 =? 0)) with false. cbn beta iota.
  rewrite Emax. replace (Z.to_nat (zlen ss)) with (length ss) by (unfold zlen; lia).
  pose proof (ifwd_streams_roundtrip ss (put32 cum) H2) as Hf.
  change (zlen (put32 cum)) with 4 in Hf. rewrite Hf. res_cbn. by rewrite Hn.
Qed.

Lemma reconfig_roundtrip h0 a b :
  body_ok h0 (chunkReconfig a b) -> chunkReconfig_marshal h0 a b = Ok h ->
  exists a' b', chunkReconfig_unmarshal raw = Ok (mkChunk h (chunkReconfig a' b'))
    /\ erase (chunkReconfig a' b') = erase (chunkReconfig a b).
Proof.
  intros [(p & -> & Hp) Hb] Heq. unfold chunkReconfig_unmarshal. rewrite Hh. res_cbn.
  unfold chunkReconfig_marshal in Heq. apply Ok_inj in Heq. subst h. unfold fill. cbn [ch_raw].
  assert (Hhdr : forall q t, param_ok q -> exists q',
    parseParamType (param_marshal q ++ t) = Ok (ph_typ (param_filled q))
    /\ buildParam (ph_typ (param_filled q)) (param_marshal q ++ t) = Ok q'
    /\ p_body q' = p_body q /\ param_length q' = zlen (param_marshal q)).
  { intros q t Hq. destruct (param_roundtrip q t Hq) as (q' & ?). exists q'. split; [|done].
    unfold parseParamType, param_marshal, paramHeader_marshal. rewrite <- app_assoc.
    match goal with |- context [zlen (?x ++ ?y) <? 2] => pose proof (zlen_nonneg y);
      replace (zlen (x ++ y) <? 2) with false by (symmetry; apply Z.ltb_ge; rewrite zlen_app, zlen_put16; lia) end.
    by rewrite be16_put16 by apply param_filled_typ. }
  pose proof (getPadding_range (zlen (param_marshal p)) (zlen_nonneg _)) as Hpad.
  destruct b as [q|].
  - set (t := replicate (Z.to_nat (getPadding (zlen (param_marshal p)))) 0 ++ param_marshal q).
    assert (Hraw : padByte (param_marshal p) (getPadding (zlen (param_marshal p))) ++ param_marshal q
      = param_marshal p ++ t).
    { unfold padByte. replace (getPadding (zlen (param_marshal p)) <? 0) with false
        by (symmetry; apply Z.ltb_ge; lia). subst t. by rewrite <- app_assoc. }
    assert (Hlen : zlen (param_marshal p ++ t) =
      zlen (param_marshal p) + getPadding (zlen (param_marshal p)) + zlen (param_marshal q)).
    { subst t. rewrite !zlen_app, zlen_replicate; lia. }
    destruct (Hhdr p t Hp) as (p' & Ht & Hbp & Hbody & Hl).
    cbn zeta. rewrite Hraw, Ht. res_cbn. rewrite Hbp. res_cbn. rewrite Hl, Hlen.
    pose proof (zlen_param_marshal_ge q).
    match goal with |- context [?x <? ?y] => replace (x <? y) with true by (symmetry; apply Z.ltb_lt; lia) end.
    rewrite <- Hraw, (slice_from_app _ (padByte _ _)) by (by rewrite zlen_padByte). res_cbn.
    destruct (Hhdr q [] (Hb q eq_refl)) as (q' & Ht' & Hbq & Hbody' & Hl'). rewrite app_nil_r in *.
    rewrite Ht'. res_cbn. rewrite Hbq. res_cbn. eexists _, _. split; [reflexivity|].
    simpl. unfold erase_param. by rewrite Hbody, Hbody'.
  - destruct (Hhdr p [] Hp) as (p' & Ht & Hbp & Hbody & Hl). rewrite app_nil_r in *.
    rewrite Ht. res_cbn. rewrite Hbp. res_cbn. rewrite Hl.
    match goal with |- context [?x <? ?y] => replace (x <? y) with false by (symmetry; apply Z.ltb_ge; lia) end.
    eexists _, _. split; [reflexivity|]. simpl. unfold erase_param. by rewrite Hbody.
Qed.
End Bodies.

(** ** Any chunk *)

Lemma chunk_filled_ok c : chunk_ok c -> exists h, chunk_filled c = Ok h.
Proof.
  destruct c as [h0 b]. intros [Hb _]. unfold chunk_filled. cbn [k_body k_hdr] in *.
  destruct b; eauto; cbn [body_ok] in Hb.
  - unfold chunkAbort_marshal. rewrite causes_marshal_ok by done. by eexists.
  - unfold chunkError_marshal. rewrite causes_marshal_ok by done. by eexists.
  - done.
  - destruct Hb as [(p & -> & _) _]. by eexists.
  - destruct Hb as (_ & Hn & Hl & _). unfold chunkIForwardTSN_marshal, chunkIForwardTSN_check.
    rewrite !Hn. replace (maxIForwardTSNStreams <? zlen istreams) with false
      by (symmetry; by apply Z.ltb_ge). by eexists.
Qed.

(** INIT and INIT ACK: the body after the header checks. *)
Lemma init_body_roundtrip i :
  init_ok i -> exists i', zlen (chunkInitCommon_marshal i) <? initChunkMinLength = false
    /\ chunkInitCommon_unmarshal (chunkInitCommon_marshal i) = Ok i' /\ erase_init i' = erase_init i.
Proof.
  intros Hi. destruct (initCommon_roundtrip i Hi) as (i' & ? & ?). exists i'. split; [|done].
  apply Z.ltb_ge. apply zlen_initCommon_ge.
Qed.

(** ABORT and ERROR: the causes, read from the whole chunk. *)
Lemma causes_body_roundtrip e cs h rest :
  Forall cause_ok cs -> zlen rest < 4 -> ch_raw h = concat (map cause_bytes cs) ->
  exists cs', error_causes (S (length (chunkHeader_marshal h ++ rest))) e
                (chunkHeader_marshal h ++ rest) chunkHeaderSize [] = Ok cs'
    /\ map erase_cause cs' = map erase_cause cs.
Proof.
  intros Hok Hrest Hraw.
  assert (Hall : chunkHeader_marshal h ++ rest =
    ([ch_typ h; ch_flags h] ++ put16 (u16 (zlen (ch_raw h) + chunkHeaderSize)))
    ++ concat (map cause_bytes cs) ++ rest).
  { unfold chunkHeader_marshal. rewrite Hraw. by rewrite <- !app_assoc. }
  destruct (error_causes_roundtrip e cs rest (S (length (chunkHeader_marshal h ++ rest)))
    ([ch_typ h; ch_flags h] ++ put16 (u16 (zlen (ch_raw h) + chunkHeaderSize))) [])
    as (cs' & Hl & He); [done|done| |lia|].
  { rewrite Hall, !length_app. unfold zlen. lia. }
  exists cs'. rewrite Hall. split; [|done].
  change (zlen ([ch_typ h; ch_flags h] ++ put16 (u16 (zlen (ch_raw h) + chunkHeaderSize))))
    with chunkHeaderSize in Hl. rewrite Hall in Hl. exact Hl.
Qed.

(** What decoding the encoding [h] of [b] gives. *)
Definition decodes (h : chunkHeader) (b : chunk_body) (rest : list Z) : Prop :=
  exists b', unmarshal_chunk (ch_typ h) (chunkHeader_marshal h ++ rest) = Ok (mkChunk h b')
    /\ erase b' = erase b.

Lemma init_decodes h0 i rest (ack : bool) :
  let h := fill h0 (if ack then ctInitAck else ctInit) (chunkInitCommon_marshal i) in
  chunkHeader_unmarshal (chunkHeader_marshal h ++ rest) = Ok h -> ch_flags h0 = 0 -> init_ok i ->
  decodes h (if ack then chunkInitAck i else chunkInit i) rest.
Proof.
  intros h Hh H0 Hi. destruct (init_body_roundtrip i Hi) as (i' & Hlen & Hu & He).
  exists (if ack then chunkInitAck i' else chunkInit i').
  split; [|destruct ack; simpl; by rewrite He]. subst h. unfold fill in *. destruct ack.
  - change (unmarshal_chunk _ ?r) with (chunkInitAck_unmarshal r). unfold chunkInitAck_unmarshal.
    rewrite Hh. res_cbn. cbn [ch_typ ch_raw ch_flags]. by rewrite Hlen, H0, Hu.
  - change (unmarshal_chunk _ ?r) with (chunkInit_unmarshal r). unfold chunkInit_unmarshal.
    rewrite Hh. res_cbn. cbn [ch_typ ch_raw ch_flags]. by rewrite Hlen, H0, Hu.
Qed.

Lemma causes_decodes cs rest (abort : bool) :
  let h := mkChunkHeader (if abort then ctAbort else ctError) 0 (concat (map cause_bytes cs)) in
  chunkHeader_unmarshal (chunkHeader_marshal h ++ rest) = Ok h -> Forall cause_ok cs -> zlen rest < 4 ->
  decodes h (if abort then chunkAbort cs else chunkError cs) rest.
Proof.
  intros h Hh Hok Hrest.
  destruct (causes_body_roundtrip (if abort then ErrBuildAbortChunkFailed else ErrBuildErrorChunkFailed)
    cs h rest Hok Hrest eq_refl) as (cs' & Hc & He).
  exists (if abort then chunkAbort cs' else chunkError cs').
  split; [|destruct abort; simpl; by rewrite He].
  destruct abort.
  - change (unmarshal_chunk _ ?r) with (chunkAbort_unmarshal r). unfold chunkAbort_unmarshal.
    rewrite Hh. res_cbn. by rewrite Hc.
  - change (unmarshal_chunk _ ?r) with (chunkError_unmarshal r). unfold chunkError_unmarshal.
    rewrite Hh. res_cbn. by rewrite Hc.
Qed.

Lemma data_decodes h0 d rest :
  let h := chunkPayloadData_marshal h0 d in
  chunkHeader_unmarshal (chunkHeader_marshal h ++ rest) = Ok h -> data_ok h0 d ->
  decodes h (chunkPayloadData d) rest.
Proof.
  intros h Hh Hok. exists (chunkPayloadData d). split; [|done].
  rewrite <- (data_roundtrip (chunkHeader_marshal h ++ rest) h Hh h0 d Hok eq_refl). subst h.
  unfold chunkPayloadData_marshal. by destruct (isIData h0 d).
Qed.

Lemma chunk_decodes c h rest :
  chunk_ok c -> tail_ok rest -> (closes_packet (k_body c) = true -> zlen rest < 4) ->
  chunk_filled c = Ok h -> decodes h (k_body c) rest.
Proof.
  intros [Hb Hl] Ht Hcl Hf. destruct (Hl h Hf) as [Hl' _]. clear Hl. rename Hl' into Hl.
  pose proof (chunkHeader_roundtrip h rest Hl Ht) as Hh.
  destruct c as [h0 b]. unfold chunk_filled in Hf. cbn [k_body k_hdr] in *.
  destruct b; cbn [body_ok closes_packet] in *; try specialize (Hcl eq_refl).
  - apply Ok_inj in Hf. subst h. destruct Hb. by apply (init_decodes h0 i rest false).
  - apply Ok_inj in Hf. subst h. destruct Hb. by apply (init_decodes h0 i rest true).
  - unfold chunkAbort_marshal in Hf. rewrite causes_marshal_ok in Hf by done. apply Ok_inj in Hf.
    subst h. by apply (causes_decodes errorCauses rest true).
  - unfold chunkError_marshal in Hf. rewrite causes_marshal_ok in Hf by done. apply Ok_inj in Hf.
    subst h. by apply (causes_decodes errorCauses rest false).
  - apply Ok_inj in Hf. subst h. eexists. split; [|done].
    change (unmarshal_chunk _ ?r) with (chunkCookieEcho_unmarshal r).
    unfold chunkCookieEcho_unmarshal. by rewrite Hh.
  - apply Ok_inj in Hf. subst h. eexists. split; [|done].
    change (unmarshal_chunk _ ?r) with (chunkCookieAck_unmarshal r).
    unfold chunkCookieAck_unmarshal. by rewrite Hh.
  - apply Ok_inj in Hf. subst h. destruct Hb as (Ht0 & -> & Hr). eexists. split; [|done].
    rewrite Ht0. change (unmarshal_chunk _ ?r) with (chunkHeartbeat_unmarshal r).
    unfold chunkHeartbeat_unmarshal. rewrite Hh. res_cbn. by rewrite Ht0, Hr.
  - done.
  - apply Ok_inj in Hf. subst h. by apply data_decodes.
  - apply Ok_inj in Hf. eexists. split; [|reflexivity].
    rewrite <- (sack_roundtrip _ h Hh h0 _ _ _ _ Hb (eq_sym Hf) Hl). by subst h.
  - destruct (reconfig_roundtrip _ h Hh h0 _ _ Hb Hf) as (a' & b' & Hu & He).
    eexists. split; [|exact He]. rewrite <- Hu.
    destruct Hb as [(p & -> & _) _]. apply Ok_inj in Hf. by subst h.
  - apply Ok_inj in Hf. eexists. split; [|reflexivity].
    rewrite <- (forward_roundtrip _ h Hh h0 _ _ Hb (eq_sym Hf)). by subst h.
  - eexists. split; [|reflexivity]. rewrite <- (iforward_roundtrip _ h Hh h0 _ _ Hb Hf).
    destruct Hb as (_ & Hn & Hm & _). unfold chunkIForwardTSN_marshal, chunkIForwardTSN_check in Hf.
    rewrite !Hn in Hf. destruct (maxIForwardTSNStreams <? zlen istreams); [done|].
    apply Ok_inj in Hf. by subst h.
  - apply Ok_inj in Hf. subst h. eexists. split; [|reflexivity].
    change (unmarshal_chunk _ ?r) with (chunkShutdown_unmarshal r).
    unfold chunkShutdown_unmarshal. rewrite Hh. res_cbn.
    unfold chunkShutdown_marshal, fill. cbn [ch_typ ch_raw].
    change (negb (ctShutdown =? ctShutdown)) with false. cbn beta iota.
    change (negb (zlen (put32 cumulativeTSNAck) =? cumulativeTSNAckLength)) with false. cbn beta iota.
    rewrite slice_from_0. res_cbn. rewrite <- (app_nil_r (put32 cumulativeTSNAck)) at 1.
    by rewrite be32_put32.
  - apply Ok_inj in Hf. subst h. eexists. split; [|done].
    change (unmarshal_chunk _ ?r) with (chunkShutdownAck_unmarshal r).
    unfold chunkShutdownAck_unmarshal. by rewrite Hh.
  - apply Ok_inj in Hf. subst h. eexists. split; [|done].
    change (unmarshal_chunk _ ?r) with (chunkShutdownComplete_unmarshal r).
    unfold chunkShutdownComplete_unmarshal. by rewrite Hh.
Qed.

(** ** Packets *)

(** The bytes of a chunk in a packet. *)
Definition chunk_bytes (c : chunk) : list Z :=
  match chunk_filled c with
  | Ok h => chunkHeader_marshal h ++ replicate (Z.to_nat (getPadding (zlen (ch_raw h)))) 0
  | _ => []
  end.

(** Nothing follows an ABORT or an ERROR. *)
Fixpoint order_ok (cs : list chunk) : Prop :=
  match cs with
  | [] | [_] => True
  | c :: cs' => closes_packet (k_body c) = false /\ order_ok cs'
  end.

Definition packet_ok (p : packet) : Prop :=
  in_u 16 (sourcePort p) /\ in_u 16 (destinationPort p) /\ in_u 32 (verificationTag p)
  /\ Forall chunk_ok (chunks p) /\ order_ok (chunks p).

Definition same_content (p p' : packet) : Prop :=
  sourcePort p' = sourcePort p /\ destinationPort p' = destinationPort p
  /\ verificationTag p' = verificationTag p
  /\ map (fun c => erase (k_body c)) (chunks p') = map (fun c => erase (k_body c)) (chunks p).

Lemma getPadding_mod n m : 0 <= n -> 0 <= m -> n mod 4 = m mod 4 -> getPadding n = getPadding m.
Proof.
  intros Hn Hm H. unfold getPadding, paddingMultiple.
  rewrite (Z.rem_mod_nonneg n), (Z.rem_mod_nonneg m), H by lia. done.
Qed.

Lemma getPadding_sum n : 0 <= n -> (n + getPadding n) mod 4 = 0.
Proof. intros H. unfold getPadding, paddingMultiple. Z.to_euclidean_division_equations. lia. Qed.

Lemma zlen_chunk_bytes c h :
  chunk_filled c = Ok h -> zlen (chunk_bytes c) = 4 + zlen (ch_raw h) + getPadding (zlen (ch_raw h)).
Proof.
  intros Hf. unfold chunk_bytes. rewrite Hf, zlen_app, zlen_chunkHeader_marshal.
  pose proof (getPadding_range (zlen (ch_raw h)) (zlen_nonneg _)). rewrite zlen_replicate; lia.
Qed.

Lemma marshal_chunks_ok cs : forall raw,
  Forall chunk_ok cs -> zlen raw mod 4 = 0 ->
  marshal_chunks raw cs = Ok (raw ++ concat (map chunk_bytes cs)).
Proof.
  induction cs as [|c cs IH]; intros raw Hok Hm; [simpl; by rewrite app_nil_r|].
  apply Forall_cons in Hok as [Hc Hok]. destruct (chunk_filled_ok c Hc) as [h Hf].
  cbn [marshal_chunks map concat]. unfold chunk_marshal. rewrite Hf. res_cbn.
  pose proof (zlen_nonneg (ch_raw h)) as Hr. pose proof (zlen_nonneg raw) as Hr'.
  assert (Hp : getPadding (zlen (raw ++ chunkHeader_marshal h)) = getPadding (zlen (ch_raw h))).
  { rewrite zlen_app, zlen_chunkHeader_marshal. apply getPadding_mod; try lia.
    Z.to_euclidean_division_equations. lia. }
  assert (Hnext : (if negb (getPadding (zlen (raw ++ chunkHeader_marshal h)) =? 0)
    then (raw ++ chunkHeader_marshal h)
         ++ replicate (Z.to_nat (getPadding (zlen (raw ++ chunkHeader_marshal h)))) 0
    else raw ++ chunkHeader_marshal h) = raw ++ chunk_bytes c).
  { unfold chunk_bytes. rewrite Hf, Hp. destruct (getPadding _ =? 0) eqn:E; cbn [negb].
    - apply Z.eqb_eq in E. rewrite E. change (replicate _ 0) with (@nil Z). by rewrite app_nil_r.
    - by rewrite app_assoc. }
  cbn zeta. rewrite Hnext, IH; [by rewrite <- app_assoc|done|].
  rewrite zlen_app, (zlen_chunk_bytes c h Hf).
  pose proof (getPadding_sum (zlen (ch_raw h)) Hr). Z.to_euclidean_division_equations. lia.
Qed.

Lemma concat_chunk_bytes_tail c cs h :
  chunk_filled c = Ok h -> Forall chunk_ok cs -> order_ok (c :: cs) ->
  let rest := replicate (Z.to_nat (getPadding (zlen (ch_raw h)))) 0 ++ concat (map chunk_bytes cs) in
  tail_ok rest /\ (closes_packet (k_body c) = true -> zlen rest < 4).
Proof.
  intros Hf Hok Ho rest. pose proof (getPadding_range (zlen (ch_raw h)) (zlen_nonneg _)) as Hp.
  destruct cs as [|c' cs].
  - subst rest. simpl. rewrite app_nil_r. split; [|intros _; rewrite zlen_replicate; lia].
    intros _. by apply Forall_replicate.
  - apply Forall_cons in Hok as [Hc' _]. destruct (chunk_filled_ok c' Hc') as [h' Hf'].
    destruct Ho as [Hcl _]. split; [|congruence]. intros Hlt. exfalso. subst rest.
    cbn [map concat] in Hlt. rewrite !zlen_app, (zlen_chunk_bytes c' h' Hf'), zlen_replicate in Hlt by lia.
    pose proof (zlen_nonneg (ch_raw h')). pose proof (zlen_nonneg (concat (map chunk_bytes cs))).
    pose proof (getPadding_range (zlen (ch_raw h')) (zlen_nonneg _)). lia.
Qed.

Lemma index_0_chunk h rest : index 0 (chunkHeader_marshal h ++ rest) = Ok (ch_typ h).
Proof. done. Qed.

Lemma unmarshal_chunks_ok cs : forall fuel pre,
  Forall chunk_ok cs -> order_ok cs -> zlen (concat (map chunk_bytes cs)) < Z.of_nat fuel ->
  exists cs', unmarshal_chunks fuel (pre ++ concat (map chunk_bytes cs)) (zlen pre) = Ok cs'
    /\ map (fun c => erase (k_body c)) cs' = map (fun c => erase (k_body c)) cs.
Proof.
  induction cs as [|c cs IH]; intros fuel pre Hok Ho Hf.
  - exists []. split; [|done]. destruct fuel; [unfold zlen in Hf; simpl in Hf; lia|]. simpl.
    rewrite app_nil_r, Z.ltb_irrefl, Z.eqb_refl. done.
  - apply Forall_cons in Hok as [Hc Hok]. destruct (chunk_filled_ok c Hc) as [h Hfill].
    destruct (concat_chunk_bytes_tail c cs h Hfill Hok Ho) as [Ht Hcl].
    set (rest := replicate (Z.to_nat (getPadding (zlen (ch_raw h)))) 0 ++ concat (map chunk_bytes cs)) in *.
    destruct (chunk_decodes c h rest Hc Ht Hcl Hfill) as (b' & Hu & He).
    assert (Hall : concat (map chunk_bytes (c :: cs)) = chunkHeader_marshal h ++ rest).
    { cbn [map concat]. unfold chunk_bytes at 1. rewrite Hfill. subst rest. by rewrite <- app_assoc. }
    pose proof (zlen_chunk_bytes c h Hfill) as Hz. pose proof (zlen_nonneg (ch_raw h)) as Hr.
    pose proof (getPadding_range (zlen (ch_raw h)) Hr) as Hp.
    cbn [map concat] in Hf. rewrite zlen_app, Hz in Hf.
    pose proof (zlen_nonneg (concat (map chunk_bytes cs))).
    destruct fuel as [|fuel]; [lia|].
    destruct (IH fuel (pre ++ chunk_bytes c)) as (cs' & Hu' & He'); [done| |lia|].
    { destruct cs; [done|apply Ho]. }
    exists (mkChunk h b' :: cs'). split; [|simpl; by rewrite He, He'].
    cbn [unmarshal_chunks].
    assert (Hlen : zlen (chunkHeader_marshal h ++ rest) = zlen (chunk_bytes c) + zlen (concat (map chunk_bytes cs)))
      by (rewrite <- Hall; cbn [map concat]; by rewrite zlen_app).
    replace (zlen pre <? zlen (pre ++ concat (map chunk_bytes (c :: cs)))) with true
      by (symmetry; apply Z.ltb_lt; rewrite Hall, zlen_app, Hlen, Hz; lia).
    rewrite Hall, (slice_from_app (zlen pre)) by done. res_cbn.
    unfold chunkHeaderSize. rewrite Hlen, Hz.
    match goal with |- context [?x <? 4] => replace (x <? 4) with false by (symmetry; apply Z.ltb_ge; lia) end.
    rewrite index_0_chunk. res_cbn. rewrite Hu. res_cbn.
    unfold chunk_valueLength, valueLength. cbn [k_hdr].
    rewrite zlen_app, Hz, <- app_assoc in Hu'. rewrite <- Hall. cbn [map concat]. by rewrite Hu'.
Qed.

(** ** Checksum *)

Lemma lxor_u32 a b : in_u 32 a -> in_u 32 b -> in_u 32 (Z.lxor a b).
Proof.
  unfold in_u. intros Ha Hb.
  assert (H0 : 0 <= Z.lxor a b) by (apply Z.lxor_nonneg; lia).
  split; [done|].
  assert (Hs : Z.shiftr (Z.lxor a b) 32 = 0).
  { rewrite Z.shiftr_lxor. rewrite !Z.shiftr_div_pow2 by lia.
    rewrite (Z.div_small a), (Z.div_small b) by lia. done. }
  rewrite Z.shiftr_div_pow2 in Hs by lia. apply Z.div_small_iff in Hs; lia.
Qed.

Lemma crc_bit_u32 c : in_u 32 c -> in_u 32 (crc_bit c).
Proof.
  intros H. assert (Hs : in_u 32 (Z.shiftr c 1)).
  { rewrite Z.shiftr_div_pow2 by lia. go_lia. }
  unfold crc_bit. case_match; [|done]. apply lxor_u32; [done|]. unfold in_u, castagnoli. lia.
Qed.

Lemma crc_byte_u32 c b : in_u 32 c -> is_byte b -> in_u 32 (crc_byte c b).
Proof.
  intros Hc Hb. unfold crc_byte.
  assert (H : in_u 32 (Z.lxor c b)) by (apply lxor_u32; [done|unfold is_byte, in_u in *; lia]).
  generalize (Z.lxor c b), H, 8%nat. clear. intros x Hx n.
  induction n as [|n IH]; [done|]. simpl. by apply crc_bit_u32.
Qed.

Lemma crc32_Update_u32 crc p : in_u 32 crc -> bytes p -> in_u 32 (crc32_Update crc p).
Proof.
  intros Hc Hp. unfold crc32_Update. apply lxor_u32; [|unfold in_u, ones32; lia].
  assert (H : in_u 32 (Z.lxor crc ones32)) by (apply lxor_u32; [done|unfold in_u, ones32; lia]).
  revert H. generalize (Z.lxor crc ones32).
  induction Hp as [|b p Hb _ IH]; intros x Hx; [done|]. simpl. by apply IH, crc_byte_u32.
Qed.

(** The checksum does not depend on the four checksum bytes. *)
Lemma checksum_indep (front sum sum' back : list Z) :
  zlen front = 8 -> zlen sum = 4 -> zlen sum' = 4 ->
  generatePacketChecksum (front ++ sum ++ back) = generatePacketChecksum (front ++ sum' ++ back).
Proof.
  intros Hf Hs Hs'. unfold generatePacketChecksum.
  rewrite !(slice_ok 0 8) by (rewrite ?zlen_app; pose proof (zlen_nonneg back); lia).
  rewrite !(app_assoc front), !(slice_from_app 12) by (rewrite zlen_app; lia).
  rewrite <- !app_assoc. change (Z.to_nat (8 - 0)) with 8%nat. change (Z.to_nat 0) with 0%nat.
  rewrite !drop_0, !take_app_length' by (unfold zlen in Hf; lia). done.
Qed.

Lemma checksum_ok (front sum back : list Z) :
  zlen front = 8 -> zlen sum = 4 -> bytes front -> bytes back ->
  exists c, generatePacketChecksum (front ++ sum ++ back) = Ok c /\ in_u 32 c.
Proof.
  intros Hf Hs Hbf Hbb. unfold generatePacketChecksum. pose proof (zlen_nonneg back).
  assert (Hs0 : slice 0 8 (front ++ sum ++ back) = Ok front) by (by apply (slice_mid 0 8 [])).
  rewrite Hs0.
  rewrite app_assoc, (slice_from_app 12) by (rewrite zlen_app; lia). res_cbn.
  eexists. split; [reflexivity|]. apply crc32_Update_u32; [|done].
  apply crc32_Update_u32; [|repeat constructor; unfold is_byte; lia].
  apply crc32_Update_u32; [unfold in_u; lia|done].
Qed.

Lemma chunks_bytes cs : Forall chunk_ok cs -> bytes (concat (map chunk_bytes cs)).
Proof.
  induction 1 as [|c cs Hc _ IH]; [constructor|]. cbn [map concat]. apply Forall_app. split; [|done].
  destruct (chunk_filled_ok c Hc) as [h Hf]. unfold chunk_bytes. rewrite Hf.
  destruct Hc as [_ Hc]. destruct (Hc h Hf) as [_ Hb]. apply Forall_app. split; [done|].
  apply Forall_replicate. unfold is_byte. lia.
Qed.

(** The first chunk does not call for a checksum. *)
Definition checksum_free (p : packet) : Prop :=
  forall c h, head (chunks p) = Some c -> chunk_filled c = Ok h -> ch_typ h <> ctInit /\ ch_typ h <> ctCookieEcho.

(** Decoding what [packet_marshal] lays out, with a checksum field that the
    receiver accepts. *)
Lemma unmarshal_laid_out p recv sum :
  packet_ok p -> let body := concat (map chunk_bytes (chunks p)) in
  let front := put16 (sourcePort p) ++ put16 (destinationPort p) ++ put32 (verificationTag p) in
  in_u 32 sum -> generatePacketChecksum (front ++ put32le sum ++ body) = Ok sum \/ (sum = 0 /\ recv = false /\ checksum_free p) ->
  exists p', packet_unmarshal recv (front ++ put32le sum ++ body) = Ok p' /\ same_content p p'.
Proof.
  intros (H1 & H2 & H3 & Hok & Ho) body front Hr Hsum.
  assert (Hfront : zlen front = 8) by done. assert (Hn := zlen_nonneg body).
  destruct (unmarshal_chunks_ok (chunks p) (S (length (front ++ put32le sum ++ body)))
    (front ++ put32le sum)) as (cs' & Hu & He); [done|done| |].
  { fold body. rewrite !length_app. unfold zlen. lia. }
  fold body in Hu. rewrite <- app_assoc in Hu.
  exists (mkPacket (sourcePort p) (destinationPort p) (verificationTag p) cs'). split; [|done].
  unfold packet_unmarshal, packetHeaderSize, chunkHeaderSize.
  assert (Hlen : zlen (front ++ put32le sum ++ body) = 12 + zlen body)
    by (rewrite !zlen_app, Hfront; change (zlen (put32le sum)) with 4; lia).
  rewrite Hlen. replace (12 + zlen body <? 12) with false by (symmetry; apply Z.ltb_ge; lia).
  assert (Hck : exists ck, (if 12 + 4 <=? 12 + zlen body then
      t ← index 12 (front ++ put32le sum ++ body);
      mret (if (t =? ctInit) || (t =? ctCookieEcho) then true else recv)
      else mret recv) = Ok ck /\ (generatePacketChecksum (front ++ put32le sum ++ body) = Ok sum \/ (sum = 0 /\ ck = false))).
  { case_match eqn:E; [|exists recv; split; [done|]; destruct Hsum as [?|(? & ? & _)]; auto]. go_bool.
    destruct (index_ok 12 (front ++ put32le sum ++ body)) as [t Ht]; [lia|]. rewrite Ht. res_cbn. eexists. split; [done|].
    destruct Hsum as [?|(-> & -> & Hfree)]; [by left|]. right. split; [done|].
    subst body. destruct (chunks p) as [|c cs] eqn:Ec; [by destruct E|]. apply Forall_cons in Hok as [Hc _].
    destruct (chunk_filled_ok c Hc) as [h Hf]. destruct (Hfree c h) as [Hi Hk]; [by rewrite Ec|done|].
    cbn [map concat] in Ht. unfold chunk_bytes at 1 in Ht. rewrite Hf in Ht. cbn in Ht. injection Ht as <-.
    apply Z.eqb_neq in Hi, Hk. by rewrite Hi, Hk. }
  destruct Hck as (ck & -> & Hck). res_cbn.
  rewrite (slice_from_app 8 front) by done. res_cbn. rewrite le32_put32le by done. res_cbn.
  assert (Hg : (if negb (sum =? 0) || ck then
    ourChecksum ← generatePacketChecksum (front ++ put32le sum ++ body);
    guard_err (sum =? ourChecksum) ErrChecksumMismatch else Ok tt) = Ok tt).
  { destruct Hck as [->|[-> ->]]; [|done]. case_match; [|done]. res_cbn. by rewrite Z.eqb_refl. }
  rewrite Hg. res_cbn.
  change (zlen (front ++ put32le sum)) with 12 in Hu. rewrite Hu.
  subst front. rewrite <- !app_assoc. rewrite slice_from_0. res_cbn. rewrite be16_put16 by done. res_cbn.
  rewrite (slice_from_app 2) by done. res_cbn. rewrite be16_put16 by done. res_cbn.
  rewrite app_assoc, (slice_from_app 4) by done. res_cbn. rewrite be32_put32 by done. done.
Qed.

(** From a sender that checksums, or leaves it out for a receiver that allows it. *)
Lemma packet_exchange p send recv :
  packet_ok p -> send = true \/ (recv = false /\ checksum_free p) ->
  exists raw p', packet_marshal p send = Ok raw /\ zlen raw = 12 + zlen (concat (map chunk_bytes (chunks p)))
    /\ packet_unmarshal recv raw = Ok p' /\ same_content p p'.
Proof.
  intros Hp Hs. pose proof Hp as (H1 & H2 & H3 & Hok & Ho). set (body := concat (map chunk_bytes (chunks p))).
  set (front := put16 (sourcePort p) ++ put16 (destinationPort p) ++ put32 (verificationTag p)).
  assert (Hm : marshal_chunks (put16 (sourcePort p) ++ put16 (destinationPort p)
    ++ put32 (verificationTag p) ++ [0; 0; 0; 0]) (chunks p) = Ok (front ++ [0; 0; 0; 0] ++ body)).
  { rewrite marshal_chunks_ok; [|done|done]. subst front. by rewrite <- !app_assoc. }
  assert (Hlen : forall sum, zlen (front ++ put32le sum ++ body) = 12 + zlen body).
  { intros sum. rewrite !zlen_app. change (zlen front) with 8. change (zlen (put32le sum)) with 4. lia. }
  unfold packet_marshal. cbn zeta. rewrite Hm. res_cbn. destruct send.
  - destruct (checksum_ok front [0; 0; 0; 0] body) as (sum & Hsum & Hr); [done|done| |by apply chunks_bytes|].
    { repeat (apply Forall_app; split); auto with go. }
    destruct (unmarshal_laid_out p recv sum Hp Hr) as (p' & E & Hsame).
    { left. by rewrite (checksum_indep front _ [0; 0; 0; 0]). }
    rewrite Hsum. exists (front ++ put32le sum ++ body), p'. auto.
  - destruct Hs as [?|[-> Hfree]]; [done|].
    destruct (unmarshal_laid_out p false 0 Hp ltac:(split; [lia|done])) as (p' & E & Hsame); [by right|].
    exists (front ++ put32le 0 ++ body), p'. auto.
Qed.

(** C4. Encoding and decoding are inverse: every well-formed packet encodes
    without error, and decoding the result, whether or not the receiver insists
    on a checksum, accepts it and gives a packet of the same content.  Well-formed
    means: values within their Go types and their length fields, nothing after
    an ABORT or ERROR chunk, and no value-less parameter at the end of an INIT. *)
Theorem packet_roundtrip p doChecksum :
  packet_ok p -> exists raw p',
    packet_marshal p true = Ok raw /\ packet_unmarshal doChecksum raw = Ok p' /\ same_content p p'.
Proof.
  intros Hp. destruct (packet_exchange p true doChecksum Hp) as (raw & p' & ? & _ & ? & ?); [by left|]. by exists raw, p'.
Qed.

(** ** Examples *)

Definition noHeader : chunkHeader := mkChunkHeader 0 0 [].

(** A SACK with one gap, and a one-fragment DATA chunk of three bytes. *)
Definition ex_sack : chunk := mkChunk noHeader (chunkSelectiveAck 7 65536 [mkGap 2 3] [5]).

Definition ex_data : chunk :=
  mkChunk noHeader
    (chunkPayloadData (mkPayload false true true false 11 1 4 0 0 51 [104; 105; 33] false)).

Definition ex_packet : packet := mkPacket 5000 5001 3735928559 [ex_sack; ex_data].

(** [bytes_dec] decides whether a closed list is made of bytes. *)
Lemma bytes_dec l : forallb (fun b => (0 <=? b) && (b <? 256)) l = true -> bytes l.
Proof.
  intros H. apply Forall_forall. intros b Hb. rewrite forallb_forall in H.
  specialize (H b (proj1 (list_elem_of_In _ _) Hb)). go_bool. unfold is_byte. lia.
Qed.

Lemma ex_packet_ok : packet_ok ex_packet.
Proof.
  refine (conj _ (conj _ (conj _ (conj _ _)))); try (unfold in_u; simpl; lia).
  assert (Hfit : forall c h, chunk_filled c = Ok h ->
    (zlen (chunkHeader_marshal h) <? 2 ^ 16)
    && forallb (fun b => (0 <=? b) && (b <? 256)) (chunkHeader_marshal h) = true ->
    chunkHeaderSize + zlen (ch_raw h) < 2 ^ 16 /\ bytes (chunkHeader_marshal h)).
  { intros c h _ H. apply andb_prop in H as [H1 H2]. apply Z.ltb_lt in H1.
    rewrite zlen_chunkHeader_marshal in H1. split; [exact H1|by apply bytes_dec]. }
  repeat (apply Forall_cons; split); [..|constructor]; (split; [cbn|intros h Hf; apply (Hfit _ _ Hf)]).
  - split_and!; try (repeat constructor; unfold in_u; simpl; lia).
  - apply Ok_inj in Hf. subst h. vm_compute. reflexivity.
  - unfold data_ok, in_u. cbn. split_and!; done || lia.
  - apply Ok_inj in Hf. subst h. vm_compute. reflexivity.
Qed.

Lemma packet_roundtrip_witness :
  packet_ok ex_packet /\ exists raw p',
    packet_marshal ex_packet true = Ok raw /\ packet_unmarshal true raw = Ok p'
    /\ same_content ex_packet p'.
Proof. split; [exact ex_packet_ok|]. exact (packet_roundtrip ex_packet true ex_packet_ok). Defined.

(** ** Where the round trip fails *)

(** The heartbeat [sendActiveHeartbeatLocked] queues, and the answer
    [handleHeartbeat] builds. *)
Definition active_heartbeat (info : list Z) : chunk :=
  mkChunk (mkChunkHeader ctHeartbeat 0 []) (chunkHeartbeat [mkParam zeroParamHeader (paramHeartbeatInfo info)]).

Definition heartbeat_answer (info : list Z) : chunk :=
  mkChunk noHeader (chunkHeartbeatAck [mkParam zeroParamHeader (paramHeartbeatInfo info)]).

(** A HEARTBEAT is sent without its information and its answer cannot be
    received.  [chunkHeartbeat] has an exported [Marshal] but no [marshal], so
    the packet encoder calls the header's: whatever the Heartbeat Info, the
    queued heartbeat is encoded as four bytes, and decodes to a heartbeat
    without parameters, although [Marshal] would have included it.  And a
    HEARTBEAT ACK, which the encoder accepts, is refused by the decoder as an
    unknown chunk type, whatever it carries. *)
Theorem heartbeat_info_lost info rest :
  chunk_marshal (active_heartbeat info) = Ok [4; 0; 0; 4]
  /\ chunkHeartbeat_Marshal (mkChunkHeader ctHeartbeat 0 []) [mkParam zeroParamHeader (paramHeartbeatInfo info)]
     = Ok ([4; 0] ++ put16 (u16 (zlen info + 8)) ++ put16 1 ++ put16 (u16 (4 + zlen info)) ++ info)
  /\ (exists raw, chunk_marshal (heartbeat_answer info) = Ok raw
        /\ unmarshal_chunk ctHeartbeatAck (raw ++ rest) = Err ErrUnmarshalUnknownChunkType).
Proof.
  split_and!; [done| |eexists; split; reflexivity].
  unfold chunkHeartbeat_Marshal. cbn [p_body]. f_equal.
  unfold chunkHeader_marshal. cbn [ch_typ ch_flags ch_raw]. do 2 f_equal.
  unfold chunkHeaderSize, param_marshal, param_filled. cbn [p_body p_hdr].
  rewrite zlen_paramHeader_marshal. unfold paramHeartbeatInfo_marshal, filled. cbn [ph_raw].
  replace (4 + zlen info + 4) with (zlen info + 8) by lia. done.
Qed.

(** An INIT whose last parameter has no value (Forward-TSN-Supported). *)
Definition ex_init : chunkInitCommon :=
  mkInitCommon 1 65536 10 10 100
    [mkParam zeroParamHeader (paramSupportedExtensions [130; 192]);
     mkParam zeroParamHeader paramForwardTSNSupported] [].

(** The condition on the last parameter of an INIT is needed: an INIT that
    ends with a value-less parameter such as Forward-TSN-Supported is decoded
    without it, and without an error, because the loop stops when no more than
    four bytes are left. *)
Theorem init_last_empty_param_lost :
  exists i', chunkInitCommon_unmarshal (chunkInitCommon_marshal ex_init) = Ok i'
    /\ map p_body (params ex_init) = [paramSupportedExtensions [130; 192]; paramForwardTSNSupported]
    /\ map p_body (params i') = [paramSupportedExtensions [130; 192]]
    /\ unrecognizedParams i' = [].
Proof. eexists. split; [vm_compute; reflexivity|]. by split_and!. Qed.

(** An ERROR bundled before a COOKIE ECHO. *)
Definition ex_error : chunk :=
  mkChunk noHeader (chunkError [mkCause (mkCauseHeader 0 0 []) (errorCauseUnrecognizedChunkType [1; 2; 3; 4])]).

Definition ex_cookie : chunk := mkChunk noHeader (chunkCookieEcho [9; 9; 9; 9]).

(** The condition on ABORT and ERROR is needed: a packet that bundles an
    ERROR with a later chunk, both well-formed, is encoded, and refused by the
    decoder, which reads error causes up to the end of the packet and not of
    the chunk; the same two chunks in the other order are accepted. *)
Theorem error_chunk_overruns :
  chunk_ok ex_error /\ chunk_ok ex_cookie
  /\ (raw ← packet_marshal (mkPacket 1 2 3 [ex_error; ex_cookie]) true; packet_unmarshal true raw)
     = Err ErrBuildErrorChunkFailed
  /\ (exists p, (raw ← packet_marshal (mkPacket 1 2 3 [ex_cookie; ex_error]) true;
                 packet_unmarshal true raw) = Ok p).
Proof.
  split_and!.
  - split; [|intros h Hf; apply Ok_inj in Hf; subst h; split;
      [apply Z.ltb_lt; vm_compute; reflexivity|apply bytes_dec; vm_compute; reflexivity]].
    repeat constructor.
  - split; [done|]. intros h Hf; apply Ok_inj in Hf; subst h; split;
      [apply Z.ltb_lt; vm_compute; reflexivity|apply bytes_dec; vm_compute; reflexivity].
  - vm_compute. reflexivity.
  - eexists. vm_compute. reflexivity.
Qed.
