(* ===== verification/RingQueue.v ===== *)
(** * Ring buffer queue (src/go/pion-sctp-patched/queue.go)

    A growable circular buffer.  [QueueImpl] and [QueueLaws] state what its
    clients rely on, a first-in first-out list; the ring buffer is shown to
    provide it. *)

From S2P Require Import Prelude.

Local Open Scope Z_scope.

(** ** The interface *)

Class QueueImpl (T Q : Type) := {
  q_new : Z -> Q;
  q_Len : Q -> Z;
  q_PushBack : Q -> T -> option Q;
  q_PopFront : Q -> option (T * Q);
  q_Front : Q -> option T;
  q_Back : Q -> option T;
  q_At : Q -> Z -> option T
}.

(** [None] is an index out of range.  [q_elems] is the list the queue stands
    for, [q_valid] the states its operations reach. *)
Class QueueLaws (T Q : Type) `{QueueImpl T Q} := {
  q_valid : Q -> Prop;
  q_elems : Q -> list T;
  new_law : forall c, q_valid (q_new c) /\ q_elems (q_new c) = [];
  Len_law : forall q, q_valid q -> q_Len q = Z.of_nat (length (q_elems q));
  PushBack_law : forall q x, q_valid q ->
    exists q', q_PushBack q x = Some q' /\ q_valid q' /\ q_elems q' = q_elems q ++ [x];
  PopFront_law : forall q x l, q_valid q -> q_elems q = x :: l ->
    exists q', q_PopFront q = Some (x, q') /\ q_valid q' /\ q_elems q' = l;
  Front_law : forall q x l, q_valid q -> q_elems q = x :: l -> q_Front q = Some x;
  Back_law : forall q x l, q_valid q -> q_elems q = l ++ [x] -> q_Back q = Some x;
  At_law : forall q i x, q_valid q -> q_elems q !! i = Some x -> q_At q (Z.of_nat i) = Some x
}.

(** ** The ring buffer *)

Section Ring.
Context {T : Type} (zeroVal : T).

Record queue := mkQueue {
  buf : list T;
  head : nat;
  tail : nat;
  count : Z
}.

Definition minCap : Z := 16.

(** [for queueCap < capacity { queueCap <<= 1 }] *)
Fixpoint growCap (fuel : nat) (queueCap capacity : Z) : Z :=
  match fuel with
  | O => queueCap
  | S fuel' => if queueCap <? capacity then growCap fuel' (Z.shiftl queueCap 1) capacity else queueCap
  end.

Definition newQueue (capacity : Z) : queue :=
  mkQueue (replicate (Z.to_nat (growCap (Z.to_nat capacity) minCap capacity)) zeroVal) 0 0 0.

Definition Len (q : queue) : Z := count q.

(** [copy(dst, src)] into a buffer of zero values. *)
Definition copied (n : nat) (l : list T) : list T := take n l ++ replicate (n - length l) zeroVal.

Definition growIfFull (q : queue) : queue :=
  if count q <? Z.of_nat (length (buf q)) then q
  else
    let live := if (head q <? tail q)%nat
                then take (tail q - head q) (drop (head q) (buf q))
                else drop (head q) (buf q) ++ take (tail q) (buf q) in
    mkQueue (copied (Z.to_nat (Z.shiftl (count q) 1)) live) 0 (Z.to_nat (count q)) (count q).

(** [i % len(q.buf)]: a zero divisor panics. *)
Definition rem_len (i : nat) (l : list T) : option nat :=
  match l with [] => None | _ => Some (i mod length l)%nat end.

Definition PushBack (q : queue) (ele : T) : option queue :=
  let q := growIfFull q in
  match buf q !! tail q, rem_len (tail q + 1) (buf q) with
  | Some _, Some t => Some (mkQueue (<[tail q := ele]> (buf q)) (head q) t (count q + 1))
  | _, _ => None
  end.

Definition PopFront (q : queue) : option (T * queue) :=
  match buf q !! head q, rem_len (head q + 1) (buf q) with
  | Some ele, Some h => Some (ele, mkQueue (<[head q := zeroVal]> (buf q)) h (tail q) (count q - 1))
  | _, _ => None
  end.

Definition Front (q : queue) : option T := buf q !! head q.

Definition Back (q : queue) : option T :=
  i ← rem_len (tail q + length (buf q) - 1) (buf q); buf q !! i.

(** A negative remainder is an index out of range. *)
Definition At (q : queue) (i : Z) : option T :=
  if (length (buf q) =? 0)%nat then None
  else
    let j := Z.rem (Z.of_nat (head q) + i) (Z.of_nat (length (buf q))) in
    if j <? 0 then None else buf q !! Z.to_nat j.

(** ** The list it stands for *)

Record valid (q : queue) : Prop := {
  v_len : (0 < length (buf q))%nat;
  v_head : (head q < length (buf q))%nat;
  v_count : 0 <= count q <= Z.of_nat (length (buf q));
  v_tail : tail q = ((head q + Z.to_nat (count q)) mod length (buf q))%nat
}.

Definition elems (q : queue) : list T :=
  take (Z.to_nat (count q)) (drop (head q) (buf q) ++ take (head q) (buf q)).

Lemma length_elems q : valid q -> length (elems q) = Z.to_nat (count q).
Proof.
  intros [Hl Hh Hc Ht]. unfold elems. rewrite length_take, length_app, length_drop, length_take. lia.
Qed.

(** The [i]-th element is [i] places after the head, around the end. *)
Lemma lookup_elems q i :
  valid q -> (i < Z.to_nat (count q))%nat ->
  elems q !! i = buf q !! ((head q + i) mod length (buf q))%nat.
Proof.
  intros [Hl Hh Hc Ht] Hi. unfold elems. rewrite lookup_take_lt by done.
  destruct (decide (head q + i < length (buf q))%nat) as [H|H].
  - rewrite Nat.mod_small by done. rewrite lookup_app_l by (rewrite length_drop; lia).
    by rewrite lookup_drop.
  - rewrite lookup_app_r by (rewrite length_drop; lia). rewrite length_drop.
    replace ((head q + i) mod length (buf q))%nat with (i - (length (buf q) - head q))%nat.
    + rewrite lookup_take_lt by lia. done.
    + replace (head q + i)%nat with (i - (length (buf q) - head q) + 1 * length (buf q))%nat by lia.
      rewrite Nat.Div0.mod_add, Nat.mod_small by lia. done.
Qed.

Lemma elems_ext q l :
  valid q -> length l = Z.to_nat (count q) ->
  (forall i, (i < Z.to_nat (count q))%nat -> buf q !! ((head q + i) mod length (buf q))%nat = l !! i) ->
  elems q = l.
Proof.
  intros Hv Hl H. apply list_eq. intros i. destruct (decide (i < Z.to_nat (count q))%nat).
  - rewrite lookup_elems by done. by apply H.
  - rewrite !lookup_ge_None_2; [done|lia|rewrite length_elems by done; lia].
Qed.

Lemma rem_len_some i q : valid q -> rem_len i (buf q) = Some (i mod length (buf q))%nat.
Proof. intros [Hl _ _ _]. unfold rem_len. destruct (buf q); [simpl in Hl; lia|done]. Qed.

Lemma mod_ne h i j n :
  (i < n)%nat -> (j < n)%nat -> i <> j -> ((h + i) mod n <> (h + j) mod n)%nat.
Proof.
  intros Hi Hj Hne Heq.
  pose proof (Nat.div_mod_eq (h + i) n) as E1. pose proof (Nat.div_mod_eq (h + j) n) as E2.
  rewrite Heq in E1. set (a := ((h + i) / n)%nat) in *. set (b := ((h + j) / n)%nat) in *.
  destruct (lt_eq_lt_dec a b) as [[Hab|Hab]|Hab].
  - assert (n * a + n <= n * b)%nat by nia. lia.
  - subst a. rewrite Hab in E1. lia.
  - assert (n * b + n <= n * a)%nat by nia. lia.
Qed.

Lemma growIfFull_spec q :
  valid q -> valid (growIfFull q) /\ elems (growIfFull q) = elems q
    /\ count (growIfFull q) = count q /\ count q < Z.of_nat (length (buf (growIfFull q))).
Proof.
  intros Hv. unfold growIfFull. destruct (count q <? _) eqn:E; go_bool; [done|].
  destruct Hv as [Hl Hh Hc Ht].
  assert (Hfull : Z.to_nat (count q) = length (buf q)) by lia.
  assert (Htail : tail q = head q).
  { rewrite Ht, Hfull. replace (head q + length (buf q))%nat with (head q + 1 * length (buf q))%nat by lia.
    rewrite Nat.Div0.mod_add, Nat.mod_small; done. }
  rewrite Htail, Nat.ltb_irrefl. cbn [buf head tail count].
  assert (Hs : Z.to_nat (Z.shiftl (count q) 1) = (2 * length (buf q))%nat)
    by (rewrite Z.shiftl_mul_pow2 by lia; change (2 ^ 1) with 2; lia).
  set (live := drop (head q) (buf q) ++ take (head q) (buf q)).
  assert (Hlive : length live = length (buf q))
    by (subst live; rewrite length_app, length_drop, length_take; lia).
  assert (Hcop : copied (Z.to_nat (Z.shiftl (count q) 1)) live = live ++ replicate (length (buf q)) zeroVal).
  { unfold copied. rewrite Hs, take_ge, Hlive by lia. do 2 f_equal. lia. }
  assert (Hlen : length (copied (Z.to_nat (Z.shiftl (count q) 1)) live) = (2 * length (buf q))%nat)
    by (rewrite Hcop, length_app, length_replicate; lia).
  split_and!.
  - split; cbn [buf head tail count]; rewrite ?Hlen; try lia. simpl. rewrite Nat.mod_small; lia.
  - unfold elems. cbn [buf head tail count]. rewrite drop_0, take_0, app_nil_r, Hcop, Hfull.
    fold live. rewrite take_app_length' by done. symmetry. apply take_ge. lia.
  - done.
  - rewrite Hlen. lia.
Qed.

Lemma PushBack_spec q x :
  valid q -> exists q', PushBack q x = Some q' /\ valid q' /\ elems q' = elems q ++ [x].
Proof.
  intros Hv. destruct (growIfFull_spec q Hv) as (Hg & He & Hc & Hroom).
  unfold PushBack. set (g := growIfFull q) in *. destruct Hg as [Hl Hh Hcg Ht] eqn:Eg.
  assert (Htl : (tail g < length (buf g))%nat) by (rewrite Ht; apply Nat.mod_upper_bound; lia).
  destruct (lookup_lt_is_Some_2 (buf g) (tail g) Htl) as [y ->].
  rewrite rem_len_some by done. eexists. split; [reflexivity|].
  assert (Hv' : valid (mkQueue (<[tail g:=x]> (buf g)) (head g)
    ((tail g + 1) mod length (buf g)) (count g + 1))).
  { split; cbn [buf head tail count]; rewrite ?length_insert; try lia.
    rewrite Ht, Nat.Div0.add_mod_idemp_l. f_equal. lia. }
  split; [done|]. apply elems_ext; [done|cbn [count]; rewrite <- He, length_app, length_elems by done; simpl; lia|].
  cbn [buf head count]. rewrite length_insert. intros i Hi.
  destruct (decide (i = Z.to_nat (count g))) as [->|Hne].
  - rewrite <- Ht, list_lookup_insert_eq by done.
    rewrite <- He, lookup_app_r by (rewrite length_elems by done; lia).
    by rewrite length_elems, Nat.sub_diag by done.
  - rewrite list_lookup_insert_ne by (rewrite Ht; apply mod_ne; lia).
    rewrite <- He, lookup_app_l by (rewrite length_elems by done; lia).
    rewrite lookup_elems by (done || lia). done.
Qed.

Lemma elems_head q x l : valid q -> elems q = x :: l -> buf q !! head q = Some x /\ 0 < count q.
Proof.
  intros Hv He. pose proof (length_elems q Hv) as Hl. rewrite He in Hl. simpl in Hl.
  split; [|lia]. pose proof (lookup_elems q 0 Hv ltac:(lia)) as H0. rewrite He in H0. simpl in H0.
  rewrite Nat.add_0_r, Nat.mod_small in H0 by apply Hv. done.
Qed.

Lemma PopFront_spec q x l :
  valid q -> elems q = x :: l -> exists q', PopFront q = Some (x, q') /\ valid q' /\ elems q' = l.
Proof.
  intros Hv He. destruct (elems_head q x l Hv He) as [Hx Hpos]. unfold PopFront.
  rewrite Hx, rem_len_some by done. eexists. split; [reflexivity|].
  pose proof (length_elems q Hv) as Hlen. rewrite He in Hlen. simpl in Hlen.
  pose proof Hv as [Hl Hh Hc Ht].
  assert (Hv' : valid (mkQueue (<[head q:=zeroVal]> (buf q)) ((head q + 1) mod length (buf q))
    (tail q) (count q - 1))).
  { split; cbn [buf head tail count]; rewrite ?length_insert; try lia.
    - apply Nat.mod_upper_bound. lia.
    - rewrite Ht, Nat.Div0.add_mod_idemp_l. f_equal. lia. }
  split; [done|]. apply elems_ext; [done|cbn [count]; lia|].
  cbn [buf head count]. rewrite length_insert. intros i Hi.
  rewrite Nat.Div0.add_mod_idemp_l. replace (head q + 1 + i)%nat with (head q + S i)%nat by lia.
  rewrite list_lookup_insert_ne.
  - rewrite <- lookup_elems by (done || lia). by rewrite He.
  - rewrite <- (Nat.mod_small (head q) (length (buf q))) at 1 by done.
    rewrite <- (Nat.add_0_r (head q)) at 1. apply mod_ne; lia.
Qed.

Lemma Back_spec q x l : valid q -> elems q = l ++ [x] -> Back q = Some x.
Proof.
  intros Hv He. pose proof (length_elems q Hv) as Hlen. rewrite He, length_app in Hlen. simpl in Hlen.
  unfold Back. rewrite rem_len_some by done. simpl. pose proof Hv as [Hl Hh Hc Ht].
  assert (Hi : ((tail q + length (buf q) - 1) mod length (buf q))%nat
    = ((head q + length l) mod length (buf q))%nat).
  { replace (tail q + length (buf q) - 1)%nat with (tail q + (length (buf q) - 1))%nat by lia.
    rewrite Ht, Nat.Div0.add_mod_idemp_l.
    replace (head q + Z.to_nat (count q) + (length (buf q) - 1))%nat
      with (head q + length l + 1 * length (buf q))%nat by lia.
    by rewrite Nat.Div0.mod_add. }
  rewrite Hi, <- lookup_elems by (done || lia).
  by rewrite He, lookup_app_r, Nat.sub_diag by lia.
Qed.

Lemma At_spec q i x : valid q -> elems q !! i = Some x -> At q (Z.of_nat i) = Some x.
Proof.
  intros Hv Hx. pose proof (lookup_lt_Some _ _ _ Hx) as Hi. rewrite length_elems in Hi by done.
  rewrite lookup_elems in Hx by done. pose proof Hv as [Hl Hh Hc Ht]. unfold At.
  replace (length (buf q) =? 0)%nat with false by (symmetry; apply Nat.eqb_neq; lia).
  rewrite Z.rem_mod_nonneg by lia. rewrite <- Nat2Z.inj_add, <- Nat2Z.inj_mod, Nat2Z.id.
  replace (_ <? 0) with false by (symmetry; apply Z.ltb_ge; lia). done.
Qed.

Lemma growCap_spec fuel c capacity :
  0 < c -> capacity < c + Z.of_nat fuel + 1 \/ capacity <= c ->
  c <= growCap fuel c capacity /\ capacity <= growCap fuel c capacity
  /\ exists k : nat, growCap fuel c capacity = c * 2 ^ Z.of_nat k.
Proof.
  revert c. induction fuel as [|fuel IH]; intros c Hc Hf; simpl.
  - split_and!; [lia|lia|exists 0%nat; simpl; lia].
  - destruct (c <? capacity) eqn:E; go_bool.
    + rewrite Z.shiftl_mul_pow2 by lia. change (2 ^ 1) with 2.
      destruct (IH (c * 2)) as (H1 & H2 & k & Hk); [lia|lia|].
      split_and!; [lia|lia|]. exists (S k). rewrite Hk.
      rewrite Nat2Z.inj_succ, Z.pow_succ_r by lia. lia.
    + split_and!; [lia|lia|exists 0%nat; simpl; lia].
Qed.

Lemma newQueue_spec capacity :
  valid (newQueue capacity) /\ elems (newQueue capacity) = []
  /\ capacity <= Z.of_nat (length (buf (newQueue capacity)))
  /\ exists k : nat, Z.of_nat (length (buf (newQueue capacity))) = minCap * 2 ^ Z.of_nat k.
Proof.
  unfold newQueue, minCap. set (c := growCap (Z.to_nat capacity) 16 capacity).
  destruct (growCap_spec (Z.to_nat capacity) 16 capacity) as (H1 & H2 & H3); [lia|lia|]. fold c in H1, H2, H3.
  cbn [buf]. rewrite length_replicate, Z2Nat.id by lia. split_and!; [|done|done|done].
  split; cbn [buf head tail count]; rewrite ?length_replicate; try lia.
  simpl. rewrite Nat.mod_small; lia.
Qed.
End Ring.

Arguments queue : clear implicits.

(** The ring buffer provides the interface; the zero value of the element
    type is its [inhabitant]. *)
#[export] Instance ring_impl (T : Type) `{Inhabited T} : QueueImpl T (queue T) := {
  q_new := newQueue inhabitant;
  q_Len := Len;
  q_PushBack := PushBack inhabitant;
  q_PopFront := PopFront inhabitant;
  q_Front := Front;
  q_Back := Back;
  q_At := At
}.

#[export] Instance ring_laws (T : Type) `{Inhabited T} : QueueLaws T (queue T).
Proof.
  refine {| q_valid := valid; q_elems := elems |}; simpl.
  - intros c. destruct (newQueue_spec (inhabitant : T) c) as (? & ? & _). done.
  - intros q Hv. unfold Len. rewrite length_elems by done. pose proof (v_count _ Hv). lia.
  - intros q x. apply PushBack_spec.
  - intros q x l. apply PopFront_spec.
  - intros q x l Hv He. by apply (elems_head q x l).
  - intros q x l. apply Back_spec.
  - intros q i x. apply At_spec.
Defined.

(** ** Refinement for whole runs *)

Inductive op (T : Type) := OpPush (x : T) | OpPop | OpAt (i : nat) | OpFront | OpBack | OpLen.
Arguments OpPush {T} x.
Arguments OpPop {T}.
Arguments OpAt {T} i.
Arguments OpFront {T}.
Arguments OpBack {T}.
Arguments OpLen {T}.

(** What an operation answers: a length, or an element. *)
Inductive answer (T : Type) := NoAnswer | ALen (n : Z) | AElem (x : T).
Arguments NoAnswer {T}.
Arguments ALen {T} n.
Arguments AElem {T} x.

(** Running the operations on the queue; [None] is a panic. *)
Fixpoint run {T Q} `{QueueImpl T Q} (q : Q) (ops : list (op T)) : option (list (answer T)) :=
  match ops with
  | [] => Some []
  | o :: ops' =>
      r ← match o with
          | OpPush x => q' ← q_PushBack q x; Some (NoAnswer, q')
          | OpPop => p ← q_PopFront q; Some (AElem p.1, p.2)
          | OpAt i => x ← q_At q (Z.of_nat i); Some (AElem x, q)
          | OpFront => x ← q_Front q; Some (AElem x, q)
          | OpBack => x ← q_Back q; Some (AElem x, q)
          | OpLen => Some (ALen (q_Len q), q)
          end;
      rest ← run r.2 ops'; Some (r.1 :: rest)
  end.

(** The same on a list; [None] is an operation its caller must not make. *)
Fixpoint spec {T} (l : list T) (ops : list (op T)) : option (list (answer T)) :=
  match ops with
  | [] => Some []
  | o :: ops' =>
      r ← match o with
          | OpPush x => Some (NoAnswer, l ++ [x])
          | OpPop => match l with [] => None | x :: l' => Some (AElem x, l') end
          | OpAt i => x ← l !! i; Some (AElem x, l)
          | OpFront => x ← l !! 0%nat; Some (AElem x, l)
          | OpBack => x ← last l; Some (AElem x, l)
          | OpLen => Some (ALen (Z.of_nat (length l)), l)
          end;
      rest ← spec r.2 ops'; Some (r.1 :: rest)
  end.

Section Refines.
Context {T Q : Type} `{QueueLaws T Q}.

Lemma run_refines (ops : list (op T)) : forall (q : Q) a,
  q_valid q -> spec (q_elems q) ops = Some a -> run q ops = Some a.
Proof.
  induction ops as [|o ops IH]; intros q a Hv; [done|]. simpl.
  intros (r & Hr & (rest & Hrest & [= <-])%bind_Some)%bind_Some.
  destruct o as [x| |i| | |]; simpl in *.
  - injection Hr as <-. destruct (PushBack_law q x Hv) as (q' & -> & Hv' & He). simpl in *.
    rewrite <- He in Hrest. by rewrite (IH _ _ Hv' Hrest).
  - destruct (q_elems q) as [|x l] eqn:E; [done|]. injection Hr as <-.
    destruct (PopFront_law q x l Hv E) as (q' & -> & Hv' & He). simpl in *.
    rewrite <- He in Hrest. by rewrite (IH _ _ Hv' Hrest).
  - destruct (q_elems q !! i) as [x|] eqn:E; [|done]. injection Hr as <-. simpl in *.
    rewrite (At_law q i x Hv E). simpl. by rewrite (IH _ _ Hv Hrest).
  - destruct (q_elems q) as [|x l] eqn:E; [done|]. injection Hr as <-. simpl in *.
    rewrite (Front_law q x l Hv E). simpl. rewrite <- E in Hrest. by rewrite (IH _ _ Hv Hrest).
  - destruct (last (q_elems q)) as [x|] eqn:E; [|done]. injection Hr as <-. simpl in *.
    apply last_Some in E as [l E]. rewrite (Back_law q x l Hv E). simpl. by rewrite (IH _ _ Hv Hrest).
  - injection Hr as <-. simpl in *. rewrite (Len_law q Hv). by rewrite (IH _ _ Hv Hrest).
Qed.
End Refines.

(** The ring buffer is a queue: from [newQueue], with any capacity asked
    for, every sequence of operations that a first-in first-out list allows
    (no pop or look-up on a queue that is too short) is answered as the list
    answers it, and no index is ever out of range, whatever the interleaving
    of growth and wrap-around. *)
Theorem ring_queue_refines_list {T} `{Inhabited T} capacity (ops : list (op T)) a :
  spec [] ops = Some a -> run (q_new capacity : queue T) ops = Some a.
Proof.
  intros Hs. destruct (new_law (T:=T) (Q:=queue T) capacity) as [Hv He].
  apply run_refines; [done|]. by rewrite He.
Qed.

(** Fill the initial 16 slots, pop two, and push three: the buffer wraps and grows. *)
Definition ex_ops : list (op nat) :=
  map OpPush (seq 0 16) ++ [OpPop; OpPop] ++ map OpPush (seq 16 3) ++ [OpLen; OpFront; OpBack; OpAt 16].

Lemma ring_queue_refines_list_witness :
  run (q_new 0 : queue nat) ex_ops =
  Some (replicate 16 NoAnswer ++ [AElem 0%nat; AElem 1%nat] ++ replicate 3 NoAnswer
        ++ [ALen 17; AElem 2%nat; AElem 18%nat; AElem 18%nat]).
Proof. apply (ring_queue_refines_list 0 ex_ops). vm_compute. reflexivity. Defined.
