(* ===== verification/PayloadQueue.v ===== *)
(** * In-flight queue (payload_queue.go, and the sender side of chunk_payload_data.go)

    The queue holds pointers to DATA chunks which other parts of the
    association read and change, so chunks live in a store and the queue holds
    their locations.  It is stated over the queue interface of RingQueue.v. *)

From S2P Require Import Prelude Serial Bytes Chunks RingQueue.

Local Open Scope Z_scope.

Abbreviation loc := positive.

(** A [chunkPayloadData] as the sender uses it: the wire fields, and the fields
    that only the sender has.  [head] is the first fragment of the message. *)
Record sendChunk := mkSend {
  hdr : chunkHeader;
  wire : payloadData;
  acked : bool;
  missIndicator : Z;
  since : Z;
  nSent : Z;
  abandoned_ : bool;
  allInflight_ : bool;
  retransmit : bool;
  head_ : option loc
}.

Abbreviation store := (gmap loc sendChunk).

Definition setAbandonedField (b : bool) (c : sendChunk) : sendChunk :=
  mkSend (hdr c) (wire c) (acked c) (missIndicator c) (since c) (nSent c) b (allInflight_ c)
    (retransmit c) (head_ c).

Definition setAllInflightField (c : sendChunk) : sendChunk :=
  mkSend (hdr c) (wire c) (acked c) (missIndicator c) (since c) (nSent c) (abandoned_ c) true
    (retransmit c) (head_ c).

Definition setRetransmit (b : bool) (c : sendChunk) : sendChunk :=
  mkSend (hdr c) (wire c) (acked c) (missIndicator c) (since c) (nSent c) (abandoned_ c)
    (allInflight_ c) b (head_ c).

Definition with_userData (d : payloadData) (u : list Z) : payloadData :=
  mkPayload (unordered d) (beginningFragment d) (endingFragment d) (immediateSack d) (tsn d)
    (streamIdentifier d) (streamSequenceNumber d) (messageIdentifier d) (fragmentSequenceNumber d)
    (payloadType d) u (iData d).

(** [c.acked = true; c.retransmit = false; c.userData = []byte{}] *)
Definition setAcked (c : sendChunk) : sendChunk :=
  mkSend (hdr c) (with_userData (wire c) []) true (missIndicator c) (since c) (nSent c)
    (abandoned_ c) (allInflight_ c) false (head_ c).

(** ** Methods of the chunk; [None] is a nil dereference *)

(** The chunk whose flags count for the whole message. *)
Definition message_of (p : loc) (c : sendChunk) : loc := default p (head_ c).

Definition abandoned (st : store) (p : loc) : option bool :=
  c ← st !! p; m ← st !! message_of p c; Some (abandoned_ m && allInflight_ m).

Definition setAbandoned (st : store) (p : loc) (b : bool) : option store :=
  c ← st !! p; m ← st !! message_of p c;
  Some (<[message_of p c := setAbandonedField b m]> st).

Definition setAllInflight (st : store) (p : loc) : option store :=
  c ← st !! p;
  if endingFragment (wire c) then
    m ← st !! message_of p c; Some (<[message_of p c := setAllInflightField m]> st)
  else Some st.

Definition isFragmented (c : sendChunk) : bool :=
  (match head_ c with Some _ => true | None => false end)
  || negb (beginningFragment (wire c)) || negb (endingFragment (wire c)).

Definition dataLen (c : sendChunk) : Z := zlen (userData (wire c)).

(** ** The queue *)

Section PayloadQueue.
Context {Q : Type} `{QueueLaws loc Q}.

Record payloadQueue := mkPQ { chunks_ : Q; nBytes : Z }.

Definition newPayloadQueue : payloadQueue := mkPQ (q_new 128) 0.

Definition pushNoCheck (st : store) (q : payloadQueue) (p : loc) : option payloadQueue :=
  c ← st !! p; cs ← q_PushBack (chunks_ q) p; Some (mkPQ cs (nBytes q + dataLen c)).

(** Outer [None]: a panic; inner [None]: not found. *)
Definition pop (st : store) (q : payloadQueue) (t : Z) : option (option loc * payloadQueue) :=
  if 0 <? q_Len (chunks_ q) then
    front ← q_Front (chunks_ q); f ← st !! front;
    if t =? tsn (wire f) then
      r ← q_PopFront (chunks_ q); c ← st !! r.1;
      Some (Some r.1, mkPQ r.2 (nBytes q - dataLen c))
    else Some (None, q)
  else Some (None, q).

Definition get (st : store) (q : payloadQueue) (t : Z) : option (option loc) :=
  let length := q_Len (chunks_ q) in
  if length =? 0 then Some None
  else
    front ← q_Front (chunks_ q); f ← st !! front;
    let head := tsn (wire f) in
    if (t <? head) || (length <=? u32 (t - head)) then Some None
    else p ← q_At (chunks_ q) (u32 (t - head)); Some (Some p).

Definition markAsAcked (st : store) (q : payloadQueue) (t : Z) : option (Z * store * payloadQueue) :=
  g ← get st q t;
  match g with
  | None => Some (0, st, q)
  | Some p =>
      c ← st !! p;
      let nBytesAcked := dataLen c in
      Some (nBytesAcked, <[p := setAcked c]> st, mkPQ (chunks_ q) (nBytes q - nBytesAcked))
  end.

(** [for i := 0; i < q.chunks.Len(); i++]: [n] iterations are left. *)
Fixpoint markLoop (st : store) (q : payloadQueue) (i : Z) (n : nat) : option store :=
  match n with
  | O => Some st
  | S n' =>
      p ← q_At (chunks_ q) i; c ← st !! p; a ← abandoned st p;
      markLoop (if acked c || a then st else <[p := setRetransmit true c]> st) q (i + 1) n'
  end.

Definition markAllToRetrasmit (st : store) (q : payloadQueue) : option store :=
  markLoop st q 0 (Z.to_nat (q_Len (chunks_ q))).

Definition getNumBytes (q : payloadQueue) : Z := nBytes q.

Definition size (q : payloadQueue) : Z := q_Len (chunks_ q).

(** ** Invariant *)

Definition locs (q : payloadQueue) : list loc := q_elems (chunks_ q).

Definition len_at (st : store) (p : loc) : Z := from_option dataLen 0 (st !! p).

Definition total (st : store) (l : list loc) : Z := foldr (fun p z => len_at st p + z) 0 l.

(** A pointer and its link to the head of the message are not dangling. *)
Definition linked (st : store) (p : loc) : Prop :=
  exists c, st !! p = Some c /\ is_Some (st !! message_of p c).

(** The queued pointers are distinct and live, and the byte count is the sum of
    the payloads the chunks still hold. *)
Record pq_ok (st : store) (q : payloadQueue) : Prop := {
  pq_valid : q_valid (chunks_ q);
  pq_nodup : NoDup (locs q);
  pq_live : Forall (linked st) (locs q);
  pq_bytes : nBytes q = total st (locs q)
}.

(** The TSNs are consecutive from [h], modulo 2^32, as the association assigns
    them. *)
Definition consecutive (st : store) (q : payloadQueue) (h : Z) : Prop :=
  forall i p, locs q !! i = Some p -> exists c, st !! p = Some c /\ tsn (wire c) = u32 (h + Z.of_nat i).

Lemma total_app st l k : total st (l ++ k) = total st l + total st k.
Proof. induction l as [|p l IH]; simpl; [done|]. rewrite IH. lia. Qed.

Lemma total_insert_notin st p c l : p ∉ l -> total (<[p := c]> st) l = total st l.
Proof.
  induction l as [|x l IH]; intros Hn; [done|]. apply not_elem_of_cons in Hn as [Hx Hn]. simpl.
  unfold len_at. rewrite lookup_insert_ne by done. fold (len_at st x). by rewrite IH.
Qed.

(** Changing one queued chunk changes the sum by the difference. *)
Lemma total_insert st p c c0 l :
  NoDup l -> p ∈ l -> st !! p = Some c0 ->
  total (<[p := c]> st) l = total st l - dataLen c0 + dataLen c.
Proof.
  intros Hnd Hin Hp. induction l as [|x l IH]; [by apply not_elem_of_nil in Hin|].
  apply NoDup_cons in Hnd as [Hx Hnd]. simpl.
  destruct (decide (x = p)) as [->|Hne].
  - rewrite total_insert_notin by done. unfold len_at. rewrite lookup_insert_eq, Hp. simpl. lia.
  - apply elem_of_cons in Hin as [?|Hin]; [done|]. rewrite IH by done.
    unfold len_at. rewrite lookup_insert_ne by done. lia.
Qed.

Lemma linked_insert st p c c0 x :
  st !! p = Some c0 -> head_ c = head_ c0 -> linked st x -> linked (<[p := c]> st) x.
Proof.
  intros Hp Hh (y & Hy & Hm). unfold linked, message_of in *.
  destruct (decide (x = p)) as [->|Hne].
  - exists c. rewrite lookup_insert_eq. split; [done|].
    rewrite Hp in Hy. injection Hy as <-. rewrite Hh.
    rewrite lookup_insert. case_decide; [by eexists|done].
  - exists y. rewrite lookup_insert_ne by done. split; [done|].
    rewrite lookup_insert. case_decide; [by eexists|done].
Qed.

Lemma queue_nil q : q_valid q -> q_Len q = 0 -> q_elems q = [].
Proof. intros Hv Hl. rewrite Len_law in Hl by done. destruct (q_elems q); [done|simpl in Hl; lia]. Qed.

Lemma front_elems (st : store) q p l : pq_ok st q -> locs q = p :: l ->
  q_Front (chunks_ q) = Some p /\ exists c, st !! p = Some c.
Proof.
  intros Hok Hl. split; [by apply (Front_law _ _ l (pq_valid _ _ Hok))|].
  pose proof (pq_live _ _ Hok) as Hf. rewrite Hl in Hf. apply Forall_cons in Hf as [(c & Hc & _) _]. eauto.
Qed.

Lemma newPayloadQueue_ok st : pq_ok st newPayloadQueue /\ locs newPayloadQueue = [].
Proof.
  destruct (new_law (T:=loc) (Q:=Q) 128) as [Hv He]. unfold locs. simpl. split; [|done].
  split; unfold locs; simpl; [done|rewrite He..]; [constructor|constructor|done].
Qed.

Lemma pushNoCheck_ok st q p :
  pq_ok st q -> linked st p -> p ∉ locs q ->
  exists q', pushNoCheck st q p = Some q' /\ pq_ok st q' /\ locs q' = locs q ++ [p].
Proof.
  intros [Hv Hnd Hl Hb] (c & Hc & Hm) Hn. unfold pushNoCheck. rewrite Hc. simpl.
  destruct (PushBack_law (chunks_ q) p Hv) as (cs & -> & Hv' & He). simpl.
  eexists. split; [reflexivity|]. unfold locs in *. simpl. rewrite He. split; [|done].
  split; unfold locs; simpl; [done|rewrite He..].
  - apply NoDup_app. split_and!; [done| |apply NoDup_singleton].
    intros x Hx Hx'. apply list_elem_of_singleton in Hx'. congruence.
  - apply Forall_app. split; [done|]. repeat constructor. by exists c.
  - rewrite total_app, Hb. simpl. unfold len_at. rewrite Hc. simpl. lia.
Qed.

Lemma pop_ok st q t :
  pq_ok st q -> exists r q', pop st q t = Some (r, q') /\ pq_ok st q'
    /\ match r with
       | Some p => locs q = p :: locs q' /\ exists c, st !! p = Some c /\ tsn (wire c) = t
       | None => q' = q
       end.
Proof.
  intros Hok. pose proof Hok as [Hv Hnd Hl Hb]. unfold pop.
  destruct (locs q) as [|p l] eqn:El.
  - rewrite Len_law by done. unfold locs in El. rewrite El. simpl. by exists None, q.
  - destruct (front_elems st q p l Hok El) as [Hf [c Hc]].
    rewrite Len_law by done. unfold locs in El. rewrite El. simpl. rewrite Hf. simpl. rewrite Hc. simpl.
    destruct (t =? tsn (wire c)) eqn:E; [|by exists None, q].
    destruct (PopFront_law (chunks_ q) p l Hv El) as (cs & -> & Hv' & He). simpl. rewrite Hc. simpl.
    go_bool. exists (Some p), (mkPQ cs (nBytes q - dataLen c)). unfold locs. simpl. rewrite He.
    split_and!; [done| |done|eauto].
    apply NoDup_cons in Hnd as [_ Hnd]. apply Forall_cons in Hl as [_ Hl].
    split; unfold locs; simpl; [done|rewrite He..]; [done|done|].
    rewrite Hb. simpl. unfold len_at. rewrite Hc. simpl. lia.
Qed.

Lemma get_ok st q t :
  pq_ok st q -> exists r, get st q t = Some r
    /\ match r with Some p => p ∈ locs q /\ linked st p | None => True end.
Proof.
  intros Hok. pose proof Hok as [Hv Hnd Hl Hb]. unfold get. rewrite Len_law by done. fold (locs q).
  destruct (locs q) as [|p l] eqn:El; [by exists None|].
  destruct (front_elems st q p l Hok El) as [Hf [c Hc]]. rewrite Hf. simpl. rewrite Hc. simpl.
  destruct (_ || _) eqn:E; [by exists None|]. go_bool.
  pose proof (u32_range (t - tsn (wire c))) as Hr. unfold in_u in Hr.
  destruct (lookup_lt_is_Some_2 (locs q) (Z.to_nat (u32 (t - tsn (wire c))))) as [x Hx].
  { rewrite El. simpl. lia. }
  pose proof (At_law (chunks_ q) _ x Hv Hx) as Ha. rewrite Z2Nat.id in Ha by lia. rewrite Ha. simpl.
  exists (Some x). split; [done|]. rewrite <- El. pose proof (list_elem_of_lookup_2 _ _ _ Hx) as Hin.
  split; [done|]. rewrite <- El in Hl. rewrite Forall_forall in Hl. by apply Hl.
Qed.

Lemma insert_ok st q p c c0 :
  pq_ok st q -> st !! p = Some c0 -> head_ c = head_ c0 -> p ∈ locs q ->
  pq_ok (<[p := c]> st) (mkPQ (chunks_ q) (nBytes q - dataLen c0 + dataLen c)).
Proof.
  intros [Hv Hnd Hl Hb] Hp Hh Hin. split; unfold locs in *; simpl; try done.
  - eapply Forall_impl; [exact Hl|]. intros x. by apply (linked_insert st p c c0).
  - rewrite (total_insert st p c c0) by done. lia.
Qed.

Lemma markAsAcked_ok st q t :
  pq_ok st q -> exists n st' q', markAsAcked st q t = Some (n, st', q') /\ pq_ok st' q'
    /\ locs q' = locs q /\ 0 <= n /\ nBytes q' = nBytes q - n.
Proof.
  intros Hok. destruct (get_ok st q t Hok) as ([p|] & Hg & Hp); unfold markAsAcked; rewrite Hg; simpl.
  - destruct Hp as [Hin (c & Hc & Hm)]. rewrite Hc. simpl. eexists _, _, _. split; [reflexivity|].
    pose proof (insert_ok st q p (setAcked c) c Hok Hc eq_refl Hin) as H'.
    unfold dataLen in *. simpl in H'. change (zlen (@nil Z)) with 0 in H'. rewrite Z.add_0_r in H'.
    split_and!; [done|done|apply zlen_nonneg|done].
  - exists 0, st, q. split_and!; [done|done|done|lia|lia].
Qed.

Lemma abandoned_some st p : linked st p -> exists b, abandoned st p = Some b.
Proof. intros (c & Hc & [m Hm]). unfold abandoned. rewrite Hc. simpl. rewrite Hm. by eexists. Qed.

Lemma markLoop_ok n : forall st q i,
  pq_ok st q -> (i + n = length (locs q))%nat ->
  exists st', markLoop st q (Z.of_nat i) n = Some st' /\ pq_ok st' q
    /\ (forall p, st' !! p = st !! p \/ exists c, st !! p = Some c /\ acked c = false /\ st' !! p = Some (setRetransmit true c)).
Proof.
  induction n as [|n IH]; intros st q i Hok Hn; [exists st; eauto|]. simpl.
  destruct (lookup_lt_is_Some_2 (locs q) i) as [p Hp]; [lia|].
  pose proof Hok as [Hv Hnd Hl Hb].
  rewrite (At_law (chunks_ q) i p Hv Hp). simpl.
  pose proof (list_elem_of_lookup_2 _ _ _ Hp) as Hin.
  rewrite Forall_forall in Hl. pose proof (Hl p Hin) as Hlk. pose proof Hlk as (c & Hc & Hm).
  destruct (abandoned_some st p Hlk) as [a Ha]. rewrite Hc. simpl. rewrite Ha. simpl.
  replace (Z.of_nat i + 1) with (Z.of_nat (S i)) by lia.
  destruct (acked c || a) eqn:Eacked.
  - destruct (IH st q (S i) Hok) as (st' & ? & ? & ?); [lia|]. eauto.
  - assert (Hok' : pq_ok (<[p := setRetransmit true c]> st) q).
    { pose proof (insert_ok st q p (setRetransmit true c) c Hok Hc eq_refl Hin) as H'.
      destruct q as [cs nb]. simpl in *. replace (nb - dataLen c + dataLen (setRetransmit true c)) with nb in H';
        [done|]. unfold dataLen. simpl. lia. }
    destruct (IH _ q (S i) Hok') as (st' & ? & ? & Hst); [lia|]. exists st'. split_and!; [done|done|].
    intros x. specialize (Hst x). destruct (decide (x = p)) as [->|Hne].
    + rewrite lookup_insert_eq in Hst. right. exists c. split; [done|]. apply orb_false_iff in Eacked as [Eacked _]. split; [done|].
      destruct Hst as [->|(c1 & [= <-] & _ & ->)]; done.
    + rewrite !lookup_insert_ne in Hst by done. done.
Qed.

Lemma front_tsn st q h p l :
  pq_ok st q -> consecutive st q h -> in_u 32 h -> locs q = p :: l ->
  exists f, q_Front (chunks_ q) = Some p /\ st !! p = Some f /\ tsn (wire f) = h.
Proof.
  intros Hok Hcon Hh El. destruct (front_elems st q p l Hok El) as [Hf _].
  destruct (Hcon 0%nat p) as (f & Hf' & Ht); [by rewrite El|]. exists f. split_and!; [done|done|].
  rewrite Ht. replace (h + Z.of_nat 0) with h by lia. by apply u32_small.
Qed.

(** The look-up by TSN: the TSNs of the window as plain integers. *)
Lemma get_window st q h t :
  pq_ok st q -> consecutive st q h -> in_u 32 h -> in_u 32 t ->
  get st q t = Some (if decide (h <= t < h + Z.of_nat (length (locs q)))
                     then locs q !! Z.to_nat (t - h) else None).
Proof.
  intros Hok Hcon Hh Ht. pose proof Hok as [Hv _ _ _]. unfold get. rewrite Len_law by done.
  fold (locs q). destruct (locs q) as [|p l] eqn:El.
  { simpl. case_decide; [lia|done]. }
  destruct (front_tsn st q h p l Hok Hcon Hh El) as (f & Hf & Hsf & Htf).
  replace (Z.of_nat (length (p :: l)) =? 0) with false by (symmetry; apply Z.eqb_neq; simpl; lia).
  rewrite Hf. simpl mbind. rewrite Hsf. simpl mbind. rewrite Htf. unfold in_u in *.
  destruct (decide (h <= t < h + Z.of_nat (length (p :: l)))) as [Hin|Hout].
  - rewrite u32_small by (unfold in_u; lia).
    replace ((t <? h) || (Z.of_nat (S (length l)) <=? t - h)) with false
      by (symmetry; apply orb_false_intro; [apply Z.ltb_ge|apply Z.leb_gt]; simpl in Hin; lia).
    destruct (lookup_lt_is_Some_2 (p :: l) (Z.to_nat (t - h))) as [x Hx]; [lia|].
    rewrite <- El in Hx. pose proof (At_law (chunks_ q) _ x Hv Hx) as Ha.
    rewrite Z2Nat.id in Ha by lia. rewrite Ha. simpl mbind. rewrite El in Hx. by rewrite Hx.
  - destruct (decide (t < h)) as [Hlt|Hge].
    + apply Z.ltb_lt in Hlt. by rewrite Hlt.
    + rewrite u32_small by (unfold in_u; lia).
      replace (Z.of_nat (S (length l)) <=? t - h) with true
        by (symmetry; apply Z.leb_le; simpl in Hout; lia).
      by rewrite orb_true_r.
Qed.

(** And when it does: what lies behind the wrap is not found. *)
Lemma get_wrapped st q h i :
  pq_ok st q -> consecutive st q h -> in_u 32 h ->
  Z.of_nat (length (locs q)) <= 2 ^ 32 -> (i < length (locs q))%nat -> 2 ^ 32 <= h + Z.of_nat i ->
  get st q (u32 (h + Z.of_nat i)) = Some None.
Proof.
  intros Hok Hcon Hh Hlen Hi Hw. pose proof Hok as [Hv _ _ _]. unfold get. rewrite Len_law by done.
  fold (locs q). destruct (locs q) as [|p l] eqn:El; [simpl in Hi; lia|].
  destruct (front_tsn st q h p l Hok Hcon Hh El) as (f & Hf & Hsf & Htf).
  replace (Z.of_nat (length (p :: l)) =? 0) with false by (symmetry; apply Z.eqb_neq; simpl; lia).
  rewrite Hf. simpl mbind. rewrite Hsf. simpl mbind. rewrite Htf.
  assert (Hlt : (u32 (h + Z.of_nat i) <? h) = true) by (apply Z.ltb_lt; go_lia).
  by rewrite Hlt.
Qed.

(** ** Runs *)

(** The operations of the queue, and what the rest of the association does to
    the chunks meanwhile, which touches neither payloads nor links. *)
Inductive pq_step : store * payloadQueue -> store * payloadQueue -> Prop :=
  | step_push st q p q' :
      linked st p -> p ∉ locs q -> pushNoCheck st q p = Some q' -> pq_step (st, q) (st, q')
  | step_pop st q t r q' : pop st q t = Some (r, q') -> pq_step (st, q) (st, q')
  | step_ack st q t n st' q' : markAsAcked st q t = Some (n, st', q') -> pq_step (st, q) (st', q')
  | step_rtx st q st' : markAllToRetrasmit st q = Some st' -> pq_step (st, q) (st', q)
  | step_other st q st' :
      (forall p, p ∈ locs q -> linked st' p /\ len_at st' p = len_at st p) ->
      pq_step (st, q) (st', q).

Lemma total_ext st st' l : (forall p, p ∈ l -> len_at st' p = len_at st p) -> total st' l = total st l.
Proof.
  induction l as [|p l IH]; intros Hl; [done|]. simpl. rewrite Hl by left. rewrite IH; [done|].
  intros x Hx. apply Hl. by right.
Qed.

Lemma markAll_ok st q : pq_ok st q -> exists st', markAllToRetrasmit st q = Some st' /\ pq_ok st' q.
Proof.
  intros Hok. unfold markAllToRetrasmit. rewrite Len_law by apply Hok. fold (locs q). rewrite Nat2Z.id.
  destruct (markLoop_ok (length (locs q)) st q 0 Hok) as (st' & ? & ? & _); [lia|]. eauto.
Qed.

Lemma pq_step_ok s s' : pq_step s s' -> pq_ok s.1 s.2 -> pq_ok s'.1 s'.2.
Proof.
  intros Hs Hok. destruct Hs as [st q p q' Hl Hn Hp|st q t r q' Hp|st q t n st' q' Ha|st q st' Hr|st q st' Ho];
    simpl in *.
  - destruct (pushNoCheck_ok st q p Hok Hl Hn) as (q2 & Hp' & ? & _). congruence.
  - destruct (pop_ok st q t Hok) as (r2 & q2 & Hp' & ? & _). congruence.
  - destruct (markAsAcked_ok st q t Hok) as (n2 & st2 & q2 & Ha' & ? & _). congruence.
  - destruct (markAll_ok st q Hok) as (st2 & Hr' & ?). congruence.
  - destruct Hok as [Hv Hnd Hl Hb]. split; try done.
    + apply Forall_forall. intros p Hp. by apply Ho.
    + rewrite Hb. symmetry. apply total_ext. intros p Hp. by apply Ho.
Qed.

Lemma pq_reachable_ok st0 st q : rtc pq_step (st0, newPayloadQueue) (st, q) -> pq_ok st q.
Proof.
  intros Hr. apply (rtc_preserve pq_step (fun s => pq_ok s.1 s.2) (st0, newPayloadQueue) (st, q));
    [|apply newPayloadQueue_ok|exact Hr].
  intros x y Hx Hxy. by eapply pq_step_ok.
Qed.

(** The in-flight byte count is exact.  In every state reached by pushing,
    popping, acknowledging and marking for retransmission, in any order and
    interleaved with other changes to the chunks, [getNumBytes] is the sum of
    the payloads of the queued chunks that are not acknowledged yet, the queued
    pointers stay distinct and live, and none of the operations panics. *)
Theorem payload_queue_bytes_exact st0 st q :
  rtc pq_step (st0, newPayloadQueue) (st, q) ->
  getNumBytes q = total st (locs q) /\ NoDup (locs q)
  /\ (forall t, is_Some (pop st q t) /\ is_Some (get st q t) /\ is_Some (markAsAcked st q t))
  /\ is_Some (markAllToRetrasmit st q).
Proof.
  intros Hr. assert (Hok : pq_ok st q) by (by eapply pq_reachable_ok).
  split_and!; [apply Hok|apply Hok| |].
  - intros t. split_and!.
    + destruct (pop_ok st q t Hok) as (r & q' & -> & _). by eexists.
    + destruct (get_ok st q t Hok) as (r & -> & _). by eexists.
    + destruct (markAsAcked_ok st q t Hok) as (n & st' & q' & -> & _). by eexists.
  - destruct (markAll_ok st q Hok) as (st' & -> & _). by eexists.
Qed.

(** Looking a TSN up.  When the queued chunks carry consecutive TSNs that do
    not cross 2^32, [get] finds exactly the queued TSNs, each at its place, and
    [pop] takes the oldest chunk exactly when asked for its TSN.  When they do
    cross it, the comparison [tsn < head] is not modulo 2^32: every queued chunk
    behind the wrap is reported as absent, so that acknowledging it changes
    nothing. *)
Theorem payload_queue_lookup st q h :
  pq_ok st q -> consecutive st q h -> in_u 32 h -> Z.of_nat (length (locs q)) <= 2 ^ 32 ->
  (h + Z.of_nat (length (locs q)) <= 2 ^ 32 ->
     forall t, in_u 32 t ->
       get st q t = Some (if decide (h <= t < h + Z.of_nat (length (locs q)))
                          then locs q !! Z.to_nat (t - h) else None))
  /\ (forall t, in_u 32 t -> exists r q', pop st q t = Some (r, q')
        /\ (is_Some r <-> t = h /\ locs q <> []))
  /\ (forall i, (i < length (locs q))%nat -> 2 ^ 32 <= h + Z.of_nat i ->
        get st q (u32 (h + Z.of_nat i)) = Some None
        /\ markAsAcked st q (u32 (h + Z.of_nat i)) = Some (0, st, q)).
Proof.
  intros Hok Hcon Hh Hlen. split_and!.
  - intros Hw t Ht. by apply get_window.
  - intros t Ht. unfold pop. rewrite Len_law by apply Hok. fold (locs q).
    destruct (locs q) as [|p l] eqn:El; [exists None, q; split; [done|]; split; [by intros []|naive_solver]|].
    destruct (front_tsn st q h p l Hok Hcon Hh El) as (f & Hf & Hsf & Htf).
    simpl. rewrite Hf. simpl. rewrite Hsf. simpl. rewrite Htf.
    destruct (t =? h) eqn:E; go_bool.
    + destruct (PopFront_law (chunks_ q) p l (pq_valid _ _ Hok) El) as (cs & -> & _). simpl. rewrite Hsf. simpl.
      eexists _, _. split; [reflexivity|]. split; [by split|by eexists].
    + exists None, q. split; [done|]. split; [by intros []|naive_solver].
  - intros i Hi Hw. assert (Hg := get_wrapped st q h i Hok Hcon Hh Hlen Hi Hw).
    split; [done|]. unfold markAsAcked. by rewrite Hg.
Qed.
End PayloadQueue.

(** ** Example: two chunks on either side of the wrap *)

Definition ex_chunk (t : Z) : sendChunk :=
  mkSend (mkChunkHeader 0 0 [])
    (mkPayload false true true false t 1 0 0 0 51 [1; 2; 3] false)
    false 0 0 1 false true false None.

Definition ex_store : store := <[1%positive := ex_chunk 4294967295]> (<[2%positive := ex_chunk 0]> ∅).

Definition ex_q0 : payloadQueue (Q := queue positive) := newPayloadQueue.

Definition ex_q1 : payloadQueue (Q := queue positive) :=
  default ex_q0 (pushNoCheck ex_store ex_q0 1%positive).

Definition ex_q2 : payloadQueue (Q := queue positive) :=
  default ex_q1 (pushNoCheck ex_store ex_q1 2%positive).

Lemma ex_q2_reachable : rtc pq_step (ex_store, ex_q0) (ex_store, ex_q2).
Proof.
  eapply rtc_l; [eapply (step_push ex_store ex_q0 1 ex_q1)|].
  - eexists. split; [reflexivity|]. by eexists.
  - vm_compute. intros H. inversion H.
  - reflexivity.
  - apply rtc_once. eapply (step_push ex_store ex_q1 2 ex_q2).
    + eexists. split; [reflexivity|]. by eexists.
    + change (locs ex_q1) with [1%positive]. by intros Hin%list_elem_of_singleton.
    + reflexivity.
Defined.

Lemma payload_queue_bytes_exact_witness :
  getNumBytes ex_q2 = total ex_store (locs ex_q2) /\ getNumBytes ex_q2 = 6.
Proof.
  split; [|reflexivity].
  exact (proj1 (payload_queue_bytes_exact ex_store ex_store ex_q2 ex_q2_reachable)).
Defined.

Lemma ex_q2_ok : pq_ok ex_store ex_q2.
Proof. exact (pq_reachable_ok ex_store ex_store ex_q2 ex_q2_reachable). Qed.

Lemma ex_q2_consecutive : consecutive ex_store ex_q2 4294967295.
Proof.
  intros i p Hp. change (locs ex_q2) with [1%positive; 2%positive] in Hp.
  destruct i as [|[|i]]; simpl in Hp; [..|done]; injection Hp as <-; eexists; split; reflexivity.
Qed.

(** The chunk with TSN 0 is queued and not found. *)
Lemma payload_queue_lookup_witness :
  locs ex_q2 = [1%positive; 2%positive] /\ get ex_store ex_q2 0 = Some None.
Proof.
  split; [reflexivity|].
  refine (proj1 (proj2 (proj2 (payload_queue_lookup ex_store ex_q2 4294967295 ex_q2_ok
    ex_q2_consecutive _ _)) 1%nat _ _)).
  - unfold in_u. lia.
  - vm_compute. discriminate.
  - vm_compute. lia.
  - vm_compute. discriminate.
Defined.
