(* ===== verification/RecvQueue.v ===== *)
(** * Received TSNs (src/go/pion-sctp-patched/receive_payload_queue.go)

    A bitmask over the TSNs ahead of the cumulative one, used as a circular
    array of 64-bit words.  It refines a finite set of TSNs. *)

From S2P Require Import Prelude Serial Bytes Chunks.
From stdpp Require Import sorting.

Local Open Scope Z_scope.
Local Open Scope go_scope.

(** ** math/bits *)

(** The positions below 64, and those at which a word has a one. *)
Definition bits64 : list nat := seq 0 64.

Definition ones (w : Z) : list nat := filter (fun i => Z.testbit w (Z.of_nat i) = true) bits64.

Definition OnesCount64 (w : Z) : Z := Z.of_nat (length (ones w)).

Definition TrailingZeros64 (w : Z) : Z :=
  match ones w with [] => 64 | i :: _ => Z.of_nat i end.

Definition ones64 : Z := 2 ^ 64 - 1.

(** [^w] on 64 bits. *)
Definition not64 (w : Z) : Z := ones64 - w.

Definition getFirstNonZeroBit (val start stop : Z) : Z * bool :=
  let i := TrailingZeros64 (Z.shiftr val start) in (i + start, i + start <? stop).

Definition getFirstZeroBit (val start stop : Z) : Z * bool :=
  getFirstNonZeroBit (not64 val) start stop.

(** ** The queue *)

Record receivePayloadQueue := mkRecv {
  tailTSN : Z;
  chunkSize : Z;
  tsnBitmask : list Z;
  dupTSN : list Z;
  maxTSNOffset : Z;
  cumulativeTSN : Z
}.

(** [getMaxTSNOffset] of association.go, which sizes it: 32-bit arithmetic. *)
Definition getMaxTSNOffset (maxReceiveBufferSize : Z) : Z :=
  Z.min (Z.max (u32 (maxReceiveBufferSize * 4) / 500) 2000) 40000.

Definition newReceivePayloadQueue (maxOffset : Z) : receivePayloadQueue :=
  let maxOffset := u32 (u32 (maxOffset + 63) / 64 * 64) in
  mkRecv 0 0 (replicate (Z.to_nat (maxOffset / 64)) 0) [] maxOffset 0.

Definition init (q : receivePayloadQueue) (cum : Z) : receivePayloadQueue :=
  mkRecv cum 0 (map (fun _ => 0) (tsnBitmask q)) [] (maxTSNOffset q) cum.

(** [int(tsn/64) % len(q.tsnBitmask)], the word, and its update. *)
Definition word_index (bm : list Z) (t : Z) : nat := Z.to_nat ((t / 64) mod Z.of_nat (length bm)).

Definition word (bm : list Z) (t : Z) : Z := default 0 (bm !! word_index bm t).

Definition set_word (bm : list Z) (t w : Z) : list Z := <[word_index bm t := w]> bm.

Definition hasChunk (q : receivePayloadQueue) (t : Z) : bool :=
  if (chunkSize q =? 0) || sna32LTE t (cumulativeTSN q) || sna32GT t (tailTSN q) then false
  else negb (Z.land (word (tsnBitmask q) t) (Z.shiftl 1 (t mod 64)) =? 0).

Definition canPush (q : receivePayloadQueue) (t : Z) : bool :=
  if hasChunk q t || sna32LTE t (cumulativeTSN q)
     || sna32GT t (cumulativeTSN q +32 maxTSNOffset q) then false else true.

Definition push (q : receivePayloadQueue) (t : Z) : bool * receivePayloadQueue :=
  if sna32GT t (cumulativeTSN q +32 maxTSNOffset q) then (false, q)
  else if sna32LTE t (cumulativeTSN q) || hasChunk q t then
    (false, mkRecv (tailTSN q) (chunkSize q) (tsnBitmask q) (dupTSN q ++ [t]) (maxTSNOffset q)
              (cumulativeTSN q))
  else
    (true, mkRecv (if sna32GT t (tailTSN q) then t else tailTSN q) (chunkSize q + 1)
             (set_word (tsnBitmask q) t (Z.lor (word (tsnBitmask q) t) (Z.shiftl 1 (t mod 64))))
             (dupTSN q) (maxTSNOffset q) (cumulativeTSN q)).

Definition pop (q : receivePayloadQueue) (force : bool) : bool * receivePayloadQueue :=
  let t := cumulativeTSN q +32 1 in
  if hasChunk q t then
    (true, mkRecv (tailTSN q) (chunkSize q - 1)
             (set_word (tsnBitmask q) t
                (Z.land (word (tsnBitmask q) t) (not64 (Z.shiftl 1 (t mod 64)))))
             (dupTSN q) (maxTSNOffset q) t)
  else if force then
    (false, mkRecv (if chunkSize q =? 0 then t else tailTSN q) (chunkSize q) (tsnBitmask q)
              (dupTSN q) (maxTSNOffset q) t)
  else (false, q).

(** The words are walked from the one of [startTSN], [remaining] TSNs. *)
Fixpoint clearLoop (fuel : nat) (bm : list Z) (size startTSN remaining : Z) : option (list Z * Z) :=
  match fuel with
  | O => None
  | S fuel' =>
      if 0 <? remaining then
        let offset := startTSN mod 64 in
        let n := Z.min remaining (64 - offset) in
        let mask := if n <? 64 then u64 (Z.shiftl (Z.shiftl 1 n - 1) offset) else ones64 in
        let w := word bm startTSN in
        clearLoop fuel' (set_word bm startTSN (Z.land w (not64 mask)))
          (size - OnesCount64 (Z.land w mask)) (startTSN +32 n) (remaining -32 n)
      else Some (bm, size)
  end.

Definition clearTSNRange (bm : list Z) (size startTSN endTSN : Z) : option (list Z * Z) :=
  let remaining := u32 (endTSN - startTSN + 1) in
  clearLoop (S (Z.to_nat remaining)) bm size startTSN remaining.

(** [None]: the loop did not end. *)
Definition advanceCumulativeTSN (q : receivePayloadQueue) (cum : Z) : option receivePayloadQueue :=
  if negb (sna32LT (cumulativeTSN q) cum) then Some q
  else if (chunkSize q =? 0) || sna32LTE (tailTSN q) cum then
    Some (mkRecv cum 0 (map (fun _ => 0) (tsnBitmask q)) (dupTSN q) (maxTSNOffset q) cum)
  else
    r ← clearTSNRange (tsnBitmask q) (chunkSize q) (cumulativeTSN q +32 1) cum;
    Some (mkRecv (if r.2 =? 0 then cum else tailTSN q) r.2 r.1 (dupTSN q) (maxTSNOffset q) cum).

Definition popDuplicates (q : receivePayloadQueue) : list Z * receivePayloadQueue :=
  (dupTSN q, mkRecv (tailTSN q) (chunkSize q) (tsnBitmask q) [] (maxTSNOffset q) (cumulativeTSN q)).

(** The scan of [getGapAckBlocks]; [start] is the field of [ackBlock], [None]
    when the start of the next block is still looked for ([findEnd] is false). *)
Fixpoint gapLoop (fuel : nat) (q : receivePayloadQueue) (maxBlocks : Z) (t : Z) (start : option Z)
    (blocks : list gapAckBlock) : option (list gapAckBlock) :=
  match fuel with
  | O => None
  | S fuel' =>
      let cum := cumulativeTSN q in
      let endTSN := tailTSN q in
      if sna32LTE t endTSN && (Z.of_nat (length blocks) <? maxBlocks) then
        let w := word (tsnBitmask q) t in
        let offset := t mod 64 in
        match start with
        | None =>
            let '(nonZeroBit, ok) := getFirstNonZeroBit w offset 64 in
            if ok then
              gapLoop fuel' q maxBlocks (t +32 (nonZeroBit - offset))
                (Some (u16 (u32 (t + (nonZeroBit - offset) - cum)))) blocks
            else gapLoop fuel' q maxBlocks (t +32 (64 - offset)) None blocks
        | Some s =>
            let '(zeroBit, ok) := getFirstZeroBit w offset 64 in
            let t' := if ok then t +32 (zeroBit - offset) else t +32 (64 - offset) in
            let e := u16 (u32 (t + (zeroBit - offset) - 1 - cum)) in
            let blocks' := if ok && sna32LTE t' endTSN then blocks ++ [mkGap s e] else blocks in
            if sna32GT t' endTSN then Some (blocks' ++ [mkGap s (u16 (u32 (endTSN - cum)))])
            else gapLoop fuel' q maxBlocks t' (if ok then None else Some s) blocks'
        end
      else Some blocks
  end.

Definition getGapAckBlocks (q : receivePayloadQueue) (maxBlocks : Z) : option (list gapAckBlock) :=
  if (chunkSize q =? 0) || (maxBlocks <=? 0) then Some []
  else gapLoop (S (Z.to_nat (3 * maxTSNOffset q + 3))) q maxBlocks (cumulativeTSN q +32 1) None [].

Definition getLastTSNReceived (q : receivePayloadQueue) : option Z :=
  if chunkSize q =? 0 then None else Some (tailTSN q).

Definition getcumulativeTSN (q : receivePayloadQueue) : Z := cumulativeTSN q.

Definition rq_size (q : receivePayloadQueue) : Z := chunkSize q.

(** ** Bits of the mask

    The mask as an array of [64 * length] bits: bit [p] is bit [p mod 64] of
    word [p / 64]. *)

Definition bitlen (bm : list Z) : Z := 64 * Z.of_nat (length bm).

Definition mbit (bm : list Z) (p : Z) : bool := Z.testbit (default 0 (bm !! Z.to_nat (p / 64))) (p mod 64).

Lemma testbit_not64 w k : in_u 64 w -> 0 <= k < 64 -> Z.testbit (not64 w) k = negb (Z.testbit w k).
Proof.
  intros Hw Hk. unfold not64, ones64, in_u in *.
  replace (2 ^ 64 - 1 - w) with (Z.land (Z.lnot w) (Z.ones 64)).
  - rewrite Z.land_spec, Z.lnot_spec, Z.ones_spec_low by lia. apply andb_true_r.
  - rewrite Z.land_ones by lia. unfold Z.lnot. rewrite <- Z.sub_1_r.
    symmetry. apply Z.mod_unique with (-1); lia.
Qed.

Lemma land_bit w k : 0 <= k -> negb (Z.land w (Z.shiftl 1 k) =? 0) = Z.testbit w k.
Proof.
  intros Hk. rewrite Z.shiftl_1_l. apply eq_true_iff_eq. rewrite negb_true_iff, Z.eqb_neq. split.
  - intros Hne. destruct (Z.testbit w k) eqn:E; [done|]. exfalso. apply Hne. apply Z.bits_inj'.
    intros i Hi. rewrite Z.land_spec, Z.pow2_bits_eqb, Z.bits_0 by lia.
    destruct (Z.eqb_spec k i) as [->|]; [by rewrite E|apply andb_false_r].
  - intros Hb H0. assert (Z.testbit (Z.land w (2 ^ k)) k = true) as Ht
      by (rewrite Z.land_spec, Hb, Z.pow2_bits_true by lia; done).
    by rewrite H0, Z.bits_0 in Ht.
Qed.

Lemma word_index_lt bm t : bm <> [] -> (word_index bm t < length bm)%nat.
Proof.
  intros Hb. unfold word_index. assert (0 < Z.of_nat (length bm)) by (destruct bm; simpl in *; [done|lia]).
  pose proof (Z.mod_pos_bound (t / 64) (Z.of_nat (length bm))). lia.
Qed.

(** Where a TSN is in the array, as long as it stays within one word. *)
Lemma mod_bitlen t n k :
  0 <= t -> 0 < n -> 0 <= k -> t mod 64 + k < 64 ->
  (t + k) mod (64 * n) = 64 * ((t / 64) mod n) + (t mod 64 + k).
Proof.
  intros Ht Hn Hk Hw. rewrite Z.rem_mul_r by lia.
  assert (E : t + k = (t mod 64 + k) + (t / 64) * 64) by (pose proof (Z.div_mod t 64); lia).
  assert (H1 : (t + k) mod 64 = t mod 64 + k).
  { rewrite E, Z_mod_plus_full. apply Z.mod_small. pose proof (Z.mod_pos_bound t 64). lia. }
  assert (H2 : (t + k) / 64 = t / 64).
  { rewrite E, Z_div_plus_full by lia. rewrite (Z.div_small (t mod 64 + k)); [lia|].
    pose proof (Z.mod_pos_bound t 64). lia. }
  rewrite H1, H2. lia.
Qed.

Lemma word_bit bm t k :
  bm <> [] -> 0 <= t -> 0 <= k -> t mod 64 + k < 64 ->
  Z.testbit (word bm t) (t mod 64 + k) = mbit bm ((t + k) mod bitlen bm).
Proof.
  intros Hb Ht Hk Hw. unfold mbit, bitlen, word, word_index.
  assert (Hn : 0 < Z.of_nat (length bm)) by (destruct bm; simpl in *; [done|lia]).
  rewrite mod_bitlen by done. pose proof (Z.mod_pos_bound t 64).
  rewrite (Z.mul_comm 64), Z.div_add_l, (Z.div_small (_ + k)), Z.add_0_r by lia.
  rewrite (Z.add_comm (_ * 64)), Z_mod_plus_full, (Z.mod_small (_ + k)) by lia. done.
Qed.

(** Replacing the word of [t]. *)
Lemma mbit_set_word bm t w p :
  bm <> [] -> 0 <= t -> 0 <= p < bitlen bm ->
  mbit (set_word bm t w) p =
  if decide (p / 64 = (t / 64) mod Z.of_nat (length bm)) then Z.testbit w (p mod 64) else mbit bm p.
Proof.
  intros Hb Ht Hp. unfold mbit, set_word, bitlen in *. pose proof (word_index_lt bm t Hb) as Hi.
  assert (Hn : 0 < Z.of_nat (length bm)) by lia. unfold word_index in *.
  pose proof (Z.mod_pos_bound (t / 64) (Z.of_nat (length bm)) Hn).
  assert (0 <= p / 64) by (apply Z.div_pos; lia).
  destruct (decide _) as [He|He].
  - rewrite He, list_lookup_insert_eq by done. done.
  - rewrite list_lookup_insert_ne by lia. done.
Qed.

(** Overwriting the bits of [n] TSNs from [t] on, all in one word, with [b]. *)
Lemma mbit_patch bm t n w b p :
  bm <> [] -> 0 <= t -> 0 <= n -> t mod 64 + n <= 64 ->
  (forall k, 0 <= k < 64 -> Z.testbit w k =
     if (t mod 64 <=? k) && (k <? t mod 64 + n) then b else Z.testbit (word bm t) k) ->
  0 <= p < bitlen bm ->
  mbit (set_word bm t w) p =
  if (t mod bitlen bm <=? p) && (p <? t mod bitlen bm + n) then b else mbit bm p.
Proof.
  intros Hb Ht Hn Hw Hbits Hp. rewrite mbit_set_word by done.
  assert (Hl : 0 < Z.of_nat (length bm)) by (destruct bm; simpl in *; [done|lia]).
  pose proof (mod_bitlen t (Z.of_nat (length bm)) 0 Ht Hl) as Hm.
  rewrite !Z.add_0_r in Hm. unfold bitlen in *. pose proof (Z.mod_pos_bound t 64) as Ht64.
  rewrite Hm by lia. set (i := (t / 64) mod Z.of_nat (length bm)) in *.
  pose proof (Z.div_mod p 64 ltac:(lia)) as Hdm. pose proof (Z.mod_pos_bound p 64 ltac:(lia)).
  destruct (decide (p / 64 = i)) as [He|He].
  - rewrite Hbits by lia. rewrite He in Hdm.
    assert (Hw' : Z.testbit (word bm t) (p mod 64) = mbit bm p).
    { unfold mbit, word, word_index. fold i. by rewrite He. }
    rewrite Hw'.
    replace (64 * i + t mod 64 <=? p) with (t mod 64 <=? p mod 64)
      by (apply eq_true_iff_eq; rewrite !Z.leb_le; lia).
    replace (p <? 64 * i + t mod 64 + n) with (p mod 64 <? t mod 64 + n)
      by (apply eq_true_iff_eq; rewrite !Z.ltb_lt; lia). done.
  - destruct (_ && _) eqn:E; [|done]. go_bool. exfalso. apply He.
    assert (64 * i <= p < 64 * i + 64) by lia. Z.to_euclidean_division_equations. lia.
Qed.

(** ** The set of received TSNs *)

Definition window (q : receivePayloadQueue) : Z := bitlen (tsnBitmask q).

(** The TSN [o] places after the cumulative one, and whether its bit is set. *)
Definition at_offset (q : receivePayloadQueue) (o : Z) : Z := cumulativeTSN q +32 o.

Definition got (q : receivePayloadQueue) (o : Z) : bool :=
  mbit (tsnBitmask q) ((cumulativeTSN q + o) mod window q).

Definition offsets (q : receivePayloadQueue) : list Z := filter (fun o => got q o = true) (seqZ 1 (window q)).

(** The received TSNs in order. *)
Definition received (q : receivePayloadQueue) : list Z := map (at_offset q) (offsets q).

(** The window does not run over 2^32, or its length divides it: otherwise the
    place of a TSN in the mask jumps at the wrap. *)
Definition aligned (q : receivePayloadQueue) : Prop :=
  cumulativeTSN q + window q < 2 ^ 32 \/ (window q | 2 ^ 32).

Record recv_ok (q : receivePayloadQueue) : Prop := {
  r_bm : tsnBitmask q <> [];
  r_max : maxTSNOffset q = window q;
  r_small : window q < 2 ^ 16;
  r_words : Forall (in_u 64) (tsnBitmask q);
  r_cum : in_u 32 (cumulativeTSN q);
  r_size : chunkSize q = zlen (offsets q);
  r_tail : tailTSN q = at_offset q (default 0 (last (offsets q)))
}.

Lemma window_pos q : recv_ok q -> 64 <= window q < 2 ^ 16.
Proof.
  intros H. pose proof (r_bm _ H). pose proof (r_small _ H). unfold window, bitlen in *.
  destruct (tsnBitmask q); [done|]. simpl in *. lia.
Qed.

Lemma at_offset_range q o : in_u 32 (at_offset q o).
Proof. apply u32_range. Qed.

(** A TSN of the window has its bit where its offset says. *)
Lemma at_offset_mod q o :
  recv_ok q -> aligned q -> 0 <= o <= window q ->
  at_offset q o mod window q = (cumulativeTSN q + o) mod window q.
Proof.
  intros Hok Ha Ho. pose proof (window_pos q Hok). pose proof (r_cum _ Hok) as Hc. unfold in_u in Hc.
  unfold at_offset, u32, wrap. destruct Ha as [Ha|Ha].
  - rewrite (Z.mod_small _ (2 ^ 32)) by lia. done.
  - symmetry. apply Znumtheory.Zmod_div_mod; [lia|lia|done].
Qed.

(** Different offsets of the window are different bits. *)
Lemma window_inj q o o' :
  recv_ok q -> 1 <= o <= window q -> 1 <= o' <= window q ->
  (cumulativeTSN q + o) mod window q = (cumulativeTSN q + o') mod window q -> o = o'.
Proof.
  intros Hok Ho Ho' He. pose proof (window_pos q Hok). set (W := window q) in *.
  pose proof (Z.div_mod (cumulativeTSN q + o) W ltac:(lia)) as E1.
  pose proof (Z.div_mod (cumulativeTSN q + o') W ltac:(lia)) as E2. rewrite He in E1.
  set (a := (cumulativeTSN q + o) / W) in *. set (b := (cumulativeTSN q + o') / W) in *.
  assert (Hd : o - o' = W * (a - b)) by lia.
  assert (a - b = 0) by nia. nia.
Qed.

Lemma offsets_spec q o : o ∈ offsets q <-> 1 <= o <= window q /\ got q o = true.
Proof. unfold offsets. rewrite list_elem_of_filter, elem_of_seqZ. naive_solver lia. Qed.

Lemma sorted_seqZ m n : StronglySorted Z.lt (seqZ m n).
Proof.
  destruct (decide (0 <= n)) as [Hn|Hn]; [|rewrite seqZ_nil by lia; constructor].
  revert m. pattern n. apply natlike_ind; [|intros k Hk IH m|done].
  - intros m. rewrite seqZ_nil by lia. constructor.
  - rewrite seqZ_cons, Z.pred_succ by lia. constructor; [apply IH|].
    apply Forall_forall. intros x Hx%elem_of_seqZ. lia.
Qed.

Lemma sorted_filter (P : Z -> Prop) `{!forall x, Decision (P x)} l :
  StronglySorted Z.lt l -> StronglySorted Z.lt (filter P l).
Proof.
  induction 1 as [|x l Hs IH Hx]; [constructor|]. rewrite filter_cons. case_decide; [|done].
  constructor; [done|]. apply Forall_forall. intros y [_ Hy]%list_elem_of_filter.
  rewrite Forall_forall in Hx. by apply Hx.
Qed.

Lemma offsets_sorted q : StronglySorted Z.lt (offsets q).
Proof. unfold offsets. apply sorted_filter, sorted_seqZ. Qed.

Lemma offsets_nodup q : NoDup (offsets q).
Proof. unfold offsets. apply NoDup_filter, NoDup_seqZ. Qed.

(** The greatest offset received, 0 when there is none. *)
Definition top (q : receivePayloadQueue) : Z := default 0 (last (offsets q)).

Lemma top_spec q :
  recv_ok q -> 0 <= top q <= window q /\ (forall o, o ∈ offsets q -> o <= top q)
    /\ (offsets q <> [] -> top q ∈ offsets q).
Proof.
  intros Hok. pose proof (window_pos q Hok). unfold top.
  destruct (last (offsets q)) as [m|] eqn:E; simpl.
  - apply last_Some in E as [l E].
    assert (Hm : m ∈ offsets q) by (rewrite E; apply elem_of_app; right; by left).
    pose proof (proj1 (offsets_spec q m) Hm). split_and!; try lia; [|done].
    intros o Ho. pose proof (offsets_sorted q) as Hs. rewrite E in Hs, Ho.
    apply elem_of_app in Ho as [Ho|Ho%list_elem_of_singleton]; [|lia].
    pose proof (StronglySorted_app_1_elem_of _ _ _ _ _ Hs Ho (list_elem_of_here _ _)). lia.
  - apply last_None in E. rewrite E. split_and!; [lia|lia| |done].
    intros o Ho. by apply not_elem_of_nil in Ho.
Qed.

Lemma dist_at q o : 0 <= o < 2 ^ 32 -> dist32 (cumulativeTSN q) (at_offset q o) = o.
Proof. intros H. unfold dist32, at_offset. go_lia. Qed.

Lemma at_dist q t : in_u 32 t -> at_offset q (dist32 (cumulativeTSN q) t) = t.
Proof. intros H. unfold dist32, at_offset. go_lia. Qed.

Lemma received_spec q t :
  recv_ok q -> t ∈ received q <-> in_u 32 t /\ dist32 (cumulativeTSN q) t ∈ offsets q.
Proof.
  intros Hok. pose proof (window_pos q Hok). unfold received. rewrite elem_of_map.
  split.
  - intros (o & -> & Ho). split; [apply at_offset_range|].
    pose proof (proj1 (offsets_spec q o) Ho). rewrite dist_at by lia. done.
  - intros [Ht Ho]. exists (dist32 (cumulativeTSN q) t). by rewrite at_dist.
Qed.

Lemma LTE_cum q o :
  in_u 32 (cumulativeTSN q) -> 0 <= o < 2 ^ 32 ->
  sna32LTE (at_offset q o) (cumulativeTSN q) = (o =? 0) || (2 ^ 31 <? o).
Proof.
  intros Hc Ho. apply eq_true_iff_eq.
  rewrite sna32LTE_dist, orb_true_iff, Z.eqb_eq, Z.ltb_lt by (done || apply at_offset_range).
  unfold dist32, at_offset. go_lia.
Qed.

Lemma GT_at q o o' :
  0 <= o <= 2 ^ 31 -> 0 <= o' < 2 ^ 31 -> sna32GT (at_offset q o) (at_offset q o') = (o' <? o).
Proof.
  intros Ho Ho'. apply eq_true_iff_eq. rewrite sna32GT_dist, Z.ltb_lt by apply at_offset_range.
  unfold dist32, at_offset. go_lia.
Qed.

Lemma LTE_at q o o' :
  0 <= o <= 2 ^ 31 -> 0 <= o' < 2 ^ 31 -> sna32LTE (at_offset q o) (at_offset q o') = (o <=? o').
Proof.
  intros Ho Ho'. pose proof (GT_at q o o' Ho Ho') as Hg.
  rewrite sna32GT_negb_LTE in Hg by apply at_offset_range.
  rewrite <- (negb_involutive (sna32LTE _ _)), Hg. by rewrite Z.leb_antisym.
Qed.

Lemma word_got q o :
  recv_ok q -> aligned q -> 0 <= o <= window q ->
  Z.testbit (word (tsnBitmask q) (at_offset q o)) (at_offset q o mod 64) = got q o.
Proof.
  intros Hok Ha Ho. pose proof (at_offset_range q o) as Hr. unfold in_u in Hr.
  pose proof (Z.mod_pos_bound (at_offset q o) 64).
  pose proof (word_bit (tsnBitmask q) (at_offset q o) 0 (r_bm _ Hok) ltac:(lia) ltac:(lia) ltac:(lia)) as Hw.
  rewrite !Z.add_0_r in Hw. rewrite Hw. unfold got. fold (window q). by rewrite at_offset_mod.
Qed.

Lemma size_zero q : recv_ok q -> (chunkSize q =? 0) = true <-> offsets q = [].
Proof.
  intros Hok. rewrite Z.eqb_eq, (r_size _ Hok). unfold zlen.
  destruct (offsets q); simpl; [done|]. split; [lia|done].
Qed.

Lemma hasChunk_at q o :
  recv_ok q -> aligned q -> 0 <= o < 2 ^ 32 ->
  hasChunk q (at_offset q o) = bool_decide (o ∈ offsets q).
Proof.
  intros Hok Ha Ho. pose proof (window_pos q Hok) as Hw.
  destruct (top_spec q Hok) as (Ht & Hle & _). unfold hasChunk.
  rewrite LTE_cum by (done || apply Hok). rewrite (r_tail _ Hok). fold (top q).
  destruct (chunkSize q =? 0) eqn:E0.
  { apply size_zero in E0; [|done]. rewrite E0. done. }
  destruct ((o =? 0) || (2 ^ 31 <? o)) eqn:E1.
  { simpl. symmetry. apply bool_decide_eq_false. rewrite offsets_spec. apply orb_prop in E1 as [E1|E1]; go_bool; lia. }
  simpl. go_bool. rewrite GT_at by lia. destruct (top q <? o) eqn:E2; go_bool.
  { symmetry. apply bool_decide_eq_false. intros Hin. specialize (Hle o Hin). lia. }
  pose proof (Z.mod_pos_bound (at_offset q o) 64). rewrite land_bit by lia.
  rewrite word_got by (done || lia). apply eq_true_iff_eq.
  rewrite bool_decide_eq_true, offsets_spec. split; [|naive_solver]. intros Hg. split; [lia|done].
Qed.

Lemma hasChunk_spec q t :
  recv_ok q -> aligned q -> in_u 32 t -> hasChunk q t = bool_decide (t ∈ received q).
Proof.
  intros Hok Ha Ht. rewrite <- (at_dist q t Ht) at 1.
  assert (Hd : 0 <= dist32 (cumulativeTSN q) t < 2 ^ 32) by (unfold dist32; apply u32_range).
  rewrite hasChunk_at by done. apply bool_decide_ext. rewrite received_spec by done. tauto.
Qed.

(** ** init *)

Lemma offsets_zero q : Forall (fun w => w = 0) (tsnBitmask q) -> offsets q = [].
Proof.
  intros Hz. destruct (offsets q) as [|o l] eqn:E; [done|]. exfalso.
  assert (Ho : o ∈ offsets q) by (rewrite E; by left). apply offsets_spec in Ho as [_ Hg].
  unfold got, mbit in Hg. destruct (_ !! _) as [w|] eqn:El; simpl in Hg; [|by rewrite Z.bits_0 in Hg].
  rewrite Forall_lookup in Hz. rewrite (Hz _ _ El), Z.bits_0 in Hg. done.
Qed.

(** A queue with a zero mask and nothing counted. *)
Lemma empty_ok bm dups m cum :
  bm <> [] -> m = bitlen bm -> m < 2 ^ 16 -> Forall (fun w => w = 0) bm -> in_u 32 cum ->
  recv_ok (mkRecv cum 0 bm dups m cum) /\ received (mkRecv cum 0 bm dups m cum) = [].
Proof.
  intros Hb Hm Hs Hz Hc. set (q := mkRecv cum 0 bm dups m cum).
  assert (Ho : offsets q = []) by (by apply offsets_zero).
  unfold received. rewrite Ho. split; [|done]. split; simpl; try done.
  - unfold window. simpl. lia.
  - eapply Forall_impl; [exact Hz|]. intros w ->. unfold in_u. lia.
  - by rewrite Ho.
  - rewrite Ho. unfold at_offset. simpl. rewrite Z.add_0_r. symmetry. by apply u32_small.
Qed.

Lemma getMaxTSNOffset_range b : 2000 <= getMaxTSNOffset b <= 40000.
Proof. unfold getMaxTSNOffset. lia. Qed.

Lemma new_init_ok b cum :
  in_u 32 cum ->
  let q := init (newReceivePayloadQueue (getMaxTSNOffset b)) cum in
  recv_ok q /\ received q = [] /\ cumulativeTSN q = cum /\ getMaxTSNOffset b <= window q < getMaxTSNOffset b + 64.
Proof.
  intros Hc. pose proof (getMaxTSNOffset_range b) as Hr. set (m := getMaxTSNOffset b) in *.
  unfold init, newReceivePayloadQueue. cbn [tsnBitmask maxTSNOffset].
  rewrite (u32_small (m + 63)) by (unfold in_u; lia).
  assert (Hm : m <= (m + 63) / 64 * 64 < m + 64) by (Z.to_euclidean_division_equations; lia).
  rewrite u32_small by (unfold in_u; lia). rewrite Z.div_mul by lia.
  set (n := (m + 63) / 64) in *.
  assert (Hlen : bitlen (map (fun _ : Z => 0) (replicate (Z.to_nat n) 0)) = n * 64).
  { unfold bitlen. rewrite length_map, length_replicate. lia. }
  assert (Hq : forall dups, recv_ok (mkRecv cum 0 (map (fun _ : Z => 0) (replicate (Z.to_nat n) 0)) dups (n * 64) cum)
    /\ received (mkRecv cum 0 (map (fun _ : Z => 0) (replicate (Z.to_nat n) 0)) dups (n * 64) cum) = []).
  { intros dups. apply empty_ok; [| |lia| |done].
    - destruct (Z.to_nat n) eqn:E; [lia|done].
    - by rewrite Hlen.
    - apply Forall_forall. intros w (? & -> & _)%elem_of_map. done. }
  destruct (Hq []) as [H1 H2]. split_and!; [done|done|done| |]; unfold window; cbn [tsnBitmask];
    rewrite Hlen; lia.
Qed.

(** ** Words stay words *)

Lemma u64_bits w : 0 <= w -> (forall k, 64 <= k -> Z.testbit w k = false) -> in_u 64 w.
Proof.
  intros Hw Hb. split; [done|]. assert (Hs : Z.shiftr w 64 = 0).
  { apply Z.bits_inj'. intros k Hk. rewrite Z.shiftr_spec, Z.bits_0 by done. apply Hb. lia. }
  rewrite Z.shiftr_div_pow2 in Hs by lia. apply Z.div_small_iff in Hs; lia.
Qed.

Lemma testbit_high w k : in_u 64 w -> 64 <= k -> Z.testbit w k = false.
Proof.
  intros [H0 H] Hk. destruct (decide (w = 0)) as [->|Hne]; [apply Z.bits_0|].
  apply Z.bits_above_log2; [done|]. assert (Z.log2 w < 64) by (apply Z.log2_lt_pow2; lia). lia.
Qed.

Lemma land_u64 a b : in_u 64 a -> in_u 64 b -> in_u 64 (Z.land a b).
Proof.
  intros Ha Hb. apply u64_bits; [apply Z.land_nonneg; left; apply Ha|].
  intros k Hk. by rewrite Z.land_spec, (testbit_high a) by done.
Qed.

Lemma lor_u64 a b : in_u 64 a -> in_u 64 b -> in_u 64 (Z.lor a b).
Proof.
  intros Ha Hb. apply u64_bits; [apply Z.lor_nonneg; split; [apply Ha|apply Hb]|].
  intros k Hk. by rewrite Z.lor_spec, !testbit_high by done.
Qed.

Lemma not64_u64 a : in_u 64 a -> in_u 64 (not64 a).
Proof. unfold in_u, not64, ones64. lia. Qed.

Lemma word_u64 bm t : Forall (in_u 64) bm -> in_u 64 (word bm t).
Proof.
  intros Hw. unfold word. destruct (bm !! _) as [w|] eqn:E; simpl; [|unfold in_u; lia].
  rewrite Forall_lookup in Hw. by eapply Hw.
Qed.

Lemma set_word_u64 bm t w : Forall (in_u 64) bm -> in_u 64 w -> Forall (in_u 64) (set_word bm t w).
Proof. intros Hb Hw. unfold set_word. by apply Forall_insert. Qed.

Lemma length_set_word bm t w : length (set_word bm t w) = length bm.
Proof. apply length_insert. Qed.

Lemma bit_u64 k : 0 <= k < 64 -> in_u 64 (Z.shiftl 1 k).
Proof.
  intros Hk. rewrite Z.shiftl_1_l. split; [apply Z.pow_nonneg; lia|]. apply Z.pow_lt_mono_r; lia.
Qed.

Lemma bit_testbit k i : 0 <= k -> 0 <= i -> Z.testbit (Z.shiftl 1 k) i = (k =? i).
Proof. intros Hk Hi. rewrite Z.shiftl_1_l. by apply Z.pow2_bits_eqb. Qed.

(** ** Sorted lists *)

Lemma sorted_eq (l1 l2 : list Z) :
  StronglySorted Z.lt l1 -> StronglySorted Z.lt l2 -> (forall x, x ∈ l1 <-> x ∈ l2) -> l1 = l2.
Proof.
  intros H1 H2 Hx.
  assert (Hnd : forall l, StronglySorted Z.lt l -> NoDup l).
  { induction 1 as [|x l _ IH Hl]; constructor; [|done]. intros Hin. rewrite Forall_forall in Hl.
    specialize (Hl x Hin). lia. }
  assert (Has : AntiSymm eq Z.lt) by (intros x y ? ?; lia).
  eapply (StronglySorted_unique Z.lt); [done|done|]. by apply NoDup_Permutation; auto.
Qed.

Lemma sorted_last (l : list Z) m :
  StronglySorted Z.lt l -> m ∈ l -> (forall x, x ∈ l -> x <= m) -> last l = Some m.
Proof.
  intros Hs Hm Hle. destruct (last l) as [x|] eqn:E.
  - apply last_Some in E as [k ->]. f_equal.
    assert (x <= m) by (apply Hle, elem_of_app; right; by left).
    apply elem_of_app in Hm as [Hm|Hm%list_elem_of_singleton]; [|done].
    pose proof (StronglySorted_app_1_elem_of _ _ _ _ _ Hs Hm (list_elem_of_here _ _)). lia.
  - apply last_None in E. subst l. by apply not_elem_of_nil in Hm.
Qed.

(** ** push *)

Lemma push_new_ok q o :
  recv_ok q -> aligned q -> 1 <= o <= window q -> got q o = false ->
  let t := at_offset q o in
  let q' := mkRecv (if sna32GT t (tailTSN q) then t else tailTSN q) (chunkSize q + 1)
             (set_word (tsnBitmask q) t (Z.lor (word (tsnBitmask q) t) (Z.shiftl 1 (t mod 64))))
             (dupTSN q) (maxTSNOffset q) (cumulativeTSN q) in
  recv_ok q' /\ window q' = window q /\ (forall x, x ∈ offsets q' <-> x = o \/ x ∈ offsets q).
Proof.
  intros Hok Ha Ho Hg t q'. pose proof (window_pos q Hok) as Hw.
  pose proof (at_offset_range q o) as Ht. fold t in Ht. pose proof (Z.mod_pos_bound t 64 ltac:(lia)) as Hm.
  assert (Hwin : window q' = window q) by (unfold window, bitlen; simpl; by rewrite length_set_word).
  assert (Hgot : forall x, 1 <= x <= window q -> got q' x = (x =? o) || got q x).
  { intros x Hx. unfold got. rewrite Hwin. subst q'. cbn [tsnBitmask cumulativeTSN].
    rewrite (mbit_patch (tsnBitmask q) t 1 _ true).
    - fold (window q). subst t. rewrite at_offset_mod by (done || lia).
      destruct (Z.eqb_spec x o) as [->|Hne].
      + rewrite Z.leb_refl. replace (_ <? _) with true by (symmetry; apply Z.ltb_lt; lia). done.
      + destruct (_ && _) eqn:E; [|done]. go_bool. exfalso. apply Hne. apply (window_inj q); try done. lia.
    - apply Hok.
    - apply Ht.
    - lia.
    - lia.
    - intros k Hk. rewrite Z.lor_spec, bit_testbit by lia.
      destruct ((t mod 64 <=? k) && (k <? t mod 64 + 1)) eqn:E.
      + go_bool. replace k with (t mod 64) by lia. rewrite Z.eqb_refl. apply orb_true_r.
      + destruct (Z.eqb_spec (t mod 64) k) as [<-|]; [|apply orb_false_r].
        apply andb_false_iff in E as [E|E]; go_bool; lia.
    - fold (window q). apply Z.mod_pos_bound. lia. }
  assert (Hoff : forall x, x ∈ offsets q' <-> x = o \/ x ∈ offsets q).
  { intros x. rewrite !offsets_spec, Hwin. split.
    - intros [Hx Hgx]. rewrite Hgot in Hgx by done. apply orb_prop in Hgx as [E|E]; go_bool; auto.
    - intros [->|[Hx Hgx]]; (split; [done|]); rewrite Hgot by done; [by rewrite Z.eqb_refl|].
      rewrite Hgx. apply orb_true_r. }
  assert (Hnin : o ∉ offsets q) by (rewrite offsets_spec; intros [_ ?]; congruence).
  assert (Hperm : offsets q' ≡ₚ o :: offsets q).
  { apply NoDup_Permutation; [apply offsets_nodup|constructor; [done|apply offsets_nodup]|].
    intros x. rewrite Hoff, elem_of_cons. done. }
  destruct (top_spec q Hok) as (Htop & Hle & Hin).
  split_and!; [|done|done]. split.
  - subst q'. cbn [tsnBitmask]. intros H0. apply (r_bm _ Hok). apply length_zero_iff_nil.
    rewrite <- (length_set_word _ t (Z.lor (word (tsnBitmask q) t) (Z.shiftl 1 (t mod 64)))), H0. done.
  - rewrite Hwin. apply Hok.
  - rewrite Hwin. apply Hok.
  - subst q'. cbn [tsnBitmask]. apply set_word_u64; [apply Hok|].
    apply lor_u64; [apply word_u64, Hok|by apply bit_u64].
  - apply Hok.
  - unfold zlen. rewrite (Permutation_length Hperm). change (chunkSize q') with (chunkSize q + 1).
    rewrite (r_size _ Hok). unfold zlen. cbn [length]. lia.
  - rewrite (sorted_last (offsets q') (Z.max o (top q))); [|apply offsets_sorted| |].
    + change (tailTSN q') with (if sna32GT t (tailTSN q) then t else tailTSN q).
      change (at_offset q' ?x) with (at_offset q x). rewrite (r_tail _ Hok). fold (top q). subst t.
      rewrite GT_at by lia. cbn [default].
      destruct (top q <? o) eqn:E; go_bool; [rewrite Z.max_l by lia|rewrite Z.max_r by lia]; done.
    + apply Hoff. destruct (decide (o <= top q)).
      * rewrite Z.max_r by lia. right. apply Hin. intros H0. unfold top in *. rewrite H0 in *. simpl in *. lia.
      * rewrite Z.max_l by lia. by left.
    + intros x Hx. apply Hoff in Hx as [->|Hx]; [lia|]. specialize (Hle x Hx). lia.
Qed.

(** ** Moving the cumulative TSN *)

(** [q'] is [q] with the cumulative TSN [d] places further and the bits of the
    places passed cleared. *)
Lemma shift_got q q' d :
  recv_ok q -> aligned q -> 0 <= d <= window q ->
  window q' = window q -> cumulativeTSN q' = at_offset q d ->
  (forall o, 1 <= o <= window q ->
     mbit (tsnBitmask q') ((cumulativeTSN q + o) mod window q) = (d <? o) && got q o) ->
  forall o, 1 <= o <= window q -> got q' o = (o + d <=? window q) && got q (o + d).
Proof.
  intros Hok Ha Hd Hwin Hcum Hbits o Ho. pose proof (window_pos q Hok) as Hw. unfold got at 1.
  rewrite Hwin, Hcum, <- Zplus_mod_idemp_l, at_offset_mod, Zplus_mod_idemp_l by done.
  destruct (o + d <=? window q) eqn:E; go_bool.
  - replace (cumulativeTSN q + d + o) with (cumulativeTSN q + (o + d)) by lia.
    rewrite Hbits by lia. replace (d <? o + d) with true by (symmetry; apply Z.ltb_lt; lia). done.
  - replace (cumulativeTSN q + d + o) with (cumulativeTSN q + (o + d - window q) + 1 * window q) by lia.
    rewrite Z_mod_plus_full, Hbits by lia.
    replace (d <? o + d - window q) with false by (symmetry; apply Z.ltb_ge; lia). done.
Qed.

Lemma shift_offsets q q' d :
  recv_ok q -> aligned q -> 0 <= d <= window q ->
  window q' = window q -> cumulativeTSN q' = at_offset q d ->
  (forall o, 1 <= o <= window q ->
     mbit (tsnBitmask q') ((cumulativeTSN q + o) mod window q) = (d <? o) && got q o) ->
  offsets q' = map (fun o => o - d) (filter (fun o => d < o) (offsets q)).
Proof.
  intros Hok Ha Hd Hwin Hcum Hbits. pose proof (window_pos q Hok) as Hw.
  apply sorted_eq; [apply offsets_sorted| |].
  - assert (Hmono : forall l, StronglySorted Z.lt l -> StronglySorted Z.lt (map (fun o => o - d) l)).
    { induction 1 as [|x l _ IH Hx]; [constructor|]. cbn. constructor; [done|].
      apply Forall_forall. intros y (z & -> & Hz)%elem_of_map. rewrite Forall_forall in Hx.
      specialize (Hx z Hz). lia. }
    apply Hmono, sorted_filter, offsets_sorted.
  - intros o. rewrite elem_of_map, offsets_spec, Hwin. setoid_rewrite list_elem_of_filter.
    setoid_rewrite offsets_spec. split.
    + intros [Ho Hg]. rewrite (shift_got q q' d) in Hg by done. go_bool.
      exists (o + d). split; [lia|]. split; [lia|]. split; [lia|done].
    + intros (x & -> & Hx & Hxr & Hg). split; [lia|]. rewrite (shift_got q q' d) by (done || lia).
      replace (x - d + d) with x by lia. rewrite Hg.
      replace (x <=? window q) with true by (symmetry; apply Z.leb_le; lia). done.
Qed.

Lemma at_offset_shift q q' d o :
  cumulativeTSN q' = at_offset q d -> at_offset q' o = at_offset q (d + o).
Proof. intros H. unfold at_offset at 1. rewrite H. unfold at_offset. go_lia. Qed.

Lemma shift_received q q' d :
  offsets q' = map (fun o => o - d) (filter (fun o => d < o) (offsets q)) ->
  cumulativeTSN q' = at_offset q d ->
  received q' = map (at_offset q) (filter (fun o => d < o) (offsets q)).
Proof.
  intros Ho Hc. unfold received. rewrite Ho, map_map. apply map_ext. intros o.
  rewrite (at_offset_shift q q' d) by done. f_equal. lia.
Qed.

(** What is left of a queue that still is one. *)
Lemma shift_ok q q' d :
  recv_ok q -> aligned q -> 0 <= d <= window q ->
  length (tsnBitmask q') = length (tsnBitmask q) -> Forall (in_u 64) (tsnBitmask q') ->
  maxTSNOffset q' = maxTSNOffset q -> cumulativeTSN q' = at_offset q d ->
  (forall o, 1 <= o <= window q ->
     mbit (tsnBitmask q') ((cumulativeTSN q + o) mod window q) = (d <? o) && got q o) ->
  chunkSize q' = zlen (filter (fun o => d < o) (offsets q)) ->
  tailTSN q' = (if decide (filter (fun o => d < o) (offsets q) = []) then at_offset q d else tailTSN q) ->
  recv_ok q' /\ received q' = map (at_offset q) (filter (fun o => d < o) (offsets q)).
Proof.
  intros Hok Ha Hd Hlen Hwords Hmax Hcum Hbits Hsize Htail.
  assert (Hwin : window q' = window q) by (unfold window, bitlen; by rewrite Hlen).
  pose proof (shift_offsets q q' d Hok Ha Hd Hwin Hcum Hbits) as Hoff.
  split; [|by apply shift_received]. split.
  - intros H0. apply (r_bm _ Hok), length_zero_iff_nil. by rewrite <- Hlen, H0.
  - rewrite Hmax, Hwin. apply Hok.
  - rewrite Hwin. apply Hok.
  - done.
  - rewrite Hcum. apply at_offset_range.
  - rewrite Hsize, Hoff. unfold zlen. by rewrite length_map.
  - rewrite Htail, Hoff, (at_offset_shift q q' d) by done. case_decide as Hf.
    { rewrite Hf. simpl. f_equal. lia. }
    destruct (top_spec q Hok) as (_ & Hle & Hin). rewrite (r_tail _ Hok). fold (top q).
    assert (Hne : offsets q <> []) by (intros H0; by rewrite H0 in Hf).
    rewrite fmap_last, (sorted_last _ (top q)); cbn.
    + f_equal. lia.
    + apply sorted_filter, offsets_sorted.
    + apply list_elem_of_filter. split; [|by apply Hin].
      destruct (filter _ _) as [|x l] eqn:E; [done|].
      assert (x ∈ filter (fun o => d < o) (offsets q)) as Hx by (rewrite E; by left).
      apply list_elem_of_filter in Hx as [Hx Hx']. specialize (Hle x Hx'). lia.
    + intros x [_ Hx]%list_elem_of_filter. by apply Hle.
Qed.

(** Clearing the bits of [n] TSNs from [at_offset q (k + 1)], all in one word,
    of a mask whose first [k] places are clear. *)
Lemma clear_bits q bm k n w :
  recv_ok q -> aligned q -> 0 <= k -> 0 <= n -> k + n <= window q -> k < window q ->
  length bm = length (tsnBitmask q) ->
  at_offset q (k + 1) mod 64 + n <= 64 ->
  (forall i, 0 <= i < 64 -> Z.testbit w i =
     if (at_offset q (k + 1) mod 64 <=? i) && (i <? at_offset q (k + 1) mod 64 + n) then false
     else Z.testbit (word bm (at_offset q (k + 1))) i) ->
  (forall o, 1 <= o <= window q -> mbit bm ((cumulativeTSN q + o) mod window q) = (k <? o) && got q o) ->
  forall o, 1 <= o <= window q ->
    mbit (set_word bm (at_offset q (k + 1)) w) ((cumulativeTSN q + o) mod window q)
    = (k + n <? o) && got q o.
Proof.
  intros Hok Ha Hk Hn Hkn Hkw Hlen Hmod Hw Hbits o Ho. pose proof (window_pos q Hok) as Hwin.
  assert (Hbl : bitlen bm = window q) by (unfold window, bitlen; by rewrite Hlen).
  rewrite (mbit_patch bm (at_offset q (k + 1)) n w false); try done.
  - rewrite Hbl, at_offset_mod by (done || lia). rewrite Hbits by done.
    destruct (_ && _) eqn:E.
    + go_bool. destruct (k + n <? o) eqn:Ek; [|done]. go_bool. exfalso.
      set (j := (cumulativeTSN q + o) mod window q - (cumulativeTSN q + (k + 1)) mod window q) in *.
      assert (Hj : 0 <= j < n) by (subst j; lia).
      assert (o = k + 1 + j); [|lia]. apply (window_inj q); [done|done|lia|].
      replace (cumulativeTSN q + (k + 1 + j)) with (cumulativeTSN q + (k + 1) + j) by lia.
      rewrite <- (Zplus_mod_idemp_l (cumulativeTSN q + (k + 1))).
      replace ((cumulativeTSN q + (k + 1)) mod window q + j) with ((cumulativeTSN q + o) mod window q)
        by (subst j; lia). by rewrite Zmod_mod.
    + destruct (k <? o) eqn:E1; go_bool.
      2:{ replace (k + n <? o) with false by (symmetry; apply Z.ltb_ge; lia). done. }
      destruct (k + n <? o) eqn:E2; go_bool; [done|]. exfalso.
      pose proof (mod_bitlen (at_offset q (k + 1)) (Z.of_nat (length (tsnBitmask q))) (o - (k + 1))) as M1.
      pose proof (mod_bitlen (at_offset q (k + 1)) (Z.of_nat (length (tsnBitmask q))) 0) as M0.
      fold (bitlen (tsnBitmask q)) in M1, M0. fold (window q) in M1, M0.
      pose proof (at_offset_range q (k + 1)) as [Hr _]. rewrite !Z.add_0_r in M0.
      assert (Hl : 0 < Z.of_nat (length (tsnBitmask q))) by (unfold window, bitlen in Hwin; lia).
      rewrite <- Zplus_mod_idemp_l, at_offset_mod, Zplus_mod_idemp_l in M1 by (done || lia).
      rewrite at_offset_mod in M0 by (done || lia).
      replace (cumulativeTSN q + (k + 1) + (o - (k + 1))) with (cumulativeTSN q + o) in M1 by lia.
      pose proof (Z.mod_pos_bound (at_offset q (k + 1)) 64).
      destruct E as [E|E]; go_bool; lia.
  - intros ->. pose proof (r_bm _ Hok) as H. symmetry in Hlen. by apply length_zero_iff_nil in Hlen.
  - apply at_offset_range.
  - rewrite Hbl. apply Z.mod_pos_bound. lia.
Qed.

(** [w &^ (1 << k)]. *)
Lemma clear_one w k i :
  in_u 64 w -> 0 <= k < 64 -> 0 <= i < 64 ->
  Z.testbit (Z.land w (not64 (Z.shiftl 1 k))) i
  = if (k <=? i) && (i <? k + 1) then false else Z.testbit w i.
Proof.
  intros Hw Hk Hi. rewrite Z.land_spec, testbit_not64, bit_testbit by (done || lia || by apply bit_u64).
  destruct (Z.eqb_spec k i) as [->|Hne]; simpl.
  - rewrite Z.leb_refl. replace (i <? i + 1) with true by (symmetry; apply Z.ltb_lt; lia). apply andb_false_r.
  - destruct ((k <=? i) && _) eqn:E; [go_bool; lia|apply andb_true_r].
Qed.

Lemma filter_gt_all d (l : list Z) : (forall o, o ∈ l -> d < o) -> filter (fun o => d < o) l = l.
Proof.
  induction l as [|x l IH]; intros H; [done|]. rewrite filter_cons_True by (apply H; by left).
  f_equal. apply IH. intros o Ho. apply H. by right.
Qed.

Lemma filter_gt_none d (l : list Z) : (forall o, o ∈ l -> o <= d) -> filter (fun o => d < o) l = [].
Proof.
  induction l as [|x l IH]; intros H; [done|].
  rewrite filter_cons_False by (pose proof (H x (list_elem_of_here _ _)); lia).
  apply IH. intros o Ho. apply H. by right.
Qed.

Lemma filter_lt_sorted d (l : list Z) x r :
  StronglySorted Z.lt l -> l = x :: r -> d = x -> filter (fun o => d < o) l = r.
Proof.
  intros Hs -> ->. inversion Hs as [|? ? _ Hx]; subst. rewrite filter_cons_False by lia.
  apply filter_gt_all. by rewrite Forall_forall in Hx.
Qed.

Lemma filter_first q l :
  recv_ok q -> (forall o, o ∈ l -> 1 <= o <= window q) ->
  map (at_offset q) (filter (fun o => 1 < o) l)
  = filter (fun x => x <> cumulativeTSN q +32 1) (map (at_offset q) l).
Proof.
  intros Hok. pose proof (window_pos q Hok) as Hw.
  induction l as [|o l IH]; intros Hl; [done|]. cbn [map]. rewrite !filter_cons.
  pose proof (Hl o (list_elem_of_here _ _)) as Ho.
  rewrite <- IH by (intros x Hx; apply Hl; by right).
  destruct (decide (1 < o)); case_decide as Hc; [done| | |done].
  - exfalso. change (cumulativeTSN q +32 1) with (at_offset q 1) in Hc.
    apply (f_equal (dist32 (cumulativeTSN q))) in Hc. rewrite !dist_at in Hc by lia. lia.
  - exfalso. apply Hc. replace o with 1 by lia. done.
Qed.

(** [pop] takes the first TSN after the cumulative one off, or only moves on
    when forced. *)
Lemma pop_spec q force :
  recv_ok q -> aligned q ->
  let t := cumulativeTSN q +32 1 in
  let '(ok, q') := pop q force in
  ok = bool_decide (t ∈ received q)
  /\ (if ok || force then
        recv_ok q' /\ cumulativeTSN q' = t /\ received q' = filter (fun x => x <> t) (received q)
        /\ window q' = window q /\ dupTSN q' = dupTSN q
      else q' = q).
Proof.
  intros Hok Ha t. pose proof (window_pos q Hok) as Hw.
  pose proof (hasChunk_at q 1 Hok Ha ltac:(lia)) as Hh. change (at_offset q 1) with t in Hh.
  pose proof (hasChunk_spec q t Hok Ha (at_offset_range q 1)) as Hr.
  pose proof (filter_first q (offsets q)) as Hf. fold t (received q) in Hf.
  specialize (Hf Hok ltac:(intros o [Ho _]%offsets_spec; done)).
  unfold pop. fold t. destruct (hasChunk q t) eqn:E.
  - split; [done|]. cbn [orb]. symmetry in Hh. apply bool_decide_eq_true in Hh.
    destruct (offsets q) as [|o l] eqn:Eo; [by apply not_elem_of_nil in Hh|].
    assert (o = 1) as ->.
    { pose proof (offsets_sorted q) as Hs. rewrite Eo in Hs. inversion Hs as [|? ? _ Hlt]; subst.
      apply elem_of_cons in Hh as [->|Hh]; [done|]. rewrite Forall_forall in Hlt. specialize (Hlt 1 Hh).
      assert (Ho : o ∈ offsets q) by (rewrite Eo; by left). apply offsets_spec in Ho. lia. }
    assert (Hfl : filter (fun o => 1 < o) (offsets q) = l)
      by (eapply filter_lt_sorted; [apply offsets_sorted|exact Eo|done]).
    match goal with |- recv_ok ?x /\ _ => set (q' := x) end.
    destruct (shift_ok q q' 1) as [H1 H2]; try done; try lia.
    + apply length_set_word.
    + apply set_word_u64; [apply Hok|]. apply land_u64; [apply word_u64, Hok|].
      apply not64_u64, bit_u64. apply Z.mod_pos_bound. lia.
    + apply (clear_bits q (tsnBitmask q) 0 1); try done; try lia.
      * pose proof (Z.mod_pos_bound (at_offset q (0 + 1)) 64). lia.
      * intros i Hi. change (at_offset q (0 + 1)) with t. apply clear_one; [apply word_u64, Hok| |done].
        apply Z.mod_pos_bound. lia.
      * intros o Ho. replace (0 <? o) with true by (symmetry; apply Z.ltb_lt; lia). done.
    + rewrite Hfl. change (chunkSize q') with (chunkSize q - 1). rewrite (r_size _ Hok), Eo.
      unfold zlen. cbn [length]. lia.
    + rewrite Hfl. change (tailTSN q') with (tailTSN q). rewrite (r_tail _ Hok), Eo.
      destruct (decide (l = [])) as [Hl|Hl]; [by rewrite Hl|done].
    + split; [done|]. split; [done|]. rewrite H2, Eo. split_and!; try done.
      unfold window, bitlen. cbn. by rewrite length_set_word.
  - symmetry in Hh. apply bool_decide_eq_false in Hh. destruct force; (split; [done|]); cbn [orb]; [|done].
    assert (Hall : filter (fun o => 1 < o) (offsets q) = offsets q).
    { apply filter_gt_all. intros o Ho. pose proof (proj1 (offsets_spec q o) Ho) as [H1 _].
      destruct (decide (o = 1)) as [->|]; [done|lia]. }
    match goal with |- recv_ok ?x /\ _ => set (q' := x) end.
    destruct (shift_ok q q' 1) as [H1 H2]; try done; try lia.
    + apply Hok.
    + intros o Ho. change (mbit (tsnBitmask q') _) with (got q o).
      destruct (1 <? o) eqn:E1; [done|]. go_bool. replace o with 1 by lia.
      destruct (got q 1) eqn:Eg; [|done]. exfalso. apply Hh, offsets_spec. split; [lia|done].
    + rewrite Hall. apply Hok.
    + rewrite Hall. change (tailTSN q') with (if chunkSize q =? 0 then t else tailTSN q).
      destruct (decide (offsets q = [])) as [Hl|Hl]; [by rewrite (proj2 (size_zero q Hok) Hl)|].
      destruct (chunkSize q =? 0) eqn:E0; [by apply size_zero in E0|done].
    + split; [done|]. split; [done|]. rewrite H2. by rewrite Hf.
Qed.

(** ** advanceCumulativeTSN *)

(** The mask of [n] bits from [off] on, as [clearTSNRange] builds it. *)
Definition range_mask (off n : Z) : Z :=
  if n <? 64 then u64 (Z.shiftl (Z.shiftl 1 n - 1) off) else ones64.

Lemma range_mask_bits off n i :
  0 <= off -> 1 <= n -> off + n <= 64 -> 0 <= i < 64 ->
  Z.testbit (range_mask off n) i = (off <=? i) && (i <? off + n).
Proof.
  intros Ho Hn Hon Hi. unfold range_mask. destruct (n <? 64) eqn:E; go_bool.
  - unfold u64, wrap. rewrite Z.mod_pow2_bits_low, Z.shiftl_spec by lia.
    replace (Z.shiftl 1 n - 1) with (Z.ones n) by (unfold Z.ones; lia).
    destruct (Z.leb_spec off i); simpl.
    + destruct (Z.ltb_spec i (off + n)); [apply Z.ones_spec_low|apply Z.ones_spec_high]; lia.
    + apply Z.testbit_neg_r. lia.
  - unfold ones64. replace (2 ^ 64 - 1) with (Z.ones 64) by done. rewrite Z.ones_spec_low by lia.
    symmetry. apply andb_true_iff. rewrite Z.leb_le, Z.ltb_lt. lia.
Qed.

Lemma range_mask_u64 off n : in_u 64 (range_mask off n).
Proof.
  unfold range_mask. destruct (n <? 64); [|unfold in_u, ones64; lia].
  unfold u64, wrap, in_u. apply Z.mod_pos_bound. lia.
Qed.

Lemma ones_spec w i : i ∈ ones w <-> (i < 64)%nat /\ Z.testbit w (Z.of_nat i) = true.
Proof. unfold ones, bits64. rewrite list_elem_of_filter, elem_of_seq. naive_solver lia. Qed.

(** The ones of a part of a word are the places received there. *)
Lemma count_word q bm k n :
  recv_ok q -> aligned q -> 0 <= k -> 1 <= n -> k + n <= window q ->
  length bm = length (tsnBitmask q) -> Forall (in_u 64) bm ->
  let off := at_offset q (k + 1) mod 64 in
  off + n <= 64 ->
  (forall o, 1 <= o <= window q -> mbit bm ((cumulativeTSN q + o) mod window q) = (k <? o) && got q o) ->
  OnesCount64 (Z.land (word bm (at_offset q (k + 1))) (range_mask off n))
  = zlen (filter (fun o => k < o <= k + n) (offsets q)).
Proof.
  intros Hok Ha Hk Hn Hkn Hlen Hw off Hoff Hbits. pose proof (window_pos q Hok) as Hwin.
  set (t := at_offset q (k + 1)) in *. set (w := Z.land _ _).
  assert (Hoff0 : 0 <= off) by (apply Z.mod_pos_bound; lia).
  assert (Hbl : bitlen bm = window q) by (unfold window, bitlen; by rewrite Hlen).
  assert (Hbit : forall j, 0 <= j < n -> Z.testbit (word bm t) (off + j) = got q (k + 1 + j)).
  { intros j Hj. unfold off. rewrite word_bit; [|..].
    - rewrite Hbl. unfold t.
      rewrite <- Zplus_mod_idemp_l, at_offset_mod, Zplus_mod_idemp_l by (done || lia).
      rewrite <- Z.add_assoc, Hbits by lia.
      replace (k <? k + 1 + j) with true by (symmetry; apply Z.ltb_lt; lia). done.
    - intros ->. symmetry in Hlen. apply length_zero_iff_nil in Hlen. by apply (r_bm _ Hok).
    - apply at_offset_range.
    - lia.
    - fold off. lia. }
  assert (Hperm : map (fun i => k + 1 + (Z.of_nat i - off)) (ones w)
                  ≡ₚ filter (fun o => k < o <= k + n) (offsets q)).
  { apply NoDup_Permutation.
    - apply (NoDup_fmap_2_strong (fun i => k + 1 + (Z.of_nat i - off))); [intros; lia|].
      unfold ones, bits64. apply NoDup_filter, NoDup_seq.
    - apply NoDup_filter, offsets_nodup.
    - intros o. rewrite elem_of_map, list_elem_of_filter, offsets_spec. split.
      + intros (i & -> & [Hi Ht]%ones_spec). unfold w in Ht.
        rewrite Z.land_spec, range_mask_bits in Ht by lia. go_bool.
        replace (Z.of_nat i) with (off + (Z.of_nat i - off)) in H by lia.
        rewrite Hbit in H by lia. split; [lia|]. split; [lia|done].
      + intros (Ho & Hr & Hg). exists (Z.to_nat (off + (o - (k + 1)))). split; [lia|].
        apply ones_spec. split; [lia|]. rewrite Z2Nat.id by lia. unfold w.
        rewrite Z.land_spec, range_mask_bits, Hbit by lia. replace (k + 1 + (o - (k + 1))) with o by lia.
        rewrite Hg. simpl. apply andb_true_iff. rewrite Z.leb_le, Z.ltb_lt. lia. }
  unfold OnesCount64, zlen. rewrite <- (Permutation_length Hperm). by rewrite length_map.
Qed.

Lemma filter_split (l : list Z) k n :
  0 <= n -> zlen (filter (fun o => k < o) l)
  = zlen (filter (fun o => k < o <= k + n) l) + zlen (filter (fun o => k + n < o) l).
Proof.
  intros Hn. unfold zlen. induction l as [|x l IH]; [done|]. rewrite !filter_cons.
  destruct (decide (k < x)), (decide (k < x <= k + n)), (decide (k + n < x)); cbn [length]; lia.
Qed.

Lemma clearLoop_spec q d fuel : forall bm size k,
  recv_ok q -> aligned q -> 0 <= k <= d -> d <= window q -> (Z.to_nat (d - k) < fuel)%nat ->
  length bm = length (tsnBitmask q) -> Forall (in_u 64) bm ->
  (forall o, 1 <= o <= window q -> mbit bm ((cumulativeTSN q + o) mod window q) = (k <? o) && got q o) ->
  size = zlen (filter (fun o => k < o) (offsets q)) ->
  exists bm', clearLoop fuel bm size (at_offset q (k + 1)) (d - k)
              = Some (bm', zlen (filter (fun o => d < o) (offsets q)))
    /\ length bm' = length (tsnBitmask q) /\ Forall (in_u 64) bm'
    /\ (forall o, 1 <= o <= window q ->
          mbit bm' ((cumulativeTSN q + o) mod window q) = (d <? o) && got q o).
Proof.
  induction fuel as [|fuel IH]; intros bm size k Hok Ha Hk Hd Hf Hlen Hw Hbits Hsize; [lia|].
  pose proof (window_pos q Hok) as Hwin. cbn [clearLoop].
  destruct (0 <? d - k) eqn:E; go_bool.
  2:{ assert (d = k) as -> by lia. exists bm. by rewrite Hsize. }
  set (t := at_offset q (k + 1)). pose proof (Z.mod_pos_bound t 64 ltac:(lia)) as Hm.
  set (n := Z.min (d - k) (64 - t mod 64)). assert (Hn : 1 <= n <= d - k) by lia.
  fold (range_mask (t mod 64) n).
  replace (t +32 n) with (at_offset q (k + n + 1)) by (unfold t, at_offset; go_lia).
  replace (d - k -32 n) with (d - (k + n)) by go_lia.
  apply IH; try done; try lia.
  - by rewrite length_set_word.
  - apply set_word_u64; [done|]. apply land_u64; [by apply word_u64|apply not64_u64, range_mask_u64].
  - apply clear_bits; try done; try lia; fold t; [lia|].
    intros i Hi. rewrite Z.land_spec, testbit_not64, range_mask_bits by (lia || apply range_mask_u64).
    destruct (_ && (i <? _)); [apply andb_false_r|apply andb_true_r].
  - rewrite Hsize, (filter_split _ k n) by lia. unfold t. rewrite count_word; [lia|done..|lia|lia|lia|done|done| |done].
    fold t. lia.
Qed.

Lemma filter_after q d l :
  0 <= d < 2 ^ 31 -> (forall o, o ∈ l -> 0 <= o < 2 ^ 31) ->
  map (at_offset q) (filter (fun o => d < o) l)
  = filter (fun x => sna32GT x (at_offset q d) = true) (map (at_offset q) l).
Proof.
  intros Hd. induction l as [|o l IH]; intros Hl; [done|]. cbn [map]. rewrite !filter_cons.
  pose proof (Hl o (list_elem_of_here _ _)) as Ho.
  rewrite <- IH by (intros x Hx; apply Hl; by right). rewrite GT_at by lia.
  destruct (decide (d < o)), (Z.ltb_spec d o); try lia; done.
Qed.

Lemma zeroed_ok q cum dups :
  recv_ok q -> in_u 32 cum ->
  let q' := mkRecv cum 0 (map (fun _ => 0) (tsnBitmask q)) dups (maxTSNOffset q) cum in
  recv_ok q' /\ received q' = [] /\ window q' = window q.
Proof.
  intros Hok Hc q'. assert (Hb : bitlen (map (fun _ : Z => 0) (tsnBitmask q)) = window q)
    by (unfold window, bitlen; by rewrite length_map).
  destruct (empty_ok (map (fun _ : Z => 0) (tsnBitmask q)) dups (maxTSNOffset q) cum) as [H1 H2].
  - pose proof (r_bm _ Hok). by destruct (tsnBitmask q).
  - rewrite Hb. apply Hok.
  - rewrite (r_max _ Hok). apply Hok.
  - apply Forall_forall. intros w (? & -> & _)%elem_of_map. done.
  - done.
  - done.
Qed.

Lemma advance_spec q cum :
  recv_ok q -> aligned q -> in_u 32 cum ->
  exists q', advanceCumulativeTSN q cum = Some q' /\ recv_ok q' /\ window q' = window q
    /\ dupTSN q' = dupTSN q
    /\ (if sna32LT (cumulativeTSN q) cum then
          cumulativeTSN q' = cum /\ received q' = filter (fun t => sna32GT t cum = true) (received q)
        else q' = q).
Proof.
  intros Hok Ha Hc. pose proof (window_pos q Hok) as Hw. unfold advanceCumulativeTSN.
  pose proof (r_cum _ Hok) as Hcum.
  destruct (sna32LT (cumulativeTSN q) cum) eqn:Elt; cbn [negb]; [|by exists q].
  apply sna32LT_dist in Elt; [|done|done]. set (d := dist32 (cumulativeTSN q) cum) in *.
  assert (Ed : cum = at_offset q d) by (symmetry; by apply at_dist).
  destruct (top_spec q Hok) as (Ht & Hle & Hin).
  assert (Hoff : forall o, o ∈ offsets q -> 0 <= o < 2 ^ 31) by (intros o [? _]%offsets_spec; lia).
  pose proof (filter_after q d (offsets q) ltac:(lia) Hoff) as Hfa. rewrite <- Ed in Hfa.
  fold (received q) in Hfa.
  destruct ((chunkSize q =? 0) || sna32LTE (tailTSN q) cum) eqn:E.
  - destruct (zeroed_ok q cum (dupTSN q) Hok Hc) as (H1 & H2 & H3).
    eexists. split; [reflexivity|]. split_and!; try done. rewrite H2, <- Hfa. symmetry.
    rewrite filter_gt_none; [done|]. intros o Ho. specialize (Hle o Ho).
    apply orb_prop in E as [E|E].
    + apply size_zero in E; [|done]. rewrite E in Ho. by apply not_elem_of_nil in Ho.
    + rewrite Ed, (r_tail _ Hok) in E. fold (top q) in E. rewrite LTE_at in E by lia. go_bool. lia.
  - apply orb_false_iff in E as [E0 E1]. rewrite Ed, (r_tail _ Hok) in E1. fold (top q) in E1.
    rewrite LTE_at in E1 by lia. go_bool.
    assert (Hr : u32 (cum - (cumulativeTSN q +32 1) + 1) = d).
    { subst d. unfold dist32 in *. clear - Hcum Hc. go_lia. }
    unfold clearTSNRange. rewrite Hr.
    destruct (clearLoop_spec q d (S (Z.to_nat d)) (tsnBitmask q) (chunkSize q) 0) as (bm & Hrun & Hlen & Hwd & Hbits);
      try done; try lia.
    + apply Hok.
    + intros o Ho. replace (0 <? o) with true by (symmetry; apply Z.ltb_lt; lia). done.
    + rewrite filter_gt_all; [apply Hok|]. intros o [? _]%offsets_spec. lia.
    + rewrite Z.sub_0_r in Hrun. change (at_offset q (0 + 1)) with (cumulativeTSN q +32 1) in Hrun.
      rewrite Hrun. cbn [mbind option_bind fst snd]. eexists. split; [reflexivity|].
      match goal with |- recv_ok ?x /\ _ => set (q' := x) end.
      destruct (shift_ok q q' d) as [H1 H2]; try done; try lia.
      * change (tailTSN q') with (if zlen (filter (fun o => d < o) (offsets q)) =? 0 then cum else tailTSN q).
        unfold zlen. destruct (decide _) as [Hf|Hf]; [by rewrite Hf|].
        destruct (filter _ _); [done|]. done.
      * split_and!; try done; [|by rewrite H2]. unfold window, bitlen. by rewrite <- Hlen.
Qed.

(** ** push and canPush *)

Lemma GT_limit q t :
  recv_ok q -> in_u 32 t ->
  sna32GT t (cumulativeTSN q +32 maxTSNOffset q) = false <->
  dist32 (cumulativeTSN q) t <= window q \/ 2 ^ 31 + window q < dist32 (cumulativeTSN q) t.
Proof.
  intros Hok Ht. pose proof (window_pos q Hok) as Hw. rewrite (r_max _ Hok).
  rewrite <- not_true_iff_false, sna32GT_dist by (done || apply u32_range).
  pose proof (r_cum _ Hok) as Hc. unfold dist32. go_lia.
Qed.

Lemma push_spec q t :
  recv_ok q -> aligned q -> in_u 32 t ->
  let fresh := bool_decide (1 <= dist32 (cumulativeTSN q) t <= window q /\ t ∉ received q) in
  let '(ok, q') := push q t in
  ok = fresh /\ canPush q t = fresh
  /\ recv_ok q' /\ window q' = window q /\ cumulativeTSN q' = cumulativeTSN q
  /\ (forall x, x ∈ received q' <-> (ok = true /\ x = t) \/ x ∈ received q)
  /\ (dupTSN q' = dupTSN q \/ (ok = false /\ dupTSN q' = dupTSN q ++ [t])).
Proof.
  intros Hok Ha Ht fresh. pose proof (window_pos q Hok) as Hw. pose proof (r_cum _ Hok) as Hc.
  pose proof (GT_limit q t Hok Ht) as Hgt. pose proof (hasChunk_spec q t Hok Ha Ht) as Hh.
  set (d := dist32 (cumulativeTSN q) t) in *.
  assert (Hd : 0 <= d < 2 ^ 32) by (subst d; unfold dist32; apply u32_range).
  assert (Et : t = at_offset q d) by (symmetry; by apply at_dist).
  pose proof (LTE_cum q d Hc Hd) as Hle. rewrite <- Et in Hle.
  assert (Hin : d ∈ offsets q <-> t ∈ received q) by (rewrite received_spec by done; unfold d; tauto).
  unfold push, canPush. destruct (sna32GT t (cumulativeTSN q +32 maxTSNOffset q)) eqn:E1.
  { rewrite orb_true_r. assert (Hf : fresh = false).
    { apply bool_decide_eq_false. intros [? _]. assert (true = false) by (apply Hgt; lia). done. }
    rewrite Hf. split_and!; try done; [intros x; naive_solver|by left]. }
  rewrite orb_false_r, (orb_comm (hasChunk q t)).
  destruct (sna32LTE t (cumulativeTSN q) || hasChunk q t) eqn:E2.
  - assert (Hf : fresh = false).
    { apply bool_decide_eq_false. intros [Hr Hn]. apply orb_prop in E2 as [E2|E2].
      - rewrite Hle in E2. apply orb_prop in E2 as [E2|E2]; go_bool; lia.
      - rewrite Hh in E2. by apply bool_decide_eq_true in E2. }
    rewrite Hf. split_and!; try done; [|intros x; naive_solver|by right].
    destruct Hok; split; done.
  - apply orb_false_iff in E2 as [E2 E3]. rewrite Hle in E2. apply orb_false_iff in E2 as [E2 E4]. go_bool.
    assert (Hr : 1 <= d <= window q) by (apply proj1 in Hgt; specialize (Hgt eq_refl); lia).
    rewrite Hh in E3. apply bool_decide_eq_false in E3.
    assert (Hg : got q d = false).
    { apply not_true_iff_false. intros Hg. apply E3, Hin, offsets_spec. done. }
    assert (Hf : fresh = true) by (by apply bool_decide_eq_true).
    pose proof (push_new_ok q d Hok Ha Hr Hg) as (H1 & H2 & H3). rewrite <- Et in H1, H2, H3.
    match goal with |- _ /\ _ /\ recv_ok ?x /\ _ => set (q' := x) in * end.
    split_and!; try done; [|by left].
    intros x. rewrite !received_spec by done. change (cumulativeTSN q') with (cumulativeTSN q).
    rewrite H3. split.
    + intros [Hx [Hd'|Hd']]; [left|by right]. split; [done|].
      rewrite <- (at_dist q x Hx), Hd'. by symmetry.
    + intros [[_ ->]|[Hx Hd']]; [|tauto]. split; [done|]. by left.
Qed.

(** ** Gap ack blocks *)

(** The maximal runs of consecutive numbers of a sorted list. *)
Fixpoint runs (l : list Z) : list (Z * Z) :=
  match l with
  | [] => []
  | x :: r =>
      match runs r with
      | (s, e) :: bs => if s =? x + 1 then (x, e) :: bs else (x, x) :: (s, e) :: bs
      | [] => [(x, x)]
      end
  end.

Definition gap (b : Z * Z) : gapAckBlock := mkGap b.1 b.2.

(** The first block of a list starts with its first number. *)
Lemma runs_head x r : exists e bs, runs (x :: r) = (x, e) :: bs.
Proof. cbn. destruct (runs r) as [|[s e] bs]; [by eauto|]. destruct (s =? x + 1); eauto. Qed.

Lemma runs_segment n : forall s r,
  (forall x, x ∈ r -> s + Z.of_nat n + 1 < x) ->
  runs (seqZ s (Z.of_nat n + 1) ++ r) = (s, s + Z.of_nat n) :: runs r.
Proof.
  induction n as [|n IH]; intros s r Hr; rewrite seqZ_cons by lia.
  - rewrite seqZ_nil by lia. cbn [app]. rewrite Z.add_0_r. destruct r as [|x r]; [done|].
    destruct (runs_head x r) as (e & bs & E). cbn [runs]. cbn [runs] in E. rewrite E.
    specialize (Hr x (list_elem_of_here _ _)).
    replace (x =? s + 1) with false by (symmetry; apply Z.eqb_neq; lia). done.
  - replace (Z.pred (Z.of_nat (S n) + 1)) with (Z.of_nat n + 1) by lia. cbn [app runs].
    rewrite <- Z.add_1_r, IH by (intros x Hx; specialize (Hr x Hx); lia).
    rewrite Z.eqb_refl. do 2 f_equal. lia.
Qed.

(** The numbers from [s] on of a sorted list that has all of [s .. e] but not [e + 1]. *)
Lemma runs_from l s e :
  StronglySorted Z.lt l -> s <= e -> (forall x, s <= x <= e -> x ∈ l) -> e + 1 ∉ l ->
  runs (filter (fun o => s <= o) l) = (s, e) :: runs (filter (fun o => e + 1 <= o) l).
Proof.
  intros Hs Hse Hin Hout.
  assert (E : filter (fun o => s <= o) l
              = seqZ s (Z.of_nat (Z.to_nat (e - s)) + 1) ++ filter (fun o => e + 1 <= o) l).
  { apply sorted_eq.
    - by apply sorted_filter.
    - apply StronglySorted_app_2; [|apply sorted_seqZ|by apply sorted_filter].
      intros x y Hx%elem_of_seqZ [Hy _]%list_elem_of_filter. lia.
    - intros x. rewrite elem_of_app, !list_elem_of_filter, elem_of_seqZ. split.
      + intros [Hx Hl]. destruct (decide (x <= e)); [left; lia|right; split; [lia|done]].
      + intros [Hx|[Hx Hl]]; [split; [lia|apply Hin; lia]|split; [lia|done]]. }
  rewrite E, runs_segment.
  - do 2 f_equal. lia.
  - intros x [Hx Hl]%list_elem_of_filter. destruct (decide (x = e + 1)) as [->|]; [done|lia].
Qed.

(** [getFirstNonZeroBit] finds the first one from [start] on. *)
Lemma getFirstNonZeroBit_spec w start :
  in_u 64 w -> 0 <= start < 64 ->
  let '(p, ok) := getFirstNonZeroBit w start 64 in
  start <= p /\ ok = (p <? 64)
  /\ (forall i, start <= i < Z.min p 64 -> Z.testbit w i = false)
  /\ (p < 64 -> Z.testbit w p = true).
Proof.
  intros Hw Hs. unfold getFirstNonZeroBit, TrailingZeros64. set (v := Z.shiftr w start).
  assert (Hv : forall i, 0 <= i -> Z.testbit v i = Z.testbit w (i + start))
    by (intros i Hi; unfold v; by rewrite Z.shiftr_spec).
  assert (Hsort : forall m n, StronglySorted lt (seq m n)).
  { intros m n. revert m. induction n as [|n IH]; intros m; cbn; constructor; [done|].
    apply Forall_forall. intros x Hx%elem_of_seq. lia. }
  assert (Hmem : forall i, 0 <= i < 64 -> Z.testbit v i = true -> Z.to_nat i ∈ ones v).
  { intros i Hi Hb. apply ones_spec. rewrite Z2Nat.id by lia. split; [lia|done]. }
  destruct (ones v) as [|a r] eqn:E.
  - split_and!; [lia|done| |lia]. intros i Hi. apply not_true_iff_false. intros Hb.
    apply (not_elem_of_nil (Z.to_nat (i - start))), Hmem; [lia|].
    rewrite Hv by lia. by replace (i - start + start) with i by lia.
  - assert (Ha : a ∈ ones v) by (rewrite E; by left). apply ones_spec in Ha as [Ha Hb].
    split_and!; [lia|done| |].
    + intros i Hi. apply not_true_iff_false. intros Hbi.
      assert (Hin : Z.to_nat (i - start) ∈ a :: r).
      { apply Hmem; [lia|]. rewrite Hv by lia. by replace (i - start + start) with i by lia. }
      assert (Hlt : forall x, x ∈ r -> (a < x)%nat).
      { assert (Hss : StronglySorted lt (ones v)).
        { unfold ones, bits64. generalize (Hsort 0%nat 64%nat). generalize (seq 0 64). clear.
          induction 1 as [|x l Hs IH Hx]; [constructor|]. rewrite filter_cons. case_decide; [|done].
          constructor; [done|]. apply Forall_forall. intros y [_ Hy]%list_elem_of_filter.
          rewrite Forall_forall in Hx. by apply Hx. }
        rewrite E in Hss. inversion Hss as [|? ? _ Hf]; subst. by rewrite Forall_forall in Hf. }
      apply elem_of_cons in Hin as [Hin|Hin]; [lia|]. specialize (Hlt _ Hin). lia.
    + intros _. rewrite <- Hv by lia. done.
Qed.

Lemma getFirstZeroBit_spec w start :
  in_u 64 w -> 0 <= start < 64 ->
  let '(p, ok) := getFirstZeroBit w start 64 in
  start <= p /\ ok = (p <? 64)
  /\ (forall i, start <= i < Z.min p 64 -> Z.testbit w i = true)
  /\ (p < 64 -> Z.testbit w p = false).
Proof.
  intros Hw Hs. unfold getFirstZeroBit.
  pose proof (getFirstNonZeroBit_spec (not64 w) start (not64_u64 w Hw) Hs) as H.
  destruct (getFirstNonZeroBit _ _ _) as [p ok]. destruct H as (H1 & H2 & H3 & H4).
  split_and!; try done.
  - intros i Hi. specialize (H3 i Hi). rewrite testbit_not64 in H3 by (done || lia). by apply negb_false_iff.
  - intros Hp. specialize (H4 Hp). rewrite testbit_not64 in H4 by (done || lia). by apply negb_true_iff.
Qed.

(** The bits of one word of the queue's mask. *)
Lemma word_got_from q o j :
  recv_ok q -> aligned q -> 1 <= o -> 0 <= j -> o + j <= window q -> at_offset q o mod 64 + j < 64 ->
  Z.testbit (word (tsnBitmask q) (at_offset q o)) (at_offset q o mod 64 + j) = got q (o + j).
Proof.
  intros Hok Ha Ho Hj Hoj Hm. rewrite word_bit; [|apply Hok|apply at_offset_range|lia|done].
  fold (window q). unfold got.
  rewrite <- Zplus_mod_idemp_l, at_offset_mod, Zplus_mod_idemp_l by (done || lia).
  by rewrite <- Z.add_assoc.
Qed.

(** What is left to scan: at place [o], inside a block that started at [s] or
    outside of one; and what is left of it, as a measure. *)
Definition pending (q : receivePayloadQueue) (o : Z) (start : option Z) : list (Z * Z) :=
  match start with
  | None => runs (filter (fun x => o <= x) (offsets q))
  | Some s => runs (filter (fun x => s <= x) (offsets q))
  end.

Definition scan_inv (q : receivePayloadQueue) (o : Z) (start : option Z) : Prop :=
  match start with
  | None => 1 <= o <= window q + 64
  | Some s => 1 <= s <= o /\ o <= top q /\ got q s = true /\ (forall x, s <= x < o -> got q x = true)
  end.

Definition scan_measure (q : receivePayloadQueue) (o : Z) (start : option Z) : Z :=
  3 * Z.max 0 (top q + 1 - o) +
  match start with None => 1 | Some _ => if got q o then 0 else 2 end.

Lemma take_all_app {A} (l r : list A) n : n = length l -> take n (l ++ r) = l.
Proof. intros ->. by rewrite take_app_length. Qed.

Lemma filter_skip (l : list Z) o o' :
  o <= o' -> (forall x, x ∈ l -> o <= x -> o' <= x) ->
  filter (fun x => o <= x) l = filter (fun x => o' <= x) l.
Proof.
  intros Hoo. induction l as [|x l IH]; intros H; [done|]. rewrite !filter_cons.
  rewrite IH by (intros y Hy; apply H; by right). pose proof (H x (list_elem_of_here _ _)).
  destruct (decide (o <= x)), (decide (o' <= x)); try done; exfalso; lia.
Qed.

Lemma pending_skip q o o' :
  o <= o' -> (forall x, o <= x < o' -> x <= window q -> got q x = false) ->
  pending q o None = pending q o' None.
Proof.
  intros Ho Hx. cbn. f_equal. apply filter_skip; [done|]. intros x [Hr Hg]%offsets_spec Hox.
  destruct (decide (o' <= x)); [done|]. rewrite Hx in Hg by lia. done.
Qed.

(** One step of the scan outside of a block. *)
Lemma scan_none q o :
  recv_ok q -> aligned q -> offsets q <> [] -> 1 <= o <= top q ->
  let off := at_offset q o mod 64 in
  let '(p, ok) := getFirstNonZeroBit (word (tsnBitmask q) (at_offset q o)) off 64 in
  off <= p /\ (if ok then o + (p - off) <= top q /\ got q (o + (p - off)) = true
                /\ pending q o None = pending q (o + (p - off)) None
    else o + (64 - off) <= top q /\ pending q o None = pending q (o + (64 - off)) None).
Proof.
  intros Hok Ha Hne Ho off. destruct (top_spec q Hok) as (Ht & _ & Hin). specialize (Hin Hne).
  apply offsets_spec in Hin as [_ Hgt]. pose proof (Z.mod_pos_bound (at_offset q o) 64 ltac:(lia)) as Hoff.
  fold off in Hoff. set (w := word _ _).
  pose proof (getFirstNonZeroBit_spec w off (word_u64 _ _ (r_words _ Hok)) Hoff) as H.
  destruct (getFirstNonZeroBit w off 64) as [p ok]. destruct H as (H1 & -> & H3 & H4). split; [done|].
  assert (Hw : forall j, 0 <= j -> o + j <= window q -> off + j < 64 -> Z.testbit w (off + j) = got q (o + j))
    by (intros j ? ? ?; by apply word_got_from; try lia).
  assert (Hz : forall x, o <= x < o + (Z.min p 64 - off) -> x <= window q -> got q x = false).
  { intros x Hx Hxw. replace x with (o + (x - o)) by lia. rewrite <- Hw by lia. apply H3. lia. }
  assert (Htop : o + (Z.min p 64 - off) <= top q).
  { destruct (decide (o + (Z.min p 64 - off) <= top q)); [done|]. rewrite Hz in Hgt by lia. done. }
  destruct (p <? 64) eqn:E; go_bool.
  - rewrite (Z.min_l p 64) in * by lia. split_and!; [done| |by apply pending_skip; [lia|]].
    rewrite <- Hw by lia. replace (off + (p - off)) with p by lia. by apply H4.
  - rewrite (Z.min_r p 64) in * by lia. split; [done|]. apply pending_skip; [lia|done].
Qed.

(** One step of the scan inside of a block. *)
Lemma scan_some q o :
  recv_ok q -> aligned q -> 1 <= o <= top q ->
  let off := at_offset q o mod 64 in
  let '(p, ok) := getFirstZeroBit (word (tsnBitmask q) (at_offset q o)) off 64 in
  let o' := if ok then o + (p - off) else o + (64 - off) in
  off <= p /\ o <= o' <= o + 64 /\ (ok = false -> o < o') /\ (got q o = true -> o < o')
  /\ (forall x, o <= x < o' -> x <= top q -> got q x = true)
  /\ (ok = true -> o' <= top q -> got q o' = false).
Proof.
  intros Hok Ha Ho off. destruct (top_spec q Hok) as (Ht & _ & _).
  pose proof (Z.mod_pos_bound (at_offset q o) 64 ltac:(lia)) as Hoff.
  fold off in Hoff. set (w := word _ _).
  pose proof (getFirstZeroBit_spec w off (word_u64 _ _ (r_words _ Hok)) Hoff) as H.
  destruct (getFirstZeroBit w off 64) as [p ok]. destruct H as (H1 & -> & H3 & H4).
  assert (Hw : forall j, 0 <= j -> o + j <= window q -> off + j < 64 -> Z.testbit w (off + j) = got q (o + j))
    by (intros j ? ? ?; by apply word_got_from; try lia).
  assert (Hg : forall x, o <= x < o + (Z.min p 64 - off) -> x <= top q -> got q x = true).
  { intros x Hx Hxw. replace x with (o + (x - o)) by lia. rewrite <- Hw by lia. apply H3. lia. }
  destruct (p <? 64) eqn:E; go_bool; cbn zeta.
  - rewrite (Z.min_l p 64) in * by lia.
    assert (Hend : o + (p - off) <= top q -> got q (o + (p - off)) = false).
    { intros Hx. rewrite <- Hw by lia. replace (off + (p - off)) with p by lia. by apply H4. }
    split_and!; try done; try lia.
    intros Hgo. destruct (decide (p = off)) as [->|]; [|lia].
    rewrite Z.sub_diag, Z.add_0_r in Hend. rewrite Hend in Hgo by lia. done.
  - rewrite (Z.min_r p 64) in * by lia. split_and!; try done; try lia.
Qed.

(** Closing a block that started at [s] before place [e + 1]. *)
Lemma pending_close q s e :
  recv_ok q -> 1 <= s <= e -> e <= top q -> (forall x, s <= x <= e -> got q x = true) ->
  (e < top q -> got q (e + 1) = false) ->
  pending q 0 (Some s) = (s, e) :: pending q (e + 1) None.
Proof.
  intros Hok Hs He Hg Hend. destruct (top_spec q Hok) as (Ht & Hle & _). cbn. apply runs_from.
  - apply offsets_sorted.
  - lia.
  - intros x Hx. apply offsets_spec. split; [lia|]. by apply Hg.
  - intros Hin. pose proof (Hle _ Hin). apply offsets_spec in Hin as [_ Hin]. rewrite Hend in Hin by lia. done.
Qed.

Lemma pending_past_top q o : recv_ok q -> top q < o -> pending q o None = [].
Proof.
  intros Hok Ho. destruct (top_spec q Hok) as (Ht & Hle & _). cbn.
  assert (H : forall l, (forall x, x ∈ l -> x < o) -> filter (fun x => o <= x) l = []).
  { induction l as [|x l IH]; intros H; [done|].
    rewrite filter_cons_False by (pose proof (H x (list_elem_of_here _ _)); lia).
    apply IH. intros y Hy. apply H. by right. }
  rewrite H; [done|]. intros x Hx. specialize (Hle x Hx). lia.
Qed.

Lemma offset_u16 q o x z :
  recv_ok q -> 0 <= z <= window q -> x = at_offset q o + (z - o) - cumulativeTSN q -> u16 (u32 x) = z.
Proof. intros Hok Ho ->. pose proof (window_pos q Hok). unfold at_offset. go_lia. Qed.

Lemma take_done {A} (l r : list A) n : (n <= length l)%nat -> (length l <= n)%nat -> take n (l ++ r) = l.
Proof. intros H1 H2. by rewrite take_app_le, take_ge by lia. Qed.

Lemma gapLoop_spec q n fuel : forall o start blocks,
  recv_ok q -> aligned q -> offsets q <> [] -> 0 <= n ->
  scan_inv q o start ->
  zlen blocks + (if start then 1 else 0) <= n ->
  scan_measure q o start < Z.of_nat fuel ->
  gapLoop fuel q n (at_offset q o) start blocks
  = Some (take (Z.to_nat n) (blocks ++ map gap (pending q o start))).
Proof.
  induction fuel as [|fuel IH]; intros o start blocks Hok Ha Hne Hn Hinv Hlen Hm.
  { unfold scan_measure in Hm. destruct start; [destruct (got q o)|]; lia. }
  pose proof (window_pos q Hok) as Hw. destruct (top_spec q Hok) as (Ht & Hle & Hin).
  unfold zlen in Hlen. cbn [gapLoop]. rewrite (r_tail _ Hok). fold (top q).
  assert (Hor : 1 <= o <= window q + 64) by (destruct start; cbn in Hinv; lia).
  rewrite LTE_at by lia.
  assert (Hoff := Z.mod_pos_bound (at_offset q o) 64 ltac:(lia)).
  assert (Hat : forall x, at_offset q o +32 x = at_offset q (o + x)) by (intros x; unfold at_offset; go_lia).
  destruct (o <=? top q) eqn:E1; go_bool; cbn [andb].
  2:{ destruct start as [s|]; cbn in Hinv; [lia|]. rewrite pending_past_top by done. cbn [map].
      rewrite app_nil_r, take_ge by lia. done. }
  destruct (Z.of_nat (length blocks) <? n) eqn:E2; go_bool.
  2:{ destruct start; [lia|]. by rewrite take_done by lia. }
  destruct start as [s|]; cbn zeta.
  - destruct Hinv as (Hs & _ & Hgs & Hgx). pose proof (scan_some q o Hok Ha ltac:(lia)) as Hstep. cbn zeta in Hstep.
    destruct (getFirstZeroBit _ _ _) as [p ok]. cbn [fst snd].
    set (o' := if ok then _ else _) in Hstep. destruct Hstep as (Hp & Ho' & Hnok & Hgo & Hall & Hend).
    replace (if ok then at_offset q o +32 (p - at_offset q o mod 64) else at_offset q o +32 (64 - at_offset q o mod 64))
      with (at_offset q o') by (unfold o'; rewrite !Hat; by destruct ok).
    rewrite LTE_at, GT_at by lia.
    destruct (top q <? o') eqn:E3; go_bool.
    + replace (o' <=? top q) with false by (symmetry; apply Z.leb_gt; lia). rewrite andb_false_r.
      rewrite (offset_u16 q (top q) _ (top q)) by (done || lia). f_equal. change (pending q o (Some s)) with (pending q 0 (Some s)).
      rewrite (pending_close q s (top q)), (pending_past_top q (top q + 1)); try done; try lia.
      * rewrite take_ge by (rewrite length_app; cbn; lia). done.
      * intros x Hx. destruct (decide (x < o)); [apply Hgx; lia|apply Hall; lia].
    + replace (o' <=? top q) with true by (symmetry; apply Z.leb_le; lia). rewrite andb_true_r.
      assert (Hprev : forall x, s <= x < o' -> got q x = true).
      { intros x Hx. destruct (decide (x < o)); [apply Hgx; lia|apply Hall; lia]. }
      unfold scan_measure in Hm. destruct ok.
      * assert (Hso : s < o').
        { destruct (decide (s = o)) as [->|]; [|lia]. by apply Hgo. }
        specialize (Hend eq_refl E3).
        rewrite (offset_u16 q o _ (o' - 1)) by (done || lia).
        rewrite IH; try done; unfold scan_measure, zlen; try (rewrite length_app; cbn); try lia.
        -- f_equal. rewrite <- app_assoc. change (pending q o (Some s)) with (pending q 0 (Some s)).
           rewrite (pending_close q s (o' - 1)); try done; try lia.
           ++ replace (o' - 1 + 1) with o' by lia. done.
           ++ intros x Hx. apply Hprev. lia.
           ++ intros _. by replace (o' - 1 + 1) with o' by lia.
        -- cbn. lia.
        -- destruct (decide (o' = o)) as [Heq|]; [|destruct (got q o); lia].
           rewrite <- Heq, Hend in Hm. lia.
      * specialize (Hnok eq_refl). rewrite IH; try done; unfold scan_measure.
        -- cbn. split_and!; try done; try lia.
        -- destruct (got q o'), (got q o); lia.
  - pose proof (scan_none q o Hok Ha Hne ltac:(cbn in Hinv; lia)) as Hstep. cbn zeta in Hstep.
    unfold scan_measure in Hm. destruct (getFirstNonZeroBit _ _ _) as [p ok]. cbn [fst snd] in Hstep |- *.
    destruct Hstep as [Hp Hstep]. rewrite !Hat. set (off := at_offset q o mod 64) in *.
    destruct ok; [destruct Hstep as (H1 & H2 & H3)|destruct Hstep as (H1 & H3)].
    + rewrite (offset_u16 q o _ (o + (p - off))) by (done || lia).
      rewrite H3, IH; try done; unfold scan_measure, zlen; try lia.
      * cbn. split_and!; try done; lia.
      * rewrite H2. lia.
    + rewrite H3, IH; try done; unfold scan_measure, zlen; cbn; lia.
Qed.

Lemma runs_spec l :
  StronglySorted Z.lt l ->
  (forall x, x ∈ l <-> exists s e, (s, e) ∈ runs l /\ s <= x <= e)
  /\ StronglySorted (fun a b : Z * Z => a.2 + 1 < b.1) (runs l).
Proof.
  induction 1 as [|x l Hs IH Hx].
  { split; [|constructor]. intros x. split; [by intros ?%not_elem_of_nil|].
    intros (s & e & H & _). by apply not_elem_of_nil in H. }
  destruct IH as [IHm IHs]. rewrite Forall_forall in Hx. cbn [runs].
  assert (Hb : forall s e, (s, e) ∈ runs l -> s <= e -> x < s).
  { intros s e Hin Hse. apply Hx, IHm. exists s, e. split; [done|lia]. }
  assert (Hne : forall s e, (s, e) ∈ runs l -> s <= e).
  { clear. revert l. induction l as [|y l IH]; intros s e Hin; [by apply not_elem_of_nil in Hin|].
    cbn in Hin. destruct (runs l) as [|[s0 e0] bs].
    - apply list_elem_of_singleton in Hin. injection Hin as -> ->. lia.
    - pose proof (IH s0 e0 (list_elem_of_here _ _)). destruct (s0 =? y + 1) eqn:E; go_bool.
      + apply elem_of_cons in Hin as [[= -> ->]|Hin]; [lia|]. apply IH. by right.
      + apply elem_of_cons in Hin as [[= -> ->]|Hin]; [lia|]. by apply IH. }
  destruct (runs l) as [|[s0 e0] bs] eqn:E.
  - split; [|repeat constructor]. intros y. rewrite elem_of_cons, IHm. split.
    + intros [->|(s & e & H & _)]; [|by apply not_elem_of_nil in H].
      exists x, x. split; [by left|lia].
    + intros (s & e & H & Hy). apply list_elem_of_singleton in H. injection H as -> ->. left. lia.
  - pose proof (Hne s0 e0 (list_elem_of_here _ _)) as H0. pose proof (Hb s0 e0 (list_elem_of_here _ _) H0).
    inversion IHs as [|? ? Hss Hlt]; subst. destruct (s0 =? x + 1) eqn:E0; go_bool.
    + split; [|by constructor]. intros y. rewrite elem_of_cons, IHm. split.
      * intros [->|(s & e & Hin & Hy)]; [exists x, e0; split; [by left|lia]|].
        apply elem_of_cons in Hin as [[= -> ->]|Hin]; [exists x, e0; split; [by left|lia]|].
        exists s, e. split; [by right|done].
      * intros (s & e & Hin & Hy). apply elem_of_cons in Hin as [[= -> ->]|Hin].
        -- destruct (decide (y = x)) as [->|]; [by left|right]. exists s0, e0. split; [by left|lia].
        -- right. exists s, e. split; [by right|done].
    + split.
      * intros y. rewrite elem_of_cons, IHm. split.
        -- intros [->|(s & e & Hin & Hy)]; [exists x, x; split; [by left|lia]|].
           exists s, e. split; [by right|done].
        -- intros (s & e & Hin & Hy). apply elem_of_cons in Hin as [[= -> ->]|Hin]; [left; lia|right; eauto].
      * constructor; [done|]. constructor; [cbn; lia|]. apply Forall_forall. intros [s e] Hin.
        rewrite Forall_forall in Hlt. specialize (Hlt _ Hin). cbn in *. lia.
Qed.

(** ** The abstract queue: a cumulative TSN and a set *)

Inductive op :=
| Push (t : Z) | CanPush (t : Z) | Pop (force : bool) | Advance (cum : Z)
| Has (t : Z) | Size | Cumulative | Duplicates.

Inductive result := RBool (b : bool) | RNum (z : Z) | RUnit.

Definition exec (o : op) (q : receivePayloadQueue) : option (result * receivePayloadQueue) :=
  match o with
  | Push t => Some (RBool (push q t).1, (push q t).2)
  | CanPush t => Some (RBool (canPush q t), q)
  | Pop force => Some (RBool (pop q force).1, (pop q force).2)
  | Advance cum => q' ← advanceCumulativeTSN q cum; Some (RUnit, q')
  | Has t => Some (RBool (hasChunk q t), q)
  | Size => Some (RNum (rq_size q), q)
  | Cumulative => Some (RNum (getcumulativeTSN q), q)
  | Duplicates => Some (RUnit, (popDuplicates q).2)
  end.

Definition fresh_in (W : Z) (a : Z * gset Z) (t : Z) : bool :=
  bool_decide (1 <= dist32 a.1 t <= W /\ t ∉ a.2).

Definition aexec (W : Z) (o : op) (a : Z * gset Z) : result * (Z * gset Z) :=
  let next := a.1 +32 1 in
  match o with
  | Push t => (RBool (fresh_in W a t), if fresh_in W a t then (a.1, {[t]} ∪ a.2) else a)
  | CanPush t => (RBool (fresh_in W a t), a)
  | Pop force =>
      (RBool (bool_decide (next ∈ a.2)),
       if bool_decide (next ∈ a.2) || force then (next, a.2 ∖ {[next]}) else a)
  | Advance cum =>
      (RUnit, if sna32LT a.1 cum then (cum, filter (fun t => sna32GT t cum = true) a.2) else a)
  | Has t => (RBool (bool_decide (t ∈ a.2)), a)
  | Size => (RNum (Z.of_nat (size a.2)), a)
  | Cumulative => (RNum a.1, a)
  | Duplicates => (RUnit, a)
  end.

Definition op_tsn (o : op) : Prop :=
  match o with Push t | CanPush t | Advance t | Has t => in_u 32 t | _ => True end.

Definition abs (q : receivePayloadQueue) : Z * gset Z := (cumulativeTSN q, list_to_set (received q)).

Lemma abs_in q t : t ∈ (abs q).2 <-> t ∈ received q.
Proof. cbn. by rewrite elem_of_list_to_set. Qed.

Lemma received_nodup q : recv_ok q -> NoDup (received q).
Proof.
  intros Hok. pose proof (window_pos q Hok). apply (NoDup_fmap_2_strong (at_offset q)).
  - intros x y [Hx _]%offsets_spec [Hy _]%offsets_spec He.
    apply (f_equal (dist32 (cumulativeTSN q))) in He. by rewrite !dist_at in He by lia.
  - apply offsets_nodup.
Qed.

Lemma abs_size q : recv_ok q -> rq_size q = Z.of_nat (base.size (abs q).2).
Proof.
  intros Hok. cbn. rewrite size_list_to_set by by apply received_nodup.
  unfold rq_size, received. rewrite (r_size _ Hok). unfold zlen. by rewrite length_map.
Qed.

Lemma exec_refines o q :
  recv_ok q -> aligned q -> op_tsn o ->
  exists r q', exec o q = Some (r, q') /\ aexec (window q) o (abs q) = (r, abs q')
    /\ recv_ok q' /\ window q' = window q.
Proof.
  intros Hok Ha Ht. destruct o as [t|t|force|cum|t| | |]; cbn in Ht; cbn [exec].
  - pose proof (push_spec q t Hok Ha Ht) as H. destruct (push q t) as [ok q'] eqn:E.
    destruct H as (H1 & _ & H3 & H4 & H5 & H6 & _). eexists _, _. split_and!; try done. cbn [fst snd].
    assert (Hf : fresh_in (window q) (abs q) t = ok) by (rewrite H1; apply bool_decide_ext; by rewrite abs_in).
    cbn [aexec]. rewrite Hf. do 2 f_equal. unfold abs. rewrite H5.
    destruct ok; cbn [fst snd]; f_equal; apply set_eq; intros x;
      rewrite ?elem_of_union, !elem_of_list_to_set, H6; set_solver.
  - pose proof (push_spec q t Hok Ha Ht) as H. destruct (push q t) as [ok q'] eqn:E.
    destruct H as (_ & H2 & _). eexists _, _. split_and!; try done. rewrite H2. cbn [aexec].
    do 2 f_equal. apply bool_decide_ext. by rewrite abs_in.
  - pose proof (pop_spec q force Hok Ha) as H. destruct (pop q force) as [ok q'] eqn:E. cbn zeta in H.
    destruct H as (H1 & H2). cbn [fst snd aexec].
    assert (Hb : bool_decide ((abs q).1 +32 1 ∈ (abs q).2) = ok) by (rewrite H1; apply bool_decide_ext, abs_in).
    rewrite Hb. destruct (ok || force).
    + destruct H2 as (H2 & H3 & H4 & H5 & _). eexists _, _. split_and!; try done. do 2 f_equal.
      unfold abs. rewrite H3, H4. f_equal. apply set_eq. intros x.
      rewrite elem_of_difference, !elem_of_list_to_set, list_elem_of_filter. set_solver.
    + subst q'. by eexists _, _.
  - destruct (advance_spec q cum Hok Ha Ht) as (q' & E & H1 & H2 & _ & H3). rewrite E.
    eexists _, _. split_and!; try done. cbn [aexec]. f_equal. change (abs q).1 with (cumulativeTSN q).
    destruct (sna32LT (cumulativeTSN q) cum); [|by subst q'].
    destruct H3 as [H3 H4]. unfold abs. rewrite H3, H4. f_equal. apply set_eq. intros x.
    cbn [snd]. by rewrite elem_of_filter, !elem_of_list_to_set, list_elem_of_filter.
  - eexists _, _. split_and!; try done. rewrite hasChunk_spec by done. cbn [aexec].
    do 2 f_equal. apply bool_decide_ext, abs_in.
  - eexists _, _. split_and!; try done. by rewrite abs_size.
  - by eexists _, _.
  - eexists _, _. split_and!; try done. destruct Hok; split; done.
Qed.

(** Sequences of operations, and that every state met on the way is aligned. *)
Fixpoint run (ops : list op) (q : receivePayloadQueue) : option (list result * receivePayloadQueue) :=
  match ops with
  | [] => Some ([], q)
  | o :: ops' => r ← exec o q; r' ← run ops' r.2; Some (r.1 :: r'.1, r'.2)
  end.

Fixpoint arun (W : Z) (ops : list op) (a : Z * gset Z) : list result * (Z * gset Z) :=
  match ops with
  | [] => ([], a)
  | o :: ops' => let r := aexec W o a in let r' := arun W ops' r.2 in (r.1 :: r'.1, r'.2)
  end.

Fixpoint run_aligned (ops : list op) (q : receivePayloadQueue) : Prop :=
  match ops with
  | [] => True
  | o :: ops' => aligned q /\ match exec o q with Some r => run_aligned ops' r.2 | None => True end
  end.



(** The blocks, cut to the number asked for. *)
Lemma gapBlocks_runs q n :
  recv_ok q -> aligned q -> getGapAckBlocks q n = Some (take (Z.to_nat n) (map gap (runs (offsets q)))).
Proof.
  intros Hok Ha. pose proof (window_pos q Hok) as Hw. destruct (top_spec q Hok) as (Ht & _ & _).
  unfold getGapAckBlocks. destruct (chunkSize q =? 0) eqn:E0; cbn [orb].
  { apply size_zero in E0; [|done]. rewrite E0. cbn. by rewrite take_nil. }
  assert (Hne : offsets q <> []) by (intros H%(size_zero q Hok); congruence).
  destruct (n <=? 0) eqn:En; go_bool; [by replace (Z.to_nat n) with 0%nat by lia|].
  rewrite (r_max _ Hok). change (cumulativeTSN q +32 1) with (at_offset q 1).
  rewrite gapLoop_spec; try done; unfold scan_measure, zlen; cbn -[Z.mul]; try lia.
  assert (Hf : forall l : list Z, (forall x, x ∈ l -> 1 <= x) -> filter (fun x => 1 <= x) l = l).
  { induction l as [|x l IH]; intros Hl; [done|]. rewrite filter_cons_True by (apply Hl; by left).
    f_equal. apply IH. intros y Hy. apply Hl. by right. }
  rewrite Hf; [done|]. intros x [Hx _]%offsets_spec. lia.
Qed.

(** The Gap Ack Blocks reported in a SACK are exact: they are the maximal
    runs of consecutive received TSNs, as offsets from the cumulative TSN, cut
    to the number of blocks asked for; a TSN ahead is in a block iff it was
    received, blocks are in order and never adjacent; the word-wise scan always
    ends; and the last TSN reported is the greatest received. *)
Theorem gap_ack_blocks_exact q n :
  recv_ok q -> aligned q ->
  getGapAckBlocks q n = Some (take (Z.to_nat n) (map (fun b => mkGap b.1 b.2) (runs (offsets q))))
  /\ (forall o, 1 <= o <= window q ->
        hasChunk q (cumulativeTSN q +32 o) = true
        <-> exists s e, (s, e) ∈ runs (offsets q) /\ s <= o <= e)
  /\ StronglySorted (fun a b : Z * Z => a.2 + 1 < b.1) (runs (offsets q))
  /\ getLastTSNReceived q = last (received q).
Proof.
  intros Hok Ha. pose proof (window_pos q Hok) as Hw. destruct (top_spec q Hok) as (Ht & _ & _).
  destruct (runs_spec _ (offsets_sorted q)) as [Hm Hs]. split_and!.
  - by apply gapBlocks_runs.
  - intros o Ho. change (cumulativeTSN q +32 o) with (at_offset q o). rewrite hasChunk_at by (done || lia).
    rewrite bool_decide_eq_true. apply Hm.
  - done.
  - unfold getLastTSNReceived, received. rewrite fmap_last. destruct (chunkSize q =? 0) eqn:E0.
    + apply size_zero in E0; [|done]. by rewrite E0.
    + rewrite (r_tail _ Hok). destruct (last (offsets q)) as [o|] eqn:El; [done|].
      apply last_None, (size_zero q Hok) in El. congruence.
Qed.

(** TSNs 102, 103 and 110 received after 100. *)
Definition gapped : receivePayloadQueue :=
  (push (push (push (init (newReceivePayloadQueue (getMaxTSNOffset 0)) 100) 102).2 103).2 110).2.

Lemma push_ok q t : recv_ok q -> aligned q -> in_u 32 t -> recv_ok (push q t).2.
Proof.
  intros Hok Ha Ht. pose proof (push_spec q t Hok Ha Ht) as H. destruct (push q t). apply H.
Qed.

Lemma gapped_ok : recv_ok gapped.
Proof.
  unfold gapped. repeat apply push_ok; try (left; vm_compute; reflexivity); try (unfold in_u; lia).
  by apply (new_init_ok 0 100).
Qed.

Lemma gap_ack_blocks_exact_witness :
  getGapAckBlocks gapped 5 = Some [mkGap 2 3; mkGap 10 10]
  /\ getGapAckBlocks gapped 5
     = Some (take 5 (map (fun b => mkGap b.1 b.2) (runs (offsets gapped)))).
Proof.
  split; [vm_compute; reflexivity|].
  apply (gap_ack_blocks_exact gapped 5 gapped_ok). left. vm_compute. reflexivity.
Defined.

(** The place of a TSN in the mask is its value modulo the window, which
    only is a circular numbering when the window divides 2^32.  With the window
    of the default 1 MiB receive buffer (8448 places) and a cumulative TSN near
    2^32, receiving the TSNs 4294967295 and 8000 makes the queue claim it has
    4095 as well, which it then refuses as a duplicate. *)
Theorem recv_queue_wrap_aliases :
  let q0 := init (newReceivePayloadQueue (getMaxTSNOffset 1048576)) 4294967290 in
  let q := (push (push q0 4294967295).2 8000).2 in
  (push q0 4294967295).1 = true /\ sna32GT 4095 (cumulativeTSN q) = true
  /\ sna32LTE 4095 (cumulativeTSN q +32 maxTSNOffset q) = true
  /\ hasChunk q 4095 = true /\ (push q 4095).1 = false /\ dupTSN (push q 4095).2 = [4095].
Proof. vm_compute. done. Qed.
