(* ===== verification/Settings.v ===== *)
(** * Settings payloads (src/go/internal/pionserver/settings_engine.go, media_engine.go)

    A settings_engine or media_engine payload is a decoded map; applying it is
    a sequence of calls on pion's [SettingEngine], [MediaEngine] and interceptor
    registry.  The calls are recorded in order; the ones that can fail take the
    verdict of pion from [engine]. *)

From S2P Require Import Prelude GoValue.
From stdpp Require Import pretty.

Local Open Scope Z_scope.

(** ** The calls *)

(** Durations are nanoseconds in an [int64]. *)
Inductive setting :=
  | DisableActiveTCP (b : bool)
  | DisableCertificateFingerprintVerification (b : bool)
  | DisableCloseByDTLS (b : bool)
  | DisableSRTCPReplayProtection (b : bool)
  | DisableSRTPReplayProtection (b : bool)
  | DetachDataChannels
  | EnableDataChannelBlockWrite (b : bool)
  | EnableSCTPZeroChecksum (b : bool)
  | SetSCTPMaxReceiveBufferSize (n : Z)
  | SetSCTPMaxMessageSize (n : Z)
  | SetSCTPMinCwnd (n : Z)
  | SetSCTPCwndCAStep (n : Z)
  | SetReceiveMTU (n : Z)
  | SetICEMaxBindingRequests (n : Z)
  | SetDTLSReplayProtectionWindow (n : Z)
  | SetSRTCPReplayProtectionWindow (n : Z)
  | SetSRTPReplayProtectionWindow (n : Z)
  | SetEphemeralUDPPortRange (lo hi : Z)
  | SetICETimeouts (disconnected failed keepalive : Z)
  | SetHostAcceptanceMinWait (d : Z)
  | SetSrflxAcceptanceMinWait (d : Z)
  | SetPrflxAcceptanceMinWait (d : Z)
  | SetRelayAcceptanceMinWait (d : Z)
  | SetICERenomination (interval : option Z)
  | SetDTLSRetransmissionInterval (d : Z)
  | SetSCTPRTOMax (d : Z)
  | SetSTUNGatherTimeout (d : Z)
  | SetMulticastDNSHostName (s : string)
  | SetIncludeLoopbackCandidate (b : bool)
  | SetInterfaceFilter (allowed : list string).

#[export] Instance setting_eq_dec : EqDecision setting.
Proof. solve_decision. Defined.

Record codec := mkCodec {
  MimeType : string;
  ClockRate : Z;
  Channels : Z;
  SDPFmtpLine : string;
  RTCPFeedback : list (string * string);
  PayloadType : Z
}.

(** What a MediaEngine and its interceptor registry are given: the codecs in
    order, with the kind, and the interval of the NACK generator. *)
Record media := mkMedia {
  m_codecs : list (bool * codec);   (* [true]: video *)
  m_nack : option Z
}.

(** pion's verdicts: [None] when the call succeeds. *)
Record engine := mkEngine {
  eng_ports : Z -> Z -> option string;
  eng_renomination : option Z -> option string;
  eng_codec : list (bool * codec) -> bool * codec -> option string;
  eng_interceptors : media -> option string
}.

(** ** Applying a payload

    Each statement of the source is a step: the calls it makes, or the error it
    returns. *)
Definition step := (list setting + string)%type.

Fixpoint run_steps (l : list step) (acc : list setting) : list setting * option string :=
  match l with
  | [] => (acc, None)
  | inl s :: l' => run_steps l' (acc ++ s)
  | inr e :: _ => (acc, Some e)
  end.

Definition on {A} (o : option A) (f : A -> setting) : step :=
  inl (match o with Some v => [f v] | None => [] end).

(** [time.Duration(ms) * time.Millisecond]. *)
Definition ms_duration (v : Z) : Z := i64 (v * 1000000).

(** [%T] of a decoded value. *)
Definition type_name (v : value) : string :=
  match v with
  | VNil => "<nil>"
  | VBool _ => "bool"
  | VInt KInt _ => "int" | VInt KInt8 _ => "int8" | VInt KInt16 _ => "int16"
  | VInt KInt32 _ => "int32" | VInt KInt64 _ => "int64"
  | VInt KUint _ => "uint" | VInt KUint8 _ => "uint8" | VInt KUint16 _ => "uint16"
  | VInt KUint32 _ => "uint32" | VInt KUint64 _ => "uint64"
  | VFloat32 _ => "float32" | VFloat64 _ => "float64"
  | VString _ => "string"
  | VBytes _ => "[]uint8"
  | VList _ => "[]interface {}"
  | VMap _ => "map[string]interface {}"
  end.

(** The loop over [interface_whitelist]. *)
Fixpoint whitelist (raw : list value) : list string + string :=
  match raw with
  | [] => inl []
  | VString name :: raw' =>
      match whitelist raw' with inl names => inl (name :: names) | inr e => inr e end
  | item :: _ => inr ("interface_whitelist entries must be strings, got " +:+ type_name item)%string
  end.

Section Apply.
Context (fc : float_conv) (eng : engine) (cfg : gomap).

Definition cfg_bool (k : string) : option bool := as_bool (mget cfg k).

Definition cfg_int (k : string) : option Z := toInt fc (mget cfg k).

Definition port_range : step :=
  match cfg_int "ephemeral_udp_port_min", cfg_int "ephemeral_udp_port_max" with
  | Some portMin, Some portMax =>
      match eng_ports eng (u16 portMin) (u16 portMax) with
      | Some e =>
          inr ("invalid ephemeral UDP port range [" +:+ pretty portMin +:+ ", " +:+ pretty portMax
               +:+ "]: " +:+ e)%string
      | None => inl [SetEphemeralUDPPortRange (u16 portMin) (u16 portMax)]
      end
  | None, None => inl []
  | _, _ => inr "ephemeral_udp_port_min and ephemeral_udp_port_max must be provided together"%string
  end.

Definition ice_timeouts : step :=
  match cfg_int "ice_disconnected_timeout_ms", cfg_int "ice_failed_timeout_ms", cfg_int "ice_keepalive_ms" with
  | Some discMs, Some failMs, Some keepMs =>
      inl [SetICETimeouts (ms_duration discMs) (ms_duration failMs) (ms_duration keepMs)]
  | None, None, None => inl []
  | _, _, _ =>
      inr "ice_disconnected_timeout_ms, ice_failed_timeout_ms, and ice_keepalive_ms must all be provided together"%string
  end.

Definition renomination : step :=
  match cfg_bool "ice_renomination" with
  | Some true =>
      let interval := ms_duration <$> cfg_int "ice_renomination_interval_ms" in
      match eng_renomination eng interval with
      | Some e => inr ("ice_renomination_interval_ms: " +:+ e)%string
      | None => inl [SetICERenomination interval]
      end
  | _ => inl []
  end.

Definition interface_whitelist : step :=
  match as_list (mget cfg "interface_whitelist") with
  | Some raw => match whitelist raw with inl names => inl [SetInterfaceFilter names] | inr e => inr e end
  | None => inl []
  end.

Definition settings_steps : list step :=
    [ on (cfg_bool "disable_active_tcp") DisableActiveTCP;
      on (cfg_bool "disable_certificate_fingerprint_verification") DisableCertificateFingerprintVerification;
      on (cfg_bool "disable_close_by_dtls") DisableCloseByDTLS;
      on (cfg_bool "disable_srtcp_replay_protection") DisableSRTCPReplayProtection;
      on (cfg_bool "disable_srtp_replay_protection") DisableSRTPReplayProtection;
      on (match cfg_bool "detach_data_channels" with Some true => Some tt | _ => None end)
        (fun _ => DetachDataChannels);
      on (cfg_bool "enable_data_channel_block_write") EnableDataChannelBlockWrite;
      on (cfg_bool "enable_sctp_zero_checksum") EnableSCTPZeroChecksum;
      on (cfg_int "sctp_max_receive_buffer_size") (fun v => SetSCTPMaxReceiveBufferSize (u32 v));
      on (cfg_int "sctp_max_message_size") (fun v => SetSCTPMaxMessageSize (u32 v));
      on (cfg_int "sctp_min_cwnd") (fun v => SetSCTPMinCwnd (u32 v));
      on (cfg_int "sctp_cwnd_ca_step") (fun v => SetSCTPCwndCAStep (u32 v));
      on (cfg_int "receive_mtu") (fun v => SetReceiveMTU (u64 v));
      on (cfg_int "ice_max_binding_requests") (fun v => SetICEMaxBindingRequests (u16 v));
      on (cfg_int "dtls_replay_protection_window") (fun v => SetDTLSReplayProtectionWindow (u64 v));
      on (cfg_int "srtcp_replay_protection_window") (fun v => SetSRTCPReplayProtectionWindow (u64 v));
      on (cfg_int "srtp_replay_protection_window") (fun v => SetSRTPReplayProtectionWindow (u64 v));
      port_range;
      ice_timeouts;
      on (cfg_int "host_acceptance_min_wait_ms") (fun v => SetHostAcceptanceMinWait (ms_duration v));
      on (cfg_int "srflx_acceptance_min_wait_ms") (fun v => SetSrflxAcceptanceMinWait (ms_duration v));
      on (cfg_int "prflx_acceptance_min_wait_ms") (fun v => SetPrflxAcceptanceMinWait (ms_duration v));
      on (cfg_int "relay_acceptance_min_wait_ms") (fun v => SetRelayAcceptanceMinWait (ms_duration v));
      renomination;
      on (cfg_int "dtls_retransmission_interval_ms") (fun v => SetDTLSRetransmissionInterval (ms_duration v));
      on (cfg_int "sctp_rto_max_ms") (fun v => SetSCTPRTOMax (ms_duration v));
      on (cfg_int "stun_gather_timeout_ms") (fun v => SetSTUNGatherTimeout (ms_duration v));
      on (match as_string (mget cfg "multicast_dns_host_name") with
          | Some v => if decide (v = ""%string) then None else Some v | None => None end)
        SetMulticastDNSHostName;
      on (cfg_bool "include_loopback_candidate") SetIncludeLoopbackCandidate;
      interface_whitelist ].

Definition applySettingsEngine : list setting * option string := run_steps settings_steps [].

End Apply.

(** ** Media engine *)

(** ASCII [strings.ToUpper]; the keys it is compared with are ASCII and no
    other rune maps to one of their letters. *)
Definition to_upper (a : Ascii.ascii) : Ascii.ascii :=
  let n := Ascii.nat_of_ascii a in
  if ((97 <=? n) && (n <=? 122))%nat then Ascii.ascii_of_nat (n - 32) else a.

Fixpoint ToUpper (s : string) : string :=
  match s with
  | EmptyString => EmptyString
  | String a s' => String (to_upper a) (ToUpper s')
  end.

(** [strings.EqualFold(name, "opus")]: U+017F, the two bytes C5 BF, folds to s. *)
Definition fold_opus (name : string) : bool :=
  bool_decide (ToUpper name = "OPUS"%string)
  || match name with
     | String a (String b (String c (String d (String e EmptyString)))) =>
         bool_decide (ToUpper (String a (String b (String c EmptyString))) = "OPU"%string)
         && bool_decide (Ascii.nat_of_ascii d = 197%nat) && bool_decide (Ascii.nat_of_ascii e = 191%nat)
     | _ => false
     end.

Record codecDef := mkDef { mime : string; pt : Z; rtx : Z; fmtp : string }.

Definition videoCodecDefs (name : string) : option codecDef :=
  if decide (name = "VP8"%string) then Some (mkDef "video/VP8" 96 97 "")
  else if decide (name = "VP9"%string) then Some (mkDef "video/VP9" 98 99 "profile-id=0")
  else if decide (name = "AV1"%string) then Some (mkDef "video/AV1" 45 46 "")
  else None.

Definition videoFeedback : list (string * string) :=
  [("goog-remb", ""); ("ccm", "fir"); ("nack", ""); ("nack", "pli")]%string.

(** The errors of [buildMediaEngine]; [quote] is the [%q] verb. *)
Definition stringList (v : value) : list string + string :=
  match v with
  | VNil => inl []
  | VList items =>
      match mapM as_string items with
      | Some out => inl out
      | None => inr "must be a list of strings"%string
      end
  | _ => inr "must be a list of strings"%string
  end.

Section Media.
Context (fc : float_conv) (eng : engine) (quote : string -> string).

Definition video_codec (def : codecDef) : codec :=
  mkCodec (mime def) 90000 0 (fmtp def) videoFeedback (pt def).

Definition rtx_codec (def : codecDef) : codec :=
  mkCodec "video/rtx" 90000 0 ("apt=" +:+ pretty (pt def))%string [] (rtx def).

Definition opus_codec : codec := mkCodec "audio/opus" 48000 2 "minptime=10;useinbandfec=1" [] 111.

(** One [RegisterCodec]. *)
Definition register (cs : list (bool * codec)) (c : bool * codec) : list (bool * codec) + string :=
  match eng_codec eng cs c with Some e => inr e | None => inl (cs ++ [c]) end.

Fixpoint register_video (names : list string) (cs : list (bool * codec)) : list (bool * codec) + string :=
  match names with
  | [] => inl cs
  | name :: names' =>
      match videoCodecDefs (ToUpper name) with
      | None => inr ("unknown video codec " +:+ quote name)%string
      | Some def =>
          match register cs (true, video_codec def) with
          | inr e => inr e
          | inl cs1 =>
              match register cs1 (true, rtx_codec def) with
              | inr e => inr e
              | inl cs2 => register_video names' cs2
              end
          end
      end
  end.

Fixpoint register_audio (names : list string) (cs : list (bool * codec)) : list (bool * codec) + string :=
  match names with
  | [] => inl cs
  | name :: names' =>
      if fold_opus name then
        match register cs (false, opus_codec) with
        | inr e => inr e
        | inl cs1 => register_audio names' cs1
        end
      else inr ("unknown audio codec " +:+ quote name)%string
  end.

Definition buildMediaEngine (cfg : gomap) : media + string :=
  match stringList (mget cfg "video_codecs") with
  | inr e => inr ("video_codecs: " +:+ e)%string
  | inl video =>
      match register_video video [] with
      | inr e => inr e
      | inl cs =>
          match stringList (mget cfg "audio_codecs") with
          | inr e => inr ("audio_codecs: " +:+ e)%string
          | inl audio =>
              match register_audio audio cs with
              | inr e => inr e
              | inl cs' =>
                  match toInt fc (mget cfg "nack_interval_ms") with
                  | Some ms =>
                      if ms <=? 0 then inr "nack_interval_ms must be positive"%string
                      else
                        let m := mkMedia cs' (Some (ms_duration ms)) in
                        match eng_interceptors eng m with Some e => inr e | None => inl m end
                  | None =>
                      let m := mkMedia cs' None in
                      match eng_interceptors eng m with Some e => inr e | None => inl m end
                  end
              end
          end
      end
  end.

End Media.

(** ** What a payload means *)

(** The keys documented above [applySettingsEngine]. *)
Definition settings_keys : list string :=
  [ "disable_active_tcp"; "disable_certificate_fingerprint_verification"; "disable_close_by_dtls";
    "disable_srtcp_replay_protection"; "disable_srtp_replay_protection"; "detach_data_channels";
    "enable_data_channel_block_write"; "enable_sctp_zero_checksum"; "sctp_max_receive_buffer_size";
    "sctp_max_message_size"; "sctp_min_cwnd"; "sctp_cwnd_ca_step"; "receive_mtu";
    "ice_max_binding_requests"; "dtls_replay_protection_window"; "srtcp_replay_protection_window";
    "srtp_replay_protection_window"; "ephemeral_udp_port_min"; "ephemeral_udp_port_max";
    "ice_disconnected_timeout_ms"; "ice_failed_timeout_ms"; "ice_keepalive_ms";
    "host_acceptance_min_wait_ms"; "srflx_acceptance_min_wait_ms"; "prflx_acceptance_min_wait_ms";
    "relay_acceptance_min_wait_ms"; "dtls_retransmission_interval_ms"; "sctp_rto_max_ms";
    "stun_gather_timeout_ms"; "ice_renomination_interval_ms"; "ice_renomination";
    "multicast_dns_host_name"; "interface_whitelist"; "include_loopback_candidate" ]%string.

(** A payload that is accepted: the settings that need each other come
    together and pion takes them. *)
Record settings_valid (fc : float_conv) (eng : engine) (cfg : gomap) : Prop := {
  sv_ports :
    match cfg_int fc cfg "ephemeral_udp_port_min", cfg_int fc cfg "ephemeral_udp_port_max" with
    | Some lo, Some hi => eng_ports eng (u16 lo) (u16 hi) = None
    | None, None => True
    | _, _ => False
    end;
  sv_timeouts :
    is_Some (cfg_int fc cfg "ice_disconnected_timeout_ms") <-> is_Some (cfg_int fc cfg "ice_failed_timeout_ms");
  sv_keepalive :
    is_Some (cfg_int fc cfg "ice_failed_timeout_ms") <-> is_Some (cfg_int fc cfg "ice_keepalive_ms");
  sv_renomination :
    cfg_bool cfg "ice_renomination" = Some true ->
    eng_renomination eng (ms_duration <$> cfg_int fc cfg "ice_renomination_interval_ms") = None;
  sv_whitelist :
    forall raw, mget cfg "interface_whitelist" = VList raw ->
      forall v, v ∈ raw -> exists name, v = VString name
}.

Lemma run_steps_app l1 l2 acc :
  run_steps (l1 ++ l2) acc =
  match run_steps l1 acc with
  | (acc', None) => run_steps l2 acc'
  | r => r
  end.
Proof. revert acc. induction l1 as [|[s|e] l1 IH]; intros acc; simpl; [done|apply IH|done]. Qed.

(** A run without error keeps every call of every step, in order. *)
Lemma run_steps_ok l : forall acc,
  (run_steps l acc).2 = None <-> Forall (fun s => exists c, s = inl c) l.
Proof.
  induction l as [|[s|e] l IH]; intros acc; simpl.
  - split; [constructor|done].
  - rewrite IH, Forall_cons. naive_solver.
  - split; [done|]. intros [[c Hc] _]%Forall_cons. done.
Qed.

Lemma run_steps_calls l : forall acc,
  (run_steps l acc).2 = None ->
  (run_steps l acc).1 = acc ++ concat (map (fun s => match s with inl c => c | inr _ => [] end) l).
Proof.
  induction l as [|[s|e] l IH]; intros acc H; simpl in *; [by rewrite app_nil_r| |done].
  rewrite IH by done. by rewrite app_assoc.
Qed.

Lemma whitelist_ok raw :
  (exists names, whitelist raw = inl names) <-> forall v, v ∈ raw -> exists name, v = VString name.
Proof.
  induction raw as [|v raw IH]; simpl.
  - split; [|by eexists]. intros _ v Hv. by apply not_elem_of_nil in Hv.
  - split.
    + intros [names H] w [->|Hw]%elem_of_cons.
      * destruct v; try done. by eexists.
      * destruct v; try done. apply IH; [|done]. destruct (whitelist raw); [by eexists|done].
    + intros H. destruct (H v (list_elem_of_here _ _)) as [name ->].
      destruct (proj2 IH) as [names ->]; [|by eexists]. intros w Hw. apply H. by right.
Qed.

(** Which steps can fail, and when they do not. *)
Lemma port_range_ok fc eng cfg :
  (exists c, port_range fc eng cfg = inl c) <->
  match cfg_int fc cfg "ephemeral_udp_port_min", cfg_int fc cfg "ephemeral_udp_port_max" with
  | Some lo, Some hi => eng_ports eng (u16 lo) (u16 hi) = None
  | None, None => True
  | _, _ => False
  end.
Proof.
  unfold port_range. destruct (cfg_int _ _ _), (cfg_int _ _ _); try naive_solver.
  destruct (eng_ports _ _ _); naive_solver.
Qed.

Lemma ice_timeouts_ok fc cfg :
  (exists c, ice_timeouts fc cfg = inl c) <->
  (is_Some (cfg_int fc cfg "ice_disconnected_timeout_ms") <-> is_Some (cfg_int fc cfg "ice_failed_timeout_ms"))
  /\ (is_Some (cfg_int fc cfg "ice_failed_timeout_ms") <-> is_Some (cfg_int fc cfg "ice_keepalive_ms")).
Proof.
  unfold ice_timeouts, is_Some. destruct (cfg_int _ _ _), (cfg_int _ _ _), (cfg_int _ _ _);
    split; intros H; try (by eexists); try (destruct H; done);
    try (split; split; intros [? ?]; by eexists); exfalso; naive_solver.
Qed.

Lemma renomination_ok fc eng cfg :
  (exists c, renomination fc eng cfg = inl c) <->
  (cfg_bool cfg "ice_renomination" = Some true ->
   eng_renomination eng (ms_duration <$> cfg_int fc cfg "ice_renomination_interval_ms") = None).
Proof.
  unfold renomination. destruct (cfg_bool _ _) as [[]|]; [|naive_solver..].
  destruct (eng_renomination _ _); naive_solver.
Qed.

Lemma interface_whitelist_ok cfg :
  (exists c, interface_whitelist cfg = inl c) <->
  (forall raw, mget cfg "interface_whitelist" = VList raw -> forall v, v ∈ raw -> exists name, v = VString name).
Proof.
  unfold interface_whitelist. destruct (mget _ _) as [| | | | | | |raw|]; simpl; try naive_solver.
  split.
  - intros [c Hc] raw' [= <-]. apply whitelist_ok. destruct (whitelist raw); naive_solver.
  - intros H. destruct (proj2 (whitelist_ok raw) (H raw eq_refl)) as [names ->]. by eexists.
Qed.

(** The steps that cannot fail. *)
Lemma on_ok {A} (o : option A) f : exists c, on o f = inl c.
Proof. by eexists. Qed.

Lemma steps_ok fc eng cfg :
  Forall (fun s => exists c, s = inl c) (settings_steps fc eng cfg) <->
  (exists c, port_range fc eng cfg = inl c) /\ (exists c, ice_timeouts fc cfg = inl c)
  /\ (exists c, renomination fc eng cfg = inl c) /\ (exists c, interface_whitelist cfg = inl c).
Proof.
  unfold settings_steps. split.
  - intros H. repeat (apply Forall_cons in H as [? H]). done.
  - intros (H1 & H2 & H3 & H4). repeat (apply Forall_cons; split; [done || apply on_ok|]). constructor.
Qed.

(** The calls of a step. *)
Definition calls (s : step) : list setting := match s with inl c => c | inr _ => [] end.

Definition no_detach (s : step) : Prop := DetachDataChannels ∉ calls s.

Lemma on_no_detach {A} (o : option A) f : (forall v, DetachDataChannels <> f v) -> no_detach (on o f).
Proof. intros H. unfold no_detach, on, calls. destruct o; set_solver. Qed.

Lemma concat_no_detach l : Forall no_detach l -> DetachDataChannels ∉ concat (map calls l).
Proof.
  unfold no_detach. induction 1 as [|s l Hs _ IH]; simpl; [set_solver|].
  intros [H|H]%elem_of_app; [by apply Hs|by apply IH].
Qed.

Lemma detach_step fc eng cfg :
  DetachDataChannels ∈ concat (map calls (settings_steps fc eng cfg))
  <-> cfg_bool cfg "detach_data_channels" = Some true.
Proof.
  set (l := settings_steps fc eng cfg).
  assert (Hl : l = take 5 l ++ on (match cfg_bool cfg "detach_data_channels" with
                     Some true => Some tt | _ => None end) (fun _ => DetachDataChannels) :: drop 6 l)
    by reflexivity.
  assert (H1 : Forall no_detach (take 5 l)) by (repeat constructor; by apply on_no_detach).
  assert (H2 : Forall no_detach (drop 6 l)).
  { unfold l, settings_steps. cbn [drop].
    repeat (apply Forall_cons; split; [try by apply on_no_detach|]); try constructor.
    - unfold no_detach, port_range. repeat case_match; simpl; set_solver.
    - unfold no_detach, ice_timeouts. repeat case_match; simpl; set_solver.
    - unfold no_detach, renomination. repeat case_match; simpl; set_solver.
    - unfold no_detach, interface_whitelist. repeat case_match; simpl; set_solver. }
  rewrite Hl, map_app, concat_app. cbn [map concat]. rewrite !elem_of_app.
  pose proof (concat_no_detach _ H1). pose proof (concat_no_detach _ H2). unfold on. cbn [calls].
  destruct (cfg_bool _ _) as [[]|]; set_solver.
Qed.

(** A settings payload is accepted exactly when the settings that belong
    together are given together, pion accepts the port range and the
    renomination interval, and the interface whitelist has only strings; then
    data channels are detached in pion's engine iff the flag the bridge itself
    reads is set; and keys that are not documented have no effect at all. *)
Theorem settings_accepted_iff_valid fc eng cfg :
  ((applySettingsEngine fc eng cfg).2 = None <-> settings_valid fc eng cfg)
  /\ (settings_valid fc eng cfg ->
      (DetachDataChannels ∈ (applySettingsEngine fc eng cfg).1
       <-> mget cfg "detach_data_channels" = VBool true))
  /\ (forall cfg', (forall k, k ∈ settings_keys -> mget cfg' k = mget cfg k) ->
      applySettingsEngine fc eng cfg' = applySettingsEngine fc eng cfg).
Proof.
  assert (Hiff : (applySettingsEngine fc eng cfg).2 = None <-> settings_valid fc eng cfg).
  { unfold applySettingsEngine. rewrite run_steps_ok, steps_ok.
    rewrite port_range_ok, ice_timeouts_ok, renomination_ok, interface_whitelist_ok.
    split; [intros (? & [? ?] & ? & ?); by split|intros []; tauto]. }
  split; [done|]. split.
  - intros Hv%Hiff. unfold applySettingsEngine in *. rewrite run_steps_calls by done. cbn [app].
    change (fun s : step => match s with inl c => c | inr _ => [] end) with calls.
    rewrite detach_step. unfold cfg_bool, as_bool. clear.
    destruct (mget _ _) as [|[]| | | | | | |]; split; intros H; try done; congruence.
  - intros cfg' Hk. unfold applySettingsEngine, settings_steps, port_range, ice_timeouts, renomination,
      interface_whitelist, cfg_bool, cfg_int, settings_keys in *.
    repeat (rewrite Hk by (repeat (first [apply list_elem_of_here|apply list_elem_of_further]))).
    reflexivity.
Qed.

(** A payload with both ports, all three timeouts and a whitelist. *)
Definition sample_cfg : gomap :=
  [("detach_data_channels", VBool true); ("ephemeral_udp_port_min", VInt KUint16 5000);
   ("ephemeral_udp_port_max", VInt KUint16 6000); ("interface_whitelist", VList [VString "lo"]);
   ("sctp_rto_max_ms", VInt KUint16 1000)]%string.

(** pion takes a range in order. *)
Definition sample_engine : engine :=
  mkEngine (fun lo hi => if hi <? lo then Some "bad port"%string else None) (fun _ => None)
    (fun _ _ => None) (fun _ => None).

Definition sample_fc : float_conv := mkFloatConv (fun _ => 0) (fun _ => 0) (fun _ => 0).

Example sample_applied :
  applySettingsEngine sample_fc sample_engine sample_cfg =
  ([DetachDataChannels; SetEphemeralUDPPortRange 5000 6000; SetSCTPRTOMax 1000000000;
    SetInterfaceFilter ["lo"%string]], None).
Proof. reflexivity. Qed.

(** A media payload that is accepted registers exactly the codecs it
    names, in the order given, each video codec followed by its retransmission
    companion, the video codecs before the audio ones; every name is known, the
    NACK interval is positive, and the payload types announced for a codec and
    its companion are those of the table. *)
Theorem media_codecs_in_order fc eng quote cfg m :
  buildMediaEngine fc eng quote cfg = inl m ->
  exists video audio,
    stringList (mget cfg "video_codecs") = inl video /\ stringList (mget cfg "audio_codecs") = inl audio
    /\ Forall (fun n => is_Some (videoCodecDefs (ToUpper n))) video
    /\ Forall (fun n => fold_opus n = true) audio
    /\ m_codecs m =
         flat_map (fun n => match videoCodecDefs (ToUpper n) with
                            | Some d => [(true, video_codec d); (true, rtx_codec d)]
                            | None => []
                            end) video
         ++ map (fun _ => (false, opus_codec)) audio
    /\ (m_nack m = None \/ exists ms, 0 < ms /\ m_nack m = Some (ms_duration ms)).
Proof.
  unfold buildMediaEngine. intros H.
  destruct (stringList (mget cfg "video_codecs")) as [video|] eqn:Ev; [|done].
  destruct (register_video eng quote video []) as [cs|] eqn:Er; [|done].
  destruct (stringList (mget cfg "audio_codecs")) as [audio|] eqn:Ea; [|done].
  destruct (register_audio eng quote audio cs) as [cs'|] eqn:Eo; [|done].
  assert (Hv : forall names cs0 cs1, register_video eng quote names cs0 = inl cs1 ->
    Forall (fun n => is_Some (videoCodecDefs (ToUpper n))) names
    /\ cs1 = cs0 ++ flat_map (fun n => match videoCodecDefs (ToUpper n) with
         | Some d => [(true, video_codec d); (true, rtx_codec d)] | None => [] end) names).
  { clear. induction names as [|n names IH]; intros cs0 cs1 Hr; simpl in Hr.
    - injection Hr as <-. split; [constructor|by rewrite app_nil_r].
    - destruct (videoCodecDefs (ToUpper n)) as [d|] eqn:Ed; [|done]. unfold register in Hr.
      destruct (eng_codec eng cs0 _); [done|]. destruct (eng_codec eng _ _); [done|].
      destruct (IH _ _ Hr) as [HF ->]. split; [constructor; [rewrite Ed; by eexists|done]|].
      simpl. rewrite Ed. by rewrite <- !app_assoc. }
  assert (Ho : forall names cs0 cs1, register_audio eng quote names cs0 = inl cs1 ->
    Forall (fun n => fold_opus n = true) names
    /\ cs1 = cs0 ++ map (fun _ => (false, opus_codec)) names).
  { clear. induction names as [|n names IH]; intros cs0 cs1 Hr; simpl in Hr.
    - injection Hr as <-. split; [constructor|by rewrite app_nil_r].
    - destruct (fold_opus n) eqn:Ef; [|done]. unfold register in Hr.
      destruct (eng_codec eng cs0 _); [done|]. destruct (IH _ _ Hr) as [HF ->].
      split; [by constructor|]. simpl. by rewrite <- !app_assoc. }
  destruct (Hv _ _ _ Er) as [Hv1 ->]. destruct (Ho _ _ _ Eo) as [Ho1 ->].
  exists video, audio. simpl in H.
  destruct (toInt fc _) as [ms|]; [destruct (ms <=? 0) eqn:Ems; [done|]|];
    destruct (eng_interceptors eng _); try done; injection H as <-; split_and!; try done;
    [right; exists ms; go_bool; done|by left].
Qed.

Lemma media_codecs_in_order_witness :
  exists m, buildMediaEngine sample_fc sample_engine (fun s => s)
              [("video_codecs", VList [VString "av1"; VString "VP8"]); ("audio_codecs", VList [VString "Opus"])]%string
            = inl m
  /\ map (fun c => PayloadType c.2) (m_codecs m) = [45; 46; 96; 97; 111]
  /\ exists video audio,
    stringList (VList [VString "av1"%string; VString "VP8"%string]) = inl video
    /\ stringList (VList [VString "Opus"%string]) = inl audio
    /\ Forall (fun n => is_Some (videoCodecDefs (ToUpper n))) video
    /\ Forall (fun n => fold_opus n = true) audio
    /\ m_codecs m =
         flat_map (fun n => match videoCodecDefs (ToUpper n) with
                            | Some d => [(true, video_codec d); (true, rtx_codec d)]
                            | None => []
                            end) video
         ++ map (fun _ => (false, opus_codec)) audio
    /\ (m_nack m = None \/ exists ms, 0 < ms /\ m_nack m = Some (ms_duration ms)).
Proof.
  eexists. split; [reflexivity|]. split; [reflexivity|].
  apply (media_codecs_in_order sample_fc sample_engine (fun s => s)
           [("video_codecs", VList [VString "av1"; VString "VP8"]); ("audio_codecs", VList [VString "Opus"])]%string).
  reflexivity.
Defined.
