(* ===== verification/Bridge.v ===== *)
(** * The bridge as a state machine

    What the request handlers of handler.go work on: the process-wide registry,
    trace and hooks, the store of send states the registry points into, the
    session's [Handler], and the world outside (pion, the clock, UUIDs) behind
    the class [Env].  The handlers are written in a small state monad with
    panics and blocking; its Hoare triples carry the proofs. *)

From S2P Require Import Prelude GoValue Trace Registry Settings DCSend.

Local Open Scope Z_scope.

(** ** The world outside *)

(** A call into pion returns, returns an error, or panics. *)
Inductive pres (A : Type) := POk (a : A) | PErr (e : string) | PPanic (v : string).
Arguments POk {A} a.
Arguments PErr {A} e.
Arguments PPanic {A} v.

Inductive SDPType := SDPTypeOffer | SDPTypePranswer | SDPTypeAnswer | SDPTypeRollback.

Record ICEServer := mkICEServer {
  URLs : list string;
  Username : string;
  Credential : option string
}.

Inductive BundlePolicy_ := BundlePolicyBalanced | BundlePolicyMaxCompat | BundlePolicyMaxBundle.
Inductive RTCPMuxPolicy_ := RTCPMuxPolicyNegotiate | RTCPMuxPolicyRequire.
Inductive ICETransportPolicy_ := ICETransportPolicyRelay | ICETransportPolicyAll.

(** [None]: left at the zero value. *)
Record Configuration := mkConfiguration {
  ICEServers : list ICEServer;
  BundlePolicy : option BundlePolicy_;
  RTCPMuxPolicy : option RTCPMuxPolicy_;
  ICETransportPolicy : option ICETransportPolicy_
}.

Record DataChannelInit := mkDataChannelInit {
  Ordered : option bool;
  MaxRetransmits : option Z;
  MaxPacketLifeTime : option Z
}.

Record ICECandidateInit := mkICECandidateInit {
  Candidate : string;
  SDPMid : option string;
  SDPMLineIndex : option Z
}.

(** A [webrtc.API]: the calls made on its setting engine, and its media engine
    with the interceptors. *)
Definition API := (list setting * option media)%type.

(** Everything the handlers call that is not in the repository, as a state
    transformer on the state [E] of the outside world. *)
Class Env (E : Type) := {
  env_now : E -> Z * E;
  env_clock : E -> (string -> Z) * E;
  env_uuid : E -> string * E;
  NewPeerConnection : API -> Configuration -> E -> pres positive * E;
  CreateOffer : positive -> E -> pres string * E;
  CreateAnswer : positive -> E -> pres string * E;
  SetLocalDescription : positive -> SDPType -> string -> E -> pres unit * E;
  SetRemoteDescription : positive -> SDPType -> string -> E -> pres unit * E;
  SignalingState : positive -> E -> string * E;
  AddICECandidate : positive -> ICECandidateInit -> E -> pres unit * E;
  pc_Close : positive -> E -> pres unit * E;
  CreateDataChannel : positive -> string -> DataChannelInit -> E -> pres positive * E;
  AddTransceiverFromKind : positive -> Z -> Z -> E -> pres unit * E;
  GetTransceivers : positive -> E -> Z * E;
  dc_Label : positive -> E -> string * E;
  dc_Ordered : positive -> E -> bool * E;
  SetBufferedAmountLowThreshold : positive -> Z -> E -> unit * E;
  dc_Close : positive -> E -> pres unit * E;
  dc_Detach : positive -> E -> pres positive * E;
  pion_Send : positive -> pion_send -> E -> pres unit * E;
  wait_buffer : positive -> positive -> E -> bool * E;
  select_done : E -> bool * E
}.

(** Library functions without state. *)
Record library := mkLibrary {
  lib_fc : float_conv;
  lib_engine : engine;
  lib_quote : string -> string;
  lib_sprint : value -> string;
  lib_json : option gomap -> option gomap -> string + string;
  NewRTPCodecType : string -> Z;
  NewRTPTransceiverDirection : string -> Z
}.

(** ** State *)

Record apiProfile := mkProfile {
  api : API;
  p_detach : bool;
  maxMessageSize : Z
}.

(** [sendEvent] is the connection the session writes to. *)
Record Handler := mkHandler {
  sendEvent : positive;
  dcConfig : DCConfig;
  defaultProfile : apiProfile;
  defaultSE : option gomap;
  defaultME : option gomap;
  profiles : gmap string apiProfile;
  pcProfiles : gmap string apiProfile
}.

(** The callbacks hooked on a channel: the channel, its profile, and whether
    [closeOnce] has fired. *)
Record dcHooks := mkDcHooks {
  hk_dc : positive;
  hk_profile : apiProfile;
  hk_closed : bool
}.

Record world (E : Type) := mkWorld {
  w_env : E;
  w_reg : Registry;
  w_trace : PionTrace;
  w_states : gmap positive DCSendState;
  w_next : positive;
  w_h : Handler;
  w_closed : gset string;            (* [closedOnce] *)
  w_hook : bool;                     (* [closedHook] is installed *)
  w_hooked : list string;            (* the calls of [closedHook] *)
  w_pcs : gmap string positive;      (* PeerConnections whose callbacks are set *)
  w_dcs : gmap string dcHooks;
  w_out : list (positive * Message)  (* what every connection was sent *)
}.
Arguments mkWorld {E}.
Arguments w_env {E}.
Arguments w_reg {E}.
Arguments w_trace {E}.
Arguments w_states {E}.
Arguments w_next {E}.
Arguments w_h {E}.
Arguments w_closed {E}.
Arguments w_hook {E}.
Arguments w_hooked {E}.
Arguments w_pcs {E}.
Arguments w_dcs {E}.
Arguments w_out {E}.

Section Updates.
Context {E : Type}.
Implicit Types w : world E.

Definition set_env w (e : E) := mkWorld e (w_reg w) (w_trace w) (w_states w) (w_next w) (w_h w)
  (w_closed w) (w_hook w) (w_hooked w) (w_pcs w) (w_dcs w) (w_out w).

Definition set_reg w r := mkWorld (w_env w) r (w_trace w) (w_states w) (w_next w) (w_h w)
  (w_closed w) (w_hook w) (w_hooked w) (w_pcs w) (w_dcs w) (w_out w).

Definition set_trace w t := mkWorld (w_env w) (w_reg w) t (w_states w) (w_next w) (w_h w)
  (w_closed w) (w_hook w) (w_hooked w) (w_pcs w) (w_dcs w) (w_out w).

Definition set_states w ss n := mkWorld (w_env w) (w_reg w) (w_trace w) ss n (w_h w)
  (w_closed w) (w_hook w) (w_hooked w) (w_pcs w) (w_dcs w) (w_out w).

Definition set_h w h := mkWorld (w_env w) (w_reg w) (w_trace w) (w_states w) (w_next w) h
  (w_closed w) (w_hook w) (w_hooked w) (w_pcs w) (w_dcs w) (w_out w).

Definition set_closed w c l := mkWorld (w_env w) (w_reg w) (w_trace w) (w_states w) (w_next w) (w_h w)
  c (w_hook w) l (w_pcs w) (w_dcs w) (w_out w).

Definition set_hooks w ps ds := mkWorld (w_env w) (w_reg w) (w_trace w) (w_states w) (w_next w) (w_h w)
  (w_closed w) (w_hook w) (w_hooked w) ps ds (w_out w).

Definition set_out w o := mkWorld (w_env w) (w_reg w) (w_trace w) (w_states w) (w_next w) (w_h w)
  (w_closed w) (w_hook w) (w_hooked w) (w_pcs w) (w_dcs w) o.

End Updates.

(** ** The monad *)

(** [Blocks]: the goroutine waits and does not come back by itself. *)
Inductive outcome (A : Type) := Ret (a : A) | Panics (v : string) | Blocks.
Arguments Ret {A} a.
Arguments Panics {A} v.
Arguments Blocks {A}.

Definition M (E A : Type) := world E -> outcome A * world E.

Section Monad.
Context {E : Type}.

#[global] Instance M_ret : MRet (M E) := fun A a w => (Ret a, w).

#[global] Instance M_bind : MBind (M E) := fun A B k m w =>
  match m w with
  | (Ret a, w') => k a w'
  | (Panics v, w') => (Panics v, w')
  | (Blocks, w') => (Blocks, w')
  end.

Definition gets {A} (f : world E -> A) : M E A := fun w => (Ret (f w), w).

Definition modify (f : world E -> world E) : M E unit := fun w => (Ret tt, f w).

Definition block {A} : M E A := fun w => (Blocks, w).

(** A Go [defer]: [c] runs after [m], also when [m] panics. *)
Definition deferring {A} (c : M E unit) (m : M E A) : M E A := fun w =>
  match m w with
  | (Blocks, w') => (Blocks, w')
  | (r, w') => (r, (c w').2)
  end.

(** A read of the outside world, and a call that may fail or panic. *)
Definition ask {A} (f : E -> A * E) : M E A := fun w =>
  let (a, e) := f (w_env w) in (Ret a, set_env w e).

Definition call {A} (f : E -> pres A * E) : M E (A + string) := fun w =>
  let (r, e) := f (w_env w) in
  (match r with POk a => Ret (inl a) | PErr m => Ret (inr m) | PPanic v => Panics v end, set_env w e).

(** ** Triples

    [hoare P m Q R]: from a state in [P], [m] returns [a] in a state in [Q a],
    or panics or blocks in a state in [R]. *)
Definition hoare {A} (P : world E -> Prop) (m : M E A) (Q : A -> world E -> Prop)
    (R : world E -> Prop) : Prop :=
  forall w, P w -> match m w with
                   | (Ret a, w') => Q a w'
                   | (_, w') => R w'
                   end.

Lemma hoare_ret {A} (P : world E -> Prop) (a : A) Q R :
  (forall w, P w -> Q a w) -> hoare P (mret a) Q R.
Proof. intros H w Hw. by apply H. Qed.

Lemma hoare_bind {A B} P (m : M E A) (k : A -> M E B) Q Q' R :
  hoare P m Q R -> (forall a, hoare (Q a) (k a) Q' R) -> hoare P (m ≫= k) Q' R.
Proof.
  intros Hm Hk w Hw. specialize (Hm w Hw). unfold mbind, M_bind.
  destruct (m w) as [[a| |] w']; [|done..]. by apply Hk.
Qed.

Lemma hoare_conseq {A} (P P' : world E -> Prop) (m : M E A) (Q Q' : A -> world E -> Prop) (R R' : world E -> Prop) :
  hoare P' m Q' R' -> (forall w, P w -> P' w) -> (forall a w, Q' a w -> Q a w) ->
  (forall w, R' w -> R w) -> hoare P m Q R.
Proof.
  intros H HP HQ HR w Hw. specialize (H w (HP w Hw)). destruct (m w) as [[a| |] w']; auto.
Qed.

Lemma hoare_gets {A} (P : world E -> Prop) (f : world E -> A) R :
  hoare P (gets f) (fun a w => P w /\ a = f w) R.
Proof. intros w Hw. by split. Qed.

Lemma hoare_modify (P Q : world E -> Prop) f R :
  (forall w, P w -> Q (f w)) -> hoare P (modify f) (fun _ => Q) R.
Proof. intros H w Hw. by apply H. Qed.

Lemma hoare_block {A} (P R : world E -> Prop) (Q : A -> world E -> Prop) :
  (forall w, P w -> R w) -> hoare P block Q R.
Proof. intros H w Hw. by apply H. Qed.

Lemma hoare_ask {A} (P : world E -> Prop) (f : E -> A * E) (Q : A -> world E -> Prop) R :
  (forall w a e, P w -> f (w_env w) = (a, e) -> Q a (set_env w e)) -> hoare P (ask f) Q R.
Proof. intros H w Hw. unfold ask. destruct (f (w_env w)) as [a e] eqn:Ef. by eapply H. Qed.

Lemma hoare_call {A} (P : world E -> Prop) (f : E -> pres A * E) (Q : A + string -> world E -> Prop) (R : world E -> Prop) :
  (forall w r e, P w -> f (w_env w) = (r, e) ->
     match r with
     | POk a => Q (inl a) (set_env w e)
     | PErr m => Q (inr m) (set_env w e)
     | PPanic _ => R (set_env w e)
     end) -> hoare P (call f) Q R.
Proof.
  intros H w Hw. unfold call. destruct (f (w_env w)) as [r e] eqn:Ef.
  specialize (H w r e Hw Ef). by destruct r.
Qed.

Lemma hoare_deferring {A} P c (m : M E A) (Q Q' : A -> world E -> Prop) (R R' : world E -> Prop) :
  hoare P m Q R -> (forall a w, Q a w -> Q' a (c w).2) -> (forall w, R w -> R' (c w).2) ->
  (forall w, R w -> R' w) -> hoare P (deferring c m) Q' R'.
Proof.
  intros Hm Hc Hr Hb w Hw. specialize (Hm w Hw). unfold deferring.
  destruct (m w) as [[a|v|] w'] eqn:Em; auto.
Qed.

End Monad.
