(* ===== verification/Handler.v ===== *)
(** * Request handlers (src/go/internal/pionserver/handler.go, hooks.go)

    Every handler of [HandleMessage], the callbacks hooked on pion's objects,
    and the read loop of a detached channel, each as one definition in the
    monad of Bridge.v. *)

From S2P Require Import Prelude GoValue Trace Registry Settings DCSend Bridge.

Local Open Scope Z_scope.

Section Handlers.
Context {E : Type} {env : Env E} (lib : library).

Abbreviation M := (M E).

(** ** Registry, events and hooks *)

(** [Lookup] reads the clock only for a handle that is there. *)
Definition registry_Lookup (handle : string) : M (option resource) :=
  r ← gets w_reg;
  match resources r !! handle with
  | None => mret None
  | Some _ =>
      now ← ask env_now;
      modify (fun w => set_reg w (Lookup (w_reg w) handle now).2) ;;
      mret (resources r !! handle)
  end.

Definition registry_Touch (handle : string) : M unit :=
  clk ← ask env_clock; modify (fun w => set_reg w (Touch (w_reg w) handle clk)).

(** The wrapper [NewHandlerWithConfig] puts around the connection's sink. *)
Definition send_event (conn : positive) (m : Message) : M unit :=
  (if decide (Handle m = ""%string) then mret tt else registry_Touch (Handle m)) ;;
  modify (fun w => set_out w (w_out w ++ [(conn, m)])).

Definition h_sendEvent (m : Message) : M unit :=
  conn ← gets (fun w => sendEvent (w_h w)); send_event conn m.

Fixpoint send_all (ms : list (positive * Message)) : M unit :=
  match ms with
  | [] => mret tt
  | (conn, m) :: ms' => send_event conn m ;; send_all ms'
  end.

Definition notifyPCClosed (pcHandle : string) : M unit :=
  modify (fun w =>
    if decide (pcHandle ∈ w_closed w) then w
    else set_closed w ({[pcHandle]} ∪ w_closed w)
           (if w_hook w then w_hooked w ++ [pcHandle] else w_hooked w)).

(** [NewHandlerWithConfig]. *)
Definition NewHandlerWithConfig (conn : positive) (cfg : DCConfig) : Handler :=
  mkHandler conn cfg (mkProfile ([], None) false 0) None None ∅ ∅.

Definition NewHandler (conn : positive) : Handler := NewHandlerWithConfig conn DefaultDCConfig.

(** ** Profiles *)

Inductive profileError := SettingsError (e : string) | MediaEngineError (e : string) | JsonError (e : string).

Definition profileErrorText (e : profileError) : string :=
  match e with
  | SettingsError s | JsonError s => s
  | MediaEngineError s => "media_engine: " +:+ s
  end.

Definition profileErrorCode (e : profileError) : string :=
  match e with MediaEngineError _ => "INVALID_MEDIA_ENGINE" | _ => "INVALID_REQUEST" end.

Definition buildProfile (cfg media : option gomap) : apiProfile + profileError :=
  let se := match cfg with
            | Some c => applySettingsEngine (lib_fc lib) (lib_engine lib) c
            | None => ([], None)
            end in
  match se.2 with
  | Some e => inr (SettingsError e)
  | None =>
      let m := match media with
               | Some c => match buildMediaEngine (lib_fc lib) (lib_engine lib) (lib_quote lib) c with
                           | inl m => inl (Some m) | inr e => inr e end
               | None => inl None
               end in
      match m with
      | inr e => inr (MediaEngineError e)
      | inl m =>
          inl (mkProfile (se.1, m)
                 (match cfg with
                  | Some c => default false (as_bool (mget c "detach_data_channels")) | None => false end)
                 (match cfg with
                  | Some c => default 0 (toInt (lib_fc lib) (mget c "sctp_max_message_size")) | None => 0 end))
      end
  end.

Definition set_profiles (h : Handler) (ps : gmap string apiProfile) : Handler :=
  mkHandler (sendEvent h) (dcConfig h) (defaultProfile h) (defaultSE h) (defaultME h) ps (pcProfiles h).

Definition set_pcProfiles (h : Handler) (ps : gmap string apiProfile) : Handler :=
  mkHandler (sendEvent h) (dcConfig h) (defaultProfile h) (defaultSE h) (defaultME h) (profiles h) ps.

Definition profileFor (cfg media : option gomap) : M (apiProfile + profileError) :=
  match lib_json lib cfg media with
  | inr e => mret (inr (JsonError e))
  | inl key =>
      ps ← gets (fun w => profiles (w_h w));
      match ps !! key with
      | Some p => mret (inl p)
      | None =>
          match buildProfile cfg media with
          | inr e => mret (inr e)
          | inl p =>
              ps' ← gets (fun w => profiles (w_h w));
              match ps' !! key with
              | Some existing => mret (inl existing)
              | None =>
                  modify (fun w => set_h w (set_profiles (w_h w) (<[key := p]> ps'))) ;;
                  mret (inl p)
              end
          end
      end
  end.

Definition setPCProfile (pcHandle : string) (p : apiProfile) : M unit :=
  modify (fun w => set_h w (set_pcProfiles (w_h w) (<[pcHandle := p]> (pcProfiles (w_h w))))).

Definition forgetPCProfile (pcHandle : string) : M unit :=
  modify (fun w => set_h w (set_pcProfiles (w_h w) (delete pcHandle (pcProfiles (w_h w))))).

Definition pcProfile (h : Handler) (pcHandle : string) : apiProfile :=
  default (defaultProfile h) (pcProfiles h !! pcHandle).

(** ** Send states *)

Definition newState (s : DCSendState) : M positive :=
  a ← gets w_next;
  modify (fun w => set_states w (<[a := s]> (w_states w)) (Pos.succ a)) ;;
  mret a.

(** The goroutine it starts is [runSender] below. *)
Definition startDCSendGoroutine (dc : positive) (dcHandle : string) (profile : apiProfile) : M unit :=
  cfg ← gets (fun w => dcConfig (w_h w));
  a ← newState (newDCSendState cfg (p_detach profile));
  '(registered, reg) ← gets (fun w => RegisterDCSendState (w_reg w) dcHandle a);
  if registered : bool then
    modify (fun w => set_reg w reg) ;;
    ask (SetBufferedAmountLowThreshold dc (cfgBufferedAmountLowThreshold cfg))
  else mret tt.

Definition closeStateAt (a : positive) : M unit :=
  ss ← gets w_states;
  match ss !! a with
  | None => mret tt
  | Some s =>
      modify (fun w => set_states w (<[a := (closeState s).1]> (w_states w)) (w_next w)) ;;
      send_all (closeState s).2
  end.

Definition stopDCSendGoroutine (dcHandle : string) : M unit :=
  '(state, reg) ← gets (fun w => RemoveDCSendState (w_reg w) dcHandle);
  modify (fun w => set_reg w reg) ;;
  match state with Some a => closeStateAt a | None => mret tt end ;;
  modify (fun w => set_trace w (ReleaseDC (w_trace w) dcHandle)).

(** One turn of the sender goroutine: it takes the first item, sends it, waits
    for the buffer when asked to, and answers the connection that asked. *)
Definition runSender (dc a : positive) (dcHandle : string) : M unit :=
  ss ← gets w_states;
  match ss !! a with
  | Some s =>
      match work s with
      | [] => mret tt
      | it :: rest =>
          modify (fun w => set_states w
            (<[a := mkSendState rest (workCap s) (done_ s) (threshold s) (detach s) (raw s)]> (w_states w))
            (w_next w)) ;;
          sent ← (match doSend s it with
                  | NotOpen => mret (inr errDetachedNotOpen)
                  | c => call (pion_Send dc c)
                  end);
          drained ← (match sent with
                     | inl _ => if w_awaitDrain it then ask (wait_buffer dc a) else mret true
                     | inr _ => mret true
                     end);
          send_all (omap (fun m => (fun conn => (conn, m)) <$> w_sendEvent it)
            (runDCSend dcHandle it (match sent with inl _ => None | inr e => Some e end) drained))
      end
  | None => mret tt
  end.

(** ** Looking up the handle of a request *)

Definition lookupPC (msg : Message) : M (positive + Message) :=
  if decide (Handle msg = ""%string) then
    mret (inr (ErrorResponse (ID msg) "INVALID_REQUEST" "missing handle" false ""))
  else
    res ← registry_Lookup (Handle msg);
    match res with
    | None =>
        mret (inr (ErrorResponse (ID msg) "NOT_FOUND" ("handle not found: " +:+ Handle msg) false (Handle msg)))
    | Some (ResPC pc) => mret (inl pc)
    | Some _ =>
        mret (inr (ErrorResponse (ID msg) "INVALID_REQUEST" "handle is not a PeerConnection" false (Handle msg)))
    end.

Definition lookupDC (msg : Message) : M (positive + Message) :=
  if decide (Handle msg = ""%string) then
    mret (inr (ErrorResponse (ID msg) "INVALID_REQUEST" "missing handle" false ""))
  else
    res ← registry_Lookup (Handle msg);
    match res with
    | None =>
        mret (inr (ErrorResponse (ID msg) "NOT_FOUND" ("handle not found: " +:+ Handle msg) false (Handle msg)))
    | Some (ResDC dc) => mret (inl dc)
    | Some _ =>
        mret (inr (ErrorResponse (ID msg) "INVALID_REQUEST" "handle is not a DataChannel" false (Handle msg)))
    end.

Definition with_pc (msg : Message) (k : positive -> M Message) : M Message :=
  r ← lookupPC msg; match r with inl pc => k pc | inr errMsg => mret errMsg end.

Definition with_dc (msg : Message) (k : positive -> M Message) : M Message :=
  r ← lookupDC msg; match r with inl dc => k dc | inr errMsg => mret errMsg end.

Definition internalError (msg : Message) (e : string) : Message :=
  ErrorResponse (ID msg) "INTERNAL_ERROR" e false (Handle msg).

Definition badRequest (msg : Message) (e : string) : Message :=
  ErrorResponse (ID msg) "INVALID_REQUEST" e false (Handle msg).

(** ** Callbacks of a DataChannel *)

Definition setupDCCallbacks (dc : positive) (dcHandle : string) (profile : apiProfile) : M unit :=
  modify (fun w => set_hooks w (w_pcs w) (<[dcHandle := mkDcHooks dc profile false]> (w_dcs w))).

(** [emitClose]: the close event, once. *)
Definition emitClose (dcHandle : string) : M unit :=
  ds ← gets w_dcs;
  match ds !! dcHandle with
  | Some k =>
      if hk_closed k then mret tt
      else
        modify (fun w => set_hooks w (w_pcs w)
          (<[dcHandle := mkDcHooks (hk_dc k) (hk_profile k) true]> (w_dcs w))) ;;
        h_sendEvent (Event "event:dataChannelClose" dcHandle (Some [("type", VString "close")]%string))
  | None => mret tt
  end.

Definition openEvent (dcHandle : string) : Message :=
  Event "event:dataChannelOpen" dcHandle (Some [("type", VString "open")]%string).

(** [OnOpen]; the result says whether the detached read loop was started. *)
Definition onOpen (dcHandle : string) : M (option positive) :=
  ds ← gets w_dcs;
  match ds !! dcHandle with
  | None => mret None
  | Some k =>
      if p_detach (hk_profile k) then
        r ← call (dc_Detach (hk_dc k));
        match r with
        | inr e =>
            h_sendEvent (Event "event:dc:error" dcHandle (Some [("error", VString ("detach: " +:+ e))]%string)) ;;
            mret None
        | inl rw =>
            st ← gets (fun w => LookupDCSendState (w_reg w) dcHandle);
            match st with
            | Some a =>
                modify (fun w => set_states w (alter (fun s => setDetached s rw) a (w_states w)) (w_next w))
            | None => mret tt
            end ;;
            h_sendEvent (openEvent dcHandle) ;;
            mret (Some rw)
        end
      else h_sendEvent (openEvent dcHandle) ;; mret None
  end.

Definition onClose (dcHandle : string) : M unit := emitClose dcHandle.

(** The data of event:dataChannelMessage. *)
Definition messageEvent (dcHandle : string) (isString : bool) (text : string) (data : list Z) : Message :=
  Event "event:dataChannelMessage" dcHandle
    (Some [("type", VString "message"); ("is_binary", VBool (negb isString));
           ("data", if isString then VString text else VBytes data)]%string).

(** [OnMessage] is hooked on an attached channel only. *)
Definition onMessage (dcHandle : string) (isString : bool) (text : string) (data : list Z) : M unit :=
  ds ← gets w_dcs;
  match ds !! dcHandle with
  | Some k => if p_detach (hk_profile k) then mret tt else h_sendEvent (messageEvent dcHandle isString text data)
  | None => mret tt
  end.

(** [OnBufferedAmountLow], hooked by [startDCSendGoroutine]; the wake-up of the
    sender is [DCSend.Drain]. *)
Definition onBufferedAmountLow (dcHandle : string) : M unit :=
  h_sendEvent (Event "event:bufferedAmountLow" dcHandle (Some [])).

(** ** Callbacks of a PeerConnection *)

Definition setupPCCallbacks (pc : positive) (handle : string) : M unit :=
  modify (fun w => set_hooks w (<[handle := pc]> (w_pcs w)) (w_dcs w)).

Definition onICECandidate (handle : string) (candidate : option ICECandidateInit) : M unit :=
  match candidate with
  | None => h_sendEvent (Event "event:iceGatheringComplete" handle (Some []))
  | Some i =>
      h_sendEvent (Event "event:iceCandidate" handle
        (Some [("type", VString "iceCandidate"); ("candidate", VString (Candidate i));
               ("sdp_mid", VString (default "" (SDPMid i)));
               ("sdp_mline_index", match SDPMLineIndex i with
                                   | Some n => VInt KUint16 n | None => VInt KInt 0 end)]%string))
  end.

Definition onConnectionStateChange (handle state : string) (isClosed : bool) : M unit :=
  h_sendEvent (Event "event:connectionStateChange" handle
    (Some [("type", VString "connectionStateChange"); ("state", VString state)]%string)) ;;
  if isClosed then notifyPCClosed handle else mret tt.

(** [OnTrack]; the embedder's hook or [drainTrack] then own the track. *)
Definition onTrack (handle kind track_id stream_id codec : string) : M unit :=
  h_sendEvent (Event "event:track" handle
    (Some [("type", VString "track"); ("kind", VString kind); ("track_id", VString track_id);
           ("stream_id", VString stream_id); ("codec", VString codec)]%string)).

Definition registerChild (dc : positive) (parentHandle : string) : M string :=
  dcHandle ← ask env_uuid;
  now ← ask env_now;
  modify (fun w => set_reg w (RegisterChild (w_reg w) dcHandle (ResDC dc) parentHandle now)) ;;
  mret dcHandle.

Definition onDataChannel (handle : string) (dc : positive) : M unit :=
  profile ← gets (fun w => pcProfile (w_h w) handle);
  dcHandle ← registerChild dc handle;
  startDCSendGoroutine dc dcHandle profile ;;
  setupDCCallbacks dc dcHandle profile ;;
  label ← ask (dc_Label dc);
  ordered ← ask (dc_Ordered dc);
  h_sendEvent (Event "event:dataChannel" handle
    (Some [("type", VString "dataChannel"); ("dc_handle", VString dcHandle);
           ("label", VString label); ("ordered", VBool ordered)]%string)).

(** ** The requests *)

Definition handleInit (msg : Message) : M Message :=
  (match as_map (mget (Data msg) "settings_engine") with
   | Some cfg =>
       if default false (as_bool (mget cfg "enable_tracing"))
       then modify (fun w => set_trace w (StartTracing (w_trace w)).2) else mret tt
   | None => mret tt
   end) ;;
  (match as_map (mget (Data msg) "dc_config") with
   | Some dc =>
       modify (fun w =>
         let h := w_h w in
         let low := default (cfgBufferedAmountLowThreshold (dcConfig h))
                      (toUint64 (lib_fc lib) (mget dc "buffered_amount_low_threshold")) in
         let depth := match toInt (lib_fc lib) (mget dc "send_queue_depth") with
                      | Some v => if 1 <=? v then v else cfgSendQueueDepth (dcConfig h)
                      | None => cfgSendQueueDepth (dcConfig h)
                      end in
         set_h w (mkHandler (sendEvent h) (mkDCConfig low depth) (defaultProfile h) (defaultSE h)
                    (defaultME h) (profiles h) (pcProfiles h)))
   | None => mret tt
   end) ;;
  let se := cfgOrNil (mget (Data msg) "settings_engine") in
  let me := cfgOrNil (mget (Data msg) "media_engine") in
  match buildProfile se me with
  | inr err => mret (ErrorResponse (ID msg) (profileErrorCode err) (profileErrorText err) false "")
  | inl profile =>
      modify (fun w =>
        let h := w_h w in
        set_h w (mkHandler (sendEvent h) (dcConfig h) profile se me (profiles h) (pcProfiles h))) ;;
      mret (AckResponse "init" (ID msg) "" (Some [("version", VString "1.0.0")]%string))
  end.

(** One entry of [ice_servers]; an entry that is not a map is skipped. *)
Definition iceServer (srv : gomap) : ICEServer :=
  mkICEServer
    (match mget srv "urls" with
     | VList v => omap as_string v
     | VString v => [v]
     | _ => []
     end)
    (default ""%string (as_string (mget srv "username")))
    (as_string (mget srv "credential")).

Definition pcConfiguration (data : gomap) : Configuration :=
  mkConfiguration
    (match as_list (mget data "ice_servers") with
     | Some serverList => omap (fun s => iceServer <$> as_map s) serverList
     | None => []
     end)
    (match mget data "bundle_policy" with
     | VString "balanced" => Some BundlePolicyBalanced
     | VString "max-compat" => Some BundlePolicyMaxCompat
     | VString "max-bundle" => Some BundlePolicyMaxBundle
     | _ => None
     end)
    (match mget data "rtcp_mux_policy" with
     | VString "negotiate" => Some RTCPMuxPolicyNegotiate
     | VString "require" => Some RTCPMuxPolicyRequire
     | _ => None
     end)
    (match mget data "ice_transport_policy" with
     | VString "relay" => Some ICETransportPolicyRelay
     | VString "all" => Some ICETransportPolicyAll
     | _ => None
     end).

(** The profile a new PeerConnection gets: the session's, unless the request
    has a payload of its own, which is completed by the session's. *)
Definition chooseProfile (pcSE pcME : option gomap) : M (apiProfile + profileError) :=
  h ← gets w_h;
  match pcSE, pcME with
  | None, None => mret (inl (defaultProfile h))
  | _, _ =>
      profileFor (match pcSE with Some _ => pcSE | None => defaultSE h end)
                 (match pcME with Some _ => pcME | None => defaultME h end)
  end.

Definition handlePCCreate (msg : Message) : M Message :=
  let config := pcConfiguration (Data msg) in
  p ← chooseProfile (cfgOrNil (mget (Data msg) "settings_engine")) (cfgOrNil (mget (Data msg) "media_engine"));
  match p with
  | inr err => mret (ErrorResponse (ID msg) (profileErrorCode err) (profileErrorText err) false "")
  | inl profile =>
      pc ← call (NewPeerConnection (api profile) config);
      match pc with
      | inr err => mret (ErrorResponse (ID msg) "INTERNAL_ERROR" err false "")
      | inl pc =>
          handle ← ask env_uuid;
          now ← ask env_now;
          modify (fun w => set_reg w (Register (w_reg w) handle (ResPC pc) now)) ;;
          setPCProfile handle profile ;;
          setupPCCallbacks pc handle ;;
          mret (AckResponse "pc:create" (ID msg) handle
            (Some [("handle", VString handle); ("state", VString "new")]%string))
      end
  end.

Definition handlePCOffer (msg : Message) : M Message :=
  with_pc msg (fun pc =>
    offer ← call (CreateOffer pc);
    match offer with
    | inr err => mret (internalError msg err)
    | inl sdp => mret (AckResponse "pc:offer" (ID msg) (Handle msg) (Some [("sdp", VString sdp)]%string))
    end).

Definition handlePCAnswer (msg : Message) : M Message :=
  with_pc msg (fun pc =>
    answer ← call (CreateAnswer pc);
    match answer with
    | inr err => mret (internalError msg err)
    | inl sdp => mret (AckResponse "pc:answer" (ID msg) (Handle msg) (Some [("sdp", VString sdp)]%string))
    end).

Definition parseSdpType (t : string) : SDPType :=
  match t with
  | "offer" => SDPTypeOffer
  | "pranswer" => SDPTypePranswer
  | "answer" => SDPTypeAnswer
  | "rollback" => SDPTypeRollback
  | _ => SDPTypeOffer
  end%string.

Definition data_string (msg : Message) (k : string) : string :=
  default ""%string (as_string (mget (Data msg) k)).

Definition handlePCSetLocalDesc (msg : Message) : M Message :=
  with_pc msg (fun pc =>
    let sdp := data_string msg "sdp" in
    let sdpType := data_string msg "type" in
    if decide (sdp = ""%string \/ sdpType = ""%string) then mret (badRequest msg "missing sdp or type")
    else
      r ← call (SetLocalDescription pc (parseSdpType sdpType) sdp);
      match r with
      | inr err => mret (internalError msg err)
      | inl _ =>
          state ← ask (SignalingState pc);
          mret (AckResponse "pc:setLocalDesc" (ID msg) (Handle msg) (Some [("state", VString state)]%string))
      end).

Definition handlePCSetRemoteDesc (msg : Message) : M Message :=
  with_pc msg (fun pc =>
    let sdp := data_string msg "sdp" in
    let sdpType := data_string msg "type" in
    if decide (sdp = ""%string \/ sdpType = ""%string) then mret (badRequest msg "missing sdp or type")
    else
      r ← call (SetRemoteDescription pc (parseSdpType sdpType) sdp);
      match r with
      | inr err => mret (internalError msg err)
      | inl _ =>
          state ← ask (SignalingState pc);
          mret (AckResponse "pc:setRemoteDesc" (ID msg) (Handle msg) (Some [("state", VString state)]%string))
      end).

Definition handlePCAddIce (msg : Message) : M Message :=
  with_pc msg (fun pc =>
    let candidateStr := data_string msg "candidate" in
    if decide (candidateStr = ""%string) then mret (badRequest msg "missing candidate")
    else
      r ← call (AddICECandidate pc (mkICECandidateInit candidateStr
            (as_string (mget (Data msg) "sdp_mid"))
            (toUint16 (lib_fc lib) (mget (Data msg) "sdp_mline_index"))));
      match r with
      | inr err => mret (internalError msg err)
      | inl _ => mret (AckResponse "pc:addIce" (ID msg) (Handle msg) (Some []))
      end).

Definition handlePCClose (msg : Message) : M Message :=
  with_pc msg (fun pc =>
    forgetPCProfile (Handle msg) ;;
    deferring (notifyPCClosed (Handle msg))
      (r ← call (pc_Close pc);
       match r with
       | inr err => mret (internalError msg err)
       | inl _ => mret (AckResponse "pc:close" (ID msg) (Handle msg) (Some []))
       end)).

Definition dataChannelInit (data : gomap) : DataChannelInit :=
  match as_map (mget data "options") with
  | Some opts =>
      mkDataChannelInit (as_bool (mget opts "ordered"))
        (toUint16 (lib_fc lib) (mget opts "max_retransmits"))
        (toUint16 (lib_fc lib) (mget opts "max_packet_lifetime_ms"))
  | None => mkDataChannelInit None None None
  end.

Definition handlePCCreateDc (msg : Message) : M Message :=
  with_pc msg (fun pc =>
    let label := data_string msg "label" in
    if decide (label = ""%string) then mret (badRequest msg "missing label")
    else
      r ← call (CreateDataChannel pc label (dataChannelInit (Data msg)));
      match r with
      | inr err => mret (internalError msg err)
      | inl dc =>
          dcHandle ← registerChild dc (Handle msg);
          profile ← gets (fun w => pcProfile (w_h w) (Handle msg));
          startDCSendGoroutine dc dcHandle profile ;;
          setupDCCallbacks dc dcHandle profile ;;
          lbl ← ask (dc_Label dc);
          mret (AckResponse "pc:createDc" (ID msg) (Handle msg)
            (Some [("dc_handle", VString dcHandle); ("label", VString lbl);
                   ("state", VString "connecting")]%string))
      end).

(** The payload of a dc:send as a work item for the channel's queue. *)
Definition sendWork (conn : positive) (msg : Message) : option dcSendWork :=
  match mget (Data msg) "data" with
  | VBytes payload =>
      let awaitDrain := default true (as_bool (mget (Data msg) "await_drain")) in
      Some (mkWork payload "" false (ID msg) (Handle msg) awaitDrain (Some conn))
  | VString payload => Some (mkWork [] payload true (ID msg) (Handle msg) false (Some conn))
  | _ => None
  end.

(** The peak queue depth of the channel's trace slot. *)
Definition traceDepth (handle : string) (depth : Z) : M unit :=
  modify (fun w =>
    let t := w_trace w in
    if Enabled t then
      let (idx, t') := DCIdx t handle in
      let i := Z.to_nat idx in
      let cur := default 0 (DCQDepth t' !! i) in
      set_trace w {| enabled := enabled t'; ReadFrames := ReadFrames t'; ReadBytes := ReadBytes t';
        DCFrames := DCFrames t'; DCBytes := DCBytes t'; DCNs := DCNs t';
        DCQDepth := if cur <? depth then <[i := depth]> (DCQDepth t') else DCQDepth t';
        WriteFrames := WriteFrames t'; WriteBytes := WriteBytes t'; WriteNs := WriteNs t';
        dcIndex := dcIndex t'; nextIdx := nextIdx t'; freeIdx := freeIdx t' |}
    else w).

Definition set_work (s : DCSendState) (q : list dcSendWork) : DCSendState :=
  mkSendState q (workCap s) (done_ s) (threshold s) (detach s) (raw s).

Definition store (a : positive) (s : DCSendState) : M unit :=
  modify (fun w => set_states w (<[a := s]> (w_states w)) (w_next w)).

(** The select of [handleDCSend]: enqueue, or see [done].  When both can go,
    [select_done] picks; when neither can, the read loop blocks.  An item
    enqueued after [done] takes one item back and fails it. *)
Definition enqueueWork (a : positive) (s : DCSendState) (it : dcSendWork) (msg : Message) : M unit :=
  let room := Z.of_nat (length (work s)) <? workCap s in
  d ← (if room && done_ s then ask select_done else mret (done_ s));
  if d : bool then
    h_sendEvent (ErrorResponse (ID msg) "DC_CLOSED" "data channel closed before send" false (Handle msg))
  else if room then
    if done_ s then
      match work s ++ [it] with
      | w0 :: rest =>
          store a (set_work s rest) ;;
          match w_sendEvent w0 with
          | Some conn => send_event conn (msgClosedBeforeSend w0)
          | None => mret tt
          end
      | [] => mret tt
      end
    else store a (set_work s (work s ++ [it]))
  else block.

Definition handleDCSend (msg : Message) : M Message :=
  st ← gets (fun w => LookupDCSendState (w_reg w) (Handle msg));
  ss ← gets w_states;
  match (a ← st; s ← ss !! a; Some (a, s)) with
  | None =>
      mret (ErrorResponse (ID msg) "NOT_FOUND" ("dc:send on unknown handle: " +:+ Handle msg) false (Handle msg))
  | Some (a, s) =>
      conn ← gets (fun w => sendEvent (w_h w));
      match sendWork conn msg with
      | None => mret (badRequest msg "data must be string or binary")
      | Some it =>
          traceDepth (Handle msg) (Z.of_nat (length (work s))) ;;
          enqueueWork a s it msg ;;
          mret noMessage
      end
  end.

Definition handleDCSetBufferedAmountLowThreshold (msg : Message) : M Message :=
  with_dc msg (fun dc =>
    match toUint64 (lib_fc lib) (mget (Data msg) "threshold") with
    | None => mret (badRequest msg "missing or invalid threshold")
    | Some thr =>
        ask (SetBufferedAmountLowThreshold dc thr) ;;
        st ← gets (fun w => LookupDCSendState (w_reg w) (Handle msg));
        (match st with
         | Some a => modify (fun w => set_states w (alter (fun s => setThreshold s thr) a (w_states w)) (w_next w))
         | None => mret tt
         end) ;;
        mret (AckResponse "dc:setBufferedAmountLowThreshold" (ID msg) (Handle msg) (Some []))
    end).

Definition handleDCClose (msg : Message) : M Message :=
  with_dc msg (fun dc =>
    stopDCSendGoroutine (Handle msg) ;;
    r ← call (dc_Close dc);
    match r with
    | inr err => mret (internalError msg err)
    | inl _ => mret (AckResponse "dc:close" (ID msg) (Handle msg) (Some []))
    end).

(** [closeCollected]: an error of a closer is only logged. *)
Fixpoint shutDown (acts : list shutdown) : M unit :=
  match acts with
  | [] => mret tt
  | CloseState a :: acts' => closeStateAt a ;; shutDown acts'
  | CloseResource (ResPC pc) :: acts' => call (pc_Close pc) ;; shutDown acts'
  | CloseResource (ResDC dc) :: acts' => call (dc_Close dc) ;; shutDown acts'
  | CloseResource (ResOther _) :: acts' => shutDown acts'
  end.

Definition registry_Delete (handle : string) : M (option string) :=
  w ← gets (fun w => w);
  match Delete (w_reg w) (w_trace w) handle with
  | None => mret (Some ("handle not found: " +:+ handle)%string)
  | Some (r, t, acts) =>
      modify (fun w => set_trace (set_reg w r) t) ;;
      shutDown acts ;;
      mret None
  end.

Definition handleResourceDelete (msg : Message) : M Message :=
  if decide (Handle msg = ""%string) then
    mret (ErrorResponse (ID msg) "INVALID_REQUEST" "missing handle" false "")
  else
    res ← registry_Lookup (Handle msg);
    forgetPCProfile (Handle msg) ;;
    let isPC := match res with Some (ResPC _) => true | _ => false end in
    deferring (if isPC then notifyPCClosed (Handle msg) else mret tt)
      (e ← registry_Delete (Handle msg);
       match e with
       | Some err => mret (ErrorResponse (ID msg) "NOT_FOUND" err false (Handle msg))
       | None => mret (AckResponse "resource:delete" (ID msg) (Handle msg) (Some []))
       end).

Definition handlePCAddTransceiver (msg : Message) : M Message :=
  with_pc msg (fun pc =>
    let kind := NewRTPCodecType lib (lib_sprint lib (mget (Data msg) "kind")) in
    if kind =? 0 then mret (badRequest msg "kind must be video or audio")
    else
      let direction := NewRTPTransceiverDirection lib (lib_sprint lib (mget (Data msg) "direction")) in
      if direction =? 0 then
        mret (badRequest msg "direction must be sendrecv, sendonly, recvonly or inactive")
      else
        r ← call (AddTransceiverFromKind pc kind direction);
        match r with
        | inr err => mret (internalError msg err)
        | inl _ =>
            n ← ask (GetTransceivers pc);
            mret (AckResponse "pc:addTransceiver" (ID msg) (Handle msg)
              (Some [("index"%string, VInt KInt (n - 1))]))
        end).

Definition HandleMessage (msg : Message) : M Message :=
  let typed t := bool_decide (Type_ msg = t) in
  if typed "init"%string then handleInit msg
  else if typed "pc:create"%string then handlePCCreate msg
  else if typed "pc:offer"%string then handlePCOffer msg
  else if typed "pc:answer"%string then handlePCAnswer msg
  else if typed "pc:setLocalDesc"%string then handlePCSetLocalDesc msg
  else if typed "pc:setRemoteDesc"%string then handlePCSetRemoteDesc msg
  else if typed "pc:addIce"%string then handlePCAddIce msg
  else if typed "pc:close"%string then handlePCClose msg
  else if typed "pc:addTransceiver"%string then handlePCAddTransceiver msg
  else if typed "pc:createDc"%string then handlePCCreateDc msg
  else if typed "dc:send"%string then handleDCSend msg
  else if typed "dc:setBufferedAmountLowThreshold"%string then handleDCSetBufferedAmountLowThreshold msg
  else if typed "dc:close"%string then handleDCClose msg
  else if typed "resource:delete"%string then handleResourceDelete msg
  else mret (ErrorResponse (ID msg) "INVALID_REQUEST" ("unknown message type: " +:+ Type_ msg) false "").

(** [Cleanup] of the registry, as the ticker of [StartCleanup] runs it; the
    answers of the closed send states touch no handle, so they commute with the
    refresh of the spared ones. *)
Definition cleanup (connected : positive -> bool) (order : list string) (now maxAge : Z) : M unit :=
  clk ← ask env_clock;
  w ← gets (fun w => w);
  let '(r, t, acts) := Cleanup connected (w_reg w) (w_trace w) order now maxAge clk in
  modify (fun w => set_trace (set_reg w r) t) ;;
  shutDown acts.

End Handlers.
