(* ===== verification/HandlerSpec.v ===== *)
(** * What the request handlers guarantee (handler.go)

    The answer every request gets, the invariant of the bridge's state over
    requests, callbacks and clean-up, and the behaviour of the operations that
    own resources. *)

From S2P Require Import Prelude GoValue Trace Registry Settings DCSend Bridge Handler.

Local Open Scope Z_scope.

(** ** Answers *)

Section Returns.
Context {E : Type}.

(** Whatever [m] returns satisfies [Q]. *)
Definition returns {A} (m : M E A) (Q : A -> Prop) : Prop :=
  forall w r w', m w = (Ret r, w') -> Q r.

Lemma returns_ret {A} (a : A) (Q : A -> Prop) : Q a -> returns (mret a) Q.
Proof. intros H w r w' [= <- _]. done. Qed.

Lemma returns_bind {A B} (m : M E A) (k : A -> M E B) Q :
  (forall a, returns (k a) Q) -> returns (m ≫= k) Q.
Proof.
  intros H w r w'. unfold mbind, M_bind. destruct (m w) as [[a|v|] w1]; [apply H|done|done].
Qed.

Lemma returns_bind_in {A B} (m : M E A) (k : A -> M E B) P Q :
  returns m P -> (forall a, P a -> returns (k a) Q) -> returns (m ≫= k) Q.
Proof.
  intros Hm H w r w'. unfold mbind, M_bind. destruct (m w) as [[a|v|] w1] eqn:Em; [|done|done].
  apply H. by eapply Hm.
Qed.

Lemma returns_deferring {A} c (m : M E A) Q : returns m Q -> returns (deferring c m) Q.
Proof.
  intros H w r w'. unfold deferring. destruct (m w) as [[a|v|] w1] eqn:Em; [|done|done].
  intros [= <- _]. by eapply H.
Qed.
End Returns.

(** [r] answers [msg]: with its id, as an acknowledgement of its type or as an
    error that does not end the session. *)
Definition answers (msg r : Message) : Prop :=
  ID r = ID msg
  /\ ((Type_ r = Type_ msg +:+ ":ack")%string
      \/ (Type_ r = "error"%string /\ mget (Data r) "fatal" = VBool false)).

Lemma answers_error msg code text h : answers msg (ErrorResponse (ID msg) code text false h).
Proof. split; [done|]. right. split; [done|]. unfold ErrorResponse. simpl. by case_decide. Qed.

Lemma answers_ack msg t h data : Type_ msg = t -> answers msg (AckResponse t (ID msg) h data).
Proof. intros <-. split; [done|]. by left. Qed.

Create HintDb answers.
#[export] Hint Resolve answers_error answers_ack : answers.

Section Answers.
Context {E : Type} {env : Env E} (lib : library).

Lemma lookupPC_answers msg :
  returns (lookupPC (E := E) msg) (fun r => match r with inl _ => True | inr e => answers msg e end).
Proof.
  unfold lookupPC. case_decide; [apply returns_ret; auto with answers|].
  apply returns_bind. intros [[]|]; apply returns_ret; auto with answers.
Qed.

Lemma lookupDC_answers msg :
  returns (lookupDC (E := E) msg) (fun r => match r with inl _ => True | inr e => answers msg e end).
Proof.
  unfold lookupDC. case_decide; [apply returns_ret; auto with answers|].
  apply returns_bind. intros [[]|]; apply returns_ret; auto with answers.
Qed.

Lemma with_pc_answers msg k : (forall pc, returns (k pc) (answers msg)) -> returns (with_pc (E := E) msg k) (answers msg).
Proof.
  intros Hk. unfold with_pc. eapply returns_bind_in; [apply lookupPC_answers|].
  intros [pc|e] He; [apply Hk|by apply returns_ret].
Qed.

Lemma with_dc_answers msg k : (forall dc, returns (k dc) (answers msg)) -> returns (with_dc (E := E) msg k) (answers msg).
Proof.
  intros Hk. unfold with_dc. eapply returns_bind_in; [apply lookupDC_answers|].
  intros [dc|e] He; [apply Hk|by apply returns_ret].
Qed.

(** Splits a handler into its branches and closes each with its answer. *)
Ltac answer :=
  repeat first
    [ apply returns_ret; unfold internalError, badRequest; by auto with answers
    | apply with_pc_answers; intros ?
    | apply with_dc_answers; intros ?
    | apply returns_deferring
    | apply returns_bind; intros ?
    | case_match ].

(** No answer is only ever returned for dc:send, whose answer comes later. *)
Definition answered (msg r : Message) : Prop :=
  answers msg r \/ (r = noMessage /\ Type_ msg = "dc:send"%string).

Lemma returns_answered msg (m : M E Message) : returns m (answers msg) -> returns m (answered msg).
Proof. intros H w r w' Hw. left. by eapply H. Qed.

Lemma handleDCSend_answers msg : Type_ msg = "dc:send"%string -> returns (handleDCSend (E := E) msg) (answered msg).
Proof.
  intros Ht. unfold handleDCSend. repeat (apply returns_bind; intros ?). case_match; [|apply returns_ret; left; auto with answers].
  case_match. apply returns_bind. intros conn.
  case_match; [|apply returns_ret; left; unfold badRequest; auto with answers].
  repeat (apply returns_bind; intros ?). apply returns_ret. by right.
Qed.

Lemma HandleMessage_answers msg : returns (HandleMessage (E := E) lib msg) (answered msg).
Proof.
  unfold HandleMessage. cbn zeta.
  repeat (case_bool_decide as Ht; [first [by apply handleDCSend_answers|
    apply returns_answered; unfold handleInit, handlePCCreate, handlePCOffer, handlePCAnswer,
      handlePCSetLocalDesc, handlePCSetRemoteDesc, handlePCAddIce, handlePCClose, handlePCAddTransceiver,
      handlePCCreateDc, handleDCSetBufferedAmountLowThreshold, handleDCClose, handleResourceDelete;
    answer]|clear Ht]).
  apply returns_answered. answer.
Qed.

End Answers.

(** ** The outside world keeps its promises *)

(** Names the world has already given out only grow, and a new UUID is a new
    name. *)
Class EnvLaws (E : Type) {env : Env E} := {
  used : E -> gset string;
  later {A} (f : E -> A * E) : Prop := forall e, used e ⊆ used (f e).2;
  uuid_fresh e : (env_uuid e).1 ∉ used e /\ (env_uuid e).1 ∈ used (env_uuid e).2
                 /\ (env_uuid e).1 <> ""%string;
  later_uuid : later env_uuid;
  later_now : later env_now;
  later_clock : later env_clock;
  later_pc a c : later (NewPeerConnection a c);
  later_offer pc : later (CreateOffer pc);
  later_answer pc : later (CreateAnswer pc);
  later_local pc t s : later (SetLocalDescription pc t s);
  later_remote pc t s : later (SetRemoteDescription pc t s);
  later_signaling pc : later (SignalingState pc);
  later_ice pc i : later (AddICECandidate pc i);
  later_pc_close pc : later (pc_Close pc);
  later_dc pc l i : later (CreateDataChannel pc l i);
  later_transceiver pc k d : later (AddTransceiverFromKind pc k d);
  later_transceivers pc : later (GetTransceivers pc);
  later_label dc : later (dc_Label dc);
  later_ordered dc : later (dc_Ordered dc);
  later_threshold dc t : later (SetBufferedAmountLowThreshold dc t);
  later_dc_close dc : later (dc_Close dc);
  later_detach dc : later (dc_Detach dc);
  later_send dc c : later (pion_Send dc c);
  later_wait dc a : later (wait_buffer dc a);
  later_select : later select_done
}.

Create HintDb later.
#[export] Hint Resolve later_uuid later_now later_clock later_pc later_offer later_answer later_local
  later_remote later_signaling later_ice later_pc_close later_dc later_transceiver later_transceivers
  later_label later_ordered later_threshold later_dc_close later_detach later_send later_wait
  later_select : later.

(** ** The invariant *)

Section Invariant.
Context {E : Type} {env : Env E} {laws : EnvLaws E} (lib : library).
Implicit Types w : world E.

(** An item is queued where the channel it is for looks for it. *)
Definition state_ok (h : string) (s : DCSendState) : Prop :=
  done_ s = false /\ Forall (fun it => w_handle it = h) (work s)
  /\ Z.of_nat (length (work s)) <= Z.max 0 (workCap s).

(** [X]: send states taken out of the registry but not closed yet. *)
Record inv (X : gset positive) (w : world E) : Prop := {
  i_wf : wf (w_reg w);
  i_used : dom (resources (w_reg w)) ∪ dom (children (w_reg w)) ∪ dom (w_pcs w) ⊆ used (w_env w);
  i_state : forall h a, dcSendStates (w_reg w) !! h = Some a ->
    h ∈ dom (resources (w_reg w)) /\ exists s, w_states w !! a = Some s /\ state_ok h s;
  i_inj : forall h1 h2 a, dcSendStates (w_reg w) !! h1 = Some a ->
    dcSendStates (w_reg w) !! h2 = Some a -> h1 = h2;
  i_next : forall a s, w_states w !! a = Some s -> (a < w_next w)%positive;
  i_queued : forall a s, w_states w !! a = Some s -> work s <> [] ->
    a ∈ X \/ exists h, dcSendStates (w_reg w) !! h = Some a;
  i_done : forall a s, w_states w !! a = Some s -> done_ s = true -> work s = [];
  i_pending : forall a, a ∈ X -> forall h, dcSendStates (w_reg w) !! h <> Some a;
  i_once : NoDup (w_hooked w) /\ forall h, h ∈ w_hooked w -> h ∈ w_closed w;
  i_cache : forall key p, profiles (w_h w) !! key = Some p ->
    exists cfg media, lib_json lib cfg media = inl key /\ buildProfile lib cfg media = inl p
}.

(** Steps that leave the send states, the cache and the hooks alone. *)
Lemma inv_frame X w w' :
  inv X w -> wf (w_reg w') ->
  resources (w_reg w') = resources (w_reg w) -> children (w_reg w') = children (w_reg w) ->
  dcSendStates (w_reg w') = dcSendStates (w_reg w) ->
  used (w_env w) ⊆ used (w_env w') -> w_states w' = w_states w -> w_next w' = w_next w ->
  w_closed w' = w_closed w -> w_hooked w' = w_hooked w -> profiles (w_h w') = profiles (w_h w) ->
  w_pcs w' = w_pcs w -> inv X w'.
Proof.
  intros [] Hwf H1 H2 H3 H4 H5 H6 H7 H8 H9 H10.
  split; rewrite ?H1, ?H2, ?H3, ?H5, ?H6, ?H7, ?H8, ?H9, ?H10; try done. set_solver.
Qed.

Definition keeps {A} (m : M E A) : Prop := forall X, hoare (inv X) m (fun _ => inv X) (inv X).

Lemma keeps_ret {A} (a : A) : keeps (mret a).
Proof. intros X. by apply hoare_ret. Qed.

Lemma keeps_bind {A B} (m : M E A) (k : A -> M E B) :
  keeps m -> (forall a, keeps (k a)) -> keeps (m ≫= k).
Proof. intros Hm Hk X. eapply hoare_bind; [apply Hm|]. intros a. apply Hk. Qed.

Lemma keeps_gets {A} (f : world E -> A) : keeps (gets f).
Proof. intros X w Hw. done. Qed.

Lemma inv_env X w e : inv X w -> used (w_env w) ⊆ used e -> inv X (set_env w e).
Proof. intros H Hu. eapply inv_frame; try exact H; try done. apply H. Qed.

Lemma keeps_ask {A} (f : E -> A * E) : later f -> keeps (ask f).
Proof.
  intros Hl X. apply hoare_ask. intros w a e Hw He. apply inv_env; [done|].
  specialize (Hl (w_env w)). by rewrite He in Hl.
Qed.

Lemma keeps_call {A} (f : E -> pres A * E) : later f -> keeps (call f).
Proof.
  intros Hl X. apply hoare_call. intros w r e Hw He.
  assert (inv X (set_env w e)) by (apply inv_env; [done|]; specialize (Hl (w_env w)); by rewrite He in Hl).
  by destruct r.
Qed.

Lemma keeps_modify f : (forall X w, inv X w -> inv X (f w)) -> keeps (modify f).
Proof. intros H X. apply hoare_modify. intros w. apply H. Qed.

Lemma keeps_deferring {A} c (m : M E A) :
  (forall X w, inv X w -> inv X (c w).2) -> keeps m -> keeps (deferring c m).
Proof. intros Hc Hm X. eapply hoare_deferring; [apply Hm|..]; eauto. Qed.

Lemma inv_set_reg X w r :
  inv X w -> wf r -> resources r = resources (w_reg w) -> children r = children (w_reg w) ->
  dcSendStates r = dcSendStates (w_reg w) -> inv X (set_reg w r).
Proof. intros H Hwf H1 H2 H3. eapply inv_frame; try exact H; try done. Qed.

Lemma inv_trace X w t : inv X w -> inv X (set_trace w t).
Proof. intros H. eapply inv_frame; try exact H; try done. apply H. Qed.

Lemma inv_out X w o : inv X w -> inv X (set_out w o).
Proof. intros H. eapply inv_frame; try exact H; try done. apply H. Qed.

Lemma Touch_fields r h clk :
  resources (Touch r h clk) = resources r /\ children (Touch r h clk) = children r
  /\ dcSendStates (Touch r h clk) = dcSendStates r.
Proof. unfold Touch. by destruct (lastSeen r !! h). Qed.

Lemma keeps_Touch h : keeps (registry_Touch h).
Proof.
  unfold registry_Touch. apply keeps_bind; [apply keeps_ask; auto with later|]. intros clk.
  apply keeps_modify. intros X w H. destruct (Touch_fields (w_reg w) h clk) as (? & ? & ?).
  apply inv_set_reg; try done. apply wf_Touch, H.
Qed.

Lemma keeps_Lookup h : keeps (registry_Lookup h).
Proof.
  unfold registry_Lookup. apply keeps_bind; [apply keeps_gets|]. intros r. case_match; [|apply keeps_ret].
  apply keeps_bind; [apply keeps_ask; auto with later|]. intros now.
  apply keeps_bind; [|intros; apply keeps_ret]. apply keeps_modify. intros X w H'.
  apply inv_set_reg; [done|apply wf_Lookup, H'|..]; unfold Lookup; by case_match.
Qed.

Lemma keeps_send conn m : keeps (send_event conn m).
Proof.
  unfold send_event. apply keeps_bind; [case_decide; [apply keeps_ret|apply keeps_Touch]|].
  intros _. apply keeps_modify. intros X w. apply inv_out.
Qed.

Lemma keeps_sendEvent m : keeps (h_sendEvent m).
Proof. unfold h_sendEvent. apply keeps_bind; [apply keeps_gets|]. intros conn. apply keeps_send. Qed.

Lemma keeps_send_all ms : keeps (send_all ms).
Proof.
  induction ms as [|[conn m] ms IH]; simpl; [apply keeps_ret|].
  apply keeps_bind; [apply keeps_send|done].
Qed.

Lemma inv_notify X h w : inv X w -> inv X (notifyPCClosed h w).2.
Proof.
  intros H. unfold notifyPCClosed, modify. simpl. case_decide as Hh; [done|].
  destruct H as [? ? ? ? ? ? ? ? [Hn Hin] ?]. split; simpl; try done.
  destruct (w_hook w).
  - split.
    + apply NoDup_app. split_and!; [done| |apply NoDup_singleton].
      intros x Hx ->%list_elem_of_singleton. by apply Hh, Hin.
    + intros x [Hx| ->%list_elem_of_singleton]%elem_of_app; [|set_solver]. apply Hin in Hx. set_solver.
  - split; [done|]. intros x Hx. apply Hin in Hx. set_solver.
Qed.

Lemma keeps_notify h : keeps (notifyPCClosed h).
Proof. intros X w H. apply (inv_notify X h w H). Qed.

Lemma inv_pcProfiles X w ps : inv X w -> inv X (set_h w (set_pcProfiles (w_h w) ps)).
Proof. intros H. eapply inv_frame; try exact H; try done. apply H. Qed.

Lemma keeps_setPCProfile h p : keeps (setPCProfile h p).
Proof. apply keeps_modify. intros X w. apply inv_pcProfiles. Qed.

Lemma keeps_forgetPCProfile h : keeps (forgetPCProfile h).
Proof. apply keeps_modify. intros X w. apply inv_pcProfiles. Qed.

Lemma inv_dcs X w ds : inv X w -> inv X (set_hooks w (w_pcs w) ds).
Proof. intros H. eapply inv_frame; try exact H; try done. apply H. Qed.

Lemma keeps_setupDC dc h p : keeps (setupDCCallbacks (E := E) dc h p).
Proof. apply keeps_modify. intros X w. apply inv_dcs. Qed.

Lemma keeps_emitClose h : keeps (emitClose h).
Proof.
  unfold emitClose. apply keeps_bind; [apply keeps_gets|]. intros ds. case_match; [|apply keeps_ret].
  case_match; [apply keeps_ret|]. apply keeps_bind; [|intros; apply keeps_sendEvent].
  apply keeps_modify. intros X w. apply inv_dcs.
Qed.

(** A cached profile is what its payload builds. *)
Lemma keeps_profileFor cfg media : keeps (profileFor (E := E) lib cfg media).
Proof.
  unfold profileFor. destruct (lib_json lib cfg media) as [key|] eqn:Ek; [|apply keeps_ret].
  apply keeps_bind; [apply keeps_gets|]. intros ps. case_match; [apply keeps_ret|].
  destruct (buildProfile lib cfg media) as [p|] eqn:Ep; [|apply keeps_ret].
  intros X w Hw. unfold mbind, M_bind, gets, modify, mret, M_ret.
  destruct (profiles (w_h w) !! key); [done|]. simpl. destruct Hw. split; simpl; try done.
  intros k q [[<- <-]|[_ Hq]]%lookup_insert_Some; eauto.
Qed.

(** *** Send states *)

Lemma newState_inv X w s :
  inv X w -> work s = [] ->
  inv X (set_states w (<[w_next w := s]> (w_states w)) (Pos.succ (w_next w))).
Proof.
  intros H Hs. destruct H as [? ? Hst ? Hnext Hq Hdn ? ? ?]. split; simpl; try done.
  - intros h a Ha. destruct (Hst h a Ha) as (Hd & s' & Hs' & Hok). split; [done|].
    exists s'. split; [|done]. rewrite lookup_insert_ne; [done|]. apply Hnext in Hs'. lia.
  - intros a s' [[<- <-]|[_ Ha]]%lookup_insert_Some; [lia|]. apply Hnext in Ha. lia.
  - intros a s' [[<- <-]|[_ Ha]]%lookup_insert_Some Hw; [done|]. by eapply Hq.
  - intros a s' [[<- <-]|[_ Ha]]%lookup_insert_Some Hd; [done|]. by eapply Hdn.
Qed.

(** Registering a new, empty state for a handle of the registry. *)
Lemma register_inv X w a h s reg :
  inv X w -> w_states w !! a = Some s -> (forall h', dcSendStates (w_reg w) !! h' <> Some a) ->
  a ∉ X -> work s = [] -> done_ s = false -> h ∈ dom (resources (w_reg w)) ->
  RegisterDCSendState (w_reg w) h a = (true, reg) -> inv X (set_reg w reg).
Proof.
  intros H Hs Hnew HX Hw Hd Hh Hr. pose proof (wf_RegisterDCSendState (w_reg w) h a (i_wf _ _ H)) as Hwf.
  rewrite Hr in Hwf. unfold RegisterDCSendState in Hr. destruct (_ !! h) eqn:Eh; [done|].
  injection Hr as <-. destruct H as [? ? Hst Hinj ? Hq ? Hp ? ?]. split; simpl; try done.
  - intros h' a' [[<- <-]|[_ Ha]]%lookup_insert_Some; [|by apply Hst].
    split; [done|]. exists s. split; [done|]. split; [done|]. rewrite Hw. split; [constructor|simpl; lia].
  - intros h1 h2 a' [[<- <-]|[N1 Ha1]]%lookup_insert_Some [[<- Ha2]|[N2 Ha2]]%lookup_insert_Some;
      try done; try (by subst; exfalso; eapply Hnew); by eapply Hinj.
  - intros a' s' Hs' Hw'. destruct (Hq a' s' Hs' Hw') as [?|[h' Hh']]; [by left|right].
    exists h'. rewrite lookup_insert_ne; [done|]. intros ->. congruence.
  - intros a' Ha' h' [[<- <-]|[_ Hh']]%lookup_insert_Some; [done|]. by eapply Hp.
Qed.

Lemma next_unused X w h : inv X w -> dcSendStates (w_reg w) !! h <> Some (w_next w).
Proof.
  intros H Hh. destruct (i_state _ _ H _ _ Hh) as (_ & s & Hs & _). apply (i_next _ _ H) in Hs. lia.
Qed.

Lemma start_inv dc h p :
  hoare (fun w => inv ∅ w /\ h ∈ dom (resources (w_reg w))) (startDCSendGoroutine (E := E) dc h p)
    (fun _ w => inv ∅ w) (inv ∅).
Proof.
  intros w [H Hh]. unfold startDCSendGoroutine, newState, mbind, M_bind, gets, modify, mret, M_ret, ask. simpl.
  pose proof (newState_inv ∅ w (newDCSendState (dcConfig (w_h w)) (p_detach p)) H eq_refl) as H1.
  set (w1 := set_states w _ _) in *.
  destruct (RegisterDCSendState (w_reg w) h (w_next w)) as [[] reg] eqn:Er; simpl; [|done].
  destruct (SetBufferedAmountLowThreshold dc _ (w_env w)) as [[] e] eqn:Es. simpl.
  assert (H2 : inv ∅ (set_reg w1 reg)).
  { apply (register_inv ∅ w1 (w_next w) h (newDCSendState (dcConfig (w_h w)) (p_detach p)));
      try done; try set_solver.
    - simpl. apply lookup_insert_eq.
    - intros h'. by apply (next_unused ∅ w). }
  apply (inv_env ∅ (set_reg w1 reg) e) in H2; [done|].
  pose proof (later_threshold dc (cfgBufferedAmountLowThreshold (dcConfig (w_h w))) (w_env w)) as Hl.
  by rewrite Es in Hl.
Qed.

(** Closing a state that is no longer registered. *)
Lemma closed_inv X w a s :
  inv X w -> (forall h, dcSendStates (w_reg w) !! h <> Some a) -> work s = [] ->
  w_states w !! a <> None ->
  inv (X ∖ {[a]}) (set_states w (<[a := s]> (w_states w)) (w_next w)).
Proof.
  intros H Ha Hs Hin. destruct H as [? ? Hst ? Hnext Hq Hdn Hp ? ?]. split; simpl; try done.
  - intros h' a' Ha'. destruct (Hst h' a' Ha') as (Hd & s' & Hs' & Hok). split; [done|].
    exists s'. rewrite lookup_insert_ne; [done|]. intros ->. by apply (Ha h').
  - intros a' s' [[<- <-]|[_ Ha']]%lookup_insert_Some; [|by eapply Hnext].
    destruct (w_states w !! a) eqn:Es; [by eapply Hnext|done].
  - intros a' s' [[<- <-]|[Hne Ha']]%lookup_insert_Some Hw'; [done|].
    destruct (Hq a' s' Ha' Hw'); [left; set_solver|by right].
  - intros a' s' [[<- <-]|[_ Ha']]%lookup_insert_Some Hd; [done|by eapply Hdn].
  - intros a' Ha'. apply Hp. set_solver.
Qed.

Lemma closeStateAt_inv a X :
  hoare (fun w => inv X w /\ forall h, dcSendStates (w_reg w) !! h <> Some a) (closeStateAt (E := E) a)
    (fun _ w => inv (X ∖ {[a]}) w) (inv (X ∖ {[a]})).
Proof.
  intros w [H Ha]. unfold closeStateAt, mbind, M_bind, gets, modify.
  destruct (w_states w !! a) as [s|] eqn:Es; simpl.
  - apply keeps_send_all. apply closed_inv; try done; [|by rewrite Es].
    unfold closeState. destruct (done_ s) eqn:Ed; [|done]. by apply (i_done _ _ H a).
  - destruct H as [? ? ? ? ? Hq ? Hp ? ?]. split; try done.
    + intros a' s' Ha' Hw'. destruct (Hq a' s' Ha' Hw') as [?|?]; [left|by right].
      apply elem_of_difference. split; [done|]. intros ->%elem_of_singleton. congruence.
    + intros a' Ha'. apply Hp. set_solver.
Qed.

(** *** Shutting down *)

Lemma remove_inv X w h a reg :
  inv X w -> RemoveDCSendState (w_reg w) h = (Some a, reg) -> inv ({[a]} ∪ X) (set_reg w reg).
Proof.
  intros H Hr. pose proof (wf_RemoveDCSendState (w_reg w) h (i_wf _ _ H)) as Hwf. rewrite Hr in Hwf.
  unfold RemoveDCSendState, removeDCSendStateLocked in Hr. destruct (_ !! h) as [a0|] eqn:Eh; [|done].
  injection Hr as -> <-. destruct H as [? ? Hst Hinj ? Hq Hdn Hp ? ?]. split; simpl; try done.
  - intros h' a' [_ Ha]%lookup_delete_Some. by apply Hst.
  - intros h1 h2 a' [_ H1]%lookup_delete_Some [_ H2]%lookup_delete_Some. by eapply Hinj.
  - intros a' s' Hs' Hw'. destruct (Hq a' s' Hs' Hw') as [?|[h' Hh']]; [left; set_solver|].
    destruct (decide (h' = h)) as [->|Hne]; [left; rewrite Eh in Hh'; simplify_eq; set_solver|].
    right. exists h'. by rewrite lookup_delete_ne.
  - intros a' Ha' h' [Hne Hh']%lookup_delete_Some. apply elem_of_union in Ha' as [->%elem_of_singleton|Ha'].
    + apply Hne. by eapply Hinj.
    + by eapply Hp.
Qed.

Lemma keeps_stop h : hoare (inv ∅) (stopDCSendGoroutine (E := E) h) (fun _ => inv ∅) (inv ∅).
Proof.
  unfold stopDCSendGoroutine. intros w H. unfold mbind at 1, M_bind at 1, gets at 1.
  destruct (RemoveDCSendState (w_reg w) h) as [[a|] reg] eqn:Er.
  - unfold mbind at 1, M_bind at 1, modify at 1.
    pose proof (remove_inv ∅ w h a reg H Er) as H1. rewrite union_empty_r_L in H1.
    assert (Hc := closeStateAt_inv a {[a]} (set_reg w reg)). unfold mbind, M_bind.
    destruct (closeStateAt a (set_reg w reg)) as [[[]|v|] w2];
      (rewrite difference_diag_L in Hc; simpl in *).
    + apply inv_trace, Hc. split; [done|]. intros h'. apply (i_pending _ _ H1). set_solver.
    + apply Hc. split; [done|]. intros h'. apply (i_pending _ _ H1). set_solver.
    + apply Hc. split; [done|]. intros h'. apply (i_pending _ _ H1). set_solver.
  - unfold RemoveDCSendState, removeDCSendStateLocked in Er. destruct (_ !! h); [done|].
    injection Er as <-. unfold mbind, M_bind, modify, mret, M_ret. simpl.
    apply inv_trace. by destruct w.
Qed.

Lemma statesOf_spec r R a : a ∈ statesOf r R <-> exists h, h ∈ R /\ dcSendStates r !! h = Some a.
Proof.
  unfold statesOf. rewrite list_elem_of_omap. setoid_rewrite elem_of_elements. naive_solver.
Qed.

Lemma statesOf_nodup r R :
  (forall h1 h2 a, dcSendStates r !! h1 = Some a -> dcSendStates r !! h2 = Some a -> h1 = h2) ->
  NoDup (statesOf r R).
Proof.
  intros Hinj. unfold statesOf. assert (Hn := NoDup_elements R). induction Hn as [|h l Hh Hn IH]; simpl; [constructor|].
  destruct (dcSendStates r !! h) as [a|] eqn:Ea; [|done]. constructor; [|done].
  rewrite list_elem_of_omap. intros (h' & Hin & Hh'). apply Hh. by rewrite (Hinj h h' a Ea Hh').
Qed.

(** Taking a closed set of handles out of the registry leaves their send
    states to be closed. *)
Lemma prune_inv w R reg (states : list positive) :
  inv ∅ w -> closed (w_reg w) R -> states ≡ₚ statesOf (w_reg w) R -> wf reg ->
  resources reg = resources (prune R (w_reg w)) -> children reg = children (prune R (w_reg w)) ->
  dcSendStates reg = dcSendStates (prune R (w_reg w)) ->
  inv (list_to_set states) (set_reg w reg).
Proof.
  intros H Hc Hs Hwf Er Ec Ed. pose proof (i_inj _ _ H) as Hinj0. destruct H as [? Hu Hst Hinj ? Hq Hdn Hp ? ?].
  assert (Hdom : dom (resources reg) = dom (resources (w_reg w)) ∖ R) by (rewrite Er; apply prune_dom).
  assert (Hlook : forall h, dcSendStates reg !! h
    = if decide (h ∈ R) then None else dcSendStates (w_reg w) !! h)
    by (intros h; rewrite Ed; simpl; apply drop_keys_lookup).
  split; simpl; try done.
  - rewrite Hdom, Ec. simpl. rewrite dom_fmap_L, dom_drop_keys. set_solver.
  - intros h a Ha. rewrite Hlook in Ha. case_decide as Hh; [done|].
    destruct (Hst h a Ha) as [Hd Hex]. split; [rewrite Hdom; set_solver|done].
  - intros h1 h2 a H1 H2. rewrite Hlook in H1, H2. repeat case_decide; try done. by eapply Hinj.
  - intros a s' Hs' Hw'. destruct (Hq a s' Hs' Hw') as [?|[h Hh]]; [set_solver|].
    destruct (decide (h ∈ R)) as [HR|HR].
    + left. apply elem_of_list_to_set. rewrite Hs. apply statesOf_spec. eauto.
    + right. exists h. by rewrite Hlook, decide_False.
  - intros a Ha h Hh. apply elem_of_list_to_set in Ha. rewrite Hs in Ha.
    apply statesOf_spec in Ha as (h' & HR & Hh'). rewrite Hlook in Hh. case_decide; [done|].
    by rewrite (Hinj h h' a Hh Hh') in *.
Qed.

Lemma shutDown_closers rs X : hoare (inv X) (shutDown (E := E) (map CloseResource rs)) (fun _ => inv X) (inv X).
Proof.
  induction rs as [|r rs IH]; simpl; [by apply hoare_ret|].
  destruct r; [| |apply IH].
  - eapply hoare_bind; [apply keeps_call; auto with later|]. intros ?. apply IH.
  - eapply hoare_bind; [apply keeps_call; auto with later|]. intros ?. apply IH.
Qed.

(** Sending events and closing a send state neither panic nor block. *)
Lemma send_all_returns ms w : exists w', send_all ms w = (Ret tt, w').
Proof.
  revert w. induction ms as [|[conn m] ms IH]; intros w; simpl; [by eexists|].
  unfold mbind, M_bind, send_event. case_decide;
    unfold registry_Touch, ask, mbind, M_bind, mret, M_ret, modify; [apply IH|].
  destruct (env_clock _). apply IH.
Qed.

Lemma closeStateAt_returns a w : exists w', closeStateAt a w = (Ret tt, w').
Proof.
  unfold closeStateAt, mbind, M_bind, gets, modify. destruct (w_states w !! a); [|by eexists].
  apply send_all_returns.
Qed.

Lemma shutDown_inv states rs :
  NoDup states ->
  hoare (inv (list_to_set states)) (shutDown (E := E) (closeCollected rs states)) (fun _ => inv ∅) (inv ∅).
Proof.
  unfold closeCollected. induction 1 as [|a states Ha Hn IH]; [apply shutDown_closers|].
  cbn [map app shutDown]. intros w H. unfold mbind, M_bind.
  pose proof (closeStateAt_inv a (list_to_set (a :: states)) w) as Hc.
  assert (Hset : (list_to_set (a :: states) : gset positive) ∖ {[a]} = list_to_set states) by set_solver.
  rewrite Hset in Hc. specialize (Hc (conj H (i_pending _ _ H a ltac:(set_solver)))).
  destruct (closeStateAt_returns a w) as [w1 Ew]. rewrite Ew in *. by apply IH.
Qed.

Lemma Delete_spec r tr h r' tr' acts :
  wf r -> Delete r tr h = Some (r', tr', acts) ->
  exists states closers, r' = prune (desc r h) r /\ closed r (desc r h) /\ wf r'
    /\ acts = closeCollected closers states /\ states ≡ₚ statesOf r (desc r h).
Proof.
  intros [rank Hw] HD. unfold Delete in HD. destruct (resources r !! h) as [res|] eqn:Eh; [|done].
  injection HD as <- <- <-.
  pose proof (collect_collected rank (mkCollection r tr [] []) h Hw ltac:(apply elem_of_dom; eauto)) as Hc.
  simpl in Hc. set (c := collect (mkCollection r tr [] []) h) in *.
  exists (c_states c), (c_closers c). pose proof (desc_closed ∅ rank r h Hw) as Hcl.
  split_and!; try done; [apply Hc| |apply Hc].
  rewrite (cl_reg _ _ _ Hc). by apply (wf_prune_closed rank).
Qed.

(** From the registry update of a removal to the end of its shutdowns. *)
Lemma remove_all_inv w R reg t states closers :
  inv ∅ w -> closed (w_reg w) R -> states ≡ₚ statesOf (w_reg w) R -> wf reg ->
  resources reg = resources (prune R (w_reg w)) -> children reg = children (prune R (w_reg w)) ->
  dcSendStates reg = dcSendStates (prune R (w_reg w)) ->
  match shutDown (E := E) (closeCollected closers states) (set_trace (set_reg w reg) t) with
  | (_, w') => inv ∅ w'
  end.
Proof.
  intros H Hc Hs Hwf E1 E2 E3.
  assert (Hn : NoDup states) by (rewrite Hs; apply statesOf_nodup, (i_inj _ _ H)).
  pose proof (shutDown_inv states closers Hn (set_trace (set_reg w reg) t)) as Hsd.
  specialize (Hsd ltac:(apply inv_trace; by eapply prune_inv)).
  by destruct (shutDown _ _) as [[]].
Qed.

Lemma registry_Delete_inv h : hoare (inv ∅) (registry_Delete (E := E) h) (fun _ => inv ∅) (inv ∅).
Proof.
  intros w H. unfold registry_Delete, mbind, M_bind, gets.
  destruct (Delete (w_reg w) (w_trace w) h) as [[[r t] acts]|] eqn:ED; [|done].
  destruct (Delete_spec _ _ _ _ _ _ (i_wf _ _ H) ED) as (states & closers & -> & Hc & Hwf & -> & Hs).
  unfold modify. pose proof (remove_all_inv w (desc (w_reg w) h) (prune (desc (w_reg w) h) (w_reg w)) t states closers) as Hr.
  specialize (Hr H Hc Hs Hwf eq_refl eq_refl eq_refl).
  by destruct (shutDown _ _) as [[[]|v|] w'].
Qed.

Lemma fold_Touch_keeps clk l : forall r,
  let r' := fold_left (fun r h => Touch r h clk) l r in
  resources r' = resources r /\ children r' = children r /\ dcSendStates r' = dcSendStates r /\ (wf r -> wf r').
Proof.
  induction l as [|h l IH]; intros r; simpl; [done|].
  destruct (Touch_fields r h clk) as (<- & <- & <-). destruct (IH (Touch r h clk)) as (? & ? & ? & ?).
  split_and!; try done. auto using wf_Touch.
Qed.

Lemma cleanup_inv connected order now maxAge :
  hoare (fun w => inv ∅ w /\ forall h, h ∈ order <-> h ∈ dom (lastSeen (w_reg w)))
    (cleanup (E := E) connected order now maxAge) (fun _ => inv ∅) (inv ∅).
Proof.
  intros w [H Ho]. unfold cleanup, ask, mbind, M_bind, gets. destruct (env_clock (w_env w)) as [clk e] eqn:Ee.
  assert (H1 : inv ∅ (set_env w e)).
  { apply inv_env; [done|]. pose proof (later_clock (w_env w)) as Hl. by rewrite Ee in Hl. }
  destruct (i_wf _ _ H) as [rank Hw].
  destruct (Cleanup_collected connected rank (w_reg w) (w_trace w) order now maxAge clk Hw Ho)
    as (R & c & _ & Hc & Hcl & HC).
  change (w_reg (set_env w e)) with (w_reg w). change (w_trace (set_env w e)) with (w_trace w).
  rewrite HC. set (reg := fold_left _ _ _). unfold modify.
  assert (Hf : resources reg = resources (c_reg c) /\ children reg = children (c_reg c)
               /\ dcSendStates reg = dcSendStates (c_reg c) /\ (wf (c_reg c) -> wf reg)).
  { apply fold_Touch_keeps. }
  destruct Hf as (F1 & F2 & F3 & F4). rewrite (cl_reg _ _ _ Hc) in F1, F2, F3, F4. simpl in F1, F2, F3, F4.
  pose proof (remove_all_inv (set_env w e) R reg (c_trace c) (c_states c) (c_closers c) H1 Hcl (cl_states _ _ _ Hc)) as Hr.
  specialize (Hr (F4 (wf_prune_closed rank _ _ Hw Hcl)) F1 F2 F3).
  by destruct (shutDown _ _) as [[[]|v|] w'].
Qed.

(** *** New handles *)

Lemma inv_registerChild w h dc p now :
  inv ∅ w -> h ∈ used (w_env w) -> fresh_handle (w_reg w) h -> h <> p -> p ∈ used (w_env w) ->
  inv ∅ (set_reg w (RegisterChild (w_reg w) h (ResDC dc) p now)).
Proof.
  intros H Hu Hf Hp Hpu. pose proof (wf_RegisterChild (w_reg w) h (ResDC dc) p now (i_wf _ _ H) Hf Hp) as Hwf.
  destruct H as [? Hus Hst ? ? ? ? ? ? ?]. split; simpl; try done.
  - rewrite !dom_insert_L. set_solver.
  - intros h' a Ha. destruct (Hst h' a Ha). split; [|done]. rewrite dom_insert_L. set_solver.
Qed.

Lemma uuid_fresh_handle w h e :
  inv ∅ w -> env_uuid (w_env w) = (h, e) ->
  fresh_handle (w_reg w) h /\ used (w_env w) ⊆ used e /\ h ∈ used e /\ h ∉ used (w_env w).
Proof.
  intros H Eu. destruct (uuid_fresh (w_env w)) as (Hn & Hin & _). pose proof (later_uuid (w_env w)) as Hl.
  rewrite Eu in Hn, Hin, Hl. simpl in *. pose proof (i_used _ _ H) as Hu. split_and!; try done.
  split; apply not_elem_of_dom; set_solver.
Qed.

Lemma registerChild_inv dc p :
  hoare (fun w => inv ∅ w /\ p ∈ used (w_env w)) (registerChild (E := E) dc p)
    (fun h w => inv ∅ w /\ h ∈ dom (resources (w_reg w))) (inv ∅).
Proof.
  intros w [H Hp]. unfold registerChild, mbind, M_bind, ask, modify, mret, M_ret.
  destruct (env_uuid (w_env w)) as [h e] eqn:Eu. simpl. destruct (env_now e) as [now e'] eqn:En. simpl.
  destruct (uuid_fresh_handle w h e H Eu) as (Hf & Hl & Hin & Hnin).
  pose proof (later_now e) as Hl2. rewrite En in Hl2. simpl in Hl2. split.
  - apply (inv_registerChild (set_env (set_env w e) e')); simpl; try done; try set_solver.
    apply inv_env; [by apply inv_env|done].
  - rewrite dom_insert_L. set_solver.
Qed.

Lemma inv_register w h pc now :
  inv ∅ w -> h ∈ used (w_env w) -> fresh_handle (w_reg w) h ->
  inv ∅ (set_reg w (Register (w_reg w) h (ResPC pc) now)).
Proof.
  intros H Hu Hf. pose proof (wf_Register (w_reg w) h (ResPC pc) now (i_wf _ _ H) Hf) as Hwf.
  destruct H as [? Hus Hst ? ? ? ? ? ? ?]. split; simpl; try done.
  - rewrite !dom_insert_L. set_solver.
  - intros h' a Ha. destruct (Hst h' a Ha). split; [|done]. rewrite dom_insert_L. set_solver.
Qed.

(** *** Changing a registered state *)

Lemma inv_update X w h a s :
  inv X w -> dcSendStates (w_reg w) !! h = Some a -> state_ok h s ->
  inv X (set_states w (<[a := s]> (w_states w)) (w_next w)).
Proof.
  intros H Ha Hok. pose proof (i_inj _ _ H) as Hinj. destruct H as [? ? Hst ? Hnext Hq Hdn ? ? ?].
  destruct (Hst h a Ha) as (_ & s0 & Hs0 & _). split; simpl; try done.
  - intros h' a' Ha'. destruct (Hst h' a' Ha') as (Hd & s' & Hs' & Hok'). split; [done|].
    destruct (decide (a = a')) as [<-|Hne].
    + exists s. rewrite lookup_insert_eq. split; [done|]. by rewrite (Hinj h' h a Ha' Ha).
    + exists s'. by rewrite lookup_insert_ne.
  - intros a' s' [[<- <-]|[_ Hs']]%lookup_insert_Some; by eapply Hnext.
  - intros a' s' [[<- <-]|[_ Hs']]%lookup_insert_Some Hw'; [right; eauto|by eapply Hq].
  - intros a' s' [[<- <-]|[_ Hs']]%lookup_insert_Some Hd; [|by eapply Hdn]. destruct Hok. congruence.
Qed.

Lemma inv_alter X w h a (f : DCSendState -> DCSendState) :
  inv X w -> dcSendStates (w_reg w) !! h = Some a -> (forall s, state_ok h s -> state_ok h (f s)) ->
  inv X (set_states w (alter f a (w_states w)) (w_next w)).
Proof.
  intros H Ha Hf. destruct (i_state _ _ H h a Ha) as (_ & s & Hs & Hok).
  replace (alter f a (w_states w)) with (<[a := f s]> (w_states w)); [eapply inv_update; eauto|].
  apply map_eq. intros a'. destruct (decide (a = a')) as [<-|Hne].
  - by rewrite lookup_insert_eq, lookup_alter_eq, Hs.
  - by rewrite lookup_insert_ne, lookup_alter_ne.
Qed.

Lemma inv_traceDepth X w h n : inv X w -> inv X (traceDepth (E := E) h n w).2.
Proof.
  intros H. unfold traceDepth, modify. simpl. case_match; [|done]. destruct (DCIdx _ _). by apply inv_trace.
Qed.

Lemma sendWork_handle conn msg it : sendWork conn msg = Some it -> w_handle it = Handle msg.
Proof. unfold sendWork. destruct (mget _ _); naive_solver. Qed.

(** dc:send on a registered channel queues the item, or waits for room. *)
Lemma handleDCSend_inv msg : hoare (inv ∅) (handleDCSend (E := E) msg) (fun _ => inv ∅) (inv ∅).
Proof.
  intros w H. unfold handleDCSend. unfold mbind at 1, M_bind at 1, gets at 1. unfold mbind at 1, M_bind at 1, gets at 1.
  unfold LookupDCSendState. destruct (dcSendStates (w_reg w) !! Handle msg) as [a|] eqn:Ea; [|done].
  destruct (i_state _ _ H _ _ Ea) as (_ & s & Hs & Hd & Hh & Hcap). cbn [mbind option_bind]. rewrite Hs.
  cbn [mbind option_bind].
  unfold mbind at 1, M_bind at 1, gets at 1.
  destruct (sendWork (sendEvent (w_h w)) msg) as [it|] eqn:Ei; [|done].
  apply sendWork_handle in Ei. unfold mbind at 1, M_bind at 1.
  pose proof (inv_traceDepth ∅ w (Handle msg) (Z.of_nat (length (work s))) H) as H1.
  assert (Et : exists t, traceDepth (E := E) (Handle msg) (Z.of_nat (length (work s))) w = (Ret tt, set_trace w t)).
  { unfold traceDepth, modify. case_match; [destruct (DCIdx _ _); by eexists|].
    exists (w_trace w). by destruct w. }
  destruct Et as [t Et]. rewrite Et in *. cbn [snd] in H1.
  unfold enqueueWork. rewrite Hd, andb_false_r.
  destruct (Z.of_nat (length (work s)) <? workCap s) eqn:Eroom; go_bool; [|done].
  unfold store, modify, mbind, M_bind, mret, M_ret. apply (inv_update ∅ (set_trace w t) (Handle msg) a); [done|done|].
  split; [done|]. simpl. split; [apply Forall_app; split; [done|by repeat constructor]|].
  rewrite length_app. simpl. lia.
Qed.

(** The sender goroutine takes an item off the queue of a registered channel. *)
Lemma runSender_inv dc a h : hoare (inv ∅) (runSender (E := E) dc a h) (fun _ => inv ∅) (inv ∅).
Proof.
  intros w H. unfold runSender. unfold mbind at 1, M_bind at 1, gets at 1.
  destruct (w_states w !! a) as [s|] eqn:Es; [|done]. destruct (work s) as [|it rest] eqn:Ew; [done|].
  destruct (i_queued _ _ H a s Es ltac:(by rewrite Ew)) as [?|[h' Hh']]; [set_solver|].
  destruct (i_state _ _ H h' a Hh') as (_ & s' & Hs' & Hd & Hf & Hc). rewrite Es in Hs'. injection Hs' as <-.
  unfold mbind at 1, M_bind at 1, modify at 1.
  match goal with |- context [set_states w ?ss ?n] => set (w1 := set_states w ss n) end.
  assert (H1 : inv ∅ w1).
  { apply (inv_update ∅ w h' a); [done|done|]. rewrite Ew in *. inversion Hf; subst.
    split; [done|]. simpl in *. split; [done|lia]. }
  clearbody w1. clear H. revert w1 H1. apply keeps_bind.
  - destruct (doSend s it); [..|apply keeps_ret]; apply keeps_call; auto with later.
  - intros sent. apply keeps_bind.
    + destruct sent; [|apply keeps_ret]. case_match; [apply keeps_ask; auto with later|apply keeps_ret].
    + intros drained. apply keeps_send_all.
Qed.

(** *** Whole requests *)

Definition stays {A} (m : M E A) : Prop := hoare (inv ∅) m (fun _ => inv ∅) (inv ∅).

Lemma stays_keeps {A} (m : M E A) : keeps m -> stays m.
Proof. intros H. apply H. Qed.

Lemma stays_bind {A B} (m : M E A) (k : A -> M E B) : stays m -> (forall a, stays (k a)) -> stays (m ≫= k).
Proof. intros Hm Hk. eapply hoare_bind; [exact Hm|]. intros a. apply Hk. Qed.

Lemma stays_deferring {A} c (m : M E A) :
  (forall w, inv ∅ w -> inv ∅ (c w).2) -> stays m -> stays (deferring c m).
Proof. intros Hc Hm. eapply hoare_deferring; [apply Hm|..]; eauto. Qed.

(** A handle that is found was given out before. *)
Lemma Lookup_found h :
  hoare (inv ∅) (registry_Lookup (E := E) h)
    (fun r w => inv ∅ w /\ (r <> None -> h ∈ used (w_env w))) (inv ∅).
Proof.
  intros w H. pose proof (keeps_Lookup h ∅ w H) as Hk. unfold registry_Lookup in *.
  unfold mbind at 1, M_bind at 1, gets at 1 in Hk. unfold mbind at 1, M_bind at 1, gets at 1.
  destruct (resources (w_reg w) !! h) eqn:Eh; [|done].
  unfold mbind, M_bind, ask, modify, mret, M_ret in *. pose proof (later_now (w_env w)) as Hl.
  destruct (env_now (w_env w)) as [now e]. simpl in *. split; [done|]. intros _. apply Hl.
  apply (i_used _ _ H). apply elem_of_union_l, elem_of_union_l, elem_of_dom. eauto.
Qed.

Lemma lookupPC_found msg :
  hoare (inv ∅) (lookupPC (E := E) msg)
    (fun r w => inv ∅ w /\ match r with inl _ => Handle msg ∈ used (w_env w) | inr _ => True end) (inv ∅).
Proof.
  unfold lookupPC. case_decide; [by apply hoare_ret|]. eapply hoare_bind; [apply Lookup_found|].
  intros [[]|]; apply hoare_ret; intros w [? Hu]; split; try done. by apply Hu.
Qed.

Lemma stays_with_pc msg k :
  (forall pc, hoare (fun w => inv ∅ w /\ Handle msg ∈ used (w_env w)) (k pc) (fun _ => inv ∅) (inv ∅)) ->
  stays (with_pc msg k).
Proof.
  intros Hk. unfold with_pc. eapply hoare_bind; [apply lookupPC_found|]. intros [pc|e]; [apply Hk|].
  apply hoare_ret. by intros w [? _].
Qed.

Lemma weaken {A} (m : M E A) h :
  stays m -> hoare (fun w => inv ∅ w /\ h ∈ used (w_env w)) m (fun _ => inv ∅) (inv ∅).
Proof. intros H. eapply hoare_conseq; [exact H|by intros w [? _]|done..]. Qed.

Lemma stays_with_dc msg k : (forall dc, stays (k dc)) -> stays (with_dc msg k).
Proof.
  intros Hk. unfold with_dc, lookupDC. apply stays_bind.
  - case_decide; [apply stays_keeps, keeps_ret|]. apply stays_bind; [apply stays_keeps, keeps_Lookup|].
    intros [[]|]; apply stays_keeps, keeps_ret.
  - intros []; [apply Hk|apply stays_keeps, keeps_ret].
Qed.

(** Changing a state through the handle it is registered for. *)
Lemma stays_alter {A} h (f : DCSendState -> DCSendState) (k : M E A) :
  (forall h s, state_ok h s -> state_ok h (f s)) -> stays k ->
  stays (st ← gets (fun w => LookupDCSendState (w_reg w) h);
         (match st with
          | Some a => modify (fun w : world E => set_states w (alter f a (w_states w)) (w_next w))
          | None => mret tt
          end) ;; k).
Proof.
  intros Hf Hk w H. unfold mbind, M_bind, gets, LookupDCSendState.
  destruct (dcSendStates (w_reg w) !! h) as [a|] eqn:Ea; [|by apply Hk].
  unfold modify. apply Hk. eapply inv_alter; eauto.
Qed.

(** Splits a handler and closes the parts that only talk to pion. *)
Ltac stay :=
  repeat first
    [ apply stays_keeps;
      first [ apply keeps_ret | apply keeps_gets | apply keeps_ask; solve [auto with later]
            | apply keeps_call; solve [auto with later] | apply keeps_forgetPCProfile
            | apply keeps_sendEvent | apply keeps_emitClose | apply keeps_Lookup | apply keeps_setupDC
            | apply keeps_setPCProfile | apply keeps_notify ]
    | apply stays_with_pc; intros ?; apply weaken
    | apply stays_with_dc; intros ?
    | apply stays_bind; [|intros ?]
    | apply stays_deferring; [intros ?; apply inv_notify|]
    | case_match ].

Lemma stays_init msg : stays (handleInit (E := E) lib msg).
Proof.
  unfold handleInit. apply stays_bind; [|intros _; apply stays_bind; [|intros _]].
  - case_match; [|stay]. case_match; [|stay]. apply stays_keeps, keeps_modify. intros X w. apply inv_trace.
  - case_match; [|stay]. apply stays_keeps, keeps_modify. intros X w H'. eapply inv_frame; try exact H'; try done. apply H'.
  - case_match; [|stay]. apply stays_bind; [|intros _; stay]. apply stays_keeps, keeps_modify.
    intros X w H'. eapply inv_frame; try exact H'; try done. apply H'.
Qed.

Lemma stays_create msg : stays (handlePCCreate (E := E) lib msg).
Proof.
  unfold handlePCCreate. apply stays_bind.
  { unfold chooseProfile. apply stays_bind; [stay|]. intros h.
    repeat case_match; first [apply stays_keeps, keeps_profileFor|stay]. }
  intros [profile|]; [|stay]. apply stays_bind; [stay|]. intros [pc|]; [|stay].
  intros w Hw. unfold mbind, M_bind, ask, modify, mret, M_ret, setPCProfile, setupPCCallbacks.
  destruct (env_uuid (w_env w)) as [h e] eqn:Eu. simpl. destruct (env_now e) as [now e'] eqn:En. simpl.
  destruct (uuid_fresh_handle w h e Hw Eu) as (Hf & Hl & Hin & Hnin).
  pose proof (later_now e) as Hl2. rewrite En in Hl2. simpl in Hl2.
  assert (H1 : inv ∅ (set_reg (set_env (set_env w e) e') (Register (w_reg w) h (ResPC pc) now))).
  { apply (inv_register (set_env (set_env w e) e')); simpl; [apply inv_env; [by apply inv_env|done]|set_solver|done]. }
  apply (inv_pcProfiles _ _ (<[h:=profile]> (pcProfiles (w_h w)))) in H1.
  destruct H1 as [? Hu ? ? ? ? ? ? ? ?]. split; simpl in *; try done. rewrite dom_insert_L. set_solver.
Qed.

Lemma stays_createDc msg : stays (handlePCCreateDc (E := E) lib msg).
Proof.
  unfold handlePCCreateDc. apply stays_with_pc. intros pc. case_decide; [apply weaken; stay|].
  eapply hoare_bind with (Q := fun _ w => inv ∅ w /\ Handle msg ∈ used (w_env w)).
  - apply hoare_call. intros w r e [Hw Hu] He. pose proof (later_dc pc (data_string msg "label") (dataChannelInit lib (Data msg)) (w_env w)) as Hl.
    rewrite He in Hl. assert (inv ∅ (set_env w e)) by by apply inv_env.
    destruct r; simpl; try done; (split; [done|set_solver]).
  - intros [dc|]; [|apply weaken; stay].
    eapply hoare_bind; [apply registerChild_inv|]. intros h.
    eapply hoare_bind with (Q := fun _ w => inv ∅ w /\ h ∈ dom (resources (w_reg w))); [by intros w Hw|].
    intros profile. eapply hoare_bind; [apply start_inv|]. intros []. fold (stays (A := Message)).
    change (stays (setupDCCallbacks dc h profile ;; lbl ← ask (dc_Label dc);
       mret (AckResponse "pc:createDc" (ID msg) (Handle msg)
            (Some [("dc_handle", VString h); ("label", VString lbl);
                   ("state", VString "connecting")]%string)))). stay.
Qed.

Lemma stays_threshold msg : stays (handleDCSetBufferedAmountLowThreshold (E := E) lib msg).
Proof.
  apply stays_with_dc. intros dc. case_match; [|stay]. apply stays_bind; [stay|]. intros _.
  apply stays_alter; [done|stay].
Qed.

Lemma stays_dcClose msg : stays (handleDCClose (E := E) msg).
Proof. apply stays_with_dc. intros dc. apply stays_bind; [apply keeps_stop|]. intros _. stay. Qed.

Lemma stays_delete msg : stays (handleResourceDelete (E := E) msg).
Proof.
  unfold handleResourceDelete. case_decide; [stay|]. apply stays_bind; [stay|]. intros res.
  apply stays_bind; [stay|]. intros _. apply stays_deferring.
  - intros w Hw. case_match; [apply inv_notify, Hw|done].
  - apply stays_bind; [apply registry_Delete_inv|]. intros e. stay.
Qed.

Lemma HandleMessage_stays msg : stays (HandleMessage (E := E) lib msg).
Proof.
  unfold HandleMessage. cbn zeta.
  repeat (case_bool_decide as Ht; [clear Ht; first
    [ apply stays_init | apply stays_create | apply stays_createDc | apply handleDCSend_inv
    | apply stays_threshold | apply stays_dcClose | apply stays_delete
    | solve [ unfold handlePCOffer, handlePCAnswer, handlePCSetLocalDesc, handlePCSetRemoteDesc,
                handlePCAddIce, handlePCClose, handlePCAddTransceiver; stay ] ]|clear Ht]); stay.
Qed.

(** *** Callbacks *)

Lemma stays_onOpen h : stays (onOpen (E := E) h).
Proof.
  unfold onOpen. apply stays_bind; [stay|]. intros ds. case_match; [|stay].
  case_match; [|stay]. apply stays_bind; [stay|]. intros [rw|e]; [|stay].
  apply stays_alter; [done|stay].
Qed.

Lemma onDataChannel_inv h dc :
  hoare (fun w => inv ∅ w /\ h ∈ dom (w_pcs w)) (onDataChannel (E := E) h dc) (fun _ => inv ∅) (inv ∅).
Proof.
  unfold onDataChannel.
  eapply hoare_bind with (Q := fun _ w => inv ∅ w /\ h ∈ used (w_env w)).
  { intros w [Hw Hh]. split; [done|]. apply (i_used _ _ Hw). set_solver. }
  intros profile. eapply hoare_bind; [apply registerChild_inv|]. intros dh.
  eapply hoare_bind; [apply start_inv|]. intros [].
  change (stays (setupDCCallbacks dc dh profile ;; label ← ask (dc_Label dc); ordered ← ask (dc_Ordered dc);
    h_sendEvent (Event "event:dataChannel" h
      (Some [("type", VString "dataChannel"); ("dc_handle", VString dh);
             ("label", VString label); ("ordered", VBool ordered)]%string)))). stay.
Qed.

(** ** Runs of the bridge *)

(** What can happen next: a request of the session, a callback of pion, a turn
    of a sender goroutine, a sweep, or another session taking its turn with a
    handler of its own, whose cache holds what its payloads build. *)
Inductive bridge_step : world E -> world E -> Prop :=
  | s_request msg w : bridge_step w (HandleMessage lib msg w).2
  | s_open h w : bridge_step w (onOpen h w).2
  | s_close h w : bridge_step w (onClose h w).2
  | s_message h b t d w : bridge_step w (onMessage h b t d w).2
  | s_low h w : bridge_step w (onBufferedAmountLow h w).2
  | s_candidate h c w : bridge_step w (onICECandidate h c w).2
  | s_state h st c w : bridge_step w (onConnectionStateChange h st c w).2
  | s_track h a b c d w : bridge_step w (onTrack h a b c d w).2
  | s_dataChannel h dc w : h ∈ dom (w_pcs w) -> bridge_step w (onDataChannel h dc w).2
  | s_sender dc a h w : bridge_step w (runSender dc a h w).2
  | s_cleanup connected order now maxAge w :
      (forall h, h ∈ order <-> h ∈ dom (lastSeen (w_reg w))) ->
      bridge_step w (cleanup connected order now maxAge w).2
  | s_session h w :
      (forall key p, profiles h !! key = Some p ->
         exists cfg media, lib_json lib cfg media = inl key /\ buildProfile lib cfg media = inl p) ->
      bridge_step w (set_h w h).

Lemma hoare_run {A} P (m : M E A) w : hoare P m (fun _ => inv ∅) (inv ∅) -> P w -> inv ∅ (m w).2.
Proof. intros H Hw. specialize (H w Hw). destruct (m w) as [[]]; done. Qed.

Lemma bridge_step_inv w w' : inv ∅ w -> bridge_step w w' -> inv ∅ w'.
Proof.
  intros H Hs. destruct Hs.
  - by apply (hoare_run _ _ _ (HandleMessage_stays msg)).
  - by apply (hoare_run _ _ _ (stays_onOpen h)).
  - apply (hoare_run (inv ∅)); [|done]. apply (stays_keeps _ (keeps_emitClose h)).
  - apply (hoare_run (inv ∅)); [|done]. apply (stays_bind (gets w_dcs)); [stay|]. intros ds. stay.
  - apply (hoare_run (inv ∅)); [|done]. apply (stays_keeps _ (keeps_sendEvent _)).
  - apply (hoare_run (inv ∅)); [|done]. destruct c; apply (stays_keeps _ (keeps_sendEvent _)).
  - apply (hoare_run (inv ∅)); [|done]. unfold onConnectionStateChange.
    apply stays_bind; [stay|]. intros _. case_match; stay.
  - apply (hoare_run (inv ∅)); [|done]. apply (stays_keeps _ (keeps_sendEvent _)).
  - by apply (hoare_run _ _ _ (onDataChannel_inv h dc)).
  - by apply (hoare_run _ _ _ (runSender_inv dc a h)).
  - by apply (hoare_run _ _ _ (cleanup_inv connected order now maxAge)).
  - destruct H. by split.
Qed.

(** The state before the first request. *)
Definition start (e : E) (conn : positive) (hook : bool) : world E :=
  mkWorld e NewRegistry Trace0 ∅ 1%positive (NewHandler conn) ∅ hook [] ∅ ∅ [].

Lemma start_ok e conn hook : inv ∅ (start e conn hook).
Proof.
  split; simpl; try (intros; rewrite lookup_empty in *; done).
  - apply wf_NewRegistry.
  - rewrite !dom_empty_L. set_solver.
  - split; [constructor|]. intros h Hh. by apply not_elem_of_nil in Hh.
Qed.

Lemma bridge_inv e conn hook w : rtc bridge_step (start e conn hook) w -> inv ∅ w.
Proof.
  intros Hr. eapply rtc_preserve; [exact bridge_step_inv|apply start_ok|exact Hr].
Qed.

End Invariant.

(** ** A world for examples: every call succeeds, names are numbers *)

Fixpoint unary (n : nat) : string :=
  match n with O => EmptyString | S n' => String (Ascii.ascii_of_nat 120) (unary n') end.

Lemma unary_length n : String.length (unary n) = n.
Proof. induction n; simpl; congruence. Qed.

Lemma unary_inj n m : unary n = unary m -> n = m.
Proof. intros H. by rewrite <- (unary_length n), H, unary_length. Qed.

Definition lift {A} (a : A) (e : nat) : A * nat := (a, e).

#[export] Instance toy_env : Env nat := {|
  env_now := lift 0;
  env_clock := lift (fun _ => 0);
  env_uuid := fun e => (unary (S e), S e);
  NewPeerConnection := fun _ _ => lift (POk 7%positive);
  CreateOffer := fun _ => lift (POk "v=0"%string);
  CreateAnswer := fun _ => lift (POk "v=0"%string);
  SetLocalDescription := fun _ _ _ => lift (POk tt);
  SetRemoteDescription := fun _ _ _ => lift (POk tt);
  SignalingState := fun _ => lift "stable"%string;
  AddICECandidate := fun _ _ => lift (POk tt);
  pc_Close := fun _ => lift (POk tt);
  CreateDataChannel := fun _ _ _ => lift (POk 8%positive);
  AddTransceiverFromKind := fun _ _ _ => lift (POk tt);
  GetTransceivers := fun _ => lift 1;
  dc_Label := fun _ => lift "chat"%string;
  dc_Ordered := fun _ => lift true;
  SetBufferedAmountLowThreshold := fun _ _ => lift tt;
  dc_Close := fun _ => lift (POk tt);
  dc_Detach := fun _ => lift (POk 9%positive);
  pion_Send := fun _ _ => lift (POk tt);
  wait_buffer := fun _ _ => lift true;
  select_done := lift true
|}.

Definition toy_names (e : nat) : gset string := list_to_set (map unary (seq 1 e)).

Lemma toy_names_spec e s : s ∈ toy_names e <-> exists n, (0 < n <= e)%nat /\ s = unary n.
Proof.
  unfold toy_names. rewrite elem_of_list_to_set, elem_of_map. setoid_rewrite elem_of_seq. split.
  - intros (n & -> & Hn). exists n. split; [lia|done].
  - intros (n & Hn & ->). exists n. split; [done|lia].
Qed.

#[export] Instance toy_laws : EnvLaws nat.
Proof.
  refine {| used := toy_names |}; try (intros; simpl; reflexivity).
  - intros e. simpl. split_and!; [| |done].
    + rewrite toy_names_spec. intros (n & Hn & He). apply (unary_inj (S e)) in He. lia.
    + apply toy_names_spec. exists (S e). split; [lia|done].
  - intros e s Hs. simpl. apply toy_names_spec in Hs as (n & Hn & ->). apply toy_names_spec.
    exists n. split; [lia|done].
Defined.

Definition toy_lib : library :=
  mkLibrary sample_fc sample_engine (fun s => s) (fun v => default ""%string (as_string v))
    (fun c m => inl (match c, m with
                     | None, None => "n"%string | Some _, None => "c"%string
                     | None, Some _ => "m"%string | Some _, Some _ => "b"%string end))
    (fun s => if decide (s = "video"%string) then 2 else if decide (s = "audio"%string) then 1 else 0)
    (fun s => if decide (s = "sendrecv"%string) then 1 else 0).

Definition req (t h : string) (data : gomap) : Message := mkMessage t 5 h data.

(** ** Main properties *)

(** Every request is answered with its own id: a handler that returns
    either returns the acknowledgement of exactly the request's type, or an
    error marked non-fatal; only dc:send may return no answer, because the
    sender goroutine answers it later. *)
Theorem request_answered_with_its_id {E} {env : Env E} lib msg (w w' : world E) r :
  HandleMessage lib msg w = (Ret r, w') ->
  (ID r = ID msg
   /\ (Type_ r = (Type_ msg +:+ ":ack")%string
       \/ (Type_ r = "error"%string /\ mget (Data r) "fatal" = VBool false)))
  \/ (r = noMessage /\ Type_ msg = "dc:send"%string).
Proof. intros H. by apply (HandleMessage_answers lib msg w r w'). Qed.

Lemma request_answered_with_its_id_witness :
  exists r w', HandleMessage toy_lib (req "pc:create" "" []) (start 0%nat 1%positive true) = (Ret r, w')
  /\ ((ID r = 5
       /\ (Type_ r = "pc:create:ack"%string
           \/ (Type_ r = "error"%string /\ mget (Data r) "fatal" = VBool false)))
      \/ (r = noMessage /\ "pc:create"%string = "dc:send"%string)).
Proof.
  eexists _, _. split; [reflexivity|].
  eapply (request_answered_with_its_id toy_lib (req "pc:create" "" []) (start 0%nat 1%positive true)).
  reflexivity.
Defined.


(** A session that creates a connection and a channel, queues a send, and
    deletes the connection. *)
Definition toy_world : world nat :=
  let w1 := (HandleMessage toy_lib (req "pc:create" "" []) (start 0%nat 1%positive true)).2 in
  let w2 := (HandleMessage toy_lib (req "pc:createDc" "x" [("label", VString "chat")]%string) w1).2 in
  (HandleMessage toy_lib (req "dc:send" "xx" [("data", VString "hello")]%string) w2).2.

Lemma toy_world_run : rtc (bridge_step toy_lib) (start 0%nat 1%positive true) toy_world.
Proof. do 3 (eapply rtc_l; [apply s_request|]). apply rtc_refl. Qed.

