(* ===== verification/HandlerOps.v ===== *)
(** * What single requests do (handler.go)

    Requests on unknown handles, the profile of a connection and of its
    channels, closing and deleting, and the closed hook. *)

From S2P Require Import Prelude GoValue Trace Registry Settings DCSend Bridge Handler HandlerSpec.

Local Open Scope Z_scope.

(** ** Unknown handles *)

(** The requests that name an existing object. *)
Definition on_handle : list string :=
  [ "pc:offer"; "pc:answer"; "pc:setLocalDesc"; "pc:setRemoteDesc"; "pc:addIce"; "pc:close";
    "pc:addTransceiver"; "pc:createDc"; "dc:send"; "dc:setBufferedAmountLowThreshold"; "dc:close";
    "resource:delete" ]%string.

(** Goes to the handler of a request whose type is known. *)
Ltac dispatch Ht :=
  unfold HandleMessage; cbn zeta; rewrite Ht;
  repeat first [rewrite bool_decide_eq_true_2 by done|rewrite bool_decide_eq_false_2 by done].

Section Ops.
Context {E : Type} {env : Env E} (lib : library).
Implicit Types w : world E.

Lemma Lookup_unknown h w : resources (w_reg w) !! h = None -> registry_Lookup h w = (Ret None, w).
Proof. intros H. unfold registry_Lookup, mbind, M_bind, gets. by rewrite H. Qed.

(** The error such a request gets. *)
Definition unknown_error (msg : Message) : Message :=
  if decide (Handle msg = ""%string)
  then ErrorResponse (ID msg) "INVALID_REQUEST" "missing handle" false ""
  else ErrorResponse (ID msg) "NOT_FOUND" ("handle not found: " +:+ Handle msg) false (Handle msg).

Lemma with_pc_unknown msg k w :
  resources (w_reg w) !! Handle msg = None -> with_pc msg k w = (Ret (unknown_error msg), w).
Proof.
  intros H. unfold with_pc, lookupPC, unknown_error. case_decide; [done|].
  unfold mbind, M_bind. by rewrite Lookup_unknown.
Qed.

Lemma with_dc_unknown msg k w :
  resources (w_reg w) !! Handle msg = None -> with_dc msg k w = (Ret (unknown_error msg), w).
Proof.
  intros H. unfold with_dc, lookupDC, unknown_error. case_decide; [done|].
  unfold mbind, M_bind. by rewrite Lookup_unknown.
Qed.

Definition error_code (r : Message) : option string := as_string (mget (Data r) "code").

Definition rejected (msg r : Message) : Prop :=
  Type_ r = "error"%string /\ ID r = ID msg
  /\ (error_code r = Some "NOT_FOUND"%string
      \/ (Handle msg = ""%string /\ error_code r = Some "INVALID_REQUEST"%string)).

Lemma ErrorResponse_code id code text fatal h : error_code (ErrorResponse id code text fatal h) = Some code.
Proof. unfold error_code, ErrorResponse. cbn [Data]. by case_decide. Qed.

Lemma rejected_not_found msg text : rejected msg (ErrorResponse (ID msg) "NOT_FOUND" text false (Handle msg)).
Proof. split_and!; try done. left. apply ErrorResponse_code. Qed.

Lemma unknown_rejected msg : rejected msg (unknown_error msg).
Proof.
  unfold unknown_error. case_decide; [|apply rejected_not_found].
  split_and!; try done. right. split; [done|]. apply ErrorResponse_code.
Qed.

(** Only the per-connection profile, which is gone with the handle, changes. *)
Definition same_but_profile (h : string) w w' : Prop :=
  w' = w \/ w' = set_h w (set_pcProfiles (w_h w) (delete h (pcProfiles (w_h w)))).

Lemma unknown_dcSend msg w :
  dcSendStates (w_reg w) !! Handle msg = None ->
  exists r, handleDCSend msg w = (Ret r, w) /\ rejected msg r.
Proof.
  intros H. unfold handleDCSend, mbind, M_bind, gets, LookupDCSendState. rewrite H.
  eexists. split; [reflexivity|]. apply rejected_not_found.
Qed.

Lemma unknown_delete msg w :
  resources (w_reg w) !! Handle msg = None ->
  exists r w', handleResourceDelete msg w = (Ret r, w') /\ rejected msg r /\ same_but_profile (Handle msg) w w'.
Proof.
  intros H. unfold handleResourceDelete. case_decide as Hh.
  { eexists _, w. split; [reflexivity|]. split; [|by left]. split_and!; try done.
    right. split; [done|]. apply ErrorResponse_code. }
  unfold mbind at 1, M_bind at 1. rewrite Lookup_unknown by done.
  unfold mbind at 1, M_bind at 1, forgetPCProfile, modify. unfold deferring, registry_Delete, mbind, M_bind, gets.
  unfold Delete. simpl. rewrite H. eexists _, _. split; [reflexivity|]. split; [|by right].
  apply rejected_not_found.
Qed.

Lemma unknown_handle msg w :
  resources (w_reg w) !! Handle msg = None -> dcSendStates (w_reg w) !! Handle msg = None ->
  Type_ msg ∈ on_handle ->
  exists r w', HandleMessage lib msg w = (Ret r, w') /\ rejected msg r /\ same_but_profile (Handle msg) w w'.
Proof.
  intros Hr Hs Ht.
  assert (Hgo : forall k, k = (Ret (unknown_error msg), w) ->
    exists r w', k = (Ret r, w') /\ rejected msg r /\ same_but_profile (Handle msg) w w').
  { intros k ->. eexists _, _. split; [reflexivity|]. split; [apply unknown_rejected|by left]. }
  unfold on_handle in Ht. repeat (apply elem_of_cons in Ht as [Ht|Ht]; [dispatch Ht|]);
    [try (apply Hgo; (by apply with_pc_unknown) || by apply with_dc_unknown)..|].
  - destruct (unknown_dcSend msg w Hs) as (r & E1 & E2). exists r, w. split; [done|]. split; [done|by left].
  - by apply unknown_delete.
  - by apply not_elem_of_nil in Ht.
Qed.

(** ** Closing send states *)

(** What closing the state at [a] sends. *)
Definition lastAnswers w (a : positive) : list (positive * Message) :=
  match w_states w !! a with Some s => (closeState s).2 | None => [] end.

(** Everything but the sent messages, the send states and the outside world. *)
Definition same_core w w' : Prop :=
  w_reg w' = w_reg w /\ w_trace w' = w_trace w /\ w_h w' = w_h w /\ w_closed w' = w_closed w
  /\ w_hook w' = w_hook w /\ w_hooked w' = w_hooked w.

Lemma same_core_refl w : same_core w w.
Proof. done. Qed.

Lemma same_core_trans w1 w2 w3 : same_core w1 w2 -> same_core w2 w3 -> same_core w1 w3.
Proof. unfold same_core. intuition congruence. Qed.

(** Answers carry no handle, so sending them touches nothing. *)
Lemma send_quiet ms w :
  Forall (fun cm => Handle cm.2 = ""%string) ms -> send_all (E := E) ms w = (Ret tt, set_out w (w_out w ++ ms)).
Proof.
  intros Hf. revert w. induction Hf as [|[conn m] ms Hm Hf IH]; intros w; simpl.
  - unfold mret, M_ret. rewrite app_nil_r. by destruct w.
  - simpl in Hm. unfold mbind, M_bind, send_event. rewrite decide_True by done.
    unfold mbind, M_bind, mret, M_ret, modify. rewrite IH.
    unfold set_out. cbn [w_out]. by rewrite <- app_assoc.
Qed.

Lemma closeState_quiet s : Forall (fun cm => Handle cm.2 = ""%string) (closeState s).2.
Proof.
  unfold closeState. destruct (done_ s); simpl; [constructor|]. apply Forall_forall.
  intros [conn m] (it & Hin & Hit)%list_elem_of_omap. destruct (w_sendEvent it); [|done]. simpl in Hit.
  by injection Hit as _ <-.
Qed.

Lemma closeStateAt_out a w :
  exists w', closeStateAt a w = (Ret tt, w') /\ same_core w w' /\ w_out w' = w_out w ++ lastAnswers w a
    /\ w_states w' = alter (fun s => (closeState s).1) a (w_states w).
Proof.
  unfold closeStateAt, mbind, M_bind, gets, lastAnswers. destruct (w_states w !! a) as [s|] eqn:Es.
  - unfold modify. rewrite send_quiet by apply closeState_quiet. eexists. split; [reflexivity|]. simpl.
    split_and!; try done. apply map_eq. intros b. destruct (decide (a = b)) as [<-|Hne].
    + by rewrite lookup_insert_eq, lookup_alter_eq, Es.
    + by rewrite lookup_insert_ne, lookup_alter_ne.
  - eexists. split; [reflexivity|]. split; [done|]. rewrite app_nil_r. split; [done|].
    apply map_eq. intros b. destruct (decide (a = b)) as [<-|Hne]; [by rewrite lookup_alter_eq, Es|by rewrite lookup_alter_ne].
Qed.

Lemma shutDown_closers_core rs w :
  let '(r, w') := shutDown (E := E) (map CloseResource rs) w in
  r <> Blocks /\ same_core w w' /\ w_out w' = w_out w /\ w_states w' = w_states w.
Proof.
  revert w. induction rs as [|r rs IH]; intros w; simpl; [done|].
  assert (Hc : forall (f : E -> pres unit * E),
    let '(r, w') := (call f ;; shutDown (E := E) (map CloseResource rs)) w in
    r <> Blocks /\ same_core w w' /\ w_out w' = w_out w /\ w_states w' = w_states w).
  { intros f. unfold mbind, M_bind, call. destruct (f (w_env w)) as [r0 e]. specialize (IH (set_env w e)).
    destruct (shutDown _ (set_env w e)) as [r1 w1]. destruct r0; simpl; done. }
  destruct r; [apply Hc|apply Hc|apply IH].
Qed.

(** Shutting down answers every queued item of the states, state by state and
    in the order of each queue, whether or not a closer panics afterwards. *)
Lemma shutDown_out states rs : forall w,
  NoDup states ->
  let '(r, w') := shutDown (E := E) (closeCollected rs states) w in
  r <> Blocks /\ same_core w w' /\ w_out w' = w_out w ++ flat_map (lastAnswers w) states
  /\ (forall a s, a ∈ states -> w_states w !! a = Some s -> w_states w' !! a = Some (closeState s).1)
  /\ (forall a, a ∉ states -> w_states w' !! a = w_states w !! a).
Proof.
  unfold closeCollected. induction states as [|a states IH]; intros w Hn.
  - simpl. pose proof (shutDown_closers_core rs w) as Hc. destruct (shutDown _ w) as [r w'].
    destruct Hc as (Hb & Hc & Ho & Hs). rewrite app_nil_r. split_and!; try done; [|by rewrite Hs].
    intros a s Ha. by apply not_elem_of_nil in Ha.
  - apply NoDup_cons in Hn as [Ha Hn]. cbn [map app shutDown]. unfold mbind, M_bind.
    destruct (closeStateAt_out a w) as (w1 & -> & Hc1 & Ho1 & Hs1). specialize (IH w1 Hn).
    destruct (shutDown _ w1) as [r w']. destruct IH as (Hb & Hc & Ho & H1 & H2). split_and!; try done.
    + by eapply same_core_trans.
    + rewrite Ho, Ho1, <- app_assoc. simpl. do 2 f_equal.
      assert (Hx : forall l, a ∉ l -> flat_map (lastAnswers w1) l = flat_map (lastAnswers w) l).
      { induction l as [|b l IHl]; intros Hb'; [done|]. simpl. rewrite IHl by set_solver.
        unfold lastAnswers. rewrite Hs1, lookup_alter_ne by set_solver. done. }
      by apply Hx.
    + intros b s [->|Hb']%elem_of_cons Hs.
      * rewrite H2, Hs1, lookup_alter_eq, Hs by done. done.
      * apply H1; [done|]. rewrite Hs1, lookup_alter_ne; [done|]. by intros ->.
    + intros b Hb'. rewrite H2, Hs1, lookup_alter_ne by set_solver. done.
Qed.

End Ops.

(** ** Main properties *)

(** C38. A request on a handle nobody holds is refused with NOT_FOUND (or
    INVALID_REQUEST when the handle is missing) under the request's id, and
    nothing happens: pion is not called, nothing is sent, no registry entry,
    send state or hook changes. *)
Theorem unknown_handle_refused {E} {env : Env E} {laws : EnvLaws E} lib e conn hook (w : world E) msg :
  rtc (bridge_step lib) (start e conn hook) w ->
  resources (w_reg w) !! Handle msg = None -> Type_ msg ∈ on_handle ->
  exists r w', HandleMessage lib msg w = (Ret r, w') /\ rejected msg r
    /\ w_env w' = w_env w /\ w_out w' = w_out w /\ w_reg w' = w_reg w /\ w_states w' = w_states w
    /\ w_hooked w' = w_hooked w.
Proof.
  intros Hr Hh Ht. pose proof (bridge_inv lib e conn hook w Hr) as Hi.
  assert (Hs : dcSendStates (w_reg w) !! Handle msg = None).
  { destruct (dcSendStates (w_reg w) !! Handle msg) as [a|] eqn:Ea; [|done].
    destruct (i_state _ _ _ Hi _ _ Ea) as [Hd _].
    apply elem_of_dom in Hd as [? ?]. congruence. }
  destruct (unknown_handle lib msg w Hh Hs Ht) as (r & w' & -> & Hj & [->| ->]); by eexists _, _.
Qed.

Lemma unknown_handle_refused_witness :
  exists r w', HandleMessage toy_lib (req "dc:send" "nobody" [("data", VString "hi")]%string) toy_world = (Ret r, w')
    /\ rejected (req "dc:send" "nobody" [("data", VString "hi")]%string) r
    /\ w_env w' = w_env toy_world /\ w_out w' = w_out toy_world /\ w_reg w' = w_reg toy_world
    /\ w_states w' = w_states toy_world /\ w_hooked w' = w_hooked toy_world.
Proof.
  apply (unknown_handle_refused toy_lib 0%nat 1%positive true toy_world
           (req "dc:send" "nobody" [("data", VString "hi")]%string) toy_world_run).
  - vm_compute. reflexivity.
  - unfold on_handle. simpl. set_solver.
Defined.

Lemma desc_ext r1 r2 h : resources r1 = resources r2 -> parent r1 = parent r2 -> desc r1 h = desc r2 h.
Proof.
  intros Hr Hp. unfold desc. rewrite Hr. unfold ancestors. rewrite Hp.
  assert (Hc : forall n k, parentChain n r1 k = parentChain n r2 k).
  { induction n as [|n IH]; intros k; simpl; [done|]. rewrite Hp. case_match; [by rewrite IH|done]. }
  apply set_eq. intros k. rewrite !elem_of_filter. by setoid_rewrite Hc.
Qed.

Lemma Lookup_world {E} {env : Env E} h (w : world E) res :
  resources (w_reg w) !! h = Some res ->
  exists e now, registry_Lookup h w = (Ret (Some res), set_env (set_reg w (Lookup (w_reg w) h now).2) e)
    /\ (e, now) = ((env_now (w_env w)).2, (env_now (w_env w)).1).
Proof.
  intros Hh. unfold registry_Lookup, mbind, M_bind, gets, ask, modify, mret, M_ret. rewrite Hh.
  destruct (env_now (w_env w)) as [now e]. exists e, now. split; [|done]. simpl. by destruct w.
Qed.

Lemma Lookup_same r h now :
  let r' := (Lookup r h now).2 in
  resources r' = resources r /\ parent r' = parent r /\ children r' = children r /\ dcSendStates r' = dcSendStates r.
Proof. unfold Lookup. by destruct (resources r !! h). Qed.

(** The send states, the closed set and the hook calls after a deletion. *)
Definition notified {E} (h : string) (w w' : world E) : Prop :=
  h ∈ w_closed w'
  /\ w_hooked w' = w_hooked w ++ (if decide (h ∈ w_closed w) then [] else if w_hook w then [h] else []).

Lemma notify_spec {E} h (w w0 : world E) :
  w_closed w0 = w_closed w -> w_hook w0 = w_hook w -> w_hooked w0 = w_hooked w ->
  notified h w (notifyPCClosed h w0).2.
Proof.
  intros Hc Hh Hk. unfold notifyPCClosed, modify, notified. simpl. rewrite Hc.
  destruct (decide (h ∈ w_closed w)) as [Hin|Hin]; simpl; [by rewrite Hc, Hk, app_nil_r|].
  rewrite Hh, Hk. split; [set_solver|]. destruct (w_hook w); [done|by rewrite app_nil_r].
Qed.

Lemma notify_rest {E} h (w : world E) :
  let w' := (notifyPCClosed h w).2 in
  w_reg w' = w_reg w /\ w_out w' = w_out w /\ w_states w' = w_states w.
Proof. unfold notifyPCClosed, modify. simpl. by case_decide. Qed.

(** From the state a request finds to the end of the deletion. *)
Lemma registry_Delete_out {E} {env : Env E} {laws : EnvLaws E} lib h (w : world E) res :
  inv lib ∅ w -> resources (w_reg w) !! h = Some res ->
  let '(r, w') := registry_Delete (E := E) h w in
  r <> Blocks /\ r <> Ret (Some ("handle not found: " +:+ h))%string
  /\ w_closed w' = w_closed w /\ w_hook w' = w_hook w /\ w_hooked w' = w_hooked w
  /\ w_reg w' = prune (desc (w_reg w) h) (w_reg w)
  /\ exists states, states ≡ₚ statesOf (w_reg w) (desc (w_reg w) h)
       /\ w_out w' = w_out w ++ flat_map (lastAnswers w) states
       /\ (forall a, a ∈ states -> exists s, w_states w' !! a = Some s /\ done_ s = true /\ work s = []).
Proof.
  intros Hi Hh. unfold registry_Delete, mbind, M_bind, gets.
  destruct (Delete (w_reg w) (w_trace w) h) as [[[r t] acts]|] eqn:ED; [|unfold Delete in ED; by rewrite Hh in ED].
  destruct (Delete_spec _ _ _ _ _ _ (i_wf _ _ _ Hi) ED) as (states & closers & -> & Hc & Hwf & -> & Hs).
  assert (Hn : NoDup states) by (rewrite Hs; apply statesOf_nodup, (i_inj _ _ _ Hi)).
  unfold modify. set (w1 := set_trace _ _). pose proof (shutDown_out states closers w1 Hn) as Hsd.
  assert (Hst : forall a, a ∈ states -> exists s, w_states w !! a = Some s /\ done_ s = false).
  { intros a Ha. rewrite Hs in Ha. apply statesOf_spec in Ha as (k & _ & Hk).
    destruct (i_state _ _ _ Hi k a Hk) as (_ & s & Hs' & Hd & _). eauto. }
  destruct (shutDown _ w1) as [r w']. destruct Hsd as (Hb & (H1 & H2 & H3 & H4 & H5 & H6) & Ho & Hcl & _).
  destruct r as [[]| |]; [|simpl|done]; unfold mret, M_ret; (split_and!; [done|done|done|done|done|done|]);
    exists states; (split; [done|]); (split; [done|]);
    intros a Ha; destruct (Hst a Ha) as (s & Hs' & Hd); exists (closeState s).1;
    (split; [by apply Hcl|]); unfold closeState; by rewrite Hd.
Qed.

(** C36. Deleting a connection removes it and everything below it from the
    registry, closes every send state there, and answers every item still
    queued on those channels with DC_CLOSED, queue by queue in order and to the
    connection that asked, whatever pion's Close does afterwards; the closed
    hook is told, even when Close panics, unless it was told before. *)
Theorem resource_delete_shuts_down {E} {env : Env E} {laws : EnvLaws E} lib e conn hook (w : world E) msg pc :
  rtc (bridge_step lib) (start e conn hook) w ->
  Type_ msg = "resource:delete"%string -> Handle msg <> ""%string ->
  resources (w_reg w) !! Handle msg = Some (ResPC pc) ->
  let w' := (HandleMessage lib msg w).2 in
  let R := desc (w_reg w) (Handle msg) in
  (forall k, resources (w_reg w') !! k = if decide (k ∈ R) then None else resources (w_reg w) !! k)
  /\ (exists states, states ≡ₚ statesOf (w_reg w) R
        /\ w_out w' = w_out w ++ flat_map (lastAnswers w) states
        /\ (forall a, a ∈ states -> exists s, w_states w' !! a = Some s /\ done_ s = true /\ work s = []))
  /\ notified (Handle msg) w w'.
Proof.
  intros Hr Ht Hne Hh w' R. pose proof (bridge_inv lib e conn hook w Hr) as Hi.
  destruct (Lookup_world (Handle msg) w _ Hh) as (e1 & now & HL & He).
  set (w1 := set_env (set_reg w (Lookup (w_reg w) (Handle msg) now).2) e1) in *.
  destruct (Lookup_same (w_reg w) (Handle msg) now) as (F1 & F2 & F3 & F4).
  assert (Hi1 : inv lib ∅ w1).
  { pose proof (keeps_Lookup lib (Handle msg) ∅ w Hi) as Hk. by rewrite HL in Hk. }
  set (w2 := set_h w1 (set_pcProfiles (w_h w1) (delete (Handle msg) (pcProfiles (w_h w1))))).
  pose proof (inv_pcProfiles lib ∅ w1 (delete (Handle msg) (pcProfiles (w_h w1))) Hi1) as Hi2. fold w2 in Hi2.
  assert (Hh2 : resources (w_reg w2) !! Handle msg = Some (ResPC pc)) by (simpl; by rewrite F1).
  pose proof (registry_Delete_out lib (Handle msg) w2 _ Hi2 Hh2) as HD.
  assert (Hdesc : desc (w_reg w2) (Handle msg) = R) by (by apply desc_ext).
  assert (Hstates : statesOf (w_reg w2) R = statesOf (w_reg w) R) by (unfold statesOf; simpl; by rewrite F4).
  rewrite Hdesc, Hstates in HD.
  assert (Hw' : exists r wd, registry_Delete (Handle msg) w2 = (r, wd) /\ w' = (notifyPCClosed (Handle msg) wd).2).
  { subst w'. dispatch Ht. unfold handleResourceDelete. rewrite decide_False by done.
    unfold mbind at 1, M_bind at 1. rewrite HL. unfold mbind at 1, M_bind at 1, forgetPCProfile, modify. fold w2.
    unfold deferring, mbind, M_bind. destruct (registry_Delete (Handle msg) w2) as [r wd] eqn:Erd.
    exists r, wd. split; [done|]. destruct r as [[]| |]; [done..|]. by destruct HD. }
  destruct Hw' as (r & wd & Erd & Hw'). rewrite Erd in HD.
  destruct HD as (_ & _ & K1 & K2 & K3 & Kreg & states & Hs & Ho & Hcl).
  destruct (notify_rest (Handle msg) wd) as (N1 & N2 & N3). rewrite Hw'. split_and!.
  - intros k. rewrite N1, Kreg. simpl. rewrite drop_keys_lookup. by rewrite F1.
  - exists states. rewrite N2, N3. done.
  - by apply notify_spec.
Qed.

Lemma resource_delete_shuts_down_witness :
  let w' := (HandleMessage toy_lib (req "resource:delete" "x" []) toy_world).2 in
  w_hooked w' = ["x"%string]
  /\ w_out w' = w_out toy_world
       ++ [(1%positive, ErrorResponse 5 "DC_CLOSED" "data channel closed before send" false "xx")]
  /\ notified "x"%string toy_world w'.
Proof.
  split; [vm_compute; reflexivity|]. split; [vm_compute; reflexivity|].
  refine (proj2 (proj2 (resource_delete_shuts_down toy_lib 0%nat 1%positive true toy_world
    (req "resource:delete" "x" []) 7%positive toy_world_run _ _ _))).
  - reflexivity.
  - done.
  - vm_compute. reflexivity.
Defined.

Lemma registerChild_run {E} {env : Env E} dc p (w : world E) :
  exists h now e e', env_uuid (w_env w) = (h, e)
    /\ registerChild dc p w
       = (Ret h, set_reg (set_env w e') (RegisterChild (w_reg w) h (ResDC dc) p now)).
Proof.
  unfold registerChild, mbind, M_bind, ask, modify, mret, M_ret.
  destruct (env_uuid (w_env w)) as [h e] eqn:Eu. cbn [w_env set_env].
  destruct (env_now e) as [now e'] eqn:En. by exists h, now, e, e'.
Qed.

Lemma start_run {E} {env : Env E} dc h p (w : world E) :
  dcSendStates (w_reg w) !! h = None ->
  exists e, startDCSendGoroutine dc h p w
    = (Ret tt, set_env (set_reg (set_states w (<[w_next w := newDCSendState (dcConfig (w_h w)) (p_detach p)]> (w_states w))
                                   (Pos.succ (w_next w)))
                         (mkRegistry (resources (w_reg w)) (parent (w_reg w)) (children (w_reg w))
                            (<[h := w_next w]> (dcSendStates (w_reg w))) (lastSeen (w_reg w)))) e).
Proof.
  intros Hn. unfold startDCSendGoroutine, newState, mbind, M_bind, gets, modify, mret, M_ret, ask. simpl.
  unfold RegisterDCSendState. rewrite Hn. simpl.
  destruct (SetBufferedAmountLowThreshold dc _ (w_env w)) as [[] e]. by exists e.
Qed.

(** A channel that pc:createDc acknowledges is registered under a handle
    that was not in use, as a child of the connection it was asked for, with
    one empty, open send state of the session's configuration; the send state
    and the callbacks both follow the profile of that connection, so reading
    and writing agree on whether the channel is detached. *)
Theorem createDc_registers_channel {E} {env : Env E} {laws : EnvLaws E} lib e conn hook (w w' : world E) msg r :
  rtc (bridge_step lib) (start e conn hook) w ->
  Type_ msg = "pc:createDc"%string ->
  HandleMessage lib msg w = (Ret r, w') -> Type_ r <> "error"%string ->
  let profile := pcProfile (w_h w) (Handle msg) in
  exists dh dc a,
    mget (Data r) "dc_handle" = VString dh /\ resources (w_reg w) !! dh = None
    /\ resources (w_reg w') !! dh = Some (ResDC dc) /\ parent (w_reg w') !! dh = Some (Handle msg)
    /\ dcSendStates (w_reg w') !! dh = Some a
    /\ w_states w' !! a = Some (newDCSendState (dcConfig (w_h w)) (p_detach profile))
    /\ w_dcs w' !! dh = Some (mkDcHooks dc profile false).
Proof.
  intros Hr Ht HM Hne profile. pose proof (bridge_inv lib e conn hook w Hr) as Hi. revert HM.
  dispatch Ht. unfold handlePCCreateDc, with_pc. unfold mbind at 1, M_bind at 1.
  pose proof (lookupPC_found lib msg w Hi) as HL.
  assert (Hsame : forall pc w1, lookupPC msg w = (Ret (inl pc), w1) ->
    w_h w1 = w_h w /\ resources (w_reg w1) = resources (w_reg w) /\ w_dcs w1 = w_dcs w).
  { intros pc w1. unfold lookupPC. case_decide; [done|]. unfold mbind, M_bind.
    destruct (resources (w_reg w) !! Handle msg) as [res|] eqn:Eh; [|by rewrite Lookup_unknown].
    destruct (Lookup_world (Handle msg) w res Eh) as (e1 & now & -> & _).
    destruct (Lookup_same (w_reg w) (Handle msg) now) as (F1 & _). destruct res; [|done..].
    intros [= _ <-]. by rewrite <- F1. }
  destruct (lookupPC msg w) as [[[pc|em]| |] w1] eqn:EL; [|intros [= <- <-]|done|done].
  2:{ exfalso. apply Hne. pose proof (lookupPC_answers msg w _ _ EL) as [_ [Ha|[Ha _]]]; [|done].
      revert EL. unfold lookupPC. case_decide; [by intros [= <- _]|]. unfold mbind, M_bind.
      destruct (registry_Lookup (Handle msg) w) as [[[[]|]| |] ?]; by intros [= <- _]. }
  destruct HL as [Hi1 Hu]. destruct (Hsame pc w1 eq_refl) as (S1 & S2 & S3). clear Hsame EL.
  case_decide; [by intros [= <- _]|]. unfold mbind at 1, M_bind at 1, call.
  destruct (CreateDataChannel pc (data_string msg "label") (dataChannelInit lib (Data msg)) (w_env w1))
    as [[dc|err|v] e2] eqn:EC; [|by intros [= <- _]|done].
  pose proof (later_dc pc (data_string msg "label") (dataChannelInit lib (Data msg)) (w_env w1)) as HlC.
  rewrite EC in HlC. pose proof (inv_env lib ∅ w1 e2 Hi1 HlC) as Hi2.
  unfold mbind at 1, M_bind at 1. destruct (registerChild_run dc (Handle msg) (set_env w1 e2)) as (dh & now & e3 & e4 & Eu & ->).
  destruct (uuid_fresh_handle lib (set_env w1 e2) dh e3 Hi2 Eu) as ([Hf1 Hf2] & _). cbn [w_reg set_env] in Hf1, Hf2.
  assert (Hns : dcSendStates (w_reg w1) !! dh = None).
  { destruct (dcSendStates (w_reg w1) !! dh) as [a|] eqn:Ea; [|done].
    destruct (i_state _ _ _ Hi1 _ _ Ea) as [[? ?]%elem_of_dom _]. congruence. }
  unfold mbind at 1, M_bind at 1, gets. unfold mbind at 1, M_bind at 1.
  match goal with |- context [startDCSendGoroutine dc dh ?p ?w2] =>
    destruct (start_run dc dh p w2 Hns) as (e5 & ->) end.
  unfold mbind, M_bind, ask, setupDCCallbacks, modify, mret, M_ret.
  cbn [w_env set_hooks]. destruct (dc_Label dc _) as [lbl e6]. intros [= <- <-]. simpl.
  exists dh, dc, (w_next w1). rewrite !lookup_insert_eq, S1. unfold profile. rewrite <- S2. done.
Qed.

(** A session with one connection. *)
Definition toy_pc : world nat :=
  (HandleMessage toy_lib (req "pc:create" "" []) (start 0%nat 1%positive true)).2.

Lemma createDc_registers_channel_witness :
  exists r w', HandleMessage toy_lib (req "pc:createDc" "x" [("label", VString "chat")]%string) toy_pc = (Ret r, w')
  /\ exists dh dc a,
    mget (Data r) "dc_handle" = VString dh /\ resources (w_reg toy_pc) !! dh = None
    /\ resources (w_reg w') !! dh = Some (ResDC dc) /\ parent (w_reg w') !! dh = Some "x"%string
    /\ dcSendStates (w_reg w') !! dh = Some a
    /\ w_states w' !! a
       = Some (newDCSendState (dcConfig (w_h toy_pc)) (p_detach (pcProfile (w_h toy_pc) "x"%string)))
    /\ w_dcs w' !! dh = Some (mkDcHooks dc (pcProfile (w_h toy_pc) "x"%string) false).
Proof.
  assert (HT : match (HandleMessage toy_lib (req "pc:createDc" "x" [("label", VString "chat")]%string) toy_pc).1 with
               | Ret r => Type_ r = "pc:createDc:ack"%string | _ => False end) by (vm_compute; reflexivity).
  destruct (HandleMessage toy_lib (req "pc:createDc" "x" [("label", VString "chat")]%string) toy_pc)
    as [[r| |] w'] eqn:HM; [|done|done]. exists r, w'. split; [done|].
  apply (createDc_registers_channel toy_lib 0%nat 1%positive true toy_pc w'
            (req "pc:createDc" "x" [("label", VString "chat")]%string) r).
  - apply rtc_once. apply s_request.
  - reflexivity.
  - exact HM.
  - cbn in HT. by rewrite HT.
Defined.

(** A profile the bridge builds detaches channels iff pion's engine does. *)
Lemma buildProfile_detach lib cfg media p :
  buildProfile lib cfg media = inl p -> p_detach p = true <-> DetachDataChannels ∈ (api p).1.
Proof.
  unfold buildProfile. destruct cfg as [c|]; cbn [fst snd].
  - destruct (applySettingsEngine (lib_fc lib) (lib_engine lib) c) as [ss [e|]] eqn:Ea; [done|]. cbn [fst snd].
    assert (Hd : DetachDataChannels ∈ ss <-> cfg_bool c "detach_data_channels" = Some true).
    { unfold applySettingsEngine in Ea. pose proof (run_steps_calls (settings_steps (lib_fc lib) (lib_engine lib) c) []) as Hr.
      rewrite Ea in Hr. specialize (Hr eq_refl). cbn [fst app] in Hr. rewrite Hr.
      apply (detach_step (lib_fc lib) (lib_engine lib) c). }
    destruct media as [m|]; [destruct (buildMediaEngine _ _ _ m); [|done]|]; intros [= <-]; cbn [p_detach api fst];
      rewrite Hd; unfold cfg_bool; destruct (as_bool _) as [[]|]; done.
  - destruct media as [m|]; [destruct (buildMediaEngine _ _ _ m); [|done]|]; intros [= <-]; cbn [p_detach api fst];
      split; [done|set_solver|done|set_solver].
Qed.

Lemma profileFor_spec {E} {env : Env E} {laws : EnvLaws E} lib cfg media (w w' : world E) p :
  inv lib ∅ w -> profileFor lib cfg media w = (Ret (inl p), w') ->
  (exists cfg' media', lib_json lib cfg' media' = lib_json lib cfg media /\ buildProfile lib cfg' media' = inl p)
  /\ pcProfiles (w_h w') = pcProfiles (w_h w) /\ w_reg w' = w_reg w.
Proof.
  intros Hi. unfold profileFor. destruct (lib_json lib cfg media) as [key|] eqn:Ek; [|done].
  unfold mbind, M_bind, gets, modify, mret, M_ret.
  destruct (profiles (w_h w) !! key) as [p0|] eqn:Ep.
  - intros [= <- <-]. destruct (i_cache _ _ _ Hi _ _ Ep) as (c & m & Hj & Hb). split; [|done]. by exists c, m.
  - destruct (buildProfile lib cfg media) as [p1|] eqn:Eb; [|done]. rewrite Ep. intros [= <- <-].
    split; [|done]. by exists cfg, media.
Qed.

(** The payload of the request where it has one, the session's otherwise. *)
Definition merged (own session : option gomap) : option gomap :=
  match own with Some _ => own | None => session end.

(** A connection that pc:create acknowledges is registered under a handle
    that was not in use and keeps the profile it was made with: the session's
    when the request carries no settings, and otherwise a profile built from
    the request's payloads completed by the session's (cached under their
    JSON); that profile detaches channels exactly when pion was told to. *)
Theorem pc_create_profile {E} {env : Env E} {laws : EnvLaws E} lib e conn hook (w w' : world E) msg r :
  rtc (bridge_step lib) (start e conn hook) w ->
  Type_ msg = "pc:create"%string ->
  HandleMessage lib msg w = (Ret r, w') -> Type_ r <> "error"%string ->
  let se := cfgOrNil (mget (Data msg) "settings_engine") in
  let me := cfgOrNil (mget (Data msg) "media_engine") in
  exists pc, mget (Data r) "handle" = VString (Handle r)
    /\ resources (w_reg w) !! Handle r = None /\ resources (w_reg w') !! Handle r = Some (ResPC pc)
    /\ (se = None /\ me = None /\ pcProfile (w_h w') (Handle r) = defaultProfile (w_h w)
        \/ (exists cfg media,
              lib_json lib cfg media
              = lib_json lib (merged se (defaultSE (w_h w))) (merged me (defaultME (w_h w)))
              /\ buildProfile lib cfg media = inl (pcProfile (w_h w') (Handle r))
              /\ (p_detach (pcProfile (w_h w') (Handle r)) = true
                  <-> DetachDataChannels ∈ (api (pcProfile (w_h w') (Handle r))).1))).
Proof.
  intros Hr Ht HM Hne se me. pose proof (bridge_inv lib e conn hook w Hr) as Hi. revert HM.
  dispatch Ht. unfold handlePCCreate. fold se me. unfold mbind at 1, M_bind at 1.
  assert (Hch : forall p w1, chooseProfile lib se me w = (Ret (inl p), w1) -> w_reg w1 = w_reg w /\ inv lib ∅ w1
    /\ (se = None /\ me = None /\ p = defaultProfile (w_h w)
        \/ (exists cfg media,
              lib_json lib cfg media
              = lib_json lib (merged se (defaultSE (w_h w))) (merged me (defaultME (w_h w)))
              /\ buildProfile lib cfg media = inl p))).
  { intros p w1. unfold chooseProfile, mbind, M_bind, gets.
    assert (Hpf : profileFor lib (merged se (defaultSE (w_h w))) (merged me (defaultME (w_h w))) w = (Ret (inl p), w1) ->
      w_reg w1 = w_reg w /\ inv lib ∅ w1 /\ exists cfg media,
        lib_json lib cfg media = lib_json lib (merged se (defaultSE (w_h w))) (merged me (defaultME (w_h w)))
        /\ buildProfile lib cfg media = inl p).
    { intros Hp. destruct (profileFor_spec lib _ _ w w1 p Hi Hp) as (Hx & _ & Hreg). split; [done|].
      pose proof (keeps_profileFor lib (merged se (defaultSE (w_h w))) (merged me (defaultME (w_h w))) ∅ w Hi) as Hk.
      rewrite Hp in Hk. done. }
    destruct se, me; try (intros Hp; destruct (Hpf Hp) as (? & ? & ?); by eauto).
    intros [= <- <-]. split; [done|]. split; [done|]. by left. }
  destruct (chooseProfile lib se me w) as [[[p|err]| |] w1] eqn:EC; [|by intros [= <- _]|done|done].
  destruct (Hch p w1 eq_refl) as (Hreg & Hi1 & Hp). clear Hch EC.
  unfold mbind at 1, M_bind at 1, call.
  destruct (NewPeerConnection (api p) (pcConfiguration (Data msg)) (w_env w1)) as [[pc|err|v] e2] eqn:EN;
    [|by intros [= <- _]|done].
  pose proof (later_pc (api p) (pcConfiguration (Data msg)) (w_env w1)) as Hl. rewrite EN in Hl.
  pose proof (inv_env lib ∅ w1 e2 Hi1 Hl) as Hi2.
  unfold mbind, M_bind, ask, modify, mret, M_ret, setPCProfile, setupPCCallbacks.
  destruct (env_uuid (w_env (set_env w1 e2))) as [h e3] eqn:Eu. cbn [w_env set_env] in *.
  destruct (env_now e3) as [now e4] eqn:En. intros [= <- <-].
  destruct (uuid_fresh_handle lib (set_env w1 e2) h e3 Hi2 Eu) as ([Hf _] & _). cbn [w_reg set_env] in Hf.
  exists pc. simpl. unfold pcProfile. simpl. rewrite !lookup_insert_eq. rewrite <- Hreg. simpl. split_and!; try done.
  destruct Hp as [(-> & -> & ->)|(cfg & media & Hj & Hb)]; [by left|right].
  exists cfg, media. split; [done|]. split; [done|]. by apply (buildProfile_detach lib cfg media).
Qed.

Lemma pc_create_profile_witness :
  let msg := req "pc:create" "" [("settings_engine", VMap [("detach_data_channels", VBool true)])]%string in
  exists r w', HandleMessage toy_lib msg (start 0%nat 1%positive true) = (Ret r, w')
  /\ p_detach (pcProfile (w_h w') (Handle r)) = true
  /\ exists pc, mget (Data r) "handle" = VString (Handle r)
    /\ resources (w_reg w') !! Handle r = Some (ResPC pc).
Proof.
  intros msg.
  assert (HT : match HandleMessage toy_lib msg (start 0%nat 1%positive true) with
               | (Ret r, w') => Type_ r = "pc:create:ack"%string /\ p_detach (pcProfile (w_h w') (Handle r)) = true
               | _ => False end) by (vm_compute; done).
  destruct (HandleMessage toy_lib msg (start 0%nat 1%positive true)) as [[r| |] w'] eqn:HM; [|done|done].
  destruct HT as [HT Hd]. exists r, w'. split; [done|]. split; [done|].
  destruct (pc_create_profile toy_lib 0%nat 1%positive true (start 0%nat 1%positive true) w' msg r) as (pc & H1 & _ & H3 & _).
  - apply rtc_refl.
  - reflexivity.
  - exact HM.
  - by rewrite HT.
  - by exists pc.
Defined.
