(* ===== verification/Detached.v ===== *)
(** * The read loop of a detached channel (handler.go, [readDetached])

    pion's detached [ReadDataChannel] is a parameter with its documented
    behaviour: a message that does not fit the buffer is reported as a short
    buffer and stays queued. *)

From S2P Require Import Prelude GoValue Handler.

Local Open Scope Z_scope.

(** A message: whether it is a string, its text, its bytes; its size is what
    the buffer must hold. *)
Record incoming := mkIncoming {
  isString : bool;
  text : string;
  bytes : list Z;
  len : Z
}.

Inductive read_result := ReadOk (m : incoming) | ErrShortBuffer | ReadError.

(** The channel end: what is still to be read, and one read into a buffer. *)
Class Reader (R : Type) := {
  ReadDataChannel : R -> Z -> read_result * R;
  pending : R -> list incoming;
  read_fits r n m ms : pending r = m :: ms -> len m <= n ->
    exists r', ReadDataChannel r n = (ReadOk m, r') /\ pending r' = ms;
  read_short r n m ms : pending r = m :: ms -> n < len m ->
    exists r', ReadDataChannel r n = (ErrShortBuffer, r') /\ pending r' = m :: ms;
  read_end r n : pending r = [] -> exists r', ReadDataChannel r n = (ReadError, r')
}.

Section Read.
Context {R : Type} {reader : Reader R} (dcHandle : string).

Definition event (m : incoming) : Message := messageEvent dcHandle (isString m) (text m) (bytes m).

(** [limit]: the value of [maxMessageSize], or pion's default. *)
Definition readLimit (maxMessageSize : Z) : Z :=
  if maxMessageSize <=? 0 then 1073741823 else maxMessageSize.

(** The loop: the events it sends before it returns; [None] when it has not
    returned after [fuel] turns. *)
Fixpoint readLoop (fuel : nat) (limit buf : Z) (r : R) : option (list Message) :=
  match fuel with
  | O => None
  | S fuel' =>
      match ReadDataChannel r buf with
      | (ErrShortBuffer, r') =>
          if buf <? limit then readLoop fuel' limit (Z.min limit (2 * buf)) r' else Some []
      | (ReadError, _) => Some []
      | (ReadOk m, r') => cons (event m) <$> readLoop fuel' limit buf r'
      end
  end.

(** The deferred [emitClose] comes last. *)
Definition readDetached (fuel : nat) (r : R) (maxMessageSize : Z) : option (list Message) :=
  let limit := readLimit maxMessageSize in
  evs ← readLoop fuel limit (Z.min limit 65536) r;
  Some (evs ++ [Event "event:dataChannelClose" dcHandle (Some [("type", VString "close")]%string)]).

(** The messages up to the first that is longer than the limit. *)
Fixpoint deliverable (limit : Z) (ms : list incoming) : list incoming :=
  match ms with
  | [] => []
  | m :: ms' => if len m <=? limit then m :: deliverable limit ms' else []
  end.

(** [k] doublings take the buffer to the limit. *)
Lemma readLoop_spec ms : forall fuel k limit buf r,
  0 < buf <= limit -> limit <= buf * 2 ^ Z.of_nat k -> pending r = ms ->
  (length ms + k < fuel)%nat ->
  readLoop fuel limit buf r = Some (map event (deliverable limit ms)).
Proof.
  induction ms as [|m ms IH]; intros fuel k limit buf r Hbuf Hk Hp Hf.
  { destruct fuel; [simpl in Hf; lia|]. simpl. by destruct (read_end r buf Hp) as [r' ->]. }
  revert k buf r Hbuf Hk Hp Hf. induction fuel as [|fuel IHf]; intros k buf r Hbuf Hk Hp Hf; [lia|].
  simpl. destruct (decide (len m <= buf)) as [Hfit|Hfit].
  - destruct (read_fits r buf m ms Hp Hfit) as (r' & -> & Hp').
    rewrite (IH fuel k) by (done || simpl in *; lia).
    replace (len m <=? limit) with true by (symmetry; apply Z.leb_le; lia). done.
  - destruct (read_short r buf m ms Hp ltac:(lia)) as (r' & -> & Hp').
    destruct (buf <? limit) eqn:E; go_bool.
    + destruct k as [|k]; [simpl in Hk; lia|]. rewrite (IHf k); try done; [lia| |simpl in *; lia].
      rewrite Nat2Z.inj_succ, Z.pow_succ_r in Hk by lia.
      pose proof (Z.pow_pos_nonneg 2 (Z.of_nat k) ltac:(lia) ltac:(lia)). nia.
    + replace (len m <=? limit) with false by (symmetry; apply Z.leb_gt; lia). done.
Qed.

(** A buffer of at least one byte reaches any 63-bit limit in 63 doublings. *)
Lemma readDetached_spec fuel r maxMessageSize :
  maxMessageSize < 2 ^ 63 -> (length (pending r) + 63 < fuel)%nat ->
  readDetached fuel r maxMessageSize
  = Some (map event (deliverable (readLimit maxMessageSize) (pending r))
          ++ [Event "event:dataChannelClose" dcHandle (Some [("type", VString "close")]%string)]).
Proof.
  intros Hm Hf. unfold readDetached.
  assert (Hl : 0 < readLimit maxMessageSize < 2 ^ 63)
    by (unfold readLimit; destruct (maxMessageSize <=? 0) eqn:E; go_bool; lia).
  rewrite (readLoop_spec (pending r) fuel 63 _ _ r); try done; [lia|].
  change (Z.of_nat 63) with 63. nia.
Qed.

End Read.

(** A queue as a reader. *)
#[export] Instance queue_reader : Reader (list incoming).
Proof.
  refine {| ReadDataChannel := fun r n =>
              match r with
              | [] => (ReadError, r)
              | m :: ms => if len m <=? n then (ReadOk m, ms) else (ErrShortBuffer, r)
              end;
            pending := fun r => r |}.
  - intros r n m ms -> Hm. exists ms. by rewrite (proj2 (Z.leb_le _ _) Hm).
  - intros r n m ms -> Hm. exists (m :: ms). by rewrite (proj2 (Z.leb_gt _ _) Hm).
  - intros r n ->. by exists [].
Defined.

(** The read loop of a detached channel forwards every message, unchanged
    and in order, growing its buffer as needed, up to the first message that is
    longer than the configured maximum (pion's default when none is set); it
    then ends, and sends the close event last and once. *)
Theorem detached_read_forwards {R} {reader : Reader R} dcHandle fuel (r : R) maxMessageSize :
  maxMessageSize < 2 ^ 63 -> (length (pending r) + 63 < fuel)%nat ->
  (forall m, m ∈ pending r -> len m <= readLimit maxMessageSize) ->
  readDetached dcHandle fuel r maxMessageSize
  = Some (map (event dcHandle) (pending r)
          ++ [Event "event:dataChannelClose" dcHandle (Some [("type", VString "close")]%string)]).
Proof.
  intros Hm Hf Hall. rewrite readDetached_spec by done. do 2 f_equal. f_equal.
  induction (pending r) as [|m ms IH]; simpl; [done|].
  rewrite (proj2 (Z.leb_le _ _) (Hall m (list_elem_of_here _ _))). f_equal.
  apply IH; [simpl in Hf; lia|]. intros m' Hm'. apply Hall. by right.
Qed.

Lemma detached_read_forwards_witness :
  let ms := [mkIncoming true "hi" [] 2; mkIncoming false "" [1; 2; 3] 200000] in
  readDetached "dc" 100 ms 0
  = Some (map (event "dc") ms ++ [Event "event:dataChannelClose" "dc" (Some [("type", VString "close")]%string)]).
Proof.
  intros ms. refine (detached_read_forwards (R := list incoming) "dc" 100 ms 0 _ _ _); [lia|cbn; lia|].
  intros m Hm. cbn in Hm. repeat (apply elem_of_cons in Hm as [->|Hm]; [cbn; lia|]). by apply not_elem_of_nil in Hm.
Defined.
