(* ===== verification/Session.v ===== *)
(** * Outbound queue and close (server.go [connWriter], frame_session.go)

    The producers of a connection (handlers, pion callbacks, sender
    goroutines), its single writer goroutine and [FrameSession.Close], as the
    interleavings of their channel operations. *)

From S2P Require Import Prelude.

(** ** State *)

(** A frame is named by the ghost key of the [enqueue] that brings it. *)
Definition frame := nat.

(** Where a call of [enqueue] (or [Push]) is. *)
Inductive enq_pc :=
  | PCheck            (* at the first select: is the connection closed? *)
  | PSelect           (* at the second: send, or see it closed *)
  | POk_              (* returned nil *)
  | PClosed.          (* returned errConnClosed *)

(** Where the writer goroutine is. *)
Inductive writer_pc :=
  | WSelect
  | WGot (f : frame)      (* received; about to look at [done] again *)
  | WDeliver (f : frame)  (* inside [deliver] *)
  | WExited.              (* [writerDone] is closed *)

(** Where the calls of [Close] are: [once] runs its body for the first; every
    call then waits for [writerDone]. *)
Inductive close_pc := CNone | CWaiting | CReturned.

Record session := mkSession {
  ch : list frame;
  done : bool;
  enqs : gmap frame enq_pc;
  writer : writer_pc;
  closer : close_pc;
  accepted : list frame;   (* ghost: in the order they entered the channel *)
  delivered : list frame
}.

Definition newSession : session := mkSession [] false ∅ WSelect CNone [] [].

Definition set_enq (s : session) (k : frame) (p : enq_pc) : session :=
  mkSession (ch s) (done s) (<[k := p]> (enqs s)) (writer s) (closer s) (accepted s) (delivered s).

Definition set_writer (s : session) (l : list frame) (p : writer_pc) : session :=
  mkSession l (done s) (enqs s) p (closer s) (accepted s) (delivered s).

Definition set_closer (s : session) (d : bool) (p : close_pc) : session :=
  mkSession (ch s) d (enqs s) (writer s) p (accepted s) (delivered s).

(** [enqueue] once its send succeeds. *)
Definition push (s : session) (k : frame) : session :=
  mkSession (ch s ++ [k]) (done s) (<[k := POk_]> (enqs s)) (writer s) (closer s)
    (accepted s ++ [k]) (delivered s).

(** [deliver(frame)] returns. *)
Definition deliver (s : session) (f : frame) : session :=
  mkSession (ch s) (done s) (enqs s) WSelect (closer s) (accepted s) (delivered s ++ [f]).

Section Steps.
Context (cap : nat).

(** The steps of the writer goroutine. *)
Inductive writer_step (s : session) : session -> Prop :=
  | w_exit : writer s = WSelect -> done s = true -> writer_step s (set_writer s (ch s) WExited)
  | w_take f l : writer s = WSelect -> ch s = f :: l -> writer_step s (set_writer s l (WGot f))
  | w_dropped f : writer s = WGot f -> done s = true -> writer_step s (set_writer s (ch s) WExited)
  | w_keep f : writer s = WGot f -> done s = false -> writer_step s (set_writer s (ch s) (WDeliver f))
  | w_deliver f : writer s = WDeliver f -> writer_step s (deliver s f).

Inductive step (s : session) : session -> Prop :=
  | e_call k : enqs s !! k = None -> step s (set_enq s k PCheck)
  | e_was_closed k : enqs s !! k = Some PCheck -> done s = true -> step s (set_enq s k PClosed)
  | e_was_open k : enqs s !! k = Some PCheck -> done s = false -> step s (set_enq s k PSelect)
  | e_send k : enqs s !! k = Some PSelect -> (length (ch s) < cap)%nat -> step s (push s k)
  | e_closed k : enqs s !! k = Some PSelect -> done s = true -> step s (set_enq s k PClosed)
  | w_step s' : writer_step s s' -> step s s'
  | c_call : step s (set_closer s true (if closer s is CReturned then CReturned else CWaiting))
  | c_return : closer s = CWaiting -> writer s = WExited -> step s (set_closer s (done s) CReturned).

(** ** Invariant *)

(** The frame the writer holds. *)
Definition held (p : writer_pc) : list frame :=
  match p with WGot f | WDeliver f => [f] | _ => [] end.

Record ok (s : session) : Prop := {
  ok_fifo : accepted s = delivered s ++ held (writer s) ++ ch s
            \/ (writer s = WExited /\ exists lost, accepted s = delivered s ++ lost);
  ok_keys : forall k, k ∈ accepted s <-> enqs s !! k = Some POk_;
  ok_nodup : NoDup (accepted s);
  ok_closed : closer s <> CNone -> done s = true;
  ok_returned : closer s = CReturned -> writer s = WExited;
  ok_exited : writer s = WExited -> done s = true;
  ok_cap : (length (ch s) <= cap)%nat
}.

Lemma ok_new : ok newSession.
Proof.
  split; simpl; try done; [by left| |constructor|lia].
  intros k. rewrite lookup_empty. split; [by intros ?%not_elem_of_nil|done].
Qed.

Lemma ok_set_enq s k p :
  ok s -> p <> POk_ -> enqs s !! k <> Some POk_ -> ok (set_enq s k p).
Proof.
  intros [] Hp Hk. split; simpl; try done. intros k'. destruct (decide (k = k')) as [<-|Hne].
  - rewrite lookup_insert_eq. rewrite ok_keys0. naive_solver.
  - by rewrite lookup_insert_ne.
Qed.

Lemma ok_push s k :
  ok s -> enqs s !! k = Some PSelect -> (length (ch s) < cap)%nat -> ok (push s k).
Proof.
  intros [] Hk Hc. split; simpl; try done.
  - destruct ok_fifo0 as [->|[Hw [lost ->]]]; [left; by rewrite <- !app_assoc|].
    right. split; [done|]. exists (lost ++ [k]). by rewrite <- app_assoc.
  - intros k'. rewrite elem_of_app, list_elem_of_singleton. destruct (decide (k = k')) as [<-|Hne].
    + rewrite lookup_insert_eq. naive_solver.
    + rewrite lookup_insert_ne by done. rewrite <- ok_keys0. naive_solver.
  - apply NoDup_app. split_and!; [done| |apply NoDup_singleton].
    intros k' Hk' ->%list_elem_of_singleton. apply ok_keys0 in Hk'. congruence.
  - rewrite length_app. simpl. lia.
Qed.

Lemma ok_writer s s' : ok s -> writer_step s s' -> ok s'.
Proof.
  intros [] Hs. destruct Hs as [Hw Hd|f l Hw Hc|f Hw Hd|f Hw Hd|f Hw];
    destruct ok_fifo0 as [Ha|[Hx _]]; try congruence; rewrite Hw in Ha;
    (split; simpl; try done; [..]); try (intros Hr; specialize (ok_returned0 Hr); congruence).
  - right. split; [done|]. by exists (ch s).
  - left. simpl in Ha. by rewrite Hc in Ha.
  - rewrite Hc in ok_cap0. simpl in ok_cap0. lia.
  - right. split; [done|]. by exists (f :: ch s).
  - left. done.
  - left. by rewrite <- app_assoc.
Qed.

Lemma ok_step s s' : ok s -> step s s' -> ok s'.
Proof.
  intros Hok Hs. destruct Hs as [k Hk|k Hk Hd|k Hk Hd|k Hk Hc|k Hk Hd|s' Hw| |Hc Hw];
    try (apply ok_set_enq; [done|done|congruence]).
  - by apply ok_push.
  - by eapply ok_writer.
  - destruct Hok. split; simpl; try done. by destruct (closer s); auto.
  - destruct Hok. split; simpl; try done. intros _. by apply ok_exited0.
Qed.

Lemma ok_run s : rtc step newSession s -> ok s.
Proof. intros H. eapply rtc_preserve; [exact ok_step|exact ok_new|exact H]. Qed.

(** ** Closing *)

(** Steps the writer still takes once the connection is closed. *)
Definition remaining (p : writer_pc) : nat :=
  match p with WDeliver _ => 3 | WSelect => 2 | WGot _ => 1 | WExited => 0 end.

Lemma writer_done s s' :
  done s = true -> writer_step s s' -> (remaining (writer s') < remaining (writer s))%nat.
Proof. intros Hd Hs. destruct Hs as [Hw ?|? ? Hw ?|? Hw ?|? Hw ?|? Hw]; rewrite Hw; simpl; try lia; congruence. Qed.

Lemma writer_enabled s : done s = true -> writer s <> WExited -> exists s', writer_step s s'.
Proof.
  intros Hd Hw. destruct (writer s) as [|f|f|] eqn:E; [..|done]; eexists.
  - by apply w_exit.
  - by eapply w_dropped.
  - by eapply w_deliver.
Qed.

(** After the writer is gone nothing more is delivered. *)
Lemma exited_stays s s' : writer s = WExited -> step s s' -> writer s' = WExited /\ delivered s' = delivered s.
Proof.
  intros Hw Hs. destruct Hs as [| | | | |s' Hs| |]; try done. exfalso.
  destruct Hs as [Hw'|? ? Hw'|? Hw'|? Hw'|? Hw']; congruence.
Qed.

Lemma exited_run s s' : writer s = WExited -> rtc step s s' -> delivered s' = delivered s.
Proof.
  intros Hw Hr. induction Hr as [|a b c Hab _ IH]; [done|].
  destruct (exited_stays a b Hw Hab) as [Hb Hd]. by rewrite IH.
Qed.

End Steps.

(** ** Main properties *)

(** Frames reach the client in the order their [enqueue] took effect, each
    at most once and only if that [enqueue] returned nil; and while the writer
    runs no accepted frame is missing: the accepted frames are the delivered
    ones, then the one in the writer's hands, then the queue, which never
    exceeds its capacity. *)
Theorem frames_delivered_in_order cap s :
  rtc (step cap) newSession s ->
  NoDup (delivered s) /\ delivered s `prefix_of` accepted s
  /\ (forall f, f ∈ delivered s -> enqs s !! f = Some POk_)
  /\ (writer s <> WExited -> accepted s = delivered s ++ held (writer s) ++ ch s)
  /\ (length (ch s) <= cap)%nat.
Proof.
  intros Hr. pose proof (ok_run cap s Hr) as [Hf Hk Hn _ _ _ Hc].
  assert (Hp : delivered s `prefix_of` accepted s)
    by (destruct Hf as [->|[_ [lost ->]]]; by apply prefix_app_r).
  destruct Hp as [rest Hp]. rewrite Hp in *. split_and!; try done.
  - by apply NoDup_app in Hn as [? _].
  - by exists rest.
  - intros f Hf'. apply Hk. rewrite elem_of_app. by left.
  - intros Hw. destruct Hf as [Hf|[? _]]; done.
Qed.

(** Two frames enqueued, one of them delivered. *)
Definition busy : session :=
  mkSession [1%nat] false (<[1%nat := POk_]> (<[0%nat := POk_]> (<[1%nat := PSelect]> (<[1%nat := PCheck]>
    (<[0%nat := PSelect]> (<[0%nat := PCheck]> ∅)))))) WSelect CNone [0%nat; 1%nat] [0%nat].

Lemma busy_run : rtc (step 8) newSession busy.
Proof.
  eapply rtc_l; [apply (e_call _ _ 0%nat); reflexivity|].
  eapply rtc_l; [apply (e_was_open _ _ 0%nat); reflexivity|].
  eapply rtc_l; [apply (e_call _ _ 1%nat); reflexivity|].
  eapply rtc_l; [apply (e_was_open _ _ 1%nat); reflexivity|].
  eapply rtc_l; [apply (e_send _ _ 0%nat); [reflexivity|simpl; lia]|].
  eapply rtc_l; [apply (e_send _ _ 1%nat); [reflexivity|simpl; lia]|].
  eapply rtc_l; [apply w_step; eapply w_take; reflexivity|].
  eapply rtc_l; [apply w_step; eapply w_keep; reflexivity|].
  eapply rtc_l; [apply w_step; eapply w_deliver; reflexivity|].
  apply rtc_refl.
Qed.

Lemma frames_delivered_in_order_witness :
  NoDup (delivered busy) /\ delivered busy `prefix_of` accepted busy.
Proof.
  destruct (frames_delivered_in_order 8 busy busy_run) as (H1 & H2 & _). split; [exact H1|exact H2].
Defined.

(** C39. [Close] can always return, and nothing is delivered afterwards: once
    the connection is marked closed the writer goroutine has a step to take
    until it has exited, takes at most three, and [enqueue] never blocks; and
    from the moment [Close] has returned, no later step of anybody delivers a
    frame. *)
Theorem close_stops_delivery cap s :
  rtc (step cap) newSession s ->
  (closer s = CReturned -> forall s', rtc (step cap) s s' -> delivered s' = delivered s)
  /\ (done s = true ->
        (remaining (writer s) <= 3)%nat
        /\ (forall s', writer_step s s' -> (remaining (writer s') < remaining (writer s))%nat)
        /\ (writer s <> WExited -> exists s', writer_step s s')
        /\ (writer s = WExited -> closer s = CWaiting -> exists s', step cap s s' /\ closer s' = CReturned)
        /\ (forall k, enqs s !! k = Some PCheck \/ enqs s !! k = Some PSelect ->
              exists s', step cap s s' /\ enqs s' !! k = Some PClosed)).
Proof.
  intros Hr. pose proof (ok_run cap s Hr) as Hok. split.
  - intros Hc s' Hr'. eapply exited_run; [|exact Hr']. by apply (ok_returned _ _ Hok).
  - intros Hd. split_and!.
    + destruct (writer s); simpl; lia.
    + intros s'. by apply writer_done.
    + by apply writer_enabled.
    + intros Hw Hc. eexists. split; [by apply c_return|done].
    + intros k [Hk|Hk]; exists (set_enq s k PClosed); (split; [|simpl; apply lookup_insert_eq]);
        [by apply e_was_closed|by apply e_closed].
Qed.

Definition closed_busy : session :=
  set_closer (set_writer (set_closer busy true CWaiting) [1%nat] WExited) true CReturned.

Lemma closed_busy_run : rtc (step 8) newSession closed_busy.
Proof.
  etransitivity; [apply busy_run|].
  eapply rtc_l; [apply c_call|].
  eapply rtc_l; [apply w_step; apply w_exit; reflexivity|].
  eapply rtc_l; [apply c_return; reflexivity|]. apply rtc_refl.
Qed.

Lemma close_stops_delivery_witness :
  closer closed_busy = CReturned
  /\ forall s', rtc (step 8) closed_busy s' -> delivered s' = [0%nat].
Proof. split; [reflexivity|]. exact (proj1 (close_stops_delivery 8 closed_busy closed_busy_run) eq_refl). Defined.
