(* ===== verification/Server.v ===== *)
(** * Frames in, frames out (src/go/internal/pionserver/server.go)

    The token check, the WebSocket read loop, the message pool and
    [processFrame] with its panic recovery.  msgpack is a parameter: decoding
    fills the fields present in the frame into the message it is given. *)

From S2P Require Import Prelude GoValue Trace Registry Settings DCSend Bridge Handler HandlerSpec.

Local Open Scope Z_scope.

(** The message pool: messages that were put back.  [Get] may also allocate. *)
Definition newMessage : Message := mkMessage "" 0 "" [].

Record server (E : Type) := mkServer {
  s_world : world E;
  s_pool : list Message
}.
Arguments mkServer {E}.
Arguments s_world {E}.
Arguments s_pool {E}.

(** [getMessage]: the pool hands out one of its messages or makes a new one;
    [reuse] is its choice. *)
Definition getMessage (reuse : bool) (pool : list Message) : Message * list Message :=
  match reuse, pool with
  | true, m :: pool' => (m, pool')
  | _, _ => (newMessage, pool)
  end.

(** [putMessage]: the fields are zeroed and every key of the map deleted. *)
Definition clearMessage (m : Message) : Message :=
  mkMessage "" 0 "" (fold_right (fun kv d => filter (fun kv' => kv'.1 <> kv.1) d) (Data m) (Data m)).

Definition putMessage (m : Message) (pool : list Message) : list Message := clearMessage m :: pool.

Section Server.
Context {E : Type} {env : Env E} (lib : library).

(** [Unmarshal frame m]: the message after decoding into [m], and the error. *)
Context {frame : Type} (Unmarshal : frame -> Message -> Message * option string).

Definition enqueue (conn : positive) (m : Message) (w : world E) : world E :=
  set_out w (w_out w ++ [(conn, m)]).

(** The message the handler sees, and what becomes of it. *)
Definition processMessage (conn : positive) (msg : Message) : M E unit :=
  (if decide (Handle msg = ""%string) then mret tt else registry_Touch (Handle msg)) ;;
  response ← HandleMessage lib msg;
  if decide (Type_ response = ""%string) then mret tt else modify (enqueue conn response).

(** [processFrame]; the deferred calls put the message back and turn a panic
    into an error frame.  A blocked handler keeps its message. *)
Definition processFrame (conn : positive) (reuse : bool) (data : frame) (s : server E)
  : outcome unit * server E :=
  let (m0, pool) := getMessage reuse (s_pool s) in
  let (msg, err) := Unmarshal data m0 in
  match err with
  | Some e =>
      (Ret tt, mkServer (enqueue conn (ErrorResponse 0 "INVALID_REQUEST" ("invalid msgpack: " +:+ e) false "")
                           (s_world s)) (putMessage msg pool))
  | None =>
      match processMessage conn msg (s_world s) with
      | (Ret _, w) => (Ret tt, mkServer w (putMessage msg pool))
      | (Panics v, w) =>
          (Ret tt, mkServer (enqueue conn (ErrorResponse 0 "FATAL_PANIC" v true "") w) (putMessage msg pool))
      | (Blocks, w) => (Blocks, mkServer w pool)
      end
  end.

(** One turn of the read loop of [handleWebSocket]. *)
Definition readFrame (conn : positive) (reuse binary : bool) (size : Z) (data : frame) (s : server E)
  : outcome unit * server E :=
  let t := w_trace (s_world s) in
  let t' := if Enabled t then
              {| enabled := enabled t; ReadFrames := i64 (ReadFrames t + 1); ReadBytes := i64 (ReadBytes t + size);
                 DCFrames := DCFrames t; DCBytes := DCBytes t; DCNs := DCNs t; DCQDepth := DCQDepth t;
                 WriteFrames := WriteFrames t; WriteBytes := WriteBytes t; WriteNs := WriteNs t;
                 dcIndex := dcIndex t; nextIdx := nextIdx t; freeIdx := freeIdx t |}
            else t in
  let w := set_trace (s_world s) t' in
  if binary then processFrame conn reuse data (mkServer w (s_pool s))
  else
    (Ret tt, mkServer (enqueue conn (ErrorResponse 0 "INVALID_REQUEST" "expected binary message" false "") w)
               (s_pool s)).

(** The gate of [handleWebSocket]: [Some s] when the upgrade goes on. *)
Definition authorize (token header : string) : bool := bool_decide (header = token).

(** ** The pool never leaks *)

Lemma clear_all (m : Message) : Data (clearMessage m) = [].
Proof.
  unfold clearMessage. cbn [Data].
  assert (Hg : forall (l d : gomap), (forall kv, kv ∈ d -> exists kv', kv' ∈ l /\ kv'.1 = kv.1) ->
    fold_right (fun kv d => filter (fun kv' : string * value => kv'.1 <> kv.1) d) d l = []).
  { induction l as [|kv l IH]; intros d Hd; simpl.
    - destruct d as [|x d]; [done|]. destruct (Hd x (list_elem_of_here _ _)) as (y & Hy & _).
      by apply not_elem_of_nil in Hy.
    - assert (Hf : forall d' : gomap, filter (fun kv' : string * value => kv'.1 <> kv.1)
          (fold_right (fun kv d => filter (fun kv' : string * value => kv'.1 <> kv.1) d) d' l)
        = fold_right (fun kv d => filter (fun kv' : string * value => kv'.1 <> kv.1) d)
            (filter (fun kv' : string * value => kv'.1 <> kv.1) d') l).
      { clear. induction l as [|kw l IH]; intros d'; [done|]. simpl. rewrite <- IH.
        rewrite !list_filter_filter. apply list_filter_iff. naive_solver. }
      rewrite Hf. apply IH. intros x [Hx Hin]%list_elem_of_filter. destruct (Hd x Hin) as (y & [->|Hy]%elem_of_cons & E').
      + by rewrite E' in Hx.
      + by exists y. }
  apply Hg. intros kv Hkv. by exists kv.
Qed.

Lemma clear_new m : clearMessage m = newMessage.
Proof. pose proof (clear_all m) as H. unfold clearMessage, newMessage in *. simpl in *. by rewrite H. Qed.

Definition pool_clean (pool : list Message) : Prop := Forall (fun m => m = newMessage) pool.

Lemma get_clean reuse pool :
  pool_clean pool -> (getMessage reuse pool).1 = newMessage /\ pool_clean (getMessage reuse pool).2.
Proof. intros H. unfold getMessage. destruct reuse, H; simpl; split; try done; by constructor. Qed.

Lemma put_clean m pool : pool_clean pool -> pool_clean (putMessage m pool).
Proof. intros H. constructor; [apply clear_new|done]. Qed.

End Server.

(** ** Only dc:send can block *)

Section NoBlock.
Context {E : Type} {env : Env E} (lib : library).

Definition runs {A} (m : M E A) : Prop := forall w, (m w).1 <> Blocks.

Lemma runs_ret {A} (a : A) : runs (mret a).
Proof. done. Qed.

Lemma runs_gets {A} (f : world E -> A) : runs (gets f).
Proof. done. Qed.

Lemma runs_modify f : runs (modify f).
Proof. done. Qed.

Lemma runs_ask {A} (f : E -> A * E) : runs (ask f).
Proof. intros w. unfold ask. by destruct (f (w_env w)). Qed.

Lemma runs_call {A} (f : E -> pres A * E) : runs (call f).
Proof. intros w. unfold call. by destruct (f (w_env w)) as [[]]. Qed.

Lemma runs_bind {A B} (m : M E A) (k : A -> M E B) : runs m -> (forall a, runs (k a)) -> runs (m ≫= k).
Proof.
  intros Hm Hk w. unfold mbind, M_bind. specialize (Hm w). destruct (m w) as [[a|v|] w']; [apply Hk|done|done].
Qed.

Lemma runs_deferring {A} c (m : M E A) : runs m -> runs (deferring c m).
Proof. intros Hm w. unfold deferring. specialize (Hm w). by destruct (m w) as [[a|v|] w']. Qed.

Ltac run :=
  repeat first
    [ apply runs_ret | apply runs_gets | apply runs_modify | apply runs_ask | apply runs_call
    | simple apply runs_bind; [|intros ?] | simple apply runs_deferring | case_match | case_decide ].

Lemma runs_send conn m : runs (send_event conn m).
Proof. unfold send_event, registry_Touch. run. Qed.

Lemma runs_send_all ms : runs (send_all (E := E) ms).
Proof. induction ms as [|[]]; simpl; [run|]. apply runs_bind; [apply runs_send|done]. Qed.

Lemma runs_closeStateAt a : runs (closeStateAt (E := E) a).
Proof. unfold closeStateAt. apply runs_bind; [run|]. intros ss. case_match; [|run]. apply runs_bind; [run|]. intros _. apply runs_send_all. Qed.

Lemma runs_shutDown acts : runs (shutDown (E := E) acts).
Proof.
  induction acts as [|[a|[]] acts IH]; simpl; [apply runs_ret|..|exact IH].
  - apply runs_bind; [apply runs_closeStateAt|done].
  - apply runs_bind; [apply runs_call|done].
  - apply runs_bind; [apply runs_call|done].
Qed.

Lemma runs_with_pc msg k : (forall pc, runs (k pc)) -> runs (with_pc (E := E) msg k).
Proof.
  intros Hk. unfold with_pc, lookupPC, registry_Lookup. apply runs_bind; [run|]. intros []; [apply Hk|run].
Qed.

Lemma runs_with_dc msg k : (forall dc, runs (k dc)) -> runs (with_dc (E := E) msg k).
Proof.
  intros Hk. unfold with_dc, lookupDC, registry_Lookup. apply runs_bind; [run|]. intros []; [apply Hk|run].
Qed.

Lemma runs_stop h : runs (stopDCSendGoroutine (E := E) h).
Proof.
  unfold stopDCSendGoroutine. apply runs_bind; [run|]. intros []. apply runs_bind; [run|]. intros _.
  apply runs_bind; [case_match; [apply runs_closeStateAt|run]|]. intros _. run.
Qed.

Lemma runs_start dc h p : runs (startDCSendGoroutine (E := E) dc h p).
Proof. unfold startDCSendGoroutine, newState. run. Qed.

Lemma runs_delete h : runs (registry_Delete (E := E) h).
Proof.
  unfold registry_Delete. apply runs_bind; [run|]. intros w. case_match; [|run]. repeat case_match.
  apply runs_bind; [run|]. intros _. apply runs_bind; [apply runs_shutDown|]. intros _. run.
Qed.

Lemma HandleMessage_runs msg : Type_ msg <> "dc:send"%string -> runs (HandleMessage (E := E) lib msg).
Proof.
  intros Hne. unfold HandleMessage. cbn zeta.
  repeat (case_bool_decide as Ht; [first [done|clear Ht;
    unfold handleInit, handlePCCreate, chooseProfile, profileFor, setPCProfile, setupPCCallbacks, handlePCOffer,
      handlePCAnswer, handlePCSetLocalDesc, handlePCSetRemoteDesc, handlePCAddIce, handlePCClose, forgetPCProfile,
      handlePCAddTransceiver, handlePCCreateDc, registerChild, setupDCCallbacks,
      handleDCSetBufferedAmountLowThreshold, handleDCClose, handleResourceDelete, registry_Lookup;
    repeat first [ apply runs_with_pc; intros ? | apply runs_with_dc; intros ? | apply runs_start | apply runs_stop
                 | apply runs_delete | apply runs_ret | apply runs_gets | apply runs_modify | apply runs_ask
                 | apply runs_call | simple apply runs_bind; [|intros ?] | simple apply runs_deferring | case_match | case_decide ]]
   |clear Ht]).
  run.
Qed.

End NoBlock.

(** ** Main properties *)

(** What the handler is given: the pooled message plays no part in it. *)
Definition handled {E} {env : Env E} (lib : library) (msg : Message) (w : world E) : outcome Message * world E :=
  ((if decide (Handle msg = ""%string) then mret tt else registry_Touch (Handle msg)) ;; HandleMessage lib msg) w.

Lemma handled_runs {E} {env : Env E} lib msg (w : world E) :
  Type_ msg <> "dc:send"%string -> (handled lib msg w).1 <> Blocks.
Proof.
  intros Hne. unfold handled. apply (runs_bind (E := E)).
  - case_decide; [apply runs_ret|]. unfold registry_Touch. apply runs_bind; [apply runs_ask|intros; apply runs_modify].
  - intros _. by apply HandleMessage_runs.
Qed.

Lemma handled_answered {E} {env : Env E} lib msg (w w' : world E) r :
  handled lib msg w = (Ret r, w') -> answered msg r.
Proof. intros H. eapply (returns_bind (E := E)); [|exact H]. intros ?. apply HandleMessage_answers. Qed.

(** A response has an empty type only when it is no response. *)
Lemma answered_type msg r : answered msg r -> Type_ r = ""%string <-> r = noMessage.
Proof.
  intros [[_ [Ht|[Ht _]]]|[-> _]]; [..|done]; split; intros H.
  - rewrite Ht in H. by destruct (Type_ msg).
  - subst r. simpl in Ht. by destruct (Type_ msg).
  - rewrite Ht in H. done.
  - subst r. done.
Qed.

(** C30. Every inbound frame ends in exactly one of these ways, and never in a
    panic: it cannot be decoded and one INVALID_REQUEST error goes out; the
    handler answers and exactly that answer, with the request's id, is queued
    after whatever the handler sent; the handler panics and one fatal error is
    queued instead; or the request was a dc:send, which may return without an
    answer or wait for room in the channel's queue.  The handler sees only what
    this frame decodes to, nothing of earlier frames, and the message goes back
    to the pool empty. *)
Theorem frame_answered_once {E} {env : Env E} lib {frame} (Unmarshal : frame -> Message -> Message * option string)
    conn reuse data (s : server E) :
  pool_clean (s_pool s) ->
  let '(o, s') := processFrame lib Unmarshal conn reuse data s in
  (forall v, o <> Panics v) /\ pool_clean (s_pool s')
  /\ match Unmarshal data newMessage with
     | (_, Some e) =>
         o = Ret tt
         /\ s_world s' = enqueue conn (ErrorResponse 0 "INVALID_REQUEST" ("invalid msgpack: " +:+ e) false "") (s_world s)
     | (msg, None) =>
         match handled lib msg (s_world s) with
         | (Ret r, w) =>
             o = Ret tt
             /\ ((r = noMessage /\ Type_ msg = "dc:send"%string /\ s_world s' = w)
                 \/ (ID r = ID msg /\ s_world s' = enqueue conn r w))
         | (Panics v, w) => o = Ret tt /\ s_world s' = enqueue conn (ErrorResponse 0 "FATAL_PANIC" v true "") w
         | (Blocks, w) => o = Blocks /\ Type_ msg = "dc:send"%string /\ s_world s' = w
         end
     end.
Proof.
  intros Hp. unfold processFrame. destruct (get_clean reuse (s_pool s) Hp) as [H1 H2].
  destruct (getMessage reuse (s_pool s)) as [m0 pool]. simpl in H1, H2. subst m0.
  destruct (Unmarshal data newMessage) as [msg [err|]]; [by split_and!; try done; apply put_clean|].
  assert (Hpm : processMessage lib conn msg (s_world s) =
    match handled lib msg (s_world s) with
    | (Ret r, w) => if decide (Type_ r = ""%string) then (Ret tt, w) else (Ret tt, enqueue conn r w)
    | (Panics v, w) => (Panics v, w)
    | (Blocks, w) => (Blocks, w)
    end).
  { unfold processMessage, handled, mbind, M_bind. generalize (s_world s). intros w0.
    match goal with |- context [(if ?d then ?a else ?b) w0] =>
      destruct ((if d then a else b) w0) as [[[]|v|] w1]; try done end.
    destruct (HandleMessage lib msg w1) as [[r|v|] w2]; try done. by destruct (decide (Type_ r = ""%string)). }
  rewrite Hpm. pose proof (handled_runs lib msg (s_world s)) as Hb.
  destruct (handled lib msg (s_world s)) as [[r|v|] w] eqn:EH.
  - pose proof (handled_answered lib msg (s_world s) w r EH) as Ha.
    destruct (decide (Type_ r = ""%string)) as [Hr|Hr]; (split_and!; [done|by apply put_clean|done|]).
    + apply (answered_type msg r Ha) in Hr. destruct Ha as [[_ [Ht|[Ht _]]]|[_ Ht]].
      * subst r. simpl in Ht. by destruct (Type_ msg).
      * subst r. done.
      * by left.
    + right. split; [|done]. destruct Ha as [[Hid _]|[-> _]]; [done|]. done.
  - split_and!; try done. by apply put_clean.
  - split_and!; try done. destruct (decide (Type_ msg = "dc:send"%string)); [done|]. by specialize (Hb n).
Qed.

Lemma frame_answered_once_witness :
  pool_clean [newMessage]
  /\ let '(o, s') := processFrame toy_lib (fun (f : Message) _ => (f, None)) 1%positive true
                       (req "pc:create" "" []) (mkServer (start 0%nat 1%positive true) [newMessage]) in
     (forall v, o <> Panics v) /\ pool_clean (s_pool s').
Proof.
  assert (Hp : pool_clean [newMessage]) by (repeat constructor).
  split; [exact Hp|].
  pose proof (frame_answered_once toy_lib (fun (f : Message) _ => (f, None)) 1%positive true
    (req "pc:create" "" []) (mkServer (start 0%nat 1%positive true) [newMessage]) Hp) as H.
  destruct (processFrame _ _ _ _ _ _) as [o s']. destruct H as (H1 & H2 & _). split; [exact H1|exact H2].
Defined.
