(* ===== verification/WindowedMin.v ===== *)
(** * Minimum over a sliding window (windowedmin.go) and the control queue (control_queue.go)

    RACK keeps the least round-trip time of the last 30 seconds in a deque of
    samples, pruned by binary search.  The reference is the minimum of the
    samples of the window. *)

From Stdlib Require Import Sorted.
From S2P Require Import Prelude.

Local Open Scope Z_scope.

(** ** Data *)

(** Times and durations in nanoseconds. *)
Record entry := mkEntry { t : Z; v : Z }.

#[global] Instance entry_eq_dec : EqDecision entry.
Proof. solve_decision. Defined.

Record windowedMin := mkWindow { rackMinRTTWnd : Z; deque : list entry }.

Definition newWindowedMin (window : Z) : windowedMin :=
  mkWindow (if window <=? 0 then 30 * 1000000000 else window) [].

(** ** Operations *)

Definition prune (w : windowedMin) (now : Z) : windowedMin :=
  match deque w with
  | [] => w
  | d =>
      let cutoff := now - rackMinRTTWnd w in
      let first := Search (length d) (fun i =>
        match d !! i with Some e => negb (t e <? cutoff) | None => false end) in
      if (0 <? first)%nat then mkWindow (rackMinRTTWnd w) (drop first d) else w
  end.

(** The loop of [Push]: the deque is cut to [i - 1] while its last value is not
    below the new one. *)
Fixpoint popLarger (i : nat) (d : list entry) (x : Z) : list entry :=
  match i with
  | O => d
  | S j =>
      match d !! j with
      | Some e => if x <=? v e then popLarger j (take j d) x else d
      | None => d
      end
  end.

Definition Push (w : windowedMin) (now x : Z) : windowedMin :=
  let w := prune w now in
  mkWindow (rackMinRTTWnd w) (popLarger (length (deque w)) (deque w) x ++ [mkEntry now x]).

(** [Min] prunes the deque it looks at. *)
Definition Min (w : windowedMin) (now : Z) : Z * windowedMin :=
  let w := prune w now in
  (match deque w with [] => 0 | e :: _ => v e end, w).

Definition Len (w : windowedMin) : Z := Z.of_nat (length (deque w)).

(** ** Reference *)

(** The least value of the samples not older than [cutoff], 0 if there is none. *)
Definition window_min (cutoff : Z) (samples : list entry) : Z :=
  match filter (fun e => cutoff <= t e) samples with
  | [] => 0
  | e :: l => fold_left (fun m e => Z.min m (v e)) l (v e)
  end.

(** ** Proofs *)

(** The samples that no later one undercuts. *)
Fixpoint minima (l : list entry) : list entry :=
  match l with
  | [] => []
  | e :: l' => if decide (Exists (fun e' => v e' <= v e) l') then minima l' else e :: minima l'
  end.

Abbreviation by_time := (StronglySorted (fun a b : entry => t a <= t b)).
Abbreviation rising := (StronglySorted (fun a b : entry => v a < v b)).

Lemma minima_sub l e : e ∈ minima l -> e ∈ l.
Proof.
  induction l as [|x l IH]; simpl; [done|]. destruct (decide _); [intros; right; auto|].
  intros [->|H]%elem_of_cons; [left|right; auto].
Qed.

Lemma minima_rising l : rising (minima l).
Proof.
  induction l as [|x l IH]; simpl; [constructor|]. destruct (decide _) as [H|H]; [done|].
  constructor; [done|]. apply Forall_forall. intros e He%minima_sub.
  rewrite Exists_exists in H. destruct (Z_lt_dec (v x) (v e)); [done|]. destruct H. exists e. split; [done|lia].
Qed.

Lemma minima_by_time l : by_time l -> by_time (minima l).
Proof.
  induction 1 as [|x l Hl IH Hx]; simpl; [constructor|]. destruct (decide _); [done|].
  constructor; [done|]. rewrite Forall_forall in *. intros e He. apply Hx. by apply minima_sub.
Qed.

Lemma minima_snoc l x :
  minima (l ++ [x]) = filter (fun e => v e < v x) (minima l) ++ [x].
Proof.
  induction l as [|y l IH]; [done|]. simpl. rewrite IH.
  destruct (decide (Exists _ (l ++ [x]))) as [H|H], (decide (Exists _ l)) as [H'|H']; try done.
  - rewrite filter_cons_False; [done|].
    apply Exists_app in H as [H|H%Exists_cons]; [done|]. rewrite Exists_nil in H. intuition lia.
  - destruct H. apply Exists_app. by left.
  - rewrite filter_cons_True; [done|].
    destruct (Z_lt_dec (v y) (v x)); [done|]. destruct H. apply Exists_app. right. constructor. lia.
Qed.

(** Later samples are newer, so what the window drops undercuts nothing in it. *)
Lemma minima_window c l :
  by_time l -> minima (filter (fun e => c <= t e) l) = filter (fun e => c <= t e) (minima l).
Proof.
  induction 1 as [|x l Hl IH Hx]; [done|]. simpl. rewrite Forall_forall in Hx.
  destruct (decide (c <= t x)) as [Hc|Hc].
  - rewrite (filter_cons_True _ x) by done. simpl. rewrite IH.
    assert (Hall : filter (fun e => c <= t e) l = l).
    { apply filter_all. intros e He. specialize (Hx e He). lia. }
    rewrite Hall. destruct (decide _); [done|]. by rewrite filter_cons_True.
  - rewrite (filter_cons_False _ x) by done. rewrite IH.
    destruct (decide _); [done|]. by rewrite filter_cons_False.
Qed.

Lemma minima_head l e l' :
  minima l = e :: l' -> e ∈ l /\ forall x, x ∈ l -> v e <= v x.
Proof.
  revert e l'. induction l as [|y l IH]; simpl; [done|]. intros e l'.
  destruct (decide (Exists (fun e' => v e' <= v y) l)) as [H|H].
  - intros E. destruct (IH _ _ E) as [Hin Hle]. split; [by right|].
    apply Exists_exists in H as (z & Hz & Hzy). intros x [->|Hx]%elem_of_cons; [|auto].
    specialize (Hle z Hz). lia.
  - intros [= -> _]. split; [left|]. intros x [->|Hx]%elem_of_cons; [lia|].
    destruct (Z_lt_dec (v x) (v e)); [|lia]. destruct H. apply Exists_exists. exists x. split; [done|lia].
Qed.

Lemma minima_nil l : minima l = [] -> l = [].
Proof.
  induction l as [|y l IH]; simpl; [done|]. destruct (decide (Exists _ l)) as [H|H]; [|done].
  intros E. rewrite (IH E) in H. by apply Exists_nil in H.
Qed.

Lemma by_time_lookup d i j a b :
  by_time d -> d !! i = Some a -> d !! j = Some b -> (i <= j)%nat -> t a <= t b.
Proof.
  intros Hd. revert i j. induction Hd as [|x d Hd IH Hx]; intros i j Hi Hj Hle; [done|].
  destruct i as [|i], j as [|j]; simplify_eq/=; [lia| |lia|by apply (IH i j); try lia].
  rewrite Forall_forall in Hx. apply Hx. by apply list_elem_of_lookup_2 in Hj.
Qed.

(** Pruning keeps the samples of the window. *)
Lemma prune_filter w now :
  by_time (deque w) ->
  prune w now = mkWindow (rackMinRTTWnd w) (filter (fun e => now - rackMinRTTWnd w <= t e) (deque w)).
Proof.
  intros Hd. unfold prune. destruct w as [wnd d]. cbn [deque rackMinRTTWnd] in *.
  destruct d as [|e0 d0]; [done|].
  remember (e0 :: d0) as d eqn:Ed. clear e0 d0 Ed.
  set (f := fun i => match d !! i with Some e => negb (t e <? now - wnd) | None => false end).
  set (g := fun i => match d !! i with Some e => negb (t e <? now - wnd) | None => true end).
  assert (Hs : forall n i j, (j <= length d)%nat -> search n f i j = search n g i j).
  { induction n as [|n IH]; intros i j Hj; [done|]. simpl. destruct (Nat.ltb_spec i j); [|done].
    assert (Hh : (Nat.div2 (i + j) < length d)%nat).
    { rewrite Nat.div2_div. apply Nat.Div0.div_lt_upper_bound; lia. }
    destruct (lookup_lt_is_Some_2 d _ Hh) as [e He]. unfold f at 1, g at 1. rewrite He.
    destruct (negb _); apply IH; lia. }
  unfold Search. rewrite Hs by lia.
  destruct (search_spec g (length d) 0 (length d)) as (H1 & H2 & H3); [lia..| |].
  { intros a b Hab. unfold g. destruct (d !! b) as [eb|] eqn:Eb; [|done].
    destruct (lookup_lt_is_Some_2 d a) as [ea Ea]; [apply lookup_lt_Some in Eb; lia|]. rewrite Ea.
    pose proof (by_time_lookup _ _ _ _ _ Hd Ea Eb Hab). rewrite !negb_true_iff, !Z.ltb_ge. lia. }
  set (k := search _ _ _ _) in *.
  assert (Hf : filter (fun e => now - wnd <= t e) d = drop k d).
  { rewrite <- (take_drop k d) at 1. rewrite filter_app, filter_none, filter_all; [done| |].
    - intros x [i Hi]%list_elem_of_lookup. rewrite lookup_drop in Hi.
      specialize (H3 (k + i)%nat). unfold g in H3. rewrite Hi in H3. apply lookup_lt_Some in Hi.
      specialize (H3 ltac:(lia)). go_bool. lia.
    - intros x [i Hi]%list_elem_of_lookup. apply lookup_take_Some in Hi as [Hi Hlt].
      specialize (H2 i). unfold g in H2. rewrite Hi in H2. specialize (H2 ltac:(lia)). go_bool. lia. }
  rewrite Hf. destruct (Nat.ltb_spec 0 k); [done|]. by replace k with 0%nat by lia.
Qed.

Lemma popLarger_filter d x : rising d -> popLarger (length d) d x = filter (fun e => v e < x) d.
Proof.
  induction d as [|e d IH] using rev_ind; [done|]. intros Hd.
  assert (Hd' : rising d /\ Forall (fun a => v a < v e) d).
  { clear -Hd. induction d as [|a d IH]; [by repeat constructor|]. inversion Hd as [|? ? H1 H2]; subst.
    destruct (IH H1) as [H3 H4]. apply Forall_app in H2 as [H2 H5]. inversion H5; subst.
    split; constructor; done. }
  destruct Hd' as [Hr Hlt]. rewrite length_app, Nat.add_1_r. simpl.
  rewrite lookup_app_r, Nat.sub_diag by lia. simpl. rewrite filter_app.
  destruct (Z.leb_spec x (v e)) as [Hle|Hgt].
  - rewrite take_app_length, (IH Hr), filter_cons_False, app_nil_r by lia. done.
  - rewrite filter_cons_True by lia. f_equal. symmetry. apply filter_all.
    intros a Ha. rewrite Forall_forall in Hlt. specialize (Hlt a Ha). lia.
Qed.

(** *** Runs *)

Inductive op := Sample (now x : Z) | Query (now : Z).

Definition time_of (o : op) : Z := match o with Sample now _ | Query now => now end.

(** The answers of the queries. *)
Fixpoint run (w : windowedMin) (ops : list op) : list Z :=
  match ops with
  | [] => []
  | Sample now x :: ops' => run (Push w now x) ops'
  | Query now :: ops' => (Min w now).1 :: run (Min w now).2 ops'
  end.

(** What they should be: every sample ever given is kept. *)
Fixpoint spec (wnd : Z) (samples : list entry) (ops : list op) : list Z :=
  match ops with
  | [] => []
  | Sample now x :: ops' => spec wnd (samples ++ [mkEntry now x]) ops'
  | Query now :: ops' => window_min (now - wnd) samples :: spec wnd samples ops'
  end.

(** The deque holds the minima of the samples since a cutoff in the past. *)
Record represents (w : windowedMin) (samples : list entry) (now : Z) : Prop := {
  rep_time : by_time samples;
  rep_past : Forall (fun e => t e <= now) samples;
  rep_deque : exists c, c <= now - rackMinRTTWnd w /\ deque w = minima (filter (fun e => c <= t e) samples)
}.

Lemma by_time_filter c l : by_time l -> by_time (filter (fun e => c <= t e) l).
Proof.
  induction 1 as [|x l Hl IH Hx]; [constructor|]. destruct (decide (c <= t x)).
  - rewrite filter_cons_True by done. constructor; [done|]. rewrite Forall_forall in *.
    intros e [_ He]%list_elem_of_filter. by apply Hx.
  - by rewrite filter_cons_False.
Qed.

Lemma by_time_snoc l e : by_time l -> Forall (fun a => t a <= t e) l -> by_time (l ++ [e]).
Proof.
  induction 1 as [|x l Hl IH Hx]; simpl; [by repeat constructor|]. intros [? ?]%Forall_cons.
  constructor; [by apply IH|]. apply Forall_app. split; [done|by constructor].
Qed.

Lemma prune_window w samples now now' :
  represents w samples now -> now <= now' ->
  prune w now' = mkWindow (rackMinRTTWnd w)
                   (minima (filter (fun e => now' - rackMinRTTWnd w <= t e) samples)).
Proof.
  intros [Ht Hp (c & Hc & Hd)] Hnow. rewrite prune_filter, Hd.
  - rewrite <- minima_window by (by apply by_time_filter). rewrite list_filter_filter. do 2 f_equal.
    apply list_filter_iff. intros. lia.
  - rewrite Hd. by apply minima_by_time, by_time_filter.
Qed.

Lemma represents_prune w samples now now' :
  represents w samples now -> now <= now' -> represents (prune w now') samples now'.
Proof.
  intros Hr Hnow. rewrite (prune_window _ _ _ _ Hr Hnow). destruct Hr as [Ht Hp _]. constructor; simpl; [done| |].
  - eapply Forall_impl; [exact Hp|]. simpl. lia.
  - eexists. split; [|done]. lia.
Qed.

Lemma represents_push w samples now now' x :
  represents w samples now -> now <= now' -> 0 < rackMinRTTWnd w ->
  represents (Push w now' x) (samples ++ [mkEntry now' x]) now'.
Proof.
  intros Hr Hnow Hw. pose proof (represents_prune _ _ _ _ Hr Hnow) as [Ht Hp _].
  constructor; [by apply by_time_snoc| |].
  - apply Forall_app. split; [done|]. constructor; [simpl; lia|constructor].
  - unfold Push. rewrite (prune_window _ _ _ _ Hr Hnow). simpl.
    exists (now' - rackMinRTTWnd w). split; [lia|].
    rewrite popLarger_filter by apply minima_rising. rewrite filter_app, filter_cons_True by (simpl; lia).
    by rewrite minima_snoc.
Qed.

Lemma fold_min_least (l : list entry) m :
  (forall x, x ∈ l -> m <= v x) -> fold_left (fun a e => Z.min a (v e)) l m = m.
Proof.
  induction l as [|e l IH]; simpl; [done|]. intros H. rewrite Z.min_l by (apply H; left).
  apply IH. intros. apply H. by right.
Qed.

Lemma fold_min_attained (l : list entry) m a :
  a ∈ l -> (forall x, x ∈ l -> v a <= v x) -> v a <= m -> fold_left (fun a e => Z.min a (v e)) l m = v a.
Proof.
  revert m. induction l as [|e l IH]; intros m Hin Hle Hm; [by apply not_elem_of_nil in Hin|]. simpl.
  apply elem_of_cons in Hin as [<-|Hin].
  - rewrite Z.min_r by lia. apply fold_min_least. intros. apply Hle. by right.
  - apply IH; [done| |]; [intros; apply Hle; by right|]. pose proof (Hle e ltac:(left)). lia.
Qed.

Lemma head_window_min c samples :
  match minima (filter (fun e => c <= t e) samples) with [] => 0 | e :: _ => v e end = window_min c samples.
Proof.
  unfold window_min. set (l := filter _ samples).
  destruct (minima l) as [|e l'] eqn:E; [by rewrite (minima_nil _ E)|].
  destruct (minima_head _ _ _ E) as [Hin Hle]. destruct l as [|x l0]; [by apply not_elem_of_nil in Hin|].
  symmetry. apply elem_of_cons in Hin as [<-|Hin].
  - apply fold_min_least. intros. apply Hle. by right.
  - apply fold_min_attained; [done| |]; [intros; apply Hle; by right|apply Hle; left].
Qed.

Lemma run_spec w samples now ops :
  0 < rackMinRTTWnd w -> represents w samples now ->
  StronglySorted (fun a b => time_of a <= time_of b) ops -> Forall (fun o => now <= time_of o) ops ->
  run w ops = spec (rackMinRTTWnd w) samples ops.
Proof.
  revert w samples now. induction ops as [|o ops IH]; intros w samples now Hw Hr Hs Hnow; [done|].
  inversion Hs as [|? ? Hs' Hle]; subst. apply Forall_cons in Hnow as [Ho _].
  destruct o as [now' x|now']; simpl in *.
  - pose proof (represents_push _ _ _ _ x Hr Ho Hw) as Hr'.
    rewrite (IH (Push w now' x) _ _ ltac:(unfold Push; rewrite (prune_window _ _ _ _ Hr Ho); done) Hr' Hs' Hle).
    unfold Push. by rewrite (prune_window _ _ _ _ Hr Ho).
  - pose proof (represents_prune _ _ _ _ Hr Ho) as Hr'. unfold Min. cbn [fst snd].
    rewrite (IH (prune w now') _ _ ltac:(rewrite (prune_window _ _ _ _ Hr Ho); done) Hr' Hs' Hle).
    rewrite (prune_window _ _ _ _ Hr Ho). simpl. f_equal. apply head_window_min.
Qed.

(** C35. The deque computes the windowed minimum: from a new window, for samples
    and queries at non-decreasing times, each query answers the least of all
    samples given so far that are at most the window old, and 0 when there is
    none. *)
Theorem windowed_min_exact window ops :
  StronglySorted (fun a b => time_of a <= time_of b) ops ->
  run (newWindowedMin window) ops = spec (rackMinRTTWnd (newWindowedMin window)) [] ops.
Proof.
  intros Hs. set (w := newWindowedMin window).
  assert (Hw : 0 < rackMinRTTWnd w) by (unfold w, newWindowedMin; simpl; destruct (Z.leb_spec window 0); lia).
  destruct ops as [|o ops]; [done|]. apply (run_spec _ _ (time_of o)); [done| |done|].
  - constructor; [constructor..|]. exists (time_of o - rackMinRTTWnd w). split; [lia|done].
  - inversion Hs; subst. constructor; [lia|done].
Qed.

Lemma windowed_min_exact_witness :
  run (newWindowedMin 10) [Sample 0 7; Sample 3 5; Query 4; Sample 6 9; Query 12; Query 14; Query 40]
  = [5; 5; 9; 0].
Proof.
  rewrite (windowed_min_exact 10); [reflexivity|]. repeat constructor; simpl; lia.
Defined.

(** ** Control queue *)

Section ControlQueue.
Context {packet : Type}.

(** Packets of control chunks waiting to be written. *)
Record controlQueue := mkControl { queue : list packet }.

Definition newControlQueue : controlQueue := mkControl [].

Definition push (q : controlQueue) (c : packet) : controlQueue := mkControl (queue q ++ [c]).

Definition pushAll (q : controlQueue) (cs : list packet) : controlQueue := mkControl (queue q ++ cs).

Definition popAll (q : controlQueue) : list packet * controlQueue := (queue q, mkControl []).

Definition size (q : controlQueue) : Z := Z.of_nat (length (queue q)).

End ControlQueue.
