(* ===== verification/PendingQueue.v ===== *)
(** * Pending queue and stream schedulers (pending_queue.go)

    Chunks wait here for a TSN.  Without interleaving the message policy keeps
    the fragments of a message together; with it (RFC 8260) a stream scheduler,
    round robin or weighted fair queueing, chooses the stream of the next chunk.
    The pending queue is proved against the interface [StreamScheduler] and its
    laws, which both schedulers discharge. *)

From S2P Require Import Prelude Float64 Bytes Chunks.

Local Open Scope Z_scope.

Abbreviation loc := positive.

Inductive qerr :=
  | ErrUnexpectedChunkPoppedUnordered
  | ErrUnexpectedChunkPoppedOrdered
  | ErrUnexpectedChunkPoppedStream
  | ErrUnexpectedQState
  | ErrPendingQueueModeChangeNonEmpty
  | errNilStreamScheduler.

(** ** Base queue *)

(** The chunks in order. *)
Abbreviation pendingBaseQueue := (list loc).

Module Base.

Definition newPendingBaseQueue : pendingBaseQueue := [].

Definition push (q : pendingBaseQueue) (c : loc) : pendingBaseQueue := q ++ [c].

Definition pop (q : pendingBaseQueue) : option loc * pendingBaseQueue :=
  match q with [] => (None, q) | c :: q' => (Some c, q') end.

Definition get (q : pendingBaseQueue) (i : Z) : option loc :=
  if (Z.of_nat (length q) =? 0) || (i <? 0) || (Z.of_nat (length q) <=? i) then None
  else q !! Z.to_nat i.

Definition size (q : pendingBaseQueue) : Z := Z.of_nat (length q).

Lemma get_0 q : get q 0 = head q.
Proof.
  unfold get. destruct q as [|c q]; [done|].
  replace (_ || _) with false; [done|]. symmetry. simpl length.
  rewrite !orb_false_iff, Z.eqb_neq, Z.ltb_ge, Z.leb_gt. lia.
Qed.

End Base.

Import Base (newPendingBaseQueue).

(** ** Message policy *)

Module Message.

Record messagePendingQueuePolicy := mkPolicy {
  unorderedQueue : pendingBaseQueue;
  orderedQueue : pendingBaseQueue;
  selected : bool;
  unorderedIsSelected : bool
}.

Definition newMessagePendingQueuePolicy : messagePendingQueuePolicy :=
  mkPolicy newPendingBaseQueue newPendingBaseQueue false false.

Section Policy.
(** The fields of a chunk do not change while it waits. *)
Context (deref : loc -> payloadData).

Definition push (q : messagePendingQueuePolicy) (c : loc) : messagePendingQueuePolicy :=
  if unordered (deref c) then
    mkPolicy (Base.push (unorderedQueue q) c) (orderedQueue q) (selected q) (unorderedIsSelected q)
  else mkPolicy (unorderedQueue q) (Base.push (orderedQueue q) c) (selected q) (unorderedIsSelected q).

Definition peek (q : messagePendingQueuePolicy) : option loc :=
  if selected q then
    if unorderedIsSelected q then Base.get (unorderedQueue q) 0 else Base.get (orderedQueue q) 0
  else match Base.get (unorderedQueue q) 0 with
       | Some c => Some c
       | None => Base.get (orderedQueue q) 0
       end.

(** Takes the first chunk of one of the two queues. *)
Definition pop_from (q : messagePendingQueuePolicy) (u : bool) : option loc * messagePendingQueuePolicy :=
  if u then
    let (popped, l) := Base.pop (unorderedQueue q) in
    (popped, mkPolicy l (orderedQueue q) (selected q) (unorderedIsSelected q))
  else
    let (popped, l) := Base.pop (orderedQueue q) in
    (popped, mkPolicy (unorderedQueue q) l (selected q) (unorderedIsSelected q)).

Definition pop_err (u : bool) : qerr :=
  if u then ErrUnexpectedChunkPoppedUnordered else ErrUnexpectedChunkPoppedOrdered.

Definition popSelected (q : messagePendingQueuePolicy) (c : loc)
  : option qerr * messagePendingQueuePolicy :=
  let (popped, q') := pop_from q (unorderedIsSelected q) in
  if decide (popped = Some c) then
    (None, if endingFragment (deref c)
           then mkPolicy (unorderedQueue q') (orderedQueue q') false (unorderedIsSelected q') else q')
  else (Some (pop_err (unorderedIsSelected q)), q').

Definition popNewSelection (q : messagePendingQueuePolicy) (c : loc)
  : option qerr * messagePendingQueuePolicy :=
  let isSelected := unordered (deref c) in
  let (popped, q') := pop_from q isSelected in
  if decide (popped = Some c) then
    (None, if endingFragment (deref c) then q'
           else mkPolicy (unorderedQueue q') (orderedQueue q') true isSelected)
  else (Some (pop_err isSelected), q').

Definition pop (q : messagePendingQueuePolicy) (c : loc) : option qerr * messagePendingQueuePolicy :=
  if selected q then popSelected q c
  else if negb (beginningFragment (deref c)) then (Some ErrUnexpectedQState, q)
  else popNewSelection q c.

End Policy.
End Message.

(** ** The interface of stream schedulers *)

(** [Peek] is given the order in which a range over the streams visits them;
    [None] is a panic.  [Pop] returns the error. *)
Class StreamScheduler (S : Type) := {
  Reset : S -> S;
  Push : (loc -> payloadData) -> S -> loc -> S;
  Peek : list Z -> S -> option (option loc * S);
  Pop : S -> loc -> option qerr * S
}.

Abbreviation streams := (gmap Z (list loc)).

(** Adding to and taking from the queue of a stream; an empty queue has no entry. *)
Definition enq (m : streams) (s : Z) (c : loc) : streams := <[s := default [] (m !! s) ++ [c]]> m.

Definition deq (m : streams) (s : Z) : streams :=
  match m !! s with
  | Some (_ :: c :: l) => <[s := c :: l]> m
  | _ => delete s m
  end.

(** What a scheduler promises: it is one FIFO per stream, it offers a chunk
    whenever it has one, keeps to its choice, and gives it up when popped. *)
Class StreamSchedulerLaws (S : Type) `{StreamScheduler S} := {
  queues : S -> streams;
  sched_ok : S -> Prop;
  (** what [Push] needs *)
  fits : (loc -> payloadData) -> S -> loc -> Prop;
  ok_queues s : sched_ok s -> map_Forall (fun _ l => l <> []) (queues s);
  ok_reset s : sched_ok (Reset s) /\ queues (Reset s) = ∅;
  ok_push deref s c : sched_ok s -> fits deref s c ->
    sched_ok (Push deref s c)
    /\ queues (Push deref s c) = enq (queues s) (streamIdentifier (deref c)) c;
  ok_peek order s : sched_ok s -> (forall i, i ∈ order <-> i ∈ dom (queues s)) ->
    exists r s', Peek order s = Some (r, s') /\ sched_ok s' /\ queues s' = queues s
      /\ match r with
         | None => queues s = ∅
         | Some c => exists i l, queues s !! i = Some (c :: l)
             /\ (forall order', Peek order' s' = Some (Some c, s'))
             /\ exists s'', Pop s' c = (None, s'') /\ sched_ok s'' /\ queues s'' = deq (queues s) i
         end
}.

(** ** Round robin *)

Module RoundRobin.

Record roundRobinPendingQueuePolicy := mkRR {
  streamQueues : streams;
  streamOrder : list Z;
  streamSelected : bool;
  selectedStream : Z
}.

Definition newRoundRobinPendingQueuePolicy : roundRobinPendingQueuePolicy := mkRR ∅ [] false 0.

Definition reset (q : roundRobinPendingQueuePolicy) : roundRobinPendingQueuePolicy := mkRR ∅ [] false 0.

Definition push (deref : loc -> payloadData) (q : roundRobinPendingQueuePolicy) (c : loc)
  : roundRobinPendingQueuePolicy :=
  let sid := streamIdentifier (deref c) in
  let streamQueue := default newPendingBaseQueue (streamQueues q !! sid) in
  let wasEmpty := Base.size streamQueue =? 0 in
  mkRR (<[sid := Base.push streamQueue c]> (streamQueues q))
    (if wasEmpty then streamOrder q ++ [sid] else streamOrder q) (streamSelected q) (selectedStream q).

(** The first chunk of a stream; a stream without a queue is a nil dereference. *)
Definition front (q : roundRobinPendingQueuePolicy) (sid : Z) : option (option loc) :=
  l ← streamQueues q !! sid; Some (Base.get l 0).

Definition peek (q : roundRobinPendingQueuePolicy) : option (option loc * roundRobinPendingQueuePolicy) :=
  if streamSelected q then c ← front q (selectedStream q); Some (c, q)
  else match streamOrder q with
       | [] => Some (None, q)
       | sid :: _ =>
           let q' := mkRR (streamQueues q) (streamOrder q) true sid in
           c ← front q' sid; Some (c, q')
       end.

Definition pop (q : roundRobinPendingQueuePolicy) (c : loc) : option qerr * roundRobinPendingQueuePolicy :=
  if negb (streamSelected q) then (Some ErrUnexpectedQState, q)
  else match streamQueues q !! selectedStream q with
       | None => (Some ErrUnexpectedQState, q)
       | Some streamQueue =>
           let (popped, l) := Base.pop streamQueue in
           if decide (popped = Some c) then
             let order := tail (streamOrder q) in
             (None, if 0 <? Base.size l
                    then mkRR (<[selectedStream q := l]> (streamQueues q)) (order ++ [selectedStream q]) false 0
                    else mkRR (delete (selectedStream q) (streamQueues q)) order false 0)
           else (Some ErrUnexpectedChunkPoppedStream,
                 mkRR (<[selectedStream q := l]> (streamQueues q)) (streamOrder q) (streamSelected q)
                   (selectedStream q))
       end.

#[global] Instance scheduler : StreamScheduler roundRobinPendingQueuePolicy := {
  Reset := reset; Push := push; Peek := fun _ => peek; Pop := pop
}.

(** The order lists the streams that have chunks, the selected one first. *)
Record ok (q : roundRobinPendingQueuePolicy) : Prop := {
  ok_full : map_Forall (fun _ l => l <> []) (streamQueues q);
  ok_nodup : NoDup (streamOrder q);
  ok_order : forall i, i ∈ streamOrder q <-> i ∈ dom (streamQueues q);
  ok_selected : streamSelected q = true -> head (streamOrder q) = Some (selectedStream q)
}.

Lemma rr_push_ok deref q c :
  ok q -> ok (push deref q c) /\ streamQueues (push deref q c) = enq (streamQueues q) (streamIdentifier (deref c)) c.
Proof.
  intros [Hf Hn Ho Hs]. split; [|done]. unfold push, Base.size, newPendingBaseQueue.
  set (sid := streamIdentifier (deref c)).
  assert (Hnew : forall i, i ∈ dom (<[sid := Base.push (default [] (streamQueues q !! sid)) c]> (streamQueues q))
                        <-> i = sid \/ i ∈ streamOrder q) by (intros i; rewrite Ho; set_solver).
  assert (Hfull : map_Forall (fun _ l => l <> [])
             (<[sid := Base.push (default [] (streamQueues q !! sid)) c]> (streamQueues q))).
  { apply map_Forall_insert_2; [|done]. by destruct (default _ _). }
  destruct (Z.eqb_spec (Z.of_nat (length (default [] (streamQueues q !! sid)))) 0) as [He|He];
    constructor; simpl; auto.
  - apply NoDup_app. split; [done|]. split; [|apply NoDup_singleton].
    intros i Hi ->%list_elem_of_singleton. apply Ho, elem_of_dom in Hi as [l Hl]. rewrite Hl in He.
    specialize (Hf _ _ Hl). by destruct l.
  - intros i. rewrite Hnew, elem_of_app, list_elem_of_singleton. tauto.
  - intros Hsel. specialize (Hs Hsel). by destruct (streamOrder q).
  - intros i. rewrite Hnew. split; [by right|]. intros [->|]; [|done].
    apply Ho, elem_of_dom. destruct (streamQueues q !! sid); [done|]. by simpl in He.
Qed.

(** A choice that stands: the head of the order is selected. *)
Lemma rr_selected_pop q sid order c l :
  ok q -> streamOrder q = sid :: order -> streamSelected q = true -> selectedStream q = sid ->
  streamQueues q !! sid = Some (c :: l) ->
  exists q', pop q c = (None, q') /\ ok q' /\ streamQueues q' = deq (streamQueues q) sid
    /\ streamOrder q' = order ++ (if decide (l = []) then [] else [sid]).
Proof.
  intros [Hf Hn Ho Hs] Eo Hsel Esid Hq. unfold pop. rewrite Hsel, Esid, Hq. cbn [negb Base.pop].
  rewrite decide_True by done. rewrite Eo in *. cbn [tail].
  assert (Hd : deq (streamQueues q) sid = if decide (l = []) then delete sid (streamQueues q)
                                          else <[sid := l]> (streamQueues q)).
  { unfold deq. rewrite Hq. destruct l; [by rewrite decide_True|by rewrite decide_False]. }
  apply NoDup_cons in Hn as [Hni Hn].
  assert (Hmem : forall i, i ∈ order <-> i ∈ dom (streamQueues q) /\ i <> sid).
  { intros i. rewrite <- Ho, elem_of_cons. split; [|tauto]. intros Hi. split; [by right|]. by intros ->. }
  destruct (decide (l = [])) as [->|Hl].
  - eexists. split; [done|]. simpl. rewrite app_nil_r. split; [|done]. constructor; simpl; [|done| |done].
    + by apply map_Forall_delete.
    + intros i. rewrite Hmem, dom_delete. set_solver.
  - destruct (Z.ltb_spec 0 (Base.size l)) as [_|Hc];
      [|unfold Base.size in Hc; destruct l; simpl in Hc; [done|lia]].
    eexists. split; [done|]. split; [|done]. constructor; simpl; [| | |done].
    + by apply map_Forall_insert_2.
    + apply NoDup_app. split; [done|]. split; [|apply NoDup_singleton]. by intros i Hi ->%list_elem_of_singleton.
    + intros i. rewrite elem_of_app, list_elem_of_singleton, Hmem, dom_insert.
      assert (sid ∈ dom (streamQueues q)) by (by apply elem_of_dom). destruct (decide (i = sid)); set_solver.
Qed.

(** What [Peek] does: nothing, or it settles on the head of the order. *)
Lemma rr_peek_spec q :
  ok q ->
  (streamOrder q = [] /\ peek q = Some (None, q))
  \/ exists sid order c l, streamOrder q = sid :: order /\ streamQueues q !! sid = Some (c :: l)
       /\ peek q = Some (Some c, mkRR (streamQueues q) (streamOrder q) true sid).
Proof.
  intros [Hf Hn Ho Hs]. unfold peek, front. destruct (streamOrder q) as [|sid order] eqn:Eo.
  - left. split; [done|]. destruct (streamSelected q) eqn:Es; [|done]. discriminate (Hs eq_refl).
  - right. assert (Hin : sid ∈ dom (streamQueues q)) by (apply Ho; left).
    apply elem_of_dom in Hin as [l Hl]. pose proof (Hf _ _ Hl) as Hne.
    destruct l as [|c l]; [done|]. exists sid, order, c, l. split; [done|]. split; [done|].
    destruct (streamSelected q) eqn:Es; simpl.
    + specialize (Hs eq_refl) as [= Hss]. rewrite <- Hss, Hl. simpl. rewrite Base.get_0. simpl.
      destruct q; simpl in *; by subst.
    + rewrite Hl. simpl. by rewrite Base.get_0.
Qed.

#[global] Instance laws : StreamSchedulerLaws roundRobinPendingQueuePolicy.
Proof.
  refine {| queues := streamQueues; sched_ok := ok; fits := fun _ _ _ => True |}.
  - intros s H. apply H.
  - intros s. split; [|done]. constructor; simpl; [done|constructor|set_solver|done].
  - intros deref s c H _. by apply rr_push_ok.
  - intros order s Hok _. destruct (rr_peek_spec s Hok) as [[Eo E]|(sid & o & c & l & Eo & Hl & E)]; simpl.
    + rewrite E. exists None, s. repeat (split; [done|]). apply dom_empty_inv_L.
      apply elem_of_equiv_empty_L. intros i Hi%(ok_order s Hok). rewrite Eo in Hi. by apply not_elem_of_nil in Hi.
    + rewrite E. exists (Some c). eexists. split; [done|].
      assert (Hok' : ok (mkRR (streamQueues s) (streamOrder s) true sid)).
      { destruct Hok as [Hf Hn Ho Hs]. constructor; simpl; [done..|]. by rewrite Eo. }
      split; [done|]. split; [done|]. exists sid, l. split; [done|]. split.
      * intros _. unfold peek, front. simpl. rewrite Hl. simpl. by rewrite Base.get_0.
      * destruct (rr_selected_pop _ sid o c l Hok' Eo eq_refl eq_refl Hl) as (q' & H1 & H2 & H3 & _).
        by exists q'.
Defined.

End RoundRobin.

(** ** Weighted fair queueing *)

Module WFQ.

Record weightedFairQueueingPendingQueuePolicy := mkWFQ {
  streamQueues : streams;
  streamFinish : gmap Z F64.float64;
  chunkFinish : gmap loc F64.float64;
  weights : gmap Z Z;
  virtualTime : F64.float64;
  streamSelected : bool;
  selectedStream : Z
}.

Definition reset (q : weightedFairQueueingPendingQueuePolicy) : weightedFairQueueingPendingQueuePolicy :=
  mkWFQ ∅ ∅ ∅ (weights q) F64.zero false 0.

Definition newWeightedFairQueueingPendingQueuePolicy (ws : gmap Z Z) : weightedFairQueueingPendingQueuePolicy :=
  reset (mkWFQ ∅ ∅ ∅ (filter (fun kv => kv.2 <> 0) ws) F64.zero false 0).

(** The finish time [Push] gives to a chunk. *)
Definition finish (deref : loc -> payloadData) (q : weightedFairQueueingPendingQueuePolicy) (c : loc)
  : F64.float64 :=
  let sid := streamIdentifier (deref c) in
  let weight := F64.of_int (default 0 (weights q !! sid)) in
  let weight := if F64.eq weight F64.zero then F64.of_int 1 else weight in
  let start := F64.max (virtualTime q) (default F64.zero (streamFinish q !! sid)) in
  F64.add start (F64.div (F64.of_int (zlen (userData (deref c)))) weight).

Definition push (deref : loc -> payloadData) (q : weightedFairQueueingPendingQueuePolicy) (c : loc)
  : weightedFairQueueingPendingQueuePolicy :=
  let sid := streamIdentifier (deref c) in
  let streamQueue := default newPendingBaseQueue (streamQueues q !! sid) in
  mkWFQ (<[sid := Base.push streamQueue c]> (streamQueues q))
    (<[sid := finish deref q c]> (streamFinish q)) (<[c := finish deref q c]> (chunkFinish q))
    (weights q) (virtualTime q) (streamSelected q) (selectedStream q).

Definition finishOf (q : weightedFairQueueingPendingQueuePolicy) (c : loc) : F64.float64 :=
  default F64.zero (chunkFinish q !! c).

(** One turn of the loop of [Peek]: the best chunk so far, its stream and its
    finish time. *)
Definition consider (q : weightedFairQueueingPendingQueuePolicy) (best : option loc * Z * F64.float64) (sid : Z)
  : option loc * Z * F64.float64 :=
  match streamQueues q !! sid with
  | None => best
  | Some streamQueue =>
      match Base.get streamQueue 0 with
      | None => best
      | Some c =>
          let f := finishOf q c in
          if F64.lt f best.2 || (F64.eq f best.2 && (sid <? best.1.2)) then (Some c, sid, f) else best
      end
  end.

Definition peek (order : list Z) (q : weightedFairQueueingPendingQueuePolicy)
  : option (option loc * weightedFairQueueingPendingQueuePolicy) :=
  if streamSelected q then
    l ← streamQueues q !! selectedStream q; Some (Base.get l 0, q)
  else
    match fold_left (consider q) order (None, 0, F64.inf) with
    | (None, _, _) => Some (None, q)
    | (Some c, sid, _) =>
        Some (Some c, mkWFQ (streamQueues q) (streamFinish q) (chunkFinish q) (weights q) (virtualTime q) true sid)
    end.

Definition pop (q : weightedFairQueueingPendingQueuePolicy) (c : loc)
  : option qerr * weightedFairQueueingPendingQueuePolicy :=
  if negb (streamSelected q) then (Some ErrUnexpectedQState, q)
  else match streamQueues q !! selectedStream q with
       | None => (Some ErrUnexpectedQState, q)
       | Some streamQueue =>
           let (popped, l) := Base.pop streamQueue in
           let qs := <[selectedStream q := l]> (streamQueues q) in
           if decide (popped = Some c) then
             (None, mkWFQ (if Base.size l =? 0 then delete (selectedStream q) qs else qs)
                      (streamFinish q) (delete c (chunkFinish q)) (weights q)
                      (F64.max (virtualTime q) (finishOf q c)) false 0)
           else (Some ErrUnexpectedChunkPoppedStream,
                 mkWFQ qs (streamFinish q) (chunkFinish q) (weights q) (virtualTime q) (streamSelected q)
                   (selectedStream q))
       end.

#[global] Instance scheduler : StreamScheduler weightedFairQueueingPendingQueuePolicy := {
  Reset := reset; Push := push; Peek := peek; Pop := pop
}.

Record ok (q : weightedFairQueueingPendingQueuePolicy) : Prop := {
  ok_full : map_Forall (fun _ l => l <> []) (streamQueues q);
  ok_finite : map_Forall (fun _ f => F64.finite f = true) (chunkFinish q);
  ok_selected : streamSelected q = true -> is_Some (streamQueues q !! selectedStream q)
}.

(** The first chunk of a stream. *)
Definition front (q : weightedFairQueueingPendingQueuePolicy) (sid : Z) (c : loc) : Prop :=
  exists l, streamQueues q !! sid = Some (c :: l).

(** Finishing earlier, or at the same time on a lower stream. *)
Definition beats (q : weightedFairQueueingPendingQueuePolicy) (sid' : Z) (c' : loc) (sid : Z) (c : loc) : Prop :=
  F64.klt (F64.key (finishOf q c')) (F64.key (finishOf q c))
  \/ (F64.key (finishOf q c') = F64.key (finishOf q c) /\ sid' < sid).

Lemma finishOf_finite q c : ok q -> F64.finite (finishOf q c) = true.
Proof.
  intros [_ Hf _]. unfold finishOf. destruct (chunkFinish q !! c) eqn:E; [|done]. by apply (Hf c).
Qed.

Lemma beats_trans q i a j b k c : beats q i a j b -> ~ beats q k c j b -> ~ beats q k c i a.
Proof. unfold beats, F64.klt. destruct (F64.key _) as [[]], (F64.key _) as [[]], (F64.key _) as [[]].
  simpl. intros H1 H2 H3. apply H2. destruct H1 as [H1|[[= -> -> ->] H1]], H3 as [H3|[[= -> -> ->] H3]]; lia || (right; split; [done|lia]).
Qed.

(** What the loop has established after the streams it has seen. *)
Definition best_of (q : weightedFairQueueingPendingQueuePolicy) (seen : Z -> Prop)
    (best : option loc * Z * F64.float64) : Prop :=
  match best with
  | (None, _, f) => f = F64.inf /\ forall i c, seen i -> ~ front q i c
  | (Some c, sid, f) => front q sid c /\ f = finishOf q c /\ seen sid
      /\ forall i c', seen i -> front q i c' -> ~ beats q i c' sid c
  end.

Lemma consider_best q seen best sid :
  ok q -> best_of q seen best -> best_of q (fun i => seen i \/ i = sid) (consider q best sid).
Proof.
  intros Hok Hb. unfold consider. destruct (streamQueues q !! sid) as [l|] eqn:El.
  2: { assert (Hn : forall c, ~ front q sid c) by (intros c [l Hl]; congruence).
       destruct best as [[[c|] s] f]; simpl in *; [|split; [tauto|]].
       - destruct Hb as (H1 & H2 & H3 & H4). repeat (split; [tauto|]). intros i c' [Hi| ->] Hf; [by apply H4|].
         by destruct (Hn c').
       - intros i c [Hi| ->]; [by apply Hb|apply Hn]. }
  rewrite Base.get_0. pose proof (ok_full q Hok _ _ El) as Hne. destruct l as [|c l]; [done|]. simpl.
  assert (Hf : front q sid c) by (by exists l).
  assert (Hu : forall c', front q sid c' -> c' = c) by (intros c' [l' Hl']; congruence).
  destruct best as [[[c0|] s] f].
  - destruct Hb as (H1 & -> & H3 & H4). simpl.
    pose proof (finishOf_finite q c Hok). pose proof (finishOf_finite q c0 Hok).
    destruct (F64.lt _ _ || _) eqn:E.
    + assert (Hbt : beats q sid c s c0).
      { apply orb_prop in E as [E%F64.lt_key|[E1%F64.eq_key E2]%andb_prop]; try done; [by left|].
        right. split; [done|lia]. }
      simpl. repeat (split; [tauto|]). intros i c' [Hi| ->] Hf'.
      * eapply beats_trans; [exact Hbt|]. by apply H4.
      * rewrite (Hu _ Hf'). unfold beats, F64.klt. lia.
    + simpl. repeat (split; [tauto|]). intros i c' [Hi| ->] Hf'; [by apply H4|].
      rewrite (Hu _ Hf'). intros [Hb|[Hb1 Hb2]].
      * by rewrite (proj2 (F64.lt_key _ _ H H0) Hb) in E.
      * rewrite (proj2 (F64.eq_key _ _ H H0) Hb1) in E. apply orb_false_elim in E as [_ E]. simpl in E. lia.
  - destruct Hb as [-> Hb]. simpl. rewrite F64.lt_inf by (by apply finishOf_finite). simpl.
    repeat (split; [tauto|]). intros i c' [Hi| ->] Hf'; [by destruct (Hb i c')|].
    rewrite (Hu _ Hf'). unfold beats, F64.klt. lia.
Qed.

Lemma fold_best q order seen best :
  ok q -> best_of q seen best ->
  best_of q (fun i => seen i \/ i ∈ order) (fold_left (consider q) order best).
Proof.
  intros Hok. revert seen best. induction order as [|i order IH]; intros seen best Hb; simpl.
  - destruct best as [[[c|] s] f]; simpl in *.
    + destruct Hb as (H1 & H2 & H3 & H4). repeat (split; [tauto|]).
      intros i c' [Hi|Hi%not_elem_of_nil]; [by apply H4|done].
    + split; [tauto|]. intros i c [Hi|Hi%not_elem_of_nil]; [by apply Hb|done].
  - pose proof (IH _ _ (consider_best q seen best i Hok Hb)) as H.
    destruct (fold_left _ _ _) as [[[c|] s] f]; simpl in *.
    + destruct H as (H1 & H2 & H3 & H4). repeat (split; [tauto|]).
      split; [set_solver|]. intros j c' Hj. apply H4. set_solver.
    + split; [tauto|]. intros j c Hj. apply H. set_solver.
Qed.

(** [Peek] offers the chunk that beats every other first chunk, whatever the
    order of the range. *)
Lemma wfq_peek_spec order q :
  ok q -> streamSelected q = false -> (forall i, i ∈ order <-> i ∈ dom (streamQueues q)) ->
  (streamQueues q = ∅ /\ peek order q = Some (None, q))
  \/ exists sid c, front q sid c
       /\ peek order q = Some (Some c, mkWFQ (streamQueues q) (streamFinish q) (chunkFinish q) (weights q)
                                        (virtualTime q) true sid)
       /\ forall i c', front q i c' -> ~ beats q i c' sid c.
Proof.
  intros Hok Hsel Ho. unfold peek. rewrite Hsel.
  assert (H : best_of q (fun i => False \/ i ∈ order) (fold_left (consider q) order (None, 0, F64.inf)))
    by (by apply fold_best).
  assert (Hdom : forall i c, front q i c -> False \/ i ∈ order).
  { intros i c [l Hl]. right. apply Ho, elem_of_dom. by exists (c :: l). }
  destruct (fold_left _ _ _) as [[[c|] sid] f]; simpl in H.
  - right. exists sid, c. destruct H as (H1 & _ & _ & H4). split; [done|]. split; [done|].
    intros i c' Hf. apply H4; [by eapply Hdom|done].
  - left. split; [|done]. apply map_empty. intros i. destruct (streamQueues q !! i) as [l|] eqn:El; [|done].
    exfalso. pose proof (ok_full q Hok _ _ El). destruct l as [|c l]; [done|].
    assert (Hf : front q i c) by (by exists l). by apply (proj2 H i c (Hdom _ _ Hf)).
Qed.

Lemma wfq_selected_pop q c l :
  ok q -> streamSelected q = true -> streamQueues q !! selectedStream q = Some (c :: l) ->
  exists q', pop q c = (None, q') /\ ok q' /\ streamQueues q' = deq (streamQueues q) (selectedStream q).
Proof.
  intros [Hf Hfin Hs] Hsel Hq. unfold pop. rewrite Hsel, Hq. cbn [negb Base.pop]. rewrite decide_True by done.
  eexists. split; [done|]. simpl. unfold deq, Base.size. rewrite Hq.
  assert (Hd : map_Forall (fun _ f => F64.finite f = true) (delete c (chunkFinish q))) by (by apply map_Forall_delete).
  destruct l as [|c' l]; simpl.
  - rewrite delete_insert_eq. split; [|done]. constructor; simpl; [by apply map_Forall_delete|done|done].
  - split; [|done]. constructor; simpl; [by apply map_Forall_insert_2|done|done].
Qed.

#[global] Instance laws : StreamSchedulerLaws weightedFairQueueingPendingQueuePolicy.
Proof.
  refine {| queues := streamQueues; sched_ok := ok;
            fits := fun deref q c => F64.finite (finish deref q c) = true |}.
  - intros s H. apply H.
  - intros s. split; [|done]. by constructor.
  - intros deref s c [Hf Hfin Hs] Hfit. split; [|done]. constructor; simpl.
    + apply map_Forall_insert_2; [|done]. by destruct (default _ _).
    + by apply map_Forall_insert_2.
    + intros Hsel. destruct (decide (selectedStream s = streamIdentifier (deref c))) as [->|Hne].
      * by rewrite lookup_insert_eq.
      * rewrite lookup_insert_ne by done. by apply Hs.
  - intros order s Hok Ho. simpl in *.
    assert (Hstand : forall sid c l q, ok q -> streamQueues q = streamQueues s -> streamSelected q = true ->
      selectedStream q = sid -> streamQueues s !! sid = Some (c :: l) ->
      (forall order', peek order' q = Some (Some c, q))
      /\ exists s'', pop q c = (None, s'') /\ ok s'' /\ streamQueues s'' = deq (streamQueues s) sid).
    { intros sid c l q Hq Eq Hsel <- Hl. split.
      - intros order'. unfold peek. rewrite Hsel, Eq, Hl. simpl. by rewrite Base.get_0.
      - rewrite <- Eq in *. by apply (wfq_selected_pop q c l). }
    destruct (streamSelected s) eqn:Hsel.
    + destruct (ok_selected s Hok Hsel) as [l Hl]. pose proof (ok_full s Hok _ _ Hl). destruct l as [|c l]; [done|].
      exists (Some c), s. destruct (Hstand _ c l s Hok eq_refl Hsel eq_refl Hl) as [H1 H2].
      split; [apply H1|]. repeat (split; [done|]). by exists (selectedStream s), l.
    + destruct (wfq_peek_spec order s Hok Hsel Ho) as [[He ->]|(sid & c & [l Hl] & -> & _)].
      * by exists None, s.
      * eexists (Some c), _. split; [done|].
        assert (Hok' : ok (mkWFQ (streamQueues s) (streamFinish s) (chunkFinish s) (weights s) (virtualTime s) true sid)).
        { destruct Hok. constructor; simpl; [done..|]. by exists (c :: l). }
        repeat (split; [done|]). exists sid, l. split; [done|]. by apply (Hstand sid c l).
Defined.

End WFQ.
