(* ===== verification/PendingSpec.v ===== *)
(** * The pending queue over its policies (pending_queue.go, [pendingQueue])

    Conservation, order and progress of the pending queue, for any stream
    scheduler that satisfies [StreamSchedulerLaws]; messages stay in one piece
    without interleaving; round robin serves every stream in turn and weighted
    fair queueing serves the earliest finish time. *)

From S2P Require Import Prelude Float64 Bytes Chunks PendingQueue.
Import Message.

Local Open Scope Z_scope.

Section PendingQueue.
Context {S : Type} `{SL : StreamSchedulerLaws S} (deref : loc -> payloadData).

Inductive pendingQueuePolicy :=
  | MessagePolicy (p : messagePendingQueuePolicy)
  | InterleavingPolicy (scheduler : S).

(** [newStreamScheduler]: nil, or a function whose result may be nil. *)
Record pendingQueue := mkPending {
  nBytes : Z;
  nChunks : Z;
  interleaving : bool;
  newStreamScheduler : option (option S);
  policy : pendingQueuePolicy
}.

Definition newPendingQueue (f : option (option S)) : pendingQueue :=
  mkPending 0 0 false f (MessagePolicy newMessagePendingQueuePolicy).

Definition with_policy (q : pendingQueue) (p : pendingQueuePolicy) : pendingQueue :=
  mkPending (nBytes q) (nChunks q) (interleaving q) (newStreamScheduler q) p.

Definition setInterleaving (q : pendingQueue) (enabled : bool) : option qerr * pendingQueue :=
  if eqb (interleaving q) enabled then (None, q)
  else if negb (nChunks q =? 0) then (Some ErrPendingQueueModeChangeNonEmpty, q)
  else
    let q := mkPending (nBytes q) (nChunks q) enabled (newStreamScheduler q) (policy q) in
    if enabled then
      match newStreamScheduler q with
      | Some (Some s) => (None, with_policy q (InterleavingPolicy (Reset s)))
      | _ => (Some errNilStreamScheduler, q)
      end
    else (None, with_policy q (MessagePolicy newMessagePendingQueuePolicy)).

Definition policy_push (p : pendingQueuePolicy) (c : loc) : pendingQueuePolicy :=
  match p with
  | MessagePolicy m => MessagePolicy (Message.push deref m c)
  | InterleavingPolicy s => InterleavingPolicy (Push deref s c)
  end.

Definition chunkLen (c : loc) : Z := zlen (userData (deref c)).

Definition push (q : pendingQueue) (c : loc) : pendingQueue :=
  mkPending (nBytes q + chunkLen c) (nChunks q + 1) (interleaving q) (newStreamScheduler q)
    (policy_push (policy q) c).

Definition peek (order : list Z) (q : pendingQueue) : option (option loc * pendingQueue) :=
  match policy q with
  | MessagePolicy m => Some (Message.peek m, q)
  | InterleavingPolicy s =>
      '(c, s') ← Peek order s; Some (c, with_policy q (InterleavingPolicy s'))
  end.

Definition pop (q : pendingQueue) (c : loc) : option qerr * pendingQueue :=
  let (err, p) :=
    match policy q with
    | MessagePolicy m => let (e, m') := Message.pop deref m c in (e, MessagePolicy m')
    | InterleavingPolicy s => let (e, s') := Pop s c in (e, InterleavingPolicy s')
    end in
  match err with
  | Some e => (Some e, with_policy q p)
  | None =>
      let n := nBytes q - chunkLen c in
      (None, mkPending (if n <? 0 then 0 else n) (nChunks q - 1) (interleaving q) (newStreamScheduler q) p)
  end.

Definition getNumBytes (q : pendingQueue) : Z := nBytes q.

Definition size (q : pendingQueue) : Z := nChunks q.

(** ** Use of the queue

    The association pushes the fragments of a message under one lock, and pops
    only the chunk it has just peeked. *)

(** The fragments of a message, in order. *)
Record whole (u : bool) (m : list loc) : Prop := {
  whole_begins : map (fun c => beginningFragment (deref c)) m = true :: replicate (pred (length m)) false;
  whole_ends : map (fun c => endingFragment (deref c)) m = replicate (pred (length m)) false ++ [true];
  whole_class : Forall (fun c => unordered (deref c) = u) m
}.

(** The streams of a scheduler, which a range visits. *)
Definition visits (order : list Z) (q : pendingQueue) : Prop :=
  match policy q with
  | MessagePolicy _ => True
  | InterleavingPolicy s => forall i, i ∈ order <-> i ∈ dom (queues s)
  end.

Definition fits_policy (p : pendingQueuePolicy) (c : loc) : Prop :=
  match p with MessagePolicy _ => True | InterleavingPolicy s => fits deref s c end.

Fixpoint fits_all (p : pendingQueuePolicy) (m : list loc) : Prop :=
  match m with [] => True | c :: m' => fits_policy p c /\ fits_all (policy_push p c) m' end.

(** A queue with the messages pushed and the chunks popped so far. *)
Definition history := (pendingQueue * list (list loc) * list loc)%type.

Inductive pstep : history -> history -> Prop :=
  | p_push q ms o u m :
      whole u m -> fits_all (policy q) m ->
      pstep (q, ms, o) (fold_left push m q, ms ++ [m], o)
  | p_peek q ms o order r q' :
      visits order q -> peek order q = Some (r, q') -> pstep (q, ms, o) (q', ms, o)
  | p_pop q ms o order c q1 q2 :
      visits order q -> peek order q = Some (Some c, q1) -> pop q1 c = (None, q2) ->
      pstep (q, ms, o) (q2, ms, o ++ [c]).

(** With changes of mode, which only succeed on an empty queue. *)
Inductive qstep : history -> history -> Prop :=
  | q_use h h' : pstep h h' -> qstep h h'
  | q_mode q ms o b e q' : setInterleaving q b = (e, q') -> qstep (q, ms, o) (q', ms, o).

(** What waits. *)
Definition stream_chunks (m : streams) : list loc := concat (map snd (map_to_list m)).

Definition contents (q : pendingQueue) : list loc :=
  match policy q with
  | MessagePolicy m => unorderedQueue m ++ orderedQueue m
  | InterleavingPolicy s => stream_chunks (queues s)
  end.

(** The chunks of one kind on one stream. *)
Definition on (s : Z) (u : bool) (c : loc) : Prop :=
  streamIdentifier (deref c) = s /\ unordered (deref c) = u.

#[local] Instance on_dec s u c : Decision (on s u c).
Proof. unfold on. apply _. Defined.

Definition bytes_of (l : list loc) : Z := foldr (fun c n => chunkLen c + n) 0 l.

(** ** The message policy keeps messages together *)

Lemma whole_at u part c rest :
  whole u (part ++ c :: rest) ->
  beginningFragment (deref c) = bool_decide (part = []) /\ endingFragment (deref c) = bool_decide (rest = [])
  /\ unordered (deref c) = u.
Proof.
  intros [Hb He Hc]. rewrite length_app in *. simpl in *. rewrite Nat.add_succ_r in *. simpl in *.
  apply (f_equal (fun l => l !! length part)) in Hb, He.
  rewrite map_app, lookup_app_r, length_map, Nat.sub_diag in Hb, He by (rewrite length_map; lia). simpl in Hb, He.
  split; [|split].
  - destruct part as [|x part]; simpl in Hb.
    + injection Hb as ->. by rewrite bool_decide_eq_true_2.
    + change (false :: replicate (length part + length rest) false)
        with (replicate (Datatypes.S (length part + length rest)) false) in Hb.
      rewrite lookup_replicate_2 in Hb by lia. injection Hb as ->. by rewrite bool_decide_eq_false_2.
  - destruct rest as [|y rest]; simpl in He.
    + rewrite lookup_app_r, length_replicate in He by (rewrite length_replicate; lia).
      replace (_ - _)%nat with 0%nat in He by lia. injection He as ->. by rewrite bool_decide_eq_true_2.
    + rewrite lookup_app_l, lookup_replicate_2 in He by (rewrite ?length_replicate; lia). injection He as ->.
      by rewrite bool_decide_eq_false_2.
  - apply Forall_app in Hc as [_ Hc]. by apply Forall_cons in Hc as [? _].
Qed.

Definition queue_of (p : messagePendingQueuePolicy) (u : bool) : list loc :=
  if u then unorderedQueue p else orderedQueue p.

(** The message being sent, [part] of which has left; the messages that wait. *)
Definition current (part rest : list loc) : list (list loc) := if rest is [] then [] else [part ++ rest].

Record msg_inv (p : messagePendingQueuePolicy) (part rest : list loc) (W : bool -> list (list loc)) : Prop := {
  mi_whole u : Forall (whole u) (W u);
  mi_rest : selected p = negb (bool_decide (rest = []));
  mi_part : part = [] <-> rest = [];
  mi_cur : rest <> [] -> whole (unorderedIsSelected p) (part ++ rest);
  mi_queue u : queue_of p u = (if eqb u (unorderedIsSelected p) then rest else []) ++ concat (W u)
}.

Definition waiting (W : bool -> list (list loc)) : list (list loc) := W true ++ W false.

Lemma whole_cons u m : whole u m -> exists c m', m = c :: m'.
Proof. intros [Hb _ _]. destruct m as [|c m]; [done|]. by exists c, m. Qed.

Lemma concat_whole_nil u (l : list (list loc)) : Forall (whole u) l -> concat l = [] -> l = [].
Proof.
  destruct l as [|m l]; [done|]. intros [(c & m' & ->)%whole_cons _]%Forall_cons. done.
Qed.

(** Taking the head of the queue of [c]'s kind. *)
Lemma pop_from_head p c l :
  queue_of p (unordered (deref c)) = c :: l ->
  exists p', pop_from p (unordered (deref c)) = (Some c, p') /\ queue_of p' (unordered (deref c)) = l
    /\ queue_of p' (negb (unordered (deref c))) = queue_of p (negb (unordered (deref c)))
    /\ selected p' = selected p /\ unorderedIsSelected p' = unorderedIsSelected p.
Proof.
  unfold pop_from, queue_of. destruct (unordered (deref c)); intros ->; simpl; eexists; repeat (split; [done|]); done.
Qed.

(** A chunk of the current message has left: the message goes on or is done. *)
Lemma after_pop p' u part c rest W :
  whole u (part ++ c :: rest) -> (forall v, Forall (whole v) (W v)) ->
  (forall v, queue_of p' v = (if eqb v u then rest else []) ++ concat (W v)) ->
  selected p' = negb (endingFragment (deref c)) ->
  (endingFragment (deref c) = false -> unorderedIsSelected p' = u) ->
  exists part' rest' fin, msg_inv p' part' rest' W /\ part ++ [c] = concat fin ++ part'
    /\ fin ++ current part' rest' = [part ++ c :: rest].
Proof.
  intros Hm Hw Hq Hs Hu. destruct (whole_at _ _ _ _ Hm) as (_ & He & _). rewrite He in *.
  destruct rest as [|r rest].
  - exists [], [], [part ++ [c]]. split; [|by rewrite app_nil_r; simpl; rewrite app_nil_r]. constructor; try done.
    intros v. rewrite Hq. by destruct (eqb _ _), (eqb _ _).
  - rewrite bool_decide_eq_false_2 in * by done. specialize (Hu eq_refl) as <-.
    exists (part ++ [c]), (r :: rest), []. unfold current. rewrite <- app_assoc. split; [|done].
    constructor; try done; [|by rewrite <- app_assoc]. split; [by destruct part|done].
Qed.

(** What serving the policy does, for whichever message is current. *)
Definition served (p : messagePendingQueuePolicy) (part rest : list loc) W (c : loc) : Prop :=
  Message.peek p = Some c /\ exists p', Message.pop deref p c = (None, p')
    /\ queue_of p (unordered (deref c)) = c :: queue_of p' (unordered (deref c))
    /\ queue_of p' (negb (unordered (deref c))) = queue_of p (negb (unordered (deref c)))
    /\ exists part' rest' W' fin, msg_inv p' part' rest' W' /\ part ++ [c] = concat fin ++ part'
         /\ fin ++ current part' rest' ++ waiting W' ≡ₚ current part rest ++ waiting W.

Lemma serve_selected p part c rest W : msg_inv p part (c :: rest) W -> served p part (c :: rest) W c.
Proof.
  intros [Hw Hr Hp Hc Hq]. rewrite bool_decide_eq_false_2 in Hr by done. simpl in Hr.
  specialize (Hc ltac:(done)). destruct (whole_at _ _ _ _ Hc) as (_ & _ & Hun).
  assert (Hqc : queue_of p (unordered (deref c)) = c :: rest ++ concat (W (unordered (deref c)))).
  { by rewrite Hq, Hun, eqb_reflx. }
  destruct (pop_from_head p c _ Hqc) as (p1 & Hpop & Hp1 & Hp2 & Hs1 & Hs2).
  split.
  { unfold Message.peek. rewrite Hr, !Base.get_0. rewrite Hun in Hqc. unfold queue_of in Hqc.
    destruct (unorderedIsSelected p); by rewrite Hqc. }
  unfold Message.pop, popSelected. rewrite Hr, <- Hun, Hpop, decide_True by done.
  set (p' := if endingFragment (deref c) then _ else p1). exists p'.
  assert (Hsame : forall v, queue_of p' v = queue_of p1 v) by (intros v; unfold p'; by destruct (endingFragment _)).
  rewrite !Hsame, Hp1, Hp2, Hqc. repeat (split; [done|]).
  destruct (after_pop p' (unorderedIsSelected p) part c rest W Hc Hw) as (part' & rest' & fin & H1 & H2 & H3).
  - intros v. rewrite Hsame. destruct (eqb v (unorderedIsSelected p)) eqn:Ev.
    + apply eqb_prop in Ev as ->. by rewrite <- Hun.
    + rewrite <- (Hq v) || idtac. replace v with (negb (unordered (deref c))) by (rewrite Hun; by destruct v, (unorderedIsSelected p)).
      rewrite Hp2, Hq, Hun. by destruct (unorderedIsSelected p).
  - unfold p'. destruct (endingFragment _); [done|]. by rewrite Hs1.
  - intros He. unfold p'. by rewrite He.
  - exists part', rest', W, fin. split; [done|]. split; [done|]. by rewrite app_assoc, H3.
Qed.

Lemma serve_next p W u c m l :
  msg_inv p [] [] W -> W u = (c :: m) :: l -> Message.peek p = Some c -> served p [] [] W c.
Proof.
  intros [Hw Hr Hp Hc Hq] Hu Hpk. split; [done|].
  assert (Hq' : forall v, queue_of p v = concat (W v)) by (intros v; rewrite Hq; by destruct (eqb _ _)).
  pose proof (Hw u) as Hwu. rewrite Hu in Hwu. apply Forall_cons in Hwu as [Hm Hl].
  destruct (whole_at u [] c m Hm) as (Hb & _ & Hun).
  pose proof (Hq' u) as Hqc. rewrite Hu in Hqc. simpl in Hqc. rewrite <- Hun in Hqc.
  destruct (pop_from_head p c _ Hqc) as (p1 & Hpop & Hp1 & Hp2 & Hs1 & Hs2).
  unfold Message.pop, popNewSelection. rewrite Hr, Hb, Hpop. rewrite !bool_decide_eq_true_2, decide_True by done. cbn [negb].
  set (p' := if endingFragment (deref c) then p1 else _). exists p'.
  assert (Hsame : forall v, queue_of p' v = queue_of p1 v) by (intros v; unfold p'; by destruct (endingFragment _), v).
  rewrite !Hsame, Hp1, Hp2, Hqc. repeat (split; [done|]).
  set (W' := fun v => if eqb v u then l else W v).
  destruct (after_pop p' u [] c m W' Hm) as (part' & rest' & fin & H1 & H2 & H3).
  - intros v. unfold W'. destruct (eqb v u) eqn:Ev; [by apply eqb_prop in Ev as ->|apply Hw].
  - intros v. rewrite Hsame. unfold W'. destruct (eqb v u) eqn:Ev.
    + apply eqb_prop in Ev as ->. by rewrite <- Hun.
    + replace v with (negb (unordered (deref c))) in * by (rewrite Hun; by destruct v, u). by rewrite Hp2, Hq'.
  - unfold p'. destruct (endingFragment _); [|done]. by rewrite Hs1, Hr.
  - intros He. unfold p'. by rewrite He.
  - exists part', rest', W', fin. split; [done|]. split; [done|]. rewrite app_assoc, H3. unfold waiting, W'.
    destruct u; simpl; rewrite Hu; simpl; [done|]. by rewrite Permutation_middle.
Qed.

Lemma message_serve p part rest W :
  msg_inv p part rest W ->
  (Message.peek p = None /\ forall u, queue_of p u = []) \/ exists c, served p part rest W c.
Proof.
  intros Hi. destruct rest as [|r rest]; [|right; exists r; by apply serve_selected].
  pose proof Hi as [Hw Hr Hp Hc Hq]. destruct Hp as [_ Hp]. specialize (Hp eq_refl) as ->.
  assert (Hq' : forall v, queue_of p v = concat (W v)) by (intros v; rewrite Hq; by destruct (eqb _ _)).
  assert (Hpk : Message.peek p = match concat (W true) with c :: _ => Some c | [] => head (concat (W false)) end).
  { unfold Message.peek. rewrite Hr, bool_decide_eq_true_2, !Base.get_0 by done. simpl.
    rewrite <- !Hq'. simpl. by destruct (unorderedQueue p). }
  assert (Hone : forall u m l, W u = m :: l -> exists c m', m = c :: m' /\ concat (W u) = c :: m' ++ concat l).
  { intros u m l Hu. pose proof (Hw u) as Hwu. rewrite Hu in Hwu.
    apply Forall_cons in Hwu as [(c & m' & ->)%whole_cons _]. exists c, m'. by rewrite Hu. }
  destruct (W true) as [|m l] eqn:Et; [destruct (W false) as [|m l] eqn:Ef|].
  - left. simpl in Hpk. split; [done|]. intros []; by rewrite Hq', ?Et, ?Ef.
  - right. destruct (Hone false m l Ef) as (c & m' & -> & Hcc). exists c. apply (serve_next p W false c m' l Hi Ef).
    by rewrite Hpk.
  - right. destruct (Hone true m l Et) as (c & m' & -> & Hcc). exists c. apply (serve_next p W true c m' l Hi Et).
    by rewrite Hpk.
Qed.

Lemma tauto_if {A} (b : bool) (x : A) : (if b then x else x) = x.
Proof. by destruct b. Qed.

Lemma fold_message_push p u m :
  Forall (fun c => unordered (deref c) = u) m ->
  let p' := fold_left (Message.push deref) m p in
  (forall v, queue_of p' v = queue_of p v ++ (if eqb v u then m else []))
  /\ selected p' = selected p /\ unorderedIsSelected p' = unorderedIsSelected p.
Proof.
  intros Hm. revert p. induction Hm as [|c m Hc Hm IH]; intros p; simpl.
  - split; [|done]. intros v. by rewrite (tauto_if (eqb v u)), app_nil_r.
  - destruct (IH (Message.push deref p c)) as (H1 & H2 & H3). rewrite H2, H3. unfold Message.push in *. rewrite Hc in *.
    split; [|by destruct u]. intros v. rewrite H1. destruct u, v; simpl; unfold Base.push; by rewrite ?app_nil_r, <- ?app_assoc.
Qed.

Lemma message_push p part rest W u m :
  msg_inv p part rest W -> whole u m ->
  msg_inv (fold_left (Message.push deref) m p) part rest (fun v => W v ++ (if eqb v u then [m] else [])).
Proof.
  intros [Hw Hr Hp Hc Hq] Hm. destruct (fold_message_push p u m (whole_class _ _ Hm)) as (H1 & H2 & H3).
  constructor; [| | |by rewrite H3|].
  - intros v. apply Forall_app. split; [done|]. destruct (eqb v u) eqn:E; [|done]. apply eqb_prop in E as ->. by constructor.
  - by rewrite H2.
  - done.
  - intros v. rewrite H1, H3, Hq, concat_app, <- app_assoc. do 2 f_equal. destruct (eqb v u); [|done]. simpl. by rewrite app_nil_r.
Qed.

(** ** Streams as one collection *)

Lemma stream_chunks_insert m i l : stream_chunks (<[i := l]> m) ≡ₚ l ++ stream_chunks (delete i m).
Proof.
  unfold stream_chunks. rewrite <- insert_delete_eq.
  rewrite (map_to_list_insert (delete i m)) by apply lookup_delete_eq. done.
Qed.

Lemma stream_chunks_lookup m i l : m !! i = Some l -> stream_chunks m ≡ₚ l ++ stream_chunks (delete i m).
Proof. intros Hm. rewrite <- stream_chunks_insert. by rewrite insert_id. Qed.

Lemma stream_chunks_enq m i c : stream_chunks (enq m i c) ≡ₚ stream_chunks m ++ [c].
Proof.
  unfold enq. rewrite stream_chunks_insert. destruct (m !! i) as [l|] eqn:E; simpl.
  - rewrite (stream_chunks_lookup m i l E). rewrite <- !app_assoc. apply Permutation_app_head, Permutation_app_comm.
  - rewrite delete_id by done. apply Permutation_cons_append.
Qed.

Lemma stream_chunks_deq m i c l : m !! i = Some (c :: l) -> stream_chunks m ≡ₚ c :: stream_chunks (deq m i).
Proof.
  intros E. rewrite (stream_chunks_lookup m i _ E). unfold deq. rewrite E. destruct l as [|c' l]; [done|].
  by rewrite stream_chunks_insert.
Qed.

(** Every chunk waits in the queue of its stream. *)
Definition sorted_streams (m : streams) : Prop :=
  map_Forall (fun i l => Forall (fun c => streamIdentifier (deref c) = i) l) m.

Lemma filter_off s u (l : list loc) i :
  Forall (fun c => streamIdentifier (deref c) = i) l -> i <> s -> filter (on s u) l = [].
Proof.
  intros Hl Hi. induction Hl as [|c l Hc Hl IH]; [done|]. rewrite filter_cons_False; [done|].
  intros [? _]. congruence.
Qed.

Lemma filter_streams m s u :
  sorted_streams m -> filter (on s u) (stream_chunks m) = filter (on s u) (default [] (m !! s)).
Proof.
  intros Hm. unfold stream_chunks. rewrite <- (list_to_map_to_list m) at 2.
  assert (HL : Forall (fun kv => Forall (fun c => streamIdentifier (deref c) = kv.1) kv.2) (map_to_list m)).
  { apply Forall_forall. intros [i l] Hin%elem_of_map_to_list. by apply (Hm i). }
  pose proof (NoDup_fst_map_to_list m) as Hn. revert HL Hn. generalize (map_to_list m).
  induction l as [|[i l0] L IH]; [done|]. intros [H0 HL]%Forall_cons [Hi Hn]%NoDup_cons. simpl in *. rewrite filter_app.
  destruct (decide (i = s)) as [->|Hne].
  - rewrite lookup_insert_eq. simpl. rewrite IH by done. rewrite not_elem_of_list_to_map_1 by done. simpl. by rewrite app_nil_r.
  - rewrite lookup_insert_ne by done. rewrite (filter_off s u l0 i) by done. by apply IH.
Qed.

Lemma sorted_enq m c : sorted_streams m -> sorted_streams (enq m (streamIdentifier (deref c)) c).
Proof.
  intros Hm. unfold enq. apply map_Forall_insert_2; [|done]. apply Forall_app. split; [|by constructor].
  destruct (m !! _) as [l|] eqn:E; [|constructor]. by apply (Hm _ _ E).
Qed.

Lemma sorted_deq m i : sorted_streams m -> sorted_streams (deq m i).
Proof.
  intros Hm. unfold deq. destruct (m !! i) as [[|c [|c' l]]|] eqn:E; try (by apply map_Forall_delete).
  apply map_Forall_insert_2; [|done]. pose proof (Hm _ _ E) as H'. by apply Forall_cons in H' as [_ ?].
Qed.

Lemma filter_enq m c s u :
  sorted_streams m ->
  filter (on s u) (stream_chunks (enq m (streamIdentifier (deref c)) c)) = filter (on s u) (stream_chunks m) ++ filter (on s u) [c].
Proof.
  intros Hm. rewrite !filter_streams by (done || by apply sorted_enq). unfold enq.
  destruct (decide (streamIdentifier (deref c) = s)) as [<-|Hne].
  - rewrite lookup_insert_eq. simpl. by rewrite filter_app.
  - rewrite lookup_insert_ne by done. rewrite (filter_cons_False _ c) by (intros [? _]; congruence). by rewrite app_nil_r.
Qed.

Lemma filter_deq m i c l s u :
  sorted_streams m -> m !! i = Some (c :: l) ->
  filter (on s u) (stream_chunks m) = filter (on s u) [c] ++ filter (on s u) (stream_chunks (deq m i)).
Proof.
  intros Hm E. rewrite !filter_streams by (done || by apply sorted_deq).
  pose proof (Hm _ _ E) as Hc. apply Forall_cons in Hc as [Hc _].
  assert (Hd : deq m i !! i = if l is [] then None else Some l).
  { unfold deq. rewrite E. destruct l; [apply lookup_delete_eq|apply lookup_insert_eq]. }
  destruct (decide (i = s)) as [->|Hne].
  - rewrite E, Hd. simpl. rewrite !filter_cons. destruct l; [by destruct (decide _)|]. by destruct (decide _).
  - assert (Hs : deq m i !! s = m !! s).
    { unfold deq. rewrite E. destruct l; [by apply lookup_delete_ne|by apply lookup_insert_ne]. }
    rewrite Hs. rewrite (filter_cons_False _ c) by (intros [? _]; congruence). done.
Qed.

(** ** The queue *)

Definition policy_ok (p : pendingQueuePolicy) : Prop :=
  match p with
  | MessagePolicy m => exists part rest W, msg_inv m part rest W
  | InterleavingPolicy s => sched_ok s /\ sorted_streams (queues s)
  end.

Lemma queue_class p part rest W v :
  msg_inv p part rest W -> Forall (fun c => unordered (deref c) = v) (queue_of p v).
Proof.
  intros [Hw Hr Hp Hc Hq]. rewrite Hq. apply Forall_app. split.
  - destruct (eqb v _) eqn:E; [|done]. apply eqb_prop in E as ->. destruct rest as [|r rest]; [done|].
    specialize (Hc ltac:(done)). apply whole_class in Hc. by apply Forall_app in Hc as [_ ?].
  - specialize (Hw v). induction Hw as [|m l Hm Hl IH]; [done|]. simpl. apply Forall_app. split; [apply Hm|done].
Qed.

Lemma filter_class v u s (l : list loc) :
  Forall (fun c => unordered (deref c) = v) l -> v <> u -> filter (on s u) l = [].
Proof.
  intros Hl Hv. induction Hl as [|c l Hc Hl IH]; [done|]. rewrite filter_cons_False; [done|]. intros [_ ?]. congruence.
Qed.

(** In the queues of one kind, order is kept per kind. *)
Lemma filter_message m u s :
  (forall v, Forall (fun c => unordered (deref c) = v) (queue_of m v)) ->
  filter (on s u) (unorderedQueue m ++ orderedQueue m) = filter (on s u) (queue_of m u).
Proof.
  intros Hm. pose proof (Hm true) as Ht. pose proof (Hm false) as Hf. simpl in *. rewrite filter_app. destruct u.
  - by rewrite (filter_class false true s (orderedQueue m)), app_nil_r.
  - by rewrite (filter_class true false s (unorderedQueue m)).
Qed.

Lemma fold_policy_push m q :
  fold_left policy_push m (MessagePolicy q) = MessagePolicy (fold_left (Message.push deref) m q).
Proof. revert q. induction m as [|c m IH]; intros q; [done|]. apply IH. Qed.

(** What [policy_push] of a whole message does. *)
Lemma policy_push_message p u m :
  policy_ok p -> whole u m -> fits_all p m ->
  let p' := fold_left policy_push m p in
  let cts p := contents (mkPending 0 0 false None p) in
  policy_ok p' /\ cts p' ≡ₚ cts p ++ m
  /\ forall s v, filter (on s v) (cts p') = filter (on s v) (cts p) ++ filter (on s v) m.
Proof.
  intros Hok Hm Hfit p' cts. destruct p as [q|sch].
  - destruct Hok as (part & rest & W & Hi). pose proof (message_push _ _ _ _ _ _ Hi Hm) as Hi'.
    unfold p'. rewrite fold_policy_push. set (q' := fold_left _ _ q) in *. unfold cts, contents. cbn [policy].
    destruct (fold_message_push q u m (whole_class _ _ Hm)) as (H1 & _). fold q' in H1.
    split; [by eexists _, _, _|]. split.
    + pose proof (H1 true) as Ht. pose proof (H1 false) as Hf. simpl in Ht, Hf. rewrite Ht, Hf. destruct u; simpl; rewrite ?app_nil_r.
      * rewrite <- !app_assoc. apply Permutation_app_head, Permutation_app_comm.
      * by rewrite app_assoc.
    + intros s v. rewrite !filter_message by (try done; intros; eapply queue_class; done). rewrite H1, filter_app. f_equal.
      destruct (eqb v u) eqn:E; [done|]. symmetry. apply (filter_class u); [apply Hm|]. intros ->. by rewrite eqb_reflx in E.
  - unfold p', cts. clear p' cts Hm u. revert sch Hok Hfit. induction m as [|c m IH]; intros sch Hok Hfit; simpl.
    + split; [done|]. rewrite app_nil_r. split; [done|]. intros. by rewrite app_nil_r.
    + destruct Hok as [Hok Hso], Hfit as [Hc Hfit]. destruct (ok_push deref sch c Hok Hc) as [Hok' Hq'].
      destruct (IH (Push deref sch c)) as (H1 & H2 & H3); [|done|].
      { split; [done|]. rewrite Hq'. by apply sorted_enq. }
      split; [done|]. simpl in *. unfold contents in *. simpl in *. rewrite Hq' in *. split.
      * rewrite H2, stream_chunks_enq, <- app_assoc. done.
      * intros s v. rewrite H3, filter_enq, <- app_assoc by done. by rewrite <- filter_app.
Qed.

(** What peeking and popping the peeked chunk does. *)
Lemma policy_serve q order :
  policy_ok (policy q) -> visits order q ->
  exists r q1, peek order q = Some (r, q1) /\ policy_ok (policy q1) /\ contents q1 = contents q
    /\ nBytes q1 = nBytes q /\ nChunks q1 = nChunks q
    /\ match r with
       | None => contents q = []
       | Some c => exists q2, pop q1 c = (None, q2) /\ policy_ok (policy q2)
           /\ contents q ≡ₚ c :: contents q2
           /\ (forall s u, filter (on s u) (contents q) = filter (on s u) [c] ++ filter (on s u) (contents q2))
           /\ nChunks q2 = nChunks q - 1
           /\ nBytes q2 = (if nBytes q - chunkLen c <? 0 then 0 else nBytes q - chunkLen c)
       end.
Proof.
  intros Hok Hv. unfold peek, pop, contents, visits in *. destruct (policy q) as [m|sch] eqn:Ep; simpl in *.
  - destruct Hok as (part & rest & W & Hi). eexists _, _. split; [done|]. rewrite Ep.
    split; [by eexists _, _, _|]. repeat (split; [done|]).
    destruct (message_serve m part rest W Hi) as [[-> He]|(c & -> & m' & Hpop & Hq & Hn & part' & rest' & W' & fin & Hi' & _)].
    { pose proof (He true) as Ht. pose proof (He false) as Hf. simpl in *. by rewrite Ht, Hf. }
    rewrite Hpop. eexists. split; [done|]. simpl.
    assert (Hclass : forall v, Forall (fun c => unordered (deref c) = v) (queue_of m v)) by (intros; by eapply queue_class).
    assert (Hclass' : forall v, Forall (fun c => unordered (deref c) = v) (queue_of m' v)) by (intros; by eapply queue_class).
    split; [by eexists _, _, _|]. split; [|split; [|done]].
    + destruct (unordered (deref c)); simpl in *; rewrite Hq, Hn; [done|]. by rewrite Permutation_middle.
    + intros s u. rewrite !filter_message by done. destruct (decide (unordered (deref c) = u)) as [<-|Hne].
      * rewrite Hq. by rewrite !filter_cons; destruct (decide _).
      * replace u with (negb (unordered (deref c))) by (by destruct (unordered (deref c)), u).
        rewrite Hn, (filter_cons_False _ c); [done|]. intros [_ ?]. by destruct (unordered (deref c)).
  - destruct Hok as [Hok Hso]. destruct (ok_peek order sch Hok Hv) as (r & s' & -> & Hok' & Hq' & Hr). simpl.
    eexists _, _. split; [done|]. simpl. rewrite Hq'. split; [done|]. repeat (split; [done|]).
    destruct r as [c|]; [|by rewrite Hr]. destruct Hr as (i & l & Hl & _ & s'' & -> & Hok'' & Hq'').
    eexists. split; [done|]. simpl. rewrite Hq''. split; [split; [done|by apply sorted_deq]|].
    split; [by eapply stream_chunks_deq|]. split; [|done]. intros s u. by eapply filter_deq.
Qed.

(** A choice, once offered, stands. *)
Lemma peek_again q order r q1 :
  policy_ok (policy q) -> visits order q -> peek order q = Some (r, q1) -> r <> None ->
  forall order', peek order' q1 = Some (r, q1).
Proof.
  intros Hok Hv E Hr order'. unfold peek, visits in *. destruct (policy q) as [m|sch] eqn:Ep; simpl in *.
  - injection E as <- <-. by rewrite Ep.
  - destruct Hok as [Hok _]. destruct (ok_peek order sch Hok Hv) as (r' & s' & E' & _ & _ & Hr'). rewrite E' in E. simpl in E.
    injection E as <- <-. simpl. destruct r' as [c|]; [|done]. destruct Hr' as (i & l & _ & Hst & _). by rewrite Hst.
Qed.

Lemma bytes_of_perm l l' : l ≡ₚ l' -> bytes_of l = bytes_of l'.
Proof. induction 1; simpl; lia. Qed.

Lemma bytes_of_app l l' : bytes_of (l ++ l') = bytes_of l + bytes_of l'.
Proof. induction l; simpl; lia. Qed.

Lemma bytes_of_nonneg l : 0 <= bytes_of l.
Proof. induction l as [|c l IH]; simpl; [lia|]. pose proof (zlen_nonneg (userData (deref c))). unfold chunkLen. lia. Qed.

Record pinv (h : history) : Prop := {
  pi_policy : policy_ok (policy h.1.1);
  pi_all : concat h.1.2 ≡ₚ h.2 ++ contents h.1.1;
  pi_chunks : nChunks h.1.1 = Z.of_nat (length (contents h.1.1));
  pi_bytes : nBytes h.1.1 = bytes_of (contents h.1.1);
  pi_order s u : filter (on s u) (concat h.1.2) = filter (on s u) h.2 ++ filter (on s u) (contents h.1.1)
}.

Lemma fold_push q m :
  let q' := fold_left push m q in
  policy q' = fold_left policy_push m (policy q) /\ nBytes q' = nBytes q + bytes_of m
  /\ nChunks q' = nChunks q + Z.of_nat (length m) /\ interleaving q' = interleaving q.
Proof.
  revert q. induction m as [|c m IH]; intros q; cbn [fold_left].
  - simpl. repeat split; lia.
  - destruct (IH (push q c)) as (H1 & H2 & H3 & H4). rewrite H1, H2, H3, H4. simpl. repeat split; lia.
Qed.

Lemma contents_policy q : contents q = contents (mkPending 0 0 false None (policy q)).
Proof. done. Qed.

Lemma pinv_pstep h h' : pinv h -> pstep h h' -> pinv h'.
Proof.
  intros [Hp Ha Hc Hb Ho] Hs. destruct Hs as [q ms o u m Hm Hf|q ms o order r q' Hv Hpk|q ms o order c q1 q2 Hv Hpk Hpp];
    simpl in *.
  - destruct (fold_push q m) as (E1 & E2 & E3 & _).
    destruct (policy_push_message (policy q) u m Hp Hm Hf) as (H1 & H2 & H3). rewrite <- E1 in H1, H2, H3. rewrite <- !contents_policy in H2. setoid_rewrite <- contents_policy in H3.
    constructor; simpl; [done| | | |].
    + rewrite concat_app. simpl. by rewrite app_nil_r, H2, Ha, app_assoc.
    + rewrite E3, Hc, H2, length_app. lia.
    + rewrite E2, Hb. rewrite (bytes_of_perm _ _ H2), bytes_of_app. lia.
    + intros s v. rewrite concat_app, filter_app, Ho, H3. simpl. by rewrite app_nil_r, app_assoc.
  - destruct (policy_serve q order Hp Hv) as (r' & q1 & E & H1 & H2 & H3 & H4 & _).
    rewrite Hpk in E. injection E as <- <-. constructor; simpl; rewrite ?H2, ?H3, ?H4; done.
  - destruct (policy_serve q order Hp Hv) as (r' & q1' & E & H1 & H2 & H3 & H4 & H5).
    rewrite Hpk in E. injection E as <- <-. destruct H5 as (q2' & E & H5 & H6 & H7 & H8 & H9).
    rewrite Hpp in E. injection E as <-.
    assert (Hbytes : bytes_of (contents q) = chunkLen c + bytes_of (contents q2)) by (by rewrite (bytes_of_perm _ _ H6)).
    constructor; simpl; [done| | | |].
    + by rewrite Ha, H6, <- app_assoc.
    + rewrite H8, Hc, H6. simpl. lia.
    + rewrite H9, Hb, Hbytes. pose proof (bytes_of_nonneg (contents q2)).
      destruct (Z.ltb_spec (chunkLen c + bytes_of (contents q2) - chunkLen c) 0); lia.
    + intros s u. by rewrite Ho, H7, filter_app, app_assoc.
Qed.

Lemma pinv_mode q ms o b e q' : pinv (q, ms, o) -> setInterleaving q b = (e, q') -> pinv (q', ms, o).
Proof.
  intros Hi. unfold setInterleaving. destruct (eqb _ _); [by intros [= _ <-]|].
  destruct (Z.eqb_spec (nChunks q) 0) as [Hz|Hz]; simpl; [|by intros [= _ <-]].
  pose proof Hi as [Hp Ha Hc Hb Ho]. simpl in *.
  assert (He : contents q = []) by (apply length_zero_iff_nil; lia).
  assert (Hnew : forall p, policy_ok p -> contents (mkPending 0 0 false None p) = [] ->
    pinv (mkPending (nBytes q) (nChunks q) b (newStreamScheduler q) p, ms, o)).
  { intros p Hok Hcp. constructor; simpl; [done|..]; rewrite contents_policy; simpl; rewrite Hcp; simpl; rewrite ?Hb, ?He in *; done. }
  destruct b.
  - destruct (newStreamScheduler q) as [[s|]|]; intros [= _ <-]; unfold with_policy; simpl; try (apply Hnew; done).
    apply Hnew.
    + destruct (ok_reset s) as [H1 H2]. split; [done|]. rewrite H2. apply map_Forall_empty.
    + unfold contents. simpl. by rewrite (proj2 (ok_reset s)).
  - intros [= _ <-]. apply Hnew; [|done]. exists [], [], (fun _ => []). by constructor; try (intros []).
Qed.

Lemma pinv_reachable f q ms o :
  rtc qstep (newPendingQueue f, [], []) (q, ms, o) -> pinv (q, ms, o).
Proof.
  apply (rtc_preserve _ pinv).
  - intros h h' Hi Hs. inversion Hs; subst; [by eapply pinv_pstep|by eapply pinv_mode].
  - constructor; try done. exists [], [], (fun _ => []). by constructor; try (intros []).
Qed.

End PendingQueue.

(** *** Chunks that change

    The association gives a chunk its TSN after it has been popped; the queue
    keeps order by the stream and the flags only. *)

Definition same_place (d d' : payloadData) : Prop :=
  streamIdentifier d = streamIdentifier d' /\ unordered d = unordered d' /\ beginningFragment d = beginningFragment d'
  /\ endingFragment d = endingFragment d'.

Lemma whole_ext deref deref' u m : (forall c, same_place (deref c) (deref' c)) -> whole deref u m -> whole deref' u m.
Proof.
  intros H [Hb He Hc]. constructor.
  - rewrite <- Hb. apply map_ext. intros c. symmetry. apply H.
  - rewrite <- He. apply map_ext. intros c. symmetry. apply H.
  - eapply Forall_impl; [exact Hc|]. intros c <-. symmetry. apply H.
Qed.

Lemma policy_ok_ext {S} `{SL : StreamSchedulerLaws S} deref deref' (p : pendingQueuePolicy) :
  (forall c, same_place (deref c) (deref' c)) -> policy_ok deref p -> policy_ok deref' p.
Proof.
  intros Hsame. destruct p as [m|s]; simpl.
  - intros (part & rest & W & [H1 H2 H3 H4 H5]). exists part, rest, W. constructor; try done.
    + intros u. eapply Forall_impl; [apply H1|]. intros x. by apply whole_ext.
    + intros Hr. by eapply whole_ext, H4.
  - intros [Hs Hm]. split; [done|]. eapply map_Forall_impl; [exact Hm|]. intros i l Hl. simpl.
    eapply Forall_impl; [exact Hl|]. intros c <-. symmetry. apply Hsame.
Qed.

(** C29. Nothing is lost, repeated or reordered.  However messages are pushed,
    chunks popped and the mode changed, with any lawful scheduler: the chunks
    pushed are those popped and those that wait; the counters are exact; on each
    stream the ordered (and the unordered) chunks leave in the order they came.
    The queue always offers a chunk while it holds one, and popping the chunk it
    offered succeeds. *)
Theorem pending_queue_conserves {S} `{SL : StreamSchedulerLaws S} deref f (q : pendingQueue) ms o :
  rtc (qstep deref) (newPendingQueue f, [], []) (q, ms, o) ->
  concat ms ≡ₚ o ++ contents q
  /\ size q = Z.of_nat (length (contents q)) /\ getNumBytes q = bytes_of deref (contents q)
  /\ (forall s u, filter (on deref s u) (concat ms) = filter (on deref s u) o ++ filter (on deref s u) (contents q))
  /\ (forall order, visits order q ->
        exists r q1, peek order q = Some (r, q1) /\ (r = None <-> contents q = [])
          /\ forall c, r = Some c -> exists q2, pop deref q1 c = (None, q2)).
Proof.
  intros Hr. destruct (pinv_reachable deref f q ms o Hr) as [Hp Ha Hc Hb Ho]. simpl in *.
  repeat (split; [done|]). intros order Hv.
  destruct (policy_serve deref q order Hp Hv) as (r & q1 & -> & _ & _ & _ & _ & Hcase). exists r, q1. split; [done|].
  destruct r as [c|]; [|done]. destruct Hcase as (q2 & E & _ & Hperm & _). split.
  - split; [done|]. intros He. rewrite He in Hperm. by apply Permutation_nil_cons in Hperm.
  - intros c' [= <-]. by exists q2.
Qed.

(** [o] has left [q] in this order, as whole messages: what was begun before is
    finished first, and at most one message is begun and not finished. *)
Definition serves {S} `{SS : StreamScheduler S} (deref : loc -> payloadData) (q : @pendingQueue S) (o : list loc) (q' : @pendingQueue S) : Prop :=
  forall m part rest W, policy q = MessagePolicy m -> msg_inv deref m part rest W ->
  exists m' part' rest' W' fin, policy q' = MessagePolicy m' /\ msg_inv deref m' part' rest' W'
    /\ part ++ o = concat fin ++ part' /\ fin ++ current part' rest' ++ waiting W' ≡ₚ current part rest ++ waiting W.

Lemma serves_nothing {S} `{SS : StreamScheduler S} deref (q q' : @pendingQueue S) : policy q' = policy q -> serves deref q [] q'.
Proof. intros E m part rest W Ep Hi. exists m, part, rest, W, []. rewrite E, app_nil_r. done. Qed.

Lemma serves_trans {S} `{SS : StreamScheduler S} deref (q q1 q2 : @pendingQueue S) o o' :
  serves deref q o q1 -> serves deref q1 o' q2 -> serves deref q (o ++ o') q2.
Proof.
  intros H1 H2 m part rest W Ep Hi. destruct (H1 m part rest W Ep Hi) as (m1 & part1 & rest1 & W1 & fin1 & E1 & I1 & C1 & P1).
  destruct (H2 m1 part1 rest1 W1 E1 I1) as (m2 & part2 & rest2 & W2 & fin2 & E2 & I2 & C2 & P2).
  exists m2, part2, rest2, W2, (fin1 ++ fin2). split; [done|]. split; [done|]. split.
  - by rewrite app_assoc, C1, <- app_assoc, C2, concat_app, <- app_assoc.
  - by rewrite <- P1, <- P2, <- app_assoc.
Qed.

Lemma msg_inv_ext deref deref' m part rest W :
  (forall c, same_place (deref c) (deref' c)) -> msg_inv deref m part rest W -> msg_inv deref' m part rest W.
Proof.
  intros Hsame [H1 H2 H3 H4 H5]. constructor; try done.
  - intros u. eapply Forall_impl; [apply H1|]. intros x. by apply whole_ext.
  - intros Hr. by eapply whole_ext, H4.
Qed.

Lemma serves_ext {S} `{SS : StreamScheduler S} deref deref' (q q' : @pendingQueue S) o :
  (forall c, same_place (deref c) (deref' c)) -> serves deref q o q' -> serves deref' q o q'.
Proof.
  intros H Hs m part rest W Ep Hi. assert (H' : forall c, same_place (deref' c) (deref c)) by (intros c; unfold same_place in *; naive_solver).
  destruct (Hs m part rest W Ep (msg_inv_ext _ _ _ _ _ _ H' Hi)) as (m' & part' & rest' & W' & fin & E & I & ?).
  exists m', part', rest', W', fin. split; [done|]. split; [by eapply msg_inv_ext|done].
Qed.

Lemma serves_pop {S} `{SL : StreamSchedulerLaws S} deref order (q q1 q2 : @pendingQueue S) c :
  peek order q = Some (Some c, q1) -> pop deref q1 c = (None, q2) -> serves deref q [c] q2.
Proof.
  intros Hpk Hpp m part rest W Ep Hi. unfold peek in Hpk. rewrite Ep in Hpk. injection Hpk as Hpk <-.
  destruct (message_serve deref m part rest W Hi) as [[E _]|(c' & E & m' & Hpop & _ & _ & part' & rest' & W' & fin & Hi' & Hc & Hperm)]; [congruence|].
  rewrite E in Hpk. injection Hpk as <-. unfold pop in Hpp. rewrite Ep, Hpop in Hpp. injection Hpp as <-. by exists m', part', rest', W', fin.
Qed.

(** ** Whole messages *)

Lemma messages_inv {S} `{SL : StreamSchedulerLaws S} deref f (q : pendingQueue) ms o :
  rtc (pstep deref) (newPendingQueue f, [], []) (q, ms, o) ->
  exists m part rest W fin, policy q = MessagePolicy m /\ msg_inv deref m part rest W
    /\ o = concat fin ++ part /\ fin ++ current part rest ++ waiting W ≡ₚ ms.
Proof.
  set (P := fun h : history (S:=S) => exists m part rest W fin, policy h.1.1 = MessagePolicy m /\ msg_inv deref m part rest W
    /\ h.2 = concat fin ++ part /\ fin ++ current part rest ++ waiting W ≡ₚ h.1.2).
  intros Hr. apply (rtc_preserve _ P) in Hr; [done| |].
  2: { exists newMessagePendingQueuePolicy, [], [], (fun _ => []), []. repeat (split; try done). by intros []. }
  clear. intros h h' (m & part & rest & W & fin & Ep & Hi & Eo & Hms) Hs.
  destruct Hs as [q ms o u ch Hm Hf|q ms o order r q' Hv Hpk|q ms o order c q1 q2 Hv Hpk Hpp]; unfold P; simpl in *.
  - destruct (fold_push deref q ch) as (E & _). eexists _, part, rest, _, fin. split.
    { rewrite E, Ep. apply fold_policy_push. }
    split; [by apply message_push|]. split; [done|]. rewrite <- Hms. unfold waiting.
    destruct u; simpl; rewrite ?app_nil_r; solve_Permutation.
  - unfold peek in Hpk. rewrite Ep in Hpk. injection Hpk as <- <-. by exists m, part, rest, W, fin.
  - unfold peek in Hpk. rewrite Ep in Hpk. injection Hpk as Hpk <-.
    destruct (message_serve deref m part rest W Hi) as [[E _]|(c' & E & m' & Hpop & _ & _ & part' & rest' & W' & fin' & Hi' & Hc & Hperm)];
      [congruence|].
    rewrite E in Hpk. injection Hpk as <-. unfold pop in Hpp. rewrite Ep, Hpop in Hpp. injection Hpp as <-.
    exists m', part', rest', W', (fin ++ fin'). split; [done|]. split; [done|]. split.
    + by rewrite Eo, concat_app, <- !app_assoc, Hc.
    + by rewrite <- Hms, <- Hperm, <- !app_assoc.
Qed.

(** Without interleaving the fragments of a message are never separated:
    the chunks popped so far are whole messages one after the other, followed by
    the first fragments of at most one more, and every message pushed is among
    those sent, the one being sent or those that wait. *)
Theorem messages_sent_whole {S} `{SL : StreamSchedulerLaws S} deref f (q : pendingQueue) ms o :
  rtc (pstep deref) (newPendingQueue f, [], []) (q, ms, o) ->
  exists sent part rest wait, o = concat sent ++ part /\ (part = [] <-> rest = [])
    /\ sent ++ current part rest ++ wait ≡ₚ ms /\ contents q ≡ₚ rest ++ concat wait.
Proof.
  intros Hr. destruct (messages_inv deref f q ms o Hr) as (m & part & rest & W & fin & Ep & Hi & Eo & Hms).
  exists fin, part, rest, (waiting W). split; [done|]. split; [apply Hi|]. split; [done|].
  unfold contents. rewrite Ep. pose proof (mi_queue _ _ _ _ _ Hi true) as Ht. pose proof (mi_queue _ _ _ _ _ Hi false) as Hf.
  simpl in Ht, Hf. rewrite Ht, Hf. unfold waiting. rewrite concat_app.
  destruct (unorderedIsSelected m); simpl; solve_Permutation.
Qed.

(** ** Round robin *)

Module Turns.
Import RoundRobin.

Inductive rop := RPush (c : loc) | RServe.

(** The streams served; [None] is a panic or an error of [Pop]. *)
Fixpoint run (deref : loc -> payloadData) (ops : list rop) (q : roundRobinPendingQueuePolicy)
  : option (list Z * roundRobinPendingQueuePolicy) :=
  match ops with
  | [] => Some ([], q)
  | RPush c :: ops' => run deref ops' (RoundRobin.push deref q c)
  | RServe :: ops' =>
      '(r, q1) ← RoundRobin.peek q;
      match r with
      | None => run deref ops' q1
      | Some c =>
          match RoundRobin.pop q1 c with
          | (None, q2) => '(served, q3) ← run deref ops' q2; Some (RoundRobin.selectedStream q1 :: served, q3)
          | _ => None
          end
      end
  end.

Fixpoint serves (ops : list rop) : nat :=
  match ops with [] => 0 | RPush _ :: ops' => serves ops' | RServe :: ops' => Datatypes.S (serves ops') end.

Lemma run_turns deref ops q pre :
  RoundRobin.ok q -> pre `prefix_of` streamOrder q ->
  exists served q', run deref ops q = Some (served, q') /\ RoundRobin.ok q'
    /\ forall i sid, pre !! i = Some sid -> (i < serves ops)%nat -> served !! i = Some sid.
Proof.
  revert q pre. induction ops as [|[c|] ops IH]; intros q pre Hok Hpre; simpl.
  - exists [], q. split; [done|]. split; [done|]. lia.
  - apply IH; [by apply rr_push_ok|]. unfold RoundRobin.push. simpl. destruct (_ =? _); [|done]. by apply prefix_app_r.
  - destruct (rr_peek_spec q Hok) as [[Eo E]|(sid & order & c & l & Eo & Hl & E)]; rewrite E; simpl.
    + destruct (IH q [] Hok (prefix_nil _)) as (served & q' & H1 & H2 & _). exists served, q'. split; [done|]. split; [done|].
      rewrite Eo in Hpre. apply prefix_nil_inv in Hpre as ->. done.
    + set (q1 := mkRR _ _ _ _) in *.
      assert (Hok1 : RoundRobin.ok q1) by (destruct Hok; constructor; simpl; [done..|]; by rewrite Eo).
      destruct (rr_selected_pop q1 sid order c l Hok1 Eo eq_refl eq_refl Hl) as (q2 & -> & Hok2 & _ & Eo2).
      assert (Hpre2 : tail pre `prefix_of` streamOrder q2).
      { rewrite Eo2. rewrite Eo in Hpre. destruct pre as [|x pre]; [apply prefix_nil|]. simpl.
        apply prefix_cons_inv_2 in Hpre. by apply prefix_app_r. }
      destruct (IH q2 (tail pre) Hok2 Hpre2) as (served & q' & -> & H2 & H3). simpl.
      eexists _, _. split; [done|]. split; [done|]. intros [|i] s Hi Hlt; simpl.
      * rewrite Eo in Hpre. destruct pre as [|x pre]; [done|]. apply prefix_cons_inv_1 in Hpre. simpl in Hi. congruence.
      * apply H3; [|lia]. by destruct pre.
Qed.

(** Round robin takes turns.  After any history, the streams in its order
    are exactly those with chunks, each once, and a stream at position [i] is
    the one served by the [i]-th service from then on, whatever is pushed
    meanwhile: no stream waits for more than the other backlogged streams. *)
Theorem round_robin_takes_turns deref ops ops' :
  exists served q served' q',
    run deref ops newRoundRobinPendingQueuePolicy = Some (served, q)
    /\ run deref ops' q = Some (served', q')
    /\ NoDup (streamOrder q) /\ (forall i, i ∈ streamOrder q <-> i ∈ dom (streamQueues q))
    /\ forall i sid, streamOrder q !! i = Some sid -> (i < serves ops')%nat -> served' !! i = Some sid.
Proof.
  destruct (run_turns deref ops newRoundRobinPendingQueuePolicy []) as (served & q & H1 & H2 & _).
  { constructor; simpl; [apply map_Forall_empty|constructor|set_solver|done]. }
  { apply prefix_nil. }
  destruct (run_turns deref ops' q (streamOrder q) H2 ltac:(done)) as (served' & q' & H3 & _ & H4).
  exists served, q, served', q'. repeat (split; [done || apply H2|]). done.
Qed.

End Turns.

(** ** Weighted fair queueing *)

(** Weighted fair queueing serves the earliest finish time: when no choice
    stands, the chunk offered is the first of its stream, no other stream's
    first chunk finishes before it (a tie goes to the lower stream), and the
    choice does not depend on the order in which the streams are visited. *)
Theorem wfq_serves_earliest order order' (q : WFQ.weightedFairQueueingPendingQueuePolicy) :
  WFQ.ok q -> WFQ.streamSelected q = false ->
  (forall i, i ∈ order <-> i ∈ dom (WFQ.streamQueues q)) -> (forall i, i ∈ order' <-> i ∈ dom (WFQ.streamQueues q)) ->
  WFQ.peek order q = WFQ.peek order' q
  /\ exists r q', WFQ.peek order q = Some (r, q')
     /\ match r with
        | None => WFQ.streamQueues q = ∅
        | Some c => WFQ.front q (WFQ.selectedStream q') c
            /\ forall i c', WFQ.front q i c' ->
                 F64.lt (WFQ.finishOf q c') (WFQ.finishOf q c) = false
                 /\ (F64.eq (WFQ.finishOf q c') (WFQ.finishOf q c) = true -> WFQ.selectedStream q' <= i)
        end.
Proof.
  intros Hok Hsel Ho Ho'.
  destruct (WFQ.wfq_peek_spec order q Hok Hsel Ho) as [[He E]|(sid & c & Hf & E & Hb)],
    (WFQ.wfq_peek_spec order' q Hok Hsel Ho') as [[He' E']|(sid' & c' & Hf' & E' & Hb')]; rewrite E, E'.
  - split; [done|]. by exists None, q.
  - destruct Hf' as [l Hl]. by rewrite He in Hl.
  - destruct Hf as [l Hl]. by rewrite He' in Hl.
  - assert (sid = sid') as <-.
    { pose proof (Hb _ _ Hf') as H1. pose proof (Hb' _ _ Hf) as H2. unfold WFQ.beats, F64.klt in *.
      destruct (F64.key (WFQ.finishOf q c)) as [[a b] d], (F64.key (WFQ.finishOf q c')) as [[a' b'] d']. simpl in *.
      destruct (Z.eq_dec sid sid'); [done|]. exfalso.
      destruct (Z.eq_dec a a'), (Z.eq_dec b b'), (Z.eq_dec d d'); subst; intuition (try lia). }
    destruct Hf as [l Hl], Hf' as [l' Hl']. rewrite Hl in Hl'. injection Hl' as <- <-. split; [done|].
    eexists _, _. split; [done|]. simpl. split; [by exists l|]. intros i c' Hf.
    pose proof (Hb i c' Hf) as Hn. pose proof (WFQ.finishOf_finite q c Hok) as H1.
    pose proof (WFQ.finishOf_finite q c' Hok) as H2. unfold WFQ.beats in Hn. split.
    + destruct (F64.lt _ _) eqn:El; [|done]. apply F64.lt_key in El; [|done..]. tauto.
    + intros Ee. apply F64.eq_key in Ee; [|done..]. destruct (Z_lt_dec i sid); [|lia]. tauto.
Qed.

(** ** Examples *)

(** A message of two fragments on stream 5 and an unordered one on stream 2. *)
Definition ex_deref (c : loc) : payloadData :=
  match c with
  | 1%positive => mkPayload false true false false 0 5 0 0 0 51 [1; 2; 3] false
  | 2%positive => mkPayload false false true false 0 5 0 0 1 51 [4] false
  | _ => mkPayload true true true false 0 2 0 0 0 51 [9; 9] false
  end.

Abbreviation ex_queue := (pendingQueue (S := RoundRobin.roundRobinPendingQueuePolicy)).

Definition ex_new : ex_queue := newPendingQueue (Some (Some RoundRobin.newRoundRobinPendingQueuePolicy)).

(** The first fragment has left when the unordered message comes. *)
Definition ex_pushed : ex_queue := fold_left (push ex_deref) [1; 2]%positive ex_new.

Definition ex_popped : ex_queue := (pop ex_deref ex_pushed 1%positive).2.

Definition ex_sending : ex_queue := fold_left (push ex_deref) [3%positive] ex_popped.

Lemma ex_run : rtc (pstep ex_deref) (ex_new, [], []) (ex_sending, [[1; 2]; [3]]%positive, [1%positive]).
Proof.
  apply (rtc_l _ _ (ex_pushed, [[1; 2]%positive], [])).
  { apply (p_push ex_deref ex_new [] [] false [1; 2]%positive); [|done]. constructor; try done. by repeat constructor. }
  apply (rtc_l _ _ (ex_popped, [[1; 2]%positive], [1%positive])).
  { by apply (p_pop ex_deref ex_pushed _ [] [] 1%positive ex_pushed). }
  apply rtc_once, (p_push ex_deref ex_popped [[1; 2]%positive] _ true [3%positive]); [|done].
  constructor; try done. by repeat constructor.
Qed.

Lemma messages_sent_whole_witness :
  exists sent part rest wait, [1%positive] = concat sent ++ part /\ (part = [] <-> rest = [])
    /\ sent ++ current part rest ++ wait ≡ₚ [[1; 2]; [3]]%positive /\ contents ex_sending ≡ₚ rest ++ concat wait.
Proof. exact (messages_sent_whole ex_deref _ ex_sending [[1; 2]; [3]]%positive [1%positive] ex_run). Defined.

(** With interleaving on, round robin alternates between the streams. *)
Definition ex_mixed : ex_queue :=
  fold_left (push ex_deref) [3%positive]
    (fold_left (push ex_deref) [1%positive; 2%positive] (setInterleaving ex_new true).2).

Lemma pending_queue_conserves_witness :
  getNumBytes ex_mixed = bytes_of ex_deref (contents ex_mixed) /\ getNumBytes ex_mixed = 6.
Proof.
  split; [|reflexivity].
  assert (Hr : rtc (qstep ex_deref) (ex_new, [], []) (ex_mixed, [[1; 2]; [3]]%positive, [])).
  { apply (rtc_l _ _ ((setInterleaving ex_new true).2, [], [])).
    { by apply (q_mode ex_deref ex_new [] [] true None). }
    eapply rtc_l.
    { apply q_use, (p_push ex_deref _ [] [] false [1; 2]%positive); [|done]. constructor; try done. by repeat constructor. }
    apply rtc_once, q_use, (p_push ex_deref _ [[1; 2]%positive] _ true [3%positive]); [|done].
    constructor; try done. by repeat constructor. }
  exact (proj1 (proj2 (proj2 (pending_queue_conserves ex_deref _ ex_mixed _ _ Hr)))).
Defined.

(** Stream 5 has a short chunk first, stream 2 twice the weight. *)
Definition ex_wfq : WFQ.weightedFairQueueingPendingQueuePolicy :=
  fold_left (WFQ.push ex_deref) [1; 2; 3]%positive
    (WFQ.newWeightedFairQueueingPendingQueuePolicy {[2 := 2]}).

Lemma wfq_serves_earliest_witness :
  WFQ.peek [5; 2] ex_wfq = WFQ.peek [2; 5] ex_wfq
  /\ (fst <$> WFQ.peek [5; 2] ex_wfq) = Some (Some 3%positive).
Proof.
  split; [|reflexivity].
  assert (Hd : forall i, i ∈ dom (WFQ.streamQueues ex_wfq) <-> i = 5 \/ i = 2).
  { assert (E : dom (WFQ.streamQueues ex_wfq) = {[5; 2]}) by (vm_compute; reflexivity). intros i. rewrite E. set_solver. }
  apply (wfq_serves_earliest [5; 2] [2; 5] ex_wfq); [|reflexivity|intros i; rewrite Hd; set_solver..].
  constructor; [| |done].
  - apply map_Forall_to_list. vm_compute. repeat constructor; done.
  - apply map_Forall_to_list. vm_compute. repeat constructor; done.
Defined.
