(* ===== verification/Reassembly.v ===== *)
(** * Reassembly queue (reassembly_queue.go)

    The fragments of a stream are put together again: ordered messages by
    stream sequence number, unordered ones from the run of consecutive TSNs,
    I-DATA messages by message identifier and fragment number.  The chunk sets
    of I-DATA messages are shared between a map and a slice, so they live in a
    store. *)

From Stdlib Require Import Sorted.
From S2P Require Import Prelude Serial Bytes Chunks.

Local Open Scope Z_scope.
Local Open Scope go_scope.

(** ** Sorting

    [sort.Slice] on a short slice is insertion sort: each element moves left
    past those it is less than.  Where the keys are totally ordered every sort
    gives this result ([sort_insert]). *)

Fixpoint sift {A} (less : A -> A -> bool) (x : A) (r : list A) : list A :=
  match r with
  | [] => [x]
  | y :: r' => if less x y then y :: sift less x r' else x :: r
  end.

Definition sortSlice {A} (less : A -> A -> bool) (l : list A) : list A :=
  reverse (fold_left (fun r x => sift less x r) l []).

(** ** Chunk sets *)

(** The sender's [head] is nil on a chunk that was received. *)
Definition isFragmented (c : payloadData) : bool := negb (beginningFragment c) || negb (endingFragment c).

Record chunkSet := mkSet { ssn : Z; ppi : Z; chunks : list payloadData }.

Definition newChunkSet (ssn ppi : Z) : chunkSet := mkSet ssn ppi [].

Definition sortChunksByTSN : list payloadData -> list payloadData :=
  sortSlice (fun a b => sna32LT (tsn a) (tsn b)).

Definition sortChunksBySSN : list chunkSet -> list chunkSet :=
  sortSlice (fun a b => sna16LT (ssn a) (ssn b)).

Definition sortChunksByFSN : list payloadData -> list payloadData :=
  sortSlice (fun a b => sna32LT (fragmentSequenceNumber a) (fragmentSequenceNumber b)).

(** The rest of a set, after a chunk whose key is [last]. *)
Fixpoint consecutive (key : payloadData -> Z) (last : Z) (l : list payloadData) : bool :=
  match l with
  | [] => true
  | c :: l' => if negb (key c =? last +32 1) then false else consecutive key (key c) l'
  end.

Definition isComplete (set : chunkSet) : bool :=
  match chunks set with
  | [] => false
  | c0 :: rest =>
      if negb (beginningFragment c0) then false
      else if negb (endingFragment (default c0 (last (chunks set)))) then false
      else consecutive tsn (tsn c0) rest
  end.

Definition set_push (set : chunkSet) (chunk : payloadData) : bool * chunkSet :=
  if existsb (fun c => tsn c =? tsn chunk) (chunks set) then (false, set)
  else
    let set' := mkSet (ssn set) (ppi set) (sortChunksByTSN (chunks set ++ [chunk])) in
    (isComplete set', set').

Record chunkSetMID := mkSetMID { mid : Z; ppiMID : Z; chunksMID : list payloadData }.

Definition newChunkSetMID (mid ppi : Z) : chunkSetMID := mkSetMID mid ppi [].

Definition isCompleteMID (set : chunkSetMID) : bool :=
  match chunksMID set with
  | [] => false
  | c0 :: rest =>
      if negb (beginningFragment c0) then false
      else if negb (endingFragment (default c0 (last (chunksMID set)))) then false
      else if negb (fragmentSequenceNumber c0 =? 0) then false
      else consecutive fragmentSequenceNumber (fragmentSequenceNumber c0) rest
  end.

(** [(complete, accepted)] and the set afterwards. *)
Definition pushAndCheck (set : chunkSetMID) (chunk : payloadData) : bool * bool * chunkSetMID :=
  if isCompleteMID set then (false, false, set)
  else if existsb (fun c => fragmentSequenceNumber c =? fragmentSequenceNumber chunk) (chunksMID set)
  then (false, false, set)
  else
    let set' := mkSetMID (mid set) (if beginningFragment chunk then payloadType chunk else ppiMID set)
                  (sortChunksByFSN (chunksMID set ++ [chunk])) in
    (isCompleteMID set', true, set').

(** ** The queue *)

Record reassemblyQueue := mkQueue {
  si : Z;
  nextSSN : Z;
  nextMID : Z;
  ordered : list chunkSet;
  unordered_ : list chunkSet;
  unorderedChunks : list payloadData;
  sets : gmap positive chunkSetMID;   (* the store of I-DATA sets *)
  nextSet : positive;
  orderedMID : list positive;
  unorderedMID : list positive;
  orderedMIDMap : gmap Z positive;
  unorderedMIDMap : gmap Z positive;
  useInterleaving : bool;
  nBytes : Z
}.

Inductive rerr := errTryAgain | ErrShortBuffer | errReassemblyQueueMIDLimitExceeded.

Definition maxReassemblyQueueMIDEntries : Z := 1024.

Definition newReassemblyQueue (si : Z) : reassemblyQueue :=
  mkQueue si 0 0 [] [] [] ∅ 1 [] [] ∅ ∅ false 0.

Definition with_data (r : reassemblyQueue) (next : Z) (o u : list chunkSet) (uc : list payloadData) (n : Z)
  : reassemblyQueue :=
  mkQueue (si r) next (nextMID r) o u uc (sets r) (nextSet r) (orderedMID r) (unorderedMID r) (orderedMIDMap r)
    (unorderedMIDMap r) (useInterleaving r) n.

Definition with_mid (r : reassemblyQueue) (next : Z) (st : gmap positive chunkSetMID) (a : positive)
    (o u : list positive) (om um : gmap Z positive) (n : Z) : reassemblyQueue :=
  mkQueue (si r) (nextSSN r) next (ordered r) (unordered_ r) (unorderedChunks r) st a o u om um (useInterleaving r) n.

Definition userLen (c : payloadData) : Z := zlen (userData c).

Definition addNumBytes (n : Z) (c : payloadData) : Z := u64 (n + userLen c).

Definition subtractNumBytes (cur n : Z) : Z := if n <=? i64 cur then u64 (cur - n) else 0.

Definition getNumBytes (r : reassemblyQueue) : Z := i64 (nBytes r).

(** *** Unordered DATA *)

(** The loop of [findCompleteUnorderedChunkSet] from index [i]: [start] is
    [startIdx], [n] is [nChunks]; the result is the range found. *)
Fixpoint findRange (l : list payloadData) (i : nat) (start : option nat) (n : nat) (lastTSN : Z)
  : option (nat * nat) :=
  match l with
  | [] => None
  | c :: l' =>
      if beginningFragment c then
        if endingFragment c then Some (i, 1%nat) else findRange l' (S i) (Some i) 1 (tsn c)
      else match start with
           | None => findRange l' (S i) None n lastTSN
           | Some s =>
               if negb (tsn c =? lastTSN +32 1) then findRange l' (S i) None n lastTSN
               else if endingFragment c then Some (s, S n)
               else findRange l' (S i) start (S n) (tsn c)
           end
  end.

(** The set found and the chunks left. *)
Definition findCompleteUnorderedChunkSet (l : list payloadData) : option (chunkSet * list payloadData) :=
  match findRange l 0 None 0 0 with
  | None => None
  | Some (s, n) =>
      let cs := take n (drop s l) in
      Some (mkSet 0 (match cs with c :: _ => payloadType c | [] => 0 end) cs, take s l ++ drop (s + n) l)
  end.

Definition pushUnordered (r : reassemblyQueue) (chunk : payloadData) : bool * reassemblyQueue :=
  let uc := sortChunksByTSN (unorderedChunks r ++ [chunk]) in
  let n := addNumBytes (nBytes r) chunk in
  match findCompleteUnorderedChunkSet uc with
  | Some (cset, rest) => (true, with_data r (nextSSN r) (ordered r) (unordered_ r ++ [cset]) rest n)
  | None => (false, with_data r (nextSSN r) (ordered r) (unordered_ r) uc n)
  end.

(** *** Ordered DATA *)

(** The first set of this SSN that holds fragments takes the chunk. *)
Fixpoint pushToSet (l : list chunkSet) (chunk : payloadData) : option (bool * list chunkSet) :=
  match l with
  | [] => None
  | set :: l' =>
      if (ssn set =? streamSequenceNumber chunk)
         && (match chunks set with c :: _ => isFragmented c | [] => false end)
      then let (complete, set') := set_push set chunk in Some (complete, set' :: l')
      else '(complete, l'') ← pushToSet l' chunk; Some (complete, set :: l'')
  end.

(** The new set goes in empty and takes the chunk after the sort, which looks
    only at the SSN. *)
Definition pushOrdered (r : reassemblyQueue) (chunk : payloadData) : bool * reassemblyQueue :=
  if sna16LT (streamSequenceNumber chunk) (nextSSN r) then (false, r)
  else
    let found := if isFragmented chunk then pushToSet (ordered r) chunk else None in
    let '(complete, o) :=
      match found with
      | Some res => res
      | None =>
          let (complete, set) := set_push (newChunkSet (streamSequenceNumber chunk) (payloadType chunk)) chunk in
          (complete, sortChunksBySSN (ordered r ++ [set]))
      end in
    (complete, with_data r (nextSSN r) o (unordered_ r) (unorderedChunks r) (addNumBytes (nBytes r) chunk)).

(** *** I-DATA *)

Definition insertChunkSetByMID (st : gmap positive chunkSetMID) (a : list positive) (m : Z) (p : positive)
  : list positive :=
  let insertAt := Search (length a) (fun i =>
    match a !! i with
    | Some p' => match st !! p' with Some s => negb (sna32LT (mid s) m) | None => false end
    | None => false
    end) in
  take insertAt a ++ p :: drop insertAt a.

Definition hasQueuedUnorderedMID (r : reassemblyQueue) (m : Z) : bool :=
  existsb (fun p => match sets r !! p with Some s => mid s =? m | None => false end) (unorderedMID r).

Definition unorderedMIDEntryCount (r : reassemblyQueue) : Z :=
  Z.of_nat (base.size (unorderedMIDMap r)) + Z.of_nat (length (unorderedMID r)).

Definition pushUnorderedIData (r : reassemblyQueue) (chunk : payloadData) : bool * option rerr * reassemblyQueue :=
  let m := messageIdentifier chunk in
  if hasQueuedUnorderedMID r m then (false, None, r)
  else
    let entry :=
      match unorderedMIDMap r !! m with
      | Some p => Some (p, r)
      | None =>
          if maxReassemblyQueueMIDEntries <=? unorderedMIDEntryCount r then None
          else
            let p := nextSet r in
            Some (p, with_mid r (nextMID r) (<[p := newChunkSetMID m (payloadType chunk)]> (sets r)) (Pos.succ p)
                       (orderedMID r) (unorderedMID r) (orderedMIDMap r) (<[m := p]> (unorderedMIDMap r)) (nBytes r))
      end in
    match entry with
    | None => (false, Some errReassemblyQueueMIDLimitExceeded, r)
    | Some (p, r) =>
        match sets r !! p with
        | None => (false, None, r)
        | Some cset =>
            let '(complete, accepted, cset') := pushAndCheck cset chunk in
            if negb accepted then (false, None, r)
            else
              let st := <[p := cset']> (sets r) in
              let n := addNumBytes (nBytes r) chunk in
              if complete then
                (true, None, with_mid r (nextMID r) st (nextSet r) (orderedMID r) (unorderedMID r ++ [p])
                               (orderedMIDMap r) (delete m (unorderedMIDMap r)) n)
              else
                (false, None, with_mid r (nextMID r) st (nextSet r) (orderedMID r) (unorderedMID r)
                                (orderedMIDMap r) (unorderedMIDMap r) n)
        end
    end.

Definition pushOrderedIData (r : reassemblyQueue) (chunk : payloadData) : bool * option rerr * reassemblyQueue :=
  let m := messageIdentifier chunk in
  if sna32LT m (nextMID r) then (false, None, r)
  else
    let entry :=
      match orderedMIDMap r !! m with
      | Some p => Some (p, r)
      | None =>
          if maxReassemblyQueueMIDEntries <=? Z.of_nat (base.size (orderedMIDMap r)) then None
          else
            let p := nextSet r in
            let st := <[p := newChunkSetMID m (payloadType chunk)]> (sets r) in
            Some (p, with_mid r (nextMID r) st (Pos.succ p) (insertChunkSetByMID st (orderedMID r) m p)
                       (unorderedMID r) (<[m := p]> (orderedMIDMap r)) (unorderedMIDMap r) (nBytes r))
      end in
    match entry with
    | None => (false, Some errReassemblyQueueMIDLimitExceeded, r)
    | Some (p, r) =>
        match sets r !! p with
        | None => (false, None, r)
        | Some cset =>
            let '(complete, accepted, cset') := pushAndCheck cset chunk in
            if negb accepted then (false, None, r)
            else (complete, None, with_mid r (nextMID r) (<[p := cset']> (sets r)) (nextSet r) (orderedMID r)
                                    (unorderedMID r) (orderedMIDMap r) (unorderedMIDMap r)
                                    (addNumBytes (nBytes r) chunk))
        end
    end.

Definition pushIData (r : reassemblyQueue) (chunk : payloadData) : bool * option rerr * reassemblyQueue :=
  if negb (streamIdentifier chunk =? si r) then (false, None, r)
  else if unordered chunk then pushUnorderedIData r chunk
  else pushOrderedIData r chunk.

Definition set_interleaving (r : reassemblyQueue) : reassemblyQueue :=
  mkQueue (si r) (nextSSN r) (nextMID r) (ordered r) (unordered_ r) (unorderedChunks r) (sets r) (nextSet r)
    (orderedMID r) (unorderedMID r) (orderedMIDMap r) (unorderedMIDMap r) true (nBytes r).

Definition pushWithError (r : reassemblyQueue) (chunk : payloadData) : bool * option rerr * reassemblyQueue :=
  if iData chunk then pushIData (set_interleaving r) chunk
  else if negb (streamIdentifier chunk =? si r) then (false, None, r)
  else
    let (complete, r') := if unordered chunk then pushUnordered r chunk else pushOrdered r chunk in
    (complete, None, r').

Definition push (r : reassemblyQueue) (chunk : payloadData) : bool * reassemblyQueue :=
  let '(complete, _, r') := pushWithError r chunk in (complete, r').

(** *** Reading *)

Definition isReadable (r : reassemblyQueue) : bool :=
  if useInterleaving r then
    match unorderedMID r with
    | _ :: _ => true
    | [] =>
        match orderedMID r with
        | p :: _ => match sets r !! p with
                    | Some cset => isCompleteMID cset && sna32LTE (mid cset) (nextMID r)
                    | None => false
                    end
        | [] => false
        end
    end
  else
    match unordered_ r with
    | _ :: _ => true
    | [] => match ordered r with
            | cset :: _ => isComplete cset && sna16LTE (ssn cset) (nextSSN r)
            | [] => false
            end
    end.

(** [copy(buf[n:], d)]. *)
Definition write_at (buf : list Z) (n : Z) (d : list Z) : list Z :=
  take (Z.to_nat n) buf ++ d ++ drop (Z.to_nat (n + zlen d)) buf.

(** The loop over the chunks of a set: the buffer, [nTotal] and whether a chunk
    did not fit. *)
Fixpoint copyChunks (cs : list payloadData) (buf : list Z) (nTotal : Z) (short : bool) : list Z * Z * bool :=
  match cs with
  | [] => (buf, nTotal, short)
  | c :: cs' =>
      if zlen buf - nTotal <? userLen c then copyChunks cs' buf (nTotal + userLen c) true
      else copyChunks cs' (write_at buf nTotal (userData c)) (nTotal + userLen c) short
  end.

Record readResult := mkRead { r_n : Z; r_ppi : Z; r_err : option rerr; r_buf : list Z }.

Definition tryAgain (buf : list Z) : readResult := mkRead 0 0 (Some errTryAgain) buf.

Definition readMID (r : reassemblyQueue) (buf : list Z) : readResult * reassemblyQueue :=
  let choice :=
    match unorderedMID r with
    | p :: _ => cset ← sets r !! p; Some (cset, true)
    | [] =>
        match orderedMID r with
        | p :: _ =>
            cset ← sets r !! p;
            if negb (isCompleteMID cset) || sna32GT (mid cset) (nextMID r) then None else Some (cset, false)
        | [] => None
        end
    end in
  match choice with
  | None => (tryAgain buf, r)
  | Some (iSet, isUnordered) =>
      let '(buf', nTotal, short) := copyChunks (chunksMID iSet) buf 0 false in
      if short : bool then (mkRead nTotal 0 (Some ErrShortBuffer) buf', r)
      else
        let n := subtractNumBytes (nBytes r) nTotal in
        (mkRead nTotal (ppiMID iSet) None buf',
         if isUnordered : bool then
           with_mid r (nextMID r) (sets r) (nextSet r) (orderedMID r) (tail (unorderedMID r)) (orderedMIDMap r)
             (unorderedMIDMap r) n
         else
           with_mid r (if mid iSet =? nextMID r then nextMID r +32 1 else nextMID r) (sets r) (nextSet r)
             (tail (orderedMID r)) (unorderedMID r) (delete (mid iSet) (orderedMIDMap r)) (unorderedMIDMap r) n)
  end.

Definition readData (r : reassemblyQueue) (buf : list Z) : readResult * reassemblyQueue :=
  let choice :=
    match unordered_ r with
    | cset :: _ => Some (cset, true)
    | [] =>
        match ordered r with
        | cset :: _ =>
            if negb (isComplete cset) || sna16GT (ssn cset) (nextSSN r) then None else Some (cset, false)
        | [] => None
        end
    end in
  match choice with
  | None => (tryAgain buf, r)
  | Some (cset, isUnordered) =>
      let '(buf', nTotal, short) := copyChunks (chunks cset) buf 0 false in
      if short : bool then (mkRead nTotal 0 (Some ErrShortBuffer) buf', r)
      else
        let n := subtractNumBytes (nBytes r) nTotal in
        (mkRead nTotal (ppi cset) None buf',
         if isUnordered : bool then
           with_data r (nextSSN r) (ordered r) (tail (unordered_ r)) (unorderedChunks r) n
         else
           with_data r (if ssn cset =? nextSSN r then nextSSN r +16 1 else nextSSN r) (tail (ordered r)) (unordered_ r)
             (unorderedChunks r) n)
  end.

Definition read (r : reassemblyQueue) (buf : list Z) : readResult * reassemblyQueue :=
  if useInterleaving r then readMID r buf else readData r buf.

(** *** Skipping what the sender gave up *)

Definition subtractChunks (n : Z) (cs : list payloadData) : Z :=
  fold_left (fun n c => subtractNumBytes n (userLen c)) cs n.

Definition dropped (lastSSN : Z) (set : chunkSet) : bool := sna16LTE (ssn set) lastSSN && negb (isComplete set).

Definition forwardTSNForOrdered (r : reassemblyQueue) (lastSSN : Z) : reassemblyQueue :=
  with_data r (if sna16LTE (nextSSN r) lastSSN then lastSSN +16 1 else nextSSN r)
    (filter (fun set => dropped lastSSN set = false) (ordered r)) (unordered_ r) (unorderedChunks r)
    (fold_left (fun n set => subtractChunks n (chunks set))
       (filter (fun set => dropped lastSSN set = true) (ordered r)) (nBytes r)).

(** The chunks before the first that is newer than [t]. *)
Fixpoint olderPrefix (t : Z) (l : list payloadData) : list payloadData * list payloadData :=
  match l with
  | [] => ([], [])
  | c :: l' => if sna32GT (tsn c) t then ([], l) else let (a, b) := olderPrefix t l' in (c :: a, b)
  end.

Definition forwardTSNForUnordered (r : reassemblyQueue) (newCumulativeTSN : Z) : reassemblyQueue :=
  let (old, rest) := olderPrefix newCumulativeTSN (unorderedChunks r) in
  with_data r (nextSSN r) (ordered r) (unordered_ r) rest (subtractChunks (nBytes r) old).

Definition chunks_at (r : reassemblyQueue) (p : positive) : list payloadData :=
  match sets r !! p with Some s => chunksMID s | None => [] end.

Definition droppedMID (r : reassemblyQueue) (lastMID : Z) (p : positive) : bool :=
  match sets r !! p with Some s => sna32LTE (mid s) lastMID && negb (isCompleteMID s) | None => false end.

Definition forwardTSNForOrderedMID (r : reassemblyQueue) (lastMID : Z) : reassemblyQueue :=
  let gone := filter (fun p => droppedMID r lastMID p = true) (orderedMID r) in
  with_mid r (if sna32LTE (nextMID r) lastMID then lastMID +32 1 else nextMID r) (sets r) (nextSet r)
    (filter (fun p => droppedMID r lastMID p = false) (orderedMID r)) (unorderedMID r)
    (fold_left (fun m p => match sets r !! p with Some s => delete (mid s) m | None => m end) gone (orderedMIDMap r))
    (unorderedMIDMap r) (fold_left (fun n p => subtractChunks n (chunks_at r p)) gone (nBytes r)).

(** The range over the map: the order does not change the result. *)
Definition forwardTSNForUnorderedMID (r : reassemblyQueue) (lastMID : Z) : reassemblyQueue :=
  let gone := filter (fun kv => sna32LTE kv.1 lastMID = true) (unorderedMIDMap r) in
  with_mid r (nextMID r) (sets r) (nextSet r) (orderedMID r) (unorderedMID r) (orderedMIDMap r)
    (filter (fun kv => sna32LTE kv.1 lastMID = false) (unorderedMIDMap r))
    (fold_left (fun n kv => subtractChunks n (chunks_at r kv.2)) (map_to_list gone) (nBytes r)).

(** ** Lemmas on sorting *)

(** [j] at its place in a sorted list of numbers. *)
Definition insert_at (j : nat) (l : list nat) : list nat :=
  filter (fun a => (a < j)%nat) l ++ j :: filter (fun a => (j < a)%nat) l.

Lemma fold_sift_app {A} less (l : list A) x :
  sortSlice less (l ++ [x]) = reverse (sift less x (reverse (sortSlice less l))).
Proof. unfold sortSlice. rewrite fold_left_app. simpl. by rewrite reverse_involutive. Qed.

Lemma sift_map {A} less (f : nat -> A) j r :
  (forall a, a ∈ r -> less (f j) (f a) = (j <? a)%nat) -> j ∉ r ->
  StronglySorted (fun a b => (b < a)%nat) r ->
  sift less (f j) (map f r) = map f (filter (fun a => (j < a)%nat) r ++ j :: filter (fun a => (a < j)%nat) r).
Proof.
  intros Hl Hj Hs. induction Hs as [|y r Hs IH Hy]; [done|]. simpl. rewrite Hl by left.
  rewrite Forall_forall in Hy. destruct (Nat.ltb_spec j y) as [Hlt|Hge].
  - rewrite (filter_cons_True _ y), (filter_cons_False (fun a => (a < j)%nat) y) by lia. simpl. f_equal. apply IH; [|set_solver].
    intros. apply Hl. by right.
  - assert (y <> j) by set_solver.
    rewrite (filter_cons_False _ y), (filter_cons_True (fun a => (a < j)%nat) y) by lia.
    rewrite filter_none by (intros x Hx; specialize (Hy x Hx); lia).
    by rewrite (filter_all (fun a => (a < j)%nat)) by (intros x Hx; specialize (Hy x Hx); lia).
Qed.

Lemma filter_reverse {A} (P : A -> Prop) `{forall x, Decision (P x)} (l : list A) :
  filter P (reverse l) = reverse (filter P l).
Proof.
  induction l as [|x l IH]; [done|]. rewrite reverse_cons, filter_app, IH. simpl. rewrite !filter_cons, filter_nil.
  destruct (decide (P x)); [by rewrite reverse_cons|by rewrite app_nil_r].
Qed.

Lemma sorted_snoc {A} (R : A -> A -> Prop) l x :
  StronglySorted R l -> Forall (fun a => R a x) l -> StronglySorted R (l ++ [x]).
Proof.
  induction 1 as [|y l Hl IH Hy]; simpl; [by repeat constructor|]. intros [? ?]%Forall_cons.
  constructor; [by apply IH|]. apply Forall_app. split; [done|by constructor].
Qed.

Lemma sorted_reverse (l : list nat) :
  StronglySorted (fun a b => (a < b)%nat) l -> StronglySorted (fun a b => (b < a)%nat) (reverse l).
Proof.
  induction 1 as [|y l Hl IH Hy]; [constructor|]. rewrite reverse_cons. apply sorted_snoc; [done|].
  apply Forall_reverse. done.
Qed.

Lemma sorted_app_inv {A} (R : A -> A -> Prop) l x :
  StronglySorted R (l ++ [x]) -> StronglySorted R l /\ Forall (fun a => R a x) l.
Proof.
  induction l as [|y l IH]; [by split; constructor|]. intros Hs. inversion Hs as [|? ? H1 H2]; subst.
  destruct (IH H1) as [H3 H4]. apply Forall_app in H2 as [H2 H5]. inversion H5; subst. split; constructor; done.
Qed.

Section SortMap.
Context {A : Type} (less : A -> A -> bool) (f : nat -> A).

(** Inserting one element into a sorted slice; the other elements are sorted. *)
Lemma sort_insert_sorted l j :
  StronglySorted (fun a b => (a < b)%nat) l -> j ∉ l ->
  (forall a, a ∈ l -> less (f j) (f a) = (j <? a)%nat) ->
  sortSlice less (map f l) = map f l -> sortSlice less (map f l ++ [f j]) = map f (insert_at j l).
Proof.
  intros Hs Hj Hl E. rewrite fold_sift_app, E.
  assert (Hrev : forall l', reverse (map f l') = map f (reverse l')).
  { intros l'. induction l' as [|x l' IH]; [done|]. simpl. by rewrite !reverse_cons, IH, map_app. }
  rewrite Hrev, sift_map; [|set_solver|set_solver|by apply sorted_reverse].
  rewrite Hrev. f_equal. rewrite reverse_app, reverse_cons, !filter_reverse, !reverse_involutive, <- app_assoc. done.
Qed.

Lemma sort_sorted l :
  StronglySorted (fun a b => (a < b)%nat) l -> (forall a b, a ∈ l -> b ∈ l -> less (f a) (f b) = (a <? b)%nat) ->
  sortSlice less (map f l) = map f l.
Proof.
  induction l as [|x l IH] using rev_ind; [done|]. intros [Hs Hx]%sorted_app_inv Hl. rewrite Forall_forall in Hx.
  rewrite map_app. simpl. rewrite sort_insert_sorted; [|done| | |].
  - unfold insert_at. rewrite filter_all, filter_none by (intros a Ha; specialize (Hx a Ha); lia). by rewrite map_app.
  - intros Hin. specialize (Hx x Hin). lia.
  - intros a Ha. apply Hl; set_solver.
  - apply IH; [done|]. intros. apply Hl; set_solver.
Qed.

Lemma sort_insert l j :
  StronglySorted (fun a b => (a < b)%nat) l -> j ∉ l ->
  (forall a b, a ∈ j :: l -> b ∈ j :: l -> less (f a) (f b) = (a <? b)%nat) ->
  sortSlice less (map f l ++ [f j]) = map f (insert_at j l).
Proof.
  intros Hs Hj Hl. apply sort_insert_sorted; [done..| |].
  - intros a Ha. apply Hl; set_solver.
  - apply sort_sorted; [done|]. intros. apply Hl; set_solver.
Qed.

End SortMap.

Lemma sorted_filter_nat (P : nat -> Prop) `{forall x, Decision (P x)} l :
  StronglySorted (fun a b => (a < b)%nat) l -> StronglySorted (fun a b => (a < b)%nat) (filter P l).
Proof.
  induction 1 as [|y l Hl IH Hy]; [constructor|]. rewrite filter_cons. destruct (decide (P y)); [|done].
  constructor; [done|]. rewrite Forall_forall in *. intros x [_ Hx]%list_elem_of_filter. by apply Hy.
Qed.

Lemma sorted_seq a n : StronglySorted (fun a b => (a < b)%nat) (seq a n).
Proof.
  revert a. induction n as [|n IH]; intros a; simpl; constructor; [apply IH|]. apply Forall_forall. intros x Hx%elem_of_seq. lia.
Qed.

Lemma filter_ext_in {A} (P Q : A -> Prop) `{forall x, Decision (P x)} `{forall x, Decision (Q x)} (l : list A) :
  (forall x, x ∈ l -> P x <-> Q x) -> filter P l = filter Q l.
Proof.
  induction l as [|x l IH]; [done|]. intros Hl. rewrite !filter_cons, IH by (intros; apply Hl; by right).
  destruct (Hl x (list_elem_of_here _ _)). destruct (decide (P x)), (decide (Q x)); naive_solver.
Qed.

(** Adding a number to a filter of an interval. *)
Lemma filter_add (P Q : nat -> Prop) `{forall x, Decision (P x)} `{forall x, Decision (Q x)} j a n :
  (a <= j < a + n)%nat -> ~ P j -> (forall x, Q x <-> P x \/ x = j) ->
  filter Q (seq a n) = insert_at j (filter P (seq a n)).
Proof.
  intros Hj HP HQ. unfold insert_at. rewrite !list_filter_filter.
  replace n with ((j - a) + S (n - (j - a) - 1))%nat by lia. rewrite seq_app. cbn [seq].
  replace (a + (j - a))%nat with j by lia. rewrite !filter_app, !filter_cons.
  rewrite (decide_True (P := Q j)) by (apply HQ; by right). rewrite !decide_False by (lia || (intros [? ?]; lia)).
  rewrite (filter_none (fun x => (j < x)%nat /\ P x) (seq a (j - a))) by (intros x Hx%elem_of_seq; lia).
  rewrite (filter_none (fun x => (x < j)%nat /\ P x) (seq (S j) _)) by (intros x Hx%elem_of_seq; lia).
  rewrite app_nil_r. simpl. f_equal; [|f_equal]; apply filter_ext_in; intros x Hx%elem_of_seq; rewrite HQ;
    (split; [intros [?| ->]; [split; [lia|done]|lia]|tauto]).
Qed.
