(* ===== verification/ReassemblySpec.v ===== *)
(** * What the reassembly queue delivers

    The sender cuts each message into fragments with consecutive TSNs; they
    arrive in any order, mixed with those of other messages.  The queue is
    proved to refine the abstract receiver: unordered messages are handed out
    whole as soon as they are complete, ordered ones whole and in order. *)

From Stdlib Require Import Sorted.
From S2P Require Import Prelude Serial Bytes Chunks Reassembly.

Local Open Scope Z_scope.
Local Open Scope go_scope.

(** ** Fragments *)

(** The fragments of one message, from TSN [base] on. *)
Record fragments (sid : Z) (u : bool) (seqno base p : Z) (m : list payloadData) : Prop := {
  fr_len : 0 < Z.of_nat (length m) < 2 ^ 31;
  fr_at j c : m !! j = Some c ->
    streamIdentifier c = sid /\ unordered c = u /\ iData c = false /\ streamSequenceNumber c = seqno
    /\ payloadType c = p /\ tsn c = u32 (base + Z.of_nat j)
    /\ beginningFragment c = bool_decide (j = 0%nat) /\ endingFragment c = bool_decide (S j = length m)
}.

Lemma sna32LT_close a b : Z.abs (a - b) < 2 ^ 31 -> sna32LT (u32 a) (u32 b) = (a <? b).
Proof.
  intros H. apply eq_true_iff_eq. rewrite sna32LT_dist, Z.ltb_lt by auto with go. unfold dist32. go_lia.
Qed.

Lemma sna16LT_close a b : Z.abs (a - b) < 2 ^ 15 -> sna16LT (u16 a) (u16 b) = (a <? b).
Proof.
  intros H. apply eq_true_iff_eq. rewrite sna16LT_dist, Z.ltb_lt by auto with go. unfold dist16. go_lia.
Qed.

Lemma u32_close a b : Z.abs (a - b) < 2 ^ 32 -> u32 a = u32 b -> a = b.
Proof. intros H E. go_lia. Qed.

Lemma u16_close a b : Z.abs (a - b) < 2 ^ 16 -> u16 a = u16 b -> a = b.
Proof. intros H E. go_lia. Qed.

Lemma u32_next a : u32 a +32 1 = u32 (a + 1).
Proof. go_lia. Qed.

#[global] Instance payloadData_inhabited : Inhabited payloadData :=
  populate (mkPayload false false false false 0 0 0 0 0 0 [] false).

Abbreviation increasing := (StronglySorted (fun a b : nat => (a < b)%nat)).

Section Message.
Context (sid : Z) (u : bool) (seqno base p : Z) (m : list payloadData) (Hm : fragments sid u seqno base p m).

Abbreviation at_ := (fun j : nat => m !!! j).

Lemma frag j : (j < length m)%nat ->
  streamIdentifier (at_ j) = sid /\ unordered (at_ j) = u /\ iData (at_ j) = false
  /\ streamSequenceNumber (at_ j) = seqno /\ payloadType (at_ j) = p /\ tsn (at_ j) = u32 (base + Z.of_nat j)
  /\ beginningFragment (at_ j) = bool_decide (j = 0%nat) /\ endingFragment (at_ j) = bool_decide (S j = length m).
Proof. intros Hj. apply (fr_at _ _ _ _ _ _ Hm). by apply list_lookup_lookup_total_lt. Qed.

Lemma frag_tsn_lt j k : (j < length m)%nat -> (k < length m)%nat ->
  sna32LT (tsn (at_ j)) (tsn (at_ k)) = (j <? k)%nat.
Proof.
  intros Hj Hk. destruct (frag j Hj) as (_ & _ & _ & _ & _ & -> & _). destruct (frag k Hk) as (_ & _ & _ & _ & _ & -> & _).
  pose proof (fr_len _ _ _ _ _ _ Hm). rewrite sna32LT_close by lia.
  destruct (Nat.ltb_spec j k), (Z.ltb_spec (base + Z.of_nat j) (base + Z.of_nat k)); lia.
Qed.

Lemma frag_tsn_eq j k : (j < length m)%nat -> (k < length m)%nat -> tsn (at_ j) = tsn (at_ k) -> j = k.
Proof.
  intros Hj Hk. destruct (frag j Hj) as (_ & _ & _ & _ & _ & -> & _). destruct (frag k Hk) as (_ & _ & _ & _ & _ & -> & _).
  pose proof (fr_len _ _ _ _ _ _ Hm). intros E%u32_close; lia.
Qed.

Lemma frag_fragmented j : (j < length m)%nat -> isFragmented (at_ j) = negb (length m =? 1)%nat.
Proof.
  intros Hj. unfold isFragmented. destruct (frag j Hj) as (_ & _ & _ & _ & _ & _ & -> & ->).
  pose proof (fr_len _ _ _ _ _ _ Hm).
  destruct (Nat.eqb_spec (length m) 1); repeat case_bool_decide; simpl; lia || done.
Qed.

(** Consecutive TSNs are consecutive fragments. *)
Lemma consecutive_seq j J :
  Forall (fun k => (k < length m)%nat) (j :: J) -> increasing (j :: J) ->
  consecutive tsn (tsn (at_ j)) (map at_ J) = true <-> J = seq (S j) (length J).
Proof.
  revert j. induction J as [|k J IH]; intros j Hlt Hs; [done|]. simpl.
  inversion Hlt as [|? ? Hj HJ]; subst. inversion HJ as [|? ? Hk HJ']; subst.
  inversion Hs as [|? ? Hs' Hjk]; subst. inversion Hjk as [|? ? Hjk' _]; subst.
  assert (E : (tsn (at_ k) =? tsn (at_ j) +32 1) = bool_decide (k = S j)).
  { destruct (frag j Hj) as (_ & _ & _ & _ & _ & -> & _). destruct (frag k Hk) as (_ & _ & _ & _ & _ & -> & _).
    rewrite u32_next. pose proof (fr_len _ _ _ _ _ _ Hm). apply eq_true_iff_eq. rewrite Z.eqb_eq, bool_decide_eq_true.
    split; [intros E%u32_close; lia|intros ->; f_equal; lia]. }
  rewrite E. case_bool_decide as Hk'; simpl.
  - subst k. rewrite IH by done. split; [by intros ->; rewrite length_seq|by intros [= ?]].
  - split; [done|]. intros [= ? _]. done.
Qed.

(** A set of fragments is complete when none is missing. *)
Lemma complete_all J s q :
  Forall (fun k => (k < length m)%nat) J -> increasing J ->
  isComplete (mkSet s q (map at_ J)) = bool_decide (J = seq 0 (length m)).
Proof.
  intros Hlt Hs. apply eq_true_iff_eq. rewrite bool_decide_eq_true. unfold isComplete. cbn [chunks].
  pose proof (fr_len _ _ _ _ _ _ Hm) as Hlen.
  destruct J as [|j J]; cbn [map].
  { split; [done|]. destruct (length m); [lia|done]. }
  assert (El : exists l, last (j :: J) = Some l /\ (l < length m)%nat).
  { destruct (last (j :: J)) as [l|] eqn:E; [|by apply last_None in E]. exists l. split; [done|].
    rewrite Forall_forall in Hlt. apply Hlt. by apply last_Some_elem_of. }
  destruct El as (l & El & Hl).
  assert (Elm : last (at_ j :: map at_ J) = Some (at_ l)).
  { transitivity (at_ <$> last (j :: J)); [rewrite <- fmap_last; reflexivity|by rewrite El]. }
  rewrite Elm. change (default (m !!! j) (Some (m !!! l))) with (m !!! l). inversion Hlt as [|? ? Hj HJ]; subst.
  destruct (frag j Hj) as (_ & _ & _ & _ & _ & _ & -> & _). destruct (frag l Hl) as (_ & _ & _ & _ & _ & _ & _ & ->).
  case_bool_decide as Hj0; simpl; [subst j|].
  2: { split; [done|]. intros E. destruct (length m); [done|]. by injection E. }
  pose proof (consecutive_seq 0 J Hlt Hs) as Hc.
  case_bool_decide as Hl'; simpl.
  - rewrite Hc. split; intros E.
    + assert (Hseq : 0%nat :: J = seq 0 (S (length J))) by (simpl; by f_equal).
      rewrite Hseq. f_equal. rewrite Hseq, seq_S, last_snoc in El. injection El as El. lia.
    + destruct (length m) as [|n]; [lia|]. injection E as ->. by rewrite length_seq.
  - split; [done|]. intros E. destruct Hl'. destruct (length m) as [|n] eqn:En; [lia|].
    rewrite E, seq_S, last_snoc in El. injection El as <-. lia.
Qed.

End Message.

(** ** Copying a message out *)

Definition total (cs : list payloadData) : Z := foldr (fun c n => userLen c + n) 0 cs.

Lemma total_nonneg cs : 0 <= total cs.
Proof. induction cs as [|c cs IH]; simpl; [lia|]. pose proof (zlen_nonneg (userData c)). unfold userLen. lia. Qed.

Lemma zlen_write buf n d : 0 <= n -> n + zlen d <= zlen buf -> zlen (write_at buf n d) = zlen buf.
Proof.
  intros Hn Hf. unfold write_at, zlen in *. rewrite !length_app, length_take, length_drop. lia.
Qed.

Lemma copy_flag cs buf n b :
  0 <= n -> (n <= zlen buf \/ b = true) ->
  exists buf', copyChunks cs buf n b = (buf', n + total cs, b || (zlen buf <? n + total cs)).
Proof.
  revert buf n b. induction cs as [|c cs IH]; intros buf n b Hn Hb; simpl.
  - exists buf. rewrite Z.add_0_r. f_equal. destruct b; [done|]. symmetry. apply Z.ltb_ge. naive_solver lia.
  - pose proof (total_nonneg cs). pose proof (zlen_nonneg (userData c)) as Hc. fold (userLen c) in Hc.
    destruct (Z.ltb_spec (zlen buf - n) (userLen c)) as [Hs|Hf].
    + destruct (IH buf (n + userLen c) true) as [buf' ->]; [lia|by right|]. exists buf'. f_equal; [f_equal; lia|].
      destruct b; [done|]. symmetry. apply Z.ltb_lt. lia.
    + assert (Hl : zlen (write_at buf n (userData c)) = zlen buf) by (apply zlen_write; unfold userLen in *; lia).
      destruct (IH (write_at buf n (userData c)) (n + userLen c) b) as [buf' ->]; [lia|rewrite Hl; lia|].
      exists buf'. rewrite Hl. f_equal; [f_equal; lia|]. do 2 f_equal. lia.
Qed.

Lemma take_write buf n d : 0 <= n -> n + zlen d <= zlen buf ->
  take (Z.to_nat (n + zlen d)) (write_at buf n d) = take (Z.to_nat n) buf ++ d.
Proof.
  intros Hn Hf. unfold write_at, zlen in *. rewrite app_assoc, take_app_le by (rewrite length_app, length_take; lia).
  rewrite take_ge; [done|]. rewrite length_app, length_take. lia.
Qed.

Lemma copy_fits cs buf n b :
  0 <= n -> n + total cs <= zlen buf ->
  exists buf', copyChunks cs buf n b = (buf', n + total cs, b)
    /\ take (Z.to_nat (n + total cs)) buf' = take (Z.to_nat n) buf ++ concat (map userData cs).
Proof.
  revert buf n. induction cs as [|c cs IH]; intros buf n Hn Hf; simpl in *.
  - exists buf. by rewrite Z.add_0_r, app_nil_r.
  - pose proof (total_nonneg cs). pose proof (zlen_nonneg (userData c)) as Hc. fold (userLen c) in Hc.
    destruct (Z.ltb_spec (zlen buf - n) (userLen c)) as [Hs|_]; [lia|].
    assert (Hl : zlen (write_at buf n (userData c)) = zlen buf) by (apply zlen_write; unfold userLen in *; lia).
    destruct (IH (write_at buf n (userData c)) (n + userLen c)) as (buf' & -> & Ht); [lia|rewrite Hl; lia|].
    exists buf'. split; [f_equal; f_equal; lia|]. rewrite Z.add_assoc, Ht. unfold userLen in *.
    by rewrite take_write, <- app_assoc by lia.
Qed.

(** What a read shows: the data, when there is no error. *)
Definition observe (x : readResult) : Z * Z * option rerr * list Z :=
  (r_n x, r_ppi x, r_err x, if r_err x is None then take (Z.to_nat (r_n x)) (r_buf x) else []).

(** Handing out the message with fragments [m]. *)
Definition handed (p : Z) (m : list payloadData) (buf : list Z) : Z * Z * option rerr * list Z :=
  if zlen buf <? total m then (total m, 0, Some ErrShortBuffer, [])
  else (total m, p, None, concat (map userData m)).

Lemma elem_of_insert_at x j l : x ∈ insert_at j l <-> x = j \/ x ∈ l.
Proof.
  unfold insert_at. rewrite elem_of_app, elem_of_cons, !list_elem_of_filter.
  destruct (Nat.lt_total x j) as [?|[?|?]]; naive_solver lia.
Qed.

Lemma increasing_insert_at j l : increasing l -> increasing (insert_at j l).
Proof.
  intros Hl. unfold insert_at.
  assert (Happ : forall A B, increasing A -> increasing B -> (forall a b, a ∈ A -> b ∈ B -> (a < b)%nat) -> increasing (A ++ B)).
  { induction 1 as [|x A HA IH Hx]; intros HB HAB; [done|]. simpl. constructor.
    - apply IH; [done|]. intros. apply HAB; [by right|done].
    - apply Forall_app. split; [done|]. apply Forall_forall. intros b Hb. apply HAB; [left|done]. }
  apply Happ; [by apply sorted_filter_nat| |].
  - constructor; [by apply sorted_filter_nat|]. apply Forall_forall. by intros x [? _]%list_elem_of_filter.
  - intros a b [Ha _]%list_elem_of_filter [->|[Hb _]%list_elem_of_filter]%elem_of_cons; lia.
Qed.

(** ** The receiver, abstractly *)

Section Delivery.
Context (sid : Z).
(** Message [i] of the ordered ones, from TSN [otsn i] on. *)
Context (omsg : nat -> list payloadData) (otsn oppi : nat -> Z).
(** The unordered chunk with (unwrapped) TSN [t]; message [k] has [ulen k] of
    them from [ustart k] on. *)
Context (uat : nat -> payloadData) (ustart ulen : nat -> nat) (useq uppi : nat -> Z).

Definition umsg (k : nat) : list payloadData := map uat (seq (ustart k) (ulen k)).

(** What the sender promises. *)
Record sender_ok : Prop := {
  so_ordered i : fragments sid false (u16 (Z.of_nat i)) (otsn i) (oppi i) (omsg i);
  so_unordered k : fragments sid true (useq k) (Z.of_nat (ustart k)) (uppi k) (umsg k);
  so_disjoint k : (ustart k + ulen k <= ustart (S k))%nat
}.

Record receiver := mkReceiver {
  next : nat;                   (* the next ordered message *)
  got : gset (nat * nat);       (* ordered fragments that came *)
  ugot : gset nat;              (* unordered TSNs that came *)
  ready : list nat              (* complete unordered messages, not yet read *)
}.

Definition full (a : receiver) (i : nat) : bool :=
  bool_decide (Forall (fun j => (i, j) ∈ got a) (seq 0 (length (omsg i)))).

Definition ufull (a : receiver) (k : nat) : bool :=
  bool_decide (Forall (fun t => t ∈ ugot a) (seq (ustart k) (ulen k))).

Inductive op := Arrive (i j : nat) | ArriveUnordered (k j : nat) | Read (buf : list Z).

Inductive outcome := Pushed (complete : bool) | Received (r : Z * Z * option rerr * list Z).

Definition astep (a : receiver) (o : op) : outcome * receiver :=
  match o with
  | Arrive i j =>
      let a' := mkReceiver (next a) (got a ∪ {[(i, j)]}) (ugot a) (ready a) in (Pushed (full a' i), a')
  | ArriveUnordered k j =>
      let a' := mkReceiver (next a) (got a) (ugot a ∪ {[(ustart k + j)%nat]}) (ready a) in
      (Pushed (ufull a' k),
       if ufull a' k then mkReceiver (next a') (got a') (ugot a') (ready a' ++ [k]) else a')
  | Read buf =>
      match ready a with
      | k :: ready' =>
          (Received (handed (uppi k) (umsg k) buf),
           if zlen buf <? total (umsg k) then a else mkReceiver (next a) (got a) (ugot a) ready')
      | [] =>
          if full a (next a) then
            (Received (handed (oppi (next a)) (omsg (next a)) buf),
             if zlen buf <? total (omsg (next a)) then a else mkReceiver (S (next a)) (got a) (ugot a) [])
          else (Received (0, 0, Some errTryAgain, []), a)
      end
  end.

(** A TSN waits when its message is not complete. *)
Definition pending (a : receiver) (t : nat) : Prop :=
  t ∈ ugot a /\ exists k j, (j < ulen k)%nat /\ t = (ustart k + j)%nat /\ ufull a k = false.

(** Chunks come once, ordered ones at most 2^15 messages ahead, unordered ones
    within 2^31 TSNs of those that wait. *)
Definition op_ok (a : receiver) (o : op) : Prop :=
  match o with
  | Arrive i j => (j < length (omsg i))%nat /\ (i, j) ∉ got a /\ Z.of_nat i < Z.of_nat (next a) + 2 ^ 15
  | ArriveUnordered k j =>
      (j < ulen k)%nat /\ (ustart k + j)%nat ∉ ugot a
      /\ forall t, pending a t -> Z.abs (Z.of_nat t - Z.of_nat (ustart k + j)) < 2 ^ 31
  | Read _ => True
  end.

(** The queue. *)
Definition cstep (r : reassemblyQueue) (o : op) : outcome * reassemblyQueue :=
  match o with
  | Arrive i j => let (c, r') := push r (omsg i !!! j) in (Pushed c, r')
  | ArriveUnordered k j => let (c, r') := push r (uat (ustart k + j)) in (Pushed c, r')
  | Read buf => let (x, r') := read r buf in (Received (observe x), r')
  end.

Fixpoint arun (a : receiver) (ops : list op) : list outcome * receiver :=
  match ops with
  | [] => ([], a)
  | o :: ops' => let (x, a1) := astep a o in let (xs, a2) := arun a1 ops' in (x :: xs, a2)
  end.

Fixpoint crun (r : reassemblyQueue) (ops : list op) : list outcome * reassemblyQueue :=
  match ops with
  | [] => ([], r)
  | o :: ops' => let (x, r1) := cstep r o in let (xs, r2) := crun r1 ops' in (x :: xs, r2)
  end.

Fixpoint ops_ok (a : receiver) (ops : list op) : Prop :=
  match ops with [] => True | o :: ops' => op_ok a o /\ ops_ok (astep a o).2 ops' end.

(** *** Representation *)

Definition here (a : receiver) (i : nat) : list nat := filter (fun j => (i, j) ∈ got a) (seq 0 (length (omsg i))).

Definition oset (a : receiver) (i : nat) : chunkSet :=
  mkSet (u16 (Z.of_nat i)) (oppi i) (map (fun j => omsg i !!! j) (here a i)).

Definition uset (k : nat) : chunkSet := mkSet 0 (uppi k) (umsg k).

Record represents (a : receiver) (r : reassemblyQueue) : Prop := {
  re_si : si r = sid;
  re_mode : useInterleaving r = false;
  re_next : nextSSN r = u16 (Z.of_nat (next a));
  re_ready : unordered_ r = map uset (ready a);
  re_past i : (i < next a)%nat -> full a i = true;
  re_ahead i j : (i, j) ∈ got a -> Z.of_nat i < Z.of_nat (next a) + 2 ^ 15;
  re_ordered : exists I, increasing I /\ (forall i, i ∈ I <-> (next a <= i)%nat /\ here a i <> [])
                 /\ ordered r = map (oset a) I;
  re_unordered : exists U, increasing U /\ (forall t, t ∈ U <-> pending a t) /\ unorderedChunks r = map uat U;
  re_window t t' : pending a t -> pending a t' -> Z.abs (Z.of_nat t - Z.of_nat t') < 2 ^ 31
}.
Context (Hso : sender_ok).

(** *** Ordered messages *)

Lemma here_spec a i j : j ∈ here a i <-> (j < length (omsg i))%nat /\ (i, j) ∈ got a.
Proof. unfold here. rewrite list_elem_of_filter, elem_of_seq. naive_solver lia. Qed.

Lemma here_bound a i : Forall (fun k => (k < length (omsg i))%nat) (here a i).
Proof. apply Forall_forall. by intros j [? _]%here_spec. Qed.

Lemma here_increasing a i : increasing (here a i).
Proof. apply sorted_filter_nat, sorted_seq. Qed.

Lemma full_spec a i : full a i = true <-> forall j, (j < length (omsg i))%nat -> (i, j) ∈ got a.
Proof.
  unfold full. rewrite bool_decide_eq_true, Forall_forall. setoid_rewrite elem_of_seq.
  split; intros H j Hj; apply H; lia.
Qed.

Lemma full_here a i : full a i = bool_decide (here a i = seq 0 (length (omsg i))).
Proof.
  unfold full. apply bool_decide_ext. rewrite Forall_forall. unfold here. split.
  - intros H. by apply filter_all.
  - intros H x Hx. rewrite <- H in Hx. by apply list_elem_of_filter in Hx as [? _].
Qed.

Lemma oset_complete a i : isComplete (oset a i) = full a i.
Proof.
  rewrite full_here. apply (complete_all _ _ _ _ _ _ (so_ordered Hso i)); [apply here_bound|apply here_increasing].
Qed.

Section Arrive.
Context (a : receiver) (i j : nat) (Hj : (j < length (omsg i))%nat) (Hnew : (i, j) ∉ got a).
Let a' := mkReceiver (next a) (got a ∪ {[(i, j)]}) (ugot a) (ready a).

Lemma here_add : here a' i = insert_at j (here a i).
Proof.
  unfold here. apply (filter_add (fun j => (i, j) ∈ got a)); [lia|done|]. intros x. simpl. set_solver.
Qed.

Lemma here_other i' : i' <> i -> here a' i' = here a i'.
Proof. intros Hi. unfold here. apply filter_ext_in. intros x _. simpl. set_solver. Qed.

Lemma oset_other i' : i' <> i -> oset a' i' = oset a i'.
Proof. intros Hi. unfold oset. by rewrite here_other. Qed.

Lemma set_push_here : set_push (oset a i) (omsg i !!! j) = (full a' i, oset a' i).
Proof.
  pose proof (so_ordered Hso i) as Hm. unfold set_push.
  assert (Hdup : existsb (fun c => tsn c =? tsn (omsg i !!! j)) (chunks (oset a i)) = false).
  { apply not_true_is_false. rewrite existsb_exists. intros (c & Hc & E%Z.eqb_eq). simpl in Hc.
    apply in_map_iff in Hc as (k & <- & Hk%list_elem_of_In%here_spec).
    assert (k = j) as -> by (apply (frag_tsn_eq _ _ _ _ _ _ Hm); tauto). tauto. }
  rewrite Hdup. simpl. unfold sortChunksByTSN.
  rewrite (sort_insert _ (fun k => omsg i !!! k)).
  - rewrite <- here_add. change (mkSet (u16 (Z.of_nat i)) (oppi i) (map (fun k => omsg i !!! k) (here a' i))) with (oset a' i).
    by rewrite oset_complete.
  - apply here_increasing.
  - rewrite here_spec. tauto.
  - intros x y Hx Hy. apply (frag_tsn_lt _ _ _ _ _ _ Hm).
    + apply elem_of_cons in Hx as [->|[? _]%here_spec]; done.
    + apply elem_of_cons in Hy as [->|[? _]%here_spec]; done.
Qed.

(** The SSNs of the messages in the window are distinct. *)
Lemma push_found I :
  increasing I -> i ∈ I -> (forall k, k ∈ I -> Z.abs (Z.of_nat k - Z.of_nat i) < 2 ^ 16) -> here a i <> [] ->
  pushToSet (map (oset a) I) (omsg i !!! j) = Some (full a' i, map (oset a') I).
Proof.
  pose proof (so_ordered Hso i) as Hm. intros HI Hin Hw Hne.
  destruct (frag _ _ _ _ _ _ Hm j Hj) as (_ & _ & _ & Hssn & _).
  induction HI as [|k I HI IH Hk]; [by apply not_elem_of_nil in Hin|]. cbn [map pushToSet].
  cbn [ssn oset]. rewrite Hssn. destruct (decide (k = i)) as [->|Hki].
  - rewrite Z.eqb_refl. cbn [chunks oset].
    destruct (here a i) as [|x l] eqn:Eh; [done|]. cbn [map andb].
    assert (Hx : x ∈ here a i) by (rewrite Eh; left). apply here_spec in Hx as [Hx Hgx].
    assert (Hxj : x <> j) by (intros ->; done).
    rewrite (frag_fragmented _ _ _ _ _ _ Hm x Hx). destruct (Nat.eqb_spec (length (omsg i)) 1) as [E1|_]; [lia|]. cbn [negb].
    rewrite set_push_here. f_equal. f_equal. f_equal. apply map_ext_in. intros k Hk'%list_elem_of_In.
    symmetry. apply oset_other. rewrite Forall_forall in Hk. specialize (Hk k Hk'). lia.
  - assert (Hne' : (u16 (Z.of_nat k) =? u16 (Z.of_nat i)) = false).
    { apply Z.eqb_neq. intros E%u16_close; [lia|]. apply Hw. left. }
    rewrite Hne'. cbn [andb]. apply elem_of_cons in Hin as [?|Hin]; [congruence|].
    rewrite IH; [|done|intros; apply Hw; by right]. simpl. by rewrite oset_other.
Qed.

Lemma push_missing I :
  i ∉ I -> (forall k, k ∈ I -> Z.abs (Z.of_nat k - Z.of_nat i) < 2 ^ 16) ->
  pushToSet (map (oset a) I) (omsg i !!! j) = None.
Proof.
  pose proof (so_ordered Hso i) as Hm. intros Hin Hw. destruct (frag _ _ _ _ _ _ Hm j Hj) as (_ & _ & _ & Hssn & _).
  induction I as [|k I IH]; [done|]. cbn [map pushToSet ssn oset]. rewrite Hssn.
  assert (Hne' : (u16 (Z.of_nat k) =? u16 (Z.of_nat i)) = false).
  { apply Z.eqb_neq. intros E%u16_close; [set_solver by lia|]. apply Hw. left. }
  rewrite Hne'. cbn [andb]. rewrite IH; [done|set_solver|]. intros; apply Hw; by right.
Qed.

End Arrive.

Lemma arrive_ahead a r i j : represents a r -> op_ok a (Arrive i j) -> (next a <= i)%nat.
Proof.
  intros Hr (Hj & Hn & _). destruct (decide (i < next a)%nat) as [Hi|Hi]; [|lia].
  by destruct Hn; apply (proj1 (full_spec a i) (re_past _ _ Hr i Hi)).
Qed.

Lemma ordered_window a r i j k :
  represents a r -> op_ok a (Arrive i j) -> (next a <= k)%nat -> here a k <> [] ->
  Z.abs (Z.of_nat k - Z.of_nat i) < 2 ^ 15.
Proof.
  intros Hr Hok Hk Hne. pose proof (arrive_ahead a r i j Hr Hok). destruct Hok as (_ & _ & Hi).
  destruct (here a k) as [|x l] eqn:E; [done|]. assert (Hx : x ∈ here a k) by (rewrite E; left).
  apply here_spec in Hx as [_ Hx]. pose proof (re_ahead _ _ Hr _ _ Hx). lia.
Qed.

(** The messages that have a set, and the set of message [i] afterwards. *)
Lemma pushOrdered_sets a r i j I :
  represents a r -> op_ok a (Arrive i j) ->
  increasing I -> (forall i, i ∈ I <-> (next a <= i)%nat /\ here a i <> []) -> ordered r = map (oset a) I ->
  let a' := mkReceiver (next a) (got a ∪ {[(i, j)]}) (ugot a) (ready a) in
  exists I', pushOrdered r (omsg i !!! j) =
      (full a' i, with_data r (nextSSN r) (map (oset a') I') (unordered_ r) (unorderedChunks r)
                    (addNumBytes (nBytes r) (omsg i !!! j)))
    /\ increasing I' /\ forall k, k ∈ I' <-> k = i \/ k ∈ I.
Proof.
  intros Hr Hok HI HIspec EI a'. pose proof Hok as (Hj & Hnew & Hahead). pose proof (arrive_ahead a r i j Hr Hok) as Hge.
  pose proof (so_ordered Hso i) as Hm. destruct (frag _ _ _ _ _ _ Hm j Hj) as (_ & _ & _ & Hssn & Hppi & _).
  assert (Hw : forall k, k ∈ I -> Z.abs (Z.of_nat k - Z.of_nat i) < 2 ^ 16).
  { intros k [H1 H2]%HIspec. pose proof (ordered_window a r i j k Hr Hok H1 H2). lia. }
  unfold pushOrdered. rewrite Hssn, (re_next _ _ Hr), sna16LT_close by lia.
  destruct (Z.ltb_spec (Z.of_nat i) (Z.of_nat (next a))) as [?|_]; [lia|].
  destruct (here a i) as [|x l] eqn:Eh.
  - assert (Hni : i ∉ I) by (intros [_ ?]%HIspec; congruence).
    assert (Ef : (if isFragmented (omsg i !!! j) then pushToSet (ordered r) (omsg i !!! j) else None) = None).
    { destruct (isFragmented _); [|done]. rewrite EI. by apply push_missing. }
    assert (Es : newChunkSet (u16 (Z.of_nat i)) (payloadType (omsg i !!! j)) = oset a i) by (unfold oset; by rewrite Eh, Hppi).
    rewrite Ef, Es, set_push_here by done. exists (insert_at i I).
    split; [|split; [by apply increasing_insert_at|intros; apply elem_of_insert_at]]. do 2 f_equal.
    rewrite EI. assert (Eo : map (oset a) I = map (oset a') I).
    { apply map_ext_in. intros k Hk%list_elem_of_In. symmetry. apply (oset_other a i j Hj Hnew). by intros ->. }
    rewrite Eo. unfold sortChunksBySSN. rewrite (sort_insert _ (oset a') I i HI Hni); [done|].
    intros b c Hb Hc. cbn [ssn oset].
    assert (Hk : forall k, k ∈ i :: I -> (next a <= k)%nat /\ Z.of_nat k < Z.of_nat (next a) + 2 ^ 15).
    { intros k [->|[H1 H2]%HIspec]%elem_of_cons; [done|]. split; [done|].
      destruct (here a k) as [|y l] eqn:Ek; [done|]. assert (Hy : y ∈ here a k) by (rewrite Ek; left).
      apply here_spec in Hy as [_ Hy]. by apply (re_ahead _ _ Hr k y). }
    pose proof (Hk b Hb). pose proof (Hk c Hc). rewrite sna16LT_close by lia.
    destruct (Nat.ltb_spec b c), (Z.ltb_spec (Z.of_nat b) (Z.of_nat c)); lia.
  - assert (Hx : x ∈ here a i) by (rewrite Eh; left). apply here_spec in Hx as [Hx Hgx].
    assert (Hin : i ∈ I) by (apply HIspec; by rewrite Eh).
    rewrite (frag_fragmented _ _ _ _ _ _ Hm j Hj). destruct (Nat.eqb_spec (length (omsg i)) 1) as [E1|_].
    { exfalso. assert (x = j) as -> by lia. done. }
    cbn [negb]. rewrite EI, (push_found a i j Hj Hnew I) by (done || by rewrite Eh). exists I. split; [done|].
    split; [done|]. intros k. split; [by right|]. by intros [->|].
Qed.

Lemma step_arrive a r i j :
  represents a r -> op_ok a (Arrive i j) ->
  (cstep r (Arrive i j)).1 = (astep a (Arrive i j)).1 /\ represents (astep a (Arrive i j)).2 (cstep r (Arrive i j)).2.
Proof.
  intros Hr Hok. pose proof Hok as (Hj & Hnew & Hahead). pose proof (arrive_ahead a r i j Hr Hok) as Hge.
  destruct (frag _ _ _ _ _ _ (so_ordered Hso i) j Hj) as (Hsid & Hun & Hid & _).
  pose proof Hr as [Esi Emode Enext Eready Hpast Haheads (I & HI & HIspec & EI) (U & HU) Hwin].
  destruct (pushOrdered_sets a r i j I Hr Hok HI HIspec EI) as (I' & Hpush & HI' & HI'spec).
  set (a' := mkReceiver (next a) (got a ∪ {[(i, j)]}) (ugot a) (ready a)) in *.
  unfold cstep, astep, push, pushWithError. rewrite Hid, Hsid, Esi, Z.eqb_refl, Hun, Hpush. split; [done|].
  constructor; simpl; try done.
  - intros k Hk. apply full_spec. intros x Hx. simpl. apply elem_of_union_l. by apply (proj1 (full_spec a k) (Hpast k Hk)).
  - intros k x [Hx|[= -> ->]%elem_of_singleton]%elem_of_union; [by eapply Haheads|done].
  - exists I'. split; [done|]. split; [|done]. intros k. rewrite HI'spec. destruct (decide (k = i)) as [->|Hk].
    + split; [|by left]. intros _. split; [done|]. unfold a'. rewrite (here_add a i j Hj Hnew). unfold insert_at. by destruct (filter _ _).
    + unfold a'. rewrite (here_other a i j Hj Hnew k Hk), <- HIspec. naive_solver.
  - by exists U.
Qed.

(** *** Unordered messages *)

Definition owner (t k : nat) : Prop := (ustart k <= t < ustart k + ulen k)%nat.

Lemma ustart_mono k k' : (k < k')%nat -> (ustart k + ulen k <= ustart k')%nat.
Proof.
  induction 1 as [|k' Hk IH]; [apply Hso|]. pose proof (so_disjoint Hso k'). lia.
Qed.

Lemma owner_unique t k k' : owner t k -> owner t k' -> k = k'.
Proof.
  unfold owner. intros H1 H2. destruct (Nat.lt_total k k') as [H|[H|H]]; [|done|]; apply ustart_mono in H; lia.
Qed.

Lemma ulen_pos k : (0 < ulen k)%nat.
Proof. pose proof (fr_len _ _ _ _ _ _ (so_unordered Hso k)) as H. unfold umsg in H. rewrite length_map, length_seq in H. lia. Qed.

Lemma uchunk t k : owner t k ->
  streamIdentifier (uat t) = sid /\ unordered (uat t) = true /\ iData (uat t) = false /\ tsn (uat t) = u32 (Z.of_nat t)
  /\ payloadType (uat t) = uppi k /\ beginningFragment (uat t) = bool_decide (t = ustart k)
  /\ endingFragment (uat t) = bool_decide (S t = (ustart k + ulen k)%nat).
Proof.
  intros [H1 H2]. assert (Hl : umsg k !! (t - ustart k)%nat = Some (uat t)).
  { unfold umsg. change (map uat (seq (ustart k) (ulen k))) with (uat <$> seq (ustart k) (ulen k)).
    rewrite list_lookup_fmap, lookup_seq_lt by lia. simpl. do 2 f_equal. lia. }
  destruct (fr_at _ _ _ _ _ _ (so_unordered Hso k) _ _ Hl) as (E1 & E2 & E3 & _ & E5 & E6 & E7 & E8).
  unfold umsg in E8. rewrite length_map, length_seq in E8. rewrite E1, E2, E3, E5, E6, E7, E8.
  repeat (split; [done|]). split; [f_equal; lia|]. split; [done|]. split; apply bool_decide_ext; lia.
Qed.

(** The end of an increasing list that holds an interval up to its last element. *)
Lemma increasing_suffix V t n :
  increasing (V ++ [t]) -> (forall x, (t - n <= x <= t)%nat -> x ∈ V ++ [t]) -> (n <= t)%nat ->
  exists V0, V = V0 ++ seq (t - n) n.
Proof.
  revert V t. induction n as [|n IH]; intros V t Hs Hin Hn; [exists V; simpl; by rewrite app_nil_r|].
  destruct (sorted_app_inv _ _ _ Hs) as [HV Hlt]. rewrite Forall_forall in Hlt.
  assert (Hp : (t - 1)%nat ∈ V).
  { assert (H : (t - 1)%nat ∈ V ++ [t]) by (apply Hin; lia). apply elem_of_app in H as [H|H%list_elem_of_singleton]; [done|lia]. }
  destruct V as [|y V] using rev_ind; [by apply not_elem_of_nil in Hp|]. clear IHV.
  destruct (sorted_app_inv _ _ _ HV) as [HV' Hlt']. rewrite Forall_forall in Hlt'.
  assert (y = (t - 1)%nat) as ->.
  { pose proof (Hlt y ltac:(set_solver)). apply elem_of_app in Hp as [Hp|Hp%list_elem_of_singleton]; [|done].
    specialize (Hlt' _ Hp). lia. }
  destruct (IH V (t - 1)%nat HV) as [V0 ->]; [|lia|].
  - intros x Hx. assert (H : x ∈ (V ++ [(t - 1)%nat]) ++ [t]) by (apply Hin; lia).
    apply elem_of_app in H as [H|H%list_elem_of_singleton]; [done|lia].
  - exists V0. rewrite <- app_assoc. f_equal. replace (t - S n)%nat with (t - 1 - n)%nat by lia.
    rewrite seq_S. do 3 f_equal. lia.
Qed.

(** Where the loop stands after the TSNs [V]: it is [n] chunks into a message
    that started at index [s], or in none. *)
Definition inside (V : list nat) (k n : nat) : Prop :=
  (0 < n < ulen k)%nat /\ exists V0, V = V0 ++ seq (ustart k) n.

Definition standing (V : list nat) (start : option nat) (n : nat) (lastTSN : Z) : Prop :=
  match start with
  | None => forall k m, ~ inside V k m
  | Some s => exists V0 k, (0 < n < ulen k)%nat /\ V = V0 ++ seq (ustart k) n /\ length V0 = s
                /\ lastTSN = u32 (Z.of_nat (ustart k + n) - 1)
  end.

Lemma inside_snoc V t k m : inside (V ++ [t]) k m -> t = ustart k \/ (inside V k (m - 1) /\ (t = ustart k + m - 1)%nat).
Proof.
  intros [Hm [V0 E]]. destruct m as [|m]; [lia|]. rewrite seq_S, app_assoc in E. apply app_inj_tail in E as [-> ->].
  destruct m as [|m]; [left; lia|]. right. split; [|lia]. split; [lia|]. exists V0. by replace (S (S m) - 1)%nat with (S m) by lia.
Qed.

Lemma inside_last V k m : inside V k m -> last V = Some (ustart k + m - 1)%nat.
Proof.
  intros [Hm [V0 ->]]. destruct m as [|m]; [lia|]. rewrite seq_S, app_assoc, last_snoc. f_equal. lia.
Qed.

(** A message whose last chunk is [t] and that is all there was being read. *)
Lemma all_there V t L k :
  increasing (V ++ t :: L) -> owner t k -> t <> ustart k -> (forall x, owner x k -> (x <= t)%nat -> x ∈ V ++ t :: L) ->
  inside V k (t - ustart k).
Proof.
  intros Hs [H1 H2] Hne Hall. assert (Hs' : increasing (V ++ [t]) /\ forall x, (x <= t)%nat -> x ∈ V ++ t :: L -> x ∈ V ++ [t]).
  { clear -Hs. revert Hs. induction V as [|y V IH]; simpl; intros Hs; inversion Hs as [|? ? H1 H2]; subst.
    - split; [by repeat constructor|]. rewrite Forall_forall in H2. intros x Hx [->|Hx']%elem_of_cons; [left|]. specialize (H2 x Hx'). lia.
    - destruct (IH H1) as [H3 H4]. split.
      + constructor; [done|]. rewrite Forall_forall in *. intros x Hx. apply H2. set_solver.
      + intros x Hx [->|Hx']%elem_of_cons; [left|right; by apply H4]. }
  destruct Hs' as [Hs' Hin]. destruct (increasing_suffix V t (t - ustart k) Hs') as [V0 ->]; [|lia|].
  - intros x Hx. apply Hin; [lia|]. apply Hall; [|lia]. unfold owner. lia.
  - split; [lia|]. exists V0. f_equal. f_equal. lia.
Qed.

(** What the scan finds is a whole message; when it finds none, none is there. *)
Definition scanned (V L : list nat) (x : option (nat * nat)) : Prop :=
  match x with
  | Some (s, n) => exists V0 k W, V ++ L = V0 ++ seq (ustart k) (ulen k) ++ W /\ length V0 = s /\ n = ulen k
  | None => forall k, (forall t, owner t k -> t ∈ V ++ L) -> (ustart k + ulen k - 1)%nat ∈ V
  end.

Lemma scanned_skip V t L k0 x :
  owner t k0 -> (S t = (ustart k0 + ulen k0)%nat -> (forall t', owner t' k0 -> t' ∈ V ++ t :: L) -> False) ->
  scanned (V ++ [t]) L x -> scanned V (t :: L) x.
Proof.
  intros Ht Hend Hx. destruct x as [[s n]|]; simpl in *.
  - destruct Hx as (V0 & k & W & E & Hs & Hn). exists V0, k, W. by rewrite <- E, <- app_assoc.
  - intros k Hall. assert (Hin : (ustart k + ulen k - 1)%nat ∈ V ++ [t]).
    { apply Hx. intros t' Ht'. rewrite <- app_assoc. by apply Hall. }
    apply elem_of_app in Hin as [?|Hin%list_elem_of_singleton]; [done|]. exfalso.
    pose proof (ulen_pos k). assert (k = k0) as -> by (apply (owner_unique t); [unfold owner; lia|done]).
    apply Hend; [lia|done].
Qed.

Lemma findRange_spec L V start n lastTSN :
  increasing (V ++ L) -> (forall t, t ∈ V ++ L -> exists k, owner t k) ->
  (forall t t', t ∈ V ++ L -> t' ∈ V ++ L -> Z.abs (Z.of_nat t - Z.of_nat t') < 2 ^ 31) ->
  standing V start n lastTSN ->
  scanned V L (findRange (map uat L) (length V) start n lastTSN).
Proof.
  revert V start n lastTSN. induction L as [|t L IH]; intros V start n lastTSN Hs Ho Hw Hst; simpl.
  { intros k Hall. rewrite app_nil_r in Hall. apply Hall. pose proof (ulen_pos k). unfold owner. lia. }
  destruct (Ho t ltac:(set_solver)) as [k0 Hk0].
  destruct (uchunk t k0 Hk0) as (_ & _ & _ & Etsn & _ & -> & ->). rewrite Etsn.
  assert (Hgo : forall st m lst, standing (V ++ [t]) st m lst ->
    scanned (V ++ [t]) L (findRange (map uat L) (S (length V)) st m lst)).
  { intros st m lst Hst'. replace (S (length V)) with (length (V ++ [t])) by (rewrite length_app; simpl; lia).
    apply IH; rewrite <- ?app_assoc; done. }
  case_bool_decide as Hb.
  { case_bool_decide as He.
    - exists V, k0, L. replace (ulen k0) with 1%nat by lia. subst t. done.
    - apply (scanned_skip _ _ _ k0); [done|done|]. apply Hgo. exists V, k0. destruct Hk0. split; [lia|]. subst t. split; [done|].
      split; [done|]. f_equal. lia. }
  destruct start as [s|].
  - destruct Hst as (V0 & k & Hn & EV & Es & El).
    assert (Hins : inside V k n) by (split; [done|by exists V0]).
    assert (Hlast : (ustart k + n - 1)%nat ∈ V).
    { rewrite EV. apply elem_of_app. right. apply elem_of_seq. lia. }
    assert (E : (u32 (Z.of_nat t) =? lastTSN +32 1) = bool_decide (t = (ustart k + n)%nat)).
    { rewrite El, u32_next. apply eq_true_iff_eq. rewrite Z.eqb_eq, bool_decide_eq_true. split; [|intros ->; f_equal; lia].
      pose proof (Hw t (ustart k + n - 1)%nat ltac:(set_solver) ltac:(set_solver)). intros E'%u32_close; lia. }
    rewrite E. case_bool_decide as Ht; cbn [negb].
    + assert (k0 = k) as -> by (apply (owner_unique t); [done|unfold owner; lia]).
      case_bool_decide as He.
      * exists V0, k, L. replace (ulen k) with (S n) by lia. rewrite seq_S, EV, Ht, <- !app_assoc. done.
      * apply (scanned_skip _ _ _ k); [done|done|]. apply Hgo. exists V0, k. split; [lia|].
        split; [rewrite seq_S, EV, Ht, <- app_assoc; done|]. split; [done|]. f_equal. lia.
    + assert (Hno : forall k' m, inside V k' m -> t <> (ustart k' + m)%nat).
      { intros k' m Hi Et. pose proof (inside_last _ _ _ Hi) as E1. pose proof (inside_last _ _ _ Hins) as E2. destruct Hi as [? _].
        rewrite E1 in E2. injection E2 as E2. lia. }
      apply (scanned_skip _ _ _ k0); [done| |].
      * intros _ Hall. apply (Hno k0 (t - ustart k0)%nat); [|destruct Hk0; lia].
        apply (all_there V t L); [done..|]. intros. by apply Hall.
      * apply Hgo. intros k' m [->|[Hi Et]]%inside_snoc; [|destruct Hi as [? ?]; apply (Hno k' (m - 1)%nat); [done|lia]].
        assert (k' = k0) as -> by (apply (owner_unique (ustart k')); [pose proof (ulen_pos k'); unfold owner; lia|done]). done.
  - apply (scanned_skip _ _ _ k0); [done| |].
    + intros _ Hall. apply (Hst k0 (t - ustart k0)%nat). apply (all_there V t L); [done..|]. intros. by apply Hall.
    + apply Hgo. intros k' m [->|[Hi _]]%inside_snoc; [|by apply (Hst k' (m - 1)%nat)].
      assert (k' = k0) as -> by (apply (owner_unique (ustart k')); [pose proof (ulen_pos k'); unfold owner; lia|done]). done.
Qed.

Lemma ufull_spec a k : ufull a k = true <-> forall t, owner t k -> t ∈ ugot a.
Proof.
  unfold ufull, owner. rewrite bool_decide_eq_true, Forall_forall. setoid_rewrite elem_of_seq. done.
Qed.

Lemma pending_spec a t k : owner t k -> pending a t <-> t ∈ ugot a /\ ufull a k = false.
Proof.
  intros Ho. unfold pending. split; intros [Ht H]; (split; [done|]).
  - destruct H as (k' & j & Hj & -> & Hf). assert (k = k') as -> by (apply (owner_unique (ustart k' + j)); [done|unfold owner; lia]). done.
  - exists k, (t - ustart k)%nat. unfold owner in Ho. repeat split; [lia|lia|done].
Qed.

Lemma pending_owner a t : pending a t -> exists k, owner t k.
Proof. intros (_ & k & j & Hj & -> & _). exists k. unfold owner. lia. Qed.

Section ArriveUnordered.
Context (a : receiver) (k j : nat) (Hj : (j < ulen k)%nat) (Hnew : (ustart k + j)%nat ∉ ugot a).
Let t0 := (ustart k + j)%nat.
Let a1 := mkReceiver (next a) (got a) (ugot a ∪ {[t0]}) (ready a).

Lemma t0_owner : owner t0 k.
Proof. unfold owner, t0. lia. Qed.

Lemma before_not_full : ufull a k = false.
Proof.
  apply not_true_is_false. rewrite ufull_spec. intros H. by apply Hnew, H, t0_owner.
Qed.

(** Only the message of the new chunk can be complete now. *)
Lemma whole_iff (U : list nat) k' :
  (forall t, t ∈ U <-> t = t0 \/ pending a t) ->
  (forall t, owner t k' -> t ∈ U) <-> k' = k /\ ufull a1 k = true.
Proof.
  intros HU. rewrite ufull_spec. simpl. split.
  - intros Hall. destruct (decide (k' = k)) as [->|Hne].
    + split; [done|]. intros t Ht. destruct (proj1 (HU t) (Hall t Ht)) as [->|[H _]]; set_solver.
    + exfalso. assert (Hp : forall t, owner t k' -> t ∈ ugot a /\ ufull a k' = false).
      { intros t Ht. destruct (proj1 (HU t) (Hall t Ht)) as [->|H]; [|by apply pending_spec].
        destruct Hne. apply (owner_unique t0); [done|apply t0_owner]. }
      pose proof (ulen_pos k'). destruct (Hp (ustart k')) as [_ Hf]; [unfold owner; lia|].
      rewrite (proj2 (ufull_spec a k')) in Hf; [done|]. intros t Ht. by apply Hp.
  - intros [-> Hf] t Ht. apply HU. destruct (decide (t = t0)) as [->|Hne]; [by left|]. right.
    apply (pending_spec a t k Ht). split; [|apply before_not_full]. specialize (Hf t Ht). set_solver.
Qed.

Lemma pending_after t : pending a1 t <-> (t = t0 \/ pending a t) /\ ~ (owner t k /\ ufull a1 k = true).
Proof.
  assert (Hf : forall k', k' <> k -> ufull a1 k' = ufull a k').
  { intros k' Hne. apply eq_true_iff_eq. rewrite !ufull_spec. simpl. split; intros H t' Ht'; specialize (H t' Ht');
      [|set_solver]. apply elem_of_union in H as [H|H%elem_of_singleton]; [done|]. subst t'. destruct Hne.
    apply (owner_unique t0); [done|apply t0_owner]. }
  split.
  - intros H. destruct (pending_owner _ _ H) as [k' Ho]. pose proof (proj1 (pending_spec a1 t k' Ho) H) as [Ht Hk'].
    destruct (decide (k' = k)) as [->|Hne].
    + split; [|intros [_ ?]; congruence]. simpl in Ht. apply elem_of_union in Ht as [Ht|Ht%elem_of_singleton]; [|by left].
      right. apply (pending_spec a t k Ho). split; [done|apply before_not_full].
    + split.
      * simpl in Ht. apply elem_of_union in Ht as [Ht|Ht%elem_of_singleton]; [|by left]. right.
        apply (pending_spec a t k' Ho). by rewrite <- Hf.
      * intros [Ho' _]. destruct Hne. by apply (owner_unique t).
  - intros [[->|H] Hno].
    + apply (pending_spec a1 t0 k t0_owner). split; [simpl; set_solver|]. apply not_true_is_false. intros E. apply Hno.
      split; [apply t0_owner|done].
    + destruct (pending_owner _ _ H) as [k' Ho]. pose proof (proj1 (pending_spec a t k' Ho) H) as [Ht Hk'].
      apply (pending_spec a1 t k' Ho). split; [simpl; set_solver|]. destruct (decide (k' = k)) as [->|Hne]; [|by rewrite Hf].
      apply not_true_is_false. intros E. by apply Hno.
Qed.

Lemma find_found U :
  increasing U -> (forall t, t ∈ U <-> t = t0 \/ pending a t) ->
  (forall t t', t ∈ U -> t' ∈ U -> Z.abs (Z.of_nat t - Z.of_nat t') < 2 ^ 31) ->
  if ufull a1 k then exists V W, U = V ++ seq (ustart k) (ulen k) ++ W
                     /\ findCompleteUnorderedChunkSet (map uat U) = Some (uset k, map uat (V ++ W))
  else findCompleteUnorderedChunkSet (map uat U) = None.
Proof.
  intros Hs HU Hw. pose proof (findRange_spec U [] None 0 0 Hs) as H. simpl in H.
  assert (Ho : forall t, t ∈ U -> exists k, owner t k).
  { intros t [->|Hp]%HU; [exists k; apply t0_owner|by eapply pending_owner]. }
  specialize (H Ho Hw ltac:(intros k' m [? [V0 E]]; destruct V0, m; simpl in E; done || lia)).
  assert (Hwhole : forall V k' W, U = V ++ seq (ustart k') (ulen k') ++ W -> k' = k /\ ufull a1 k = true).
  { intros V k' W E. apply (whole_iff U k' HU). intros t Ht. rewrite E. apply elem_of_app. right. apply elem_of_app. left.
    apply elem_of_seq. done. }
  unfold findCompleteUnorderedChunkSet. destruct (findRange _ _ _ _ _) as [[s n]|]; simpl in H.
  - destruct H as (V & k' & W & E & Hls & ->). destruct (Hwhole V k' W E) as [-> ->]. exists V, W. split; [done|].
    assert (Em : map uat U = map uat V ++ umsg k ++ map uat W) by (rewrite E, !map_app; done).
    assert (Hlv : length (map uat V) = s) by (by rewrite length_map).
    assert (Hlm : length (umsg k) = ulen k) by (unfold umsg; by rewrite length_map, length_seq).
    rewrite Em, drop_app_length', take_app_length' by (done || lia). rewrite take_app_length', app_assoc by done.
    rewrite drop_app_length' by (rewrite length_app; lia). rewrite map_app. f_equal. f_equal. unfold uset. f_equal.
    pose proof (ulen_pos k). unfold umsg. destruct (ulen k) as [|m] eqn:El; [lia|]. simpl.
    by destruct (uchunk (ustart k) k) as (_ & _ & _ & _ & -> & _); [unfold owner; lia|].
  - destruct (ufull a1 k) eqn:Ef; [|done]. exfalso.
    apply (not_elem_of_nil (ustart k + ulen k - 1)%nat). apply H. by apply (whole_iff U k HU).
Qed.

End ArriveUnordered.

Lemma increasing_cut A (B C : list nat) :
  increasing (A ++ B ++ C) -> increasing (A ++ C) /\ forall t, t ∈ A ++ C <-> t ∈ A ++ B ++ C /\ t ∉ B.
Proof.
  induction A as [|x A IH]; simpl; intros Hs.
  - assert (HB : increasing C /\ forall t, t ∈ C -> t ∉ B).
    { induction B as [|y B IHB]; [split; [done|intros; apply not_elem_of_nil]|]. simpl in Hs.
      inversion Hs as [|? ? Hs' Hy]; subst. destruct (IHB Hs') as [HC Hd]. split; [done|]. rewrite Forall_forall in Hy.
      intros t Ht [->|Ht']%elem_of_cons; [|by eapply Hd]. specialize (Hy y ltac:(set_solver)). lia. }
    set_solver.
  - inversion Hs as [|? ? Hs' Hx]; subst. destruct (IH Hs') as [HC Hd]. rewrite Forall_forall in Hx. split.
    + constructor; [done|]. apply Forall_forall. intros t Ht. apply Hx. by apply Hd.
    + intros t. rewrite !elem_of_cons, Hd. split; [|tauto]. intros [->|?]; [|tauto]. split; [by left|].
      intros Hb. specialize (Hx x ltac:(set_solver)). lia.
Qed.

Lemma step_arrive_unordered a r k j :
  represents a r -> op_ok a (ArriveUnordered k j) ->
  (cstep r (ArriveUnordered k j)).1 = (astep a (ArriveUnordered k j)).1
  /\ represents (astep a (ArriveUnordered k j)).2 (cstep r (ArriveUnordered k j)).2.
Proof.
  intros Hr (Hj & Hnew & Hwin'). set (t0 := (ustart k + j)%nat) in *.
  pose proof Hr as [Esi Emode Enext Eready Hpast Haheads HO (U & HU & HUspec & EU) Hwin].
  assert (Ho : owner t0 k) by (unfold owner, t0; lia).
  destruct (uchunk t0 k Ho) as (Hsid & Hun & Hid & _).
  assert (Hn : t0 ∉ U) by (intros [? _]%HUspec; done).
  set (U' := insert_at t0 U).
  assert (HU' : increasing U') by (by apply increasing_insert_at).
  assert (HU'spec : forall t, t ∈ U' <-> t = t0 \/ pending a t) by (intros t; unfold U'; rewrite elem_of_insert_at, HUspec; done).
  assert (Hw : forall t t', t ∈ U' -> t' ∈ U' -> Z.abs (Z.of_nat t - Z.of_nat t') < 2 ^ 31).
  { intros t t' [->|Ht]%HU'spec [->|Ht']%HU'spec; [lia| |by apply Hwin'|by apply Hwin].
    specialize (Hwin' t' Ht'). lia. }
  assert (Es : sortChunksByTSN (unorderedChunks r ++ [uat t0]) = map uat U').
  { rewrite EU. apply sort_insert; [done..|]. intros b c Hb Hc.
    assert (Hin : forall t, t ∈ t0 :: U -> t ∈ U') by (intros t Ht; apply HU'spec; rewrite <- HUspec; set_solver).
    assert (Ht : forall t, t ∈ t0 :: U -> tsn (uat t) = u32 (Z.of_nat t)).
    { intros t [->|Ht%HUspec]%elem_of_cons; [by apply (uchunk t0 k)|]. destruct (pending_owner _ _ Ht) as [k' Ho']. by apply (uchunk t k'). }
    rewrite !Ht by done. rewrite sna32LT_close by (apply Hw; auto).
    destruct (Nat.ltb_spec b c), (Z.ltb_spec (Z.of_nat b) (Z.of_nat c)); lia. }
  pose proof (find_found a k j Hj Hnew U' HU' HU'spec Hw) as Hf.
  pose proof (pending_after a k j Hj Hnew) as Hpend. fold t0 in Hf, Hpend.
  unfold cstep, astep, push, pushWithError. fold t0. rewrite Hid, Hsid, Esi, Z.eqb_refl, Hun. unfold pushUnordered.
  rewrite Es. simpl negb. cbv iota.
  set (a1 := mkReceiver (next a) (got a) (ugot a ∪ {[t0]}) (ready a)) in *.
  assert (Hwin1 : forall t t', pending a1 t -> pending a1 t' -> Z.abs (Z.of_nat t - Z.of_nat t') < 2 ^ 31).
  { intros t t' [Ht _]%Hpend [Ht' _]%Hpend. apply Hw; by apply HU'spec. }
  destruct (ufull a1 k) eqn:Ef.
  - destruct Hf as (V & W & EU' & ->). split; [done|]. destruct (increasing_cut V (seq (ustart k) (ulen k)) W) as [HVW Hcut]; [by rewrite <- EU'|].
    constructor; simpl; try done.
    + rewrite Eready, map_app. done.
    + exists (V ++ W). split; [done|]. split; [|done]. intros t. change (pending _ t) with (pending a1 t).
      rewrite Hcut, <- EU', HU'spec, elem_of_seq, Hpend. unfold owner. tauto.
  - rewrite Hf. split; [done|]. constructor; simpl; try done.
    exists U'. split; [done|]. split; [|done]. intros t. rewrite HU'spec, Hpend. split; [|tauto]. intros ?. split; [done|]. by intros [_ ?].
Qed.

(** *** Reading *)

(** Copying out a message shows it, or that the buffer is short. *)
Lemma copy_handed m p buf :
  exists buf', copyChunks m buf 0 false = (buf', total m, zlen buf <? total m)
    /\ observe (if zlen buf <? total m then mkRead (total m) 0 (Some ErrShortBuffer) buf' else mkRead (total m) p None buf')
       = handed p m buf.
Proof.
  unfold handed. destruct (Z.ltb_spec (zlen buf) (total m)) as [Hs|Hf].
  - destruct (copy_flag m buf 0 false) as [buf' E]; [lia|left; apply zlen_nonneg|]. exists buf'. rewrite E. split; [|done].
    f_equal. simpl. by apply Z.ltb_lt.
  - destruct (copy_fits m buf 0 false) as (buf' & -> & Ht); [lia|done|]. exists buf'. split; [done|]. unfold observe. rewrite Z.add_0_l in Ht.
    simpl in *. by rewrite Ht.
Qed.

Lemma map_total_all i : map (fun j => omsg i !!! j) (seq 0 (length (omsg i))) = omsg i.
Proof.
  apply list_eq. intros j. change (map ?f ?l) with (f <$> l). rewrite list_lookup_fmap.
  destruct (decide (j < length (omsg i))%nat) as [Hj|Hj].
  - rewrite lookup_seq_lt by done. simpl. symmetry. by apply list_lookup_lookup_total_lt.
  - rewrite lookup_seq_ge by lia. simpl. symmetry. apply lookup_ge_None. lia.
Qed.

Lemma oset_full a i : full a i = true -> chunks (oset a i) = omsg i.
Proof. rewrite full_here, bool_decide_eq_true. simpl. intros ->. apply map_total_all. Qed.

Lemma here_full a i : full a i = true -> here a i <> [].
Proof.
  rewrite full_here, bool_decide_eq_true. intros ->. pose proof (fr_len _ _ _ _ _ _ (so_ordered Hso i)).
  destruct (length (omsg i)); [lia|done].
Qed.

(** The set in front is that of the next message, when any of it came. *)
Lemma front_next a r I :
  represents a r -> increasing I -> (forall i, i ∈ I <-> (next a <= i)%nat /\ here a i <> []) ->
  match I with
  | i :: _ => (next a <= i)%nat /\ (i = next a \/ full a (next a) = false)
              /\ sna16GT (u16 (Z.of_nat i)) (u16 (Z.of_nat (next a))) = negb (bool_decide (i = next a))
  | [] => full a (next a) = false
  end.
Proof.
  intros Hr HI HIspec. assert (Hf : full a (next a) = true -> next a ∈ I).
  { intros H. apply HIspec. split; [lia|]. by apply here_full. }
  destruct I as [|i I].
  - apply not_true_is_false. intros H%Hf. by apply not_elem_of_nil in H.
  - destruct (proj1 (HIspec i) (list_elem_of_here _ _)) as [Hge Hne]. split; [done|]. split.
    + destruct (decide (i = next a)) as [|Hi]; [by left|]. right. apply not_true_is_false. intros H%Hf.
      apply elem_of_cons in H as [?|H]; [congruence|]. inversion HI as [|? ? _ Hlt]; subst.
      rewrite Forall_forall in Hlt. specialize (Hlt _ H). lia.
    + destruct (here a i) as [|x l] eqn:E; [done|]. assert (Hx : x ∈ here a i) by (rewrite E; left).
      apply here_spec in Hx as [_ Hx]. pose proof (re_ahead _ _ Hr _ _ Hx). apply eq_true_iff_eq.
      rewrite sna16GT_dist, negb_true_iff, bool_decide_eq_false by auto with go. unfold dist16. go_lia.
Qed.

Lemma step_read a r buf :
  represents a r ->
  (cstep r (Read buf)).1 = (astep a (Read buf)).1 /\ represents (astep a (Read buf)).2 (cstep r (Read buf)).2.
Proof.
  intros Hr. pose proof Hr as [Esi Emode Enext Eready Hpast Haheads (I & HI & HIspec & EI) HU Hwin].
  pose proof (front_next a r I Hr HI HIspec) as Hfront.
  unfold cstep, astep, read. rewrite Emode. unfold readData. rewrite Eready.
  destruct (ready a) as [|k ready'] eqn:Er; cbn [map].
  - destruct I as [|i I]; rewrite EI; cbn [map]; [rewrite Hfront; done|]. destruct Hfront as (Hge & Hi & Hgt).
    rewrite oset_complete. cbn [ssn oset]. rewrite Enext, Hgt.
    destruct (full a (next a)) eqn:Ef.
    + destruct Hi as [->|?]; [|done]. rewrite Ef, bool_decide_eq_true_2 by done. cbn [negb orb].
      rewrite (oset_full a _ Ef). destruct (copy_handed (omsg (next a)) (oppi (next a)) buf) as (buf' & -> & Hh).
      destruct (zlen buf <? total (omsg (next a))) eqn:Es; [by rewrite <- Hh|]. cbn [ppi oset]. rewrite Hh, Z.eqb_refl. split; [done|].
      constructor; simpl; try done.
      * go_lia.
      * intros i Hi. destruct (decide (i = next a)) as [->|]; [done|]. apply Hpast. lia.
      * intros i j Hij. specialize (Haheads i j Hij). lia.
      * exists I. inversion HI as [|? ? HI' Hlt]; subst. rewrite Forall_forall in Hlt. split; [done|]. split; [|done].
        intros i. split.
        -- intros Hin. specialize (Hlt i Hin). split; [lia|]. apply HIspec. by right.
        -- intros [Hge' Hne]. assert (Hin : i ∈ next a :: I) by (apply HIspec; split; [lia|done]).
           apply elem_of_cons in Hin as [->|?]; [lia|done].
    + assert (Hno : negb (full a i) || negb (bool_decide (i = next a)) = true).
      { destruct Hi as [->|?]; [by rewrite Ef|]. case_bool_decide as Hi; [subst i; by rewrite Ef|apply orb_true_r]. }
      rewrite Hno. done.
  - cbn [chunks ppi uset]. destruct (copy_handed (umsg k) (uppi k) buf) as (buf' & -> & Hh).
    destruct (zlen buf <? total (umsg k)) eqn:Es; [by rewrite <- Hh|]. rewrite Hh. split; [done|].
    constructor; simpl; try done. by exists I.
Qed.

Lemma step_refines a r o :
  represents a r -> op_ok a o ->
  (cstep r o).1 = (astep a o).1 /\ represents (astep a o).2 (cstep r o).2.
Proof.
  destruct o; intros Hr Hok; [by apply step_arrive|by apply step_arrive_unordered|by apply step_read].
Qed.

Lemma reassembly_run_refines ops a r :
  represents a r -> ops_ok a ops -> (crun r ops).1 = (arun a ops).1 /\ represents (arun a ops).2 (crun r ops).2.
Proof.
  revert a r. induction ops as [|o ops IH]; intros a r Hr Hok; [done|]. simpl. destruct Hok as [Ho Hops].
  destruct (step_refines a r o Hr Ho) as [E Hr'].
  destruct (cstep r o) as [x r1], (astep a o) as [y a1]. simpl in *. subst y.
  destruct (IH a1 r1 Hr' Hops) as [E' Hr'']. destruct (crun r1 ops), (arun a1 ops). simpl in *. by subst.
Qed.

Lemma represents_new : represents (mkReceiver 0 ∅ ∅ []) (newReassemblyQueue sid).
Proof.
  constructor; try done.
  - intros i Hi. simpl in Hi. lia.
  - exists []. split; [constructor|]. split; [|done]. intros i. split; [by intros ?%not_elem_of_nil|].
    intros [_ []]. unfold here. apply filter_none. intros j _. apply not_elem_of_empty.
  - exists []. split; [constructor|]. split; [|done]. intros t. split; [by intros ?%not_elem_of_nil|]. by intros [? _].
  - by intros ? ? [? _].
Qed.


End Delivery.

(** Messages of which nothing has come may still change. *)
Lemma represents_change sid omsg oppi omsg' oppi' uat ustart ulen uppi a r :
  (forall i j, (i, j) ∈ got a -> omsg' i = omsg i /\ oppi' i = oppi i) -> (forall i, (0 < length (omsg i))%nat) ->
  represents sid omsg oppi uat ustart ulen uppi a r -> represents sid omsg' oppi' uat ustart ulen uppi a r.
Proof.
  intros Hsame Hlen [R1 R2 R3 R4 R5 R6 (I & HI & HIs & EI) R8 R9].
  assert (Hin : forall om i j, j ∈ here om a i -> (i, j) ∈ got a) by (intros om i j; unfold here; by intros [? _]%list_elem_of_filter).
  assert (Hh : forall i, here omsg' a i = here omsg a i).
  { intros i. destruct (here omsg a i) as [|j l] eqn:E.
    - destruct (here omsg' a i) as [|j l] eqn:E'; [done|]. destruct (Hsame i j) as [Em _]; [apply (Hin omsg'); rewrite E'; left|].
      unfold here in *. rewrite Em, E in E'. done.
    - destruct (Hsame i j) as [Em _]; [apply (Hin omsg); rewrite E; left|]. unfold here in *. by rewrite Em. }
  constructor; try done.
  - intros i Hi. specialize (R5 i Hi). pose proof (proj1 (full_spec omsg a i) R5 0%nat (Hlen i)) as H0. destruct (Hsame i 0%nat H0) as [Em _].
    unfold full in *. by rewrite Em.
  - exists I. split; [done|]. split; [intros i; by rewrite Hh|]. rewrite EI. apply map_ext_in. intros i Hi%list_elem_of_In. apply HIs in Hi as [_ Hi].
    destruct (here omsg a i) as [|j l] eqn:E; [done|]. destruct (Hsame i j) as [Em Ep]; [apply (Hin omsg); rewrite E; left|].
    unfold oset. by rewrite Hh, Em, Ep.
Qed.

(** C17. The reassembly queue refines the abstract receiver.  Whatever the order
    in which the fragments of a stream's messages arrive and however the
    arrivals and the reads interleave, each push reports exactly whether it
    completed its message, and each read hands out, byte for byte and with its
    payload type, the first unordered message that became complete or else the
    next ordered message in the sender's order, reports a short buffer and
    keeps the message, or says that nothing is ready. *)
Theorem reassembly_delivers sid omsg otsn oppi uat ustart ulen useq uppi ops :
  sender_ok sid omsg otsn oppi uat ustart ulen useq uppi ->
  ops_ok omsg oppi uat ustart ulen uppi (mkReceiver 0 ∅ ∅ []) ops ->
  (crun omsg uat ustart (newReassemblyQueue sid) ops).1
  = (arun omsg oppi uat ustart ulen uppi (mkReceiver 0 ∅ ∅ []) ops).1.
Proof.
  intros Hso Hok. eapply reassembly_run_refines; [done| |done]. by eapply represents_new.
Qed.

(** Two fragments per message. *)
Module Sample.

Definition chunk (u : bool) (seqno base : Z) (p : Z) (j : nat) : payloadData :=
  mkPayload u (bool_decide (j = 0%nat)) (bool_decide (j = 1%nat)) false (u32 (base + Z.of_nat j)) 3 seqno 0 0 p
    [base + Z.of_nat j; p] false.

Definition omsg (i : nat) : list payloadData := map (chunk false (u16 (Z.of_nat i)) (2 * Z.of_nat i) 51) [0; 1]%nat.

Definition uat (t : nat) : payloadData :=
  chunk true 0 (2 * Z.of_nat (t / 2)) 53 (t mod 2).

Lemma fragments_chunk u seqno base p : fragments 3 u seqno base p (map (chunk u seqno base p) [0; 1]%nat).
Proof. constructor; [simpl; lia|]. intros [|[|j]] c; simpl; [intros [= <-]; repeat split..|done]. Qed.

Lemma sender : sender_ok 3 omsg (fun i => 2 * Z.of_nat i) (fun _ => 51) uat (fun k => 2 * k)%nat (fun _ => 2%nat)
  (fun _ => 0) (fun _ => 53).
Proof.
  constructor.
  - intros i. apply fragments_chunk.
  - intros k. assert (E : umsg uat (fun k => 2 * k)%nat (fun _ => 2%nat) k = map (chunk true 0 (2 * Z.of_nat k) 53) [0; 1]%nat).
    { unfold umsg, uat. cbn [seq map]. replace (S (2 * k)) with (1 + k * 2)%nat by lia. rewrite Nat.mul_comm.
      rewrite Nat.div_mul, Nat.Div0.mod_mul, Nat.div_add, Nat.Div0.mod_add by lia. done. }
    rewrite E. replace (Z.of_nat (2 * k)) with (2 * Z.of_nat k) by lia. apply fragments_chunk.
  - intros k. lia.
Qed.

Definition ops : list op :=
  [ArriveUnordered 1 1; Arrive 1 0; Arrive 0 1; Read (replicate 9 0); Arrive 1 1; Arrive 0 0; ArriveUnordered 1 0;
   Read (replicate 9 0); Read [0; 0; 0]; Read (replicate 4 0); Read (replicate 9 0); Read []].

(** Each arrival of a concrete run is allowed. *)
Ltac run_ok :=
  repeat match goal with
  | |- _ /\ _ => split
  | |- True => exact I
  | |- _ => progress unfold op_ok
  | |- (_ < _)%nat => by apply (bool_decide_unpack _); vm_compute
  | |- _ ∉ _ => by apply (bool_decide_unpack _); vm_compute
  | |- _ < _ => vm_compute; reflexivity
  | |- forall t, pending _ _ _ _ -> _ =>
      intros t [Ht%elem_of_elements _]; vm_compute in Ht; inversion Ht as [|? ? ? Ht']; subst;
      solve [inversion Ht'|vm_compute; reflexivity]
  end.

End Sample.

Lemma reassembly_delivers_witness :
  (crun Sample.omsg Sample.uat (fun k => 2 * k)%nat (newReassemblyQueue 3) Sample.ops).1
  = [Pushed false; Pushed false; Pushed false; Received (0, 0, Some errTryAgain, []); Pushed true; Pushed true; Pushed true;
     Received (4, 53, None, [2; 53; 3; 53]); Received (4, 0, Some ErrShortBuffer, []); Received (4, 51, None, [0; 51; 1; 51]);
     Received (4, 51, None, [2; 51; 3; 51]); Received (0, 0, Some errTryAgain, [])].
Proof.
  rewrite (reassembly_delivers 3 _ _ (fun _ => 51) _ _ _ _ (fun _ => 53) _ Sample.sender); [vm_compute; reflexivity|].
  unfold Sample.ops. cbn [ops_ok].
  Sample.run_ok.
Defined.
