(* ===== verification/Stream.v ===== *)
(** * SCTP streams (stream.go)

    A stream cuts messages into fragments, hands received chunks to its
    reassembly queue and its reader, and closes in two directions.  The chunks
    it makes live in the store of PayloadQueue.v, because the association keeps
    pointers to them. *)

From S2P Require Import Prelude Serial Bytes Chunks PayloadQueue Reassembly.

Local Open Scope Z_scope.
Local Open Scope go_scope.

Inductive StreamState := StreamStateOpen | StreamStateClosing | StreamStateClosed.

#[global] Instance StreamState_eq_dec : EqDecision StreamState.
Proof. solve_decision. Defined.

Definition ReliabilityTypeReliable : Z := 0.
Definition ReliabilityTypeRexmit : Z := 1.
Definition ReliabilityTypeTimed : Z := 2.

Definition PayloadTypeWebRTCDCEP : Z := 50.

(** What a reader or a writer is told.  [AssociationErr] stands for the error
    an association closes its streams with, or refuses to send with. *)
Inductive serr :=
  | ErrOutboundPacketTooLarge | ErrStreamClosed | ErrReadDeadlineExceeded | EOF
  | QueueErr (e : rerr) | AssociationErr (e : Z).

#[global] Instance rerr_eq_dec : EqDecision rerr.
Proof. solve_decision. Defined.

#[global] Instance serr_eq_dec : EqDecision serr.
Proof. solve_decision. Defined.

(** [s_readTimeoutCancel] names the cancel channel of the read deadline that is
    running; [s_onLow] is whether a low-buffer callback is set. *)
Record Stream := mkStream {
  s_streamIdentifier : Z;
  s_defaultPayloadType : Z;
  s_reassemblyQueue : reassemblyQueue;
  s_sequenceNumber : Z;
  s_nextOrderedMID : Z;
  s_nextUnorderedMID : Z;
  s_readErr : option serr;
  s_readTimeoutCancel : option nat;
  s_unordered : bool;
  s_reliabilityType : Z;
  s_reliabilityValue : Z;
  s_bufferedAmount : Z;
  s_bufferedAmountLow : Z;
  s_onLow : bool;
  s_state : StreamState
}.

(** The stream that [createStream] allocates. *)
Definition newStream (sid : Z) : Stream :=
  mkStream sid 0 (newReassemblyQueue sid) 0 0 0 None None false 0 0 0 0 false StreamStateOpen.

Definition with_queue (s : Stream) (q : reassemblyQueue) : Stream :=
  mkStream (s_streamIdentifier s) (s_defaultPayloadType s) q (s_sequenceNumber s) (s_nextOrderedMID s)
    (s_nextUnorderedMID s) (s_readErr s) (s_readTimeoutCancel s) (s_unordered s) (s_reliabilityType s)
    (s_reliabilityValue s) (s_bufferedAmount s) (s_bufferedAmountLow s) (s_onLow s) (s_state s).

Definition with_counters (s : Stream) (seqno omid umid buffered : Z) : Stream :=
  mkStream (s_streamIdentifier s) (s_defaultPayloadType s) (s_reassemblyQueue s) seqno omid umid (s_readErr s)
    (s_readTimeoutCancel s) (s_unordered s) (s_reliabilityType s) (s_reliabilityValue s) buffered
    (s_bufferedAmountLow s) (s_onLow s) (s_state s).

Definition with_reader (s : Stream) (e : option serr) (cancel : option nat) (st : StreamState) : Stream :=
  mkStream (s_streamIdentifier s) (s_defaultPayloadType s) (s_reassemblyQueue s) (s_sequenceNumber s)
    (s_nextOrderedMID s) (s_nextUnorderedMID s) e cancel (s_unordered s) (s_reliabilityType s) (s_reliabilityValue s)
    (s_bufferedAmount s) (s_bufferedAmountLow s) (s_onLow s) st.

(** ** Parameters *)

Definition SetDefaultPayloadType (s : Stream) (ppi : Z) : Stream :=
  mkStream (s_streamIdentifier s) ppi (s_reassemblyQueue s) (s_sequenceNumber s) (s_nextOrderedMID s)
    (s_nextUnorderedMID s) (s_readErr s) (s_readTimeoutCancel s) (s_unordered s) (s_reliabilityType s)
    (s_reliabilityValue s) (s_bufferedAmount s) (s_bufferedAmountLow s) (s_onLow s) (s_state s).

Definition setReliabilityParams (s : Stream) (unordered : bool) (relType relVal : Z) : Stream :=
  mkStream (s_streamIdentifier s) (s_defaultPayloadType s) (s_reassemblyQueue s) (s_sequenceNumber s)
    (s_nextOrderedMID s) (s_nextUnorderedMID s) (s_readErr s) (s_readTimeoutCancel s) unordered relType relVal
    (s_bufferedAmount s) (s_bufferedAmountLow s) (s_onLow s) (s_state s).

Definition SetBufferedAmountLowThreshold (s : Stream) (th : Z) : Stream :=
  mkStream (s_streamIdentifier s) (s_defaultPayloadType s) (s_reassemblyQueue s) (s_sequenceNumber s)
    (s_nextOrderedMID s) (s_nextUnorderedMID s) (s_readErr s) (s_readTimeoutCancel s) (s_unordered s)
    (s_reliabilityType s) (s_reliabilityValue s) (s_bufferedAmount s) th (s_onLow s) (s_state s).

Definition OnBufferedAmountLow (s : Stream) (f : bool) : Stream :=
  mkStream (s_streamIdentifier s) (s_defaultPayloadType s) (s_reassemblyQueue s) (s_sequenceNumber s)
    (s_nextOrderedMID s) (s_nextUnorderedMID s) (s_readErr s) (s_readTimeoutCancel s) (s_unordered s)
    (s_reliabilityType s) (s_reliabilityValue s) (s_bufferedAmount s) (s_bufferedAmountLow s) f (s_state s).

(** ** Reading *)

(** The deferred function: a deadline that can no longer matter is cancelled.
    Cancelling a channel that is not nil closes it. *)
Definition dropDeadline (s : Stream) : list nat * Stream :=
  match s_readTimeoutCancel s, s_readErr s with
  | Some c, Some _ => ([c], with_reader s (s_readErr s) None (s_state s))
  | _, _ => ([], s)
  end.

(** One turn of the loop of [ReadSCTP]: the answer, or [None] when the reader
    waits for the notifier; and the cancel channels closed. *)
Definition ReadSCTP (s : Stream) (payload : list Z)
  : option (Z * Z * option serr * list Z) * list nat * Stream :=
  let (x, q) := read (s_reassemblyQueue s) payload in
  let s := with_queue s q in
  match r_err x with
  | None | Some ErrShortBuffer =>
      let (closed, s') := dropDeadline s in
      (Some (r_n x, r_ppi x, QueueErr <$> r_err x, r_buf x), closed, s')
  | Some _ =>
      match s_readErr s with
      | Some e => let (closed, s') := dropDeadline s in (Some (0, 0, Some e, r_buf x), closed, s')
      | None => (None, [], s)
      end
  end.

(** [SetReadDeadline] with the name of the channel it makes when the deadline
    is not zero; the channels closed, whether a goroutine waits on the new
    one, and the stream. *)
Definition SetReadDeadline (s : Stream) (deadline : bool) (fresh : nat) : list nat * bool * Stream :=
  let closed := match s_readTimeoutCancel s with Some c => [c] | None => [] end in
  let s := with_reader s (s_readErr s) None (s_state s) in
  match s_readErr s with
  | Some ErrReadDeadlineExceeded | None =>
      if deadline then (closed, true, with_reader s None (Some fresh) (s_state s))
      else (closed, false, with_reader s None None (s_state s))
  | Some _ => (closed, false, s)
  end.

(** The goroutine of a deadline whose timer fired and whose channel was open. *)
Definition deadlineFires (s : Stream) : Stream :=
  with_reader s (match s_readErr s with None => Some ErrReadDeadlineExceeded | e => e end) None (s_state s).

(** ** Chunks from the association; the [bool] is a signal to the reader *)

Definition handleData (s : Stream) (pd : payloadData) : option rerr * bool * Stream :=
  let '(complete, err, q) := pushWithError (s_reassemblyQueue s) pd in
  let s := with_queue s q in
  match err with
  | Some e => (Some e, false, s)
  | None => (None, complete && isReadable q, s)
  end.

Definition forwarded (s : Stream) (q : reassemblyQueue) : bool * Stream := (isReadable q, with_queue s q).

Definition handleForwardTSNForOrdered (s : Stream) (ssn : Z) : bool * Stream :=
  if s_unordered s then (false, s) else forwarded s (forwardTSNForOrdered (s_reassemblyQueue s) ssn).

Definition handleForwardTSNForUnordered (s : Stream) (newCumulativeTSN : Z) : bool * Stream :=
  if negb (s_unordered s) then (false, s) else forwarded s (forwardTSNForUnordered (s_reassemblyQueue s) newCumulativeTSN).

Definition handleForwardTSNForOrderedMID (s : Stream) (mid : Z) : bool * Stream :=
  forwarded s (forwardTSNForOrderedMID (s_reassemblyQueue s) mid).

Definition handleForwardTSNForUnorderedMID (s : Stream) (mid : Z) : bool * Stream :=
  forwarded s (forwardTSNForUnorderedMID (s_reassemblyQueue s) mid).

(** ** Writing *)

(** The values that stay the same for every fragment of a message. *)
Record fragmentSpec := mkSpec {
  f_sid : Z; f_unordered : bool; f_ppi : Z; f_seq : Z; f_mid : Z; f_idata : bool
}.

Definition fragment (f : fragmentSpec) (first last : bool) (fsn : Z) (data : list Z) (head : option loc) : sendChunk :=
  mkSend (mkChunkHeader 0 0 [])
    (mkPayload (f_unordered f) first last false 0 (f_sid f) (if f_idata f then u16 (f_mid f) else f_seq f) (f_mid f) fsn
       (f_ppi f) data (f_idata f))
    false 0 0 0 false false false head.

(** The loop [for remaining != 0]; [rest] is [raw[offset:]], so [remaining] is
    its length.  [None]: the iterations in [fuel] were not enough, or the slice
    panicked. *)
Fixpoint fragmentLoop (fuel : nat) (maxPayloadSize : Z) (f : fragmentSpec) (rest : list Z) (offset fsn : Z)
    (head : option loc) (st : store) (fresh : loc) : option (list loc * store * loc) :=
  let remaining := u32 (zlen rest) in
  if remaining =? 0 then Some ([], st, fresh)
  else
    match fuel with
    | O => None
    | S fuel' =>
        let fragmentSize := Z.min maxPayloadSize remaining in
        let chunk := fragment f (offset =? 0) (remaining -32 fragmentSize =? 0) fsn (take (Z.to_nat fragmentSize) rest) head in
        '(ps, st', fresh') ←
          fragmentLoop fuel' maxPayloadSize f (drop (Z.to_nat fragmentSize) rest) (offset +32 fragmentSize) (fsn +32 1)
            (match head with None => Some fresh | Some _ => head end) (<[fresh := chunk]> st) (Pos.succ fresh);
        Some (fresh :: ps, st', fresh')
    end.

(** The fragments, whether they are unordered, the store, its next free
    location and the stream. *)
Definition packetize (fuel : nat) (maxPayloadSize : Z) (useInterleaving : bool) (s : Stream) (raw : list Z) (ppi : Z)
    (st : store) (fresh : loc) : option (list loc * bool * store * loc * Stream) :=
  let unordered := negb (ppi =? PayloadTypeWebRTCDCEP) && s_unordered s in
  let mid :=
    if useInterleaving then if unordered then s_nextUnorderedMID s else s_nextOrderedMID s else 0 in
  let umid := if useInterleaving && unordered then s_nextUnorderedMID s +32 1 else s_nextUnorderedMID s in
  let omid := if useInterleaving && negb unordered then s_nextOrderedMID s +32 1 else s_nextOrderedMID s in
  '(ps, st', fresh') ←
    fragmentLoop fuel maxPayloadSize
      (mkSpec (s_streamIdentifier s) unordered ppi (s_sequenceNumber s) mid useInterleaving) raw 0 0 None st fresh;
  let seqno := if negb useInterleaving && negb unordered then s_sequenceNumber s +16 1 else s_sequenceNumber s in
  Some (ps, unordered, st', fresh', with_counters s seqno omid umid (u64 (s_bufferedAmount s + zlen raw))).

(** The counters given back when the association did not take the chunks. *)
Definition unwrite (useInterleaving unordered : bool) (n : Z) (s : Stream) : Stream :=
  with_counters s
    (if negb useInterleaving && negb unordered then u16 (s_sequenceNumber s - 1) else s_sequenceNumber s)
    (if useInterleaving && negb unordered then s_nextOrderedMID s -32 1 else s_nextOrderedMID s)
    (if useInterleaving && unordered then s_nextUnorderedMID s -32 1 else s_nextUnorderedMID s)
    (u64 (s_bufferedAmount s - n)).

(** [WriteSCTP], with [send] the call of the association's [sendPayloadData],
    which works on a state of type [A]. *)
Definition WriteSCTP {A} (maxMessageSize maxPayloadSize : Z) (useInterleaving : bool)
    (send : A -> list loc -> option serr * A) (fuel : nat) (s : Stream) (payload : list Z) (ppi : Z) (st : store)
    (fresh : loc) (a : A) : option (Z * option serr * Stream * store * loc * A) :=
  if maxMessageSize <? zlen payload then Some (0, Some ErrOutboundPacketTooLarge, s, st, fresh, a)
  else if negb (bool_decide (s_state s = StreamStateOpen)) then Some (0, Some ErrStreamClosed, s, st, fresh, a)
  else
    '(chunks, unordered, st', fresh', s') ← packetize fuel maxPayloadSize useInterleaving s payload ppi st fresh;
    let (err, a') := send a chunks in
    match err with
    | Some _ => Some (0, err, unwrite useInterleaving unordered (zlen payload) s', st', fresh', a')
    | None => Some (zlen payload, None, s', st', fresh', a')
    end.

(** ** Closing *)

(** The request to reset the outgoing stream, if it is to be sent. *)
Definition Close (s : Stream) : option Z * Stream :=
  match s_state s with
  | StreamStateOpen =>
      (Some (s_streamIdentifier s),
       with_reader s (s_readErr s) (s_readTimeoutCancel s)
         (match s_readErr s with None => StreamStateClosing | Some _ => StreamStateClosed end))
  | _ => (None, s)
  end.

(** The reader is woken. *)
Definition onInboundStreamReset (s : Stream) : Stream :=
  with_reader s (Some EOF) (s_readTimeoutCancel s)
    (match s_state s with StreamStateClosing => StreamStateClosed | st => st end).

(** The stream's part of the association's [unregisterStream]. *)
Definition unregistered (s : Stream) (err : serr) : Stream :=
  with_reader s (Some err) (s_readTimeoutCancel s) (s_state s).

Definition resetOutgoingStreamSequenceNumbers (s : Stream) : Stream :=
  with_counters s 0 0 0 (s_bufferedAmount s).

(** ** The amount of buffered data; the [bool] is a call of the callback *)

Definition onBufferReleased (s : Stream) (nBytesReleased : Z) : bool * Stream :=
  if nBytesReleased <=? 0 then (false, s)
  else
    let from := s_bufferedAmount s in
    let now := if from <? u64 nBytesReleased then 0 else u64 (from - nBytesReleased) in
    (s_onLow s && (s_bufferedAmountLow s <? from) && (now <=? s_bufferedAmountLow s),
     with_counters s (s_sequenceNumber s) (s_nextOrderedMID s) (s_nextUnorderedMID s) now).

Definition getNumBytesInReassemblyQueue (s : Stream) : Z := getNumBytes (s_reassemblyQueue s).
