(* ===== verification/StreamSpec.v ===== *)
(** * What a stream promises

    A message is cut into pieces that fit and carries the flags that put it
    together again; what one stream writes the other reads, unchanged and in
    order, whatever the order of arrival; a reader that waits is woken; a
    stream closes once. *)

From S2P Require Import Prelude Serial Bytes Chunks PayloadQueue Reassembly ReassemblySpec Stream.

Local Open Scope Z_scope.
Local Open Scope go_scope.

(** ** Cutting a message *)

Fixpoint cut (fuel n : nat) (l : list Z) : list (list Z) :=
  match fuel, l with
  | S fuel', _ :: _ => take n l :: cut fuel' n (drop n l)
  | _, _ => []
  end.

(** The pieces of [l], all of length [n] but the last. *)
Definition pieces (n : nat) (l : list Z) : list (list Z) := cut (length l) n l.

Lemma cut_fuel fuel fuel' n l : (0 < n)%nat -> (length l <= fuel)%nat -> (length l <= fuel')%nat -> cut fuel n l = cut fuel' n l.
Proof.
  intros Hn. revert fuel' l. induction fuel as [|fuel IH]; intros [|fuel'] [|x l] H1 H2; simpl in *; try done; try lia.
  f_equal. apply IH; rewrite length_drop; simpl; lia.
Qed.

Lemma pieces_cons n l : (0 < n)%nat -> l <> [] -> pieces n l = take n l :: pieces n (drop n l).
Proof.
  intros Hn Hl. unfold pieces. destruct l as [|x l]; [done|]. simpl length. cbn [cut]. f_equal.
  apply cut_fuel; [done| |done]. rewrite length_drop. simpl. lia.
Qed.

Lemma pieces_concat n l : (0 < n)%nat -> concat (pieces n l) = l.
Proof.
  intros Hn. unfold pieces. assert (H : (length l <= length l)%nat) by lia. revert H. generalize (length l) at 2 3 as fuel.
  intros fuel. revert l. induction fuel as [|fuel IH]; intros [|x l] Hl; simpl in *; try done; try lia.
  rewrite IH by (rewrite length_drop; simpl; lia). apply (take_drop n (x :: l)).
Qed.

Lemma pieces_size n l : (0 < n)%nat -> Forall (fun d => d <> [] /\ (length d <= n)%nat) (pieces n l).
Proof.
  intros Hn. unfold pieces. generalize (length l) as fuel. intros fuel. revert l.
  induction fuel as [|fuel IH]; intros [|x l]; simpl; constructor; [|done]. rewrite length_take. split; [|lia].
  destruct n; [lia|done].
Qed.

Lemma pieces_nil n l : (0 < n)%nat -> pieces n l = [] <-> l = [].
Proof. intros Hn. split; [|by intros ->]. intros E. rewrite <- (pieces_concat n l Hn), E. done. Qed.

(** Locations allocated one after the other. *)
Definition nth_loc (fresh : loc) (j : nat) : loc := Nat.iter j Pos.succ fresh.

Lemma nth_loc_succ fresh j : nth_loc (Pos.succ fresh) j = nth_loc fresh (S j).
Proof. unfold nth_loc. by rewrite Nat.iter_succ_r. Qed.

Lemma nth_loc_nat fresh j : Pos.to_nat (nth_loc fresh j) = (Pos.to_nat fresh + j)%nat.
Proof.
  induction j as [|j IH]; [unfold nth_loc; simpl; lia|]. change (nth_loc fresh (S j)) with (Pos.succ (nth_loc fresh j)).
  rewrite Pos2Nat.inj_succ. lia.
Qed.

Lemma nth_loc_inj fresh j k : nth_loc fresh j = nth_loc fresh k -> j = k.
Proof. intros E. apply (f_equal Pos.to_nat) in E. rewrite !nth_loc_nat in E. lia. Qed.

(** Fragment [j] of [n]. *)
Definition piece_of (f : fragmentSpec) (start fsn : Z) (head : option loc) (fresh : loc) (n j : nat) (d : list Z) : sendChunk :=
  fragment f ((start =? 0) && (j =? 0)%nat) (bool_decide (S j = n)) (u32 (fsn + Z.of_nat j)) d
    (match head, j with None, O => None | None, S _ => Some fresh | Some h, _ => Some h end).

Lemma fragmentLoop_spec fuel mps f rest off fsn head st fresh :
  0 < mps -> 0 <= off -> off + zlen rest < 2 ^ 32 -> 0 <= fsn < 2 ^ 32 -> (length rest <= fuel)%nat ->
  let ds := pieces (Z.to_nat mps) rest in
  exists st', fragmentLoop fuel mps f rest off fsn head st fresh
      = Some (map (nth_loc fresh) (seq 0 (length ds)), st', nth_loc fresh (length ds))
    /\ (forall p, (Pos.to_nat p < Pos.to_nat fresh)%nat -> st' !! p = st !! p)
    /\ forall j d, ds !! j = Some d -> st' !! nth_loc fresh j = Some (piece_of f off fsn head fresh (length ds) j d).
Proof.
  intros Hm. revert rest off fsn head st fresh. induction fuel as [|fuel IH]; intros rest off fsn head st fresh Ho Hlen Hf Hfuel.
  { destruct rest; simpl in *; [|lia]. exists st. done. }
  assert (Hz : u32 (zlen rest) = zlen rest) by (pose proof (zlen_nonneg rest); go_lia).
  cbn [fragmentLoop]. rewrite Hz. destruct rest as [|x rest]; [exists st; done|].
  set (l := x :: rest) in *. assert (Hl : 0 < zlen l) by (unfold zlen, l; simpl; lia).
  destruct (Z.eqb_spec (zlen l) 0) as [?|_]; [lia|].
  set (size := Z.min mps (zlen l)). assert (Hsz : 0 < size <= zlen l) by (unfold size; lia).
  assert (Hnz : (0 < Z.to_nat mps)%nat) by lia.
  assert (Ed : drop (Z.to_nat size) l = drop (Z.to_nat mps) l /\ take (Z.to_nat size) l = take (Z.to_nat mps) l).
  { unfold size. destruct (Z.min_spec mps (zlen l)) as [[_ ->]|[Hge ->]]; [done|]. unfold zlen in *.
    rewrite !drop_ge, !take_ge by lia. done. }
  destruct Ed as [Ed Et]. rewrite Ed, Et.
  set (ds' := pieces (Z.to_nat mps) (drop (Z.to_nat mps) l)).
  assert (Eds : pieces (Z.to_nat mps) l = take (Z.to_nat mps) l :: ds') by (apply pieces_cons; done).
  assert (Hdl : zlen (drop (Z.to_nat mps) l) = zlen l - size).
  { rewrite <- Ed. unfold zlen in *. rewrite length_drop. lia. }
  destruct (IH (drop (Z.to_nat mps) l) (off +32 size) (fsn +32 1)
              (match head with None => Some fresh | Some _ => head end)
              (<[fresh := fragment f (off =? 0) (zlen l -32 size =? 0) fsn (take (Z.to_nat mps) l) head]> st) (Pos.succ fresh))
    as (st' & E & Hold & Hnew); cbv zeta.
  - go_lia.
  - rewrite Hdl. assert (off +32 size = off + size) by go_lia. lia.
  - go_lia.
  - unfold zlen in *. simpl in Hfuel. rewrite length_drop in *. unfold l in *. simpl in *. lia.
  - fold ds' in E, Hnew. rewrite E, Eds. cbn [mbind option_bind length seq map]. exists st'. split; [|split].
    + f_equal. f_equal; [f_equal|]; [f_equal|apply nth_loc_succ].
      rewrite <- seq_shift, map_map. apply map_ext. intros j. apply nth_loc_succ.
    + intros p Hp. rewrite Hold by lia. apply lookup_insert_ne. intros ->. lia.
    + intros [|j] d Hd; simpl in Hd.
      * injection Hd as <-. rewrite Hold by (simpl; lia). simpl. rewrite lookup_insert_eq. f_equal. unfold piece_of.
        rewrite Z.add_0_r, andb_true_r. assert (Eu : u32 fsn = fsn) by go_lia. rewrite Eu. f_equal; [|by destruct head].
        assert (Hds : ds' = [] <-> zlen l = size).
        { unfold ds'. rewrite pieces_nil by done. split; intros H.
          - rewrite H in Hdl. change (zlen []) with 0 in Hdl. lia.
          - apply length_zero_iff_nil. unfold zlen in Hdl at 1. lia. }
        apply eq_true_iff_eq. rewrite Z.eqb_eq, bool_decide_eq_true.
        assert (Hlast : zlen l -32 size = zlen l - size) by go_lia. rewrite Hlast.
        split; intros H; [assert (ds' = []) as -> by (apply Hds; lia); done|].
        assert (ds' = []) as Hd%Hds by (apply length_zero_iff_nil; lia). lia.
      * rewrite <- nth_loc_succ. rewrite (Hnew j d Hd). f_equal. unfold piece_of.
        assert (Eo : (off +32 size =? 0) = false) by go_lia. rewrite Eo, andb_false_r. simpl. f_equal.
        -- apply bool_decide_ext. lia.
        -- go_lia.
        -- by destruct head.
Qed.

(** ** Writing a message *)

(** The locations [ps] hold the fragments of [raw]. *)
Record fragments_at (st : store) (f : fragmentSpec) (mps : Z) (raw : list Z) (ps : list loc) : Prop := {
  fa_data : exists ds, concat ds = raw /\ length ds = length ps
    /\ forall j p, ps !! j = Some p -> exists c d, st !! p = Some c /\ ds !! j = Some d
         /\ userData (wire c) = d /\ d <> [] /\ zlen d <= mps
         /\ beginningFragment (wire c) = bool_decide (j = 0%nat)
         /\ endingFragment (wire c) = bool_decide (S j = length ps)
         /\ fragmentSequenceNumber (wire c) = Z.of_nat j
         /\ streamIdentifier (wire c) = f_sid f /\ unordered (wire c) = f_unordered f /\ payloadType (wire c) = f_ppi f
         /\ messageIdentifier (wire c) = f_mid f /\ iData (wire c) = f_idata f
         /\ streamSequenceNumber (wire c) = (if f_idata f then u16 (f_mid f) else f_seq f)
         /\ head_ c = (if bool_decide (j = 0%nat) then None else ps !! 0%nat);
  fa_distinct : NoDup ps
}.

(** The message's place in the stream. *)
Definition spec_of (useInterleaving : bool) (s : Stream) (ppi : Z) : fragmentSpec :=
  let unordered := negb (ppi =? PayloadTypeWebRTCDCEP) && s_unordered s in
  mkSpec (s_streamIdentifier s) unordered ppi (s_sequenceNumber s)
    (if useInterleaving then if unordered then s_nextUnorderedMID s else s_nextOrderedMID s else 0) useInterleaving.

(** The stream after a message: one of the three counters moves on, none for an
    unordered DATA message. *)
Definition counted (useInterleaving : bool) (s : Stream) (raw : list Z) (ppi : Z) : Stream :=
  let unordered := f_unordered (spec_of useInterleaving s ppi) in
  with_counters s
    (if negb useInterleaving && negb unordered then s_sequenceNumber s +16 1 else s_sequenceNumber s)
    (if useInterleaving && negb unordered then s_nextOrderedMID s +32 1 else s_nextOrderedMID s)
    (if useInterleaving && unordered then s_nextUnorderedMID s +32 1 else s_nextUnorderedMID s)
    (u64 (s_bufferedAmount s + zlen raw)).

Lemma nth_loc_NoDup fresh l : NoDup l -> NoDup (map (nth_loc fresh) l).
Proof.
  intros Hl. apply (NoDup_fmap_2_strong (nth_loc fresh)); [|done]. intros j k _ _. apply nth_loc_inj.
Qed.

Lemma packetize_spec fuel mps il s raw ppi st fresh :
  0 < mps -> zlen raw < 2 ^ 32 -> (length raw <= fuel)%nat ->
  let n := length (pieces (Z.to_nat mps) raw) in
  let f := spec_of il s ppi in
  exists st', packetize fuel mps il s raw ppi st fresh
      = Some (map (nth_loc fresh) (seq 0 n), f_unordered f, st', nth_loc fresh n, counted il s raw ppi)
    /\ (forall p, (Pos.to_nat p < Pos.to_nat fresh)%nat -> st' !! p = st !! p)
    /\ forall j d, pieces (Z.to_nat mps) raw !! j = Some d -> st' !! nth_loc fresh j = Some (piece_of f 0 0 None fresh n j d).
Proof.
  intros Hm Hr Hf n f.
  destruct (fragmentLoop_spec fuel mps f raw 0 0 None st fresh) as (st' & E & Hold & Hnew); [done|lia|lia|lia|done|].
  exists st'. split; [|done]. unfold packetize. fold (f_unordered f).
  change (mkSpec _ _ _ _ _ _) with f. rewrite E. done.
Qed.

Lemma pieces_count mps l : (0 < mps)%nat -> (length (pieces mps l) <= length l)%nat.
Proof.
  intros Hm. unfold pieces. assert (H : (length l <= length l)%nat) by lia. revert H. generalize (length l) at 2 3 as fuel.
  intros fuel. revert l. induction fuel as [|fuel IH]; intros [|x l] Hl; simpl in *; try lia.
  specialize (IH (drop mps (x :: l))). rewrite length_drop in IH. simpl in IH. lia.
Qed.

Lemma packetize_fragments fuel mps il s raw ppi st fresh :
  0 < mps -> zlen raw < 2 ^ 32 -> (length raw <= fuel)%nat ->
  exists ps st' fresh', packetize fuel mps il s raw ppi st fresh
      = Some (ps, f_unordered (spec_of il s ppi), st', fresh', counted il s raw ppi)
    /\ fragments_at st' (spec_of il s ppi) mps raw ps
    /\ forall p, (Pos.to_nat p < Pos.to_nat fresh)%nat -> st' !! p = st !! p.
Proof.
  intros Hm Hr Hf. destruct (packetize_spec fuel mps il s raw ppi st fresh Hm Hr Hf) as (st' & E & Hold & Hnew).
  set (ds := pieces (Z.to_nat mps) raw) in *. do 3 eexists. split; [exact E|]. split; [|done].
  assert (Hn : (0 < Z.to_nat mps)%nat) by lia.
  constructor; [|apply nth_loc_NoDup, NoDup_seq].
  exists ds. split; [by apply pieces_concat|]. split; [by rewrite length_map, length_seq|].
  intros j p Hp. change (map ?g ?l) with (g <$> l) in Hp. rewrite list_lookup_fmap in Hp.
  destruct (seq 0 (length ds) !! j) as [j'|] eqn:Ej; [|done]. apply lookup_seq in Ej as [-> Hj]. injection Hp as <-.
  destruct (lookup_lt_is_Some_2 ds j Hj) as [d Hd]. exists (piece_of (spec_of il s ppi) 0 0 None fresh (length ds) j d), d.
  split; [by apply Hnew|]. split; [done|]. split; [done|].
  pose proof (pieces_size (Z.to_nat mps) raw Hn) as Hs. rewrite Forall_forall in Hs.
  destruct (Hs d) as [Hne Hle]; [by eapply list_elem_of_lookup_2|]. split; [done|]. split; [unfold zlen; lia|].
  rewrite length_map, length_seq. split; [simpl; by destruct j|]. split; [done|]. split.
  { simpl. pose proof (pieces_count (Z.to_nat mps) raw Hn) as Hc. fold ds in Hc. unfold zlen in Hr.
    assert (Hj' : 0 <= Z.of_nat j < 2 ^ 32) by lia. go_lia. }
  do 6 (split; [done|]). simpl. destruct j as [|j]; [done|]. destruct ds as [|d0 ds']; [simpl in Hj; lia|done].
Qed.

(** The counters are values of their types. *)
Record stream_ok (s : Stream) : Prop := {
  so_seq : in_u 16 (s_sequenceNumber s);
  so_omid : in_u 32 (s_nextOrderedMID s);
  so_umid : in_u 32 (s_nextUnorderedMID s);
  so_buffered : in_u 64 (s_bufferedAmount s)
}.

Lemma unwrite_counted il s raw ppi :
  stream_ok s -> unwrite il (f_unordered (spec_of il s ppi)) (zlen raw) (counted il s raw ppi) = s.
Proof.
  intros [H1 H2 H3 H4]. unfold unwrite, counted, with_counters. set (u := f_unordered _). destruct s. simpl in *.
  f_equal; [destruct il, u; simpl; try done; go_lia..|go_lia].
Qed.

Section Write.
Context {A : Type} (send : A -> list loc -> option serr * A).

(** C28. A write is all or nothing.  It returns; when it succeeds the
    association has been given, in order, freshly allocated fragments that are
    not empty, fit the payload limit, spell out the message and carry the flags,
    numbers and the shared first fragment that let the peer put it together,
    and exactly one counter of the stream has moved on; when it is refused
    (message too long, stream not open, association not ready) it reports 0
    bytes and the stream, with its counters and its buffered amount, is as it
    was. *)
Theorem write_all_or_nothing mms mps il fuel s payload ppi st fresh a :
  0 < mps -> mms < 2 ^ 32 -> stream_ok s -> (length payload <= fuel)%nat ->
  exists n err s' st' fresh' a', WriteSCTP mms mps il send fuel s payload ppi st fresh a = Some (n, err, s', st', fresh', a')
    /\ (forall p, (Pos.to_nat p < Pos.to_nat fresh)%nat -> st' !! p = st !! p)
    /\ match err with
       | None => s_state s = StreamStateOpen /\ n = zlen payload /\ n <= mms /\ s' = counted il s payload ppi
                 /\ exists ps, fragments_at st' (spec_of il s ppi) mps payload ps /\ send a ps = (None, a')
       | Some e => n = 0 /\ s' = s
                   /\ ((a' = a /\ e = ErrOutboundPacketTooLarge /\ mms < zlen payload)
                       \/ (a' = a /\ e = ErrStreamClosed /\ s_state s <> StreamStateOpen)
                       \/ exists ps, send a ps = (Some e, a'))
       end.
Proof.
  intros Hm Hmm Hs Hf. unfold WriteSCTP. destruct (Z.ltb_spec mms (zlen payload)) as [Hlong|Hshort].
  { do 6 eexists. split; [done|]. split; [done|]. split; [done|]. split; [done|]. by left. }
  case_bool_decide as Hst; cbn [negb].
  2: { do 6 eexists. split; [done|]. split; [done|]. split; [done|]. split; [done|]. right. by left. }
  destruct (packetize_fragments fuel mps il s payload ppi st fresh) as (ps & st' & fresh' & E & Hfr & Hold); [done|lia|done|].
  rewrite E. simpl. destruct (send a ps) as [[e|] a'] eqn:Es.
  - do 6 eexists. split; [done|]. split; [done|]. split; [done|]. split; [by apply unwrite_counted|]. right. right. by exists ps.
  - do 6 eexists. split; [done|]. split; [done|]. do 4 (split; [done|]). by exists ps.
Qed.

End Write.

(** A stream of the association that takes what it is given. *)
Lemma write_all_or_nothing_witness :
  exists n err s' st' fresh' a',
    WriteSCTP 100 4 false (fun (a : list loc) ps => (None, a ++ ps)) 10 (newStream 7) [1; 2; 3; 4; 5] 51 ∅ 3 [] 
      = Some (n, err, s', st', fresh', a')
    /\ a' = [3; 4]%positive /\ s_sequenceNumber s' = 1 /\ s_bufferedAmount s' = 5.
Proof.
  destruct (write_all_or_nothing (fun (a : list loc) ps => (None, a ++ ps)) 100 4 false 10 (newStream 7) [1; 2; 3; 4; 5] 51 ∅ 3 [])
    as (n & err & s' & st' & fresh' & a' & E & _); [lia|lia|by constructor|simpl; lia|].
  do 6 eexists. split; [exact E|]. vm_compute in E. by injection E as <- <- <- <- <- <-.
Defined.

(** ** From one stream to the other *)

Definition with_tsn (d : payloadData) (t : Z) : payloadData :=
  mkPayload (unordered d) (beginningFragment d) (endingFragment d) (immediateSack d) t (streamIdentifier d)
    (streamSequenceNumber d) (messageIdentifier d) (fragmentSequenceNumber d) (payloadType d) (userData d) (iData d).

(** Data and payload type. *)
Abbreviation message := (list Z * Z)%type.

(** The writer writes the messages one after the other. *)
Fixpoint write_all (fuel : nat) (mps : Z) (s : Stream) (msgs : list message) (st : store) (fresh : loc)
  : option (list (list loc) * store * Stream) :=
  match msgs with
  | [] => Some ([], st, s)
  | (raw, ppi) :: msgs' =>
      '(ps, _, st', fresh', s') ← packetize fuel mps false s raw ppi st fresh;
      '(pss, st'', s'') ← write_all fuel mps s' msgs' st' fresh';
      Some (ps :: pss, st'', s'')
  end.

(** Their fragments get consecutive TSNs, from [t] on, when they are sent. *)
Fixpoint sent (st : store) (t : Z) (pss : list (list loc)) : list (list payloadData) :=
  match pss with
  | [] => []
  | ps :: pss' =>
      imap (fun j p => with_tsn (from_option wire inhabitant (st !! p)) (u32 (t + Z.of_nat j))) ps
      :: sent st (t + Z.of_nat (length ps)) pss'
  end.

Inductive event := Delivered (i j : nat) | Reads (buf : list Z).

(** A message the reader got. *)
Definition taken (x : option (Z * Z * option serr * list Z)) : list message :=
  match x with Some (n, p, None, buf) => [(take (Z.to_nat n) buf, p)] | _ => [] end.

Definition rstep (chunks : list (list payloadData)) (r : Stream) (e : event) : list message * Stream :=
  match e with
  | Delivered i j =>
      match cs ← chunks !! i; cs !! j with
      | Some c => ([], (handleData r c).2)
      | None => ([], r)
      end
  | Reads buf => let '(x, _, r') := ReadSCTP r buf in (taken x, r')
  end.

Fixpoint rrun (chunks : list (list payloadData)) (r : Stream) (es : list event) : list message * Stream :=
  match es with
  | [] => ([], r)
  | e :: es' => let (x, r1) := rstep chunks r e in let (xs, r2) := rrun chunks r1 es' in (x ++ xs, r2)
  end.

(** The network delivers fragments that were sent, each once ([seen] are those
    delivered before), less than 2^15 messages ahead of the [n] already read. *)
Fixpoint network_ok (chunks : list (list payloadData)) (r : Stream) (seen : gset (nat * nat)) (n : nat) (es : list event)
  : Prop :=
  match es with
  | [] => True
  | e :: es' =>
      let (x, r1) := rstep chunks r e in
      match e with
      | Delivered i j =>
          is_Some (cs ← chunks !! i; cs !! j) /\ (i, j) ∉ seen /\ Z.of_nat i < Z.of_nat n + 2 ^ 15
          /\ network_ok chunks r1 (seen ∪ {[(i, j)]}) n es'
      | Reads _ => network_ok chunks r1 seen (n + length x) es'
      end
  end.

Definition delivered_in (es : list event) (i j : nat) : Prop := Delivered i j ∈ es.

Section Transfer.
Context (sid mps base : Z) (Hmps : 0 < mps).

Definition chunk_of (i n j : nat) (t : Z) (ppi : Z) (d : list Z) : payloadData :=
  mkPayload false (bool_decide (j = 0%nat)) (bool_decide (S j = n)) false (u32 (t + Z.of_nat j)) sid (u16 (Z.of_nat i)) 0
    (u32 (Z.of_nat j)) ppi d false.

(** Message number [i] on the wire, its first TSN [t]. *)
Definition on_wire (i : nat) (t : Z) (m : message) : list payloadData :=
  let ds := pieces (Z.to_nat mps) m.1 in imap (fun j d => chunk_of i (length ds) j t m.2 d) ds.

Fixpoint all_on_wire (i : nat) (t : Z) (msgs : list message) : list (list payloadData) :=
  match msgs with
  | [] => []
  | m :: msgs' => on_wire i t m :: all_on_wire (S i) (t + Z.of_nat (length (pieces (Z.to_nat mps) m.1))) msgs'
  end.

Definition message_ok (m : message) : Prop := m.1 <> [] /\ zlen m.1 < 2 ^ 31.

Lemma on_wire_fragments i t m : message_ok m -> fragments sid false (u16 (Z.of_nat i)) t m.2 (on_wire i t m).
Proof.
  intros [Hne Hlen]. assert (Hn : (0 < Z.to_nat mps)%nat) by lia. unfold on_wire. set (ds := pieces _ _).
  constructor.
  - rewrite length_imap. pose proof (pieces_count (Z.to_nat mps) m.1 Hn) as Hc. fold ds in Hc. unfold zlen in Hlen.
    destruct ds eqn:E; [by apply pieces_nil in E|]. simpl in *. lia.
  - intros j c Hc. rewrite list_lookup_imap in Hc. destruct (ds !! j) as [d|] eqn:Ed; [|done]. injection Hc as <-.
    rewrite length_imap. repeat split.
Qed.

Lemma on_wire_data i t m : concat (map userData (on_wire i t m)) = m.1.
Proof.
  assert (Hn : (0 < Z.to_nat mps)%nat) by lia. unfold on_wire. rewrite <- (pieces_concat _ m.1 Hn) at 2. f_equal.
  generalize (length (pieces (Z.to_nat mps) m.1)) as n. intros n. generalize (pieces (Z.to_nat mps) m.1) as ds. intros ds.
  apply list_eq. intros j. change (map ?g ?l) with (g <$> l). rewrite list_lookup_fmap, list_lookup_imap. by destruct (ds !! j).
Qed.

Lemma total_concat l : ReassemblySpec.total l = zlen (concat (map userData l)).
Proof.
  induction l as [|c l IH]; [done|]. simpl. rewrite IH. unfold userLen, zlen. rewrite length_app. lia.
Qed.

Lemma lookup_all_on_wire i t msgs k :
  all_on_wire i t msgs !! k = (on_wire (i + k) (t + Z.of_nat (length (concat (all_on_wire i t (take k msgs)))))) <$> (msgs !! k).
Proof.
  revert i t k. induction msgs as [|m msgs IH]; intros i t [|k]; simpl; try done.
  - do 2 f_equal; [lia|]. f_equal. lia.
  - rewrite IH. f_equal. f_equal; [lia|]. rewrite length_app. unfold on_wire. rewrite length_imap. lia.
Qed.

(** What the writer produces. *)
Lemma write_all_spec fuel s msgs st fresh i t :
  s_streamIdentifier s = sid -> s_unordered s = false -> s_sequenceNumber s = u16 (Z.of_nat i) ->
  Forall (fun m => zlen m.1 < 2 ^ 32 /\ (length m.1 <= fuel)%nat) msgs ->
  exists pss st' s', write_all fuel mps s msgs st fresh = Some (pss, st', s')
    /\ (forall p, (Pos.to_nat p < Pos.to_nat fresh)%nat -> st' !! p = st !! p)
    /\ sent st' t pss = all_on_wire i t msgs.
Proof.
  revert s st fresh i t. induction msgs as [|[raw ppi] msgs IH]; intros s st fresh i t Hsid Hun Hseq HF.
  { by exists [], st, s. }
  inversion HF as [|? ? [Hr Hf] HF']; subst. simpl in Hr, Hf. cbn [write_all].
  destruct (packetize_spec fuel mps false s raw ppi st fresh Hmps Hr Hf) as (st1 & E & Hold & Hnew).
  rewrite E. cbn [mbind option_bind]. set (ds := pieces (Z.to_nat mps) raw) in *.
  assert (Hu : f_unordered (spec_of false s ppi) = false) by (simpl; by rewrite Hun, andb_false_r).
  destruct (IH (counted false s raw ppi) st1 (nth_loc fresh (length ds)) (S i) (t + Z.of_nat (length ds))) as (pss & st2 & s2 & E2 & Hold2 & Hs2).
  - done.
  - done.
  - unfold counted. rewrite Hu. simpl. rewrite Hseq. go_lia.
  - done.
  - rewrite E2. cbn [mbind option_bind]. do 3 eexists. split; [done|]. split.
    + intros p Hp. rewrite Hold2 by (rewrite nth_loc_nat; lia). by apply Hold.
    + cbn [sent all_on_wire]. rewrite length_map, length_seq. f_equal; [|apply Hs2].
      unfold on_wire. simpl. fold ds. apply list_eq. intros j. rewrite !list_lookup_imap.
      change (map ?g ?l) with (g <$> l). rewrite list_lookup_fmap.
      destruct (decide (j < length ds)%nat) as [Hj|Hj].
      * rewrite lookup_seq_lt by done. destruct (lookup_lt_is_Some_2 ds j Hj) as [d Hd]. rewrite Hd. simpl.
        rewrite Hold2 by (rewrite !nth_loc_nat; lia). rewrite (Hnew j d Hd). simpl. rewrite Hun, andb_false_r, Hseq.
        unfold with_tsn, chunk_of. simpl. f_equal. f_equal; [by destruct j|done].
      * rewrite lookup_seq_ge, (lookup_ge_None_2 ds) by lia. done.
Qed.

(** The messages as the abstract receiver of ReassemblySpec.v sees them; past
    the last one, and for unordered ones, any message will do. *)
Section Refines.
Context (msgs : list message) (Hmsgs : Forall message_ok msgs).

Let chunks := all_on_wire 0 base msgs.
Let omsg (k : nat) : list payloadData := default (on_wire k 0 ([0], 0)) (chunks !! k).
Let otsn (k : nat) : Z :=
  if bool_decide (k < length msgs)%nat then base + Z.of_nat (length (concat (all_on_wire 0 base (take k msgs)))) else 0.
Let oppi (k : nat) : Z := from_option snd 0 (msgs !! k).
Let uat (t : nat) : payloadData := mkPayload true true true false (u32 (Z.of_nat t)) sid 0 0 0 0 [0] false.
Let spec := sender_ok sid omsg otsn oppi uat (fun k => k) (fun _ => 1%nat) (fun _ => 0) (fun _ => 0).
Let rel := represents sid omsg oppi uat (fun k => k) (fun _ => 1%nat) (fun _ => 0).

Lemma omsg_in k m : msgs !! k = Some m -> exists t, omsg k = on_wire k t m /\ otsn k = t.
Proof.
  intros Hk. unfold omsg, chunks, otsn. rewrite lookup_all_on_wire, Hk. simpl. eexists. split; [done|].
  by rewrite bool_decide_eq_true_2 by (by eapply lookup_lt_Some).
Qed.

Lemma transfer_sender : spec.
Proof.
  constructor.
  - intros k. destruct (msgs !! k) as [m|] eqn:Hk.
    + destruct (omsg_in k m Hk) as (t & -> & ->). unfold oppi. rewrite Hk. apply on_wire_fragments.
      rewrite Forall_lookup in Hmsgs. by eapply Hmsgs.
    + unfold omsg, chunks, otsn, oppi. rewrite lookup_all_on_wire, Hk. simpl. rewrite bool_decide_eq_false_2 by (apply lookup_ge_None in Hk; lia).
      apply (on_wire_fragments k 0 ([0], 0)). split; [done|]. vm_compute. done.
  - intros k. constructor; [simpl; lia|]. intros [|j] c; simpl; [|done]. intros [= <-]. repeat split. simpl. f_equal. lia.
  - intros k. lia.
Qed.

Definition at_stream (n : nat) (seen : gset (nat * nat)) (r : Stream) : Prop :=
  rel (mkReceiver n seen ∅ []) (s_reassemblyQueue r) /\ s_readErr r = None
  /\ (n <= length msgs)%nat /\ forall i j, (i, j) ∈ seen -> (i < length msgs)%nat.

Lemma chunk_lookup i j c : (cs ← chunks !! i; cs !! j) = Some c ->
  omsg i !!! j = c /\ (j < length (omsg i))%nat /\ (i < length msgs)%nat.
Proof.
  unfold omsg. destruct (chunks !! i) as [cs|] eqn:E; [|done]. simpl. intros Hc.
  split; [by apply list_lookup_total_correct|]. split; [by eapply lookup_lt_Some|].
  unfold chunks in E. rewrite lookup_all_on_wire in E. destruct (msgs !! i) eqn:Em; [|done]. by eapply lookup_lt_Some.
Qed.

Lemma transfer_deliver n seen r i j :
  at_stream n seen r -> is_Some (cs ← chunks !! i; cs !! j) -> (i, j) ∉ seen -> Z.of_nat i < Z.of_nat n + 2 ^ 15 ->
  (rstep chunks r (Delivered i j)).1 = [] /\ at_stream n (seen ∪ {[(i, j)]}) (rstep chunks r (Delivered i j)).2.
Proof.
  intros (Hr & Herr & Hn & Hseen) [c Hc] Hnew Hw. destruct (chunk_lookup i j c Hc) as (Ec & Hj & Hi).
  unfold rstep. rewrite Hc. split; [done|].
  destruct (step_arrive _ _ _ _ _ _ _ _ _ transfer_sender (mkReceiver n seen ∅ []) (s_reassemblyQueue r) i j Hr) as [_ Hr'].
  { split; [done|]. by split. }
  simpl in Hr'. unfold push in Hr'. rewrite Ec in Hr'. unfold handleData.
  destruct (pushWithError (s_reassemblyQueue r) c) as [[complete err] q]. simpl in Hr'.
  assert (Hs' : forall i' j', (i', j') ∈ seen ∪ {[(i, j)]} -> (i' < length msgs)%nat).
  { intros i' j' [H|[= -> ->]%elem_of_singleton]%elem_of_union; [by eapply Hseen|done]. }
  by destruct err.
Qed.

(** What the next read gives. *)
Lemma transfer_read n seen r buf :
  at_stream n seen r ->
  let x := (rstep chunks r (Reads buf)).1 in
  x = match msgs !! n with
      | Some m => if full omsg (mkReceiver n seen ∅ []) n && (zlen m.1 <=? zlen buf) then [m] else []
      | None => []
      end
  /\ at_stream (n + length x) seen (rstep chunks r (Reads buf)).2.
Proof.
  intros (Hr & Herr & Hn & Hseen). simpl.
  destruct (step_read _ _ _ _ _ _ _ _ _ transfer_sender (mkReceiver n seen ∅ []) (s_reassemblyQueue r) buf Hr) as [E Hr'].
  assert (Hf : full omsg (mkReceiver n seen ∅ []) n = true -> (n < length msgs)%nat).
  { intros Hf. pose proof (proj1 (full_spec omsg _ n) Hf 0%nat) as H0. apply (Hseen n 0%nat), H0.
    pose proof (fr_len _ _ _ _ _ _ (so_ordered _ _ _ _ _ _ _ _ _ transfer_sender n)). lia. }
  unfold cstep, astep in E, Hr'. simpl in E, Hr'. unfold ReadSCTP.
  destruct (read (s_reassemblyQueue r) buf) as [x q]. simpl in E, Hr'.
  destruct (full omsg (mkReceiver n seen ∅ []) n) eqn:Ef.
  - destruct (lookup_lt_is_Some_2 msgs n (Hf eq_refl)) as [m Hm]. destruct (omsg_in n m Hm) as (t & Eo & _).
    assert (Hd : concat (map userData (omsg n)) = m.1) by (rewrite Eo; apply on_wire_data).
    assert (Ht : ReassemblySpec.total (omsg n) = zlen m.1) by (by rewrite total_concat, Hd).
    rewrite Hm. cbn [andb]. unfold handed in E. rewrite Ht, Hd in E. rewrite Ht in Hr'.
    assert (Hp : oppi n = m.2) by (unfold oppi; by rewrite Hm). rewrite Hp in E.
    injection E as E. unfold observe in E. destruct (Z.ltb_spec (zlen buf) (zlen m.1)) as [Hs|Hs].
    + injection E as _ _ He _. rewrite He, (proj2 (Z.leb_gt _ _)) by lia.
      unfold dropDeadline. simpl. rewrite Herr. destruct (s_readTimeoutCancel r); simpl; (split; [done|]); rewrite Nat.add_0_r; done.
    + destruct (r_err x) as [?|] eqn:He; [by injection E|]. injection E as E1 E2 E3. rewrite E2, (proj2 (Z.leb_le _ _)) by lia.
      unfold dropDeadline. simpl. rewrite Herr.
      assert (Ems : [(take (Z.to_nat (r_n x)) (r_buf x), m.2)] = [m]) by (rewrite E3; by destruct m).
      assert (Hlt : (n < length msgs)%nat) by (by eapply lookup_lt_Some).
      destruct (s_readTimeoutCancel r); simpl; (split; [done|]); (split; [by rewrite Nat.add_1_r|]); (split; [done|]); (split; [lia|done]).
  - unfold observe in E. injection E as _ _ He _. rewrite He. simpl. rewrite Herr. simpl.
    split; [by destruct (msgs !! n)|]. rewrite Nat.add_0_r. done.
Qed.

Lemma transfer_run es n seen r :
  at_stream n seen r -> network_ok chunks r seen n es ->
  let got := (rrun chunks r es).1 in
  got = take (length got) (drop n msgs)
  /\ exists seen', at_stream (n + length got) seen' (rrun chunks r es).2
     /\ forall i j, (i, j) ∈ seen' <-> (i, j) ∈ seen \/ delivered_in es i j.
Proof.
  revert n seen r. induction es as [|e es IH]; intros n seen r Hr Hok; simpl.
  { split; [done|]. exists seen. rewrite Nat.add_0_r. split; [done|]. intros. unfold delivered_in. rewrite elem_of_nil. tauto. }
  cbn [network_ok] in Hok. destruct e as [i j|buf].
  - destruct (rstep chunks r (Delivered i j)) as [x r1] eqn:E. destruct Hok as (Hc & Hnew & Hw & Hok).
    destruct (transfer_deliver n seen r i j Hr Hc Hnew Hw) as [Hx Hr1]. rewrite E in Hx, Hr1. simpl in Hx, Hr1. subst x.
    destruct (IH _ _ _ Hr1 Hok) as [Hg (seen' & Hr2 & Hseen)]. destruct (rrun chunks r1 es) as [xs r2]. simpl in *.
    split; [done|]. exists seen'. split; [done|]. intros i' j'. rewrite Hseen. unfold delivered_in.
    rewrite elem_of_union, elem_of_singleton, elem_of_cons. naive_solver.
  - pose proof (transfer_read n seen r buf Hr) as [Hx Hr1]. destruct (rstep chunks r (Reads buf)) as [x r1].
    simpl in Hx, Hr1. destruct (IH _ _ _ Hr1 Hok) as [Hg (seen' & Hr2 & Hseen)]. destruct (rrun chunks r1 es) as [xs r2]. simpl in *.
    assert (Hxt : x = [] \/ exists m, x = [m] /\ msgs !! n = Some m).
    { rewrite Hx. destruct (msgs !! n) as [m|]; [|by left]. destruct (_ && _); [right; by exists m|by left]. }
    split.
    + destruct Hxt as [->|(m & -> & Hm)]; simpl in *; [by rewrite Nat.add_0_r in Hg|].
      rewrite (drop_S _ _ _ Hm). simpl. f_equal. by rewrite Nat.add_1_r in Hg.
    + exists seen'. rewrite length_app, Nat.add_assoc. split; [done|]. intros i j. rewrite Hseen. unfold delivered_in.
      rewrite elem_of_cons. naive_solver.
Qed.

Lemma transfer_start : at_stream 0 ∅ (newStream sid).
Proof. split; [apply represents_new|]. split; [done|]. split; [lia|]. by intros i j ?%not_elem_of_empty. Qed.

Lemma transfer_all es :
  network_ok chunks (newStream sid) ∅ 0 es ->
  let got := (rrun chunks (newStream sid) es).1 in
  got = take (length got) msgs
  /\ forall m buf, msgs !! length got = Some m ->
       (forall j c, (cs ← chunks !! length got; cs !! j) = Some c -> delivered_in es (length got) j) ->
       zlen m.1 <= zlen buf -> (rstep chunks (rrun chunks (newStream sid) es).2 (Reads buf)).1 = [m].
Proof.
  intros Hok got. destruct (transfer_run es 0 ∅ (newStream sid) transfer_start Hok) as [Hg (seen & Hr & Hseen)].
  rewrite drop_0 in Hg. split; [done|]. intros m buf Hm Hall Hb. fold got in Hr. rewrite Nat.add_0_l in Hr.
  destruct (transfer_read _ _ _ buf Hr) as [Hx _]. rewrite Hx, Hm, (proj2 (Z.leb_le _ _)) by done.
  rewrite (proj2 (full_spec omsg _ _)); [done|]. intros j Hj. simpl. apply Hseen. right.
  unfold omsg in Hj. destruct (chunks !! length got) as [cs|] eqn:E.
  - destruct (lookup_lt_is_Some_2 cs j Hj) as [c Hc]. by apply (Hall j c).
  - exfalso. unfold chunks in E. rewrite lookup_all_on_wire, Hm in E. done.
Qed.

End Refines.

End Transfer.


Ltac net :=
  repeat match goal with
  | |- network_ok _ _ _ _ [] => exact I
  | |- network_ok ?c ?r ?seen ?n (?e :: ?es) =>
      let v := eval vm_compute in (rstep c r e) in
      lazymatch e with
        | Delivered ?i ?j =>
            change (let (_, next) := rstep c r e in
                    is_Some (cs ← c !! i; cs !! j) /\ (i, j) ∉ seen /\ Z.of_nat i < Z.of_nat n + 2 ^ 15
                    /\ network_ok c next (seen ∪ {[(i, j)]}) n es);
            replace (rstep c r e) with v by (vm_compute; reflexivity); cbv iota beta;
            split; [vm_compute; eexists; reflexivity|]; split; [by apply (bool_decide_unpack _); vm_compute|];
            split; [vm_compute; reflexivity|]
        | Reads ?b =>
            change (let (out, next) := rstep c r e in network_ok c next seen (n + length out) es);
            replace (rstep c r e) with v by (vm_compute; reflexivity); cbv iota beta
        end
  end.


(** ** Waking the reader *)

Section Wake.
Context {sid : Z} {omsg : nat -> list payloadData} {otsn oppi : nat -> Z} {uat : nat -> payloadData}
  {ustart ulen : nat -> nat} {useq uppi : nat -> Z} (Hso : sender_ok sid omsg otsn oppi uat ustart ulen useq uppi).

Abbreviation rep := (represents sid omsg oppi uat ustart ulen uppi).

(** Whether the abstract receiver has something to hand out. *)
Definition available (a : receiver) : bool := negb (bool_decide (ready a = [])) || full omsg a (next a).

Lemma readable_available a q : rep a q -> isReadable q = available a.
Proof.
  intros Hr. pose proof Hr as [Esi Emode Enext Eready Hpast Haheads (I & HI & HIspec & EI) HU Hwin].
  unfold isReadable, available. rewrite Emode, Eready. destruct (ready a) as [|k l]; simpl; [|done].
  pose proof (front_next _ _ _ _ _ _ _ _ _ Hso a q I Hr HI HIspec) as Hfront. rewrite EI.
  destruct I as [|i I]; simpl; [done|]. destruct Hfront as (Hge & Hi & Hgt).
  change (mkSet (u16 (Z.of_nat i)) (oppi i) (map (fun j => omsg i !!! j) (here omsg a i))) with (oset omsg oppi a i).
  rewrite (oset_complete _ _ _ _ _ _ _ _ _ Hso), Enext.
  assert (Hle : sna16LTE (u16 (Z.of_nat i)) (u16 (Z.of_nat (next a))) = bool_decide (i = next a)).
  { rewrite <- (negb_involutive (sna16LTE _ _)), <- sna16GT_negb_LTE, Hgt by auto with go. apply negb_involutive. }
  rewrite Hle. destruct Hi as [->|Hf]; [by rewrite bool_decide_eq_true_2, andb_true_r|].
  rewrite Hf. case_bool_decide; subst; [by rewrite Hf|apply andb_false_r].
Qed.

Lemma read_waits a q buf : rep a q ->
  r_err (read q buf).1 <> None /\ r_err (read q buf).1 <> Some ErrShortBuffer <-> available a = false.
Proof.
  intros Hr. destruct (step_read _ _ _ _ _ _ _ _ _ Hso a q buf Hr) as [E _]. unfold cstep, astep in E.
  destruct (read q buf) as [x q']. cbn [fst] in *. unfold available.
  assert (Hx : r_err x = (match (match ready a with k :: _ => Some (uppi k, umsg uat ustart ulen k)
                                  | [] => if full omsg a (next a) then Some (oppi (next a), omsg (next a)) else None end) with
                    | Some (p, m) => if zlen buf <? ReassemblySpec.total m then Some ErrShortBuffer else None
                    | None => Some errTryAgain end)).
  { apply (f_equal (fun o => match o with Received (_, _, e, _) => e | _ => None end)) in E. unfold observe in E. simpl in E.
    rewrite E. unfold handed. destruct (ready a) as [|k l]; [destruct (full omsg a (next a))|]; simpl; try done; by destruct (zlen buf <? _). }
  rewrite Hx. destruct (ready a) as [|k l]; simpl; [destruct (full omsg a (next a)); [|done]|]; destruct (zlen buf <? _);
    naive_solver.
Qed.

Lemma ReadSCTP_waits s buf : s_readErr s = None ->
  (ReadSCTP s buf).1.1 = None <-> r_err (read (s_reassemblyQueue s) buf).1 <> None
    /\ r_err (read (s_reassemblyQueue s) buf).1 <> Some ErrShortBuffer.
Proof.
  intros He. unfold ReadSCTP. destruct (read (s_reassemblyQueue s) buf) as [x q]. simpl.
  destruct (r_err x) as [[]|] eqn:Ex; simpl; unfold dropDeadline; simpl; rewrite ?He; simpl;
    try destruct (s_readTimeoutCancel s); simpl; split; intros H; try done; by destruct H.
Qed.

Lemma reader_waits a s buf : rep a (s_reassemblyQueue s) -> s_readErr s = None ->
  (ReadSCTP s buf).1.1 = None <-> available a = false.
Proof. intros Hr He. by rewrite ReadSCTP_waits, (read_waits a). Qed.

(** Without a completed message nothing becomes available. *)
Lemma available_after a o : op_ok omsg ustart ulen a o -> (astep omsg oppi uat ustart ulen uppi a o).1 = Pushed false ->
  available (astep omsg oppi uat ustart ulen uppi a o).2 = available a.
Proof.
  destruct o as [i j|k j|buf]; simpl; intros Hok E; [| |by destruct (ready a); [destruct (full omsg a (next a))|]].
  - injection E as Ef. unfold available. simpl. f_equal. apply eq_true_iff_eq. rewrite !full_spec. simpl.
    split; intros H x Hx; [|by apply elem_of_union_l, H].
    pose proof (H x Hx) as [?|[= Hi _]%elem_of_singleton]%elem_of_union; [done|].
    exfalso. rewrite <- not_true_iff_false, full_spec in Ef. apply Ef. intros y Hy. subst i. by apply H.
  - injection E as Ef. by rewrite Ef.
Qed.

End Wake.

(** No lost wake-up.  When the reader of an open stream waits and a fragment
    arrives, the stream signals it exactly when there is now something to
    read: for every history of arrivals, ordered and unordered, and reads. *)
Theorem waiting_reader_signalled sid omsg otsn oppi uat ustart ulen useq uppi s ops o c buf :
  sender_ok sid omsg otsn oppi uat ustart ulen useq uppi ->
  ops_ok omsg oppi uat ustart ulen uppi (mkReceiver 0 ∅ ∅ []) (ops ++ [o]) ->
  (exists i j, o = Arrive i j /\ c = omsg i !!! j) \/ (exists k j, o = ArriveUnordered k j /\ c = uat (ustart k + j)%nat) ->
  s_readErr s = None -> s_reassemblyQueue s = (crun omsg uat ustart (newReassemblyQueue sid) ops).2 ->
  (ReadSCTP s buf).1.1 = None ->
  exists signal s', handleData s c = (None, signal, s')
    /\ if signal : bool then forall buf', (ReadSCTP s' buf').1.1 <> None else forall buf', (ReadSCTP s' buf').1.1 = None.
Proof.
  intros Hso Hok Ho He Hq Hwait.
  assert (Hsplit : ops_ok omsg oppi uat ustart ulen uppi (mkReceiver 0 ∅ ∅ []) ops
    /\ op_ok omsg ustart ulen (arun omsg oppi uat ustart ulen uppi (mkReceiver 0 ∅ ∅ []) ops).2 o).
  { clear -Hok. revert Hok. generalize (mkReceiver 0 ∅ ∅ []) as a. induction ops as [|o' ops IH]; intros a; simpl; [tauto|].
    intros [H1 H2]. destruct (IH _ H2) as [H3 H4]. destruct (astep _ _ _ _ _ _ a o') as [x a1]. simpl in *.
    destruct (arun _ _ _ _ _ _ a1 ops). done. }
  destruct Hsplit as [Hops Hop].
  destruct (reassembly_run_refines _ _ _ _ _ _ _ _ _ Hso ops _ _ (represents_new sid omsg oppi uat ustart ulen uppi) Hops) as [_ Hr].
  set (a := (arun _ _ _ _ _ _ _ ops).2) in *. rewrite <- Hq in Hr.
  destruct (step_refines _ _ _ _ _ _ _ _ _ Hso a _ o Hr Hop) as [Eo Hr'].
  assert (Hc : cstep omsg uat ustart (s_reassemblyQueue s) o
               = let (complete, q) := push (s_reassemblyQueue s) c in (Pushed complete, q)).
  { destruct Ho as [(i & j & -> & ->)|(k & j & -> & ->)]; done. }
  assert (Hidata : iData c = false).
  { destruct Ho as [(i & j & -> & ->)|(k & j & -> & ->)].
    - destruct Hop as (Hj & _). by apply (frag _ _ _ _ _ _ (so_ordered _ _ _ _ _ _ _ _ _ Hso i) j Hj).
    - destruct Hop as (Hj & _). apply (uchunk _ _ _ _ _ _ _ _ _ Hso _ k). unfold owner. lia. }
  rewrite Hc in Eo, Hr'. unfold push in Eo, Hr'. unfold handleData.
  assert (Hpe : exists complete q, pushWithError (s_reassemblyQueue s) c = (complete, None, q)).
  { unfold pushWithError. rewrite Hidata. destruct (negb _); [by do 2 eexists|].
    destruct (if unordered c then _ else _) as [complete q]. by do 2 eexists. }
  destruct Hpe as (complete & q & Hpe). rewrite Hpe in *. simpl in Eo, Hr'.
  eexists _, _. split; [done|]. intros.
  assert (Hw : available (omsg := omsg) a = false) by (by apply (reader_waits Hso a s buf)).
  pose proof (readable_available Hso _ _ Hr') as Hread. simpl in Hread.
  assert (Hw' : forall buf', (ReadSCTP (with_queue s q) buf').1.1 = None <-> isReadable q = false).
  { intros buf'. rewrite Hread. by apply (reader_waits Hso _ (with_queue s q) buf' Hr'). }
  assert (Hc' : complete = false -> isReadable q = false).
  { intros ->. rewrite Hread, <- Hw. by apply available_after. }
  destruct complete; [|intros buf'; apply Hw'; by apply Hc'].
  destruct (isReadable q); intros buf'; [|by apply Hw']. by intros ?%Hw'.
Qed.

Lemma waiting_reader_signalled_witness :
  let s := with_queue (newStream 3) (crun Sample.omsg Sample.uat (fun k => 2 * k)%nat (newReassemblyQueue 3) [ArriveUnordered 1 1]).2 in
  exists signal s', handleData s (Sample.uat 2) = (None, signal, s')
    /\ if signal : bool then forall buf', (ReadSCTP s' buf').1.1 <> None else forall buf', (ReadSCTP s' buf').1.1 = None.
Proof.
  apply (waiting_reader_signalled 3 Sample.omsg _ (fun _ => 51) Sample.uat _ _ _ (fun _ => 53) _ [ArriveUnordered 1 1]
           (ArriveUnordered 1 0) _ [0; 0] Sample.sender);
    [|right; by exists 1%nat, 0%nat|done|done|vm_compute; reflexivity].
  cbn [ops_ok app]. Sample.run_ok.
Defined.

(** ** The life of a stream *)

Inductive sop :=
  | OpClose | OpInboundReset | OpUnregister (e : serr) | OpDeadline (set : bool) (fresh : nat) | OpDeadlineFires
  | OpRead (buf : list Z) | OpData (c : payloadData) | OpReleased (n : Z) | OpResetNumbers
  | OpReliability (unordered : bool) (t v : Z).

#[global] Instance payloadData_eq_dec : EqDecision payloadData.
Proof. solve_decision. Defined.

#[global] Instance sop_eq_dec : EqDecision sop.
Proof. solve_decision. Defined.

(** The reset requests handed to the association, and the stream. *)
Definition sstep (s : Stream) (o : sop) : list Z * Stream :=
  match o with
  | OpClose => let (r, s') := Close s in (option_list r, s')
  | OpInboundReset => ([], onInboundStreamReset s)
  | OpUnregister e => ([], unregistered s e)
  | OpDeadline set fresh => ([], (SetReadDeadline s set fresh).2)
  | OpDeadlineFires => ([], deadlineFires s)
  | OpRead buf => ([], (ReadSCTP s buf).2)
  | OpData c => ([], (handleData s c).2)
  | OpReleased n => ([], (onBufferReleased s n).2)
  | OpResetNumbers => ([], resetOutgoingStreamSequenceNumbers s)
  | OpReliability u t v => ([], setReliabilityParams s u t v)
  end.

Definition srun (s : Stream) (ops : list sop) : list Z * Stream :=
  fold_left (fun acc o => let (rs, s') := sstep acc.2 o in (acc.1 ++ rs, s')) ops ([], s).

(** The end of the incoming side. *)
Definition terminal (o : sop) : Prop := match o with OpInboundReset | OpUnregister _ => True | _ => False end.

(** The association does not unregister a stream with the deadline error. *)
Definition genuine (o : sop) : Prop := o <> OpUnregister ErrReadDeadlineExceeded.

Definition ended (s : Stream) : Prop := exists e, s_readErr s = Some e /\ e <> ErrReadDeadlineExceeded.

(** No operation but these moves the state or the reader's error. *)
Lemma sstep_kept s o :
  o <> OpClose -> ~ terminal o ->
  s_streamIdentifier (sstep s o).2 = s_streamIdentifier s /\ (sstep s o).1 = [] /\ s_state (sstep s o).2 = s_state s
  /\ (ended s -> ended (sstep s o).2).
Proof.
  intros Hc Ht. destruct o as [| |e|d f| |buf|c|n| |u t v]; try done; simpl; try naive_solver.
  - unfold SetReadDeadline. simpl. destruct (s_readErr s) as [[]|] eqn:E; destruct d; simpl; unfold ended; simpl; rewrite ?E; naive_solver.
  - unfold deadlineFires, ended. simpl. destruct (s_readErr s); naive_solver.
  - unfold ReadSCTP. destruct (read _ _) as [x q]. unfold ended.
    destruct (r_err x) as [[]|], (s_readErr s) eqn:E, (s_readTimeoutCancel s) eqn:E'; simpl; unfold dropDeadline; simpl;
      rewrite ?E, ?E'; simpl; rewrite ?E; naive_solver.
  - unfold handleData. destruct (pushWithError _ _) as [[? []] q]; simpl; naive_solver.
  - unfold onBufferReleased. destruct (n <=? 0); simpl; naive_solver.
Qed.

Record lived (sid : Z) (ops : list sop) (resets : list Z) (s : Stream) : Prop := {
  li_sid : s_streamIdentifier s = sid;
  li_resets : resets = if bool_decide (OpClose ∈ ops) then [sid] else [];
  li_open : s_state s = StreamStateOpen <-> OpClose ∉ ops;
  li_closed : OpClose ∈ ops -> OpInboundReset ∈ ops -> s_state s = StreamStateClosed;
  li_ended o : o ∈ ops -> terminal o -> ended s
}.

Lemma srun_lived sid ops :
  Forall genuine ops -> lived sid ops (srun (newStream sid) ops).1 (srun (newStream sid) ops).2.
Proof.
  induction ops as [|o ops IH] using rev_ind; [constructor; simpl; try done; set_solver|].
  intros [Hgs Hg]%Forall_app. inversion Hg as [|? ? Ho _]; subst. specialize (IH Hgs).
  unfold srun in *. rewrite fold_left_app. simpl. destruct (fold_left _ ops _) as [resets s]. simpl in *.
  destruct IH as [Hsid Hre Hop Hcl He].
  assert (Hmem : forall x, x ∈ ops ++ [o] <-> x ∈ ops \/ x = o) by set_solver.
  destruct (decide (o = OpClose)) as [->|Hclose].
  { assert (Hb : bool_decide (OpClose ∈ ops ++ [OpClose]) = true) by (apply bool_decide_eq_true_2; set_solver).
    assert (Hend : forall x, x ∈ ops ++ [OpClose] -> terminal x -> ended s) by (intros x [Hx| ->]%Hmem ?; [by eapply He|done]).
    simpl. unfold Close. destruct (s_state s) eqn:Es; simpl.
    - assert (Hnc : OpClose ∉ ops) by (by apply Hop). rewrite bool_decide_eq_false_2 in Hre by done. subst.
      constructor; rewrite ?Hb; simpl; [done|done|rewrite Hmem; destruct (s_readErr s); naive_solver| |done].
      intros _ [Hin|?]%Hmem; [|done]. by destruct (He OpInboundReset Hin I) as (e & -> & _).
    - assert (Hc : OpClose ∈ ops) by (destruct (decide (OpClose ∈ ops)) as [|H%Hop]; done).
      rewrite bool_decide_eq_true_2 in Hre by done. constructor; rewrite ?Hb, ?app_nil_r, ?Es; try done; [rewrite Hmem; naive_solver|].
      intros _ [Hin|?]%Hmem; [|done]. by apply Hcl.
    - assert (Hc : OpClose ∈ ops) by (destruct (decide (OpClose ∈ ops)) as [|H%Hop]; done).
      rewrite bool_decide_eq_true_2 in Hre by done. constructor; rewrite ?Hb, ?app_nil_r, ?Es; try done. rewrite Hmem. naive_solver. }
  assert (Hb : bool_decide (OpClose ∈ ops ++ [o]) = bool_decide (OpClose ∈ ops)) by (apply bool_decide_ext; rewrite Hmem; naive_solver).
  assert (Hopen : OpClose ∉ ops ++ [o] <-> OpClose ∉ ops) by (rewrite Hmem; naive_solver).
  assert (Hin : OpClose ∈ ops ++ [o] -> OpClose ∈ ops) by (rewrite Hmem; naive_solver).
  destruct (decide (o = OpInboundReset)) as [->|Hreset].
  { constructor; rewrite ?Hb, ?Hopen; simpl; rewrite ?app_nil_r; [done|done|destruct (s_state s); naive_solver| |].
    - intros Hc%Hin _. destruct (s_state s) eqn:Es; [|done..]. exfalso. by apply Hop.
    - intros _ _ _. by exists EOF. }
  assert (Hreset' : OpInboundReset ∈ ops ++ [o] -> OpInboundReset ∈ ops) by (rewrite Hmem; naive_solver).
  assert (Hcase : (exists e, o = OpUnregister e) \/ ~ terminal o) by (destruct o; naive_solver).
  destruct Hcase as [[e ->]|Hnt].
  { constructor; rewrite ?Hb, ?Hopen; simpl; rewrite ?app_nil_r; try done; [by intros Hc%Hin Hr%Hreset'; apply Hcl|].
    intros _ _ _. exists e. split; [done|]. by intros ->. }
  destruct (sstep_kept s o Hclose Hnt) as (E1 & E2 & E3 & E4). destruct (sstep s o) as [rs s']; simpl in E1, E2, E3, E4.
  subst rs. simpl. rewrite app_nil_r.
  constructor; rewrite ?Hb, ?Hopen, ?E1, ?E3; try done; [intros Hc%Hin Hr%Hreset'; by apply Hcl|].
  intros x [Hx| ->]%Hmem Hterm; [apply E4; by eapply He|done].
Qed.

(** C34. A stream closes once.  Whatever the order of closes, resets by the peer,
    reads, arrivals, deadlines and the end of the association: one request to
    reset the outgoing side is made, by the first Close, and none without it;
    from then on every write is refused and reaches neither the stream nor the
    association; when both sides have been reset the stream is closed; and once
    the incoming side has ended no read waits, whatever deadlines are set
    afterwards. *)
Theorem stream_lifecycle sid ops :
  Forall genuine ops ->
  let (resets, s) := srun (newStream sid) ops in
  resets = (if bool_decide (OpClose ∈ ops) then [sid] else [])
  /\ (OpClose ∈ ops -> forall A (send : A -> list loc -> option serr * A) mms mps il fuel payload ppi st fresh a,
        exists e, WriteSCTP mms mps il send fuel s payload ppi st fresh a = Some (0, Some e, s, st, fresh, a))
  /\ (OpClose ∈ ops -> OpInboundReset ∈ ops -> s_state s = StreamStateClosed)
  /\ forall o buf, o ∈ ops -> terminal o -> (ReadSCTP s buf).1.1 <> None.
Proof.
  intros Hg. pose proof (srun_lived sid ops Hg) as [_ Hre Hop Hcl He]. destruct (srun _ _) as [resets s]. simpl in *.
  split; [done|]. split; [|split; [done|]].
  - intros Hc *. unfold WriteSCTP. destruct (mms <? zlen payload); [by eexists|].
    rewrite bool_decide_eq_false_2 by (rewrite Hop; tauto). by eexists.
  - intros o buf Ho Ht. destruct (He o Ho Ht) as (e & Ee & _). unfold ReadSCTP. destruct (read _ _) as [x q]. simpl. rewrite Ee.
    destruct (r_err x) as [[]|]; simpl; unfold dropDeadline; simpl; rewrite ?Ee; by destruct (s_readTimeoutCancel s).
Qed.

Lemma stream_lifecycle_witness :
  let (resets, s) := srun (newStream 5) [OpDeadline true 1; OpClose; OpDeadlineFires; OpInboundReset; OpClose; OpDeadline false 2] in
  resets = [5] /\ s_state s = StreamStateClosed /\ (ReadSCTP s [0]).1.1 = Some (0, 0, Some EOF, [0]).
Proof.
  pose proof (stream_lifecycle 5 [OpDeadline true 1; OpClose; OpDeadlineFires; OpInboundReset; OpClose; OpDeadline false 2]) as H.
  destruct (srun _ _) as [resets s] eqn:E. vm_compute in E. injection E as <- <-.
  destruct H as (H1 & _ & H3 & _); [by repeat constructor|]. split; [by rewrite H1|]. split; [by apply H3; set_solver|]. done.
Defined.

(** An empty message takes a sequence number and sends nothing, so the messages
    behind it are never delivered. *)
Lemma empty_write_stalls :
  exists pss st' s', write_all 9 2 (newStream 4) [([], 51); ([7], 51)] ∅ 1 = Some (pss, st', s')
    /\ sent st' 0 pss !! 0%nat = Some []
    /\ (rrun (sent st' 0 pss) (newStream 4) [Delivered 1 0; Reads [0; 0; 0; 0]]).1 = [].
Proof. do 3 eexists. split; [vm_compute; reflexivity|]. by vm_compute. Qed.
