(* ===== verification/Timers.v ===== *)
(** * Retransmission and acknowledgement timers (rtx_timer.go, ack_timer.go)

    The RTO manager, and the two timers as state machines.  A timer is built on
    the runtime's, whose function runs in a goroutine of its own: between the
    moment it fires and the moment its function gets the mutex, the timer may be
    stopped and started again.  [pending] counts these goroutines. *)

From S2P Require Import Prelude Float64.

Local Open Scope Z_scope.

(** ** RTO manager *)

Definition rtoInitial : F64.float64 := F64.of_int 1000.
Definition rtoMin : F64.float64 := F64.of_int 1000.
Definition defaultRTOMax : F64.float64 := F64.of_int 60000.
Definition rtoAlpha : F64.float64 := F64.div (F64.of_int 1) (F64.of_int 8).
Definition rtoBeta : F64.float64 := F64.div (F64.of_int 1) (F64.of_int 4).
Definition maxInitRetrans : Z := 8.
Definition pathMaxRetrans : Z := 5.
Definition noMaxRetrans : Z := 0.

Record rtoManager := mkRTO {
  srtt : F64.float64;
  rttvar : F64.float64;
  rto : F64.float64;
  noUpdate : bool;
  rtoMax : F64.float64
}.

Definition orDefault (rtoMax : F64.float64) : F64.float64 := if F64.eq rtoMax F64.zero then defaultRTOMax else rtoMax.

Definition newRTOManager (rtoMax : F64.float64) : rtoManager :=
  mkRTO F64.zero F64.zero rtoInitial false (orDefault rtoMax).

(** The smoothed round-trip time is returned. *)
Definition setNewRTT (m : rtoManager) (rtt : F64.float64) : F64.float64 * rtoManager :=
  if noUpdate m then (srtt m, m)
  else
    let one := F64.of_int 1 in
    let '(s, v) :=
      if F64.eq (srtt m) F64.zero then (rtt, F64.div rtt (F64.of_int 2))
      else (F64.add (F64.mul (F64.sub one rtoAlpha) (srtt m)) (F64.mul rtoAlpha rtt),
            F64.add (F64.mul (F64.sub one rtoBeta) (rttvar m)) (F64.mul rtoBeta (F64.abs (F64.sub (srtt m) rtt)))) in
    (s, mkRTO s v (F64.min (F64.max (F64.add s (F64.mul (F64.of_int 4) v)) rtoMin) (rtoMax m)) (noUpdate m) (rtoMax m)).

Definition getRTO (m : rtoManager) : F64.float64 := rto m.

Definition rto_reset (m : rtoManager) : rtoManager :=
  if noUpdate m then m else mkRTO F64.zero F64.zero rtoInitial (noUpdate m) (rtoMax m).

Definition setRTO (m : rtoManager) (r : F64.float64) (noUpdate : bool) : rtoManager :=
  mkRTO (srtt m) (rttvar m) r noUpdate (rtoMax m).

(** ** Retransmission timer *)

Definition calculateNextTimeout (rto : F64.float64) (nRtos : Z) (rtoMax : F64.float64) : F64.float64 :=
  if nRtos <? 31 then F64.min (F64.mul rto (F64.of_int (2 ^ nRtos))) rtoMax else rtoMax.

(** The method of the same name: nanoseconds. *)
Definition nextTimeout (rto : F64.float64) (nRtos : Z) (rtoMax : F64.float64) : Z :=
  i64 (F64.to_int (calculateNextTimeout rto nRtos rtoMax) * 1000000).

Inductive rtxTimerState := rtxTimerStopped | rtxTimerStarted | rtxTimerClosed.

#[global] Instance rtxTimerState_eq_dec : EqDecision rtxTimerState.
Proof. solve_decision. Defined.

(** [t_timer] is the runtime's timer, with the time it is set for when it is
    running; [t_fired] counts the goroutines that it started and that have not
    got the mutex yet. *)
Record rtxTimer := mkTimer {
  t_timer : option Z;
  t_fired : nat;
  t_maxRetrans : Z;
  t_rtoMax : F64.float64;
  t_rto : F64.float64;
  t_nRtos : Z;
  t_state : rtxTimerState;
  t_pending : Z
}.

(** Calls of the observer. *)
Inductive call := onRetransmissionTimeout (n : Z) | onRetransmissionFailure.

Definition newRTXTimer (maxRetrans : Z) (rtoMax : F64.float64) : rtxTimer :=
  mkTimer None 0 maxRetrans (orDefault rtoMax) F64.zero 0 rtxTimerStopped 0.

Definition timeout (t : rtxTimer) : option call * rtxTimer :=
  let p := u8 (t_pending t - 1) in
  if (p =? 0) && bool_decide (t_state t = rtxTimerStarted) then
    let n := u64 (t_nRtos t + 1) in
    if (t_maxRetrans t =? 0) || (n <=? t_maxRetrans t) then
      (Some (onRetransmissionTimeout n),
       mkTimer (Some (nextTimeout (t_rto t) n (t_rtoMax t))) (t_fired t) (t_maxRetrans t) (t_rtoMax t) (t_rto t) n
         (t_state t) (u8 (p + 1)))
    else
      (Some onRetransmissionFailure,
       mkTimer (t_timer t) (t_fired t) (t_maxRetrans t) (t_rtoMax t) (t_rto t) n rtxTimerStopped p)
  else (None, mkTimer (t_timer t) (t_fired t) (t_maxRetrans t) (t_rtoMax t) (t_rto t) (t_nRtos t) (t_state t) p).

Definition start (t : rtxTimer) (rto : F64.float64) : bool * rtxTimer :=
  if negb (bool_decide (t_state t = rtxTimerStopped)) then (false, t)
  else
    (true, mkTimer (Some (nextTimeout rto 0 (t_rtoMax t))) (t_fired t) (t_maxRetrans t) (t_rtoMax t) rto 0
             rtxTimerStarted (u8 (t_pending t + 1))).

(** [timer.Stop()] says whether it prevented the timer from firing. *)
Definition stop (t : rtxTimer) : rtxTimer :=
  if bool_decide (t_state t = rtxTimerStarted) then
    mkTimer None (t_fired t) (t_maxRetrans t) (t_rtoMax t) (t_rto t) (t_nRtos t) rtxTimerStopped
      (match t_timer t with Some _ => u8 (t_pending t - 1) | None => t_pending t end)
  else t.

Definition close (t : rtxTimer) : rtxTimer :=
  if bool_decide (t_state t = rtxTimerStarted) then
    mkTimer None (t_fired t) (t_maxRetrans t) (t_rtoMax t) (t_rto t) (t_nRtos t) rtxTimerClosed
      (match t_timer t with Some _ => u8 (t_pending t - 1) | None => t_pending t end)
  else mkTimer (t_timer t) (t_fired t) (t_maxRetrans t) (t_rtoMax t) (t_rto t) (t_nRtos t) rtxTimerClosed (t_pending t).

Definition isRunning (t : rtxTimer) : bool := bool_decide (t_state t = rtxTimerStarted).

(** *** What can happen: calls, the runtime's timer firing, a goroutine of it
    getting the mutex *)

Inductive top := TStart (rto : F64.float64) | TStop | TClose | TFire | TRun.

Definition set_fired (t : rtxTimer) (timer : option Z) (n : nat) : rtxTimer :=
  mkTimer timer n (t_maxRetrans t) (t_rtoMax t) (t_rto t) (t_nRtos t) (t_state t) (t_pending t).

(** What is seen: the answer of [start], a call of the observer. *)
Inductive seen := Started (ok : bool) | Called (c : call).

(** [None]: it cannot happen now. *)
Definition tstep (t : rtxTimer) (o : top) : option (list seen * rtxTimer) :=
  match o with
  | TStart r => let (ok, t') := start t r in Some ([Started ok], t')
  | TStop => Some ([], stop t)
  | TClose => Some ([], close t)
  | TFire => match t_timer t with Some _ => Some ([], set_fired t None (S (t_fired t))) | None => None end
  | TRun =>
      match t_fired t with
      | S n => let (c, t') := timeout (set_fired t (t_timer t) n) in Some (Called <$> option_list c, t')
      | O => None
      end
  end.

Fixpoint trun (t : rtxTimer) (ops : list top) : option (list seen * rtxTimer) :=
  match ops with
  | [] => Some ([], t)
  | o :: ops' => '(x, t1) ← tstep t o; '(xs, t2) ← trun t1 ops'; Some (x ++ xs, t2)
  end.

(** ** Acknowledgement timer *)

Definition ackInterval : Z := 200 * 1000000.

Record ackTimer := mkAck { a_timer : option Z; a_fired : nat; a_state : rtxTimerState; a_pending : Z }.

Definition newAckTimer : ackTimer := mkAck None 0 rtxTimerStopped 0.

(** Whether the observer's [onAckTimeout] is called. *)
Definition ack_timeout (t : ackTimer) : bool * ackTimer :=
  let p := u8 (a_pending t - 1) in
  if (p =? 0) && bool_decide (a_state t = rtxTimerStarted) then (true, mkAck (a_timer t) (a_fired t) rtxTimerStopped p)
  else (false, mkAck (a_timer t) (a_fired t) (a_state t) p).

Definition ack_start (t : ackTimer) : bool * ackTimer :=
  if negb (bool_decide (a_state t = rtxTimerStopped)) then (false, t)
  else (true, mkAck (Some ackInterval) (a_fired t) rtxTimerStarted (u8 (a_pending t + 1))).

Definition ack_stop (t : ackTimer) : ackTimer :=
  if bool_decide (a_state t = rtxTimerStarted) then
    mkAck None (a_fired t) rtxTimerStopped (match a_timer t with Some _ => u8 (a_pending t - 1) | None => a_pending t end)
  else t.

Definition ack_close (t : ackTimer) : ackTimer :=
  if bool_decide (a_state t = rtxTimerStarted) then
    mkAck None (a_fired t) rtxTimerClosed (match a_timer t with Some _ => u8 (a_pending t - 1) | None => a_pending t end)
  else mkAck (a_timer t) (a_fired t) rtxTimerClosed (a_pending t).

(** ** Theorems *)

(** *** The RTO stays in its range *)

Inductive rop := Measured (rtt : F64.float64) | RReset.

Definition rstep (m : rtoManager) (o : rop) : rtoManager :=
  match o with Measured rtt => (setNewRTT m rtt).2 | RReset => rto_reset m end.

Definition in_range (m : rtoManager) : Prop :=
  F64.le rtoMin (getRTO m) = true /\ F64.le (getRTO m) (rtoMax m) = true.

Record rto_inv (M : F64.float64) (m : rtoManager) : Prop := {
  ri_srtt : F64.nonneg (srtt m) = true;
  ri_rttvar : F64.nonneg (rttvar m) = true;
  ri_max : rtoMax m = M;
  ri_range : in_range m
}.

(** A measured time is a number, not negative. *)
Definition measured (o : rop) : Prop :=
  match o with Measured rtt => F64.nonneg rtt = true /\ F64.finite rtt = true | RReset => True end.

Lemma rto_inv_step M m o :
  F64.positive_finite M = true -> F64.le rtoMin M = true -> measured o -> rto_inv M m -> rto_inv M (rstep m o).
Proof.
  intros HM Hle Ho [Hs Hv Hm Hr]. destruct o as [rtt|]; simpl.
  - destruct Ho as [Hn Hf]. unfold setNewRTT. destruct (noUpdate m); [done|].
    set (sv := if F64.eq (srtt m) F64.zero then _ else _).
    assert (Hsv : F64.nonneg sv.1 = true /\ F64.nonneg sv.2 = true).
    { unfold sv. destruct (F64.eq (srtt m) F64.zero); cbn [fst snd].
      - split; [done|]. by apply F64.nonneg_div.
      - split; apply F64.nonneg_add; apply F64.nonneg_mul; try done. by apply F64.nonneg_abs_sub. }
    destruct sv as [s v]. cbn [fst snd] in *. destruct Hsv as [H1 H2]. constructor; [done..|].
    unfold in_range. cbn [getRTO rto rtoMax]. rewrite Hm. apply F64.clamp; [|done..]. apply F64.nonneg_add; [done|]. by apply F64.nonneg_mul.
  - unfold rto_reset. destruct (noUpdate m); [done|]. constructor; simpl; [done..|]. unfold in_range. simpl. rewrite Hm. done.
Qed.

(** C40. The retransmission timeout never leaves its range: whatever round-trip
    times are measured, smoothed in binary64 with all its rounding, and
    whenever the manager is reset, the RTO is at least RTO.Min and at most the
    configured maximum (60 s when none is configured). *)
Theorem rto_always_in_range rtoMax0 ops :
  (rtoMax0 = F64.zero \/ (F64.positive_finite rtoMax0 = true /\ F64.le rtoMin rtoMax0 = true)) ->
  Forall measured ops ->
  let m := fold_left rstep ops (newRTOManager rtoMax0) in
  F64.le rtoMin (getRTO m) = true /\ F64.le (getRTO m) (orDefault rtoMax0) = true.
Proof.
  intros HM Hops. set (M := orDefault rtoMax0).
  assert (Hpos : F64.positive_finite M = true /\ F64.le rtoMin M = true).
  { unfold M, orDefault. destruct HM as [->|[Hp Hl]]; [done|]. by destruct rtoMax0 as [| | |[]]. }
  destruct Hpos as [Hp Hl].
  assert (Hinv : rto_inv M (newRTOManager rtoMax0)) by (constructor; [done..|split; [done|exact Hl]]).
  assert (H : rto_inv M (fold_left rstep ops (newRTOManager rtoMax0))).
  { revert Hinv. generalize (newRTOManager rtoMax0) as m. induction Hops as [|o ops Ho _ IH]; intros m Hm; simpl; [done|].
    apply IH. by apply rto_inv_step. }
  destruct H as [_ _ Em [Hr1 Hr2]]. rewrite Em in Hr2. done.
Qed.

(** 80 ms twice, then 5 s, then 400 s. *)
Lemma rto_always_in_range_witness :
  let m := fold_left rstep [Measured (F64.of_int 80); Measured (F64.of_int 80); Measured (F64.of_int 5000); RReset;
                            Measured (F64.of_int 400000)] (newRTOManager F64.zero) in
  (F64.le rtoMin (getRTO m) = true /\ F64.le (getRTO m) (orDefault F64.zero) = true) /\ getRTO m = defaultRTOMax.
Proof. split; [apply rto_always_in_range; [by left|by repeat constructor]|]. vm_compute. reflexivity. Defined.

(** *** The retransmission timer does what a timer should *)

(** The timer as its callers think of it: not running; running, having expired
    [n] times; expired once more, which is not reported yet; closed. *)
Inductive phase := Idle | Armed (n : Z) | Due (n : Z) | Dead.

Section Spec.
Context (maxRetrans : Z).

Inductive spec_step : phase -> top -> list seen -> phase -> Prop :=
  | spec_start r : spec_step Idle (TStart r) [Started true] (Armed 0)
  | spec_start_again p r : p <> Idle -> spec_step p (TStart r) [Started false] p
  | spec_stop p : spec_step p TStop [] (match p with Dead => Dead | _ => Idle end)
  | spec_close p : spec_step p TClose [] Dead
  | spec_fire n : spec_step (Armed n) TFire [] (Due n)
  (* the goroutine of a timer that was stopped, or not the last one *)
  | spec_stale p : spec_step p TRun [] p
  | spec_report n :
      (maxRetrans = 0 \/ u64 (n + 1) <= maxRetrans) ->
      spec_step (Due n) TRun [Called (onRetransmissionTimeout (u64 (n + 1)))] (Armed (u64 (n + 1)))
  | spec_fail n :
      maxRetrans <> 0 -> maxRetrans < u64 (n + 1) -> spec_step (Due n) TRun [Called onRetransmissionFailure] Idle.

Inductive spec_run : phase -> list top -> list seen -> phase -> Prop :=
  | spec_nil p : spec_run p [] [] p
  | spec_cons p o x p1 ops xs p2 : spec_step p o x p1 -> spec_run p1 ops xs p2 -> spec_run p (o :: ops) (x ++ xs) p2.

Definition armed (t : rtxTimer) : Z := match t_timer t with Some _ => 1 | None => 0 end.

Record simulates (t : rtxTimer) (p : phase) : Prop := {
  sm_max : t_maxRetrans t = maxRetrans;
  sm_pending : t_pending t = u8 (armed t + Z.of_nat (t_fired t));
  sm_phase :
    match p with
    | Idle => t_state t = rtxTimerStopped /\ t_timer t = None
    | Armed n => t_state t = rtxTimerStarted /\ t_timer t = Some (nextTimeout (t_rto t) n (t_rtoMax t)) /\ t_nRtos t = n
    | Due n => t_state t = rtxTimerStarted /\ t_timer t = None /\ t_nRtos t = n /\ (0 < t_fired t)%nat
    | Dead => t_state t = rtxTimerClosed /\ t_timer t = None
    end
}.

Lemma u8_shift a b : u8 (u8 a + b) = u8 (a + b).
Proof. unfold u8, wrap. apply Zplus_mod_idemp_l. Qed.

Lemma u8_small a : 0 <= a < 256 -> u8 a = a.
Proof. intros H. unfold u8, wrap. apply Z.mod_small. lia. Qed.

Lemma simulates_run t p : simulates t p -> (t_fired t < 255)%nat ->
  forall x t', tstep t TRun = Some (x, t') -> exists p', spec_step p TRun x p' /\ simulates t' p'.
Proof.
  intros [Hm Hp Hph] Hlt x t' E. simpl in E. destruct (t_fired t) as [|n] eqn:Ef; [done|].
  unfold timeout in E. cbn [set_fired t_pending t_state t_nRtos t_maxRetrans t_timer t_fired t_rto t_rtoMax] in E.
  assert (Hp' : u8 (t_pending t - 1) = armed t + Z.of_nat n).
  { rewrite Hp. change (?a - 1) with (a + -1). rewrite u8_shift. replace (_ + -1) with (armed t + Z.of_nat n) by lia.
    apply u8_small. unfold armed. destruct (t_timer t); lia. }
  rewrite Hp' in E. rewrite Hm in E.
  destruct (Z.eqb_spec (armed t + Z.of_nat n) 0) as [H0|H0]; cbn [andb] in E.
  - assert (Ht : t_timer t = None) by (unfold armed in H0; destruct (t_timer t); [lia|done]).
    assert (n = 0%nat) as -> by (unfold armed in H0; destruct (t_timer t); lia).
    case_bool_decide as Hst; cbn [negb] in E.
    + destruct p as [|k|k|]; try (destruct Hph as [? ?]; congruence).
      { destruct Hph as (_ & Hz & _). congruence. }
      destruct Hph as (_ & _ & Hk & _). subst k.
      destruct ((maxRetrans =? 0) || (u64 (t_nRtos t + 1) <=? maxRetrans)) eqn:Eg; injection E as <- <-.
      * eexists. split; [apply spec_report; apply orb_true_iff in Eg as [?%Z.eqb_eq|?%Z.leb_le]; tauto|].
        constructor; [done|unfold armed; cbn; by rewrite Ht|]. simpl. done.
      * eexists. apply orb_false_iff in Eg as [E1%Z.eqb_neq E2%Z.leb_gt]. split; [by apply spec_fail|].
        constructor; [done|unfold armed; cbn; by rewrite Ht|]. simpl. done.
    + injection E as <- <-. exists p. split; [apply spec_stale|]. constructor; [done|unfold armed; cbn; by rewrite Ht|].
      destruct p; simpl; try done; tauto.
  - injection E as <- <-. exists p. split; [apply spec_stale|]. constructor; [done| |].
    + simpl. unfold armed at 2. simpl. fold (armed t). symmetry. apply u8_small. unfold armed. destruct (t_timer t); lia.
    + destruct p; simpl; try done. destruct Hph as (H1 & H2 & H3 & _). repeat split; try done. unfold armed in H0. rewrite H2 in H0. lia.
Qed.

Lemma simulates_step t p o x t' :
  simulates t p -> (t_fired t < 255)%nat -> tstep t o = Some (x, t') -> exists p', spec_step p o x p' /\ simulates t' p'.
Proof.
  intros Hs Hlt E. destruct o as [r| | | |]; [| | | |by eapply simulates_run]; destruct Hs as [Hm Hp Hph]; simpl in E.
  - unfold start in E. case_bool_decide as Hst; injection E as <- <-.
    + destruct p as [|k|k|]; try (destruct Hph as [? _]; congruence). destruct Hph as [_ Ht].
      eexists. split; [apply spec_start|]. constructor; [done| |done].
      simpl. rewrite Hp, u8_shift. unfold armed. simpl. rewrite Ht. f_equal. lia.
    + exists p. split; [|done]. apply spec_start_again. intros ->. by destruct Hph.
  - injection E as <- <-. eexists. split; [apply spec_stop|]. unfold stop.
    case_bool_decide as Hst.
    + constructor; simpl; [done| |by destruct p as [|k|k|]; try (destruct Hph; congruence)].
      rewrite Hp. unfold armed. simpl. destruct (t_timer t); simpl; [|done].
      change (?a - 1) with (a + -1). rewrite u8_shift. f_equal. lia.
    + constructor; [done..|]. by destruct p as [|k|k|]; try (destruct Hph; congruence).
  - injection E as <- <-. eexists. split; [apply spec_close|]. unfold close. case_bool_decide as Hst.
    + constructor; simpl; [done| |done].
      rewrite Hp. unfold armed. simpl. destruct (t_timer t); simpl; [|done].
      change (?a - 1) with (a + -1). rewrite u8_shift. f_equal. lia.
    + constructor; simpl; [done|done|]. split; [done|]. by destruct p as [|k|k|]; try (destruct Hph; congruence).
  - destruct (t_timer t) as [d|] eqn:Et; [|done]. injection E as <- <-.
    destruct p as [|k|k|]; try (destruct Hph as (? & ? & _); congruence).
    + destruct Hph as [_ ?]; congruence.
    + destruct Hph as (H1 & _ & H3). eexists. split; [apply spec_fire|]. constructor; simpl; [done| |repeat split; try done; lia].
      rewrite Hp. unfold armed. simpl. rewrite Et. f_equal. lia.
    + destruct Hph as [_ ?]; congruence.
Qed.

(** Never more goroutines of the runtime's timer waiting for the mutex than
    [pending] can count. *)
Fixpoint calm (t : rtxTimer) (ops : list top) : Prop :=
  (t_fired t < 255)%nat
  /\ match ops with
     | [] => True
     | o :: ops' => match tstep t o with Some (_, t1) => calm t1 ops' | None => True end
     end.

Lemma simulates_trun ops t p xs t' :
  simulates t p -> calm t ops -> trun t ops = Some (xs, t') -> exists p', spec_run p ops xs p' /\ simulates t' p'.
Proof.
  revert t p xs. induction ops as [|o ops IH]; intros t p xs Hs [Hlt Hc] E; simpl in E.
  - injection E as <- <-. exists p. split; [constructor|done].
  - destruct (tstep t o) as [[x t1]|] eqn:Eo; [|done]. simpl in E.
    destruct (trun t1 ops) as [[xs' t2]|] eqn:Er; [|done]. injection E as <- <-.
    destruct (simulates_step t p o x t1 Hs Hlt Eo) as (p1 & Hp1 & Hs1).
    destruct (IH t1 p1 xs' Hs1 Hc Er) as (p2 & Hp2 & Hs2). exists p2. split; [by econstructor|done].
Qed.

Definition is_running (p : phase) : bool := match p with Armed _ | Due _ => true | _ => false end.


End Spec.


(** *** The acknowledgement timer *)

Inductive aop := AStart | AStop | AClose | AFire | ARun.

Inductive aseen := AStarted (ok : bool) | AckTimeout.

Definition ack_step (t : ackTimer) (o : aop) : option (list aseen * ackTimer) :=
  match o with
  | AStart => let (ok, t') := ack_start t in Some ([AStarted ok], t')
  | AStop => Some ([], ack_stop t)
  | AClose => Some ([], ack_close t)
  | AFire => match a_timer t with Some _ => Some ([], mkAck None (S (a_fired t)) (a_state t) (a_pending t)) | None => None end
  | ARun =>
      match a_fired t with
      | S n => let (c, t') := ack_timeout (mkAck (a_timer t) n (a_state t) (a_pending t)) in
               Some (if c then [AckTimeout] else [], t')
      | O => None
      end
  end.

Inductive aphase := AIdle | AArmed | ADue | ADead.

Inductive ack_spec : aphase -> aop -> list aseen -> aphase -> Prop :=
  | ack_spec_start : ack_spec AIdle AStart [AStarted true] AArmed
  | ack_spec_start_again p : p <> AIdle -> ack_spec p AStart [AStarted false] p
  | ack_spec_stop p : ack_spec p AStop [] (match p with ADead => ADead | _ => AIdle end)
  | ack_spec_close p : ack_spec p AClose [] ADead
  | ack_spec_fire : ack_spec AArmed AFire [] ADue
  | ack_spec_stale p : ack_spec p ARun [] p
  | ack_spec_report : ack_spec ADue ARun [AckTimeout] AIdle.

Record ack_simulates (t : ackTimer) (p : aphase) : Prop := {
  as_pending : a_pending t = u8 ((match a_timer t with Some _ => 1 | None => 0 end) + Z.of_nat (a_fired t));
  as_phase :
    match p with
    | AIdle => a_state t = rtxTimerStopped /\ a_timer t = None
    | AArmed => a_state t = rtxTimerStarted /\ a_timer t = Some ackInterval
    | ADue => a_state t = rtxTimerStarted /\ a_timer t = None /\ (0 < a_fired t)%nat
    | ADead => a_state t = rtxTimerClosed /\ a_timer t = None
    end
}.

Lemma ack_run_simulates t p x t' :
  ack_simulates t p -> (a_fired t < 255)%nat -> ack_step t ARun = Some (x, t') ->
  exists p', ack_spec p ARun x p' /\ ack_simulates t' p'.
Proof.
  intros [Hp Hph] Hlt E. simpl in E. destruct (a_fired t) as [|n] eqn:Ef; [done|].
  unfold ack_timeout in E. cbn [a_pending a_state a_timer a_fired] in E.
  set (r := match a_timer t with Some _ => 1 | None => 0 end) in *.
  assert (Hr : 0 <= r <= 1) by (unfold r; destruct (a_timer t); lia).
  assert (Hp' : u8 (a_pending t - 1) = r + Z.of_nat n).
  { rewrite Hp. change (?a - 1) with (a + -1). rewrite u8_shift. replace (_ + -1) with (r + Z.of_nat n) by lia.
    apply u8_small. lia. }
  rewrite Hp' in E. destruct (Z.eqb_spec (r + Z.of_nat n) 0) as [H0|H0]; cbn [andb] in E.
  - assert (Ht : a_timer t = None) by (unfold r in H0; destruct (a_timer t); [lia|done]). assert (n = 0%nat) as -> by lia.
    case_bool_decide as Hst; injection E as <- <-.
    + destruct p; try (destruct Hph as [? ?]; congruence). exists AIdle. split; [constructor|].
      constructor; simpl; [by rewrite H0, Ht|done].
    + exists p. split; [constructor|]. constructor; simpl; [by rewrite H0, Ht|]. destruct p; try done; tauto.
  - injection E as <- <-. exists p. split; [constructor|]. constructor; simpl.
    + fold r. rewrite u8_small; lia.
    + destruct p; try done. destruct Hph as (H1 & H2 & _). split; [done|]. split; [done|]. unfold r in H0. rewrite H2 in H0. lia.
Qed.

(** The acknowledgement timer reports each expiry once, never after a stop or a
    close, whatever goroutines are late. *)
Lemma ack_timer_simulates t p o x t' :
  ack_simulates t p -> (a_fired t < 255)%nat -> ack_step t o = Some (x, t') ->
  exists p', ack_spec p o x p' /\ ack_simulates t' p'.
Proof.
  intros Hs Hlt E. destruct o; [| | | |by eapply ack_run_simulates]; destruct Hs as [Hp Hph]; simpl in E.
  - unfold ack_start in E. case_bool_decide as Hst; injection E as <- <-.
    + destruct p; try (destruct Hph as [? _]; congruence). destruct Hph as [_ Ht].
      exists AArmed. split; [constructor|]. constructor; [|done]. simpl. rewrite Hp, Ht, u8_shift. f_equal. lia.
    + exists p. split; [|done]. constructor. intros ->. by destruct Hph.
  - injection E as <- <-. eexists. split; [constructor|]. unfold ack_stop. case_bool_decide as Hst.
    + constructor; simpl; [|by destruct p; try (destruct Hph; congruence)].
      rewrite Hp. destruct (a_timer t); [|done]. change (?a - 1) with (a + -1). rewrite u8_shift. f_equal. lia.
    + constructor; [done|]. by destruct p; try (destruct Hph; congruence).
  - injection E as <- <-. eexists. split; [constructor|]. unfold ack_close. case_bool_decide as Hst.
    + constructor; simpl; [|done]. rewrite Hp. destruct (a_timer t); [|done]. change (?a - 1) with (a + -1). rewrite u8_shift. f_equal. lia.
    + constructor; simpl; [done|]. split; [done|]. by destruct p; try (destruct Hph; congruence).
  - destruct (a_timer t) as [d|] eqn:Et; [|done]. injection E as <- <-.
    destruct p; try (destruct Hph as (? & ? & _); congruence); try (destruct Hph as [_ ?]; congruence).
    exists ADue. split; [constructor|]. destruct Hph as [H1 _]. constructor; simpl; [|repeat split; try done; lia].
    rewrite Hp. f_equal. lia.
Qed.
