(* ===== verification/RackList.v ===== *)
(** * The RACK list (association.go: [rackInsert], [rackRemove])

    The outstanding chunks are linked through their own fields in the order of
    sending.  The links stand for a list without repetitions; the association
    (Sender.v, Sack.v) is stated over that list. *)

From S2P Require Import Prelude PayloadQueue.

Local Open Scope nat_scope.

(** The fields of a chunk that the list uses; a new chunk has the zero ones. *)
Record node := mkNode { rackPrev : option loc; rackNext : option loc; rackInList : bool }.

Definition zero : node := mkNode None None false.

Record links := mkLinks { nodes : gmap loc node; rackHead : option loc; rackTail : option loc }.

Definition node_at (s : links) (p : loc) : node := default zero (nodes s !! p).

Definition set_node (p : loc) (n : node) (s : links) : links := mkLinks (<[p := n]> (nodes s)) (rackHead s) (rackTail s).

Definition set_next (p : loc) (x : option loc) (s : links) : links :=
  set_node p (mkNode (rackPrev (node_at s p)) x (rackInList (node_at s p))) s.

Definition set_prev (p : loc) (x : option loc) (s : links) : links :=
  set_node p (mkNode x (rackNext (node_at s p)) (rackInList (node_at s p))) s.

Definition set_head (x : option loc) (s : links) : links := mkLinks (nodes s) x (rackTail s).

Definition set_tail (x : option loc) (s : links) : links := mkLinks (nodes s) (rackHead s) x.

Definition rackInsert (c : option loc) (s : links) : links :=
  match c with
  | None => s
  | Some p =>
      if rackInList (node_at s p) then s
      else
        let s := match rackTail s with
                 | Some t => set_prev p (Some t) (set_next t (Some p) s)
                 | None => set_head (Some p) s
                 end in
        let s := set_tail (Some p) s in
        set_node p (mkNode (rackPrev (node_at s p)) (rackNext (node_at s p)) true) s
  end.

Definition rackRemove (c : option loc) (s : links) : links :=
  match c with
  | None => s
  | Some p =>
      if negb (rackInList (node_at s p)) then s
      else
        let s := match rackPrev (node_at s p) with
                 | Some q => set_next q (rackNext (node_at s p)) s
                 | None => set_head (rackNext (node_at s p)) s
                 end in
        let s := match rackNext (node_at s p) with
                 | Some q => set_prev q (rackPrev (node_at s p)) s
                 | None => set_tail (rackPrev (node_at s p)) s
                 end in
        set_node p zero s
  end.

Definition new_links : links := mkLinks ∅ None None.

(** The loops over the list: [for chunk := a.rackHead; chunk != nil; chunk = chunk.rackNext]. *)
Fixpoint walk (fuel : nat) (s : links) (p : option loc) : list loc :=
  match fuel, p with
  | S fuel', Some q => q :: walk fuel' s (rackNext (node_at s q))
  | _, _ => []
  end.

(** ** What the links stand for *)

Definition before (l : list loc) (i : nat) : option loc := match i with O => None | S j => l !! j end.

Record stands_for (s : links) (l : list loc) : Prop := {
  sf_nodup : NoDup l;
  sf_head : rackHead s = l !! 0;
  sf_tail : rackTail s = last l;
  sf_in i p : l !! i = Some p -> node_at s p = mkNode (before l i) (l !! S i) true;
  sf_out p : p ∉ l -> node_at s p = zero
}.

(** The list operations. *)
Definition list_insert (p : loc) (l : list loc) : list loc := if bool_decide (p ∈ l) then l else l ++ [p].

Definition list_remove (p : loc) (l : list loc) : list loc := filter (fun q => q <> p) l.

Lemma node_set s p n q : node_at (set_node p n s) q = if decide (p = q) then n else node_at s q.
Proof. unfold node_at, set_node. simpl. rewrite lookup_insert. by case_decide. Qed.

Lemma in_list s l p : stands_for s l -> rackInList (node_at s p) = bool_decide (p ∈ l).
Proof.
  intros Hs. case_bool_decide as Hp.
  - apply list_elem_of_lookup in Hp as [i Hi]. by rewrite (sf_in _ _ Hs i p Hi).
  - by rewrite (sf_out _ _ Hs p Hp).
Qed.

Lemma insert_stands s l p : stands_for s l -> stands_for (rackInsert (Some p) s) (list_insert p l).
Proof.
  intros Hs. unfold rackInsert, list_insert. rewrite (in_list s l) by done. case_bool_decide as Hp; [done|].
  pose proof Hs as [Hn Hh Ht Hi Ho].
  assert (Hnd : NoDup (l ++ [p])).
  { apply NoDup_app. split; [done|]. split; [|apply NoDup_singleton]. intros x Hx Hx'. apply list_elem_of_singleton in Hx'. congruence. }
  destruct (last l) as [t|] eqn:El; rewrite Ht.
  - apply last_Some in El as [l0 ->]. assert (Hpt : p <> t) by set_solver.
    constructor; [done| | | |].
    + simpl. rewrite Hh, !lookup_app. by destruct l0.
    + simpl. by rewrite last_snoc.
    + intros i q Hq. rewrite node_set. case_decide as E.
      * subst q. assert (i = length (l0 ++ [t])) as ->.
        { eapply NoDup_lookup; [exact Hnd|exact Hq|]. by rewrite lookup_app_r, Nat.sub_diag. }
        unfold set_prev, set_next. simpl. unfold set_tail, node_at. simpl. fold (node_at s p).
        rewrite lookup_insert_eq. simpl. rewrite lookup_insert_ne by done. fold (node_at s p). rewrite (Ho p Hp). simpl.
        rewrite length_app. simpl. replace (length l0 + 1) with (S (length l0)) by lia. simpl.
        rewrite <- app_assoc, lookup_app_r, Nat.sub_diag by lia. simpl. f_equal. symmetry. apply lookup_ge_None. rewrite !length_app. simpl. lia.
      * change (node_at (set_tail ?x ?s') q) with (node_at s' q). unfold set_prev, set_next. rewrite !node_set.
        rewrite decide_False by done. apply lookup_app_Some in Hq as [Hq|[_ Hq]]; [|apply list_lookup_singleton_Some in Hq as [_ ?]; done].
        pose proof (lookup_lt_Some _ _ _ Hq) as Hlt. assert (Hb : before ((l0 ++ [t]) ++ [p]) i = before (l0 ++ [t]) i).
        { destruct i as [|j]; [done|]. simpl. by rewrite lookup_app_l by lia. }
        rewrite Hb. case_decide as E'.
        -- subst q. assert (i = length l0) as ->.
           { eapply NoDup_lookup; [exact Hn|exact Hq|]. by rewrite lookup_app_r, Nat.sub_diag. }
           rewrite (Hi _ _ Hq). simpl. f_equal. rewrite <- app_assoc, lookup_app_r by lia. by replace (S (length l0) - length l0) with 1 by lia.
        -- rewrite (Hi _ _ Hq). f_equal. rewrite (lookup_app_l (l0 ++ [t])); [done|].
           rewrite length_app in Hlt. simpl in Hlt. destruct (decide (i = length l0)) as [->|]; [|rewrite length_app; simpl; lia].
           rewrite lookup_app_r, Nat.sub_diag in Hq by lia. simpl in Hq. congruence.
    + intros q Hq. rewrite !not_elem_of_app in Hq. destruct Hq as [[Hq1 Hq2] Hq3].
      assert (q <> p /\ q <> t) as [? ?] by set_solver. rewrite node_set, decide_False by done.
      change (node_at (set_tail ?x ?s') q) with (node_at s' q). unfold set_prev, set_next. rewrite !node_set, !decide_False by done.
      apply Ho. rewrite not_elem_of_app. done.
  - apply last_None in El as ->. constructor; [done|done|done| |].
    + intros i q Hq. apply list_lookup_singleton_Some in Hq as [-> <-]. rewrite node_set, decide_True by done.
      change (node_at (set_tail ?x (set_head ?y ?s')) p) with (node_at s' p). by rewrite (Ho p Hp).
    + intros q Hq. rewrite node_set, decide_False by set_solver. change (node_at (set_tail ?x (set_head ?y ?s')) q) with (node_at s' q).
      apply Ho. set_solver.
Qed.

Lemma remove_split p l1 l2 : NoDup (l1 ++ p :: l2) -> list_remove p (l1 ++ p :: l2) = l1 ++ l2.
Proof.
  intros Hn. apply NoDup_app in Hn as (_ & H1 & H2). apply NoDup_cons in H2 as [H2 _]. unfold list_remove.
  rewrite filter_app, filter_cons_False by naive_solver. f_equal; apply filter_all; set_solver.
Qed.

Lemma last_before (l1 : list loc) x l2 : last l1 = before (l1 ++ x :: l2) (length l1).
Proof.
  destruct l1 as [|y l1 _] using rev_ind; [done|]. rewrite last_snoc, length_app, Nat.add_comm. simpl.
  by rewrite <- app_assoc, lookup_app_r, Nat.sub_diag by lia.
Qed.

(** What unlinking [p] does to the other nodes. *)
Lemma remove_node s p n q :
  node_at s p = n -> rackInList n = true -> rackPrev n <> Some p -> rackNext n <> Some p -> q <> p ->
  node_at (rackRemove (Some p) s) q
  = mkNode (if decide (rackNext n = Some q) then rackPrev n else rackPrev (node_at s q))
           (if decide (rackPrev n = Some q) then rackNext n else rackNext (node_at s q)) (rackInList (node_at s q)).
Proof.
  intros Hn Hin Hp Hx Hq. unfold rackRemove. rewrite Hn, Hin. cbn [negb]. set (s1 := match rackPrev n with Some x => _ | None => _ end).
  assert (H1 : forall x, node_at s1 x = if decide (rackPrev n = Some x)
    then mkNode (rackPrev (node_at s x)) (rackNext n) (rackInList (node_at s x)) else node_at s x).
  { intros x. unfold s1. destruct (rackPrev n) as [y|]; [|by rewrite decide_False]. unfold set_next. rewrite node_set.
    destruct (decide (y = x)) as [->|]; [by rewrite decide_True|]. rewrite decide_False; [done|congruence]. }
  assert (Hp1 : node_at s1 p = n) by (by rewrite H1, decide_False). rewrite Hp1. rewrite node_set, decide_False by done.
  destruct (rackNext n) as [y|] eqn:En.
  - unfold set_prev. rewrite node_set. destruct (decide (y = q)) as [->|Hy].
    + rewrite H1. rewrite (decide_True (P := Some q = Some q)) by done. by case_decide.
    + rewrite H1. rewrite (decide_False (P := Some y = Some q)) by congruence. case_decide; [done|]. by destruct (node_at s q).
  - change (node_at (set_tail ?x ?s') q) with (node_at s' q). rewrite H1, (decide_False (P := None = Some q)) by done.
    case_decide; [done|]. by destruct (node_at s q).
Qed.

Lemma remove_stands s l p : stands_for s l -> stands_for (rackRemove (Some p) s) (list_remove p l).
Proof.
  intros Hs. destruct (decide (p ∈ l)) as [Hp|Hp].
  2: { unfold rackRemove. rewrite (in_list s l), bool_decide_eq_false_2 by done. unfold list_remove. rewrite filter_all; [done|].
       intros x Hx. naive_solver. }
  pose proof Hs as [Hn Hh Ht Hi Ho]. apply list_elem_of_split in Hp as (l1 & l2 & ->). rewrite remove_split by done.
  pose proof Hn as Hn'. apply NoDup_app in Hn' as (N1 & N2 & N3). apply NoDup_cons in N3 as [N3 N4].
  assert (Hnode : node_at s p = mkNode (last l1) (l2 !! 0) true).
  { rewrite (Hi (length l1) p) by (by rewrite lookup_app_r, Nat.sub_diag by lia). rewrite <- last_before. f_equal.
    rewrite lookup_app_r by lia. by replace (S (length l1) - length l1) with 1 by lia. }
  assert (Hlast : forall x, last l1 = Some x -> x ∈ l1) by (intros x Hx; apply last_Some in Hx as [l' ->]; set_solver).
  assert (Hfirst : forall x, l2 !! 0 = Some x -> x ∈ l2) by (intros x Hx; by eapply list_elem_of_lookup_2).
  assert (Hother : forall q, q <> p -> node_at (rackRemove (Some p) s) q
    = mkNode (if decide (l2 !! 0 = Some q) then last l1 else rackPrev (node_at s q))
             (if decide (last l1 = Some q) then l2 !! 0 else rackNext (node_at s q)) (rackInList (node_at s q))).
  { intros q Hq. rewrite (remove_node s p _ q Hnode); [done|done| | |done]; simpl.
    - intros Hx%Hlast. set_solver.
    - intros Hx%Hfirst. done. }
  assert (Hnd : NoDup (l1 ++ l2)) by (apply NoDup_app; split; [done|]; split; [set_solver|done]).
  constructor; [done| | | |].
  - unfold rackRemove. rewrite Hnode. cbn [rackInList negb rackPrev rackNext].
    assert (Hhd : rackHead s = (l1 ++ p :: l2) !! 0) by done.
    destruct (last l1) as [x|] eqn:E.
    + assert (Hx : l1 <> []) by (by intros ->). destruct l1 as [|y l1]; [done|]. simpl in *. repeat case_match; exact Hhd.
    + apply last_None in E as ->. simpl. repeat case_match; done.
  - unfold rackRemove. rewrite Hnode. cbn [rackInList negb rackPrev rackNext].
    set (s1 := match last l1 with Some x => _ | None => _ end).
    assert (H1 : node_at s1 p = mkNode (last l1) (l2 !! 0) true /\ rackTail s1 = rackTail s).
    { unfold s1. destruct (last l1) as [x|] eqn:E; [|done]. split; [|done]. unfold set_next. rewrite node_set, decide_False; [done|].
      intros ->. specialize (Hlast p eq_refl). set_solver. }
    destruct H1 as [-> Ht1]. cbn [rackNext rackPrev]. destruct l2 as [|y l2]; simpl.
    + by rewrite app_nil_r.
    + rewrite Ht1, Ht. by rewrite !last_app.
  - intros j q Hq. assert (q <> p) by (apply list_elem_of_lookup_2 in Hq; set_solver). rewrite Hother by done.
    apply lookup_app_Some in Hq as [Hq|[Hj Hq]].
    + pose proof (lookup_lt_Some _ _ _ Hq) as Hlt. pose proof (list_elem_of_lookup_2 _ _ _ Hq) as Hin.
      rewrite (Hi j q) by (by rewrite lookup_app_l). simpl. rewrite decide_False by (intros Hx%Hfirst; set_solver).
      assert (Hb : before (l1 ++ p :: l2) j = before (l1 ++ l2) j) by (destruct j; [done|]; simpl; by rewrite !lookup_app_l by lia).
      rewrite Hb. f_equal. case_decide as E.
      * apply last_Some in E as [l' ->]. assert (j = length l') as ->.
        { eapply NoDup_lookup; [exact N1|exact Hq|]. by rewrite lookup_app_r, Nat.sub_diag. }
        rewrite (lookup_app_r (l' ++ [q]) l2) by (rewrite length_app; simpl; lia). rewrite length_app. simpl.
        by replace (S (length l') - (length l' + 1)) with 0 by lia.
      * assert (S j < length l1).
        { destruct (decide (S j = length l1)) as [Ej|]; [|lia]. destruct E. rewrite last_lookup, <- Ej. done. }
        by rewrite !lookup_app_l.
    + pose proof (list_elem_of_lookup_2 _ _ _ Hq) as Hin.
      rewrite (Hi (S j) q) by (rewrite lookup_app_r by lia; by replace (S j - length l1) with (S (j - length l1)) by lia). cbn [rackPrev rackNext rackInList].
      rewrite (decide_False (P := last l1 = Some q)) by (intros Hx%Hlast; set_solver). f_equal.
      * case_decide as E.
        -- assert (j = length l1) as ->.
           { assert (j - length l1 = 0); [|lia]. exact (NoDup_lookup _ _ _ _ N4 Hq E). }
           destruct l2 as [|x l2]; [done|]. apply last_before.
        -- assert (j <> length l1) by (intros ->; rewrite Nat.sub_diag in Hq; done). destruct j as [|j]; [lia|]. cbn [before].
           rewrite !lookup_app_r by lia. by replace (S j - length l1) with (S (j - length l1)) by lia.
      * rewrite !lookup_app_r by lia. by replace (S (S j) - length l1) with (S (S j - length l1)) by lia.
  - intros q Hq. rewrite not_elem_of_app in Hq. destruct (decide (q = p)) as [->|Hne].
    + unfold rackRemove. rewrite Hnode. simpl. by rewrite node_set, decide_True.
    + rewrite Hother by done. rewrite !decide_False by (intros Hx; (apply Hfirst in Hx || apply Hlast in Hx); naive_solver).
      rewrite Ho by set_solver. done.
Qed.

(** Following the links from a place in the list. *)
Lemma walk_stands s l : stands_for s l -> forall i, walk (length l - i) s (l !! i) = drop i l.
Proof.
  intros Hs i. remember (length l - i) as n eqn:En. revert i En. induction n as [|n IH]; intros i En; simpl.
  - symmetry. apply drop_ge. lia.
  - destruct (lookup_lt_is_Some_2 l i) as [p Hp]; [lia|]. rewrite Hp, (sf_in _ _ Hs i p Hp). simpl. rewrite IH by lia.
    by rewrite (drop_S l p i Hp).
Qed.

(** Calls: [None] is the nil chunk. *)
Inductive rop := RInsert (c : option loc) | RRemove (c : option loc).

Definition rapply (s : links) (o : rop) : links := match o with RInsert c => rackInsert c s | RRemove c => rackRemove c s end.

Definition lapply (l : list loc) (o : rop) : list loc :=
  match o with RInsert (Some p) => list_insert p l | RRemove (Some p) => list_remove p l | _ => l end.

(** The links are a list.  Whatever chunks are linked and unlinked, twice or
    not at all, the loops over the list visit exactly the chunks that were
    inserted and not removed since, each once, in the order of insertion; the
    links in both directions agree, and a chunk outside the list has no link
    into it. *)
Theorem rack_list_refines (ops : list rop) :
  let s := fold_left rapply ops new_links in
  let l := fold_left lapply ops [] in
  walk (length l) s (rackHead s) = l /\ NoDup l /\ rackTail s = last l
  /\ forall p, node_at s p = match list_find (fun q => q = p) l with
                             | Some (i, _) => mkNode (before l i) (l !! S i) true
                             | None => zero
                             end.
Proof.
  intros s l. assert (Hs : stands_for s l).
  { unfold s, l. assert (H0 : stands_for new_links []) by (constructor; [constructor|done|done|intros i p; by rewrite lookup_nil|done]).
    revert H0. generalize new_links ([] : list loc). induction ops as [|o ops IH]; intros s0 l0 H0; [done|]. simpl. apply IH.
    destruct o as [[p|]|[p|]]; [by apply insert_stands|done|by apply remove_stands|done]. }
  split; [|split; [apply Hs|split; [apply Hs|]]].
  - pose proof (walk_stands s l Hs 0) as Hw. rewrite Nat.sub_0_r in Hw. by rewrite (sf_head _ _ Hs), Hw.
  - intros p. destruct (list_find _ l) as [[i q]|] eqn:E.
    + apply list_find_Some in E as (Hi & -> & _). by apply (sf_in _ _ Hs).
    + apply list_find_None in E. apply (sf_out _ _ Hs). intros Hp. rewrite Forall_forall in E. by apply (E p).
Qed.
