(* ===== verification/Sender.v ===== *)
(** * The sending half of an association (association.go)

    From the pending queue to the packets, and from the SACKs back to the
    windows: TSN assignment, congestion and receiver windows, bundling,
    retransmission, RACK loss marking and the burst limits of tail loss
    recovery.  Every function runs under the association's lock, so it is a
    function of the association's state; a handler reads the clock once
    ([now], in nanoseconds; the zero [time.Time] is 0). *)

From S2P Require Import Prelude.
From S2P Require Import Serial.
From S2P Require Import Float64.
From S2P Require Import Bytes.
From S2P Require Import Chunks.
From S2P Require Import RingQueue.
From S2P Require Import PayloadQueue.
From S2P Require Import WindowedMin.
From S2P Require Import PendingQueue.
From S2P Require Import PendingSpec.
From S2P Require Import Reassembly.
From S2P Require Import Stream.
From S2P Require Import Timers.

Local Open Scope Z_scope.
Local Open Scope go_scope.

Inductive assocState :=
  | closed | cookieWait | cookieEchoed | established | shutdownAckSent | shutdownPending | shutdownReceived | shutdownSent.

#[global] Instance assocState_eq_dec : EqDecision assocState.
Proof. solve_decision. Defined.

Definition commonHeaderSize : Z := 12.
Definition dataChunkHeaderSize : Z := 16.
Definition iDataChunkHeaderSize : Z := 20.
Definition tlrUnitsPerMTU : Z := 4.
Definition tlrBurstDefaultFirstRTT : Z := 16.
Definition tlrBurstDefaultLaterRTT : Z := 8.
Definition tlrBurstMinFirstRTT : Z := 8.
Definition tlrBurstMinLaterRTT : Z := 5.
Definition tlrBurstStepDownFirstRTT : Z := 4.
Definition tlrBurstStepDownLaterRTT : Z := 1.
Definition tlrGoodOpsResetThreshold : Z := 16.

Definition second : Z := 1000000000.
Definition millisecond : Z := 1000000.

(** [Duration.Seconds() * 1000.0]. *)
Definition milliseconds (d : Z) : F64.float64 :=
  F64.mul (F64.add (F64.of_int (Z.quot d second)) (F64.div (F64.of_int (Z.rem d second)) (F64.of_int second)))
    (F64.of_int 1000).

(** [time.Duration(ms * 1e6)]. *)
Definition duration_of_ms (ms : F64.float64) : Z := F64.to_int (F64.mul ms (F64.of_int millisecond)).

(** ** State *)

Record congestion := mkCC {
  cwnd : Z; rwnd : Z; ssthresh : Z; partialBytesAcked : Z; inFastRecovery : bool; fastRecoverExitPoint : Z;
  minCwnd : Z; fastRtxWnd : Z; cwndCAStep : Z
}.

(** [rackList] is the list linked through the chunks, in the order of sending. *)
Record rackState := mkRack {
  rackReoWnd : Z; rackMinRTT : Z; rackDeliveredTime : Z; rackHighestDeliveredOrigTSN : Z; rackReorderingSeen : bool;
  rackKeepInflatedRecoveries : Z; rackList : list loc; minRTTWnd : windowedMin; rackReoWndFloor : Z; rackWCDelAck : Z;
  rackDeadline : Z; ptoDeadline : Z
}.

Record tlrState := mkTLR {
  tlrActive : bool; tlrFirstRTT : bool; tlrHadAdditionalLoss : bool; tlrEndTSN : Z; tlrBurstFirstRTTUnits : Z;
  tlrBurstLaterRTTUnits : Z; tlrGoodOps : Z; tlrStartTime : Z
}.

(** What the write loop is to send, and whether it has been woken. *)
Record plans := mkPlans {
  willSendForwardTSN : bool; willRetransmitFast : bool; willRetransmitReconfig : bool; willSendShutdown : bool;
  willSendShutdownAck : bool; awake : bool
}.

Section Sender.
Context {S : Type} `{SS : StreamScheduler S} {Q : Type} `{QI : QueueImpl loc Q}.

Abbreviation pendings := (@PendingSpec.pendingQueue S).

Record association := mkAssoc {
  heap : store;
  state : assocState;
  myNextTSN : Z;
  minTSN2MeasureRTT : Z;
  cumulativeTSNAckPoint : Z;
  advancedPeerTSNAckPoint : Z;
  inflightQueue : payloadQueue (Q := Q);
  pendingQueue : pendings;
  mtu : Z;
  useForwardTSN : bool;
  useIForwardTSN : bool;
  cc : congestion;
  rtoMgr : rtoManager;
  t3RTX : rtxTimer;
  srtt_ : F64.float64;
  rack : rackState;
  tlr : tlrState;
  plan : plans;
  streams_ : gmap Z Stream;
  blockWrite : bool;
  writePending : bool
}.

(** The functions change the state; [None] is a nil dereference or an index out
    of range. *)
Definition M (T : Type) : Type := association -> option (T * association).

#[local] Instance M_ret : MRet M := fun T x a => Some (x, a).
#[local] Instance M_bind : MBind M := fun T U f m a => '(x, a') ← m a; f x a'.

Definition read {T} (f : association -> T) : M T := fun a => Some (f a, a).

(** A computation that only looks at the state. *)
Definition look {T} (f : association -> option T) : M T := fun a => x ← f a; Some (x, a).

Definition upd (f : association -> association) : M unit := fun a => Some (tt, f a).

Definition try (f : association -> option association) : M unit := fun a => a' ← f a; Some (tt, a').

(** *** Setters *)

Definition set_heap (h : store) (a : association) : association :=
  mkAssoc h (state a) (myNextTSN a) (minTSN2MeasureRTT a) (cumulativeTSNAckPoint a) (advancedPeerTSNAckPoint a)
    (inflightQueue a) (pendingQueue a) (mtu a) (useForwardTSN a) (useIForwardTSN a) (cc a) (rtoMgr a) (t3RTX a) (srtt_ a)
    (rack a) (tlr a) (plan a) (streams_ a) (blockWrite a) (writePending a).

Definition set_state (s : assocState) (a : association) : association :=
  mkAssoc (heap a) s (myNextTSN a) (minTSN2MeasureRTT a) (cumulativeTSNAckPoint a) (advancedPeerTSNAckPoint a)
    (inflightQueue a) (pendingQueue a) (mtu a) (useForwardTSN a) (useIForwardTSN a) (cc a) (rtoMgr a) (t3RTX a) (srtt_ a)
    (rack a) (tlr a) (plan a) (streams_ a) (blockWrite a) (writePending a).

Definition set_tsns (next measure cum adv : Z) (a : association) : association :=
  mkAssoc (heap a) (state a) next measure cum adv (inflightQueue a) (pendingQueue a) (mtu a) (useForwardTSN a)
    (useIForwardTSN a) (cc a) (rtoMgr a) (t3RTX a) (srtt_ a) (rack a) (tlr a) (plan a) (streams_ a) (blockWrite a)
    (writePending a).

Definition set_queues (inflight : payloadQueue) (pending : pendings) (a : association) : association :=
  mkAssoc (heap a) (state a) (myNextTSN a) (minTSN2MeasureRTT a) (cumulativeTSNAckPoint a) (advancedPeerTSNAckPoint a)
    inflight pending (mtu a) (useForwardTSN a) (useIForwardTSN a) (cc a) (rtoMgr a) (t3RTX a) (srtt_ a) (rack a) (tlr a)
    (plan a) (streams_ a) (blockWrite a) (writePending a).

Definition set_cc (c : congestion) (a : association) : association :=
  mkAssoc (heap a) (state a) (myNextTSN a) (minTSN2MeasureRTT a) (cumulativeTSNAckPoint a) (advancedPeerTSNAckPoint a)
    (inflightQueue a) (pendingQueue a) (mtu a) (useForwardTSN a) (useIForwardTSN a) c (rtoMgr a) (t3RTX a) (srtt_ a)
    (rack a) (tlr a) (plan a) (streams_ a) (blockWrite a) (writePending a).

Definition set_timing (m : rtoManager) (t3 : rtxTimer) (s : F64.float64) (a : association) : association :=
  mkAssoc (heap a) (state a) (myNextTSN a) (minTSN2MeasureRTT a) (cumulativeTSNAckPoint a) (advancedPeerTSNAckPoint a)
    (inflightQueue a) (pendingQueue a) (mtu a) (useForwardTSN a) (useIForwardTSN a) (cc a) m t3 s (rack a) (tlr a) (plan a)
    (streams_ a) (blockWrite a) (writePending a).

Definition set_rack (r : rackState) (a : association) : association :=
  mkAssoc (heap a) (state a) (myNextTSN a) (minTSN2MeasureRTT a) (cumulativeTSNAckPoint a) (advancedPeerTSNAckPoint a)
    (inflightQueue a) (pendingQueue a) (mtu a) (useForwardTSN a) (useIForwardTSN a) (cc a) (rtoMgr a) (t3RTX a) (srtt_ a)
    r (tlr a) (plan a) (streams_ a) (blockWrite a) (writePending a).

Definition set_tlr (t : tlrState) (a : association) : association :=
  mkAssoc (heap a) (state a) (myNextTSN a) (minTSN2MeasureRTT a) (cumulativeTSNAckPoint a) (advancedPeerTSNAckPoint a)
    (inflightQueue a) (pendingQueue a) (mtu a) (useForwardTSN a) (useIForwardTSN a) (cc a) (rtoMgr a) (t3RTX a) (srtt_ a)
    (rack a) t (plan a) (streams_ a) (blockWrite a) (writePending a).

Definition set_plan (p : plans) (a : association) : association :=
  mkAssoc (heap a) (state a) (myNextTSN a) (minTSN2MeasureRTT a) (cumulativeTSNAckPoint a) (advancedPeerTSNAckPoint a)
    (inflightQueue a) (pendingQueue a) (mtu a) (useForwardTSN a) (useIForwardTSN a) (cc a) (rtoMgr a) (t3RTX a) (srtt_ a)
    (rack a) (tlr a) p (streams_ a) (blockWrite a) (writePending a).

Definition set_streams (s : gmap Z Stream) (a : association) : association :=
  mkAssoc (heap a) (state a) (myNextTSN a) (minTSN2MeasureRTT a) (cumulativeTSNAckPoint a) (advancedPeerTSNAckPoint a)
    (inflightQueue a) (pendingQueue a) (mtu a) (useForwardTSN a) (useIForwardTSN a) (cc a) (rtoMgr a) (t3RTX a) (srtt_ a)
    (rack a) (tlr a) (plan a) s (blockWrite a) (writePending a).

Definition set_writePending (b : bool) (a : association) : association :=
  mkAssoc (heap a) (state a) (myNextTSN a) (minTSN2MeasureRTT a) (cumulativeTSNAckPoint a) (advancedPeerTSNAckPoint a)
    (inflightQueue a) (pendingQueue a) (mtu a) (useForwardTSN a) (useIForwardTSN a) (cc a) (rtoMgr a) (t3RTX a) (srtt_ a)
    (rack a) (tlr a) (plan a) (streams_ a) (blockWrite a) b.

(** *** Small functions *)

Definition wire_at (h : store) (p : loc) : payloadData := from_option wire (mkPayload false true true false 0 0 0 0 0 0 [] false) (h !! p).

Definition deref (a : association) : loc -> payloadData := wire_at (heap a).

Definition chunk_at (p : loc) : M sendChunk := look (fun a => heap a !! p).

Definition set_chunk (p : loc) (c : sendChunk) : M unit := upd (fun a => set_heap (<[p := c]> (heap a)) a).

Definition set_sending (t since n : Z) (c : sendChunk) : sendChunk :=
  let d := wire c in
  mkSend (hdr c)
    (mkPayload (unordered d) (beginningFragment d) (endingFragment d) (immediateSack d) t (streamIdentifier d)
       (streamSequenceNumber d) (messageIdentifier d) (fragmentSequenceNumber d) (payloadType d) (userData d) (iData d))
    (acked c) (missIndicator c) since n (abandoned_ c) (allInflight_ c) (retransmit c) (head_ c).

Definition set_miss (n : Z) (c : sendChunk) : sendChunk :=
  mkSend (hdr c) (wire c) (acked c) n (since c) (nSent c) (abandoned_ c) (allInflight_ c) (retransmit c) (head_ c).

Definition isIData (c : sendChunk) : bool := iData (wire c) || (ch_typ (hdr c) =? ctIData).

Definition chunkSize (c : sendChunk) : Z :=
  if isIData c then chunkHeaderSize + iDataHeaderSize + dataLen c
  else chunkHeaderSize + payloadDataHeaderSize + dataLen c.

Definition chunkSizeInPacket (c : sendChunk) : Z := chunkSize c + getPadding (chunkSize c).

Definition setCWND (w : Z) (a : association) : association :=
  let c := cc a in
  set_cc (mkCC (if w <? minCwnd c then minCwnd c else w) (rwnd c) (ssthresh c) (partialBytesAcked c) (inFastRecovery c)
            (fastRecoverExitPoint c) (minCwnd c) (fastRtxWnd c) (cwndCAStep c)) a.

Definition setRWND (w : Z) (a : association) : association :=
  let c := cc a in
  set_cc (mkCC (cwnd c) w (ssthresh c) (partialBytesAcked c) (inFastRecovery c) (fastRecoverExitPoint c) (minCwnd c)
            (fastRtxWnd c) (cwndCAStep c)) a.

Definition partialReliabilityEnabled (a : association) : bool := useForwardTSN a || useIForwardTSN a.

Definition awakeWriteLoop (a : association) : association :=
  let p := plan a in
  set_plan (mkPlans (willSendForwardTSN p) (willRetransmitFast p) (willRetransmitReconfig p) (willSendShutdown p)
              (willSendShutdownAck p) true) a.

Definition set_fast (b : bool) (a : association) : association :=
  let p := plan a in
  set_plan (mkPlans (willSendForwardTSN p) b (willRetransmitReconfig p) (willSendShutdown p) (willSendShutdownAck p)
              (awake p)) a.

Definition set_forward (b : bool) (a : association) : association :=
  let p := plan a in
  set_plan (mkPlans b (willRetransmitFast p) (willRetransmitReconfig p) (willSendShutdown p) (willSendShutdownAck p)
              (awake p)) a.

Definition notifyBlockWritable (a : association) : association := set_writePending false a.

Definition generateNextTSN : M Z := fun a =>
  Some (myNextTSN a,
        set_tsns (myNextTSN a +32 1) (minTSN2MeasureRTT a) (cumulativeTSNAckPoint a) (advancedPeerTSNAckPoint a) a).

Definition t3_start (a : association) : association :=
  set_timing (rtoMgr a) (start (t3RTX a) (getRTO (rtoMgr a))).2 (srtt_ a) a.

Definition t3_stop (a : association) : association := set_timing (rtoMgr a) (stop (t3RTX a)) (srtt_ a) a.

(** [a.inflightQueue.get]. *)
Definition inflight_get (t : Z) : M (option loc) := look (fun a => PayloadQueue.get (heap a) (inflightQueue a) t).

(** *** The RACK list *)

Definition set_rackList (l : list loc) (a : association) : association :=
  let r := rack a in
  set_rack (mkRack (rackReoWnd r) (rackMinRTT r) (rackDeliveredTime r) (rackHighestDeliveredOrigTSN r)
              (rackReorderingSeen r) (rackKeepInflatedRecoveries r) l (minRTTWnd r) (rackReoWndFloor r) (rackWCDelAck r)
              (rackDeadline r) (ptoDeadline r)) a.

Definition rackInsert (p : loc) (a : association) : association :=
  if bool_decide (p ∈ rackList (rack a)) then a else set_rackList (rackList (rack a) ++ [p]) a.

Definition rackRemove (p : loc) (a : association) : association :=
  set_rackList (filter (fun p' => p' <> p) (rackList (rack a))) a.

Definition set_deadlines (rackDl ptoDl : Z) (a : association) : association :=
  let r := rack a in
  set_rack (mkRack (rackReoWnd r) (rackMinRTT r) (rackDeliveredTime r) (rackHighestDeliveredOrigTSN r)
              (rackReorderingSeen r) (rackKeepInflatedRecoveries r) (rackList r) (minRTTWnd r) (rackReoWndFloor r)
              (rackWCDelAck r) rackDl ptoDl) a.

Definition startRackTimer (now dur : Z) (a : association) : association :=
  set_deadlines (if dur <=? 0 then 0 else now + dur) (ptoDeadline (rack a)) a.

Definition stopRackTimer (a : association) : association := set_deadlines 0 (ptoDeadline (rack a)) a.

Definition startPTOTimer (now dur : Z) (a : association) : association :=
  set_deadlines (rackDeadline (rack a)) (if dur <=? 0 then 0 else now + dur) a.

Definition stopPTOTimer (a : association) : association := set_deadlines (rackDeadline (rack a)) 0 a.

(** ** Tail loss recovery: burst limits *)

Definition tlrFirstRTTDurationLocked (a : association) : Z :=
  if F64.lt F64.zero (srtt_ a) then duration_of_ms (srtt_ a) else second.

Definition set_tlrFirstRTT (b : bool) (t : tlrState) : tlrState :=
  mkTLR (tlrActive t) b (tlrHadAdditionalLoss t) (tlrEndTSN t) (tlrBurstFirstRTTUnits t) (tlrBurstLaterRTTUnits t)
    (tlrGoodOps t) (tlrStartTime t).

Definition tlrUpdatePhaseLocked (now : Z) (a : association) : association :=
  let t := tlr a in
  if negb (tlrActive t) || negb (tlrFirstRTT t) then a
  else if tlrStartTime t =? 0 then a
  else if tlrFirstRTTDurationLocked a <=? now - tlrStartTime t then set_tlr (set_tlrFirstRTT false t) a
  else a.

(** The units, after the phase has been updated. *)
Definition tlrCurrentBurstUnitsLocked (now : Z) : M Z := fun a =>
  if negb (tlrActive (tlr a)) then Some (0, a)
  else
    let a := tlrUpdatePhaseLocked now a in
    Some (if tlrFirstRTT (tlr a) then tlrBurstFirstRTTUnits (tlr a) else tlrBurstLaterRTTUnits (tlr a), a).

Definition tlrCurrentBurstBudgetScaledLocked (now : Z) : M Z := fun a =>
  if negb (tlrActive (tlr a)) then Some (0, a)
  else (units ← tlrCurrentBurstUnitsLocked now; mret (i64 (units * mtu a))) a.

(** The loop from [a.cumulativeTSNAckPoint + i + 1]: [last] and [found]. *)
Fixpoint highestOutstanding (fuel : nat) (a : association) (t : Z) (found : option Z) : option (option Z) :=
  match fuel with
  | O => None
  | Datatypes.S fuel' =>
      g ← PayloadQueue.get (heap a) (inflightQueue a) t;
      match g with
      | None => Some found
      | Some _ => highestOutstanding fuel' a (t +32 1) (Some t)
      end
  end.

(** One more turn than the queue has chunks. *)
Definition inflight_fuel (a : association) : nat := Datatypes.S (Z.to_nat (PayloadQueue.size (inflightQueue a))).

Definition tlrHighestOutstandingTSNLocked (a : association) : option (option Z) :=
  highestOutstanding (inflight_fuel a) a (cumulativeTSNAckPoint a +32 1) None.

Definition tlrBeginLocked (now : Z) : M unit := fun a =>
  last ← tlrHighestOutstandingTSNLocked a;
  let t := tlr a in
  Some (tt, set_tlr (mkTLR true true false (default (cumulativeTSNAckPoint a) last) (tlrBurstFirstRTTUnits t)
                       (tlrBurstLaterRTTUnits t) (tlrGoodOps t) now) a).

Definition tlrApplyAdditionalLossLocked (now : Z) (a : association) : association :=
  if negb (tlrActive (tlr a)) then a
  else
    let a := tlrUpdatePhaseLocked now a in
    let t := tlr a in
    let first := tlrBurstFirstRTTUnits t - tlrBurstStepDownFirstRTT in
    let later := tlrBurstLaterRTTUnits t - tlrBurstStepDownLaterRTT in
    set_tlr
      (if tlrFirstRTT t then
         mkTLR (tlrActive t) (tlrFirstRTT t) true (tlrEndTSN t) (if first <? tlrBurstMinFirstRTT then tlrBurstMinFirstRTT else first)
           (tlrBurstLaterRTTUnits t) 0 (tlrStartTime t)
       else
         mkTLR (tlrActive t) (tlrFirstRTT t) true (tlrEndTSN t) (tlrBurstFirstRTTUnits t)
           (if later <? tlrBurstMinLaterRTT then tlrBurstMinLaterRTT else later) 0 (tlrStartTime t)) a.

Definition tlrMaybeFinishLocked (ackProgress : bool) (a : association) : association :=
  let t := tlr a in
  if negb (tlrActive t) then a
  else
    let first := if tlrFirstRTT t && ackProgress then false else tlrFirstRTT t in
    if sna32GTE (cumulativeTSNAckPoint a) (tlrEndTSN t) then
      let good := if tlrHadAdditionalLoss t then 0 else tlrGoodOps t +32 1 in
      let reset := negb (tlrHadAdditionalLoss t) && (tlrGoodOpsResetThreshold <=? good) in
      set_tlr (mkTLR false false false 0 (if reset then tlrBurstDefaultFirstRTT else tlrBurstFirstRTTUnits t)
                 (if reset then tlrBurstDefaultLaterRTT else tlrBurstLaterRTTUnits t) (if reset then 0 else good)
                 (tlrStartTime t)) a
    else set_tlr (set_tlrFirstRTT first t) a.

(** The budget of a burst and whether anything of it was used; the write loop
    always passes both. *)
Definition tlrAllowSendLocked (a : association) (b : Z * bool) (estBytes : Z) : bool * (Z * bool) :=
  let (budgetScaled, consumed) := b in
  if negb (tlrActive (tlr a)) then (true, b)
  else if estBytes <=? 0 then (true, b)
  else
    let needScaled := estBytes * tlrUnitsPerMTU in
    if consumed && (budgetScaled <? needScaled) then (false, b)
    else (true, (if budgetScaled - needScaled <? 0 then 0 else budgetScaled - needScaled, true)).

(** ** Sending new data *)

Inductive sendErr := ErrPayloadDataStateNotExist (s : assocState) | ErrResetPacketInStateNotExist (s : assocState)
  | ErrInflightQueueTSNPop (t : Z) | ErrTSNRequestNotExist (t : Z) | ContextDone.

(** While a blocked write waits: its context ends, or it is notified and finds
    the association as the others left it. *)
Inductive wakeup := Cancelled | Notified (a : association).

(** [None]: still waiting. *)
Fixpoint awaitWritable (a : association) (wakeups : list wakeup) : option (option sendErr * association) :=
  if negb (writePending a) then Some (None, set_writePending true a)
  else
    match wakeups with
    | [] => None
    | Cancelled :: _ => Some (Some ContextDone, a)
    | Notified a' :: ws =>
        if negb (bool_decide (state a' = established)) then Some (Some (ErrPayloadDataStateNotExist (state a')), a')
        else awaitWritable a' ws
    end.

Definition sendPayloadData (a : association) (wakeups : list wakeup) (chunks : list loc)
  : option (option sendErr * association) :=
  if negb (bool_decide (state a = established)) then Some (Some (ErrPayloadDataStateNotExist (state a)), a)
  else
    '(err, a) ← (if blockWrite a then awaitWritable a wakeups else Some (None, a));
    match err with
    | Some _ => Some (err, a)
    | None =>
        Some (None, awakeWriteLoop (set_queues (inflightQueue a)
                                      (fold_left (PendingSpec.push (deref a)) chunks (pendingQueue a)) a))
    end.

(** The end-of-stream chunk, at the free location [p]. *)
Definition sendResetRequest (a : association) (p : loc) (streamIdentifier : Z) : option sendErr * association :=
  if negb (bool_decide (state a = established)) then (Some (ErrResetPacketInStateNotExist (state a)), a)
  else
    let c := mkSend (mkChunkHeader 0 0 []) (mkPayload false true true false 0 streamIdentifier 0 0 0 0 [] false)
               false 0 0 0 false false false None in
    let a := set_heap (<[p := c]> (heap a)) a in
    (None, awakeWriteLoop (set_queues (inflightQueue a) (PendingSpec.push (deref a) (pendingQueue a) p) a)).

Definition checkPartialReliabilityStatus (now : Z) (p : loc) : M unit := fun a =>
  if negb (partialReliabilityEnabled a) then Some (tt, a)
  else
    c ← heap a !! p;
    if payloadType (wire c) =? PayloadTypeWebRTCDCEP then Some (tt, a)
    else
      match streams_ a !! streamIdentifier (wire c) with
      | None => Some (tt, a)
      | Some s =>
          let expired :=
            if s_reliabilityType s =? ReliabilityTypeRexmit then s_reliabilityValue s <=? nSent c
            else if s_reliabilityType s =? ReliabilityTypeTimed
                 then s_reliabilityValue s <=? F64.to_int (milliseconds (now - since c))
                 else false in
          if expired then h ← setAbandoned (heap a) p true; Some (tt, rackRemove p (set_heap h a)) else Some (tt, a)
      end.

(** The error of [pop] is only logged. *)
Definition movePendingDataChunkToInflightQueue (now : Z) (p : loc) : M unit :=
  upd (fun a => set_queues (inflightQueue a) (PendingSpec.pop (deref a) (pendingQueue a) p).2 a) ;;
  c ← chunk_at p;
  (if endingFragment (wire c) then try (fun a => h ← setAllInflight (heap a) p; Some (set_heap h a)) else mret tt) ;;
  t ← generateNextTSN;
  c ← chunk_at p;
  set_chunk p (set_sending t now 1 c) ;;
  checkPartialReliabilityStatus now p ;;
  try (fun a => q ← PayloadQueue.pushNoCheck (heap a) (inflightQueue a) p; Some (set_queues q (pendingQueue a) a)) ;;
  upd (rackInsert p).

(** [order] is the order in which a range over the streams of a queue visits
    them. *)
Definition pending_peek (order : pendings -> list Z) : M (option loc) := fun a =>
  '(c, q) ← PendingSpec.peek (order (pendingQueue a)) (pendingQueue a); Some (c, set_queues (inflightQueue a) q a).

(** The loop of [popPendingDataChunksToSend].  Its result: the chunks to send, the
    streams to reset and what is left of the budget.  [fuel] bounds the turns. *)
Fixpoint popPendingLoop (fuel : nat) (order : pendings -> list Z) (now : Z) (budget : Z * bool) (bytesInPacket : Z)
    (chunks : list loc) (sisToReset : list Z) : M (list loc * list Z * (Z * bool)) :=
  match fuel with
  | O => fun _ => None
  | Datatypes.S fuel' =>
      next ← pending_peek order;
      match next with
      | None => mret (chunks, sisToReset, budget)
      | Some p =>
          c ← chunk_at p;
          let len := u32 (dataLen c) in
          if len =? 0 then
            upd (fun a => set_queues (inflightQueue a) (PendingSpec.pop (deref a) (pendingQueue a) p).2 a) ;;
            popPendingLoop fuel' order now budget bytesInPacket chunks (sisToReset ++ [streamIdentifier (wire c)])
          else
            a ← read (fun a => a);
            if cwnd (cc a) <? u32 (PayloadQueue.getNumBytes (inflightQueue a)) +32 len then mret (chunks, sisToReset, budget)
            else if rwnd (cc a) <? len then mret (chunks, sisToReset, budget)
            else
              let chunkBytes := chunkSizeInPacket c in
              if (negb (bytesInPacket =? 0)) && (mtu a <? bytesInPacket + chunkBytes) then
                popPendingLoop fuel' order now budget 0 chunks sisToReset
              else
                let first := bytesInPacket =? 0 in
                let addBytes := if first then chunkBytes + commonHeaderSize else chunkBytes in
                if first && (mtu a <? addBytes) then mret (chunks, sisToReset, budget)
                else
                  let (ok, budget) := tlrAllowSendLocked a budget addBytes in
                  if negb ok then mret (chunks, sisToReset, budget)
                  else
                    upd (fun a => setRWND (rwnd (cc a) -32 len) a) ;;
                    movePendingDataChunkToInflightQueue now p ;;
                    popPendingLoop fuel' order now budget ((if first then commonHeaderSize else bytesInPacket) + chunkBytes)
                      (chunks ++ [p]) sisToReset
      end
  end.

(** A probe when nothing is in flight and the windows let nothing through. *)
Definition windowProbe (order : pendings -> list Z) (now : Z) (budget : Z * bool) (chunks : list loc) : M (list loc * (Z * bool)) :=
  a ← read (fun a => a);
  if negb (bool_decide (chunks = []) && (PayloadQueue.size (inflightQueue a) =? 0)) then mret (chunks, budget)
  else
    next ← pending_peek order;
    match next with
    | None => mret (chunks, budget)
    | Some p =>
        c ← chunk_at p;
        if 0 <? dataLen c then
          let addBytes := commonHeaderSize + chunkSizeInPacket c in
          if addBytes <=? mtu a then
            let (ok, budget) := tlrAllowSendLocked a budget addBytes in
            if ok : bool then movePendingDataChunkToInflightQueue now p ;; mret (chunks ++ [p], budget)
            else mret (chunks, budget)
          else mret (chunks, budget)
        else mret (chunks, budget)
    end.

Definition popPendingDataChunksToSend (fuel : nat) (order : pendings -> list Z) (now : Z) (budget : Z * bool)
  : M (list loc * list Z * (Z * bool)) :=
  a ← read (fun a => a);
  res ← (if 0 <? PendingSpec.size (pendingQueue a) then
           '(chunks, sis, budget) ← popPendingLoop fuel order now budget 0 [] [];
           '(chunks, budget) ← windowProbe order now budget chunks;
           mret (chunks, sis, budget)
         else mret ([], [], budget));
  a ← read (fun a => a);
  (if blockWrite a && negb (bool_decide (res.1.1 = [])) && (PendingSpec.size (pendingQueue a) =? 0)
   then upd notifyBlockWritable else mret tt) ;;
  mret res.

(** The packets, as the chunks each of them carries: [open] is the packet being
    filled. *)
Fixpoint bundleLoop (h : store) (mtu : Z) (open : list loc) (bytesInPacket : Z) (chunks : list loc) : option (list (list loc)) :=
  match chunks with
  | [] => Some (if open is [] then [] else [open])
  | p :: chunks' =>
      c ← h !! p;
      if mtu <? bytesInPacket + chunkSizeInPacket c then
        ps ← bundleLoop h mtu [p] (commonHeaderSize + chunkSizeInPacket c) chunks'; Some (open :: ps)
      else bundleLoop h mtu (open ++ [p]) (bytesInPacket + chunkSizeInPacket c) chunks'
  end.

Definition bundleDataChunksIntoPackets (a : association) (chunks : list loc) : option (list (list loc)) :=
  bundleLoop (heap a) (mtu a) [] commonHeaderSize chunks.

End Sender.
