(* ===== verification/SenderSpec.v ===== *)
(** * What the sending half promises

    New data goes out within the congestion window, the receiver's window and
    the path MTU, with consecutive TSNs; nothing that waits is lost; and a
    sender with nothing in flight always sends something. *)

From S2P Require Import Prelude.
From S2P Require Import Serial.
From S2P Require Import Float64.
From S2P Require Import Bytes.
From S2P Require Import Chunks.
From S2P Require Import RingQueue.
From S2P Require Import PayloadQueue.
From S2P Require Import WindowedMin.
From S2P Require Import PendingQueue.
From S2P Require Import PendingSpec.
From S2P Require Import Reassembly.
From S2P Require Import Stream.
From S2P Require Import Timers.
From S2P Require Import Sender.

Local Open Scope Z_scope.
Local Open Scope go_scope.

(** ** Shapes: what sending does not change of a chunk *)

Definition shape_of (c : sendChunk) : chunkHeader * payloadData * option loc * bool * bool :=
  (hdr c,
   let d := wire c in
   mkPayload (unordered d) (beginningFragment d) (endingFragment d) (immediateSack d) 0 (streamIdentifier d)
     (streamSequenceNumber d) (messageIdentifier d) (fragmentSequenceNumber d) (payloadType d) (userData d) (iData d),
   head_ c, acked c, retransmit c).

Definition same_shape (h h' : store) : Prop := forall p, shape_of <$> h !! p = shape_of <$> h' !! p.

#[global] Instance same_shape_equiv : Equivalence same_shape.
Proof.
  split; [by intros h p|by intros h h' H p|intros h h' h'' H1 H2 p]. by rewrite H1.
Qed.

Lemma same_shape_insert h p c c' : h !! p = Some c -> shape_of c' = shape_of c -> same_shape h (<[p := c']> h).
Proof.
  intros Hp Hc q. destruct (decide (q = p)) as [->|Hne]; [|by rewrite lookup_insert_ne].
  rewrite lookup_insert_eq, Hp. simpl. by rewrite Hc.
Qed.

Lemma same_shape_lookup h h' p c : same_shape h h' -> h !! p = Some c -> exists c', h' !! p = Some c' /\ shape_of c' = shape_of c.
Proof.
  intros Hs Hp. specialize (Hs p). rewrite Hp in Hs. destruct (h' !! p) as [c'|]; [|done].
  exists c'. split; [done|]. by apply (inj Some) in Hs.
Qed.

Lemma shape_place c c' : shape_of c' = shape_of c -> same_place (wire c) (wire c').
Proof. intros [= _ H1 H2 H3 _ H4 _ _ _ _ _ _ _ _ _]. repeat split; done. Qed.

Lemma wire_at_place h h' : same_shape h h' -> forall p, same_place (wire_at h p) (wire_at h' p).
Proof.
  intros Hs p. unfold wire_at. destruct (h !! p) as [c|] eqn:E.
  - destruct (same_shape_lookup _ _ _ _ Hs E) as (c' & -> & Hc). by apply shape_place.
  - specialize (Hs p). rewrite E in Hs. by destruct (h' !! p).
Qed.

Lemma shape_len c c' : shape_of c' = shape_of c -> dataLen c' = dataLen c.
Proof. intros [= _ _ _ _ _ _ _ _ _ _ H _ _ _ _]. unfold dataLen. by rewrite H. Qed.

Lemma shape_size c c' : shape_of c' = shape_of c -> chunkSizeInPacket c' = chunkSizeInPacket c.
Proof.
  intros H. pose proof (shape_len _ _ H) as Hl. injection H as H1 _ _ _ _ _ _ _ _ _ _ H2 _ _ _.
  unfold chunkSizeInPacket, chunkSize, isIData. by rewrite Hl, H1, H2.
Qed.

Lemma len_at_shape h h' p : same_shape h h' -> len_at h' p = len_at h p.
Proof.
  intros Hs. unfold len_at. destruct (h !! p) as [c|] eqn:E.
  - destruct (same_shape_lookup _ _ _ _ Hs E) as (c' & -> & Hc). by apply shape_len.
  - specialize (Hs p). rewrite E in Hs. by destruct (h' !! p).
Qed.

Lemma total_shape h h' l : same_shape h h' -> total h' l = total h l.
Proof. intros Hs. induction l as [|p l IH]; [done|]. simpl. by rewrite IH, (len_at_shape h h'). Qed.

Lemma linked_shape h h' p : same_shape h h' -> linked h p -> linked h' p.
Proof.
  intros Hs (c & Hc & [m Hm]). destruct (same_shape_lookup _ _ _ _ Hs Hc) as (c' & Hc' & E). exists c'. split; [done|].
  assert (Eh : message_of p c' = message_of p c) by (unfold message_of; by injection E as _ _ _ _ _ _ _ _ _ _ _ _ -> _ _).
  rewrite Eh. destruct (same_shape_lookup _ _ _ _ Hs Hm) as (m' & -> & _). by eexists.
Qed.

Section SenderSpec.
Context {S : Type} `{SL : StreamSchedulerLaws S} {Q : Type} `{QL : QueueLaws loc Q}.

Abbreviation assoc := (@association S Q).

Lemma pq_ok_shape h h' (q : payloadQueue (Q := Q)) : same_shape h h' -> pq_ok h q -> pq_ok h' q.
Proof.
  intros Hs [Hv Hn Hl Hb]. constructor; [done|done| |by rewrite (total_shape h h')].
  eapply Forall_impl; [exact Hl|]. intros p. by apply linked_shape.
Qed.

Record send_ok (a : assoc) : Prop := {
  sk_policy : policy_ok (deref a) (policy (pendingQueue a));
  sk_count : PendingSpec.size (pendingQueue a) = Z.of_nat (length (contents (pendingQueue a)));
  sk_live : Forall (linked (heap a)) (contents (pendingQueue a));
  sk_nodup : NoDup (contents (pendingQueue a) ++ locs (inflightQueue a));
  sk_inflight : pq_ok (heap a) (inflightQueue a)
}.

(** The order in which the streams are visited is one of them. *)
Definition order_ok (order : @PendingSpec.pendingQueue S -> list Z) : Prop := forall q, visits (order q) q.

(** What a step keeps besides the queues. *)
Record kept (a a' : assoc) : Prop := {
  kp_shape : same_shape (heap a) (heap a');
  kp_cwnd : cwnd (cc a') = cwnd (cc a);
  kp_mtu : mtu a' = mtu a;
  kp_tlr : tlr a' = tlr a;
  kp_cum : cumulativeTSNAckPoint a' = cumulativeTSNAckPoint a;
  kp_streams : streams_ a' = streams_ a;
  kp_t3 : t3RTX a' = t3RTX a
}.

Lemma kept_refl a : kept a a.
Proof. by constructor. Qed.

Lemma kept_trans a a' a'' : kept a a' -> kept a' a'' -> kept a a''.
Proof. intros [? ? ? ? ? ? ?] [? ? ? ? ? ? ?]. constructor; [by etransitivity|congruence..]. Qed.

(** Marking a message. *)
Lemma mark_shape h p : linked h p ->
  (exists h', setAbandoned h p true = Some h' /\ same_shape h h')
  /\ exists h', setAllInflight h p = Some h' /\ same_shape h h'.
Proof.
  intros (c & Hc & [m Hm]). unfold setAbandoned, setAllInflight. rewrite Hc. simpl. rewrite Hm. simpl. split.
  - eexists. split; [done|]. by apply (same_shape_insert _ _ m).
  - destruct (endingFragment (wire c)); [|by eexists]. eexists. split; [done|]. by apply (same_shape_insert _ _ m).
Qed.

(** The fields that say when a chunk was sent. *)
Definition sending (h : store) (p : loc) : option (Z * Z * Z) := (fun c => (tsn (wire c), since c, nSent c)) <$> h !! p.

Lemma mark_sending h p : linked h p ->
  (forall h', setAbandoned h p true = Some h' -> forall x, sending h' x = sending h x)
  /\ forall h', setAllInflight h p = Some h' -> forall x, sending h' x = sending h x.
Proof.
  intros (c & Hc & [m Hm]). unfold setAbandoned, setAllInflight, sending. rewrite Hc. simpl. rewrite Hm. simpl.
  assert (Hi : forall m' x, (tsn (wire m'), since m', nSent m') = (tsn (wire m), since m, nSent m) ->
    (fun c => (tsn (wire c), since c, nSent c)) <$> <[message_of p c := m']> h !! x
    = (fun c => (tsn (wire c), since c, nSent c)) <$> h !! x).
  { intros m' x Hm'. rewrite lookup_insert. case_decide; [subst; rewrite Hm; simpl; by f_equal|done]. }
  split; [intros h' [= <-] x; by apply Hi|]. destruct (endingFragment (wire c)); intros h' [= <-] x; [by apply Hi|done].
Qed.

Lemma check_spec now p (a : assoc) :
  linked (heap a) p ->
  exists a', checkPartialReliabilityStatus now p a = Some (tt, a') /\ kept a a' /\ cc a' = cc a
    /\ pendingQueue a' = pendingQueue a /\ inflightQueue a' = inflightQueue a /\ myNextTSN a' = myNextTSN a
    /\ rackList (rack a') ⊆ rackList (rack a) /\ forall x, sending (heap a') x = sending (heap a) x.
Proof.
  intros Hl. assert (Hsame : exists a', Some (tt, a) = Some (tt, a') /\ kept a a' /\ cc a' = cc a
    /\ pendingQueue a' = pendingQueue a /\ inflightQueue a' = inflightQueue a /\ myNextTSN a' = myNextTSN a
    /\ rackList (rack a') ⊆ rackList (rack a) /\ forall x, sending (heap a') x = sending (heap a) x) by (exists a; by split_and!; try apply kept_refl).
  unfold checkPartialReliabilityStatus. destruct (negb _); [done|]. pose proof Hl as (c & Hc & Hm). rewrite Hc. simpl.
  destruct (payloadType _ =? _); [done|]. destruct (streams_ a !! _) as [s|]; [|done].
  destruct (mark_shape (heap a) p Hl) as [(h' & Hh & Hs) _]. destruct (mark_sending (heap a) p Hl) as [Hsd _].
  set (e := if s_reliabilityType s =? _ then _ else _). destruct e; [|done]. rewrite Hh. simpl.
  eexists. split; [done|]. split; [by constructor|]. do 4 (split; [done|]). split; [|intros x; by apply Hsd].
  intros x Hx. simpl in Hx. by apply list_elem_of_filter in Hx as [_ ?].
Qed.

(** ** What one step sends

    [new] went from the pending queue to the in-flight queue, and [resets], which
    carry no data, were only taken out. *)
(** Two lists in one, each in its order. *)
Inductive merge : list loc -> list loc -> list loc -> Prop :=
  | merge_nil : merge [] [] []
  | merge_l p l r o : merge l r o -> merge (p :: l) r (p :: o)
  | merge_r p l r o : merge l r o -> merge l (p :: r) (p :: o).

Lemma merge_app l r o l' r' o' : merge l r o -> merge l' r' o' -> merge (l ++ l') (r ++ r') (o ++ o').
Proof. induction 1; intros H'; simpl; [done|..]; constructor; auto. Qed.

Record sent (now : Z) (a : assoc) (new resets : list loc) (a' : assoc) : Prop := {
  st_kept : kept a a';
  st_ok : send_ok a';
  st_inflight : locs (inflightQueue a') = locs (inflightQueue a) ++ new;
  st_pending : contents (pendingQueue a) ≡ₚ new ++ resets ++ contents (pendingQueue a');
  st_resets : Forall (fun p => len_at (heap a) p = 0) resets;
  st_tsn : forall i p, new !! i = Some p -> sending (heap a') p = Some (u32 (myNextTSN a + Z.of_nat i), now, 1);
  st_next : myNextTSN a' = u32 (myNextTSN a + Z.of_nat (length new));
  st_others : forall p, p ∉ new -> sending (heap a') p = sending (heap a) p;
  st_rack : rackList (rack a') ⊆ rackList (rack a) ++ new;
  st_served : exists o, merge new resets o /\ serves (deref a) (pendingQueue a) o (pendingQueue a')
}.

Lemma sent_nothing now a a' :
  kept a a' -> send_ok a' -> inflightQueue a' = inflightQueue a -> contents (pendingQueue a) = contents (pendingQueue a') ->
  in_u 32 (myNextTSN a) -> myNextTSN a' = myNextTSN a -> heap a' = heap a -> rack a' = rack a ->
  serves (deref a) (pendingQueue a) [] (pendingQueue a') -> sent now a [] [] a'.
Proof.
  intros Hk Hok Hi Hc Hn Hn' Hh Hr Hs. constructor; try done.
  - by rewrite Hi, app_nil_r.
  - by rewrite Hc.
  - rewrite Hn'. simpl. rewrite Z.add_0_r. by rewrite u32_small.
  - by rewrite Hh.
  - rewrite Hr. set_solver.
  - exists []. split; [constructor|done].
Qed.

Lemma sent_trans now a new resets a' new' resets' a'' :
  sent now a new resets a' -> sent now a' new' resets' a'' -> sent now a (new ++ new') (resets ++ resets') a''.
Proof.
  intros [K1 O1 I1 P1 R1 T1 N1 X1 Y1 (o1 & M1 & V1)] [K2 O2 I2 P2 R2 T2 N2 X2 Y2 (o2 & M2 & V2)].
  assert (Hd : forall p, p ∈ new -> p ∉ new').
  { pose proof (sk_nodup _ O2) as Hn. rewrite I2, I1 in Hn. apply NoDup_app in Hn as (_ & _ & Hn).
    apply NoDup_app in Hn as (_ & Hn & _). intros p Hp. apply Hn. apply elem_of_app. by right. }
  constructor; [by eapply kept_trans|done|by rewrite I2, I1, app_assoc|..].
  - rewrite P1, P2. solve_Permutation.
  - apply Forall_app. split; [done|]. eapply Forall_impl; [exact R2|]. intros p <-. symmetry. apply len_at_shape, K1.
  - intros i p Hp. apply lookup_app_Some in Hp as [Hp|[Hi Hp]].
    + rewrite X2 by (eapply Hd, list_elem_of_lookup_2; done). by apply T1.
    + rewrite (T2 _ _ Hp), N1. do 3 f_equal. unfold u32, wrap. rewrite Zplus_mod_idemp_l. f_equal. lia.
  - rewrite N2, N1, length_app. unfold u32, wrap. rewrite Zplus_mod_idemp_l. f_equal. lia.
  - intros p Hp. apply not_elem_of_app in Hp as [Hp1 Hp2]. by rewrite X2, X1.
  - set_solver.
  - exists (o1 ++ o2). split; [by apply merge_app|]. eapply serves_trans; [exact V1|].
    eapply serves_ext; [|exact V2]. intros c. pose proof (wire_at_place _ _ (kp_shape _ _ K1) c) as Hp. unfold deref, same_place in *. naive_solver.
Qed.

(** ** The steps of the loop *)

(** [p] has been peeked: taking it out leaves [q2]. *)
Record offered (a : assoc) (p : loc) (q2 : @PendingSpec.pendingQueue S) : Prop := {
  of_pop : PendingSpec.pop (deref a) (pendingQueue a) p = (None, q2);
  of_ok : policy_ok (deref a) (policy q2);
  of_contents : contents (pendingQueue a) ≡ₚ p :: contents q2;
  of_size : PendingSpec.size q2 = PendingSpec.size (pendingQueue a) - 1;
  of_serves : serves (deref a) (pendingQueue a) [p] q2
}.

Lemma send_ok_queues (a : assoc) q :
  send_ok a -> policy_ok (deref a) (policy q) -> contents q = contents (pendingQueue a) ->
  PendingSpec.size q = PendingSpec.size (pendingQueue a) -> send_ok (set_queues (inflightQueue a) q a).
Proof. intros [Hp Hc Hl Hn Hi] Hq Hcq Hs. constructor; simpl; rewrite ?Hcq, ?Hs; done. Qed.

Lemma peek_spec order now (a : assoc) :
  send_ok a -> order_ok order -> in_u 32 (myNextTSN a) ->
  exists r a1, pending_peek order a = Some (r, a1) /\ sent now a [] [] a1 /\ cc a1 = cc a
    /\ PendingSpec.size (pendingQueue a1) = PendingSpec.size (pendingQueue a)
    /\ match r with
       | None => contents (pendingQueue a) = []
       | Some p => (exists q2, offered a1 p q2) /\ pending_peek order a1 = Some (Some p, a1)
       end.
Proof.
  intros Hok Hord Hn. pose proof (sk_policy _ Hok) as Hpol. unfold pending_peek.
  destruct (policy_serve (deref a) (pendingQueue a) (order (pendingQueue a)) Hpol (Hord _)) as (r & q1 & E & H1 & H2 & H3 & H4 & H5).
  rewrite E. simpl. eexists r, _. split; [done|]. split; [|split; [done|split; [done|]]].
  - apply sent_nothing; try done; [by apply send_ok_queues|]. intros m part rest W Ep Hi. unfold peek in E. rewrite Ep in E. injection E as _ <-.
    by apply (serves_nothing (deref a) (pendingQueue a) (pendingQueue a) eq_refl m part rest W).
  - destruct r as [p|]; [|done]. split.
    + destruct H5 as (q2 & Hpop & Hok2 & Hperm & _ & Hch & _). exists q2. split; simpl; [done|done| | |].
      * by rewrite H2.
      * unfold PendingSpec.size. lia.
      * eapply (serves_pop (deref a) (order q1)); [|exact Hpop]. exact (peek_again (deref a) (pendingQueue a) _ _ _ Hpol (Hord _) E ltac:(done) _).
    + rewrite (peek_again (deref a) (pendingQueue a) _ _ _ Hpol (Hord _) E) by done. done.
Qed.

Lemma offered_live a p q2 : send_ok a -> offered a p q2 -> linked (heap a) p /\ p ∉ contents q2 /\ p ∉ locs (inflightQueue a).
Proof.
  intros [Hp Hc Hl Hn Hi] [_ _ Ho _ _]. rewrite Ho in Hl, Hn. apply Forall_cons in Hl as [? _]. simpl in Hn.
  apply NoDup_cons in Hn as [Hn _]. rewrite not_elem_of_app in Hn. naive_solver.
Qed.

(** A chunk without data is dropped. *)
Lemma drop_spec now a p q2 :
  send_ok a -> in_u 32 (myNextTSN a) -> offered a p q2 -> len_at (heap a) p = 0 ->
  sent now a [] [p] (set_queues (inflightQueue a) q2 a).
Proof.
  intros [Hp Hc Hl Hn Hi] Hnext [Hpop Hok Hperm Hsz Hsv] Hz. constructor; try done.
  - constructor; try done; simpl.
    + rewrite Hsz, Hc, Hperm. simpl. lia.
    + rewrite Hperm in Hl. by apply Forall_cons in Hl as [_ ?].
    + rewrite Hperm in Hn. simpl in Hn. by apply NoDup_cons in Hn as [_ ?].
  - by rewrite app_nil_r.
  - by repeat constructor.
  - simpl. rewrite Z.add_0_r. by rewrite u32_small.
  - simpl. set_solver.
  - exists [p]. split; [repeat constructor|done].
Qed.

Lemma bind_step {T U} (m : M (S := S) (Q := Q) T) (f : T -> M U) a x a' : m a = Some (x, a') -> @mbind M M_bind T U f m a = f x a'.
Proof. intros E. unfold mbind, M_bind. by rewrite E. Qed.

Lemma chunk_at_spec (a : assoc) p c : heap a !! p = Some c -> chunk_at p a = Some (c, a).
Proof. intros E. unfold chunk_at, look. by rewrite E. Qed.

(** The final state of a move, given the heap it leaves. *)
Lemma move_sent now (a a' : assoc) p q2 q' t :
  send_ok a -> offered a p q2 -> in_u 32 (myNextTSN a) ->
  kept a a' -> pendingQueue a' = q2 -> pq_ok (heap a') q' -> locs q' = locs (inflightQueue a) ++ [p] -> inflightQueue a' = q' ->
  t = myNextTSN a -> myNextTSN a' = t +32 1 ->
  (forall x, sending (heap a') x = if decide (x = p) then Some (t, now, 1) else sending (heap a) x) ->
  rackList (rack a') ⊆ rackList (rack a) ++ [p] -> sent now a [p] [] a'.
Proof.
  intros [Hp Hc Hl Hn Hi] [Hpop Hok Hperm Hsz Hsv] Hnext Hk <- Hq Hlq <- -> Hn' Hs Hrk. constructor; try done.
  - constructor.
    + eapply policy_ok_ext; [|exact Hok]. apply wire_at_place, Hk.
    + rewrite Hsz, Hc, Hperm. simpl. lia.
    + rewrite Hperm in Hl. apply Forall_cons in Hl as [_ Hl]. eapply Forall_impl; [exact Hl|]. intros x. apply linked_shape, Hk.
    + rewrite Hlq. rewrite Hperm in Hn. by rewrite app_assoc, <- Permutation_cons_append.
    + done.
  - intros i x Hx. apply list_lookup_singleton_Some in Hx as [-> <-]. rewrite Hs, decide_True by done.
    rewrite Z.add_0_r. by rewrite u32_small.
  - intros x Hx. rewrite Hs, decide_False; [done|]. by rewrite list_elem_of_singleton in Hx.
  - exists [p]. split; [repeat constructor|done].
Qed.

Lemma move_spec now a p q2 :
  send_ok a -> offered a p q2 -> in_u 32 (myNextTSN a) ->
  exists a', movePendingDataChunkToInflightQueue now p a = Some (tt, a') /\ sent now a [p] [] a' /\ cc a' = cc a
    /\ pendingQueue a' = q2.
Proof.
  intros Hok Hof Hnext. destruct (offered_live _ _ _ Hok Hof) as (Hlive & _ & Hfresh).
  unfold movePendingDataChunkToInflightQueue. set (a1 := set_queues (inflightQueue a) q2 a).
  rewrite (bind_step _ _ a tt a1) by (unfold upd; by rewrite (of_pop _ _ _ Hof)).
  pose proof Hlive as (c & Hc & _). rewrite (bind_step _ _ _ _ _ (chunk_at_spec a1 p c Hc)).
  assert (exists h2, (if endingFragment (wire c) then try (fun a => h ← setAllInflight (heap a) p; Some (set_heap h a)) else M_ret _ tt) a1
    = Some (tt, set_heap h2 a1) /\ same_shape (heap a) h2 /\ forall x, sending h2 x = sending (heap a) x) as (h2 & E2 & Hs2 & Hx2).
  { destruct (mark_shape _ _ Hlive) as [_ (h & Hh & Hs)]. destruct (mark_sending _ _ Hlive) as [_ Hsd].
    destruct (endingFragment (wire c)); [|by exists (heap a); destruct a].
    exists h. unfold try. simpl. rewrite Hh. split; [done|]. split; [done|]. by apply Hsd. }
  erewrite bind_step by exact E2. erewrite bind_step; [|done].
  destruct (same_shape_lookup _ _ _ _ Hs2 Hc) as (c2 & Hc2 & Hsh2).
  erewrite bind_step; [|by apply chunk_at_spec].
  erewrite bind_step; [|done]. cbn [set_heap set_tsns heap].
  set (a2 := set_heap _ _). set (c3 := set_sending _ _ _ _) in *.
  assert (Hs3 : same_shape (heap a) (heap a2)).
  { etransitivity; [exact Hs2|]. by apply (same_shape_insert _ _ c2). }
  destruct (check_spec now p a2) as (a3 & E3 & K3 & C3 & P3 & I3 & N3 & R3 & X3).
  { by eapply linked_shape. }
  erewrite bind_step by exact E3.
  assert (K03 : kept a a3) by (eapply kept_trans; [|exact K3]; by constructor).
  destruct (pushNoCheck_ok (heap a3) (inflightQueue a3) p) as (q' & Eq & Hq' & Hl').
  { rewrite I3. eapply pq_ok_shape; [apply K03|apply Hok]. }
  { eapply linked_shape; [apply K03|done]. }
  { by rewrite I3. }
  erewrite bind_step; [|unfold try; by rewrite Eq]. unfold upd.
  assert (Hr : exists l, rackInsert p (set_queues q' (pendingQueue a3) a3) = set_rackList l (set_queues q' (pendingQueue a3) a3)
    /\ l ⊆ rackList (rack a) ++ [p]).
  { change (rackList (rack a2)) with (rackList (rack a)) in R3. unfold rackInsert. destruct (bool_decide _).
    - exists (rackList (rack a3)). split; [by destruct a3 as [? ? ? ? ? ? ? ? ? ? ? ? ? ? ? []]|]. set_solver.
    - eexists. split; [done|]. simpl. set_solver. }
  destruct Hr as (l & -> & Hlr). eexists. split; [done|]. split; [|split; [exact C3|exact P3]].
  eapply (move_sent now a _ p q2 q' (myNextTSN a)); try done.
  - by destruct K03.
  - by rewrite Hl', I3.
  - intros x. cbn. rewrite X3. unfold a2, sending. cbn. rewrite lookup_insert. case_decide as E.
    + subst x. by rewrite decide_True.
    + rewrite decide_False by done. apply Hx2.
Qed.

(** ** The loop *)

(** Sizes as they are in use: none of the sums in the loop wraps. *)
Record small (a : assoc) : Prop := {
  sm_cwnd : 0 <= cwnd (cc a) < 2 ^ 31;
  sm_rwnd : in_u 32 (rwnd (cc a));
  sm_flight : PayloadQueue.getNumBytes (inflightQueue a) < 2 ^ 31;
  sm_chunks : Forall (fun p => len_at (heap a) p < 2 ^ 31) (contents (pendingQueue a));
  sm_next : in_u 32 (myNextTSN a)
}.

Definition size_at (h : store) (p : loc) : Z := from_option chunkSizeInPacket 0 (h !! p).

(** Sending within the windows and the MTU. *)
Record outcome (now : Z) (a : assoc) (new resets : list loc) (a' : assoc) : Prop := {
  out_sent : sent now a new resets a';
  out_small : small a';
  out_rwnd : rwnd (cc a') = rwnd (cc a) - total (heap a) new;
  out_cwnd : new = [] \/ PayloadQueue.getNumBytes (inflightQueue a') <= cwnd (cc a);
  out_mtu : Forall (fun p => commonHeaderSize + size_at (heap a) p <= mtu a) new
}.

Lemma queued_nonneg h l : 0 <= total h l.
Proof.
  induction l as [|p l IH]; simpl; [lia|]. unfold len_at. destruct (h !! p); simpl; [|lia].
  pose proof (zlen_nonneg (userData (wire s))). unfold dataLen. lia.
Qed.

Lemma size_at_shape h h' p : same_shape h h' -> size_at h' p = size_at h p.
Proof.
  intros Hs. unfold size_at. destruct (h !! p) as [c|] eqn:E.
  - destruct (same_shape_lookup _ _ _ _ Hs E) as (c' & -> & Hc). by apply shape_size.
  - specialize (Hs p). rewrite E in Hs. by destruct (h' !! p).
Qed.

Lemma sent_bytes now a new resets a' :
  send_ok a -> sent now a new resets a' ->
  PayloadQueue.getNumBytes (inflightQueue a') = PayloadQueue.getNumBytes (inflightQueue a) + total (heap a) new.
Proof.
  intros Ha [K O I _ _ _ _ _ _]. unfold PayloadQueue.getNumBytes. rewrite (pq_bytes _ _ (sk_inflight _ O)).
  rewrite I, (total_shape (heap a) (heap a')) by apply K. by rewrite total_app, (pq_bytes _ _ (sk_inflight _ Ha)).
Qed.

Lemma outcome_trans now a new resets a' new' resets' a'' :
  send_ok a -> outcome now a new resets a' -> outcome now a' new' resets' a'' -> outcome now a (new ++ new') (resets ++ resets') a''.
Proof.
  intros Ha [S1 M1 R1 C1 F1] [S2 M2 R2 C2 F2]. pose proof (st_kept _ _ _ _ _ S1) as [K1 K2 K3 K4 K5 _ _].
  constructor; [by eapply sent_trans|done|..].
  - rewrite R2, R1, total_app, (total_shape (heap a) (heap a')) by done. lia.
  - destruct C2 as [->|C2]; [|right; by rewrite <- K2]. rewrite app_nil_r. destruct C1 as [->|C1]; [by left|right].
    rewrite (sent_bytes _ _ _ _ _ (st_ok _ _ _ _ _ S1) S2). simpl. lia.
  - apply Forall_app. split; [done|]. eapply Forall_impl; [exact F2|]. intros p. by rewrite K3, (size_at_shape (heap a) (heap a')).
Qed.

(** A step that keeps the receiver's window and adds nothing to the flight. *)
Lemma outcome_idle now a resets a' :
  send_ok a -> small a -> sent now a [] resets a' -> cc a' = cc a -> outcome now a [] resets a'.
Proof.
  intros Ha [M1 M2 M3 M4 M5] Hs Hc. pose proof (sent_bytes _ _ _ _ _ Ha Hs) as Hb. destruct Hs as [K O I P R T N X Y V].
  constructor; [by constructor| |by rewrite Hc; simpl; lia|by left|done].
  constructor; rewrite ?Hc; try done.
  - rewrite Hb. simpl. lia.
  - rewrite P in M4. simpl in M4. apply Forall_app in M4 as [_ M4]. eapply Forall_impl; [exact M4|]. intros p.
    by rewrite (len_at_shape (heap a) (heap a')) by apply K.
  - rewrite N. apply u32_range.
Qed.

(** Moving the offered chunk once it has passed the checks. *)
Lemma outcome_move now a p q2 :
  send_ok a -> small a -> offered a p q2 ->
  PayloadQueue.getNumBytes (inflightQueue a) + len_at (heap a) p <= cwnd (cc a) -> len_at (heap a) p <= rwnd (cc a) ->
  commonHeaderSize + size_at (heap a) p <= mtu a ->
  exists a', movePendingDataChunkToInflightQueue now p (setRWND (rwnd (cc a) -32 len_at (heap a) p) a) = Some (tt, a')
    /\ outcome now a [p] [] a' /\ PendingSpec.size (pendingQueue a') = PendingSpec.size (pendingQueue a) - 1.
Proof.
  intros Ha [M1 M2 M3 M4 M5] Ho Hcw Hrw Hmtu. set (a1 := setRWND _ a).
  assert (Ha1 : send_ok a1) by (by destruct Ha). assert (Ho1 : offered a1 p q2) by (by destruct Ho).
  destruct (move_spec now a1 p q2 Ha1 Ho1 M5) as (a' & E & Hs & Hc & Hp). exists a'. split; [done|].
  assert (Hs' : sent now a [p] [] a') by (destruct Hs as [[] ? ? ? ? ? ? ? ? ?]; by constructor).
  pose proof (sent_bytes _ _ _ _ _ Ha Hs') as Hb. pose proof (queued_nonneg (heap a) [p]) as Hlen. simpl in Hb, Hlen.
  assert (Hr : rwnd (cc a') = rwnd (cc a) - len_at (heap a) p).
  { rewrite Hc. simpl. apply u32_small. unfold in_u in *. lia. }
  split; [|rewrite Hp; apply Ho].
  constructor; [done| |simpl; lia|right; lia|by constructor].
  destruct Hs' as [[K1 K2 K3 K4 K5 _ _] O I P R T N X Y V]. constructor.
  - by rewrite K2.
  - rewrite Hr. unfold in_u in *. lia.
  - lia.
  - rewrite P in M4. simpl in M4. apply Forall_cons in M4 as [_ M4]. eapply Forall_impl; [exact M4|]. intros x.
    by rewrite (len_at_shape (heap a) (heap a')).
  - rewrite N. apply u32_range.
Qed.

(** Nothing is left to send, or a chunk with data is the next one. *)
Definition stops (order : @PendingSpec.pendingQueue S -> list Z) (a : assoc) : Prop :=
  contents (pendingQueue a) = []
  \/ exists p q2, offered a p q2 /\ 0 < len_at (heap a) p /\ pending_peek order a = Some (Some p, a).

Lemma chunk_size_pos c : 0 < chunkSizeInPacket c.
Proof.
  unfold chunkSizeInPacket, chunkSize, getPadding, dataLen. pose proof (zlen_nonneg (userData (wire c))).
  set (n := if isIData c then _ else _).
  assert (0 < n) by (unfold n, chunkHeaderSize, iDataHeaderSize, payloadDataHeaderSize; destruct (isIData c); lia).
  unfold paddingMultiple. pose proof (Z.rem_bound_pos n 4). pose proof (Z.rem_nonneg (4 - Z.rem n 4) 4). lia.
Qed.

Lemma sids_kept a a' l : kept a a' -> map (fun p => streamIdentifier (deref a' p)) l = map (fun p => streamIdentifier (deref a p)) l.
Proof. intros K. apply map_ext. intros p. symmetry. apply wire_at_place, K. Qed.

(** A turn that has been taken, and the rest of the loop. *)
Lemma loop_compose order now (a a1 : assoc) new1 resets1 run chunks sis :
  send_ok a -> outcome now a new1 resets1 a1 ->
  (exists new resets budget' a',
     run = Some (((chunks ++ new1) ++ new, (sis ++ map (fun p => streamIdentifier (deref a p)) resets1)
                  ++ map (fun p => streamIdentifier (deref a1 p)) resets, budget'), a')
     /\ outcome now a1 new resets a' /\ stops order a') ->
  exists (new resets : list loc) (budget' : Z * bool) a',
    run = Some ((chunks ++ new, sis ++ map (fun p => streamIdentifier (deref a p)) resets, budget'), a')
    /\ outcome now a new resets a' /\ stops order a'.
Proof.
  intros Ha O1 (new & resets & b & a' & -> & O2 & St). exists (new1 ++ new), (resets1 ++ resets), b, a'.
  rewrite map_app, (sids_kept a a1), !app_assoc by apply O1. split; [done|]. split; [by eapply outcome_trans|done].
Qed.

Lemma popPendingLoop_spec order now fuel : forall (a : assoc) budget bytesInPacket chunks sis,
  send_ok a -> small a -> order_ok order -> bytesInPacket = 0 \/ commonHeaderSize <= bytesInPacket ->
  2 * PendingSpec.size (pendingQueue a) + (if bytesInPacket =? 0 then 0 else 1) < Z.of_nat fuel ->
  exists new resets budget' a',
    popPendingLoop fuel order now budget bytesInPacket chunks sis a
    = Some ((chunks ++ new, sis ++ map (fun p => streamIdentifier (deref a p)) resets, budget'), a')
    /\ outcome now a new resets a' /\ stops order a'.
Proof.
  induction fuel as [|fuel IH]; intros a budget bytes chunks sis Ha Hsm Hord Hb Hf.
  { pose proof (sk_count _ Ha). destruct (bytes =? 0); lia. }
  cbn [popPendingLoop].
  destruct (peek_spec order now a Ha Hord (sm_next _ Hsm)) as (r & a1 & E1 & S1 & C1 & Z1 & Hr).
  rewrite (bind_step _ _ _ _ _ E1). pose proof (outcome_idle _ _ _ _ Ha Hsm S1 C1) as O1.
  destruct r as [p|].
  2: { exists [], [], budget, a1. rewrite !app_nil_r. split; [done|]. split; [done|]. left.
    destruct S1 as [_ _ _ P _ _ _ _ _]. rewrite Hr in P. by apply Permutation_nil_l in P. }
  destruct Hr as [[q2 Ho] Hag]. pose proof (st_ok _ _ _ _ _ S1) as Ha1. pose proof (out_small _ _ _ _ _ O1) as Hsm1.
  destruct (offered_live _ _ _ Ha1 Ho) as ((c & Hc & _) & _ & _).
  rewrite (bind_step _ _ _ _ _ (chunk_at_spec _ _ _ Hc)).
  assert (Hlen : len_at (heap a1) p = dataLen c) by (unfold len_at; by rewrite Hc).
  assert (Hsz : size_at (heap a1) p = chunkSizeInPacket c) by (unfold size_at; by rewrite Hc).
  pose proof (zlen_nonneg (userData (wire c)) : 0 <= dataLen c) as Hpos. pose proof (chunk_size_pos c) as Hcs.
  assert (Hlt : dataLen c < 2 ^ 31).
  { pose proof (sm_chunks _ Hsm1) as Hl. rewrite (of_contents _ _ _ Ho), Forall_cons, Hlen in Hl. apply Hl. }
  rewrite (u32_small (dataLen c)) by (unfold in_u; lia).
  eapply (loop_compose order now a a1 [] []); [done|done|]. cbn [map]. rewrite !app_nil_r.
  destruct (Z.eqb_spec (dataLen c) 0) as [Hz|Hz].
  { assert (Hd : outcome now a1 [] [p] (set_queues (inflightQueue a1) q2 a1)).
    { apply outcome_idle; try done. apply drop_spec; try done; [apply Hsm1|by rewrite Hlen]. }
    rewrite (bind_step _ _ a1 tt (set_queues (inflightQueue a1) q2 a1)) by (unfold upd; by rewrite (of_pop _ _ _ Ho)).
    eapply loop_compose; [done|exact Hd|]. cbn [map]. rewrite !app_nil_r.
    replace (streamIdentifier (deref a1 p)) with (streamIdentifier (wire c)) by (unfold deref, wire_at; by rewrite Hc).
    apply IH; try done; [apply Hd|apply Hd|]. simpl. rewrite (of_size _ _ _ Ho). destruct (bytes =? 0); lia. }
  assert (Hst : stops order a1) by (right; exists p, q2; by rewrite Hlen; split; [|split; [lia|]]).
  assert (Hbreak : forall b : Z * bool, exists (new resets : list loc) (budget' : Z * bool) a',
    Some ((chunks, sis, b), a1) = Some ((chunks ++ new, sis ++ map (fun p => streamIdentifier (deref a1 p)) resets, budget'), a')
    /\ outcome now a1 new resets a' /\ stops order a').
  { intros b. exists [], [], b, a1. rewrite !app_nil_r. split; [done|]. split; [|done].
    apply outcome_idle; try done. by apply sent_nothing; try apply kept_refl; try apply serves_nothing; try apply Hsm1. }
  rewrite (bind_step (read _) _ a1 a1 a1) by done. pose proof Hsm1 as [M1 M2 M3 M4 M5].
  assert (Hnn : 0 <= PayloadQueue.getNumBytes (inflightQueue a1)).
  { unfold PayloadQueue.getNumBytes. rewrite (pq_bytes _ _ (sk_inflight _ Ha1)). apply queued_nonneg. }
  rewrite !u32_small by (unfold in_u; rewrite ?u32_small by (unfold in_u; lia); lia).
  destruct (Z.ltb_spec (cwnd (cc a1)) (PayloadQueue.getNumBytes (inflightQueue a1) + dataLen c)) as [Hcw|Hcw]; [apply Hbreak|].
  destruct (Z.ltb_spec (rwnd (cc a1)) (dataLen c)) as [Hrw|Hrw]; [apply Hbreak|].
  destruct (negb (bytes =? 0) && (mtu a1 <? bytes + chunkSizeInPacket c)) eqn:Enew.
  { apply andb_true_iff in Enew as [Eb _]. apply negb_true_iff in Eb. rewrite Eb in Hf.
    apply IH; try done; [by left|]. simpl. lia. }
  set (first := bytes =? 0) in *. set (add := if first then _ else _).
  destruct (first && (mtu a1 <? add)) eqn:Efit; [apply Hbreak|].
  destruct (tlrAllowSendLocked a1 budget add) as [ok budget']. destruct ok; [|apply Hbreak]. cbn [negb].
  destruct (outcome_move now a1 p q2) as (a2 & E2 & O2 & Z2); try done; [lia|lia| |].
  { rewrite Hsz. unfold add, first, commonHeaderSize in *. destruct (Z.eqb_spec bytes 0); simpl in Enew, Efit; lia. }
  rewrite Hlen in E2. erewrite bind_step by done. rewrite (bind_step _ _ _ _ _ E2).
  eapply loop_compose; [done|exact O2|]. cbn [map]. rewrite !app_nil_r.
  apply IH; try apply O2; try done.
  - right. unfold first, commonHeaderSize in *. destruct (Z.eqb_spec bytes 0); lia.
  - rewrite Z2, Z1. destruct ((if first then commonHeaderSize else bytes) + chunkSizeInPacket c =? 0), first; lia.
Qed.

(** ** The probe and the packets *)

Lemma inflight_none (a : assoc) : send_ok a -> (PayloadQueue.size (inflightQueue a) =? 0) = bool_decide (locs (inflightQueue a) = []).
Proof.
  intros Ha. unfold PayloadQueue.size. rewrite Len_law by apply Ha. fold (locs (inflightQueue a)).
  destruct (locs (inflightQueue a)); [done|]. rewrite bool_decide_eq_false_2 by done. simpl. lia.
Qed.

(** The next chunk is too large for a packet of its own. *)
Definition too_large (a : assoc) : Prop :=
  exists p q2, offered a p q2 /\ mtu a < commonHeaderSize + size_at (heap a) p.

(** The probe sends at most one chunk, and only when nothing is in flight. *)
Definition probed (now : Z) (chunks : list loc) (a : assoc) (run : option (list loc * (Z * bool) * assoc)) : Prop :=
  exists new budget' a', run = Some ((chunks ++ new, budget'), a')
    /\ sent now a new [] a' /\ cc a' = cc a
    /\ (new = [] \/ exists p, new = [p] /\ chunks = [] /\ locs (inflightQueue a) = []
                      /\ commonHeaderSize + size_at (heap a) p <= mtu a)
    /\ (chunks = [] -> locs (inflightQueue a) = [] -> tlrActive (tlr a) = false -> new = [] ->
        contents (pendingQueue a') = [] \/ too_large a').

Lemma windowProbe_spec order now budget chunks (a : assoc) :
  send_ok a -> in_u 32 (myNextTSN a) -> order_ok order -> stops order a ->
  probed now chunks a (windowProbe order now budget chunks a).
Proof.
  intros Ha Hn Hord Hst. unfold windowProbe. erewrite bind_step by done. rewrite inflight_none by done.
  assert (Hid : sent now a [] [] a) by (by apply sent_nothing; try apply kept_refl; try apply serves_nothing).
  assert (Hstay : forall b, (chunks = [] -> locs (inflightQueue a) = [] -> tlrActive (tlr a) = false -> too_large a) ->
    probed now chunks a (Some ((chunks, b), a))).
  { intros b HP. exists [], b, a. rewrite app_nil_r. split_and!; try done; [by left|]. intros. right. by apply HP. }
  destruct (bool_decide (chunks = []) && _) eqn:Eb.
  2: { apply Hstay. intros -> Hl. by rewrite Hl, !bool_decide_eq_true_2 in Eb. }
  apply andb_true_iff in Eb as [->%bool_decide_eq_true Hl%bool_decide_eq_true]. cbn [negb].
  destruct Hst as [He|(p & q2 & Ho & Hpos & Hpk)].
  - destruct (peek_spec order now a Ha Hord Hn) as (r & a1 & E1 & S1 & C1 & _ & Hr). rewrite (bind_step _ _ _ _ _ E1).
    pose proof (st_pending _ _ _ _ _ S1) as Hp. rewrite He in Hp. simpl in Hp. apply Permutation_nil_l in Hp. destruct r as [p|].
    { destruct Hr as [[q2 Ho] _]. pose proof (of_contents _ _ _ Ho) as Hc. rewrite <- Hp in Hc. by apply Permutation_nil_cons in Hc. }
    exists [], budget, a1. split_and!; try done; [by left|]. intros. by left.
  - rewrite (bind_step _ _ _ _ _ Hpk). destruct (offered_live _ _ _ Ha Ho) as ((c & Hc & _) & _ & _).
    rewrite (bind_step _ _ _ _ _ (chunk_at_spec _ _ _ Hc)).
    assert (Hlen : len_at (heap a) p = dataLen c) by (unfold len_at; by rewrite Hc).
    assert (Hsz : size_at (heap a) p = chunkSizeInPacket c) by (unfold size_at; by rewrite Hc).
    destruct (Z.ltb_spec 0 (dataLen c)); [|lia]. destruct (Z.leb_spec (commonHeaderSize + chunkSizeInPacket c) (mtu a)) as [Hm|Hm].
    + destruct (tlrAllowSendLocked a budget _) as [ok b'] eqn:Et. destruct ok.
      * destruct (move_spec now a p q2 Ha Ho Hn) as (a' & E & S' & C' & _). rewrite (bind_step _ _ _ _ _ E).
        exists [p], b', a'. split_and!; try done. right. exists p. by rewrite Hsz.
      * apply Hstay. intros _ _ Ht. unfold tlrAllowSendLocked in Et. rewrite Ht in Et. by destruct budget.
    + apply Hstay. intros _ _ _. exists p, q2. by rewrite Hsz.
Qed.

Definition packet_size (h : store) (k : list loc) : Z := commonHeaderSize + foldr (fun p z => size_at h p + z) 0 k.

Lemma packet_size_snoc h k p : packet_size h (k ++ [p]) = packet_size h k + size_at h p.
Proof. unfold packet_size. induction k as [|x k IH]; simpl in *; lia. Qed.

(** Chunks that fit a packet of their own are packed in order, within the MTU. *)
Lemma bundleLoop_spec h m chunks : forall open,
  Forall (fun p => is_Some (h !! p) /\ commonHeaderSize + size_at h p <= m) chunks ->
  packet_size h open <= m \/ open = [] ->
  exists packets, bundleLoop h m open (packet_size h open) chunks = Some packets /\ concat packets = open ++ chunks
    /\ Forall (fun k => k <> [] /\ packet_size h k <= m) packets.
Proof.
  induction chunks as [|p chunks IH]; intros open Hf Ho; simpl.
  - eexists. split; [done|]. rewrite app_nil_r. destruct open as [|x open]; [done|]. split; [by rewrite concat_cons, app_nil_r|].
    destruct Ho as [Ho|]; [by repeat constructor|done].
  - apply Forall_cons in Hf as [((c & Hc) & Hp) Hf]. rewrite Hc. simpl.
    assert (Hsz : chunkSizeInPacket c = size_at h p) by (unfold size_at; by rewrite Hc). rewrite Hsz.
    destruct (Z.ltb_spec m (packet_size h open + size_at h p)) as [Hover|Hfit].
    + destruct Ho as [Ho| -> ]; [|unfold packet_size in Hover; simpl in Hover; lia].
      replace (commonHeaderSize + size_at h p) with (packet_size h [p]) by (unfold packet_size; simpl; lia).
      destruct (IH [p] Hf) as (ps & -> & Hcat & Hps); [left; unfold packet_size; simpl; lia|]. simpl.
      exists (open :: ps). rewrite concat_cons, Hcat. split; [done|]. split; [done|]. constructor; [|done]. split; [|done].
      intros ->. unfold packet_size in Hover. simpl in Hover. lia.
    + rewrite <- packet_size_snoc in *. destruct (IH (open ++ [p]) Hf) as (ps & -> & Hcat & Hps); [by left|].
      exists ps. by rewrite Hcat, <- app_assoc.
Qed.

(** What is sent is live, and fits. *)
Lemma sent_bundles now (a a' : assoc) new resets :
  send_ok a -> sent now a new resets a' -> Forall (fun p => commonHeaderSize + size_at (heap a) p <= mtu a) new ->
  exists packets, bundleDataChunksIntoPackets a' new = Some packets /\ concat packets = new
    /\ Forall (fun k => k <> [] /\ packet_size (heap a') k <= mtu a) packets.
Proof.
  intros Ha [K O I P R T N X Y V] Hf. unfold bundleDataChunksIntoPackets. pose proof (kp_shape _ _ K) as Hs.
  rewrite (kp_mtu _ _ K). replace commonHeaderSize with (packet_size (heap a') []) by done.
  destruct (bundleLoop_spec (heap a') (mtu a) new []) as (ps & E & Hc & Hps); [|by right|by exists ps].
  rewrite Forall_forall in *. intros p Hp. split; [|rewrite (size_at_shape (heap a) (heap a')) by done; by apply Hf].
  pose proof (pq_live _ _ (sk_inflight _ O)) as Hl. rewrite Forall_forall in Hl.
  destruct (Hl p) as (c & Hc & _); [|by eexists]. rewrite I. apply elem_of_app. by right.
Qed.

(** How the windows limit what is sent. *)
Definition windows (a : assoc) (chunks : list loc) (a' : assoc) : Prop :=
  (rwnd (cc a') = rwnd (cc a) - total (heap a) chunks /\ 0 <= rwnd (cc a')
   /\ (chunks = [] \/ PayloadQueue.getNumBytes (inflightQueue a') <= cwnd (cc a)))
  \/ (locs (inflightQueue a) = [] /\ rwnd (cc a') = rwnd (cc a) /\ exists p, chunks = [p]).

(** The loop and the probe together. *)
Lemma sent_with_probe now a chunks resets a1 new a2 :
  send_ok a -> outcome now a chunks resets a1 -> sent now a1 new [] a2 -> cc a2 = cc a1 ->
  (new = [] \/ exists p, new = [p] /\ chunks = [] /\ locs (inflightQueue a1) = []
                   /\ commonHeaderSize + size_at (heap a1) p <= mtu a1) ->
  sent now a (chunks ++ new) resets a2 /\ windows a (chunks ++ new) a2
  /\ Forall (fun p => commonHeaderSize + size_at (heap a) p <= mtu a) (chunks ++ new).
Proof.
  intros Ha [S1 M1 R1 C1 F1] S2 C2 Hnew. pose proof (st_kept _ _ _ _ _ S1) as [K1 _ K3 _ _ _ _].
  split; [rewrite <- (app_nil_r resets); by eapply sent_trans|]. destruct Hnew as [->|(p & -> & -> & Hl & Hm)].
  - rewrite app_nil_r. split; [|done]. left. rewrite C2. split; [done|]. split; [apply (sm_rwnd _ M1)|].
    destruct C1 as [?|C1]; [by left|right]. rewrite (sent_bytes _ _ _ _ _ (st_ok _ _ _ _ _ S1) S2). simpl. lia.
  - pose proof (st_inflight _ _ _ _ _ S1) as I1. rewrite Hl in I1. rewrite app_nil_r in I1. split.
    + right. rewrite C2, R1. simpl. split; [done|]. split; [lia|by exists p].
    + constructor; [|done]. by rewrite K3, (size_at_shape (heap a) (heap a1)) in Hm.
Qed.

Lemma notify_same now a chunks resets a1 : sent now a chunks resets a1 -> sent now a chunks resets (notifyBlockWritable a1).
Proof. intros [K O I P R T N X Y V]. constructor; try done; [by destruct K|by destruct O]. Qed.

(** All of it, but for the packets. *)
Lemma popPending_spec fuel order now budget (a : assoc) :
  send_ok a -> small a -> order_ok order -> 2 * PendingSpec.size (pendingQueue a) < Z.of_nat fuel ->
  exists chunks resets budget' a',
    popPendingDataChunksToSend fuel order now budget a
    = Some ((chunks, map (fun p => streamIdentifier (deref a p)) resets, budget'), a')
    /\ sent now a chunks resets a' /\ windows a chunks a'
    /\ Forall (fun p => commonHeaderSize + size_at (heap a) p <= mtu a) chunks
    /\ (chunks = [] -> locs (inflightQueue a) = [] -> tlrActive (tlr a) = false ->
        contents (pendingQueue a') = [] \/ too_large a').
Proof.
  intros Ha Hsm Hord Hfuel. unfold popPendingDataChunksToSend. rewrite (bind_step (read _) _ a a a) by done.
  set (m := if 0 <? _ then _ else _).
  assert (exists chunks resets budget' a1,
    m a = Some ((chunks, map (fun p => streamIdentifier (deref a p)) resets, budget'), a1)
    /\ (sent now a chunks resets a1 /\ windows a chunks a1
        /\ Forall (fun p => commonHeaderSize + size_at (heap a) p <= mtu a) chunks)
    /\ (chunks = [] -> locs (inflightQueue a) = [] -> tlrActive (tlr a) = false ->
        contents (pendingQueue a1) = [] \/ too_large a1)) as (chunks & resets & budget' & a1 & E & (Hs & Hw & Hf) & Hp).
  { unfold m. destruct (Z.ltb_spec 0 (PendingSpec.size (pendingQueue a))) as [Hsz|Hsz].
    - destruct (popPendingLoop_spec order now fuel a budget 0 [] [] Ha Hsm Hord) as (new & resets & b1 & a1 & E1 & O1 & St);
        [by left|simpl; lia|]. rewrite (bind_step _ _ _ _ _ E1). cbn [app].
      destruct (windowProbe_spec order now b1 new a1) as (more & b2 & a2 & E2 & S2 & C2 & Hmore & Hp2); try done;
        [apply O1|apply O1|]. rewrite (bind_step _ _ _ _ _ E2). exists (new ++ more), resets, b2, a2. split; [done|].
      split; [by eapply sent_with_probe|]. intros [-> ->]%app_nil Hl Ht. apply Hp2; try done.
      + pose proof (st_inflight _ _ _ _ _ (out_sent _ _ _ _ _ O1)) as I1. by rewrite I1, Hl.
      + by rewrite (kp_tlr _ _ (st_kept _ _ _ _ _ (out_sent _ _ _ _ _ O1))).
    - exists [], [], budget, a. split; [done|]. pose proof (sk_count _ Ha) as Hc.
      assert (He : contents (pendingQueue a) = []) by (apply length_zero_iff_nil; lia).
      split; [|by left]. split; [by apply sent_nothing; try apply kept_refl; try apply serves_nothing; try apply Hsm|]. split; [|done].
      left. simpl. split; [lia|]. split; [apply (sm_rwnd _ Hsm)|by left]. }
  rewrite (bind_step _ _ _ _ _ E). rewrite (bind_step (read _) _ a1 a1 a1) by done. cbn [fst].
  destruct (_ && _ && _); (erewrite bind_step by done).
  - pose proof (notify_same _ _ _ _ _ Hs) as Hs'.
    exists chunks, resets, budget', (notifyBlockWritable a1). split_and!; try done.
    intros H1 H2 H3. destruct (Hp H1 H2 H3) as [?|(p & q2 & [] & Hl)]; [by left|right]. exists p, q2. by split.
  - exists chunks, resets, budget', a1. split_and!; done.
Qed.

End SenderSpec.

(** C11. New data goes out within the windows.  Whenever the write loop asks for
    data, with any scheduler: it gets an answer; the chunks it is given leave
    the pending queue for the in-flight queue with consecutive TSNs, and nothing
    else leaves but the empty chunks that reset streams; the bytes in flight
    stay within the congestion window and the receiver's window shrinks by what
    was sent, unless the answer is the single probe that is allowed when nothing
    is in flight; bundling puts the chunks, in order, into packets no larger than
    the MTU; and outside tail loss recovery a sender with nothing in flight only
    stays silent when it has nothing, or when its next chunk fits in no packet. *)
Theorem send_respects_windows {S} `{SL : StreamSchedulerLaws S} {Q} `{QL : QueueLaws loc Q}
    fuel order now budget (a : association (S := S) (Q := Q)) :
  send_ok a -> small a -> order_ok order -> 2 * PendingSpec.size (pendingQueue a) < Z.of_nat fuel ->
  exists chunks resets budget' a' packets,
    popPendingDataChunksToSend fuel order now budget a
    = Some ((chunks, map (fun p => streamIdentifier (deref a p)) resets, budget'), a')
    /\ sent now a chunks resets a'
    /\ windows a chunks a'
    /\ bundleDataChunksIntoPackets a' chunks = Some packets /\ concat packets = chunks
    /\ Forall (fun k => k <> [] /\ packet_size (heap a') k <= mtu a) packets
    /\ (chunks = [] -> locs (inflightQueue a) = [] -> tlrActive (tlr a) = false ->
        contents (pendingQueue a') = [] \/ too_large a').
Proof.
  intros Ha Hsm Hord Hfuel.
  destruct (popPending_spec fuel order now budget a Ha Hsm Hord Hfuel) as (chunks & resets & budget' & a' & E & Hs & Hw & Hf & Hp).
  destruct (sent_bundles _ _ _ _ _ Ha Hs Hf) as (packets & E' & Hc & Hk). exists chunks, resets, budget', a', packets. split_and!; done.
Qed.

(** *** An example

    A message of two fragments and one of a single chunk; the TSNs wrap. *)
Module SendExample.

Abbreviation sched := RoundRobin.roundRobinPendingQueuePolicy.

Abbreviation assoc_ := (association (S := sched) (Q := RingQueue.queue loc)).

Definition fragment (b e : bool) (head : option loc) (n : nat) : sendChunk :=
  mkSend (mkChunkHeader 0 0 []) (mkPayload false b e false 0 1 0 0 0 51 (replicate n 7) false)
    false 0 0 0 false false false head.

Definition heap0 : store :=
  {[ 1%positive := fragment true false None 40; 2%positive := fragment false true (Some 1%positive) 30;
     3%positive := fragment true true None 20 ]}.

Definition start_at (t cwnd0 rwnd0 : Z) : assoc_ :=
  mkAssoc heap0 established t t (u32 (t - 1)) (u32 (t - 1)) newPayloadQueue
    (fold_left (PendingSpec.push (wire_at heap0)) [1; 2; 3]%positive (newPendingQueue None)) 100 true false
    (mkCC cwnd0 rwnd0 1000 0 false 0 0 0 0) (newRTOManager F64.zero) (newRTXTimer 0 F64.zero) F64.zero
    (mkRack 0 0 0 0 false 0 [] (mkWindow 0 []) 0 0 0 0) (mkTLR false false false 0 16 8 0 0)
    (mkPlans false false false false false false) ∅ false false.

Abbreviation start := (start_at 4294967295).

Definition order (q : @PendingSpec.pendingQueue sched) : list Z :=
  match policy q with MessagePolicy _ => [] | InterleavingPolicy s => elements (dom (queues s)) end.

Lemma order_fine : order_ok order.
Proof. intros q. unfold visits, order. destruct (policy q); [done|]. set_solver. Qed.

Lemma start_at_ok t c r : in_u 32 t -> 0 <= c < 2 ^ 31 -> in_u 32 r -> send_ok (start_at t c r) /\ small (start_at t c r).
Proof.
  intros Ht Hc Hr. assert (Hl : Forall (linked heap0) [1; 2; 3]%positive).
  { repeat constructor; (eexists; split; [reflexivity|by eexists]). }
  split; constructor; try done.
  - exists [], [], (fun v : bool => if v then [] else [[1; 2]; [3]]%positive). constructor; try done; [|by intros []].
    intros []; repeat constructor.
  - change (NoDup [1; 2; 3]%positive). by apply (bool_decide_unpack (NoDup [1; 2; 3]%positive)).
  - apply newPayloadQueue_ok.
  - by repeat constructor.
Qed.

(** The congestion window lets two chunks through, each in a packet of its own. *)
Lemma send_respects_windows_witness :
  exists chunks resets budget' a' packets,
    popPendingDataChunksToSend 7 order 5 (0, false) (start 70 1000) = Some ((chunks, resets, budget'), a')
    /\ chunks = [1; 2]%positive /\ packets = [[1%positive]; [2%positive]]
    /\ bundleDataChunksIntoPackets a' chunks = Some packets /\ map (sending (heap a')) chunks = [Some (4294967295, 5, 1); Some (0, 5, 1)]
    /\ rwnd (cc a') = 930.
Proof.
  destruct (start_at_ok 4294967295 70 1000) as [Hok Hsm]; [done|lia|done|].
  destruct (send_respects_windows 7 order 5 (0, false) (start 70 1000) Hok Hsm order_fine eq_refl)
    as (chunks & resets & b & a' & packets & E & _ & _ & Hb & _).
  exists chunks, (map (fun p => streamIdentifier (deref (start 70 1000) p)) resets), b, a', packets.
  split; [exact E|]. vm_compute in E. inversion E; subst. vm_compute in Hb. inversion Hb; subst. repeat split.
Defined.

End SendExample.
