(* ===== verification/Sack.v ===== *)
(** * Acknowledgements and retransmission (association.go)

    What a SACK does to the sender: chunks leave the in-flight queue or are
    marked as acknowledged, round trips are measured, the windows move, lost
    chunks are found by missing reports and by RACK, and the timers are set.  And
    what the timers do: T3-rtx, RACK and the probe timeout; and the
    retransmissions that follow.  The lock that [handleSack] releases around
    [onBufferReleased] is taken as held: one handler is one step. *)

From S2P Require Import Prelude.
From S2P Require Import Serial.
From S2P Require Import Float64.
From S2P Require Import Bytes.
From S2P Require Import Chunks.
From S2P Require Import RingQueue.
From S2P Require Import PayloadQueue.
From S2P Require Import WindowedMin.
From S2P Require Import PendingQueue.
From S2P Require Import PendingSpec.
From S2P Require Import Reassembly.
From S2P Require Import Stream.
From S2P Require Import Timers.
From S2P Require Import Sender.

Local Open Scope Z_scope.
Local Open Scope go_scope.

(** The most recently sent of the chunks a SACK delivers: its time, its TSN and
    whether there is one. *)
Record delivery := mkDelivery { d_time : Z; d_tsn : Z; d_found : bool }.

Section Sack.
Context {S : Type} `{SS : StreamScheduler S} {Q : Type} `{QI : QueueImpl loc Q}.

#[local] Existing Instances M_ret M_bind.

Abbreviation assoc := (@association S Q).

(** *** Setters *)

Definition set_cum (t : Z) (a : assoc) : assoc :=
  set_tsns (myNextTSN a) (minTSN2MeasureRTT a) t (advancedPeerTSNAckPoint a) a.

Definition set_advanced (t : Z) (a : assoc) : assoc :=
  set_tsns (myNextTSN a) (minTSN2MeasureRTT a) (cumulativeTSNAckPoint a) t a.

Definition set_measure (t : Z) (a : assoc) : assoc :=
  set_tsns (myNextTSN a) t (cumulativeTSNAckPoint a) (advancedPeerTSNAckPoint a) a.

Definition set_inflight (q : payloadQueue) (a : assoc) : assoc := set_queues q (pendingQueue a) a.

(** [ssthresh], [partialBytesAcked], [inFastRecovery] and [fastRecoverExitPoint]. *)
Definition set_recovery (thresh partial : Z) (fr : bool) (exit : Z) (a : assoc) : assoc :=
  let c := cc a in
  set_cc (mkCC (cwnd c) (rwnd c) thresh partial fr exit (minCwnd c) (fastRtxWnd c) (cwndCAStep c)) a.

Definition set_shutdown (sd sda : bool) (a : assoc) : assoc :=
  let p := plan a in
  set_plan (mkPlans (willSendForwardTSN p) (willRetransmitFast p) (willRetransmitReconfig p) sd sda (awake p)) a.

Definition set_window (reoWnd minRTT time orig : Z) (seen : bool) (keep : Z) (w : windowedMin) (a : assoc) : assoc :=
  let r := rack a in
  set_rack (mkRack reoWnd minRTT time orig seen keep (rackList r) w (rackReoWndFloor r) (rackWCDelAck r) (rackDeadline r)
              (ptoDeadline r)) a.

Definition push_rtt (now rtt : Z) (a : assoc) : assoc :=
  let r := rack a in
  set_window (rackReoWnd r) (rackMinRTT r) (rackDeliveredTime r) (rackHighestDeliveredOrigTSN r) (rackReorderingSeen r)
    (rackKeepInflatedRecoveries r) (WindowedMin.Push (minRTTWnd r) now rtt) a.

(** ** Processing of a SACK *)

(** A round trip is measured on an original transmission, once per round trip. *)
Definition measureRTT (now : Z) (c : sendChunk) (a : assoc) : assoc :=
  if sna32GTE (tsn (wire c)) (minTSN2MeasureRTT a) then
    if nSent c =? 1 then
      let a := set_measure (myNextTSN a) a in
      let (s, m) := setNewRTT (rtoMgr a) (milliseconds (now - since c)) in
      push_rtt now (now - since c) (set_timing m (t3RTX a) s a)
    else a
  else a.

Definition newest (c : sendChunk) (d : delivery) : delivery :=
  if d_time d <? since c then mkDelivery (since c) (tsn (wire c)) true else d.

(** [bytesAckedPerStream[si] += n]. *)
Definition add_bytes (si n : Z) (bytes : gmap Z Z) : gmap Z Z := <[si := default 0 (bytes !! si) + n]> bytes.

Definition acked_so_far := (gmap Z Z * delivery)%type.

(** The chunks up to the cumulative TSN. *)
Fixpoint cumAckLoop (fuel : nat) (now cum idx : Z) (acc : acked_so_far) : M (acked_so_far + sendErr) := fun a : assoc =>
  match fuel with
  | O => None
  | Datatypes.S fuel' =>
      if negb (sna32LTE idx cum) then Some (inl acc, a)
      else
        '(r, q) ← PayloadQueue.pop (heap a) (inflightQueue a) idx;
        match r with
        | None => Some (inr (ErrInflightQueueTSNPop idx), a)
        | Some p =>
            let a := rackRemove p (set_inflight q a) in
            c ← heap a !! p;
            let '(acc, a) :=
              if negb (acked c) then
                let a := if idx =? cumulativeTSNAckPoint a +32 1 then t3_stop a else a in
                let bytes := add_bytes (streamIdentifier (wire c)) (dataLen c) acc.1 in
                ((bytes, newest c acc.2), measureRTT now c a)
              else (acc, a) in
            let r := cc a in
            let a := if inFastRecovery r && (tsn (wire c) =? fastRecoverExitPoint r)
                     then set_recovery (ssthresh r) (partialBytesAcked r) false (fastRecoverExitPoint r) a else a in
            cumAckLoop fuel' now cum (idx +32 1) acc a
        end
  end.

(** One gap block: [for i := g.start; i <= g.end; i++], with [i] a uint16.  The
    last component is the highest TSN newly acknowledged. *)
Fixpoint gapLoop (fuel : nat) (now cum i last : Z) (acc : acked_so_far) (htna : Z) : M (acked_so_far * Z + sendErr) := fun a : assoc =>
  match fuel with
  | O => None
  | Datatypes.S fuel' =>
      if last <? i then Some (inl (acc, htna), a)
      else
        let t := cum +32 i in
        g ← PayloadQueue.get (heap a) (inflightQueue a) t;
        match g with
        | None => Some (inr (ErrTSNRequestNotExist t), a)
        | Some p =>
            let a := rackRemove p a in
            c ← heap a !! p;
            '(acc, a) ←
              (if negb (acked c) then
                 '(n, h, q) ← PayloadQueue.markAsAcked (heap a) (inflightQueue a) t;
                 let a := set_heap h (set_inflight q a) in
                 let bytes := add_bytes (streamIdentifier (wire c)) n acc.1 in
                 Some ((bytes, newest c acc.2), measureRTT now c a)
               else Some (acc, a));
            gapLoop fuel' now cum (u16 (i + 1)) last acc (if sna32LT htna t then t else htna) a
        end
  end.

Fixpoint gapBlocksLoop (now cum : Z) (gaps : list gapAckBlock) (acc : acked_so_far) (htna : Z)
  : M (acked_so_far * Z + sendErr) := fun a : assoc =>
  match gaps with
  | [] => Some (inl (acc, htna), a)
  | g :: gaps' =>
      '(r, a) ← gapLoop (inflight_fuel a) now cum (gap_start g) (gap_end g) acc htna a;
      match r with
      | inr e => Some (inr e, a)
      | inl (acc, htna) => gapBlocksLoop now cum gaps' acc htna a
      end
  end.

(** An error leaves what was done before it. *)
Definition processSelectiveAck (now cum : Z) (gaps : list gapAckBlock) : M (acked_so_far * Z + sendErr) := fun a : assoc =>
  '(r, a) ← cumAckLoop (inflight_fuel a) now cum (cumulativeTSNAckPoint a +32 1) (∅, mkDelivery 0 0 false) a;
  match r with
  | inr e => Some (inr e, a)
  | inl acc => gapBlocksLoop now cum gaps acc cum a
  end.

Definition onCumulativeTSNAckPointAdvanced (totalBytesAcked : Z) (a : assoc) : assoc :=
  let a := if PayloadQueue.size (inflightQueue a) =? 0 then stopRackTimer (stopPTOTimer (t3_stop a)) else t3_start a in
  let r := cc a in
  if cwnd r <=? ssthresh r then
    if negb (inFastRecovery r) && (0 <? PendingSpec.size (pendingQueue a)) then
      setCWND (cwnd r +32 Z.min (u32 totalBytesAcked) (cwnd r)) a
    else a
  else
    let partial := partialBytesAcked r +32 u32 totalBytesAcked in
    if (cwnd r <=? partial) && (0 <? PendingSpec.size (pendingQueue a)) then
      setCWND (cwnd r +32 Z.max (mtu a) (cwndCAStep r))
        (set_recovery (ssthresh r) (partial -32 cwnd r) (inFastRecovery r) (fastRecoverExitPoint r) a)
    else set_recovery (ssthresh r) partial (inFastRecovery r) (fastRecoverExitPoint r) a.

Definition enterFastRecovery (htna : Z) (a : assoc) : assoc :=
  let thresh := Z.max (Z.quot (cwnd (cc a)) 2) (u32 (4 * mtu a)) in
  set_fast true (set_recovery thresh 0 true htna (setCWND thresh a)).

(** The chunks reported missing before [maxTSN]. *)
Fixpoint missLoop (fuel : nat) (now htna maxTSN t : Z) : M (option sendErr) := fun a : assoc =>
  match fuel with
  | O => None
  | Datatypes.S fuel' =>
      if negb (sna32LT t maxTSN) then Some (None, a)
      else
        g ← PayloadQueue.get (heap a) (inflightQueue a) t;
        match g with
        | None => Some (Some (ErrTSNRequestNotExist t), a)
        | Some p =>
            c ← heap a !! p; ab ← abandoned (heap a) p;
            let a :=
              if negb (acked c) && negb ab && (missIndicator c <? 3) then
                let a := set_heap (<[p := set_miss (missIndicator c + 1) c]> (heap a)) a in
                if missIndicator c + 1 =? 3 then
                  let a := if tlrActive (tlr a) then tlrApplyAdditionalLossLocked now a else a in
                  if negb (inFastRecovery (cc a)) then enterFastRecovery htna a else a
                else a
              else a in
            missLoop fuel' now htna maxTSN (t +32 1) a
        end
  end.

Definition processFastRetransmission (now cum : Z) (gaps : list gapAckBlock) (htna : Z) (advanced : bool)
  : M (option sendErr) := fun a : assoc =>
  '(err, a) ←
    (if negb (inFastRecovery (cc a)) || (inFastRecovery (cc a) && advanced) then
       let maxTSN :=
         if negb (inFastRecovery (cc a)) then htna
         else match last gaps with Some g => cum +32 gap_end g | None => cum end in
       missLoop (inflight_fuel a) now htna maxTSN (cum +32 1) a
     else Some (None, a));
  match err with
  | Some e => Some (Some e, a)
  | None => Some (None, if inFastRecovery (cc a) && advanced then set_fast true a else a)
  end.

(** The streams are told how much of their data is acknowledged; those whose
    callback runs are returned. *)
Definition releaseBuffers (bytes : gmap Z Z) (a : assoc) : list Z * assoc :=
  foldr (fun '(si, n) '(called, a) =>
    match streams_ a !! si with
    | None => (called, a)
    | Some s => let (low, s') := onBufferReleased s n in
                ((if low then si :: called else called), set_streams (<[si := s']> (streams_ a)) a)
    end) ([], a) (map_to_list bytes).

(** RFC 3758 C2: over the abandoned chunks from [i] on. *)
Fixpoint advanceLoop (fuel : nat) (i : Z) (a : assoc) : option assoc :=
  match fuel with
  | O => None
  | Datatypes.S fuel' =>
      g ← PayloadQueue.get (heap a) (inflightQueue a) i;
      match g with
      | None => Some a
      | Some p =>
          ab ← abandoned (heap a) p;
          if negb ab then Some a else advanceLoop fuel' (i +32 1) (set_advanced i a)
      end
  end.

Definition advancePeerAckPoint (a : assoc) : option assoc :=
  a ← advanceLoop (inflight_fuel a) (advancedPeerTSNAckPoint a +32 1) a;
  Some (if sna32GT (advancedPeerTSNAckPoint a) (cumulativeTSNAckPoint a) then set_forward true a else a).

Definition postprocessSack (st : assocState) (shouldAwake : bool) (a : assoc) : assoc :=
  let '(wake, a) :=
    if 0 <? PayloadQueue.size (inflightQueue a) then (shouldAwake, t3_start a)
    else match st with
         | shutdownPending => (true, set_state shutdownSent (set_shutdown true (willSendShutdownAck (plan a)) a))
         | shutdownReceived => (true, set_state shutdownAckSent (set_shutdown (willSendShutdown (plan a)) true a))
         | _ => (shouldAwake, a)
         end in
  if wake : bool then awakeWriteLoop a else a.

(** ** RACK *)

(** Loss marking over the list, in the order of sending: whether a chunk was
    marked. *)
Fixpoint rackLoop (l : list loc) (marked : bool) (a : assoc) : option (bool * assoc) :=
  match l with
  | [] => Some (marked, a)
  | p :: l' =>
      c ← heap a !! p; ab ← abandoned (heap a) p;
      if acked c || ab then rackLoop l' marked (rackRemove p a)
      else if retransmit c || (1 <? nSent c) then rackLoop l' marked a
      else if negb (since c + rackReoWnd (rack a) <? rackDeliveredTime (rack a)) then Some (marked, a)
      else rackLoop l' true (rackRemove p (set_heap (<[p := setRetransmit true c]> (heap a)) a))
  end.

Definition rackMark (now : Z) (a : assoc) : option assoc :=
  '(marked, a) ← rackLoop (rackList (rack a)) false a;
  Some (if marked : bool
        then awakeWriteLoop (if tlrActive (tlr a) then tlrApplyAdditionalLossLocked now a else a)
        else a).

(** The delivered segment and the reordering window. *)
Definition rackUpdate (now : Z) (d : delivery) (dups : bool) (a : assoc) : assoc :=
  let r := rack a in
  let higher := sna32LT (rackHighestDeliveredOrigTSN r) (d_tsn d) in
  let orig := if d_found d && higher then d_tsn d else rackHighestDeliveredOrigTSN r in
  let seen := rackReorderingSeen r || (d_found d && negb higher) in
  let time := if d_found d && (rackDeliveredTime r <? d_time d) then d_time d else rackDeliveredTime r in
  let (m, w) := Min (minRTTWnd r) now in
  let minRTT := if 0 <? m then m else rackMinRTT r in
  let quarter := Z.max (Z.quot minRTT 4) (rackReoWndFloor r) in
  let base := if 0 <? minRTT then quarter else 0 in
  let fr := inFastRecovery (cc a) in
  let wnd := if negb seen && (fr || isRunning (t3RTX a)) then 0
             else if (rackReoWnd r =? 0) && (0 <? base) then base else rackReoWnd r in
  let inflate := dups && (0 <? minRTT) in
  let wnd := if inflate then wnd + quarter else wnd in
  let keep := if inflate then 16 else rackKeepInflatedRecoveries r in
  let leave := negb fr && (0 <? keep) in
  let keep' := if leave then keep - 1 else keep in
  let wnd := if leave && (keep' =? 0) && (0 <? minRTT) then Z.quot minRTT 4 else wnd in
  let wnd := if F64.lt F64.zero (srtt_ a) && (duration_of_ms (srtt_ a) <? wnd) then duration_of_ms (srtt_ a) else wnd in
  set_window wnd minRTT time orig seen keep' w a.

(** The probe timeout, from the smoothed round trip. *)
Definition schedulePTOAfterSendLocked (now : Z) (a : assoc) : assoc :=
  let n := PayloadQueue.size (inflightQueue a) in
  if n =? 0 then stopPTOTimer a
  else
    startPTOTimer now
      (if F64.lt F64.zero (srtt_ a)
       then 2 * duration_of_ms (srtt_ a) + (if n =? 1 then rackWCDelAck (rack a) else 2 * millisecond)
       else second) a.

(** The last step is the code of [schedulePTOAfterSendLocked] again. *)
Definition onRackAfterSACK (now : Z) (d : delivery) (dups : bool) (a : assoc) : option assoc :=
  let a := rackUpdate now d dups a in
  a ← (if negb (rackDeliveredTime (rack a) =? 0) then rackMark now a else Some a);
  let delivered := rackDeliveredTime (rack a) in
  let a := if negb (bool_decide (rackList (rack a) = [])) && negb (delivered =? 0)
           then startRackTimer now (Z.max (now - delivered) 0 + rackReoWnd (rack a)) a else stopRackTimer a in
  Some (schedulePTOAfterSendLocked now a).

Definition total_bytes (bytes : gmap Z Z) : Z := map_fold (fun _ n z => n + z) 0 bytes.

(** The result: the streams whose callback runs, or an error. *)
Definition handleSack (now cum a_rwnd : Z) (gaps : list gapAckBlock) (duplicateTSN : list Z) : M (list Z + sendErr) := fun a : assoc =>
  let st := state a in
  if negb (bool_decide (st ∈ [established; shutdownPending; shutdownReceived])) then Some (inl [], a)
  else if sna32GT (cumulativeTSNAckPoint a) cum then Some (inl [], a)
  else
    '(r, a) ← processSelectiveAck now cum gaps a;
    match r with
    | inr e => Some (inr e, a)
    | inl (bytes, d, htna) =>
        let advanced := sna32LT (cumulativeTSNAckPoint a) cum in
        let a := if advanced then onCumulativeTSNAckPointAdvanced (total_bytes bytes) (set_cum cum a) else a in
        let (called, a) := releaseBuffers bytes a in
        let bytesOutstanding := u32 (PayloadQueue.getNumBytes (inflightQueue a)) in
        let a := setRWND (if a_rwnd <=? bytesOutstanding then 0 else a_rwnd -32 bytesOutstanding) a in
        '(err, a) ← processFastRetransmission now cum gaps htna advanced a;
        match err with
        | Some e => Some (inr e, a)
        | None =>
            a ← (if partialReliabilityEnabled a then
                   let a := if sna32LT (advancedPeerTSNAckPoint a) (cumulativeTSNAckPoint a)
                            then set_advanced (cumulativeTSNAckPoint a) a else a in
                   a ← advancePeerAckPoint a; Some (awakeWriteLoop a)
                 else Some a);
            let a := postprocessSack st advanced a in
            a ← onRackAfterSACK now d (negb (bool_decide (duplicateTSN = []))) a;
            Some (inl called, tlrMaybeFinishLocked (advanced || d_found d) a)
        end
    end.

(** ** Timers *)

(** The part of [onRetransmissionTimeout] for T3-rtx. *)
Definition onT3Timeout (a : assoc) : option assoc :=
  let thresh := Z.max (Z.quot (cwnd (cc a)) 2) (u32 (4 * mtu a)) in
  let r := cc a in
  let a := setCWND (mtu a) (set_recovery thresh (partialBytesAcked r) (inFastRecovery r) (fastRecoverExitPoint r) a) in
  let a := if inFastRecovery (cc a) then set_fast false (set_recovery thresh 0 false 0 a) else a in
  a ← (if partialReliabilityEnabled a then advancePeerAckPoint a else Some a);
  h ← PayloadQueue.markAllToRetrasmit (heap a) (inflightQueue a);
  Some (awakeWriteLoop (set_heap h a)).

Definition onRackTimeoutLocked (now : Z) (a : assoc) : option assoc :=
  if rackDeliveredTime (rack a) =? 0 then Some a else rackMark now a.

(** The last chunk in flight that is neither acknowledged nor abandoned. *)
Fixpoint latestLoop (fuel : nat) (a : assoc) (t : Z) (latest : option loc) : option (option loc) :=
  match fuel with
  | O => None
  | Datatypes.S fuel' =>
      g ← PayloadQueue.get (heap a) (inflightQueue a) t;
      match g with
      | None => Some latest
      | Some p =>
          c ← heap a !! p; ab ← abandoned (heap a) p;
          latestLoop fuel' a (t +32 1) (if acked c || ab then latest else Some p)
      end
  end.

(** Whether a HEARTBEAT is sent, which is what an idle sender does. *)
Definition onPTOTimerLocked (now : Z) : M bool := fun a : assoc =>
  if PayloadQueue.size (inflightQueue a) =? 0 then Some (true, awakeWriteLoop (stopPTOTimer a))
  else
    a ← (if negb (tlrActive (tlr a)) then snd <$> tlrBeginLocked now a else Some (tlrApplyAdditionalLossLocked now a));
    if 0 <? PendingSpec.size (pendingQueue a) then Some (false, awakeWriteLoop a)
    else
      latest ← latestLoop (inflight_fuel a) a (cumulativeTSNAckPoint a +32 1) None;
      match latest with
      | None => Some (false, a)
      | Some p =>
          c ← heap a !! p;
          Some (false, if negb (retransmit c)
                       then awakeWriteLoop (set_heap (<[p := setRetransmit true c]> (heap a)) a) else a)
      end.

(** ** Retransmission *)

(** The place of a chunk: in the packet being filled or, when it does not fit
    there, in a new one; [None]: no packet takes it, or the burst is used up. *)
Definition place (a : assoc) (budget : Z * bool) (bytesInPacket chunkBytes : Z) : option ((Z * bool) * Z) :=
  let first := (bytesInPacket =? 0) || (mtu a <? bytesInPacket + chunkBytes) in
  let addBytes := if first then chunkBytes + commonHeaderSize else chunkBytes in
  if first && (mtu a <? addBytes) then None
  else
    let (ok, budget) := tlrAllowSendLocked a budget addBytes in
    if ok : bool then Some (budget, (if first then commonHeaderSize else bytesInPacket) + chunkBytes) else None.

(** [nSent++; since = now], to the end of the RACK list, and the reliability
    limits. *)
Definition resend (now : Z) (rtx : bool) (p : loc) : M unit := fun a : assoc =>
  c ← heap a !! p;
  let c := mkSend (hdr c) (wire c) (acked c) (missIndicator c) now (nSent c +32 1) (abandoned_ c) (allInflight_ c)
             (if rtx then false else retransmit c) (head_ c) in
  checkPartialReliabilityStatus now p (rackInsert p (rackRemove p (set_heap (<[p := c]> (heap a)) a))).

(** The loop of [getDataPacketsToRetransmit], at the [i]-th chunk in flight. *)
Fixpoint retransmitLoop (fuel : nat) (now awnd i : Z) (budget : Z * bool) (bytesInPacket bytesToSend : Z) (chunks : list loc)
  : M (list loc * (Z * bool)) := fun a : assoc =>
  match fuel with
  | O => None
  | Datatypes.S fuel' =>
      g ← PayloadQueue.get (heap a) (inflightQueue a) (cumulativeTSNAckPoint a +32 (i + 1));
      match g with
      | None => Some ((chunks, budget), a)
      | Some p =>
          c ← heap a !! p;
          if negb (retransmit c) then retransmitLoop fuel' now awnd (i + 1) budget bytesInPacket bytesToSend chunks a
          else if negb ((i =? 0) && (rwnd (cc a) <? dataLen c)) && (awnd <? bytesToSend + dataLen c)
          then Some ((chunks, budget), a)
          else
            match place a budget bytesInPacket (chunkSizeInPacket c) with
            | None => Some ((chunks, budget), a)
            | Some (budget, bytesInPacket) =>
                '(_, a) ← resend now true p a;
                retransmitLoop fuel' now awnd (i + 1) budget bytesInPacket (bytesToSend + dataLen c) (chunks ++ [p]) a
            end
      end
  end.

Definition getDataPacketsToRetransmit (now : Z) (budget : Z * bool) : M (list (list loc) * (Z * bool)) := fun a : assoc =>
  '(chunks, budget, a) ← retransmitLoop (inflight_fuel a) now (Z.min (cwnd (cc a)) (rwnd (cc a))) 0 budget 0 0 [] a;
  packets ← bundleDataChunksIntoPackets a chunks;
  Some ((packets, budget), a).

Fixpoint fastLoop (fuel : nat) (now wnd i : Z) (budget : Z * bool) (bytesInPacket size : Z) (chunks : list loc)
  : M (list loc * (Z * bool)) := fun a : assoc =>
  match fuel with
  | O => None
  | Datatypes.S fuel' =>
      g ← PayloadQueue.get (heap a) (inflightQueue a) (cumulativeTSNAckPoint a +32 (i + 1));
      match g with
      | None => Some ((chunks, budget), a)
      | Some p =>
          c ← heap a !! p; ab ← abandoned (heap a) p;
          if acked c || ab || (1 <? nSent c) || (missIndicator c <? 3)
          then fastLoop fuel' now wnd (i + 1) budget bytesInPacket size chunks a
          else if wnd <? size + chunkSizeInPacket c then Some ((chunks, budget), a)
          else
            match place a budget bytesInPacket (chunkSizeInPacket c) with
            | None => Some ((chunks, budget), a)
            | Some (budget, bytesInPacket) =>
                '(_, a) ← resend now false p a;
                fastLoop fuel' now wnd (i + 1) budget bytesInPacket (size + chunkSizeInPacket c) (chunks ++ [p]) a
            end
      end
  end.

Definition gatherOutboundFastRetransmissionPackets (now : Z) (budget : Z * bool) : M (list (list loc) * (Z * bool)) := fun a : assoc =>
  if negb (willRetransmitFast (plan a)) then Some (([], budget), a)
  else
    let a := set_fast false a in
    '(chunks, budget, a) ←
      fastLoop (inflight_fuel a) now (Z.max (mtu a) (fastRtxWnd (cc a))) 0 budget 0 commonHeaderSize [] a;
    if bool_decide (chunks = []) then Some (([], budget), a)
    else packets ← bundleDataChunksIntoPackets a chunks; Some ((packets, budget), a).

(** The DATA part of [gatherOutboundDataAndReconfigPackets]: the packets and the
    streams to reset. *)
Definition gatherOutboundData (fuel : nat) (order : @PendingSpec.pendingQueue S -> list Z) (now : Z) (budget : Z * bool)
  : M (list (list loc) * list Z * (Z * bool)) := fun a : assoc =>
  '(chunks, sis, budget, a) ← popPendingDataChunksToSend fuel order now budget a;
  if bool_decide (chunks = []) then Some (([], sis, budget), a)
  else
    let a := t3_start a in
    packets ← bundleDataChunksIntoPackets a chunks;
    Some ((packets, sis, budget), schedulePTOAfterSendLocked now a).

End Sack.
