(* ===== verification/SackSpec.v ===== *)
(** * What a SACK does

    The in-flight queue holds consecutive TSNs; any SACK, valid or not, is
    processed without a panic and keeps the sender's invariant; a valid one
    releases to each stream exactly the bytes it acknowledges. *)

From S2P Require Import Prelude.
From S2P Require Import Serial.
From S2P Require Import Float64.
From S2P Require Import Bytes.
From S2P Require Import Chunks.
From S2P Require Import RingQueue.
From S2P Require Import PayloadQueue.
From S2P Require Import WindowedMin.
From S2P Require Import PendingQueue.
From S2P Require Import PendingSpec.
From S2P Require Import Reassembly.
From S2P Require Import Stream.
From S2P Require Import Timers.
From S2P Require Import Sender.
From S2P Require Import SenderSpec.
From S2P Require Import Sack.

Local Open Scope Z_scope.
Local Open Scope go_scope.

(** A change of flags that leaves the contents and does not mark what is
    acknowledged. *)
Ltac flags_only := split_and!; [done|done|done|first [by left|by right; left|by right; right]].

(** ** Tags: what an acknowledgement does not change of a chunk *)

Definition tag_of (c : sendChunk) : chunkHeader * payloadData * option loc := (hdr c, with_userData (wire c) [], head_ c).

Definition same_tags (h h' : store) : Prop := forall p, tag_of <$> h !! p = tag_of <$> h' !! p.

#[global] Instance same_tags_equiv : Equivalence same_tags.
Proof.
  split; [by intros h p|by intros h h' H p|intros h h' h'' H1 H2 p]. by rewrite H1.
Qed.

Lemma same_tags_insert h p c c' : h !! p = Some c -> tag_of c' = tag_of c -> same_tags h (<[p := c']> h).
Proof.
  intros Hp Hc q. destruct (decide (q = p)) as [->|Hne]; [|by rewrite lookup_insert_ne].
  rewrite lookup_insert_eq, Hp. simpl. by rewrite Hc.
Qed.

Lemma same_tags_lookup h h' p c : same_tags h h' -> h !! p = Some c -> exists c', h' !! p = Some c' /\ tag_of c' = tag_of c.
Proof.
  intros Hs Hp. specialize (Hs p). rewrite Hp in Hs. destruct (h' !! p) as [c'|]; [|done].
  exists c'. split; [done|]. by apply (inj Some) in Hs.
Qed.

Lemma tag_fields c c' : tag_of c' = tag_of c ->
  same_place (wire c) (wire c') /\ tsn (wire c') = tsn (wire c) /\ head_ c' = head_ c.
Proof. intros [= _ H1 H2 H3 _ H4 H5 _ _ _ _ _ H6]. done. Qed.

Lemma tags_place h h' : same_tags h h' -> forall p, same_place (wire_at h p) (wire_at h' p).
Proof.
  intros Hs p. unfold wire_at. destruct (h !! p) as [c|] eqn:E.
  - destruct (same_tags_lookup _ _ _ _ Hs E) as (c' & -> & Hc). by apply tag_fields.
  - specialize (Hs p). rewrite E in Hs. by destruct (h' !! p).
Qed.

Lemma linked_tags h h' p : same_tags h h' -> linked h p -> linked h' p.
Proof.
  intros Hs (c & Hc & [m Hm]). destruct (same_tags_lookup _ _ _ _ Hs Hc) as (c' & Hc' & E). exists c'. split; [done|].
  apply tag_fields in E as (_ & _ & E). unfold message_of in *. rewrite E.
  destruct (same_tags_lookup _ _ _ _ Hs Hm) as (m' & -> & _). by eexists.
Qed.

(** The stream of a chunk, and the bytes that the chunks of a stream still hold. *)
Definition sid_at (h : store) (p : loc) : Z := streamIdentifier (wire_at h p).

Definition owed (h : store) (si : Z) (l : list loc) : Z :=
  foldr (fun p z => (if sid_at h p =? si then len_at h p else 0) + z) 0 l.

Lemma sid_tags h h' p : same_tags h h' -> sid_at h' p = sid_at h p.
Proof. intros Hs. symmetry. by apply tags_place. Qed.

Lemma owed_app h si l l' : owed h si (l ++ l') = owed h si l + owed h si l'.
Proof. induction l as [|p l IH]; simpl in *; [done|]. lia. Qed.

Lemma owed_ext h h' si l :
  (forall p, p ∈ l -> sid_at h' p = sid_at h p /\ len_at h' p = len_at h p) -> owed h' si l = owed h si l.
Proof.
  induction l as [|p l IH]; intros Hl; [done|]. simpl. destruct (Hl p) as [-> ->]; [left|]. rewrite IH; [done|].
  intros x Hx. apply Hl. by right.
Qed.

(** A chunk's data is dropped. *)
Lemma owed_insert h si p c c0 l :
  NoDup l -> p ∈ l -> h !! p = Some c0 -> tag_of c = tag_of c0 -> dataLen c = 0 ->
  owed h si l = owed (<[p := c]> h) si l + (if sid_at h p =? si then dataLen c0 else 0).
Proof.
  intros Hnd Hin Hp Ht Hz. pose proof (same_tags_insert h p c0 c Hp Ht) as Hs.
  induction l as [|x l IH]; [by apply not_elem_of_nil in Hin|].
  apply NoDup_cons in Hnd as [Hx Hnd]. simpl. rewrite (sid_tags h _ x Hs). destruct (decide (x = p)) as [->|Hne].
  - unfold len_at at 1 2. rewrite lookup_insert_eq, Hp. simpl. rewrite Hz.
    rewrite (owed_ext h (<[p := c]> h) si l); [destruct (_ =? _); lia|].
    intros y Hy. split; [by apply sid_tags|]. unfold len_at. by rewrite lookup_insert_ne by (intros ->; done).
  - apply elem_of_cons in Hin as [?|Hin]; [done|]. rewrite IH by done. unfold len_at. rewrite lookup_insert_ne by done. lia.
Qed.

Create HintDb quiet.

Section SackSpec.
Context {S : Type} `{SL : StreamSchedulerLaws S} {Q : Type} `{QL : QueueLaws loc Q}.

Abbreviation assoc := (@association S Q).

(** ** Contents *)

(** What is not acknowledged is what it was. *)
Definition intact (h h' : store) : Prop :=
  forall p c, h !! p = Some c -> exists c', h' !! p = Some c' /\ (acked c' = false -> acked c = false /\ hdr c' = hdr c /\ wire c' = wire c).

#[global] Instance intact_preorder : PreOrder intact.
Proof.
  split; [intros h p c Hp; by exists c|]. intros h1 h2 h3 H12 H23 p c Hp.
  destruct (H12 p c Hp) as (c2 & Hp2 & E2). destruct (H23 p c2 Hp2) as (c3 & Hp3 & E3). exists c3. split; [done|]. intros Ha.
  destruct (E3 Ha) as (Ha2 & -> & ->). auto.
Qed.

Lemma intact_insert h p c c' :
  h !! p = Some c -> (acked c' = false -> acked c = false /\ hdr c' = hdr c /\ wire c' = wire c) -> intact h (<[p := c']> h).
Proof.
  intros Hp Hc x cx Hx. rewrite lookup_insert. case_decide as E; [|by exists cx]. subst x. rewrite Hp in Hx. injection Hx as <-. by exists c'.
Qed.

Lemma tag_wire c c' : tag_of c' = tag_of c -> userData (wire c') = userData (wire c) -> hdr c' = hdr c /\ wire c' = wire c.
Proof.
  unfold tag_of, with_userData. destruct c as [h w], c' as [h' w']. cbn. destruct w, w'. cbn. intros E ->.
  by injection E as -> -> -> -> -> -> -> -> -> -> -> -> ->.
Qed.

Definition acked_at (h : store) (p : loc) : bool := from_option acked false (h !! p).

(** ** The invariant *)

(** An acknowledged chunk is empty and is not to be sent again. *)
Definition drained (h : store) (p : loc) : Prop :=
  exists c, h !! p = Some c /\ (acked c = true -> dataLen c = 0 /\ retransmit c = false).

(** The TSNs in flight are consecutive, the first of them [k] past the one that
    follows the acknowledged ones; [k] is 0 as long as no SACK was rejected half
    way. *)
Record numbered (k : Z) (a : assoc) : Prop := {
  nb_cum : in_u 32 (cumulativeTSNAckPoint a);
  nb_range : 0 <= k /\ k + Z.of_nat (length (locs (inflightQueue a))) < 2 ^ 31;
  nb_seq : PayloadQueue.consecutive (heap a) (inflightQueue a) (cumulativeTSNAckPoint a +32 (1 + k));
  nb_next : myNextTSN a = cumulativeTSNAckPoint a +32 (1 + k + Z.of_nat (length (locs (inflightQueue a))))
}.

Record flight (k : Z) (a : assoc) : Prop := {
  fl_send : send_ok a;
  fl_numbered : numbered k a;
  fl_drained : Forall (drained (heap a)) (contents (pendingQueue a) ++ locs (inflightQueue a));
  fl_rack : Forall (linked (heap a)) (rackList (rack a))
}.

(** ** Steps of a SACK *)

(** [popped] leave the queue and the streams get [bytes] back. *)
Record acks (a : assoc) (popped : list loc) (bytes : Z -> Z) (a' : assoc) : Prop := {
  ak_tags : same_tags (heap a) (heap a');
  ak_pending : pendingQueue a' = pendingQueue a;
  ak_next : myNextTSN a' = myNextTSN a;
  ak_cum : cumulativeTSNAckPoint a' = cumulativeTSNAckPoint a;
  ak_streams : streams_ a' = streams_ a;
  ak_locs : locs (inflightQueue a) = popped ++ locs (inflightQueue a');
  ak_ok : pq_ok (heap a') (inflightQueue a');
  ak_drained : forall p, drained (heap a) p -> drained (heap a') p;
  ak_intact : intact (heap a) (heap a');
  ak_acked : forall p, p ∉ locs (inflightQueue a) -> acked_at (heap a') p = acked_at (heap a) p;
  ak_rack : rackList (rack a') ⊆ rackList (rack a) ++ locs (inflightQueue a);
  ak_bytes : forall si, 0 <= bytes si /\ owed (heap a) si (locs (inflightQueue a)) = owed (heap a') si (locs (inflightQueue a')) + bytes si;
  ak_total : total (heap a') (locs (inflightQueue a')) <= total (heap a) (locs (inflightQueue a))
}.

Lemma acks_trans a l b a' l' b' a'' :
  acks a l b a' -> acks a' l' b' a'' -> acks a (l ++ l') (fun si => b si + b' si) a''.
Proof.
  intros [A1 A2 A3 A4 A5 A7 A8 A9 A9' A9'' A10 A11 A12] [B1 B2 B3 B4 B5 B7 B8 B9 B9' B9'' B10 B11 B12].
  constructor; [by etransitivity|congruence..|by rewrite A7, B7, app_assoc|done|by auto|by etransitivity| |rewrite A7 in *; set_solver| |lia].
  { intros p Hp. rewrite B9'', A9''; [done|done|]. intros Hp'. apply Hp. rewrite A7. apply elem_of_app. by right. }
  intros si. specialize (A11 si). specialize (B11 si). lia.
Qed.

(** A step that changes none of this. *)
Record quiet (a a' : assoc) : Prop := {
  qt_heap : heap a' = heap a;
  qt_flight : inflightQueue a' = inflightQueue a;
  qt_pending : pendingQueue a' = pendingQueue a;
  qt_next : myNextTSN a' = myNextTSN a;
  qt_cum : cumulativeTSNAckPoint a' = cumulativeTSNAckPoint a;
  qt_streams : streams_ a' = streams_ a;
  qt_rack : rackList (rack a') ⊆ rackList (rack a)
}.

#[global] Instance quiet_preorder : PreOrder quiet.
Proof.
  split; [by intros a; constructor|]. intros a b c [? ? ? ? ? ? ?] [? ? ? ? ? ? ?].
  constructor; [congruence..|by etransitivity].
Qed.

Lemma acks_quiet k a a' : flight k a -> quiet a a' -> acks a [] (fun _ => 0) a'.
Proof.
  intros [Hs _ Hd _] [H1 H2 H3 H4 H5 H6 H8]. constructor; rewrite ?H1, ?H2; try done.
  - apply Hs.
  - set_solver.
  - intros si. lia.
Qed.

Lemma flight_acks k a l b a' :
  flight k a -> acks a l b a' -> flight (k + Z.of_nat (length l)) a'.
Proof.
  intros [[P C L N I] [N1 [N2 N2'] N3 N4] D R] [A1 A2 A3 A4 A5 A7 A8 A9 A9' A9'' A10 A11 _].
  rewrite A7, length_app in *. constructor; [constructor|constructor| |].
  - rewrite A2. eapply policy_ok_ext; [|exact P]. by apply tags_place.
  - by rewrite A2.
  - rewrite A2. eapply Forall_impl; [exact L|]. intros x. by apply linked_tags.
  - rewrite A2. apply NoDup_app in N as (Hn1 & Hn2 & Hn3). apply NoDup_app in Hn3 as (_ & _ & Hn3). apply NoDup_app.
    split; [done|]. split; [|done]. intros x Hx Hx'. apply (Hn2 x Hx), elem_of_app. by right.
  - done.
  - by rewrite A4.
  - lia.
  - intros i p Hp. destruct (N3 (length l + i)%nat p) as (c & Hc & Ht).
    { rewrite A7, lookup_app_r by lia. by replace (length l + i - length l)%nat with i by lia. }
    destruct (same_tags_lookup _ _ _ _ A1 Hc) as (c' & Hc' & E). exists c'. split; [done|].
    apply tag_fields in E as (_ & -> & _). rewrite Ht, A4. go_lia.
  - rewrite A3, A4, N4. f_equal. lia.
  - rewrite A2. rewrite !Forall_app in *. split; (eapply Forall_impl; [apply D|apply A9]).
  - eapply Forall_impl; [|intros x; by apply linked_tags]. pose proof (pq_live _ _ I) as Hlive. rewrite A7 in Hlive. rewrite Forall_forall in *. intros x Hx.
    apply A10, elem_of_app in Hx as [Hx|Hx]; [by apply R|by apply Hlive].
Qed.

Lemma flight_quiet k a a' : flight k a -> quiet a a' -> flight k a'.
Proof. intros Hf Hq. pose proof (flight_acks _ _ _ _ _ Hf (acks_quiet _ _ _ Hf Hq)) as H'. by rewrite Z.add_0_r in H'. Qed.

Lemma flight_cum k d (a : assoc) :
  0 <= k -> 0 <= d -> flight (k + d) a -> flight k (set_cum (cumulativeTSNAckPoint a +32 d) a).
Proof.
  intros Hk Hd [Hs [N1 [N2 N2'] N3 N4] D R]. constructor; [by destruct Hs|constructor; simpl|done|done].
  - apply u32_range.
  - lia.
  - intros i p Hp. destruct (N3 i p Hp) as (c & Hc & Ht). exists c. split; [done|]. rewrite Ht. go_lia.
  - rewrite N4. go_lia.
Qed.

(** *** Quiet steps *)

Ltac quiet_record := constructor; (done || (intros ? ?; done)).

Lemma quiet_t3_stop a : quiet a (t3_stop a).
Proof. quiet_record. Qed.

Lemma quiet_t3_start a : quiet a (t3_start a).
Proof. quiet_record. Qed.

Lemma quiet_rack_remove p a : quiet a (rackRemove p a).
Proof. constructor; try done. intros x Hx. simpl in Hx. by apply list_elem_of_filter in Hx as [_ ?]. Qed.

Lemma quiet_recovery t p f e a : quiet a (set_recovery t p f e a).
Proof. quiet_record. Qed.

Lemma quiet_cwnd w a : quiet a (setCWND w a).
Proof. quiet_record. Qed.

Lemma quiet_rwnd w a : quiet a (setRWND w a).
Proof. quiet_record. Qed.

Lemma quiet_plan p a : quiet a (set_plan p a).
Proof. quiet_record. Qed.

Lemma quiet_advanced t a : quiet a (set_advanced t a).
Proof. quiet_record. Qed.

Lemma quiet_tlr t a : quiet a (set_tlr t a).
Proof. quiet_record. Qed.

Lemma quiet_window a1 a2 a3 a4 a5 a6 a7 a : quiet a (set_window a1 a2 a3 a4 a5 a6 a7 a).
Proof. quiet_record. Qed.

Lemma quiet_deadlines d1 d2 a : quiet a (set_deadlines d1 d2 a).
Proof. quiet_record. Qed.

Lemma quiet_measure now c a : quiet a (measureRTT now c a).
Proof.
  unfold measureRTT. destruct (sna32GTE _ _); [|reflexivity]. destruct (_ =? _); [|reflexivity].
  destruct (setNewRTT _ _). quiet_record.
Qed.

Lemma quiet_loss now a : quiet a (tlrApplyAdditionalLossLocked now a).
Proof.
  unfold tlrApplyAdditionalLossLocked, tlrUpdatePhaseLocked. destruct (negb _); [reflexivity|].
  repeat case_match; (etransitivity; [|apply quiet_tlr]); (reflexivity || apply quiet_tlr).
Qed.

Lemma quiet_maybeFinish b a : quiet a (tlrMaybeFinishLocked b a).
Proof. unfold tlrMaybeFinishLocked. repeat case_match; (reflexivity || apply quiet_tlr). Qed.

Lemma quiet_fast htna a : quiet a (enterFastRecovery htna a).
Proof. quiet_record. Qed.

Lemma quiet_advancedPoint n a : quiet a (onCumulativeTSNAckPointAdvanced n a).
Proof.
  unfold onCumulativeTSNAckPointAdvanced. set (a1 := if _ =? 0 then _ else _).
  assert (quiet a a1) as ->.
  { unfold a1. destruct (_ =? 0); [|apply quiet_t3_start]. unfold stopRackTimer, stopPTOTimer.
    etransitivity; [apply quiet_t3_stop|]. etransitivity; apply quiet_deadlines. }
  repeat case_match; try reflexivity; try apply quiet_cwnd; try apply quiet_recovery.
  etransitivity; [apply quiet_recovery|apply quiet_cwnd].
Qed.

Lemma quiet_pto now a : quiet a (schedulePTOAfterSendLocked now a).
Proof. unfold schedulePTOAfterSendLocked. destruct (_ =? 0); apply quiet_deadlines. Qed.

Lemma quiet_rackUpdate now d dups a : quiet a (rackUpdate now d dups a).
Proof. unfold rackUpdate. destruct (Min _ _). apply quiet_window. Qed.

#[local] Hint Resolve quiet_t3_stop quiet_t3_start quiet_rack_remove quiet_recovery quiet_cwnd quiet_rwnd quiet_plan quiet_advanced
  quiet_tlr quiet_window quiet_deadlines quiet_measure quiet_loss quiet_maybeFinish quiet_fast quiet_advancedPoint quiet_pto
  quiet_rackUpdate : quiet.

(** ** The loop over the cumulatively acknowledged chunks *)

(** The front of the queue leaves. *)
Lemma pop_acks k a p l q :
  flight k a -> locs (inflightQueue a) = p :: l -> pq_ok (heap a) q -> locs q = l ->
  acks a [p] (fun si => if sid_at (heap a) p =? si then len_at (heap a) p else 0) (set_inflight q a).
Proof.
  intros [Hs Hn Hd Hr] Hl Hq Hlq. constructor; try done; simpl; rewrite ?Hl, ?Hlq; try done.
  - set_solver.
  - intros si. simpl. pose proof (queued_nonneg (heap a) [p]) as Hp. simpl in Hp. destruct (_ =? si); lia.
  - pose proof (queued_nonneg (heap a) [p]) as Hp. simpl in *. lia.
Qed.

(** The counters of a SACK grow by [bytes]. *)
Definition counts (acc acc' : acked_so_far) (bytes : Z -> Z) : Prop :=
  forall si, default 0 (acc'.1 !! si) = default 0 (acc.1 !! si) + bytes si.

Lemma counts_add acc si n d : counts acc (add_bytes si n acc.1, d) (fun i => if si =? i then n else 0).
Proof.
  intros i. unfold add_bytes. simpl. destruct (Z.eqb_spec si i) as [->|Hne].
  - by rewrite lookup_insert_eq.
  - rewrite lookup_insert_ne by done. lia.
Qed.

Lemma counts_trans acc acc' acc'' b b' : counts acc acc' b -> counts acc' acc'' b' -> counts acc acc'' (fun si => b si + b' si).
Proof. intros H1 H2 si. rewrite H2, H1. lia. Qed.

Lemma acks_then_quiet k a l b a1 a' : flight k a -> acks a l b a1 -> quiet a1 a' -> acks a l b a'.
Proof.
  intros Hf Ha Hq. pose proof (flight_acks _ _ _ _ _ Hf Ha) as Hf1. pose proof (acks_quiet _ _ _ Hf1 Hq) as Ha'.
  pose proof (acks_trans _ _ _ _ _ _ _ Ha Ha') as H'. rewrite app_nil_r in H'. destruct H' as [? ? ? ? ? ? ? ? ? ? ? Hb ?].
  constructor; try done. intros si. specialize (Hb si). lia.
Qed.

(** One turn: the front chunk is acknowledged cumulatively. *)
Lemma cumAck_turn k a p l now cum fuel idx acc :
  flight k a -> locs (inflightQueue a) = p :: l -> idx = cumulativeTSNAckPoint a +32 (1 + k) -> sna32LTE idx cum = true ->
  exists bytes acc' a', acks a [p] bytes a' /\ counts acc acc' bytes /\ heap a' = heap a
    /\ cumAckLoop (Datatypes.S fuel) now cum idx acc a = cumAckLoop fuel now cum (idx +32 1) acc' a'.
Proof.
  intros Hf Hl Hi Hle. pose proof Hf as [Hs [N1 N2 N3 N4] Hd Hr]. pose proof (sk_inflight _ Hs) as Hok. cbn [cumAckLoop].
  rewrite Hle. cbn [negb].
  destruct (front_tsn (heap a) (inflightQueue a) idx p l) as (c & Hfr & Hc & Ht); [done|by rewrite Hi|rewrite Hi; apply u32_range|done|].
  destruct (pop_ok (heap a) (inflightQueue a) idx Hok) as (r & q & E & Hq & Hcase). rewrite E. cbn [mbind option_bind].
  destruct r as [p'|].
  2: { unfold PayloadQueue.pop in E. rewrite Len_law in E by apply Hok. fold (locs (inflightQueue a)) in E. rewrite Hl in E. simpl in E.
       rewrite Hfr in E. simpl in E. rewrite Hc in E. simpl in E. rewrite Ht, Z.eqb_refl in E.
       destruct (PopFront_law (chunks_ (inflightQueue a)) p l) as (cs & Ep & _); [apply Hok|done|]. rewrite Ep in E. simpl in E.
       rewrite Hc in E. simpl in E. by injection E. }
  destruct Hcase as [Hl' _]. rewrite Hl in Hl'. injection Hl' as <- Hlq.
  pose proof (pop_acks k a p l q Hf Hl Hq (eq_sym Hlq)) as Hak. rewrite Hl in Hd. apply Forall_app in Hd as [_ Hd]. apply Forall_cons in Hd as [(c' & Hc' & Hdr) _].
  rewrite Hc in Hc'. injection Hc' as <-. change (heap (rackRemove p (set_inflight q a))) with (heap a). rewrite Hc. simpl mbind.
  assert (Hsid : sid_at (heap a) p = streamIdentifier (wire c)) by (unfold sid_at, wire_at; by rewrite Hc).
  assert (Hlen : len_at (heap a) p = dataLen c) by (unfold len_at; by rewrite Hc). rewrite Hsid, Hlen in Hak.
  destruct (acked c) eqn:Eac; cbn [negb].
  - set (a2 := if _ && _ then _ else _). assert (Hq2 : quiet (set_inflight q a) a2).
    { etransitivity; [apply (quiet_rack_remove p)|]. unfold a2. case_match; auto with quiet. reflexivity. }
    exists (fun si => if streamIdentifier (wire c) =? si then dataLen c else 0), acc, a2.
    split; [by eapply acks_then_quiet|]. split; [|split; [apply (qt_heap _ _ Hq2)|done]].
    intros si. destruct (Hdr eq_refl) as [-> _]. destruct (_ =? si); lia.
  - set (a1 := measureRTT now c _). set (a2 := if inFastRecovery (cc a1) && _ then _ else _).
    assert (Hq2 : quiet (set_inflight q a) a2).
    { etransitivity; [apply (quiet_rack_remove p)|]. transitivity a1.
      - unfold a1. etransitivity; [|apply quiet_measure]. case_match; auto with quiet. reflexivity.
      - unfold a2. case_match; auto with quiet. reflexivity. }
    eexists _, _, a2. split; [by eapply acks_then_quiet|]. split; [apply counts_add|]. split; [apply (qt_heap _ _ Hq2)|done].
Qed.

Lemma cumAckLoop_spec now d fuel : forall k acc a,
  flight k a -> k <= d < 2 ^ 31 -> (length (locs (inflightQueue a)) < fuel)%nat ->
  exists r a' popped bytes,
    cumAckLoop fuel now (cumulativeTSNAckPoint a +32 d) (cumulativeTSNAckPoint a +32 (1 + k)) acc a = Some (r, a')
    /\ acks a popped bytes a' /\ heap a' = heap a
    /\ match r with
       | inl acc' => Z.of_nat (length popped) = d - k /\ counts acc acc' bytes
       | inr _ => popped = locs (inflightQueue a) /\ Z.of_nat (length (locs (inflightQueue a))) < d - k
       end.
Proof.
  induction fuel as [|fuel IH]; intros k acc a Hf Hd Hfuel; [lia|]. pose proof (nb_range _ _ (fl_numbered _ _ Hf)) as Hk.
  assert (Hid : acks a [] (fun _ => 0) a) by (eapply acks_quiet; [done|reflexivity]).
  destruct (Z.eq_dec k d) as [->|Hne].
  - exists (inl acc), a, [], (fun _ => 0). cbn [cumAckLoop].
    assert (sna32LTE (cumulativeTSNAckPoint a +32 (1 + d)) (cumulativeTSNAckPoint a +32 d) = false) as ->.
    { apply not_true_is_false. rewrite sna32LTE_dist by auto with go. unfold dist32. go_lia. }
    simpl. split; [done|]. split; [done|]. split; [done|]. split; [lia|]. intros si. lia.
  - assert (Hle : sna32LTE (cumulativeTSNAckPoint a +32 (1 + k)) (cumulativeTSNAckPoint a +32 d) = true).
    { apply sna32LTE_dist; auto with go. unfold dist32. go_lia. }
    destruct (locs (inflightQueue a)) as [|p l] eqn:El.
    + exists (inr (ErrInflightQueueTSNPop (cumulativeTSNAckPoint a +32 (1 + k)))), a, [], (fun _ => 0). cbn [cumAckLoop]. rewrite Hle.
      cbn [negb]. unfold PayloadQueue.pop. rewrite Len_law by apply Hf. fold (locs (inflightQueue a)). rewrite El. simpl.
      split; [done|]. split; [done|]. split; [done|]. split; [done|lia].
    + destruct (cumAck_turn k a p l now (cumulativeTSNAckPoint a +32 d) fuel _ acc Hf El eq_refl Hle) as (b1 & acc1 & a1 & A1 & C1 & Hh1 & ->).
      pose proof (flight_acks _ _ _ _ _ Hf A1) as Hf1. simpl in Hf1.
      assert (Hl1 : locs (inflightQueue a1) = l) by (pose proof (ak_locs _ _ _ _ A1) as H'; rewrite El in H'; by injection H').
      rewrite <- (ak_cum _ _ _ _ A1).
      destruct (IH (k + 1) acc1 a1 Hf1) as (r & a' & popped & b & E & A2 & Hh2 & Hr); [lia|rewrite Hl1; simpl in Hfuel; lia|].
      replace ((cumulativeTSNAckPoint a1 +32 (1 + k)) +32 1) with (cumulativeTSNAckPoint a1 +32 (1 + (k + 1))) by go_lia.
      exists r, a', (p :: popped), (fun si => b1 si + b si). split; [done|]. split; [apply (acks_trans _ _ _ _ _ _ _ A1 A2)|].
      split; [by rewrite Hh2|]. destruct r as [acc'|e]; [destruct Hr as [Hr1 Hr2]|destruct Hr as [-> Hr2]]; rewrite ?Hl1 in *; simpl.
      * split; [lia|by eapply counts_trans].
      * split; [done|lia].
Qed.

(** ** Looking up TSNs in turn *)

Definition count (a : assoc) : Z := Z.of_nat (length (locs (inflightQueue a))).

Definition head_tsn (k : Z) (a : assoc) : Z := cumulativeTSNAckPoint a +32 (1 + k).

(** How many look-ups from [t] on can succeed. *)
Definition room (k : Z) (a : assoc) (t : Z) : Z :=
  if decide (head_tsn k a <= t < head_tsn k a + count a) then head_tsn k a + count a - t else 0.

Lemma get_flight k a t :
  flight k a -> in_u 32 t ->
  (exists p, PayloadQueue.get (heap a) (inflightQueue a) t = Some (Some p)
     /\ locs (inflightQueue a) !! Z.to_nat (t - head_tsn k a) = Some p /\ head_tsn k a <= t < head_tsn k a + count a
     /\ linked (heap a) p)
  \/ (PayloadQueue.get (heap a) (inflightQueue a) t = Some None /\ ~ (head_tsn k a <= t < head_tsn k a + count a)).
Proof.
  intros Hf Ht. pose proof (sk_inflight _ (fl_send _ _ Hf)) as Hok.
  rewrite (get_window _ _ (head_tsn k a) t Hok (nb_seq _ _ (fl_numbered _ _ Hf)) (u32_range _) Ht). fold (count a).
  destruct (decide _) as [Hin|Hout]; [left|by right].
  destruct (lookup_lt_is_Some_2 (locs (inflightQueue a)) (Z.to_nat (t - head_tsn k a))) as [p Hp]; [unfold count in *; lia|].
  exists p. rewrite Hp. split; [done|]. split; [done|]. split; [done|]. pose proof (pq_live _ _ Hok) as Hl. rewrite Forall_forall in Hl.
  apply Hl. by eapply list_elem_of_lookup_2.
Qed.

Lemma room_bound k a t : room k a t <= count a.
Proof. unfold room, count. destruct (decide _); lia. Qed.

Lemma room_next k a t :
  flight k a -> in_u 32 t -> head_tsn k a <= t < head_tsn k a + count a -> room k a (t +32 1) < room k a t.
Proof.
  intros Hf Ht Hin. pose proof (nb_range _ _ (fl_numbered _ _ Hf)) as Hk. fold (count a) in Hk.
  unfold room. rewrite (decide_True (P := head_tsn k a <= t < _)) by done.
  pose proof (u32_range (cumulativeTSNAckPoint a + (1 + k))) as Hh. fold (head_tsn k a) in Hh.
  destruct (decide _); go_lia.
Qed.

Lemma fuel_enough k a t : flight k a -> room k a t < Z.of_nat (inflight_fuel a).
Proof.
  intros Hf. pose proof (room_bound k a t). unfold inflight_fuel, PayloadQueue.size. rewrite Len_law by apply Hf.
  fold (locs (inflightQueue a)). unfold count in *. lia.
Qed.

(** Same flight, same look-ups. *)
Lemma room_acks k a b a' t : acks a [] b a' -> room k a' t = room k a t.
Proof.
  intros Ha. unfold room, count, head_tsn. by rewrite (ak_cum _ _ _ _ Ha), (ak_locs _ _ _ _ Ha).
Qed.

(** ** Gap blocks *)


(** What a chunk still holds. *)
Definition held (h : store) (p : loc) : bool * Z := (acked_at h p, len_at h p).

(** Marking a chunk in flight. *)
Lemma mark_acks k a p t :
  flight k a -> PayloadQueue.get (heap a) (inflightQueue a) t = Some (Some p) -> p ∈ locs (inflightQueue a) ->
  exists c q, heap a !! p = Some c
    /\ PayloadQueue.markAsAcked (heap a) (inflightQueue a) t = Some (dataLen c, <[p := setAcked c]> (heap a), q)
    /\ acks a [] (fun si => if sid_at (heap a) p =? si then dataLen c else 0)
         (set_heap (<[p := setAcked c]> (heap a)) (set_inflight q a)).
Proof.
  intros [Hs Hn Hd Hr] Hg Hin. pose proof (sk_inflight _ Hs) as Hok. pose proof (pq_live _ _ Hok) as Hl. rewrite Forall_forall in Hl.
  destruct (Hl p Hin) as (c & Hc & Hm). exists c. unfold PayloadQueue.markAsAcked. rewrite Hg. simpl. rewrite Hc. simpl.
  eexists. split; [done|]. split; [done|].
  assert (Ht : same_tags (heap a) (<[p := setAcked c]> (heap a))) by (by apply (same_tags_insert _ _ c)).
  constructor; try done; simpl.
  - pose proof (insert_ok (heap a) (inflightQueue a) p (setAcked c) c Hok Hc eq_refl Hin) as H'.
    change (dataLen (setAcked c)) with 0 in H'. by rewrite Z.add_0_r in H'.
  - intros x (c' & Hc' & Hz). unfold drained. rewrite lookup_insert. case_decide; [by eexists|by exists c'].
  - by eapply intact_insert.
  - intros x Hx. unfold acked_at. rewrite lookup_insert_ne; [done|]. intros <-. done.
  - set_solver.
  - intros si. match goal with |- context [locs (mkPQ ?x ?y)] => change (locs (mkPQ x y)) with (locs (inflightQueue a)) end.
    split; [pose proof (zlen_nonneg (userData (wire c))); unfold dataLen; destruct (_ =? si); lia|].
    by apply (owed_insert _ _ _ _ c); try done; apply Hok.
  - match goal with |- context [locs (mkPQ ?x ?y)] => change (locs (mkPQ x y)) with (locs (inflightQueue a)) end.
    rewrite (total_insert (heap a) p (setAcked c) c) by (done || apply Hok). change (dataLen (setAcked c)) with 0.
    pose proof (zlen_nonneg (userData (wire c))). unfold dataLen. lia.
Qed.

(** One turn of the gap loop. *)
Lemma gap_turn k a p now cum fuel i last acc htna :
  flight k a -> i <= last -> PayloadQueue.get (heap a) (inflightQueue a) (cum +32 i) = Some (Some p) ->
  p ∈ locs (inflightQueue a) ->
  exists bytes acc' a', acks a [] bytes a' /\ counts acc acc' bytes
    /\ (forall x, acked_at (heap a') x = acked_at (heap a) x || bool_decide (x = p))
    /\ gapLoop (Datatypes.S fuel) now cum i last acc htna a
       = gapLoop fuel now cum (u16 (i + 1)) last acc' (if sna32LT htna (cum +32 i) then cum +32 i else htna) a'.
Proof.
  intros Hf Hi Hg Hin. destruct (mark_acks k a p _ Hf Hg Hin) as (c & q & Hc & Hm & Ha).
  assert (Hsid : sid_at (heap a) p = streamIdentifier (wire c)) by (unfold sid_at, wire_at; by rewrite Hc). rewrite Hsid in Ha.
  cbn [gapLoop]. destruct (Z.ltb_spec last i); [lia|]. rewrite Hg. simpl mbind. rewrite Hc. simpl mbind.
  destruct (acked c) eqn:Eac; cbn [negb].
  - exists (fun _ => 0), acc, (rackRemove p a). split; [by eapply acks_quiet; [done|apply quiet_rack_remove]|]. split; [intros si; lia|].
    split; [|done]. intros x. simpl. case_bool_decide as E; [subst|by rewrite orb_false_r]. unfold acked_at. rewrite Hc. simpl. by rewrite Eac.
  - change (heap (rackRemove p a)) with (heap a). change (inflightQueue (rackRemove p a)) with (inflightQueue a). rewrite Hm. simpl mbind.
    eexists _, _, _. split; [|split; [apply counts_add|split; [|reflexivity]]].
    + eapply acks_then_quiet; [done|exact Ha|]. etransitivity; [|apply quiet_measure]. constructor; try done.
      intros x Hx. simpl in Hx. by apply list_elem_of_filter in Hx as [_ ?].
    + intros x. rewrite (qt_heap _ _ (quiet_measure _ _ _)). simpl. unfold acked_at. rewrite lookup_insert.
      case_bool_decide as E; case_decide; subst; try done; by rewrite ?orb_true_r, ?orb_false_r.
Qed.

(** Any block: the loop ends, and what it did is accounted for. *)
Lemma gapLoop_total now cum last fuel : forall k i acc htna a,
  flight k a -> in_u 16 i -> in_u 32 cum -> room k a cum = 0 -> room k a (cum +32 i) < Z.of_nat fuel ->
  exists r a' bytes, gapLoop fuel now cum i last acc htna a = Some (r, a') /\ acks a [] bytes a'
    /\ match r with inl (acc', _) => counts acc acc' bytes | inr _ => True end.
Proof.
  induction fuel as [|fuel IH]; intros k i acc htna a Hf Hi Hc Hr Hfuel.
  { unfold room in Hfuel. destruct (decide _); lia. }
  assert (Hid : acks a [] (fun _ => 0) a) by (eapply acks_quiet; [done|reflexivity]).
  destruct (Z_lt_dec last i) as [Hlt|Hge].
  { exists (inl (acc, htna)), a, (fun _ => 0). cbn [gapLoop]. destruct (Z.ltb_spec last i); [|lia]. split; [done|]. split; [done|].
    intros si. lia. }
  destruct (get_flight k a (cum +32 i) Hf (u32_range _)) as [(p & Hg & Hp & Hin & _)|[Hg Hout]].
  - destruct (gap_turn k a p now cum fuel i last acc htna Hf ltac:(lia) Hg (list_elem_of_lookup_2 _ _ _ Hp))
      as (b1 & acc1 & a1 & A1 & C1 & _ & ->).
    pose proof (flight_acks _ _ _ _ _ Hf A1) as Hf1. rewrite Z.add_0_r in Hf1.
    destruct (IH k (u16 (i + 1)) acc1 (if sna32LT htna (cum +32 i) then cum +32 i else htna) a1 Hf1) as (r & a' & b2 & E & A2 & Hr2).
    + apply wrap_range. lia.
    + done.
    + by rewrite (room_acks k a b1).
    + rewrite (room_acks k a b1) by done. destruct (Z.eq_dec i 65535) as [->|Hne].
      * change (u16 (65535 + 1)) with 0. rewrite Z.add_0_r, u32_small by done. unfold room in Hfuel at 1.
        rewrite decide_True in Hfuel by done. lia.
      * replace (cum +32 u16 (i + 1)) with ((cum +32 i) +32 1) by go_lia.
        pose proof (room_next k a (cum +32 i) Hf (u32_range _) Hin). lia.
    + exists r, a', (fun si => b1 si + b2 si). split; [done|]. split; [apply (acks_trans _ _ _ _ _ _ _ A1 A2)|].
      destruct r as [[acc' ?]|]; [by eapply counts_trans|done].
  - exists (inr (ErrTSNRequestNotExist (cum +32 i))), a, (fun _ => 0). cbn [gapLoop]. destruct (Z.ltb_spec last i); [lia|].
    rewrite Hg. done.
Qed.

(** The chunk [x] places after the cumulative TSN is in the block [i..last]. *)
Definition covers (i last : Z) (x : nat) : bool := (i <=? Z.of_nat x + 1) && (Z.of_nat x + 1 <=? last).

(** What a run of gap blocks does to the chunks in flight. *)
Definition marks (a a' : assoc) (covered : nat -> bool) : Prop :=
  forall x p, locs (inflightQueue a) !! x = Some p -> acked_at (heap a') p = acked_at (heap a) p || covered x.

(** [htna] is the TSN of a chunk in flight, or the cumulative one. *)
Definition in_flight_upto (cum : Z) (a : assoc) (t : Z) : Prop := exists y, 0 <= y <= count a /\ t = cum +32 y.

(** A block within the flight. *)
Lemma gapLoop_valid now last fuel : forall k i acc htna a,
  flight k a -> let cum := cumulativeTSNAckPoint a +32 k in
  head_tsn k a + count a <= 2 ^ 32 -> 1 <= i <= 65535 -> last <= count a -> last < 65535 ->
  last - i + 1 < Z.of_nat fuel -> (0 < fuel)%nat -> in_flight_upto cum a htna ->
  exists acc' htna' a' bytes, gapLoop fuel now cum i last acc htna a = Some (inl (acc', htna'), a')
    /\ acks a [] bytes a' /\ counts acc acc' bytes /\ in_flight_upto cum a' htna' /\ marks a a' (covers i last).
Proof.
  induction fuel as [|fuel IH]; intros k i acc htna a Hf cum Hw Hi Hl Hl' Hfuel Hpos Hht; [lia|]. subst cum.
  set (cum := cumulativeTSNAckPoint a +32 k) in *.
  destruct (Z_lt_dec last i) as [Hlt|Hge].
  { exists acc, htna, a, (fun _ => 0). cbn [gapLoop]. destruct (Z.ltb_spec last i); [|lia]. split; [done|].
    split; [eapply acks_quiet; [done|reflexivity]|]. split; [intros si; lia|]. split; [done|].
    intros x p _. unfold covers. destruct (_ <=? _) eqn:E1, (_ <=? last) eqn:E2; simpl; rewrite ?orb_false_r; try done. lia. }
  pose proof (nb_range _ _ (fl_numbered _ _ Hf)) as Hk. fold (count a) in Hk.
  assert (Ht : cum +32 i = head_tsn k a + (i - 1)) by (unfold cum, head_tsn in *; go_lia).
  destruct (get_flight k a (cum +32 i) Hf (u32_range _)) as [(p & Hg & Hp & Hin & _)|[Hg Hout]]; [|lia].
  destruct (gap_turn k a p now cum fuel i last acc htna Hf ltac:(lia) Hg (list_elem_of_lookup_2 _ _ _ Hp))
    as (b1 & acc1 & a1 & A1 & C1 & M1 & ->).
  pose proof (flight_acks _ _ _ _ _ Hf A1) as Hf1. rewrite Z.add_0_r in Hf1.
  pose proof (ak_locs _ _ _ _ A1) as Hloc. simpl in Hloc. pose proof (ak_cum _ _ _ _ A1) as Hcum.
  replace (u16 (i + 1)) with (i + 1) by go_lia.
  assert (Hht1 : in_flight_upto cum a1 (if sna32LT htna (cum +32 i) then cum +32 i else htna)).
  { unfold in_flight_upto, count in *. rewrite <- Hloc. destruct (sna32LT _ _); [|done]. exists i. split; [lia|done]. }
  destruct (IH k (i + 1) acc1 (if sna32LT htna (cum +32 i) then cum +32 i else htna) a1 Hf1)
    as (acc' & htna' & a' & b2 & E & A2 & C2 & H2 & M2);
    try (rewrite ?Hcum; unfold count, head_tsn, cum in *; rewrite <- ?Hloc, ?Hcum; (lia || done)).
  rewrite Hcum in E, H2. exists acc', htna', a', (fun si => b1 si + b2 si). split; [done|].
  split; [apply (acks_trans _ _ _ _ _ _ _ A1 A2)|]. split; [by eapply counts_trans|]. split; [done|].
  intros x y Hy. rewrite (M2 x y) by (by rewrite <- Hloc). rewrite M1, <- orb_assoc. f_equal. unfold covers.
  assert (Hxy : y = p <-> Z.of_nat x = i - 1).
  { rewrite Ht in Hp. replace (head_tsn k a + (i - 1) - head_tsn k a) with (i - 1) in Hp by lia. split.
    - intros ->. pose proof (NoDup_lookup _ _ _ _ (pq_nodup _ _ (sk_inflight _ (fl_send _ _ Hf))) Hy Hp). lia.
    - intros Hx. replace (Z.to_nat (i - 1)) with x in Hp by lia. congruence. }
  case_bool_decide as Eb; destruct (Z.leb_spec (i + 1) (Z.of_nat x + 1)), (Z.leb_spec i (Z.of_nat x + 1)),
    (Z.leb_spec (Z.of_nat x + 1) last); simpl; try done; exfalso; intuition lia.
Qed.

Lemma gapBlocksLoop_total now cum gaps : forall k acc htna a,
  flight k a -> in_u 32 cum -> room k a cum = 0 -> Forall (fun g => in_u 16 (gap_start g)) gaps ->
  exists r a' bytes, gapBlocksLoop now cum gaps acc htna a = Some (r, a') /\ acks a [] bytes a'
    /\ match r with inl (acc', _) => counts acc acc' bytes | inr _ => True end.
Proof.
  induction gaps as [|g gaps IH]; intros k acc htna a Hf Hc Hr Hg; cbn [gapBlocksLoop].
  { exists (inl (acc, htna)), a, (fun _ => 0). split; [done|]. split; [eapply acks_quiet; [done|reflexivity]|]. intros si. lia. }
  apply Forall_cons in Hg as [Hs Hg].
  destruct (gapLoop_total now cum (gap_end g) (inflight_fuel a) k (gap_start g) acc htna a) as (r & a1 & b1 & -> & A1 & Hr1);
    try done; [by apply fuel_enough|]. simpl mbind. destruct r as [[acc1 htna1]|e]; [|by exists (inr e), a1, b1].
  pose proof (flight_acks _ _ _ _ _ Hf A1) as Hf1. rewrite Z.add_0_r in Hf1.
  destruct (IH k acc1 htna1 a1 Hf1 Hc) as (r & a' & b2 & -> & A2 & Hr2); [by rewrite (room_acks k a b1)|done|].
  exists r, a', (fun si => b1 si + b2 si). split; [done|]. split; [apply (acks_trans _ _ _ _ _ _ _ A1 A2)|].
  destruct r as [[acc' ?]|]; [by eapply counts_trans|done].
Qed.

(** The blocks of a SACK that reports only chunks in flight. *)
Definition block_ok (a : assoc) (g : gapAckBlock) : Prop :=
  1 <= gap_start g <= 65535 /\ 0 <= gap_end g < 65535 /\ gap_end g <= count a.

Definition covered_by (gaps : list gapAckBlock) (x : nat) : bool := existsb (fun g => covers (gap_start g) (gap_end g) x) gaps.

Lemma gapBlocksLoop_valid now gaps : forall k acc htna a,
  flight k a -> let cum := cumulativeTSNAckPoint a +32 k in
  head_tsn k a + count a <= 2 ^ 32 -> Forall (block_ok a) gaps -> in_flight_upto cum a htna ->
  exists acc' htna' a' bytes, gapBlocksLoop now cum gaps acc htna a = Some (inl (acc', htna'), a')
    /\ acks a [] bytes a' /\ counts acc acc' bytes /\ in_flight_upto cum a' htna' /\ marks a a' (covered_by gaps).
Proof.
  induction gaps as [|g gaps IH]; intros k acc htna a Hf cum Hw Hg Hht; cbn [gapBlocksLoop].
  { exists acc, htna, a, (fun _ => 0). split; [done|]. split; [eapply acks_quiet; [done|reflexivity]|]. split; [intros si; lia|].
    split; [done|]. intros x p _. by rewrite orb_false_r. }
  apply Forall_cons in Hg as [(G1 & [_ G2] & G3) Hg].
  destruct (gapLoop_valid now (gap_end g) (inflight_fuel a) k (gap_start g) acc htna a)
    as (acc1 & htna1 & a1 & b1 & E & A1 & C1 & H1 & M1); try done.
  { unfold inflight_fuel, PayloadQueue.size. rewrite Len_law by apply Hf. fold (locs (inflightQueue a)). unfold count in *. lia. }
  { unfold inflight_fuel. lia. }
  fold cum in E, H1. rewrite E. simpl mbind. pose proof (flight_acks _ _ _ _ _ Hf A1) as Hf1. rewrite Z.add_0_r in Hf1.
  pose proof (ak_locs _ _ _ _ A1) as Hloc. simpl in Hloc. pose proof (ak_cum _ _ _ _ A1) as Hcum.
  destruct (IH k acc1 htna1 a1 Hf1) as (acc' & htna' & a' & b2 & E2 & A2 & C2 & H2 & M2).
  - unfold head_tsn, count in *. by rewrite Hcum, <- Hloc.
  - eapply Forall_impl; [exact Hg|]. intros g' (? & ? & ?). unfold block_ok, count in *. by rewrite <- Hloc.
  - by rewrite Hcum.
  - rewrite Hcum in E2, H2. fold cum in E2, H2. exists acc', htna', a', (fun si => b1 si + b2 si). split; [done|].
    split; [apply (acks_trans _ _ _ _ _ _ _ A1 A2)|]. split; [by eapply counts_trans|]. split; [done|].
    intros x p Hp. rewrite (M2 x p) by (by rewrite <- Hloc). rewrite (M1 x p Hp). simpl. by rewrite orb_assoc.
Qed.

(** ** The acknowledgement as a whole *)

(** How far the cumulative TSN moves. *)
Definition moved (cum : Z) (a : assoc) : Z := dist32 (cumulativeTSNAckPoint a) cum.

Lemma moved_cum cum k (a : assoc) :
  flight k a -> in_u 32 cum -> sna32GT (cumulativeTSNAckPoint a) cum = false ->
  0 <= moved cum a < 2 ^ 31 /\ cum = cumulativeTSNAckPoint a +32 moved cum a.
Proof.
  intros Hf Hc Hg. pose proof (nb_cum _ _ (fl_numbered _ _ Hf)) as Hcp. unfold moved.
  assert (~ 2 ^ 31 <= dist32 (cumulativeTSNAckPoint a) cum) by (rewrite <- sna32GT_dist by done; by rewrite Hg).
  unfold dist32 in *. go_lia.
Qed.

Lemma room_cum k a d : flight k a -> 0 <= d <= k -> room k a (cumulativeTSNAckPoint a +32 d) = 0.
Proof.
  intros Hf Hd. pose proof (nb_range _ _ (fl_numbered _ _ Hf)) as Hk. fold (count a) in Hk.
  pose proof (nb_cum _ _ (fl_numbered _ _ Hf)) as Hc. unfold room, head_tsn. destruct (decide _); [|done]. go_lia.
Qed.

(** Out of step, nothing is popped. *)
Lemma pop_out_of_step k a t :
  flight k a -> in_u 32 t -> t <> head_tsn k a -> PayloadQueue.pop (heap a) (inflightQueue a) t = Some (None, inflightQueue a).
Proof.
  intros Hf Ht Hne. pose proof (sk_inflight _ (fl_send _ _ Hf)) as Hok.
  destruct (pop_ok (heap a) (inflightQueue a) t Hok) as (r & q & E & Hq & Hcase). destruct r as [p|]; [|by subst q].
  destruct Hcase as (Hl & c & Hc & Htsn). destruct (nb_seq _ _ (fl_numbered _ _ Hf) 0%nat p) as (c' & Hc' & Ht'); [by rewrite Hl|].
  rewrite Hc in Hc'. injection Hc' as <-. rewrite Z.add_0_r, u32_small in Ht' by apply u32_range. unfold head_tsn in Hne. congruence.
Qed.

(** Any SACK that is not older than the last one. *)
Lemma processSelectiveAck_total now cum gaps k a :
  flight k a -> in_u 32 cum -> sna32GT (cumulativeTSNAckPoint a) cum = false -> Forall (fun g => in_u 16 (gap_start g)) gaps ->
  exists r a' popped bytes, processSelectiveAck now cum gaps a = Some (r, a') /\ acks a popped bytes a'
    /\ match r with
       | inl (acc, _) => counts (∅, mkDelivery 0 0 false) acc bytes /\ Z.of_nat (length popped) = moved cum a
           /\ (0 < moved cum a -> k = 0)
       | inr _ => k = 0 -> 0 < moved cum a -> locs (inflightQueue a) <> [] -> popped <> []
       end.
Proof.
  intros Hf Hc Hgt Hg. destruct (moved_cum cum k a Hf Hc Hgt) as [Hm Hcum]. unfold processSelectiveAck.
  pose proof (nb_range _ _ (fl_numbered _ _ Hf)) as Hk. set (acc0 := (∅, mkDelivery 0 0 false)).
  assert (Hid : acks a [] (fun _ => 0) a) by (eapply acks_quiet; [done|reflexivity]).
  assert (Hgaps : forall k1 a1 popped b1 acc1, flight k1 a1 -> acks a popped b1 a1 -> room k1 a1 cum = 0 -> counts acc0 acc1 b1 ->
    Z.of_nat (length popped) = moved cum a -> (0 < moved cum a -> k = 0) ->
    exists r a' popped bytes, gapBlocksLoop now cum gaps acc1 cum a1 = Some (r, a') /\ acks a popped bytes a'
    /\ match r with
       | inl (acc, _) => counts acc0 acc bytes /\ Z.of_nat (length popped) = moved cum a /\ (0 < moved cum a -> k = 0)
       | inr _ => k = 0 -> 0 < moved cum a -> locs (inflightQueue a) <> [] -> popped <> []
       end).
  { intros k1 a1 popped b1 acc1 Hf1 A1 Hr1 C1 Hlen Hk0.
    destruct (gapBlocksLoop_total now cum gaps k1 acc1 cum a1 Hf1 Hc Hr1 Hg) as (r & a' & b2 & -> & A2 & Hr).
    pose proof (acks_trans _ _ _ _ _ _ _ A1 A2) as A. rewrite app_nil_r in A.
    exists r, a', popped, (fun si => b1 si + b2 si). split; [done|]. split; [done|].
    destruct r as [[acc' ?]|]; [split; [by eapply counts_trans|done]|]. intros _ Hpos _ ->. simpl in Hlen. lia. }
  destruct (Z.eq_dec k 0) as [->|Hk0]; [|destruct (Z.eq_dec (moved cum a) 0) as [Hm0|Hm0]].
  - destruct (cumAckLoop_spec now (moved cum a) (inflight_fuel a) 0 acc0 a Hf) as (r & a1 & popped & b1 & E & A1 & _ & Hr); [lia| |].
    { unfold inflight_fuel, PayloadQueue.size. rewrite Len_law by apply Hf. fold (locs (inflightQueue a)). lia. }
    change (1 + 0) with 1 in E. rewrite <- Hcum in E. rewrite E. simpl mbind.
    destruct r as [acc1|e]; [|exists (inr e), a1, popped, b1; destruct Hr as [-> _]; by split_and!]. destruct Hr as [Hlen C1]. rewrite Z.sub_0_r in Hlen.
    pose proof (flight_acks _ _ _ _ _ Hf A1) as Hf1. rewrite Z.add_0_l, Hlen in Hf1.
    apply (Hgaps (moved cum a) a1 popped b1); try done.
    pose proof (room_cum (moved cum a) a1 (moved cum a) Hf1 ltac:(lia)) as H'. by rewrite (ak_cum _ _ _ _ A1), <- Hcum in H'.
  - assert (Eq : cum = cumulativeTSNAckPoint a).
    { rewrite Hcum, Hm0, Z.add_0_r. apply u32_small, Hf. }
    unfold inflight_fuel. cbn [cumAckLoop].
    assert (sna32LTE (cumulativeTSNAckPoint a +32 1) cum = false) as ->.
    { apply not_true_is_false. rewrite sna32LTE_dist by auto with go. rewrite Eq. unfold dist32. clear. go_lia. }
    simpl mbind. apply (Hgaps k a [] (fun _ => 0)); [done|done| |intros si; lia|by rewrite Hm0|lia].
    pose proof (room_cum k a (moved cum a) Hf ltac:(lia)) as H'. by rewrite <- Hcum in H'.
  - unfold inflight_fuel. cbn [cumAckLoop].
    assert (sna32LTE (cumulativeTSNAckPoint a +32 1) cum = true) as ->.
    { rewrite Hcum. apply sna32LTE_dist; auto with go. unfold dist32. go_lia. }
    rewrite (pop_out_of_step k a) by (done || apply u32_range || (unfold head_tsn; pose proof (nb_cum _ _ (fl_numbered _ _ Hf)); go_lia)).
    simpl mbind. eexists _, _, _, _. split; [done|]. by split; [exact Hid|].
Qed.

(** ** Changes of flags *)

Definition touch (c c' : sendChunk) : Prop :=
  tag_of c' = tag_of c /\ userData (wire c') = userData (wire c) /\ acked c' = acked c /\ (retransmit c' = retransmit c \/ acked c = false \/ retransmit c' = false).

Lemma touch_acks k a p c c' :
  flight k a -> heap a !! p = Some c -> touch c c' ->
  acks a [] (fun _ => 0) (set_heap (<[p := c']> (heap a)) a)
  /\ forall x, held (<[p := c']> (heap a)) x = held (heap a) x.
Proof.
  intros [Hs Hn Hd Hr] Hp (Ht & Hu & Ha & Hrx). pose proof (same_tags_insert _ _ _ _ Hp Ht) as Htags.
  assert (Hlen : forall x, len_at (<[p := c']> (heap a)) x = len_at (heap a) x).
  { intros x. unfold len_at. rewrite lookup_insert. case_decide; [subst; rewrite Hp; simpl; unfold dataLen; by rewrite Hu|done]. }
  split.
  - constructor; try done; simpl.
    + pose proof (sk_inflight _ Hs) as [Hv Hnd Hl Hb]. constructor; try done.
      * eapply Forall_impl; [exact Hl|]. intros x. by apply linked_tags.
      * rewrite Hb. symmetry. apply total_ext. intros x _. apply Hlen.
    + intros x (cx & Hx & Hz). unfold drained. rewrite lookup_insert.
      case_decide; [subst; rewrite Hp in Hx; injection Hx as <-; exists c'; split; [done|]; unfold dataLen; rewrite Hu, Ha; destruct Hrx as [-> | [-> | ->]]; naive_solver|by exists cx].
    + eapply intact_insert; [done|]. rewrite Ha. intros ->. split; [done|]. by apply tag_wire.
    + intros x _. unfold acked_at. rewrite lookup_insert. case_decide; [subst; by rewrite Hp|done].
    + set_solver.
    + intros si. split; [lia|]. rewrite (owed_ext (heap a) (<[p := c']> (heap a))); [lia|]. intros x _. split; [by apply sid_tags|done].
    + rewrite (total_ext (heap a)); [lia|]. intros x _. apply Hlen.
  - intros x. unfold held. rewrite Hlen. f_equal. unfold acked_at. rewrite lookup_insert. case_decide; [subst; by rewrite Hp|done].
Qed.

(** A step of a SACK that releases nothing and leaves the receiver's window and
    the T3 timer alone. *)
Record idle (a a' : assoc) : Prop := {
  id_acks : acks a [] (fun _ => 0) a';
  id_held : forall x, held (heap a') x = held (heap a) x;
  id_t3 : t3RTX a' = t3RTX a;
  id_rwnd : rwnd (cc a') = rwnd (cc a)
}.

Lemma idle_trans a a' a'' : idle a a' -> idle a' a'' -> idle a a''.
Proof.
  intros [A1 B1 C1 D1] [A2 B2 C2 D2]. constructor; [exact (acks_trans _ _ _ _ _ _ _ A1 A2)|intros x; by rewrite B2|congruence..].
Qed.

Lemma idle_quiet k a a' : flight k a -> quiet a a' -> t3RTX a' = t3RTX a -> rwnd (cc a') = rwnd (cc a) -> idle a a'.
Proof. intros Hf Hq Ht Hw. constructor; [by eapply acks_quiet| |done|done]. intros x. by rewrite (qt_heap _ _ Hq). Qed.

Lemma flight_idle k a a' : flight k a -> idle a a' -> flight k a'.
Proof. intros Hf [Ha _ _ _]. pose proof (flight_acks _ _ _ _ _ Hf Ha) as H'. by rewrite Z.add_0_r in H'. Qed.

Lemma room_idle k a a' t : idle a a' -> room k a' t = room k a t.
Proof. intros [Ha _ _ _]. by eapply room_acks. Qed.

Lemma idle_refl k a : flight k a -> idle a a.
Proof. intros Hf. eapply idle_quiet; [done|reflexivity|done|done]. Qed.

Lemma loss_t3 now (a : assoc) :
  t3RTX (tlrApplyAdditionalLossLocked now a) = t3RTX a /\ cc (tlrApplyAdditionalLossLocked now a) = cc a.
Proof. unfold tlrApplyAdditionalLossLocked, tlrUpdatePhaseLocked. by repeat case_match. Qed.

Lemma idle_loss k now a : flight k a -> idle a (tlrApplyAdditionalLossLocked now a).
Proof. intros Hf. destruct (loss_t3 now a) as [? Hc]. eapply idle_quiet; [done|apply quiet_loss|done|by rewrite Hc]. Qed.

Lemma idle_touch k a p c c' : flight k a -> heap a !! p = Some c -> touch c c' -> idle a (set_heap (<[p := c']> (heap a)) a).
Proof. intros Hf Hp Ht. destruct (touch_acks k a p c c' Hf Hp Ht) as [? ?]. by constructor. Qed.

(** ** Missing reports *)

Definition miss_update (now htna : Z) (p : loc) (c : sendChunk) (ab : bool) (a : assoc) : assoc :=
  if negb (acked c) && negb ab && (missIndicator c <? 3) then
    let a := set_heap (<[p := set_miss (missIndicator c + 1) c]> (heap a)) a in
    if missIndicator c + 1 =? 3 then
      let a := if tlrActive (tlr a) then tlrApplyAdditionalLossLocked now a else a in
      if negb (inFastRecovery (cc a)) then enterFastRecovery htna a else a
    else a
  else a.

Lemma miss_update_idle k now htna p c ab a : flight k a -> heap a !! p = Some c -> idle a (miss_update now htna p c ab a).
Proof.
  intros Hf Hp. unfold miss_update. destruct (_ && _); [|by eapply idle_refl].
  set (a1 := set_heap _ a). assert (I1 : idle a a1) by (eapply idle_touch; [eassumption|eassumption|flags_only]).
  destruct (_ =? 3); [|done]. set (a2 := if tlrActive (tlr a1) then _ else _).
  assert (I2 : idle a a2).
  { eapply idle_trans; [exact I1|]. unfold a2. destruct (tlrActive _); [by eapply idle_loss, flight_idle|by eapply idle_refl, flight_idle]. }
  destruct (negb _); [|done]. eapply idle_trans; [exact I2|]. eapply idle_quiet; [by eapply flight_idle|apply quiet_fast|done|done].
Qed.

(** The loop ends; it refuses nothing that is in flight. *)
Lemma missLoop_total now htna maxTSN fuel : forall k a t,
  flight k a -> in_u 32 t -> room k a t < Z.of_nat fuel ->
  exists e a', missLoop fuel now htna maxTSN t a = Some (e, a') /\ idle a a'
    /\ forall y z, head_tsn k a + count a <= 2 ^ 32 -> t = head_tsn k a + y -> maxTSN = head_tsn k a +32 z ->
         0 <= y <= count a -> -1 <= z < count a -> e = None.
Proof.
  induction fuel as [|fuel IH]; intros k a t Hf Ht Hfuel.
  { unfold room in Hfuel. destruct (decide _); lia. }
  cbn [missLoop]. destruct (sna32LT t maxTSN) eqn:El; cbn [negb].
  2: { exists None, a. split; [done|]. split; [by eapply idle_refl|done]. }
  destruct (get_flight k a t Hf Ht) as [(p & Hg & Hp & Hin & Hlk)|[Hg Hout]]; rewrite Hg; simpl mbind.
  - pose proof Hlk as (c & Hc & _). rewrite Hc. simpl mbind. destruct (abandoned_some _ _ Hlk) as [ab Hab]. rewrite Hab. simpl mbind.
    fold (miss_update now htna p c ab a). pose proof (miss_update_idle k now htna p c ab a Hf Hc) as I1.
    set (a1 := miss_update now htna p c ab a) in *. pose proof (flight_idle _ _ _ Hf I1) as Hf1.
    destruct (IH k a1 (t +32 1) Hf1 (u32_range _)) as (e & a' & E & I2 & Hv).
    { rewrite (room_idle k a a1) by done. pose proof (room_next k a t Hf Ht Hin). lia. }
    exists e, a'. split; [done|]. split; [by eapply idle_trans|]. intros y z Hw Hy Hz Hby Hbz.
    assert (Ecount : count a1 = count a) by (unfold count; by rewrite (ak_locs _ _ _ _ (id_acks _ _ I1))).
    assert (Ehead : head_tsn k a1 = head_tsn k a) by (unfold head_tsn; by rewrite (ak_cum _ _ _ _ (id_acks _ _ I1))).
    rewrite Ecount, Ehead in Hv. destruct (Z.eq_dec (y + 1) (count a)) as [Hlast|Hmore].
    + exfalso. pose proof (nb_range _ _ (fl_numbered _ _ Hf)) as Hk. fold (count a) in Hk.
      pose proof (u32_range (cumulativeTSNAckPoint a + (1 + k))) as Hh. fold (head_tsn k a) in Hh.
      apply sna32LT_dist in El; [|done|rewrite Hz; apply u32_range]. rewrite Hz, Hy in El. unfold dist32 in El. go_lia.
    + apply (Hv (y + 1) z); try done; [|lia]. rewrite Hy in *. unfold count, head_tsn in *. go_lia.
  - eexists _, a. split; [done|]. split; [by eapply idle_refl|]. intros y z Hw Hy Hz Hby Hbz. exfalso.
    pose proof (nb_range _ _ (fl_numbered _ _ Hf)) as Hk. fold (count a) in Hk.
    pose proof (u32_range (cumulativeTSNAckPoint a + (1 + k))) as Hh. fold (head_tsn k a) in Hh.
    apply sna32LT_dist in El; [|done|rewrite Hz; apply u32_range]. rewrite Hz, Hy in El. unfold dist32 in El. go_lia.
Qed.

Lemma idle_plan k a p : flight k a -> idle a (set_plan p a).
Proof. intros Hf. eapply idle_quiet; [done|apply quiet_plan|done|done]. Qed.

Lemma processFastRetransmission_total now cum gaps htna adv k a :
  flight k a -> in_u 32 cum ->
  exists e a', processFastRetransmission now cum gaps htna adv a = Some (e, a') /\ idle a a'
    /\ (cum = cumulativeTSNAckPoint a +32 k -> head_tsn k a + count a <= 2 ^ 32 -> Forall (block_ok a) gaps ->
        in_flight_upto cum a htna -> e = None).
Proof.
  intros Hf Hc. unfold processFastRetransmission. set (maxTSN := if negb _ then _ else _). destruct (_ || _).
  - destruct (missLoop_total now htna maxTSN (inflight_fuel a) k a (cum +32 1) Hf (u32_range _)) as (e & a1 & -> & I1 & Hv);
      [by apply fuel_enough|]. simpl mbind.
    assert (Hnone : cum = cumulativeTSNAckPoint a +32 k -> head_tsn k a + count a <= 2 ^ 32 -> Forall (block_ok a) gaps ->
      in_flight_upto cum a htna -> e = None).
    { intros Hcum Hw Hb (y & Hy & Hht).
      assert (Hmax : exists z, -1 <= z < Z.max 0 (count a) /\ (0 < count a \/ z = -1) /\ maxTSN = head_tsn k a +32 z).
      { assert (Hz : forall x, 0 <= x <= count a -> exists z, -1 <= z < Z.max 0 (count a) /\ (0 < count a \/ z = -1)
          /\ cum +32 x = head_tsn k a +32 z).
        { intros x Hx. exists (x - 1). unfold count in *. split; [lia|]. split; [lia|]. rewrite Hcum. unfold head_tsn. clear. go_lia. }
        unfold maxTSN. destruct (negb _); [rewrite Hht; by apply Hz|]. destruct (last gaps) as [g|] eqn:Eg.
        - apply Hz. apply last_Some_elem_of in Eg. rewrite Forall_forall in Hb. destruct (Hb g Eg) as (_ & ? & ?). lia.
        - destruct (Hz 0) as (z & ? & ? & Ez); [unfold count; lia|]. exists z. split; [done|]. split; [done|].
          rewrite <- Ez, Z.add_0_r. symmetry. by apply u32_small. }
      destruct Hmax as (z & Hz1 & Hz2 & Hz3). apply (Hv 0 z); try done.
      - rewrite Hcum. unfold head_tsn. clear. go_lia.
      - unfold count. lia.
      - lia. }
    destruct e as [e|]; [by exists (Some e), a1|]. eexists _, _. split; [done|]. split; [|done].
    destruct (_ && _); [|done]. eapply idle_trans; [done|]. by eapply idle_plan, flight_idle.
  - simpl mbind. eexists _, _. split; [done|]. split; [|done]. destruct (_ && _); [by eapply idle_plan|by eapply idle_refl].
Qed.

(** ** What follows the acknowledgement *)

(** Each stream is told once. *)
Lemma releaseBuffers_spec bytes (a : assoc) :
  exists called m, releaseBuffers bytes a = (called, set_streams m a)
    /\ forall si, m !! si = (fun s => (onBufferReleased s (default 0 (bytes !! si))).2) <$> streams_ a !! si.
Proof.
  unfold releaseBuffers. set (f := fun '(si, n) '(called, a) => _).
  assert (HL : forall L, NoDup L.*1 -> exists called m, foldr f ([], a) L = (called, set_streams m a)
    /\ forall si, m !! si = (fun s => (onBufferReleased s (default 0 ((list_to_map L : gmap Z Z) !! si))).2) <$> streams_ a !! si).
  { induction L as [|[si n] L IH]; simpl; intros Hn.
    - exists [], (streams_ a). split; [by destruct a|]. intros si. rewrite lookup_empty. simpl. by destruct (streams_ a !! si).
    - apply NoDup_cons in Hn as [Hsi Hn]. destruct (IH Hn) as (called & m & -> & Hm). simpl.
      assert (Hbig : m !! si = streams_ a !! si).
      { rewrite Hm, not_elem_of_list_to_map_1 by done. simpl. by destruct (streams_ a !! si). }
      destruct (m !! si) as [st|] eqn:E.
      + destruct (onBufferReleased st n) as [low st'] eqn:Er. eexists _, _. split; [done|]. intros i.
        destruct (decide (i = si)) as [->|Hne].
        * rewrite !lookup_insert_eq, <- Hbig. simpl. by rewrite Er.
        * by rewrite !lookup_insert_ne, Hm.
      + eexists _, _. split; [done|]. intros i. destruct (decide (i = si)) as [->|Hne].
        * by rewrite E, <- Hbig.
        * by rewrite lookup_insert_ne. }
  destruct (HL (map_to_list bytes) (NoDup_fst_map_to_list bytes)) as (called & m & E & Hm). exists called, m. split; [done|].
  intros si. by rewrite Hm, list_to_map_to_list.
Qed.

(** Nothing of the flight depends on the streams. *)
Lemma flight_streams k m a : flight k a -> flight k (set_streams m a).
Proof. intros [Hs [N1 N2 N3 N4] D R]. constructor; [by destruct Hs|by constructor|done|done]. Qed.

Lemma advanceLoop_total fuel : forall k i a,
  flight k a -> in_u 32 i -> room k a i < Z.of_nat fuel -> exists a', advanceLoop fuel i a = Some a' /\ idle a a'.
Proof.
  induction fuel as [|fuel IH]; intros k i a Hf Hi Hfuel.
  { unfold room in Hfuel. destruct (decide _); lia. }
  cbn [advanceLoop]. destruct (get_flight k a i Hf Hi) as [(p & Hg & Hp & Hin & Hlk)|[Hg Hout]]; rewrite Hg; simpl mbind.
  - destruct (abandoned_some _ _ Hlk) as [ab ->]. simpl mbind. destruct ab; simpl; [|exists a; split; [done|by eapply idle_refl]].
    assert (I1 : idle a (set_advanced i a)) by (eapply idle_quiet; [done|apply quiet_advanced|done|done]).
    destruct (IH k (i +32 1) (set_advanced i a)) as (a' & E & I2); [by eapply flight_idle|apply u32_range| |].
    { rewrite (room_idle k a) by done. pose proof (room_next k a i Hf Hi Hin). lia. }
    exists a'. split; [done|by eapply idle_trans].
  - exists a. split; [done|by eapply idle_refl].
Qed.

Lemma advancePeerAckPoint_total k a : flight k a -> exists a', advancePeerAckPoint a = Some a' /\ idle a a'.
Proof.
  intros Hf. unfold advancePeerAckPoint.
  destruct (advanceLoop_total (inflight_fuel a) k (advancedPeerTSNAckPoint a +32 1) a Hf (u32_range _)) as (a1 & -> & I1);
    [by apply fuel_enough|]. simpl mbind. eexists. split; [done|]. destruct (sna32GT _ _); [|done].
  eapply idle_trans; [done|]. by eapply idle_plan, flight_idle.
Qed.

Lemma rackLoop_total l : forall k marked a,
  flight k a -> Forall (linked (heap a)) l -> exists m a', rackLoop l marked a = Some (m, a') /\ idle a a'.
Proof.
  induction l as [|p l IH]; intros k marked a Hf Hl; cbn [rackLoop].
  { exists marked, a. split; [done|by eapply idle_refl]. }
  apply Forall_cons in Hl as [Hp Hl]. pose proof Hp as (c & Hc & _). rewrite Hc. simpl mbind.
  destruct (abandoned_some _ _ Hp) as [ab Hab]. rewrite Hab. simpl mbind.
  assert (Hgo : forall a1 m1, idle a a1 -> exists m a', rackLoop l m1 a1 = Some (m, a') /\ idle a a').
  { intros a1 m1 I1. destruct (IH k m1 a1) as (m & a' & E & I2); [by eapply flight_idle| |].
    - eapply Forall_impl; [exact Hl|]. intros x. apply linked_tags, I1.
    - exists m, a'. split; [done|by eapply idle_trans]. }
  assert (Irem : forall a1, idle a a1 -> idle a (rackRemove p a1)).
  { intros a1 I1. eapply idle_trans; [exact I1|]. eapply idle_quiet; [by eapply flight_idle|apply quiet_rack_remove|done|done]. }
  destruct (acked c || ab) eqn:Eab; [by eapply Hgo, Irem, idle_refl|]. apply orb_false_iff in Eab as [Eac _]. destruct (_ || _); [by eapply Hgo, idle_refl|].
  destruct (negb _); [exists marked, a; split; [done|by eapply idle_refl]|]. apply Hgo, Irem. eapply idle_touch; [eassumption|eassumption|flags_only].
Qed.

Lemma rackMark_total k now a : flight k a -> exists a', rackMark now a = Some a' /\ idle a a'.
Proof.
  intros Hf. unfold rackMark. destruct (rackLoop_total (rackList (rack a)) k false a Hf) as (m & a1 & -> & I1); [apply Hf|].
  simpl mbind. eexists. split; [done|]. destruct m; [|done]. eapply idle_trans; [exact I1|].
  assert (Hf1 : flight k a1) by (by eapply flight_idle). destruct (tlrActive _).
  - eapply idle_trans; [by eapply idle_loss|]. eapply idle_plan, flight_idle; [done|]. by eapply idle_loss.
  - by eapply idle_plan.
Qed.

Lemma idle_deadlines k d1 d2 a : flight k a -> idle a (set_deadlines d1 d2 a).
Proof. intros Hf. eapply idle_quiet; [done|apply quiet_deadlines|done|done]. Qed.

Lemma idle_pto k now a : flight k a -> idle a (schedulePTOAfterSendLocked now a).
Proof. intros Hf. unfold schedulePTOAfterSendLocked. destruct (_ =? 0); by apply (idle_deadlines k). Qed.

Lemma onRackAfterSACK_total k now d dups a : flight k a -> exists a', onRackAfterSACK now d dups a = Some a' /\ idle a a'.
Proof.
  intros Hf. unfold onRackAfterSACK. set (a1 := rackUpdate now d dups a).
  assert (I1 : idle a a1).
  { eapply idle_quiet; [done|apply quiet_rackUpdate|..]; unfold a1, rackUpdate; by destruct (Min _ _). }
  assert (Hf1 : flight k a1) by (by eapply flight_idle).
  assert (exists a2, (if negb (rackDeliveredTime (rack a1) =? 0) then rackMark now a1 else Some a1) = Some a2 /\ idle a a2)
    as (a2 & -> & I2).
  { destruct (negb _); [|by exists a1]. destruct (rackMark_total k now a1 Hf1) as (a2 & E & I2). exists a2. split; [done|].
    by eapply idle_trans. }
  simpl mbind. eexists. split; [done|]. set (a3 := if _ && _ then _ else _).
  assert (I3 : idle a a3).
  { eapply idle_trans; [exact I2|]. unfold a3. pose proof (flight_idle k a a2 Hf I2). destruct (_ && _); by apply (idle_deadlines k). }
  eapply idle_trans; [exact I3|]. by apply (idle_pto k), (flight_idle k a).
Qed.

(** ** The end of the handler *)

(** The retransmission timer runs as long as something is in flight. *)
Definition timed (a : assoc) : Prop :=
  locs (inflightQueue a) <> [] -> isRunning (t3RTX a) = true \/ t_state (t3RTX a) = rtxTimerClosed.

Lemma start_timed t rto : isRunning (start t rto).2 = true \/ t_state (start t rto).2 = rtxTimerClosed.
Proof.
  unfold start, isRunning. destruct (t_state t) eqn:E; rewrite ?bool_decide_eq_true_2, ?bool_decide_eq_false_2 by done; simpl; rewrite ?E; auto.
Qed.

Lemma stop_stopped t : isRunning (stop t) = false.
Proof. unfold stop, isRunning. destruct (bool_decide (t_state t = _)) eqn:E; simpl; [done|exact E]. Qed.

Definition finishSack (called : list Z) (st : assocState) (now : Z) (advanced : bool) (d : delivery) (dups : bool) (a : assoc)
  : option ((list Z + sendErr) * assoc) :=
  a ← (if partialReliabilityEnabled a then
         let a := if sna32LT (advancedPeerTSNAckPoint a) (cumulativeTSNAckPoint a)
                  then set_advanced (cumulativeTSNAckPoint a) a else a in
         a ← advancePeerAckPoint a; Some (awakeWriteLoop a)
       else Some a);
  let a := postprocessSack st advanced a in
  a ← onRackAfterSACK now d dups a;
  Some (inl called, tlrMaybeFinishLocked (advanced || d_found d) a).

Lemma postprocess_spec k st adv a :
  flight k a -> let a' := postprocessSack st adv a in
  quiet a a' /\ rwnd (cc a') = rwnd (cc a) /\ timed a' /\ (locs (inflightQueue a) = [] -> t3RTX a' = t3RTX a).
Proof.
  intros Hf. unfold postprocessSack, timed, PayloadQueue.size. rewrite Len_law by apply Hf. fold (locs (inflightQueue a)).
  destruct (locs (inflightQueue a)) as [|p l] eqn:El; simpl.
  - destruct st, adv; simpl; rewrite El; (split; [constructor; (done || (intros ? ?; done))|by split]).
  - destruct adv; simpl; (split; [constructor; (done || (intros ? ?; done))|]); split; try done; (split; [|done]); intros _; apply start_timed.
Qed.

Lemma finishSack_spec called st now adv d dups k a :
  flight k a -> exists a', finishSack called st now adv d dups a = Some (inl called, a')
    /\ acks a [] (fun _ => 0) a' /\ (forall x, held (heap a') x = held (heap a) x) /\ rwnd (cc a') = rwnd (cc a)
    /\ timed a' /\ (locs (inflightQueue a) = [] -> t3RTX a' = t3RTX a).
Proof.
  intros Hf. unfold finishSack.
  set (m := if partialReliabilityEnabled a then _ else Some a).
  assert (exists a1, m = Some a1 /\ idle a a1) as (a1 & E1 & I1).
  { unfold m. destruct (partialReliabilityEnabled a); [|exists a; split; [done|by eapply idle_refl]].
    set (a0 := if sna32LT _ _ then _ else _). assert (I0 : idle a a0).
    { unfold a0. destruct (sna32LT _ _); [|by eapply idle_refl]. eapply idle_quiet; [done|apply quiet_advanced|done|done]. }
    destruct (advancePeerAckPoint_total k a0) as (a1 & E & I1); [by eapply flight_idle|].
    exists (awakeWriteLoop a1). rewrite E. split; [done|]. pose proof (idle_trans _ _ _ I0 I1) as I.
    eapply idle_trans; [exact I|]. by eapply idle_plan, flight_idle. }
  rewrite E1. simpl mbind. pose proof (flight_idle _ _ _ Hf I1) as Hf1.
  destruct (postprocess_spec k st adv a1 Hf1) as (Q2 & W2 & T2 & K2). set (a2 := postprocessSack st adv a1) in *.
  pose proof (acks_then_quiet k a [] _ a1 a2 Hf (id_acks _ _ I1) Q2) as A2.
  pose proof (flight_acks _ _ _ _ _ Hf A2) as Hf2. simpl in Hf2.
  destruct (onRackAfterSACK_total _ now d dups a2 Hf2) as (a3 & E3 & I3). rewrite E3. simpl mbind.
  eexists. split; [done|]. set (a4 := tlrMaybeFinishLocked _ a3).
  assert (I4 : idle a2 a4).
  { eapply idle_trans; [exact I3|]. eapply idle_quiet; [by eapply flight_idle|apply quiet_maybeFinish|..];
      unfold a4, tlrMaybeFinishLocked; by repeat case_match. }
  assert (L4 : locs (inflightQueue a4) = locs (inflightQueue a2)) by (by rewrite (ak_locs _ _ _ _ (id_acks _ _ I4))).
  split; [exact (acks_trans _ _ _ _ _ _ _ A2 (id_acks _ _ I4))|]. split; [|split; [|split]].
  - intros x. by rewrite (id_held _ _ I4), (qt_heap _ _ Q2), (id_held _ _ I1).
  - by rewrite (id_rwnd _ _ I4), W2, (id_rwnd _ _ I1).
  - unfold timed. rewrite L4, (id_t3 _ _ I4). exact T2.
  - intros Hl. rewrite (id_t3 _ _ I4), K2, (id_t3 _ _ I1); [done|]. by rewrite (ak_locs _ _ _ _ (id_acks _ _ I1)) in Hl.
Qed.

(** The part of the handler that follows [processSelectiveAck]. *)
Definition tailSack (now cum a_rwnd : Z) (gaps : list gapAckBlock) (dups : bool) (st : assocState) (bytes : gmap Z Z) (d : delivery)
    (htna : Z) (a : assoc) : option ((list Z + sendErr) * assoc) :=
  let advanced := sna32LT (cumulativeTSNAckPoint a) cum in
  let a := if advanced then onCumulativeTSNAckPointAdvanced (total_bytes bytes) (set_cum cum a) else a in
  let (called, a) := releaseBuffers bytes a in
  let bytesOutstanding := u32 (PayloadQueue.getNumBytes (inflightQueue a)) in
  let a := setRWND (if a_rwnd <=? bytesOutstanding then 0 else a_rwnd -32 bytesOutstanding) a in
  '(err, a) ← processFastRetransmission now cum gaps htna advanced a;
  match err with
  | Some e => Some (inr e, a)
  | None => finishSack called st now advanced d dups a
  end.

(** What a processed SACK has done. *)
Record acknowledged (k cum a_rwnd : Z) (a a' : assoc) : Prop := {
  kn_flight : flight k a';
  kn_pending : pendingQueue a' = pendingQueue a;
  kn_next : myNextTSN a' = myNextTSN a;
  kn_tags : same_tags (heap a) (heap a');
  kn_intact : intact (heap a) (heap a');
  kn_acked : forall p, p ∉ locs (inflightQueue a) -> acked_at (heap a') p = acked_at (heap a) p;
  kn_cum : cumulativeTSNAckPoint a' = cum;
  kn_popped : exists popped, locs (inflightQueue a) = popped ++ locs (inflightQueue a') /\ Z.of_nat (length popped) = moved cum a;
  kn_streams : forall si, streams_ a' !! si
    = (fun s => (onBufferReleased s (owed (heap a) si (locs (inflightQueue a))
                                    - owed (heap a') si (locs (inflightQueue a')))).2) <$> streams_ a !! si;
  kn_rwnd : rwnd (cc a') = Z.max 0 (a_rwnd - PayloadQueue.getNumBytes (inflightQueue a'));
  kn_timed : timed a';
  kn_stopped : 0 < moved cum a -> locs (inflightQueue a') = [] -> isRunning (t3RTX a') = false
}.

(** The cumulative point after the SACK. *)
Lemma cum_step k cum n bytes popped (a a1 : assoc) :
  flight k a -> in_u 32 cum -> sna32GT (cumulativeTSNAckPoint a) cum = false -> acks a popped bytes a1 ->
  Z.of_nat (length popped) = moved cum a -> (0 < moved cum a -> k = 0) ->
  let adv := sna32LT (cumulativeTSNAckPoint a1) cum in
  let a2 := if adv then onCumulativeTSNAckPointAdvanced n (set_cum cum a1) else a1 in
  adv = (0 <? moved cum a) /\ flight k a2 /\ cumulativeTSNAckPoint a2 = cum /\ heap a2 = heap a1
  /\ inflightQueue a2 = inflightQueue a1 /\ pendingQueue a2 = pendingQueue a1 /\ streams_ a2 = streams_ a1
  /\ myNextTSN a2 = myNextTSN a1
  /\ (0 < moved cum a -> locs (inflightQueue a1) = [] -> isRunning (t3RTX a2) = false).
Proof.
  intros Hf Hc Hgt A Hl Hk0. destruct (moved_cum cum k a Hf Hc Hgt) as [Hm Hcum]. pose proof (nb_cum _ _ (fl_numbered _ _ Hf)) as Hcp.
  pose proof (flight_acks _ _ _ _ _ Hf A) as Hf1. rewrite Hl in Hf1. rewrite (ak_cum _ _ _ _ A).
  assert (Hadv : sna32LT (cumulativeTSNAckPoint a) cum = (0 <? moved cum a)).
  { apply eq_true_iff_eq. rewrite sna32LT_dist, Z.ltb_lt by done. unfold moved in *. lia. }
  rewrite Hadv. split; [done|]. destruct (Z.ltb_spec 0 (moved cum a)) as [Hpos|Hz].
  - set (a0 := set_cum cum a1). set (a2 := onCumulativeTSNAckPointAdvanced n a0).
    pose proof (quiet_advancedPoint n a0) as Qt. fold a2 in Qt.
    assert (Hf0 : flight 0 a0).
    { specialize (Hk0 Hpos). subst k. pose proof (flight_cum 0 (moved cum a) a1 ltac:(lia) ltac:(lia) Hf1) as H'.
      by rewrite (ak_cum _ _ _ _ A), <- Hcum in H'. }
    rewrite (Hk0 Hpos). destruct Qt as [Q1 Q2 Q3 Q4 Q5 Q6 Q7].
    split; [|split; [by rewrite Q5|split; [by rewrite Q1|split; [by rewrite Q2|split; [by rewrite Q3|split; [by rewrite Q6|split; [by rewrite Q4|]]]]]]].
    + by eapply flight_quiet, quiet_advancedPoint.
    + intros _ He. unfold a2, onCumulativeTSNAckPointAdvanced, PayloadQueue.size. rewrite Len_law by apply Hf1.
      change (q_elems _) with (locs (inflightQueue a1)). rewrite He. change (Z.of_nat (length []) =? 0) with true. cbv beta iota zeta.
      repeat case_match; apply stop_stopped.
  - assert (Em : moved cum a = 0) by lia. rewrite Em, Z.add_0_r in Hf1. rewrite Em, Z.add_0_r, u32_small in Hcum by done.
    split; [done|]. split; [by rewrite (ak_cum _ _ _ _ A)|]. repeat (split; [done|]). lia.
Qed.

(** A SACK that reports only chunks in flight, and whose window does not reach
    across 2^32. *)
Record valid_sack (cum : Z) (gaps : list gapAckBlock) (a : assoc) : Prop := {
  vs_cum : moved cum a <= count a;
  vs_gaps : Forall (fun g => 1 <= gap_start g <= 65535 /\ 0 <= gap_end g < 65535 /\ gap_end g <= count a - moved cum a) gaps;
  vs_wrap : (cum +32 1) + (count a - moved cum a) <= 2 ^ 32
}.

Lemma flight_bytes_nonneg k a : flight k a -> 0 <= PayloadQueue.getNumBytes (inflightQueue a).
Proof. intros Hf. unfold PayloadQueue.getNumBytes. rewrite (pq_bytes _ _ (sk_inflight _ (fl_send _ _ Hf))). apply queued_nonneg. Qed.

Lemma tailSack_spec now cum a_rwnd gaps dups st acc htna k popped bytes (a a1 : assoc) :
  flight k a -> in_u 32 cum -> sna32GT (cumulativeTSNAckPoint a) cum = false -> in_u 32 a_rwnd ->
  PayloadQueue.getNumBytes (inflightQueue a1) < 2 ^ 32 -> acks a popped bytes a1 ->
  Z.of_nat (length popped) = moved cum a -> (0 < moved cum a -> k = 0) -> counts (∅, mkDelivery 0 0 false) acc bytes ->
  exists r a', tailSack now cum a_rwnd gaps dups st acc.1 acc.2 htna a1 = Some (r, a') /\ flight k a'
    /\ pendingQueue a' = pendingQueue a /\ myNextTSN a' = myNextTSN a
    /\ (forall called, r = inl called -> acknowledged k cum a_rwnd a a' /\ forall x, acked_at (heap a') x = acked_at (heap a1) x)
    /\ (k = 0 -> valid_sack cum gaps a -> in_flight_upto cum a1 htna -> exists called, r = inl called).
Proof.
  intros Hf Hc Hgt Hrw Hby A Hl Hk0 C. unfold tailSack.
  destruct (cum_step k cum (total_bytes acc.1) bytes popped a a1 Hf Hc Hgt A Hl Hk0) as (Hadv & Hf2 & B1 & B2 & B3 & B4 & B5 & B6 & B7).
  set (adv := sna32LT _ cum) in *. set (a2 := if adv then _ else a1) in *.
  destruct (releaseBuffers_spec acc.1 a2) as (called & m & -> & Hm). set (a3 := set_streams m a2).
  set (w := if a_rwnd <=? _ then _ else _). set (a4 := setRWND w a3).
  assert (Hf3 : flight k a3) by (by apply flight_streams).
  assert (Hf4 : flight k a4) by (by eapply flight_quiet, quiet_rwnd).
  assert (Hw : w = Z.max 0 (a_rwnd - PayloadQueue.getNumBytes (inflightQueue a1))).
  { unfold w. change (inflightQueue a3) with (inflightQueue a2). rewrite B3. pose proof (flight_bytes_nonneg _ _ Hf2) as Hnn. rewrite B3 in Hnn.
    rewrite !(u32_small (PayloadQueue.getNumBytes _)) by (unfold in_u; lia). destruct (Z.leb_spec a_rwnd (PayloadQueue.getNumBytes (inflightQueue a1))); [lia|].
    rewrite u32_small by (unfold in_u in *; lia). lia. }
  destruct (processFastRetransmission_total now cum gaps htna adv k a4 Hf4 Hc) as (e & a5 & -> & I5 & He). simpl mbind.
  pose proof (flight_idle _ _ _ Hf4 I5) as Hf5.
  assert (P4 : pendingQueue a4 = pendingQueue a) by (change (pendingQueue a4) with (pendingQueue a2); rewrite B4; apply A).
  assert (N4 : myNextTSN a4 = myNextTSN a) by (change (myNextTSN a4) with (myNextTSN a2); rewrite B6; apply A).
  destruct e as [e|].
  { eexists _, a5. split; [done|]. split; [done|]. split; [by rewrite (ak_pending _ _ _ _ (id_acks _ _ I5))|].
    split; [by rewrite (ak_next _ _ _ _ (id_acks _ _ I5))|]. split; [done|]. intros -> Hv Hup. exfalso.
    assert (Some e = None); [|done]. destruct Hv as [V1 V2 V3].
    assert (Ec : count a4 = count a - moved cum a).
    { unfold count. change (inflightQueue a4) with (inflightQueue a2). rewrite B3. pose proof (ak_locs _ _ _ _ A) as HL. rewrite HL, length_app. lia. }
    assert (Hcum4 : cumulativeTSNAckPoint a4 = cum) by (exact B1).
    apply He.
    - rewrite Hcum4, Z.add_0_r. symmetry. by apply u32_small.
    - unfold head_tsn. rewrite Hcum4, Ec. exact V3.
    - eapply Forall_impl; [exact V2|]. intros g (? & ? & ?). unfold block_ok. rewrite Ec. done.
    - destruct Hup as (y & Hy & ->). exists y. split; [|done]. unfold count in *. change (inflightQueue a4) with (inflightQueue a2). by rewrite B3. }
  destruct (finishSack_spec called st now adv acc.2 dups k a5 Hf5) as (a' & -> & A6 & M6 & W6 & T6 & S6).
  pose proof (acks_trans _ _ _ _ _ _ _ (id_acks _ _ I5) A6) as A46. simpl in A46.
  pose proof (flight_acks _ _ _ _ _ Hf4 A46) as Hf'. rewrite Z.add_0_r in Hf'.
  exists (inl called), a'. split; [done|]. split; [done|]. split; [by rewrite (ak_pending _ _ _ _ A46)|].
  split; [by rewrite (ak_next _ _ _ _ A46)|]. split; [|by eexists]. intros ? _.
  destruct A46 as [X1 X2 X3 X4 X5 X7 X8 X9 X9' X9'' X10 X11 _]. simpl in X7.
  assert (L41 : locs (inflightQueue a4) = locs (inflightQueue a1)) by (change (inflightQueue a4) with (inflightQueue a2); by rewrite B3).
  assert (H41 : heap a4 = heap a1) by exact B2. assert (L1 : locs (inflightQueue a1) = locs (inflightQueue a')) by (rewrite <- L41; exact X7).
  assert (Hbytes : PayloadQueue.getNumBytes (inflightQueue a') = PayloadQueue.getNumBytes (inflightQueue a1)).
  { unfold PayloadQueue.getNumBytes. rewrite (pq_bytes _ _ X8), (pq_bytes _ _ (ak_ok _ _ _ _ A)), <- L1, <- H41.
    apply total_ext. intros x _. pose proof (M6 x) as Hx. rewrite (id_held _ _ I5) in Hx. by injection Hx. }
  split.
  - constructor; [done|..].
    + by rewrite X2.
    + by rewrite X3.
    + etransitivity; [apply A|]. by rewrite <- H41.
    + etransitivity; [apply A|]. by rewrite <- H41.
    + intros x Hx. rewrite X9'', H41; [by apply A|]. rewrite L41. intros Hx'. apply Hx. rewrite (ak_locs _ _ _ _ A). apply elem_of_app. by right.
    + by rewrite X4.
    + exists popped. rewrite <- L1. split; [apply A|done].
    + intros si. rewrite X5. change (streams_ a4) with m. rewrite Hm, B5, (ak_streams _ _ _ _ A).
      replace (default 0 (acc.1 !! si)) with (owed (heap a) si (locs (inflightQueue a)) - owed (heap a') si (locs (inflightQueue a'))); [done|].
      rewrite (C si). simpl. destruct (ak_bytes _ _ _ _ A si) as [_ ->]. destruct (X11 si) as [_ Hx].
      change (owed (heap a4) si (locs (inflightQueue a4)) = owed (heap a') si (locs (inflightQueue a')) + (0 + 0)) in Hx.
      rewrite L41, H41 in Hx. rewrite lookup_empty. simpl. lia.
    + rewrite W6, (id_rwnd _ _ I5), Hbytes. exact Hw.
    + done.
    + intros Hpos Hnil. pose proof (ak_locs _ _ _ _ (id_acks _ _ I5)) as H5. simpl in H5. rewrite S6 by (rewrite <- H5, B3, L1; done).
      rewrite (id_t3 _ _ I5). apply B7; [done|]. by rewrite L1.
  - intros x. pose proof (M6 x) as Hx. rewrite (id_held _ _ I5), H41 in Hx. by injection Hx.
Qed.

Lemma processSelectiveAck_valid now cum gaps a :
  flight 0 a -> in_u 32 cum -> sna32GT (cumulativeTSNAckPoint a) cum = false -> valid_sack cum gaps a ->
  exists acc htna a1 popped bytes, processSelectiveAck now cum gaps a = Some (inl (acc, htna), a1) /\ acks a popped bytes a1
    /\ counts (∅, mkDelivery 0 0 false) acc bytes /\ Z.of_nat (length popped) = moved cum a /\ in_flight_upto cum a1 htna
    /\ forall x p, locs (inflightQueue a1) !! x = Some p -> acked_at (heap a1) p = acked_at (heap a) p || covered_by gaps x.
Proof.
  intros Hf Hc Hgt [V1 V2 V3]. destruct (moved_cum cum 0 a Hf Hc Hgt) as [Hm Hcum]. unfold processSelectiveAck.
  set (acc0 := (∅, mkDelivery 0 0 false)).
  destruct (cumAckLoop_spec now (moved cum a) (inflight_fuel a) 0 acc0 a Hf) as (r & a1 & popped & b1 & E & A1 & Hh & Hr); [lia| |].
  { unfold inflight_fuel, PayloadQueue.size. rewrite Len_law by apply Hf. fold (locs (inflightQueue a)). lia. }
  change (1 + 0) with 1 in E. rewrite <- Hcum in E. rewrite E. simpl mbind. fold (count a) in Hr. destruct r as [acc1|e]; [|lia].
  destruct Hr as [Hlen C1]. rewrite Z.sub_0_r in Hlen. pose proof (flight_acks _ _ _ _ _ Hf A1) as Hf1. rewrite Z.add_0_l, Hlen in Hf1.
  assert (Hcount : count a1 = count a - moved cum a) by (unfold count; rewrite (ak_locs _ _ _ _ A1), length_app; lia).
  assert (Hcum1 : cum = cumulativeTSNAckPoint a1 +32 moved cum a) by (by rewrite (ak_cum _ _ _ _ A1)).
  destruct (gapBlocksLoop_valid now gaps (moved cum a) acc1 cum a1 Hf1) as (acc & htna & a2 & b2 & E2 & A2 & C2 & H2 & M2).
  - unfold head_tsn. rewrite Hcount, (ak_cum _ _ _ _ A1). etransitivity; [|exact V3]. apply Z.eq_le_incl. f_equal. rewrite Hcum at 2. clear. go_lia.
  - eapply Forall_impl; [exact V2|]. intros g (? & ? & ?). unfold block_ok. by rewrite Hcount.
  - rewrite <- Hcum1. exists 0. split; [unfold count; lia|]. rewrite Z.add_0_r. symmetry. by apply u32_small.
  - rewrite <- Hcum1 in E2, H2. rewrite E2. exists acc, htna, a2, popped, (fun si => b1 si + b2 si). split; [done|].
    pose proof (acks_trans _ _ _ _ _ _ _ A1 A2) as A. rewrite app_nil_r in A. split; [done|]. split; [by eapply counts_trans|].
    split; [done|]. split; [done|]. intros x p Hp. rewrite <- Hh. apply M2. by rewrite (ak_locs _ _ _ _ A2).
Qed.

End SackSpec.

(** The states in which a SACK is looked at. *)
Definition listens (s : assocState) : Prop := s ∈ [established; shutdownPending; shutdownReceived].

(** Whatever a SACK says, it is processed without a panic.  When there is no error
    it has been ignored or acknowledges exactly what it says. *)
Lemma handleSack_spec {S} `{SL : StreamSchedulerLaws S} {Q} `{QL : QueueLaws loc Q}
    now cum a_rwnd gaps dups k (a : association (S := S) (Q := Q)) :
  flight k a -> in_u 32 cum -> in_u 32 a_rwnd -> Forall (fun g => in_u 16 (gap_start g)) gaps ->
  PayloadQueue.getNumBytes (inflightQueue a) < 2 ^ 32 ->
  exists r a' k', handleSack now cum a_rwnd gaps dups a = Some (r, a') /\ flight k' a'
    /\ pendingQueue a' = pendingQueue a /\ myNextTSN a' = myNextTSN a
    /\ forall called, r = inl called -> a' = a \/ acknowledged k cum a_rwnd a a'.
Proof.
  intros Hf Hc Hw Hg Hb. unfold handleSack.
  destruct (bool_decide (state a ∈ _)); cbn [negb]; [|exists (inl []), a, k; split_and!; auto].
  destruct (sna32GT _ _) eqn:Hgt; [exists (inl []), a, k; split_and!; auto|].
  destruct (processSelectiveAck_total now cum gaps k a Hf Hc Hgt Hg) as (r & a1 & popped & bytes & E & A & Hr).
  pose proof (flight_acks _ _ _ _ _ Hf A) as Hf1. rewrite E. simpl mbind. destruct r as [[acc htna]|e].
  2: { exists (inr e), a1, (k + Z.of_nat (length popped)). split; [done|]. split; [done|]. split; [apply A|]. split; [apply A|done]. }
  destruct Hr as (C & Hl & Hk0). destruct acc as [bs d].
  destruct (tailSack_spec now cum a_rwnd gaps (negb (bool_decide (dups = []))) (state a) (bs, d) htna k popped bytes a a1)
    as (r & a' & E' & Hf' & P' & N' & Hack & _); try done.
  { unfold PayloadQueue.getNumBytes in *. rewrite (pq_bytes _ _ (ak_ok _ _ _ _ A)). rewrite (pq_bytes _ _ (sk_inflight _ (fl_send _ _ Hf))) in Hb.
    pose proof (ak_total _ _ _ _ A). lia. }
  exists r, a', k. split; [exact E'|]. split; [done|]. split; [done|]. split; [done|]. intros called Hr. right. by eapply Hack.
Qed.

(** What an acceptable SACK does. *)
Lemma sack_accounts {S} `{SL : StreamSchedulerLaws S} {Q} `{QL : QueueLaws loc Q}
    now cum a_rwnd gaps dups (a : association (S := S) (Q := Q)) :
  flight 0 a -> listens (state a) -> in_u 32 cum -> sna32GT (cumulativeTSNAckPoint a) cum = false -> in_u 32 a_rwnd ->
  PayloadQueue.getNumBytes (inflightQueue a) < 2 ^ 32 -> valid_sack cum gaps a ->
  exists called a', handleSack now cum a_rwnd gaps dups a = Some (inl called, a') /\ acknowledged 0 cum a_rwnd a a'
    /\ forall x p, locs (inflightQueue a') !! x = Some p ->
         acked_at (heap a') p = acked_at (heap a) p || covered_by gaps x.
Proof.
  intros Hf Hst Hc Hgt Hw Hb Hv. unfold handleSack. rewrite bool_decide_eq_true_2 by done. cbn [negb]. rewrite Hgt.
  destruct (processSelectiveAck_valid now cum gaps a Hf Hc Hgt Hv) as (acc & htna & a1 & popped & bytes & E & A & C & Hl & Hup & Hm).
  rewrite E. simpl mbind. destruct acc as [bs d].
  destruct (tailSack_spec now cum a_rwnd gaps (negb (bool_decide (dups = []))) (state a) (bs, d) htna 0 popped bytes a a1)
    as (r & a' & E' & Hf' & P' & N' & Hack & Hok); try done.
  { unfold PayloadQueue.getNumBytes in *. rewrite (pq_bytes _ _ (ak_ok _ _ _ _ A)). rewrite (pq_bytes _ _ (sk_inflight _ (fl_send _ _ Hf))) in Hb.
    pose proof (ak_total _ _ _ _ A). lia. }
  destruct (Hok eq_refl Hv Hup) as [called ->]. exists called, a'. split; [exact E'|]. destruct (Hack called eq_refl) as [K Hsame].
  split; [done|]. intros x p Hp. rewrite Hsame. apply Hm. destruct (kn_popped _ _ _ _ _ K) as (pp & Hpp & Hlen).
  rewrite (ak_locs _ _ _ _ A) in Hpp. apply app_inj_1 in Hpp as [_ ->]; [done|lia].
Qed.

