(* ===== verification/SenderSteps.v ===== *)
(** * The sender as a whole

    Writes, sends, SACKs, timers and retransmissions in any order: every handler
    returns, the invariant of the in-flight queue holds throughout, and while
    data is in flight the retransmission timer runs. *)

From S2P Require Import Prelude.
From S2P Require Import Serial.
From S2P Require Import Float64.
From S2P Require Import Bytes.
From S2P Require Import Chunks.
From S2P Require Import RingQueue.
From S2P Require Import PayloadQueue.
From S2P Require Import WindowedMin.
From S2P Require Import PendingQueue.
From S2P Require Import PendingSpec.
From S2P Require Import Reassembly.
From S2P Require Import Stream.
From S2P Require Import Timers.
From S2P Require Import Sender.
From S2P Require Import SenderSpec.
From S2P Require Import Sack.
From S2P Require Import SackSpec.

Local Open Scope Z_scope.
Local Open Scope go_scope.

Section Steps.
Context {S : Type} `{SL : StreamSchedulerLaws S} {Q : Type} `{QL : QueueLaws loc Q}.

Abbreviation assoc := (@association S Q).

(** ** Sending keeps the flight *)

(** TSNs in flight and chunks that wait fit half of the sequence space. *)
Definition half_space (a : assoc) : Prop :=
  dist32 (cumulativeTSNAckPoint a) (myNextTSN a) + PendingSpec.size (pendingQueue a) <= 2 ^ 31.

Lemma dist_next k a : flight k a -> dist32 (cumulativeTSNAckPoint a) (myNextTSN a) = 1 + k + count a.
Proof.
  intros Hf. pose proof (fl_numbered _ _ Hf) as [N1 N2 N3 N4]. fold (count a) in N2, N4. rewrite N4.
  assert (0 <= count a) by (unfold count; lia). unfold dist32. go_lia.
Qed.

Lemma drained_shape h h' p : same_shape h h' -> drained h p -> drained h' p.
Proof.
  intros Hs (c & Hc & Hz). destruct (same_shape_lookup _ _ _ _ Hs Hc) as (c' & Hc' & E). exists c'. split; [done|].
  pose proof (shape_len _ _ E) as ->. injection E as _ _ _ _ _ _ _ _ _ _ _ _ _ -> ->. done.
Qed.

Lemma sending_tsn h p t s n : sending h p = Some (t, s, n) -> exists c, h !! p = Some c /\ tsn (wire c) = t.
Proof. unfold sending. destruct (h !! p) as [c|]; [|done]. intros [= <- <- <-]. by eexists. Qed.

Lemma flight_sent now k a new resets a' :
  flight k a -> half_space a -> sent now a new resets a' -> flight k a'.
Proof.
  intros Hf Hh [K O I P R T N X Y V]. pose proof (dist_next _ _ Hf) as Hd. pose proof Hf as [Hs [N1 [N2 N2'] N3 N4] D Rk].
  fold (count a) in N2', N4. unfold half_space in Hh. rewrite Hd, (sk_count _ Hs), P, length_app in Hh.
  pose proof (kp_shape _ _ K) as Hsh. pose proof (kp_cum _ _ K) as Hcum.
  assert (Hdis : forall x, x ∈ locs (inflightQueue a) -> x ∉ new).
  { pose proof (sk_nodup _ O) as Hn. rewrite I in Hn. apply NoDup_app in Hn as (_ & _ & Hn). by apply NoDup_app in Hn as (_ & Hn & _). }
  constructor; [done|constructor| |].
  - by rewrite Hcum.
  - rewrite I, length_app. unfold count in *. lia.
  - rewrite Hcum. intros i p Hp. rewrite I in Hp. apply lookup_app_Some in Hp as [Hp|[Hi Hp]].
    + destruct (N3 i p Hp) as (c & Hc & Ht). pose proof (X p (Hdis p (list_elem_of_lookup_2 _ _ _ Hp))) as Hx.
      unfold sending in Hx at 2. rewrite Hc in Hx. apply sending_tsn in Hx as (c' & Hc' & Ht'). exists c'. split; [done|]. congruence.
    + apply T, sending_tsn in Hp as (c & Hc & Ht). exists c. split; [done|]. rewrite Ht, N4. unfold count. go_lia.
  - rewrite N, N4, Hcum, I, length_app. unfold count. go_lia.
  - apply Forall_app in D as [D1 D2]. rewrite P in D1. rewrite I. rewrite !Forall_app in *. destruct D1 as (D1 & _ & D3).
    split_and!; (eapply Forall_impl; [eassumption|]); intros x; by apply drained_shape.
  - pose proof (pq_live _ _ (sk_inflight _ O)) as Hl. rewrite I, Forall_app in Hl. destruct Hl as [_ Hl].
    rewrite Forall_forall in *. intros x Hx. apply Y, elem_of_app in Hx as [Hx|Hx]; [|by apply Hl].
    by apply (linked_shape (heap a)), Rk.
Qed.

(** ** Retransmission *)

Lemma idle_rackInsert k p a : flight k a -> p ∈ locs (inflightQueue a) -> idle a (rackInsert p a).
Proof.
  intros Hf Hp. unfold rackInsert. case_bool_decide; [by eapply idle_refl|]. pose proof (idle_refl k a Hf) as [A B C D].
  constructor; [|done..]. destruct A. constructor; try done. simpl. set_solver.
Qed.

(** A chunk of a message is marked as abandoned. *)
Lemma idle_check k now p a : flight k a -> linked (heap a) p ->
  exists a', checkPartialReliabilityStatus now p a = Some (tt, a') /\ idle a a'.
Proof.
  intros Hf Hl. assert (Hsame : exists a', Some (tt, a) = Some (tt, a') /\ idle a a') by (exists a; split; [done|by eapply idle_refl]).
  unfold checkPartialReliabilityStatus. destruct (negb _); [done|]. pose proof Hl as (c & Hc & [m Hm]). rewrite Hc. simpl.
  destruct (payloadType _ =? _); [done|]. destruct (streams_ a !! _) as [s|]; [|done].
  set (e := if s_reliabilityType s =? _ then _ else _). destruct e; [|done]. unfold setAbandoned. rewrite Hc. simpl. rewrite Hm. simpl.
  eexists. split; [done|].
  assert (I1 : idle a (set_heap (<[message_of p c := setAbandonedField true m]> (heap a)) a)) by (eapply idle_touch; [eassumption|eassumption|flags_only]).
  eapply idle_trans; [exact I1|]. eapply idle_quiet; [by eapply flight_idle|apply quiet_rack_remove|done|done].
Qed.

(** Which chunks are marked for retransmission. *)
Definition rtx_at (h : store) (p : loc) : bool := from_option retransmit false (h !! p).

Lemma check_keeps now p (a a' : assoc) :
  checkPartialReliabilityStatus now p a = Some (tt, a') -> mtu a' = mtu a /\ forall x, rtx_at (heap a') x = rtx_at (heap a) x.
Proof.
  unfold checkPartialReliabilityStatus. destruct (negb _); [by intros [= <-]|]. destruct (heap a !! p) as [c|] eqn:Hc; [|done]. simpl.
  destruct (payloadType _ =? _); [by intros [= <-]|]. destruct (streams_ a !! _) as [s|]; [|by intros [= <-]].
  set (e := if s_reliabilityType s =? _ then _ else _). destruct e; [|by intros [= <-]]. unfold setAbandoned. rewrite Hc. simpl.
  destruct (heap a !! message_of p c) as [m|] eqn:Hm; [|done]. intros [= <-]. split; [done|]. intros x. unfold rtx_at. simpl.
  rewrite lookup_insert. case_decide; [subst; by rewrite Hm|done].
Qed.

(** Sending a chunk again. *)
Record resent (rtx : bool) (p : loc) (a a' : assoc) : Prop := {
  rs_idle : idle a a';
  rs_mtu : mtu a' = mtu a;
  rs_rtx : forall x, rtx_at (heap a') x = rtx_at (heap a) x && negb (rtx && bool_decide (x = p))
}.

Lemma resend_spec k now rtx p (a : assoc) : flight k a -> p ∈ locs (inflightQueue a) ->
  exists a', resend now rtx p a = Some (tt, a') /\ resent rtx p a a'.
Proof.
  intros Hf Hp. pose proof (pq_live _ _ (sk_inflight _ (fl_send _ _ Hf))) as Hl. rewrite Forall_forall in Hl.
  pose proof (Hl p Hp) as Hlk. pose proof Hlk as (c & Hc & _). unfold resend. rewrite Hc. simpl mbind.
  set (c' := mkSend _ _ _ _ _ _ _ _ _ _). assert (Hrx : retransmit c' = retransmit c \/ retransmit c' = false) by (by destruct rtx; [right|left]). set (a1 := set_heap (<[p := c']> (heap a)) a).
  assert (I1 : idle a a1) by (eapply idle_touch; [eassumption|eassumption|split_and!; [done|done|done|tauto]]). pose proof (flight_idle _ _ _ Hf I1) as Hf1.
  set (a2 := rackRemove p a1). assert (I2 : idle a a2).
  { eapply idle_trans; [exact I1|]. by eapply idle_quiet; [|apply quiet_rack_remove|..]. }
  pose proof (flight_idle _ _ _ Hf I2) as Hf2. set (a3 := rackInsert p a2).
  assert (I3 : idle a a3) by (eapply idle_trans; [exact I2|]; by eapply idle_rackInsert).
  pose proof (flight_idle _ _ _ Hf I3) as Hf3.
  destruct (idle_check k now p a3 Hf3) as (a' & E & I4); [eapply linked_tags; [apply I3|done]|].
  exists a'. split; [done|]. destruct (check_keeps _ _ _ _ E) as [Hm Hr].
  assert (H3 : heap a3 = <[p := c']> (heap a) /\ mtu a3 = mtu a) by (unfold a3, rackInsert; by case_bool_decide). destruct H3 as [H3 M3].
  constructor; [by eapply idle_trans|by rewrite Hm|]. intros x. rewrite Hr, H3. unfold rtx_at. rewrite lookup_insert.
  case_decide; case_bool_decide; subst; try done; rewrite ?Hc; simpl; destruct rtx; simpl; by rewrite ?andb_false_r, ?andb_true_r.
Qed.

(** The sizes do not change either. *)
Lemma size_idle (a a' : assoc) p : idle a a' -> size_at (heap a') p = size_at (heap a) p.
Proof.
  intros I. pose proof (ak_tags _ _ _ _ (id_acks _ _ I)) as Ht. pose proof (id_held _ _ I p) as Hh. unfold held in Hh. injection Hh as _ Hlen.
  unfold size_at, len_at in *. destruct (heap a !! p) as [c|] eqn:E.
  - destruct (same_tags_lookup _ _ _ _ Ht E) as (c' & Ec' & Htag). rewrite Ec' in *. simpl in *.
    unfold chunkSizeInPacket, chunkSize, isIData. rewrite Hlen. injection Htag as H1 _ _ _ _ _ _ _ _ _ _ H2 _. by rewrite H1, H2.
  - specialize (Ht p). rewrite E in Ht. by destruct (heap a' !! p).
Qed.

(** A place in a packet is within the MTU. *)
Lemma place_fits (a : assoc) budget bytes n b' bytes' :
  place a budget bytes n = Some (b', bytes') -> 0 < n -> bytes = 0 \/ commonHeaderSize <= bytes ->
  commonHeaderSize + n <= mtu a /\ commonHeaderSize <= bytes'.
Proof.
  unfold place, commonHeaderSize. intros E Hn Hb. destruct (Z.eqb_spec bytes 0), (Z.ltb_spec (mtu a) (bytes + n)); simpl in E;
    repeat case_match; simplify_eq; go_bool; lia.
Qed.

(** A run of retransmissions: [new] were sent again. *)
Record resents (a : assoc) (new : list loc) (a' : assoc) : Prop := {
  rx_idle : idle a a';
  rx_mtu : mtu a' = mtu a;
  rx_fits : Forall (fun p => p ∈ locs (inflightQueue a) /\ commonHeaderSize + size_at (heap a) p <= mtu a) new
}.

Lemma resents_nil k a : flight k a -> resents a [] a.
Proof. intros Hf. constructor; [by eapply idle_refl|done|constructor]. Qed.

Lemma resents_cons rtx p a a1 new a' :
  resent rtx p a a1 -> p ∈ locs (inflightQueue a) -> commonHeaderSize + size_at (heap a) p <= mtu a -> resents a1 new a' ->
  resents a (p :: new) a'.
Proof.
  intros [I1 M1 R1] Hp Hsz [I2 M2 F2]. constructor; [by eapply idle_trans|congruence|]. constructor; [done|].
  eapply Forall_impl; [exact F2|]. intros x [Hx Hs]. rewrite M1, (size_idle a a1) in Hs by done. split; [|done].
  by rewrite (ak_locs _ _ _ _ (id_acks _ _ I1)).
Qed.

Definition next_tsn (a : assoc) (i : Z) : Z := cumulativeTSNAckPoint a +32 (i + 1).

Lemma next_room k a i : flight k a ->
  head_tsn k a <= next_tsn a i < head_tsn k a + count a -> room k a (next_tsn a (i + 1)) < room k a (next_tsn a i).
Proof.
  intros Hf Hin. replace (next_tsn a (i + 1)) with (next_tsn a i +32 1) by (unfold next_tsn; go_lia).
  by apply room_next; [|apply u32_range|].
Qed.

Lemma next_room_idle k a a' i : idle a a' -> room k a' (next_tsn a' i) = room k a (next_tsn a i).
Proof. intros I. rewrite (room_idle k a a') by done. unfold next_tsn. by rewrite (ak_cum _ _ _ _ (id_acks _ _ I)). Qed.

Lemma retransmitLoop_spec now awnd fuel : forall k i budget bytes sofar chunks a,
  flight k a -> 0 <= i -> bytes = 0 \/ commonHeaderSize <= bytes -> room k a (next_tsn a i) < Z.of_nat fuel -> awnd <= rwnd (cc a) ->
  exists new budget' a', retransmitLoop fuel now awnd i budget bytes sofar chunks a = Some ((chunks ++ new, budget'), a')
    /\ resents a new a' /\ Forall (fun p => rtx_at (heap a) p = true) new
    /\ (forall x, rtx_at (heap a') x = rtx_at (heap a) x && bool_decide (x ∉ new))
    /\ (new = [] \/ sofar + total (heap a) new <= awnd
        \/ (i = 0 /\ exists p, new = [p] /\ PayloadQueue.get (heap a) (inflightQueue a) (next_tsn a 0) = Some (Some p))).
Proof.
  induction fuel as [|fuel IH]; intros k i budget bytes sofar chunks a Hf Hi Hb Hfuel Hw.
  { unfold room in Hfuel. destruct (decide _); lia. }
  assert (Hstop : forall b : Z * bool, exists new budget' a', Some ((chunks, b), a) = Some ((chunks ++ new, budget'), a')
    /\ resents a new a' /\ Forall (fun p => rtx_at (heap a) p = true) new
    /\ (forall x, rtx_at (heap a') x = rtx_at (heap a) x && bool_decide (x ∉ new))
    /\ (new = [] \/ sofar + total (heap a) new <= awnd
        \/ (i = 0 /\ exists p, new = [p] /\ PayloadQueue.get (heap a) (inflightQueue a) (next_tsn a 0) = Some (Some p)))).
  { intros b. exists [], b, a. rewrite app_nil_r. split; [done|]. split; [by eapply resents_nil|]. split; [done|]. split; [|by left].
    intros x. rewrite bool_decide_eq_true_2 by (by apply not_elem_of_nil). by rewrite andb_true_r. }
  cbn [retransmitLoop]. fold (next_tsn a i).
  destruct (get_flight k a (next_tsn a i) Hf (u32_range _)) as [(p & Hg & Hp & Hin & Hlk)|[Hg Hout]]; rewrite Hg; simpl mbind; [|apply Hstop].
  pose proof Hlk as (c & Hc & _). rewrite Hc. simpl mbind. pose proof (list_elem_of_lookup_2 _ _ _ Hp) as Hpin.
  assert (Hsz : size_at (heap a) p = chunkSizeInPacket c) by (unfold size_at; by rewrite Hc).
  assert (Hlen : len_at (heap a) p = dataLen c) by (unfold len_at; by rewrite Hc). pose proof (chunk_size_pos c) as Hpos.
  destruct (retransmit c) eqn:Ert; cbn [negb].
  2: { destruct (IH k (i + 1) budget bytes sofar chunks a Hf ltac:(lia) Hb) as (new & b & a' & E & R & F & X & W); [|done|].
       - pose proof (next_room k a i Hf Hin). lia.
       - exists new, b, a'. split; [done|]. split; [done|]. split; [done|]. split; [done|]. destruct W as [W|[W|[W _]]]; [by left|right; by left|lia]. }
  destruct (_ && _) eqn:Ew; [apply Hstop|].
  destruct (place a budget bytes (chunkSizeInPacket c)) as [[budget1 bytes1]|] eqn:Epl; [|apply Hstop].
  destruct (place_fits _ _ _ _ _ _ Epl Hpos Hb) as [Hfit Hb1]. rewrite <- Hsz in Hfit.
  destruct (resend_spec k now true p a Hf Hpin) as (a1 & E1 & R1). rewrite E1. simpl mbind. pose proof (rs_idle _ _ _ _ R1) as I1.
  pose proof (flight_idle _ _ _ Hf I1) as Hf1.
  destruct (IH k (i + 1) budget1 bytes1 (sofar + dataLen c) (chunks ++ [p]) a1 Hf1 ltac:(lia) ltac:(by right)) as (new & b & a' & E & R & F & X & W).
  { rewrite (next_room_idle k a a1) by done. pose proof (next_room k a i Hf Hin). lia. }
  { by rewrite (id_rwnd _ _ I1). }
  exists (p :: new), b, a'. rewrite E, <- app_assoc. split; [done|]. split; [by eapply resents_cons|].
  assert (Hnew : forall x, x ∈ new -> x <> p /\ rtx_at (heap a) x = true).
  { intros x Hx. rewrite Forall_forall in F. specialize (F x Hx). rewrite (rs_rtx _ _ _ _ R1) in F. simpl in F.
    case_bool_decide; [by rewrite andb_false_r in F|]. by rewrite andb_true_r in F. }
  split; [|split].
  - constructor; [unfold rtx_at; by rewrite Hc|]. apply Forall_forall. intros x Hx. by apply Hnew.
  - intros x. rewrite X, (rs_rtx _ _ _ _ R1), <- andb_assoc. f_equal. simpl.
    case_bool_decide as E2; case_bool_decide as E3; case_bool_decide as E4; simpl; try done; exfalso; set_solver.
  - right. assert (Ht : total (heap a1) new = total (heap a) new).
    { apply total_ext. intros x _. pose proof (id_held _ _ I1 x) as Hh. by injection Hh. }
    pose proof (queued_nonneg (heap a) new) as Hnn. pose proof (zlen_nonneg (userData (wire c)) : 0 <= dataLen c) as Hd. simpl.
    rewrite Hlen. rewrite Ht in W. apply andb_false_iff in Ew as [Ew|Ew]; [|go_bool; destruct W as [->|[W|[W _]]]; [left; simpl; lia|left; lia|lia]].
    apply negb_false_iff, andb_true_iff in Ew as [Ei Er]. go_bool. subst i. destruct W as [->|[W|[W _]]]; [|left; lia|lia].
    right. split; [done|]. by exists p.
Qed.

Lemma fastLoop_spec now wnd fuel : forall k i budget bytes size chunks a,
  flight k a -> bytes = 0 \/ commonHeaderSize <= bytes -> room k a (next_tsn a i) < Z.of_nat fuel ->
  exists new budget' a', fastLoop fuel now wnd i budget bytes size chunks a = Some ((chunks ++ new, budget'), a')
    /\ resents a new a' /\ Forall (fun p => acked_at (heap a) p = false) new
    /\ (new = [] \/ size + foldr (fun p z => size_at (heap a) p + z) 0 new <= wnd).
Proof.
  induction fuel as [|fuel IH]; intros k i budget bytes size chunks a Hf Hb Hfuel.
  { unfold room in Hfuel. destruct (decide _); lia. }
  assert (Hstop : forall b : Z * bool, exists new budget' a', Some ((chunks, b), a) = Some ((chunks ++ new, budget'), a')
    /\ resents a new a' /\ Forall (fun p => acked_at (heap a) p = false) new
    /\ (new = [] \/ size + foldr (fun p z => size_at (heap a) p + z) 0 new <= wnd)).
  { intros b. exists [], b, a. rewrite app_nil_r. split; [done|]. split; [by eapply resents_nil|]. split; [done|by left]. }
  cbn [fastLoop]. fold (next_tsn a i).
  destruct (get_flight k a (next_tsn a i) Hf (u32_range _)) as [(p & Hg & Hp & Hin & Hlk)|[Hg Hout]]; rewrite Hg; simpl mbind; [|apply Hstop].
  pose proof Hlk as (c & Hc & _). rewrite Hc. simpl mbind. destruct (abandoned_some _ _ Hlk) as [ab Hab]. rewrite Hab. simpl mbind.
  pose proof (list_elem_of_lookup_2 _ _ _ Hp) as Hpin. pose proof (next_room k a i Hf Hin) as Hnext.
  assert (Hsz : size_at (heap a) p = chunkSizeInPacket c) by (unfold size_at; by rewrite Hc). pose proof (chunk_size_pos c) as Hpos.
  destruct (acked c || ab || _ || _) eqn:Eskip; [apply IH with (k := k); (done || lia)|].
  destruct (Z.ltb_spec wnd (size + chunkSizeInPacket c)) as [Hw|Hw]; [apply Hstop|].
  destruct (place a budget bytes (chunkSizeInPacket c)) as [[budget1 bytes1]|] eqn:Epl; [|apply Hstop].
  destruct (place_fits _ _ _ _ _ _ Epl Hpos Hb) as [Hfit Hb1]. rewrite <- Hsz in Hfit.
  destruct (resend_spec k now false p a Hf Hpin) as (a1 & E1 & R1). rewrite E1. simpl mbind. pose proof (rs_idle _ _ _ _ R1) as I1.
  destruct (IH k (i + 1) budget1 bytes1 (size + chunkSizeInPacket c) (chunks ++ [p]) a1 (flight_idle _ _ _ Hf I1) ltac:(by right))
    as (new & b & a' & E & R & F & W).
  { rewrite (next_room_idle k a a1) by done. lia. }
  exists (p :: new), b, a'. rewrite E, <- app_assoc. split; [done|]. split; [by eapply resents_cons|]. split.
  - go_bool. constructor; [unfold acked_at; by rewrite Hc|]. eapply Forall_impl; [exact F|]. intros x Hx.
    pose proof (id_held _ _ I1 x) as Hh. injection Hh as Hh _. by rewrite <- Hh.
  - right. simpl. rewrite Hsz. destruct W as [->|W]; [simpl; lia|].
    replace (foldr _ 0 new) with (foldr (fun p z => size_at (heap a1) p + z) 0 new); [lia|].
    clear -I1. induction new as [|x new IHn]; [done|]. simpl. by rewrite (size_idle a a1), IHn.
Qed.

(** The packets of a retransmission. *)
Lemma resents_bundle k a new a' :
  flight k a -> resents a new a' ->
  exists packets, bundleDataChunksIntoPackets a' new = Some packets /\ concat packets = new
    /\ Forall (fun pk => pk <> [] /\ packet_size (heap a') pk <= mtu a) packets.
Proof.
  intros Hf [I M F]. unfold bundleDataChunksIntoPackets. rewrite M. replace commonHeaderSize with (packet_size (heap a') []) by done.
  destruct (bundleLoop_spec (heap a') (mtu a) new []) as (ps & E & Hc & Hps); [|by right|by exists ps].
  pose proof (pq_live _ _ (sk_inflight _ (fl_send _ _ Hf))) as Hl.
  rewrite Forall_forall in *. intros p Hp. destruct (F p Hp) as [Hin Hsz]. split; [|by rewrite (size_idle a a')].
  destruct (linked_tags _ _ p (ak_tags _ _ _ _ (id_acks _ _ I)) (Hl p Hin)) as (c & Hc' & _). by eexists.
Qed.

(** What the two retransmission handlers send. *)
Lemma getDataPacketsToRetransmit_spec now budget k a :
  flight k a ->
  exists packets budget' a', getDataPacketsToRetransmit now budget a = Some ((packets, budget'), a')
    /\ resents a (concat packets) a'
    /\ Forall (fun pk => pk <> [] /\ packet_size (heap a') pk <= mtu a) packets
    /\ Forall (fun p => rtx_at (heap a) p = true) (concat packets)
    /\ (forall x, rtx_at (heap a') x = rtx_at (heap a) x && bool_decide (x ∉ concat packets))
    /\ (concat packets = [] \/ total (heap a) (concat packets) <= Z.min (cwnd (cc a)) (rwnd (cc a))
        \/ exists p, concat packets = [p] /\ PayloadQueue.get (heap a) (inflightQueue a) (next_tsn a 0) = Some (Some p)).
Proof.
  intros Hf. unfold getDataPacketsToRetransmit.
  destruct (retransmitLoop_spec now (Z.min (cwnd (cc a)) (rwnd (cc a))) (inflight_fuel a) k 0 budget 0 0 [] a Hf ltac:(lia) ltac:(by left))
    as (new & b & a' & E & R & F & X & W); [by apply fuel_enough|lia|]. rewrite E. cbn [app mbind option_bind].
  destruct (resents_bundle k a new a' Hf R) as (packets & Ep & Hc & Hps). rewrite Ep. simpl mbind.
  exists packets, b, a'. rewrite Hc. split; [done|]. split; [done|]. split; [done|]. split; [done|]. split; [done|].
  destruct W as [W|[W|[_ W]]]; auto.
Qed.

Lemma gatherFast_spec now budget k a :
  flight k a ->
  exists packets budget' a', gatherOutboundFastRetransmissionPackets now budget a = Some ((packets, budget'), a')
    /\ resents a (concat packets) a'
    /\ Forall (fun pk => pk <> [] /\ packet_size (heap a') pk <= mtu a) packets
    /\ Forall (fun p => acked_at (heap a) p = false) (concat packets).
Proof.
  intros Hf. unfold gatherOutboundFastRetransmissionPackets. destruct (negb _).
  { exists [], budget, a. split; [done|]. split; [by eapply resents_nil|]. by split. }
  assert (I0 : idle a (set_fast false a)) by (by eapply idle_plan). set (a0 := set_fast false a) in *.
  pose proof (flight_idle _ _ _ Hf I0) as Hf0.
  destruct (fastLoop_spec now (Z.max (mtu a0) (fastRtxWnd (cc a0))) (inflight_fuel a0) k 0 budget 0 commonHeaderSize [] a0 Hf0 ltac:(by left))
    as (new & b & a' & E & [I M F] & Hn & _); [by apply fuel_enough|]. rewrite E. cbn [app mbind option_bind].
  assert (R : resents a new a') by (constructor; [by eapply idle_trans|done|done]).
  case_bool_decide as En.
  - exists [], b, a'. split; [done|]. subst new. by split.
  - destruct (resents_bundle k a new a' Hf R) as (packets & Ep & Hc & Hps). rewrite Ep. simpl mbind.
    exists packets, b, a'. by rewrite Hc.
Qed.

(** ** Timers *)

(** Flags may change anywhere in the heap. *)
Lemma touched_idle k a h :
  flight k a -> (forall p, h !! p = heap a !! p \/ exists c, heap a !! p = Some c /\ acked c = false /\ h !! p = Some (setRetransmit true c)) ->
  idle a (set_heap h a).
Proof.
  intros [Hs Hn Hd Hr] Hh.
  assert (Hc : forall p c, heap a !! p = Some c -> exists c', h !! p = Some c' /\ touch c c').
  { intros p c Hp. destruct (Hh p) as [->|(c0 & Hp0 & Ha & ->)]; [rewrite Hp; exists c; split; [done|flags_only]|].
    rewrite Hp in Hp0. injection Hp0 as <-. eexists. split; [done|flags_only]. }
  assert (Ht : same_tags (heap a) h).
  { intros p. by destruct (Hh p) as [->|(c0 & -> & _ & ->)]. }
  assert (Hheld : forall x, held h x = held (heap a) x).
  { intros x. unfold held, acked_at, len_at. by destruct (Hh x) as [->|(c0 & -> & _ & ->)]. }
  assert (Hlen : forall x, len_at h x = len_at (heap a) x) by (intros x; by injection (Hheld x)).
  constructor; [|done..]. constructor; try done; simpl.
  - pose proof (sk_inflight _ Hs) as [Hv Hnd Hl Hb]. constructor; try done.
    + eapply Forall_impl; [exact Hl|]. intros x. by apply linked_tags.
    + rewrite Hb. symmetry. apply total_ext. intros x _. apply Hlen.
  - intros x (c & Hx & Hz). destruct (Hc x c Hx) as (c' & Hx' & _ & Hu & Ha & Hrx). exists c'. split; [done|]. unfold dataLen. rewrite Hu, Ha. destruct Hrx as [-> | [-> | ->]]; [done|done|]. intros Hx1. split; [by apply Hz|done].
  - intros x c Hx. destruct (Hc x c Hx) as (c' & Hx' & Htg & Hu & Ha & _). exists c'. split; [done|]. rewrite Ha. intros ->. split; [done|]. by apply tag_wire.
  - intros x _. by injection (Hheld x).
  - set_solver.
  - intros si. split; [lia|]. rewrite (owed_ext (heap a) h); [lia|]. intros x _. split; [by apply sid_tags|done].
  - rewrite (total_ext (heap a) h); [lia|]. intros x _. apply Hlen.
Qed.

Lemma onT3Timeout_spec k a : flight k a -> exists a', onT3Timeout a = Some a' /\ idle a a'.
Proof.
  intros Hf. unfold onT3Timeout. set (a1 := setCWND _ _). set (a2 := if inFastRecovery (cc a1) then _ else a1).
  assert (I2 : idle a a2) by (unfold a2; destruct (inFastRecovery (cc a1)); (eapply idle_quiet; [done| |done|done]); by constructor).
  pose proof (flight_idle _ _ _ Hf I2) as Hf2. set (m := if partialReliabilityEnabled a2 then _ else Some a2).
  assert (exists a3, m = Some a3 /\ idle a a3) as (a3 & -> & I3).
  { unfold m. destruct (partialReliabilityEnabled a2); [|by exists a2].
    destruct (advancePeerAckPoint_total k a2 Hf2) as (a3 & E & I3). exists a3. split; [done|by eapply idle_trans]. }
  simpl mbind. pose proof (flight_idle _ _ _ Hf I3) as Hf3. pose proof (sk_inflight _ (fl_send _ _ Hf3)) as Hok.
  unfold PayloadQueue.markAllToRetrasmit. rewrite Len_law by apply Hok. fold (locs (inflightQueue a3)). rewrite Nat2Z.id.
  destruct (markLoop_ok (length (locs (inflightQueue a3))) (heap a3) (inflightQueue a3) 0 Hok) as (h & E & _ & Hh); [lia|].
  change (Z.of_nat 0) with 0 in E. rewrite E. simpl mbind. eexists. split; [done|].
  assert (I4 : idle a3 (set_heap h a3)) by (by eapply touched_idle). eapply idle_trans; [exact I3|]. eapply idle_trans; [exact I4|].
  by eapply idle_plan, flight_idle.
Qed.

Lemma highestOutstanding_total fuel : forall k a t found,
  flight k a -> in_u 32 t -> room k a t < Z.of_nat fuel -> exists r, highestOutstanding fuel a t found = Some r.
Proof.
  induction fuel as [|fuel IH]; intros k a t found Hf Ht Hfuel.
  { unfold room in Hfuel. destruct (decide _); lia. }
  cbn [highestOutstanding]. destruct (get_flight k a t Hf Ht) as [(p & -> & _ & Hin & _)|[-> _]]; simpl mbind; [|by eexists].
  eapply IH; [done|apply u32_range|]. pose proof (room_next k a t Hf Ht Hin). lia.
Qed.

Lemma latestLoop_total fuel : forall k a t latest,
  flight k a -> in_u 32 t -> room k a t < Z.of_nat fuel -> (forall p, latest = Some p -> linked (heap a) p /\ acked_at (heap a) p = false) ->
  exists r, latestLoop fuel a t latest = Some r /\ forall p, r = Some p -> linked (heap a) p /\ acked_at (heap a) p = false.
Proof.
  induction fuel as [|fuel IH]; intros k a t latest Hf Ht Hfuel Hl.
  { unfold room in Hfuel. destruct (decide _); lia. }
  cbn [latestLoop]. destruct (get_flight k a t Hf Ht) as [(p & -> & _ & Hin & Hlk)|[-> _]]; simpl mbind; [|by eexists].
  pose proof Hlk as (c & Hc & _). rewrite Hc. simpl mbind. destruct (abandoned_some _ _ Hlk) as [ab ->]. simpl mbind.
  eapply IH; [done|apply u32_range| |].
  - pose proof (room_next k a t Hf Ht Hin). lia.
  - intros x. destruct (acked c || ab) eqn:Eab; [apply Hl|]. apply orb_false_iff in Eab as [Eac _]. intros [= <-]. split; [done|].
    unfold acked_at. by rewrite Hc.
Qed.

Lemma onPTOTimerLocked_spec k now a : flight k a -> exists hb a', onPTOTimerLocked now a = Some (hb, a') /\ idle a a'.
Proof.
  intros Hf. unfold onPTOTimerLocked. destruct (_ =? 0).
  { exists true. eexists. split; [done|]. eapply idle_trans; [by eapply idle_deadlines|].
    eapply idle_plan, flight_idle; [done|]. by eapply idle_deadlines. }
  set (m := if negb _ then _ else _).
  assert (exists a1, m = Some a1 /\ idle a a1) as (a1 & -> & I1).
  { unfold m. destruct (negb _); [|eexists; split; [done|by eapply idle_loss]]. unfold tlrBeginLocked, tlrHighestOutstandingTSNLocked.
    destruct (highestOutstanding_total (inflight_fuel a) k a (cumulativeTSNAckPoint a +32 1) None Hf (u32_range _)) as [r ->];
      [by apply fuel_enough|]. simpl. eexists. split; [done|]. eapply idle_quiet; [done|apply quiet_tlr|done|done]. }
  cbn [mbind option_bind]. pose proof (flight_idle _ _ _ Hf I1) as Hf1. destruct (0 <? _).
  { exists false. eexists. split; [done|]. eapply idle_trans; [exact I1|]. by eapply idle_plan. }
  destruct (latestLoop_total (inflight_fuel a1) k a1 (cumulativeTSNAckPoint a1 +32 1) None Hf1 (u32_range _)) as (r & -> & Hr);
    [by apply fuel_enough|done|]. simpl mbind. destruct r as [p|]; [|by exists false, a1].
  destruct (Hr p eq_refl) as [(c & Hc & _) Hac]. unfold acked_at in Hac. rewrite Hc in Hac. cbn in Hac. rewrite Hc. simpl mbind. exists false. eexists. split; [done|].
  destruct (negb _); [|done]. assert (I2 : idle a1 (set_heap (<[p := setRetransmit true c]> (heap a1)) a1)) by (eapply idle_touch; [eassumption|eassumption|flags_only]).
  eapply idle_trans; [exact I1|]. eapply idle_trans; [exact I2|]. by eapply idle_plan, flight_idle.
Qed.

(** ** Writing *)

Lemma whole_ext_in (d d' : loc -> payloadData) u m :
  (forall c, c ∈ m -> d c = d' c) -> whole d u m -> whole d' u m.
Proof.
  intros H' [Hb He Hc]. constructor.
  - rewrite <- Hb. apply map_ext_in. intros c Hin. rewrite H'; [done|by apply list_elem_of_In].
  - rewrite <- He. apply map_ext_in. intros c Hin. rewrite H'; [done|by apply list_elem_of_In].
  - rewrite Forall_forall in *. intros c Hin. rewrite <- H' by done. by apply Hc.
Qed.

(** A fragment of a message of several is no dangling pointer. *)
Lemma whole_live h u part rest c : whole (wire_at h) u (part ++ rest) -> rest <> [] -> c ∈ part -> is_Some (h !! c).
Proof.
  intros Hw Hr Hc. apply list_elem_of_split in Hc as (l1 & l2 & ->). rewrite <- app_assoc in Hw. simpl in Hw.
  destruct (whole_at _ _ _ _ _ Hw) as (_ & He & _). unfold wire_at in He. destruct (h !! c) as [x|]; [by eexists|]. simpl in He.
  rewrite bool_decide_eq_false_2 in He; [done|]. by destruct l2.
Qed.

Lemma policy_ok_grow h h' (q : @PendingSpec.pendingQueue S) :
  policy_ok (wire_at h) (policy q) -> h ⊆ h' -> Forall (linked h) (contents q) -> policy_ok (wire_at h') (policy q).
Proof.
  intros Hok Hsub Hl. assert (Hsame : forall c, is_Some (h !! c) -> wire_at h c = wire_at h' c).
  { intros c [x Hx]. unfold wire_at. by rewrite Hx, (lookup_weaken _ _ _ _ Hx Hsub). }
  assert (Hlive : forall c, c ∈ contents q -> wire_at h c = wire_at h' c).
  { intros c Hc. rewrite Forall_forall in Hl. destruct (Hl c Hc) as (x & Hx & _). apply Hsame. by eexists. }
  unfold contents in Hlive. destruct (policy q) as [m|s]; simpl in *.
  - destruct Hok as (part & rest & W & [H1 H2 H3 H4 H5]).
    assert (Hin : forall u c, c ∈ queue_of m u -> wire_at h c = wire_at h' c).
    { intros u c Hc. apply Hlive, elem_of_app. destruct u; [by left|by right]. }
    exists part, rest, W. constructor; try done.
    + intros u. specialize (H1 u). rewrite Forall_forall in *. intros x Hx. eapply whole_ext_in; [|by apply H1].
      intros c Hc. apply (Hin u). rewrite H5. apply elem_of_app. right. apply list_elem_of_In, in_concat. exists x. by rewrite <- !list_elem_of_In.
    + intros Hr. eapply whole_ext_in; [|by apply H4]. intros c [Hc|Hc]%elem_of_app.
      * apply Hsame. by eapply whole_live; [apply H4| |].
      * apply (Hin (Message.unorderedIsSelected m)). rewrite H5, eqb_reflx. apply elem_of_app. by left.
  - destruct Hok as [Hs Hm]. split; [done|]. intros i l Hil. specialize (Hm i l Hil). simpl in *. rewrite Forall_forall in *.
    intros c Hc. rewrite <- Hlive; [by apply Hm|]. unfold stream_chunks. apply list_elem_of_In, in_concat. exists l.
    split; [|by apply list_elem_of_In]. apply in_map_iff. exists (i, l). split; [done|]. by apply list_elem_of_In, elem_of_map_to_list.
Qed.

(** A message whose chunks are new in the heap. *)
Record fresh_message (a : assoc) (h : store) (u : bool) (m : list loc) : Prop := {
  fm_heap : heap a ⊆ h;
  fm_fresh : forall p, p ∈ m -> heap a !! p = None;
  fm_nodup : NoDup m;
  fm_live : Forall (linked h) m;
  fm_unacked : Forall (fun p => acked_at h p = false) m;
  fm_whole : whole (wire_at h) u m;
  fm_fits : fits_all (wire_at h) (policy (pendingQueue a)) m
}.

Lemma linked_grow h h' p : h ⊆ h' -> linked h p -> linked h' p.
Proof. intros Hs (c & Hc & [x Hx]). exists c. split; [by eapply lookup_weaken|]. exists x. by eapply lookup_weaken. Qed.

Lemma flight_write k (a : assoc) h u m :
  flight k a -> fresh_message a h u m ->
  flight k (set_queues (inflightQueue a) (fold_left (PendingSpec.push (wire_at h)) m (pendingQueue a)) (set_heap h a)).
Proof.
  intros [[P C L N I] [N1 N2 N3 N4] D R] [F1 F2 F3 F4 F5' F6 F7].
  assert (F5 : Forall (drained h) m).
  { rewrite Forall_forall in *. intros p Hp. destruct (F4 p Hp) as (c & Hc & _). exists c. split; [done|]. specialize (F5' p Hp). unfold acked_at in F5'. rewrite Hc in F5'. cbn in F5'. by rewrite F5'. }
  pose proof (policy_ok_grow _ _ _ P F1 L) as P'. destruct (fold_push (wire_at h) (pendingQueue a) m) as (E1 & E2 & E3 & _).
  destruct (policy_push_message (wire_at h) (policy (pendingQueue a)) u m P' F6 F7) as (H1 & H2 & _).
  set (q := fold_left _ _ _) in *. rewrite <- E1 in H1, H2. rewrite <- !contents_policy in H2.
  assert (Hlive : forall p, p ∈ contents (pendingQueue a) ++ locs (inflightQueue a) -> is_Some (heap a !! p)).
  { pose proof (pq_live _ _ I) as Hl. rewrite Forall_forall in *. intros p [Hp|Hp]%elem_of_app; [destruct (L p Hp) as (c & -> & _)|destruct (Hl p Hp) as (c & -> & _)]; by eexists. }
  assert (Hlen : forall p, p ∈ locs (inflightQueue a) -> len_at h p = len_at (heap a) p).
  { intros p Hp. destruct (Hlive p) as [c Hc]; [apply elem_of_app; by right|]. unfold len_at. by rewrite Hc, (lookup_weaken _ _ _ _ Hc F1). }
  constructor; [constructor|constructor| |]; simpl.
  - done.
  - unfold PendingSpec.size in *. rewrite E3, C, H2, length_app. lia.
  - rewrite H2. apply Forall_app. split; [|done]. eapply Forall_impl; [exact L|]. intros p. by apply linked_grow.
  - rewrite H2. rewrite <- app_assoc, (Permutation_app_comm m), app_assoc. apply NoDup_app. split; [done|]. split; [|done].
    intros p Hp Hm. destruct (Hlive p Hp) as [c Hc]. rewrite F2 in Hc by done. done.
  - pose proof I as [Hv Hnd Hl Hb]. constructor; try done.
    + eapply Forall_impl; [exact Hl|]. intros p. by apply linked_grow.
    + rewrite Hb. symmetry. by apply total_ext.
  - done.
  - done.
  - intros i p Hp. destruct (N3 i p Hp) as (c & Hc & Ht). exists c. split; [by eapply lookup_weaken|done].
  - done.
  - rewrite H2, <- app_assoc, (Permutation_app_comm m), app_assoc. apply Forall_app. split; [|done]. eapply Forall_impl; [exact D|].
    intros p (c & Hc & Hz). exists c. split; [by eapply lookup_weaken|done].
  - eapply Forall_impl; [exact R|]. intros p. by apply linked_grow.
Qed.

(** ** Sending *)

Lemma timed_idle (a a' : assoc) : timed a -> idle a a' -> timed a'.
Proof. intros Ht I. unfold timed. rewrite (id_t3 _ _ I). pose proof (ak_locs _ _ _ _ (id_acks _ _ I)) as E. simpl in E. by rewrite <- E. Qed.

Lemma gatherOutboundData_spec fuel order now budget k a :
  flight k a -> small a -> half_space a -> order_ok order -> 2 * PendingSpec.size (pendingQueue a) < Z.of_nat fuel ->
  exists r a', gatherOutboundData fuel order now budget a = Some (r, a') /\ flight k a' /\ (timed a -> timed a').
Proof.
  intros Hf Hsm Hh Ho Hfuel. unfold gatherOutboundData.
  destruct (popPending_spec fuel order now budget a (fl_send _ _ Hf) Hsm Ho Hfuel) as (chunks & resets & b & a1 & -> & Hs & _ & Hfit & _).
  cbn [mbind option_bind]. pose proof (flight_sent _ _ _ _ _ _ Hf Hh Hs) as Hf1. case_bool_decide as En.
  - eexists _, a1. split; [done|]. split; [done|]. unfold timed. rewrite (kp_t3 _ _ (st_kept _ _ _ _ _ Hs)), (st_inflight _ _ _ _ _ Hs), En.
    by rewrite app_nil_r.
  - set (a2 := t3_start a1). assert (Hf2 : flight k a2) by (by eapply flight_quiet, quiet_t3_start).
    destruct (sent_bundles _ _ _ _ _ (fl_send _ _ Hf) Hs Hfit) as (packets & E & _).
    change (bundleDataChunksIntoPackets a2 chunks) with (bundleDataChunksIntoPackets a1 chunks). rewrite E. cbn [mbind option_bind].
    eexists _, _. split; [done|]. pose proof (idle_pto k now a2 Hf2) as I. split; [by eapply flight_idle|]. intros _.
    eapply timed_idle; [|exact I]. intros _. apply start_timed.
Qed.

(** ** Steps *)

(** What happens to a sender; [order] is the order of the scheduler's ranges. *)
Inductive sstep (order : @PendingSpec.pendingQueue S -> list Z) : assoc -> assoc -> Prop :=
  | s_write a h u m a' :
      fresh_message a h u m -> sendPayloadData (set_heap h a) [] m = Some (None, a') -> sstep order a a'
  | s_reset a p si a' :
      heap a !! p = None -> sendResetRequest a p si = (None, a') -> fits_policy (deref a') (policy (pendingQueue a)) p -> sstep order a a'
  | s_send a fuel now budget r a' :
      small a -> half_space a -> 2 * PendingSpec.size (pendingQueue a) < Z.of_nat fuel ->
      gatherOutboundData fuel order now budget a = Some (r, a') -> sstep order a a'
  | s_sack a now cum a_rwnd gaps dups called a' :
      in_u 32 cum -> in_u 32 a_rwnd -> Forall (fun g => in_u 16 (gap_start g)) gaps ->
      PayloadQueue.getNumBytes (inflightQueue a) < 2 ^ 32 ->
      handleSack now cum a_rwnd gaps dups a = Some (inl called, a') -> sstep order a a'
  | s_t3 a n t a' :
      timeout (t3RTX a) = (Some (onRetransmissionTimeout n), t) -> onT3Timeout (set_timing (rtoMgr a) t (srtt_ a) a) = Some a' ->
      sstep order a a'
  | s_rack a now a' : onRackTimeoutLocked now a = Some a' -> sstep order a a'
  | s_pto a now hb a' : onPTOTimerLocked now a = Some (hb, a') -> sstep order a a'
  | s_rtx a now budget r a' : getDataPacketsToRetransmit now budget a = Some (r, a') -> sstep order a a'
  | s_fast a now budget r a' : gatherOutboundFastRetransmissionPackets now budget a = Some (r, a') -> sstep order a a'.

(** And a SACK may be rejected. *)
Inductive rstep (order : @PendingSpec.pendingQueue S -> list Z) : assoc -> assoc -> Prop :=
  | r_step a a' : sstep order a a' -> rstep order a a'
  | r_reject a now cum a_rwnd gaps dups e a' :
      in_u 32 cum -> in_u 32 a_rwnd -> Forall (fun g => in_u 16 (gap_start g)) gaps ->
      PayloadQueue.getNumBytes (inflightQueue a) < 2 ^ 32 ->
      handleSack now cum a_rwnd gaps dups a = Some (inr e, a') -> rstep order a a'.

Lemma timeout_started t n t' : timeout t = (Some (onRetransmissionTimeout n), t') -> t_state t' = rtxTimerStarted.
Proof.
  unfold timeout. destruct ((_ =? 0) && _) eqn:E; [|done]. apply andb_true_iff in E as [_ E%bool_decide_eq_true].
  destruct (_ || _); [|done]. by intros [= _ <-].
Qed.

Lemma write_step k a h u m a' :
  flight k a -> fresh_message a h u m -> sendPayloadData (set_heap h a) [] m = Some (None, a') -> flight k a' /\ (timed a -> timed a').
Proof.
  intros Hf Hm. unfold sendPayloadData. destruct (negb _); [done|]. pose proof (flight_write k a h u m Hf Hm) as Hw.
  assert (Hq : forall a1 a2, quiet a1 a2 -> flight k a1 -> flight k a2) by (intros; by eapply flight_quiet).
  cbn [awaitWritable]. destruct (blockWrite _); [destruct (negb _); [|done]|]; simpl; intros [= <-];
    (split; [eapply Hq, Hw; by constructor|done]).
Qed.

(** The end-of-stream chunk is a message. *)
Definition reset_chunk (si : Z) : sendChunk :=
  mkSend (mkChunkHeader 0 0 []) (mkPayload false true true false 0 si 0 0 0 0 [] false) false 0 0 0 false false false None.

Lemma reset_message (a : assoc) p si :
  heap a !! p = None -> fits_policy (wire_at (<[p := reset_chunk si]> (heap a))) (policy (pendingQueue a)) p ->
  fresh_message a (<[p := reset_chunk si]> (heap a)) false [p].
Proof.
  intros Hp Hfit. set (c := reset_chunk si) in *. assert (Hl : <[p := c]> (heap a) !! p = Some c) by apply lookup_insert_eq. constructor.
  - by apply insert_subseteq.
  - intros x Hx. apply list_elem_of_singleton in Hx as ->. done.
  - apply NoDup_singleton.
  - repeat constructor. exists c. split; [done|]. by exists c.
  - repeat constructor. unfold acked_at. by rewrite Hl.
  - assert (Hw : wire_at (<[p := c]> (heap a)) p = wire c) by (unfold wire_at; by rewrite Hl).
    constructor; simpl; rewrite ?Hw; try done. repeat constructor. by rewrite Hw.
  - by split.
Qed.

Lemma reset_step k (a : assoc) p si a' :
  flight k a -> heap a !! p = None -> sendResetRequest a p si = (None, a') -> fits_policy (deref a') (policy (pendingQueue a)) p ->
  flight k a' /\ (timed a -> timed a').
Proof.
  intros Hf Hp. unfold sendResetRequest. destruct (negb _); [done|]. intros [= <-] Hfit. split; [|done].
  eapply flight_quiet; [exact (flight_write k a _ _ _ Hf (reset_message a p si Hp Hfit))|]. by constructor.
Qed.

Lemma sstep_ok order k a a' :
  order_ok order -> flight k a -> sstep order a a' -> flight k a' /\ (timed a -> timed a').
Proof.
  intros Ho Hf Hst. destruct Hst as [a h u m a' Hm E|a p si a' Hp E Hfit|a fuel now b r a' Hsm Hh Hfu E|a now cum rw gaps dups called a' H1 H2 H3 H4 E
    |a n t a' Ht E|a now a' E|a now hb a' E|a now b r a' E|a now b r a' E].
  - by eapply write_step.
  - by eapply reset_step.
  - destruct (gatherOutboundData_spec fuel order now b k a Hf Hsm Hh Ho Hfu) as (r' & a1 & E1 & ?). rewrite E1 in E. by simplify_eq.
  - destruct (handleSack_spec now cum rw gaps dups k a Hf H1 H2 H3 H4) as (r' & a1 & k' & E1 & _ & _ & _ & Hc). rewrite E1 in E. simplify_eq.
    destruct (Hc called eq_refl) as [->|K]; [done|]. split; [apply K|]. intros _. apply K.
  - assert (Hf1 : flight k (set_timing (rtoMgr a) t (srtt_ a) a)) by (eapply flight_quiet; [done|by constructor]).
    destruct (onT3Timeout_spec k _ Hf1) as (a1 & E1 & I1). rewrite E1 in E. simplify_eq. split; [by eapply flight_idle|]. intros _.
    eapply timed_idle; [|exact I1]. intros _. left. unfold isRunning. simpl. by rewrite (timeout_started _ _ _ Ht).
  - unfold onRackTimeoutLocked in E. destruct (_ =? 0); [by simplify_eq|].
    destruct (rackMark_total k now a Hf) as (a1 & E1 & I1). rewrite E1 in E. simplify_eq. split; [by eapply flight_idle|]. intros. by eapply timed_idle.
  - destruct (onPTOTimerLocked_spec k now a Hf) as (? & a1 & E1 & I1). rewrite E1 in E. simplify_eq.
    split; [by eapply flight_idle|]. intros. by eapply timed_idle.
  - destruct (getDataPacketsToRetransmit_spec now b k a Hf) as (? & ? & a1 & E1 & [I1 _ _] & _). rewrite E1 in E. simplify_eq.
    split; [by eapply flight_idle|]. intros. by eapply timed_idle.
  - destruct (gatherFast_spec now b k a Hf) as (? & ? & a1 & E1 & [I1 _ _] & _). rewrite E1 in E. simplify_eq.
    split; [by eapply flight_idle|]. intros. by eapply timed_idle.
Qed.

Lemma rstep_ok order k a a' : order_ok order -> flight k a -> rstep order a a' -> exists k', flight k' a'.
Proof.
  intros Ho Hf Hst. destruct Hst as [a a' Hst|a now cum rw gaps dups e a' H1 H2 H3 H4 E].
  - exists k. by eapply sstep_ok.
  - destruct (handleSack_spec now cum rw gaps dups k a Hf H1 H2 H3 H4) as (r' & a1 & k' & E1 & Hf' & _). rewrite E1 in E. simplify_eq. by exists k'.
Qed.

End Steps.

(** C14. Data in flight is always timed.  However writes, stream resets, sends,
    SACKs, time-outs, probes and retransmissions follow each other, as long as
    no SACK is refused: the TSNs in flight are the consecutive ones after the
    cumulative point, up to the next one to assign; the byte count of the
    in-flight queue is exact; and while anything is in flight the T3-rtx timer
    runs (or has been closed with the association). *)
Theorem in_flight_data_is_timed {S} `{SL : StreamSchedulerLaws S} {Q} `{QL : QueueLaws loc Q}
    order (a a' : association (S := S) (Q := Q)) :
  order_ok order -> flight 0 a -> timed a -> rtc (sstep order) a a' ->
  PayloadQueue.consecutive (heap a') (inflightQueue a') (cumulativeTSNAckPoint a' +32 1)
  /\ myNextTSN a' = cumulativeTSNAckPoint a' +32 (1 + count a')
  /\ PayloadQueue.getNumBytes (inflightQueue a') = total (heap a') (locs (inflightQueue a'))
  /\ (locs (inflightQueue a') <> [] -> isRunning (t3RTX a') = true \/ t_state (t3RTX a') = rtxTimerClosed).
Proof.
  intros Ho Hf Ht Hr.
  assert (Hi : flight 0 a' /\ timed a').
  { apply (rtc_preserve (sstep order) (fun a => flight 0 a /\ timed a) a a'); [|done|done].
    intros x y [Hx1 Hx2] Hxy. destruct (sstep_ok order 0 x y Ho Hx1 Hxy) as [? ?]. auto. }
  destruct Hi as [Hf' Ht']. pose proof (fl_numbered _ _ Hf') as [N1 N2 N3 N4]. split; [exact N3|]. split; [exact N4|].
  split; [|exact Ht']. apply (pq_bytes _ _ (sk_inflight _ (fl_send _ _ Hf'))).
Qed.

(** C16. Nothing the peer sends breaks the sender.  In every state that writes,
    sends, time-outs and any SACKs, accepted or refused, lead to, every handler
    ends and none panics: the SACK handler whatever the SACK says, the handlers
    of the three timers, both kinds of retransmission, and sending. *)
Theorem sender_never_panics {S} `{SL : StreamSchedulerLaws S} {Q} `{QL : QueueLaws loc Q}
    order k (a a' : association (S := S) (Q := Q)) :
  order_ok order -> flight k a -> rtc (rstep order) a a' ->
  (forall now cum a_rwnd gaps dups, in_u 32 cum -> in_u 32 a_rwnd -> Forall (fun g => in_u 16 (gap_start g)) gaps ->
     PayloadQueue.getNumBytes (inflightQueue a') < 2 ^ 32 -> is_Some (handleSack now cum a_rwnd gaps dups a'))
  /\ is_Some (onT3Timeout a')
  /\ (forall now, is_Some (onRackTimeoutLocked now a') /\ is_Some (onPTOTimerLocked now a'))
  /\ (forall now budget, is_Some (getDataPacketsToRetransmit now budget a')
                         /\ is_Some (gatherOutboundFastRetransmissionPackets now budget a'))
  /\ (forall now budget fuel, small a' -> half_space a' -> 2 * PendingSpec.size (pendingQueue a') < Z.of_nat fuel ->
        is_Some (gatherOutboundData fuel order now budget a')).
Proof.
  intros Ho Hf Hr.
  assert (Hi : exists k', flight k' a').
  { apply (rtc_preserve (rstep order) (fun a => exists k, flight k a) a a'); [|by exists k|done].
    intros x y [kx Hx] Hxy. by eapply rstep_ok. }
  destruct Hi as [k' Hf']. split_and!.
  - intros now cum rw gaps dups H1 H2 H3 H4. destruct (handleSack_spec now cum rw gaps dups k' a' Hf' H1 H2 H3 H4) as (r & a1 & ? & -> & _). by eexists.
  - destruct (onT3Timeout_spec k' a' Hf') as (a1 & -> & _). by eexists.
  - intros now. split; [|destruct (onPTOTimerLocked_spec k' now a' Hf') as (? & ? & -> & _); by eexists].
    unfold onRackTimeoutLocked. destruct (_ =? 0); [by eexists|]. destruct (rackMark_total k' now a' Hf') as (? & -> & _). by eexists.
  - intros now b. split; [destruct (getDataPacketsToRetransmit_spec now b k' a' Hf') as (? & ? & ? & -> & _)|
      destruct (gatherFast_spec now b k' a' Hf') as (? & ? & ? & -> & _)]; by eexists.
  - intros now b fuel H1 H2 H3. destruct (gatherOutboundData_spec fuel order now b k' a' Hf' H1 H2 Ho H3) as (? & ? & -> & _). by eexists.
Qed.

(** ** A refused SACK *)

(** Out of step, a SACK that advances is refused as it stands. *)
Lemma out_of_step_refused {S} `{SL : StreamSchedulerLaws S} {Q} `{QL : QueueLaws loc Q}
    now cum a_rwnd gaps dups k (a : association (S := S) (Q := Q)) :
  flight k a -> 0 < k -> listens (state a) -> in_u 32 cum -> sna32GT (cumulativeTSNAckPoint a) cum = false -> 0 < moved cum a ->
  handleSack now cum a_rwnd gaps dups a = Some (inr (ErrInflightQueueTSNPop (cumulativeTSNAckPoint a +32 1)), a).
Proof.
  intros Hf Hk Hl Hc Hgt Hm. destruct (moved_cum cum k a Hf Hc Hgt) as [Hm' Hcum]. pose proof (nb_range _ _ (fl_numbered _ _ Hf)) as Hr.
  pose proof (nb_cum _ _ (fl_numbered _ _ Hf)) as Hcp. unfold handleSack. rewrite bool_decide_eq_true_2 by done. cbn [negb]. rewrite Hgt.
  unfold processSelectiveAck, inflight_fuel. cbn [cumAckLoop].
  assert (sna32LTE (cumulativeTSNAckPoint a +32 1) cum = true) as ->.
  { rewrite Hcum. apply sna32LTE_dist; auto with go. unfold dist32. go_lia. }
  rewrite (pop_out_of_step k a) by (done || apply u32_range || (unfold head_tsn; go_lia)). done.
Qed.


(** ** A time-out *)

Section Timeout.
Context {S : Type} `{SL : StreamSchedulerLaws S} {Q : Type} `{QL : QueueLaws loc Q}.

Abbreviation assoc := (@association S Q).

Lemma advanced_same (a : assoc) : a = set_advanced (advancedPeerTSNAckPoint a) a.
Proof. by destruct a. Qed.

Lemma advanceLoop_shape fuel : forall i (a a' : assoc), advanceLoop fuel i a = Some a' -> exists t, a' = set_advanced t a.
Proof.
  induction fuel as [|fuel IH]; intros i a a' E; [done|]. cbn [advanceLoop] in E.
  assert (Hid : exists t, a = set_advanced t a) by (eexists; apply advanced_same).
  destruct (PayloadQueue.get _ _ i) as [[p|]|]; [|by simplify_eq/=|done]. simpl in E.
  destruct (abandoned (heap a) p) as [[]|]; [|by simplify_eq/=|done]. simpl in E.
  destruct (IH _ _ _ E) as [t ->]. by exists t.
Qed.

Lemma markAll_head st (q : payloadQueue (Q := Q)) p l c :
  pq_ok st q -> locs q = p :: l -> st !! p = Some c -> acked c = false -> abandoned st p = Some false ->
  exists st', PayloadQueue.markAllToRetrasmit st q = Some st' /\ rtx_at st' p = true.
Proof.
  intros Hok Hl Hc Ha Hab. unfold PayloadQueue.markAllToRetrasmit. rewrite Len_law by apply Hok. fold (locs q).
  rewrite Nat2Z.id, Hl. cbn [length markLoop]. assert (Hat : q_At (chunks_ q) 0 = Some p) by (apply (At_law (chunks_ q) 0%nat p (pq_valid _ _ Hok)); fold (locs q); by rewrite Hl). rewrite Hat.
  simpl mbind. rewrite Hc. simpl mbind. rewrite Hab, Ha. simpl mbind.
  pose proof (insert_ok st q p (setRetransmit true c) c Hok Hc eq_refl) as H'. rewrite Hl in H'. specialize (H' ltac:(left)).
  replace (PayloadQueue.nBytes q - dataLen c + dataLen (setRetransmit true c)) with (PayloadQueue.nBytes q) in H' by (unfold dataLen; simpl; lia).
  replace (mkPQ (chunks_ q) (PayloadQueue.nBytes q)) with q in H' by (by destruct q).
  destruct (markLoop_ok (length l) _ q 1 H') as (st' & E & _ & Hst); [rewrite Hl; simpl; lia|].
  change (Z.of_nat 1) with (0 + 1) in E. exists st'. split; [exact E|]. specialize (Hst p). rewrite lookup_insert_eq in Hst. unfold rtx_at.
  destruct Hst as [->|(c1 & _ & _ & ->)]; done.
Qed.

Lemma timeout_state k (a : assoc) p l c :
  flight k a -> locs (inflightQueue a) = p :: l -> heap a !! p = Some c -> acked c = false -> abandoned (heap a) p = Some false ->
  exists a', onT3Timeout a = Some a' /\ idle a a' /\ rtx_at (heap a') p = true /\ mtu a' = mtu a /\ mtu a <= cwnd (cc a')
    /\ tlr a' = tlr a.
Proof.
  intros Hf Hl Hc Ha Hab. destruct (onT3Timeout_spec k a Hf) as (a' & E & I). exists a'. split; [done|]. split; [done|].
  unfold onT3Timeout in E. set (a1 := setCWND _ _) in E. set (a2 := if inFastRecovery (cc a1) then _ else a1) in E.
  assert (H2 : heap a2 = heap a /\ inflightQueue a2 = inflightQueue a /\ mtu a2 = mtu a /\ tlr a2 = tlr a /\ mtu a <= cwnd (cc a2)).
  { assert (Hcw : mtu a <= cwnd (cc a1)) by (simpl; destruct (Z.ltb_spec (mtu a) (minCwnd (cc a))); lia). unfold a2. by destruct (inFastRecovery (cc a1)). }
  destruct H2 as (H21 & H22 & H23 & H24 & H25). set (m := if partialReliabilityEnabled a2 then _ else Some a2) in E.
  destruct m as [a3|] eqn:Em; [|done]. simpl in E.
  assert (H3 : exists t f, a3 = (if f : bool then set_forward true (set_advanced t a2) else set_advanced t a2)).
  { unfold m in Em. destruct (partialReliabilityEnabled a2).
    - unfold advancePeerAckPoint in Em. destruct (advanceLoop _ _ a2) as [a4|] eqn:E4; [|done]. simpl in Em.
      destruct (advanceLoop_shape _ _ _ _ E4) as [t ->]. exists t. simplify_eq. destruct (sna32GT _ _); [by exists true|by exists false].
    - injection Em as <-. exists (advancedPeerTSNAckPoint a2), false. apply advanced_same. }
  assert (H3' : heap a3 = heap a /\ inflightQueue a3 = inflightQueue a /\ mtu a3 = mtu a /\ tlr a3 = tlr a /\ cc a3 = cc a2).
  { destruct H3 as (t & f & ->). by destruct f. }
  destruct H3' as (H31 & H32 & H33 & H34 & H35). rewrite H31, H32 in E.
  destruct (markAll_head (heap a) (inflightQueue a) p l c) as (h & Eh & Hrtx); try done; [apply Hf|].
  rewrite Eh in E. simpl in E. simplify_eq. simpl. rewrite H33, H34, H35. by split_and!.
Qed.

Lemma bundle_concat h m chunks : forall open b ps, bundleLoop h m open b chunks = Some ps -> concat ps = open ++ chunks.
Proof.
  induction chunks as [|p chunks IH]; intros open b ps E; simpl in E.
  - simplify_eq. rewrite app_nil_r. destruct open; [done|]. by rewrite concat_cons, app_nil_r.
  - destruct (h !! p) as [c|]; [|done]. simpl in E. destruct (m <? _).
    + destruct (bundleLoop _ _ _ _ chunks) as [ps'|] eqn:E'; [|done]. simplify_eq/=. by rewrite (IH _ _ _ E').
    + by rewrite (IH _ _ _ E), <- app_assoc.
Qed.

(** The earliest chunk is the first to be sent again. *)
Lemma first_resent now budget (a : assoc) p l c packets b a' :
  flight 0 a -> locs (inflightQueue a) = p :: l -> heap a !! p = Some c -> retransmit c = true ->
  commonHeaderSize + chunkSizeInPacket c <= mtu a -> mtu a <= cwnd (cc a) -> tlrActive (tlr a) = false ->
  getDataPacketsToRetransmit now budget a = Some ((packets, b), a') -> p ∈ concat packets.
Proof.
  intros Hf Hl Hc Hr Hfit Hcw Ht E. unfold getDataPacketsToRetransmit, inflight_fuel in E. cbn [retransmitLoop] in E.
  change (cumulativeTSNAckPoint a +32 (0 + 1)) with (head_tsn 0 a) in E.
  destruct (get_flight 0 a (head_tsn 0 a) Hf (u32_range _)) as [(p' & Hg & Hp & Hin & _)|[_ Hout]]; [|unfold count in Hout; rewrite Hl in Hout; simpl in Hout; lia].
  rewrite Z.sub_diag, Hl in Hp. injection Hp as <-. rewrite Hg in E. simpl mbind in E. rewrite Hc in E. simpl mbind in E. rewrite Hr in E. cbn [negb] in E.
  assert (Hlen : dataLen c <= chunkSizeInPacket c).
  { unfold chunkSizeInPacket, chunkSize, getPadding, chunkHeaderSize, iDataHeaderSize, payloadDataHeaderSize, paddingMultiple.
    pose proof (zlen_nonneg (userData (wire c)) : 0 <= dataLen c).
    set (n := if isIData c then _ else _). assert (dataLen c <= n /\ 0 <= n) as [? ?] by (unfold n; destruct (isIData c); lia).
    pose proof (Z.rem_bound_pos n 4). pose proof (Z.rem_nonneg (4 - Z.rem n 4) 4). lia. }
  rewrite Z.add_0_l in E. unfold commonHeaderSize in *.
  replace (negb (rwnd (cc a) <? dataLen c) && (Z.min (cwnd (cc a)) (rwnd (cc a)) <? dataLen c)) with false in E
    by (destruct (Z.ltb_spec (rwnd (cc a)) (dataLen c)), (Z.ltb_spec (Z.min (cwnd (cc a)) (rwnd (cc a))) (dataLen c)); simpl; (done || lia)).
  assert (Epl : exists b1, place a budget 0 (chunkSizeInPacket c) = Some (b1, commonHeaderSize + chunkSizeInPacket c)).
  { unfold place, tlrAllowSendLocked, commonHeaderSize. rewrite Ht. destruct budget. simpl.
    destruct (Z.ltb_spec (mtu a) (chunkSizeInPacket c + 12)); [lia|]. by eexists. }
  destruct Epl as [b1 Epl]. rewrite Epl in E. assert (Hpin : p ∈ locs (inflightQueue a)) by (rewrite Hl; left).
  destruct (resend_spec 0 now true p a Hf Hpin) as (a1 & E1 & R1). rewrite E1 in E. cbn [mbind option_bind] in E.
  pose proof (rs_idle _ _ _ _ R1) as I1.
  destruct (retransmitLoop_spec now (Z.min (cwnd (cc a)) (rwnd (cc a))) (Z.to_nat (PayloadQueue.size (inflightQueue a))) 0 (0 + 1) b1
    (commonHeaderSize + chunkSizeInPacket c) (dataLen c) [p] a1) as (new & b2 & a2 & E2 & _).
  - by eapply flight_idle.
  - lia.
  - right. pose proof (chunk_size_pos c). lia.
  - rewrite (next_room_idle 0 a a1) by done. pose proof (next_room 0 a 0 Hf Hin). pose proof (room_bound 0 a (next_tsn a 0)).
    unfold PayloadQueue.size. rewrite Len_law by apply Hf. fold (locs (inflightQueue a)). unfold count in *. lia.
  - rewrite (id_rwnd _ _ I1). lia.
  - rewrite E2 in E. cbn [mbind option_bind] in E. destruct (bundleDataChunksIntoPackets _ _) as [ps|] eqn:Eb; [|done]. simpl in E. simplify_eq.
    apply bundle_concat in Eb. rewrite Eb. simpl. left.
Qed.

End Timeout.


(** ** Examples *)
Module StepExample.
Import SendExample.

(** Three chunks have been sent, from TSN [t] on. *)
Definition sent_result (t : Z) : option (list (list loc) * list Z * (Z * bool) * assoc_) :=
  gatherOutboundData 7 order 5 (0, false) (start_at t 1000 1000).

Definition flying (t : Z) : assoc_ := from_option snd (start_at t 0 0) (sent_result t).

Lemma start_flight t : in_u 32 t -> flight 0 (start_at t 1000 1000) /\ half_space (start_at t 1000 1000).
Proof.
  intros Ht. destruct (start_at_ok t 1000 1000) as [Hok Hsm]; [done|lia|done|]. split.
  - constructor; [done|constructor|..].
    + apply u32_range.
    + done.
    + intros i p Hp. change (locs _) with (@nil loc) in Hp. by rewrite lookup_nil in Hp.
    + change (t = u32 (t - 1) +32 (1 + 0 + 0)). go_lia.
    + repeat constructor; by eexists.
    + constructor.
  - change (dist32 (u32 (t - 1)) t + 3 <= 2 ^ 31). unfold dist32. go_lia.
Qed.

Lemma send_step t : in_u 32 t -> is_Some (sent_result t) -> sstep order (start_at t 1000 1000) (flying t).
Proof.
  intros Ht. destruct (start_flight t Ht) as [_ Hh]. destruct (start_at_ok t 1000 1000) as [_ Hsm]; [done|lia|done|].
  unfold flying. intros [[r a'] E]. rewrite E. cbn [from_option snd]. exact (s_send order _ 7 5 (0, false) r a' Hsm Hh eq_refl E).
Qed.

Lemma flying_flight t : in_u 32 t -> is_Some (sent_result t) -> flight 0 (flying t).
Proof. intros Ht Hs. eapply sstep_ok; [apply order_fine|by apply start_flight|by apply send_step]. Qed.

Lemma in_100 : in_u 32 100.
Proof. done. Qed.

Lemma in_wrap : in_u 32 4294967294.
Proof. done. Qed.

Lemma sent_100 : is_Some (sent_result 100).
Proof. vm_compute. by eexists. Qed.

Lemma flight_100 : flight 0 (flying 100).
Proof. exact (flying_flight 100 in_100 sent_100). Qed.

Lemma in_flight_data_is_timed_witness :
  locs (inflightQueue (flying 100)) = [1; 2; 3]%positive
  /\ (isRunning (t3RTX (flying 100)) = true \/ t_state (t3RTX (flying 100)) = rtxTimerClosed).
Proof.
  assert (El : locs (inflightQueue (flying 100)) = [1; 2; 3]%positive) by (vm_compute; reflexivity). split; [exact El|].
  refine (proj2 (proj2 (proj2 (in_flight_data_is_timed order (start_at 100 1000 1000) (flying 100) order_fine
    (proj1 (start_flight 100 in_100)) _ (rtc_once _ _ (send_step 100 in_100 sent_100))))) _).
  - intros Hne. destruct (Hne eq_refl).
  - rewrite El. discriminate.
Defined.


(** The third chunk has TSN 0, behind the wrap, and is not found. *)
Lemma sent_wrapped : is_Some (sent_result 4294967294).
Proof. vm_compute. by eexists. Qed.

Lemma sender_never_panics_witness : is_Some (handleSack 9 4294967294 1000 [mkGap 2 2] [] (flying 4294967294)).
Proof.
  refine (proj1 (sender_never_panics order 0 (start_at 4294967294 1000 1000) (flying 4294967294) order_fine
    (proj1 (start_flight _ in_wrap)) (rtc_once _ _ (r_step _ _ _ (send_step _ in_wrap sent_wrapped)))) 9 4294967294 1000 [mkGap 2 2] [] in_wrap _ _ _).
  - split; [discriminate|reflexivity].
  - repeat constructor; discriminate.
  - vm_compute. reflexivity.
Defined.

Definition refused : assoc_ :=
  from_option snd (flying 0) (processSelectiveAck 9 4294967294 [mkGap 2 2] (flying 4294967294)).



End StepExample.
