(* ===== verification/Endpoint.v ===== *)
(** * The association as a whole (association.go, [Association])

    Sender.v and Sack.v model the part of the struct that the sending half
    works on.  Here is the rest of it: the handshake, what the peers negotiated,
    the receiving half with its acknowledgement state, stream resets, and what
    ends the association.  [sender] is the record of Sender.v; the state of the
    association and its streams are in there.  One handler, which holds the
    association's lock, is one step. *)

From S2P Require Import Prelude.
From S2P Require Import Serial.
From S2P Require Import Float64.
From S2P Require Import Bytes.
From S2P Require Import Params.
From S2P Require Import Causes.
From S2P Require Import Chunks.
From S2P Require Import Packet.
From S2P Require Import RingQueue.
From S2P Require Import PayloadQueue.
From S2P Require Import RecvQueue.
From S2P Require Import WindowedMin.
From S2P Require Import PendingQueue.
From S2P Require Import PendingSpec.
From S2P Require Import Reassembly.
From S2P Require Import Stream.
From S2P Require Import Timers.
From S2P Require Import Sender.
From S2P Require Import Sack.
From Stdlib Require Import Ascii String.

Local Open Scope Z_scope.
Local Open Scope go_scope.

Definition defaultSCTPSrcDstPort : Z := 5000.
Definition acceptChSize : Z := 16.
Definition maxReconfigRequests : Z := 1000.
Definition dtlsErrorDetectionMethod : Z := 1.
Definition reconfigResultSuccessPerformed : Z := 1.
Definition reconfigResultInProgress : Z := 6.

(** The bytes of a string constant. *)
Definition text (s : string) : list Z := map (fun c => Z.of_nat (nat_of_ascii c)) (list_ascii_of_string s).

Inductive ackStates := ackStateIdle | ackStateImmediate | ackStateDelay.

#[global] Instance ackStates_eq_dec : EqDecision ackStates.
Proof. solve_decision. Defined.

Inductive ackModes := ackModeNormal | ackModeNoDelay | ackModeAlwaysDelay.

#[global] Instance ackModes_eq_dec : EqDecision ackModes.
Proof. solve_decision. Defined.

Inductive aerr :=
  | ErrHandleInitState (s : assocState) | ErrInitAckNoCookie | ErrTooManyReconfigRequests (n : Z) | ErrParamterType
  | ErrChunk | ErrChunkTypeUnhandled | ErrHandshakeInitAck | ErrHandshakeCookieEcho | ErrShutdownNonEstablished
  | ErrAssociationClosed | ErrInitNotStoredToSend | ErrCookieEchoNotStoredToSend
  | ErrSCTPPacketSourcePortZero | ErrSCTPPacketDestinationPortZero | ErrInitChunkBundled | ErrInitChunkVerifyTagNotZero
  | RandErr | PendingErr (e : qerr) | SenderErr (e : sendErr) | DecodeErr (e : err).

(** [paramOutgoingResetRequest] as it is kept. *)
Record resetRequest := mkReset { rst_rsn : Z; rst_response : Z; rst_lastTSN : Z; rst_streams : list Z }.

Record handshake := mkHS {
  peerVerificationTag : Z;
  myVerificationTag : Z;
  srcPort : Z;
  dstPort : Z;
  myMaxNumInboundStreams : Z;
  myMaxNumOutboundStreams : Z;
  myCookie : option (list Z);
  storedInit : option chunkInitCommon;
  storedCookieEcho : option (list Z);
  t1Init : rtxTimer;
  t1Cookie : rtxTimer
}.

Record extensions := mkExt {
  useInterleaving : bool;
  localInterleaving : bool;
  peerInterleaving : bool;
  peerForwardTSN : bool;
  peerIForwardTSN : bool;
  sendZeroChecksum : bool;
  recvZeroChecksum : bool;
  maxPayloadSize : Z;
  maxMessageSize : Z
}.

(** [acceptCh] holds the streams that wait to be accepted; [released] the
    streams that were taken out of the map, which the application may still
    hold. *)
Record receiver := mkRx {
  rxQueue : receivePayloadQueue;
  maxReceiveBufferSize : Z;
  ackState : ackStates;
  ackMode : ackModes;
  ackTmr : ackTimer;
  delayedAckTriggered : bool;
  immediateAckTriggered : bool;
  acceptCh : list Z;
  released : list Stream
}.

Record reconfiguration := mkRc {
  myNextRSN : Z;
  reconfigs : gmap Z chunk;
  reconfigRequests : gmap Z resetRequest;
  tReconfig : rtxTimer
}.

(** [closedCh]: [closeWriteLoopCh] is closed.  [waiter]: [Server] or [Client]
    waits on [handshakeCompletedCh]; [outcome] is what it received. *)
Record ending := mkEnd {
  willSendShutdownComplete : bool;
  willSendAbort : bool;
  willSendAbortCause : option errorCause;
  t2Shutdown : rtxTimer;
  closedCh : bool;
  waiter : bool;
  outcome : option (option aerr)
}.

Section Endpoint.
Context {S : Type} `{SS : StreamScheduler S} {Q : Type} `{QI : QueueImpl loc Q}.

Abbreviation assoc := (@association S Q).

Abbreviation control_queue := (@WindowedMin.controlQueue packet).

Record endpoint := mkEP {
  sender : assoc;
  hs : handshake;
  ext : extensions;
  rx : receiver;
  rc : reconfiguration;
  fin : ending;
  control : control_queue
}.

(** *** Setters *)

Definition on_sender (f : assoc -> assoc) (e : endpoint) : endpoint :=
  mkEP (f (sender e)) (hs e) (ext e) (rx e) (rc e) (fin e) (control e).

Definition set_hs (h : handshake) (e : endpoint) : endpoint := mkEP (sender e) h (ext e) (rx e) (rc e) (fin e) (control e).

Definition set_ext (x : extensions) (e : endpoint) : endpoint := mkEP (sender e) (hs e) x (rx e) (rc e) (fin e) (control e).

Definition set_rx (r : receiver) (e : endpoint) : endpoint := mkEP (sender e) (hs e) (ext e) r (rc e) (fin e) (control e).

Definition set_rc (r : reconfiguration) (e : endpoint) : endpoint := mkEP (sender e) (hs e) (ext e) (rx e) r (fin e) (control e).

Definition set_fin (f : ending) (e : endpoint) : endpoint := mkEP (sender e) (hs e) (ext e) (rx e) (rc e) f (control e).

Definition set_control (c : control_queue) (e : endpoint) : endpoint := mkEP (sender e) (hs e) (ext e) (rx e) (rc e) (fin e) c.

Definition getState (e : endpoint) : assocState := state (sender e).

Definition setState (s : assocState) : endpoint -> endpoint := on_sender (set_state s).

Definition awake_ : endpoint -> endpoint := on_sender awakeWriteLoop.

Definition streams (e : endpoint) : gmap Z Stream := streams_ (sender e).

Definition put_streams (m : gmap Z Stream) : endpoint -> endpoint := on_sender (set_streams m).

Definition set_queue (q : receivePayloadQueue) (e : endpoint) : endpoint :=
  let r := rx e in
  set_rx (mkRx q (maxReceiveBufferSize r) (ackState r) (ackMode r) (ackTmr r) (delayedAckTriggered r)
            (immediateAckTriggered r) (acceptCh r) (released r)) e.

Definition set_ack (s : ackStates) (t : ackTimer) (e : endpoint) : endpoint :=
  let r := rx e in
  set_rx (mkRx (rxQueue r) (maxReceiveBufferSize r) s (ackMode r) t (delayedAckTriggered r) (immediateAckTriggered r)
            (acceptCh r) (released r)) e.

Definition set_triggers (delayed immediate : bool) (e : endpoint) : endpoint :=
  let r := rx e in
  set_rx (mkRx (rxQueue r) (maxReceiveBufferSize r) (ackState r) (ackMode r) (ackTmr r) delayed immediate
            (acceptCh r) (released r)) e.

Definition set_accept (l : list Z) (e : endpoint) : endpoint :=
  let r := rx e in
  set_rx (mkRx (rxQueue r) (maxReceiveBufferSize r) (ackState r) (ackMode r) (ackTmr r) (delayedAckTriggered r)
            (immediateAckTriggered r) l (released r)) e.

Definition set_released (l : list Stream) (e : endpoint) : endpoint :=
  let r := rx e in
  set_rx (mkRx (rxQueue r) (maxReceiveBufferSize r) (ackState r) (ackMode r) (ackTmr r) (delayedAckTriggered r)
            (immediateAckTriggered r) (acceptCh r) l) e.

Definition set_reconfigs (m : gmap Z chunk) (t : rtxTimer) (e : endpoint) : endpoint :=
  let r := rc e in set_rc (mkRc (myNextRSN r) m (reconfigRequests r) t) e.

Definition set_requests (m : gmap Z resetRequest) (e : endpoint) : endpoint :=
  let r := rc e in set_rc (mkRc (myNextRSN r) (reconfigs r) m (tReconfig r)) e.

Definition set_abort (b : bool) (c : option errorCause) (e : endpoint) : endpoint :=
  let f := fin e in
  set_fin (mkEnd (willSendShutdownComplete f) b c (t2Shutdown f) (closedCh f) (waiter f) (outcome f)) e.

Definition set_t2 (t : rtxTimer) (complete : bool) (e : endpoint) : endpoint :=
  let f := fin e in
  set_fin (mkEnd complete (willSendAbort f) (willSendAbortCause f) t (closedCh f) (waiter f) (outcome f)) e.

(** *** Helpers every component uses *)

(** Chunks and parameters are made with an empty header, which [marshal] fills. *)
Definition new_chunk (b : chunk_body) : chunk := mkChunk (mkChunkHeader 0 0 []) b.

Definition new_param (b : param_body) : param := mkParam zeroParamHeader b.

Definition createPacket (e : endpoint) (cs : list chunk) : packet :=
  mkPacket (srcPort (hs e)) (dstPort (hs e)) (peerVerificationTag (hs e)) cs.

Definition abortProtocolViolation (reason : list Z) (e : endpoint) : endpoint :=
  awake_ (set_abort true (Some (mkCause (mkCauseHeader protocolViolation 0 []) (errorCauseProtocolViolation reason))) e).

Definition peerLastTSN (e : endpoint) : Z := getcumulativeTSN (rxQueue (rx e)).

End Endpoint.
