(* ===== verification/Receive.v ===== *)
(** * The receiving half (association.go)

    DATA, FORWARD TSN and RE-CONFIG chunks from the peer: streams are made on
    demand, TSNs are recorded, fragments are handed to the streams, stream resets
    wait for the data before them, and acknowledgements are sent at once or
    after the delay of the acknowledgement timer. *)

From S2P Require Import Prelude.
From S2P Require Import Serial.
From S2P Require Import Float64.
From S2P Require Import Bytes.
From S2P Require Import Params.
From S2P Require Import Causes.
From S2P Require Import Chunks.
From S2P Require Import Packet.
From S2P Require Import RingQueue.
From S2P Require Import PayloadQueue.
From S2P Require Import RecvQueue.
From S2P Require Import WindowedMin.
From S2P Require Import PendingQueue.
From S2P Require Import PendingSpec.
From S2P Require Import Reassembly.
From S2P Require Import Stream.
From S2P Require Import Timers.
From S2P Require Import Sender.
From S2P Require Import Sack.
From S2P Require Import Endpoint.

Local Open Scope Z_scope.
Local Open Scope go_scope.

Section Receive.
Context {S : Type} `{SS : StreamScheduler S} {Q : Type} `{QI : QueueImpl loc Q}.

Abbreviation ep := (@endpoint S Q).

(** ** Streams *)

(** The sum is a uint32. *)
Definition bytesQueued (m : gmap Z Stream) : Z :=
  map_fold (fun _ s n => n +32 u32 (getNumBytesInReassemblyQueue s)) 0 m.

Definition getMyReceiverWindowCredit (e : ep) : Z :=
  let bytesQueued := bytesQueued (streams e) in
  if maxReceiveBufferSize (rx e) <=? bytesQueued then 0 else maxReceiveBufferSize (rx e) - bytesQueued.

(** Whether there is a stream: an accepted stream is dropped when the accept
    channel is full. *)
Definition createStream (si : Z) (accept : bool) (e : ep) : bool * ep :=
  if accept then
    if zlen (acceptCh (rx e)) <? acceptChSize then
      (true, put_streams (<[si := newStream si]> (streams e)) (set_accept (acceptCh (rx e) ++ [si]) e))
    else (false, e)
  else (true, put_streams (<[si := newStream si]> (streams e)) e).

Definition setPayloadType (si ppi : Z) (e : ep) : ep :=
  match streams e !! si with
  | Some s => put_streams (<[si := SetDefaultPayloadType s ppi]> (streams e)) e
  | None => e
  end.

Definition getOrCreateStream (si : Z) (accept : bool) (ppi : Z) (e : ep) : bool * ep :=
  match streams e !! si with
  | Some _ => (true, setPayloadType si ppi e)
  | None => let (ok, e) := createStream si accept e in (ok, if ok then setPayloadType si ppi e else e)
  end.

Definition OpenStream (si ppi : Z) (e : ep) : option aerr * ep :=
  match getState e with
  | shutdownAckSent | shutdownPending | shutdownReceived | shutdownSent | closed => (Some ErrAssociationClosed, e)
  | _ => (None, (getOrCreateStream si false ppi e).2)
  end.

(** The next stream to accept; [None]: the caller waits. *)
Definition AcceptStream (e : ep) : option (Z * ep) :=
  match acceptCh (rx e) with [] => None | si :: l => Some (si, set_accept l e) end.

Definition unregisterStream (si : Z) (err : serr) (e : ep) : ep :=
  match streams e !! si with
  | Some s => set_released (released (rx e) ++ [unregistered s err]) (put_streams (delete si (streams e)) e)
  | None => e
  end.

(** ** Stream resets *)

(** [onInboundStreamReset], and out of the map. *)
Definition resetStream (e : ep) (si : Z) : ep :=
  match streams e !! si with
  | Some s => set_released (released (rx e) ++ [onInboundStreamReset s]) (put_streams (delete si (streams e)) e)
  | None => e
  end.

Definition resetStreamsIfAny (r : resetRequest) (e : ep) : packet * ep :=
  let '(result, e) :=
    if sna32LTE (rst_lastTSN r) (peerLastTSN e) then
      let e := fold_left resetStream (rst_streams r) e in
      (reconfigResultSuccessPerformed, set_requests (delete (rst_rsn r) (reconfigRequests (rc e))) e)
    else (reconfigResultInProgress, e) in
  (createPacket e [new_chunk (chunkReconfig (Some (new_param (paramReconfigResponse (rst_rsn r) result))) None)], e).

(** [range a.reconfigRequests], in the order [ks]. *)
Definition answerRequests (ks : list Z) (e : ep) : list packet * ep :=
  fold_left (fun '(reply, e) k =>
    match reconfigRequests (rc e) !! k with
    | None => (reply, e)
    | Some r => let (p, e) := resetStreamsIfAny r e in (reply ++ [p], e)
    end) ks ([], e).

(** ** Acknowledgement *)

(** The loop that advances the cumulative TSN: [order] is the order in which
    the requests are visited. *)
Fixpoint popLoop (fuel : nat) (order : gmap Z resetRequest -> list Z) (reply : list packet) (e : ep)
  : option (list packet * ep) :=
  match fuel with
  | O => None
  | Datatypes.S fuel' =>
      let (ok, q) := RecvQueue.pop (rxQueue (rx e)) false in
      let e := set_queue q e in
      if negb ok then Some (reply, e)
      else
        let (ps, e) := answerRequests (order (reconfigRequests (rc e))) e in
        popLoop fuel' order (reply ++ ps) e
  end.

Definition trigger (sackImmediately : bool) (e : ep) : ep :=
  let r := rx e in
  let immediate := set_triggers (delayedAckTriggered r) true e in
  if sackImmediately || (0 <? rq_size (rxQueue r)) || bool_decide (ackMode r = ackModeNoDelay) then immediate
  else if bool_decide (ackMode r = ackModeAlwaysDelay)
          || (bool_decide (ackMode r = ackModeNormal) && negb (bool_decide (ackState r = ackStateImmediate))) then
    if bool_decide (ackState r = ackStateIdle) then set_triggers true (immediateAckTriggered r) e else immediate
  else immediate.

Definition popFuel (e : ep) : nat := Datatypes.S (Z.to_nat (rq_size (rxQueue (rx e)))).

Definition handlePeerLastTSNAndAcknowledgement (order : gmap Z resetRequest -> list Z) (sackImmediately : bool) (e : ep)
  : option (list packet * ep) :=
  '(reply, e) ← popLoop (popFuel e) order [] e; Some (reply, trigger sackImmediately e).

(** ** DATA *)

Definition rerr_text (r : rerr) : list Z :=
  match r with
  | errReassemblyQueueMIDLimitExceeded => text "reassembly queue i-data message identifier limit exceeded"
  | errTryAgain => text "try again"
  | ErrShortBuffer => text "short buffer"
  end.

Definition pushPayloadDataToStream (d : payloadData) (e : ep) : bool * ep :=
  let e := set_queue (RecvQueue.push (rxQueue (rx e)) (tsn d)).2 e in
  match streams e !! streamIdentifier d with
  | None => (true, e)
  | Some s =>
      let '(err, _, s') := Stream.handleData s d in
      let e := put_streams (<[streamIdentifier d := s']> (streams e)) e in
      match err with
      | Some r => (false, abortProtocolViolation (rerr_text r) e)
      | None => (true, e)
      end
  end.

Definition acceptPayloadData (d : payloadData) (e : ep) : bool * ep :=
  let (ok, e) := getOrCreateStream (streamIdentifier d) true 0 e in
  if negb ok then (false, e)
  else if 0 <? getMyReceiverWindowCredit e then pushPayloadDataToStream d e
  else
    match getLastTSNReceived (rxQueue (rx e)) with
    | Some lastTSN => if sna32LT (tsn d) lastTSN then pushPayloadDataToStream d e else (true, e)
    | None => (true, e)
    end.

(** The states in which DATA and SACK chunks are looked at. *)
Definition receives (s : assocState) : bool :=
  match s with established | shutdownPending | shutdownReceived => true | _ => false end.

(** [typ] is the type in the chunk's header. *)
Definition isIDataChunk (c : chunk) (d : payloadData) : bool := iData d || (ch_typ (k_hdr c) =? ctIData).

Definition handleData (order : gmap Z resetRequest -> list Z) (isIData : bool) (d : payloadData) (e : ep)
  : option (list packet * ep) :=
  if negb (receives (getState e)) then Some ([], e)
  else if negb (eqb isIData (useInterleaving (ext e))) then
    Some ([], abortProtocolViolation
                (text (if isIData then "received I-DATA without interleaving negotiated"
                       else "received DATA with interleaving negotiated")) e)
  else
    let '(ok, e) := if canPush (rxQueue (rx e)) (tsn d) then acceptPayloadData d e else (true, e) in
    if negb ok then Some ([], e)
    else
      let gapDetected := sna32GT (tsn d) (peerLastTSN e +32 1) in
      handlePeerLastTSNAndAcknowledgement order (immediateSack d || gapDetected) e.

(** ** FORWARD TSN *)

Definition ackAtOnce (e : ep) : ep := awake_ (set_ack ackStateImmediate (ack_stop (ackTmr (rx e))) e).

Definition on_stream (f : Stream -> Stream) (si : Z) (e : ep) : ep :=
  match streams e !! si with Some s => put_streams (<[si := f s]> (streams e)) e | None => e end.

Definition handleForwardTSN (order : gmap Z resetRequest -> list Z) (newCumulativeTSN : Z)
    (ss : list chunkForwardTSNStream) (e : ep) : option (list packet * ep) :=
  if useInterleaving (ext e) then
    Some ([], abortProtocolViolation (text "received FORWARD-TSN with interleaving enabled") e)
  else if negb (useForwardTSN (sender e)) then
    Some ([createPacket e [new_chunk (chunkError [mkCause (mkCauseHeader 0 0 []) (errorCauseUnrecognizedChunkType [])])]], e)
  else if sna32LTE newCumulativeTSN (peerLastTSN e) then Some ([], ackAtOnce e)
  else
    q ← advanceCumulativeTSN (rxQueue (rx e)) newCumulativeTSN;
    let e := set_queue q e in
    let e := fold_left (fun e f => on_stream (fun s => (handleForwardTSNForOrdered s (fs_sequence f)).2) (fs_identifier f) e) ss e in
    let e := put_streams ((fun s => (handleForwardTSNForUnordered s newCumulativeTSN).2) <$> streams e) e in
    handlePeerLastTSNAndAcknowledgement order false e.

Definition handleIForwardTSN (order : gmap Z resetRequest -> list Z) (newCumulativeTSN : Z)
    (ss : list chunkIForwardTSNStream) (e : ep) : option (list packet * ep) :=
  if negb (useIForwardTSN (sender e)) then
    Some ([], abortProtocolViolation (text "received I-FORWARD-TSN without support") e)
  else if sna32LTE newCumulativeTSN (peerLastTSN e) then Some ([], ackAtOnce e)
  else
    q ← advanceCumulativeTSN (rxQueue (rx e)) newCumulativeTSN;
    let e := set_queue q e in
    let e := fold_left (fun e f =>
      on_stream (fun s => (if is_unordered f then handleForwardTSNForUnorderedMID s (is_messageIdentifier f)
                           else handleForwardTSNForOrderedMID s (is_messageIdentifier f)).2) (is_identifier f) e) ss e in
    handlePeerLastTSNAndAcknowledgement order false e.

(** ** RE-CONFIG *)

Definition resetOutgoingStreamSequenceNumbers (rsn : Z) (e : ep) : ep :=
  match reconfigs (rc e) !! rsn with
  | Some (mkChunk _ (chunkReconfig (Some (mkParam _ (paramOutgoingResetRequest _ _ _ ids))) _)) =>
      fold_left (fun e id => on_stream Stream.resetOutgoingStreamSequenceNumbers id e) ids e
  | _ => e
  end.

Definition restartReconfig (e : ep) : ep :=
  set_reconfigs (reconfigs (rc e)) (start (stop (tReconfig (rc e))) (getRTO (rtoMgr (sender e)))).2 e.

(** The comparison that limits the number of requests is a plain one. *)
Definition handleReconfigParam (p : option param) (e : ep) : (option packet + aerr) * ep :=
  match p with
  | Some (mkParam _ (paramOutgoingResetRequest rsn resp lastTSN ids)) =>
      let n := Z.of_nat (base.size (reconfigRequests (rc e))) in
      if (peerLastTSN e <? lastTSN) && (maxReconfigRequests <=? n) then (inr (ErrTooManyReconfigRequests n), e)
      else
        let r := mkReset rsn resp lastTSN ids in
        let (p, e) := resetStreamsIfAny r (set_requests (<[rsn := r]> (reconfigRequests (rc e))) e) in
        (inl (Some p), e)
  | Some (mkParam _ (paramReconfigResponse rsn result)) =>
      if result =? reconfigResultInProgress then
        (inl None, match reconfigs (rc e) !! rsn with Some _ => restartReconfig e | None => e end)
      else
        let e := if result =? reconfigResultSuccessPerformed then resetOutgoingStreamSequenceNumbers rsn e else e in
        let m := delete rsn (reconfigs (rc e)) in
        (inl None, set_reconfigs m (if Z.of_nat (base.size m) =? 0 then stop (tReconfig (rc e)) else tReconfig (rc e)) e)
  | _ => (inr ErrParamterType, e)
  end.

Definition handleReconfig (paramA paramB : option param) (e : ep) : (list packet + aerr) * ep :=
  let (r, e) := handleReconfigParam paramA e in
  match r with
  | inr err => (inr err, e)
  | inl p =>
      match paramB with
      | None => (inl (option_list p), e)
      | Some _ =>
          let (r, e) := handleReconfigParam paramB e in
          match r with inr err => (inr err, e) | inl p' => (inl (option_list p ++ option_list p'), e) end
      end
  end.

(** ** What is sent back *)

Definition selectiveAckMaxEntries (mtu : Z) : Z :=
  let headerSize := commonHeaderSize + chunkHeaderSize + selectiveAckHeaderSize in
  if headerSize <? mtu then Z.min (mtu - headerSize) (65535 - chunkHeaderSize - selectiveAckHeaderSize) / 4 else 0.

(** [None]: a slice out of range. *)
Definition createSelectiveAckChunk (e : ep) : option (chunk * ep) :=
  let maxEntries := selectiveAckMaxEntries (mtu (sender e)) in
  let q := rxQueue (rx e) in
  gaps ← getGapAckBlocks q maxEntries;
  let (duplicates, q) := popDuplicates q in
  let n := Z.min (zlen duplicates) (maxEntries - zlen gaps) in
  if n <? 0 then None
  else Some (new_chunk (chunkSelectiveAck (peerLastTSN e) (getMyReceiverWindowCredit e) gaps (take (Z.to_nat n) duplicates)),
             set_queue q e).

Definition handleChunksStart (e : ep) : ep := set_triggers false false e.

Definition handleChunksEnd (e : ep) : ep :=
  let r := rx e in
  if immediateAckTriggered r then ackAtOnce e
  else if delayedAckTriggered r then set_ack ackStateDelay (ack_start (ackTmr r)).2 e
  else e.

Definition onAckTimeout (e : ep) : ep := awake_ (set_ack ackStateImmediate (ackTmr (rx e)) e).

(** The greatest sequence number per stream among the abandoned chunks; the loop
    ends at the first TSN that is not in flight. *)
Fixpoint forwardLoop (fuel : nat) (a : @association S Q) (i : Z) (streamMap : gmap Z Z) : option (gmap Z Z) :=
  match fuel with
  | O => None
  | Datatypes.S fuel' =>
      if negb (sna32LTE i (advancedPeerTSNAckPoint a)) then Some streamMap
      else
        g ← PayloadQueue.get (heap a) (inflightQueue a) i;
        match g with
        | None => Some streamMap
        | Some p =>
            c ← heap a !! p;
            let si := streamIdentifier (wire c) in
            let n := streamSequenceNumber (wire c) in
            forwardLoop fuel' a (i +32 1)
              (match streamMap !! si with
               | Some ssn => if sna16LT ssn n then <[si := n]> streamMap else streamMap
               | None => <[si := n]> streamMap
               end)
        end
  end.

(** [order] is the order in which the map is read. *)
Definition createForwardTSN (order : gmap Z Z -> list (Z * Z)) (a : @association S Q) : option chunk :=
  m ← forwardLoop (inflight_fuel a) a (cumulativeTSNAckPoint a +32 1) ∅;
  Some (new_chunk (chunkForwardTSN (advancedPeerTSNAckPoint a) (map (fun '(si, n) => mkFwdStream si n) (order m)))).

Definition later (mid : Z) (si : Z) (m : gmap Z Z) : gmap Z Z :=
  match m !! si with
  | Some old => if sna32LT old mid then <[si := mid]> m else m
  | None => <[si := mid]> m
  end.

Fixpoint iforwardLoop (fuel : nat) (a : @association S Q) (i : Z) (ordered unordered_ : gmap Z Z)
  : option (gmap Z Z * gmap Z Z) :=
  match fuel with
  | O => None
  | Datatypes.S fuel' =>
      if negb (sna32LTE i (advancedPeerTSNAckPoint a)) then Some (ordered, unordered_)
      else
        g ← PayloadQueue.get (heap a) (inflightQueue a) i;
        match g with
        | None => Some (ordered, unordered_)
        | Some p =>
            c ← heap a !! p;
            let si := streamIdentifier (wire c) in
            let mid := messageIdentifier (wire c) in
            if unordered (wire c) then iforwardLoop fuel' a (i +32 1) ordered (later mid si unordered_)
            else iforwardLoop fuel' a (i +32 1) (later mid si ordered) unordered_
        end
  end.

Definition createIForwardTSN (order : gmap Z Z -> list (Z * Z)) (a : @association S Q) : option chunk :=
  '(o, u) ← iforwardLoop (inflight_fuel a) a (cumulativeTSNAckPoint a +32 1) ∅ ∅;
  Some (new_chunk (chunkIForwardTSN (advancedPeerTSNAckPoint a)
          (map (fun '(si, n) => mkIFwdStream si false n) (order o) ++ map (fun '(si, n) => mkIFwdStream si true n) (order u)))).

Definition generateNextRSN (e : ep) : Z * ep :=
  let r := rc e in
  (myNextRSN r, set_rc (mkRc (myNextRSN r +32 1) (reconfigs r) (reconfigRequests r) (tReconfig r)) e).

(** The RE-CONFIG part of [gatherOutboundDataAndReconfigPackets]: the packets,
    with [order] the order in which the stored requests are read. *)
Definition gatherReconfig (order : gmap Z chunk -> list chunk) (sisToReset : list Z) (e : ep) : list packet * ep :=
  let retransmit := willRetransmitReconfig (plan (sender e)) in
  if bool_decide (sisToReset = []) && negb retransmit then ([], e)
  else
    let again := if retransmit then map (fun c => createPacket e [c]) (order (reconfigs (rc e))) else [] in
    let e := on_sender (fun a => let p := plan a in
               set_plan (mkPlans (willSendForwardTSN p) (willRetransmitFast p) false (willSendShutdown p)
                           (willSendShutdownAck p) (awake p)) a) e in
    let '(new, e) :=
      if bool_decide (sisToReset = []) then ([], e)
      else
        let (rsn, e) := generateNextRSN e in
        let c := new_chunk (chunkReconfig (Some (new_param
                   (paramOutgoingResetRequest rsn 0 (myNextTSN (sender e) -32 1) sisToReset))) None) in
        let e := set_reconfigs (<[rsn := c]> (reconfigs (rc e))) (tReconfig (rc e)) e in
        ([createPacket e [c]], e) in
    let e := if 0 <? Z.of_nat (base.size (reconfigs (rc e)))
             then set_reconfigs (reconfigs (rc e)) (start (tReconfig (rc e)) (getRTO (rtoMgr (sender e)))).2 e else e in
    (again ++ new, e).

End Receive.
