(* ===== verification/Handshake.v ===== *)
(** * The life of an association (association.go)

    The four-way handshake with its timers, the extensions the peers agree on,
    heartbeats, the shutdown sequence, aborts, and the dispatch of the chunks of
    a packet. *)

From S2P Require Import Prelude.
From S2P Require Import Serial.
From S2P Require Import Float64.
From S2P Require Import Bytes.
From S2P Require Import Params.
From S2P Require Import Causes.
From S2P Require Import Chunks.
From S2P Require Import Packet.
From S2P Require Import RingQueue.
From S2P Require Import PayloadQueue.
From S2P Require Import RecvQueue.
From S2P Require Import WindowedMin.
From S2P Require Import PendingQueue.
From S2P Require Import PendingSpec.
From S2P Require Import Reassembly.
From S2P Require Import Stream.
From S2P Require Import Timers.
From S2P Require Import Sender.
From S2P Require Import Sack.
From S2P Require Import Endpoint.
From S2P Require Import Receive.

Local Open Scope Z_scope.
Local Open Scope go_scope.

(** ** Extensions *)

Record supportedExtensions := mkSupported { forwardTSN : bool; interleaving : bool; iForwardTSN : bool }.

Definition supportedExtensionsFromChunkTypes (types : list Z) : supportedExtensions :=
  fold_left (fun x t =>
    if t =? ctForwardTSN then mkSupported true (interleaving x) (iForwardTSN x)
    else if t =? ctIData then mkSupported (forwardTSN x) true (iForwardTSN x)
    else if t =? ctIForwardTSN then mkSupported (forwardTSN x) (interleaving x) true
    else x) types (mkSupported false false false).

Definition join (x y : supportedExtensions) : supportedExtensions :=
  mkSupported (forwardTSN x || forwardTSN y) (interleaving x || interleaving y) (iForwardTSN x || iForwardTSN y).

Definition getSupportedExtensions (ps : list param) : supportedExtensions :=
  fold_left (fun x p =>
    match p_body p with
    | paramSupportedExtensions types => join x (supportedExtensionsFromChunkTypes types)
    | _ => x
    end) ps (mkSupported false false false).

(** The parameter that [setSupportedExtensions] appends. *)
Definition extensionsParam (enableInterleaving : bool) : param :=
  new_param (paramSupportedExtensions
    ([ctReconfig; ctForwardTSN] ++ (if enableInterleaving then [ctIData; ctIForwardTSN] else []))).

Definition zeroChecksumParams (recv : bool) : list param :=
  if recv then [new_param (paramZeroChecksumAcceptable dtlsErrorDetectionMethod)] else [].

(** The last such parameter decides. *)
Definition zeroChecksum (ps : list param) (send : bool) : bool :=
  fold_left (fun b p =>
    match p_body p with paramZeroChecksumAcceptable edmid => edmid =? dtlsErrorDetectionMethod | _ => b end) ps send.

(** The last state cookie. *)
Definition cookieParam (ps : list param) : option (list Z) :=
  fold_left (fun c p => match p_body p with paramStateCookie k => Some k | _ => c end) ps None.

Section Handshake.
Context {S : Type} `{SS : StreamScheduler S} {Q : Type} `{QI : QueueImpl loc Q}.

Abbreviation ep := (@endpoint S Q).

Definition set_prsctp (fwd ifwd : bool) (a : @association S Q) : @association S Q :=
  mkAssoc (heap a) (state a) (myNextTSN a) (minTSN2MeasureRTT a) (cumulativeTSNAckPoint a) (advancedPeerTSNAckPoint a)
    (inflightQueue a) (pendingQueue a) (mtu a) fwd ifwd (cc a) (rtoMgr a) (t3RTX a) (srtt_ a)
    (rack a) (tlr a) (plan a) (streams_ a) (blockWrite a) (writePending a).

Definition set_use (b : bool) (size : Z) (x : extensions) : extensions :=
  mkExt b (localInterleaving x) (peerInterleaving x) (peerForwardTSN x) (peerIForwardTSN x) (sendZeroChecksum x)
    (recvZeroChecksum x) size (maxMessageSize x).

Definition setPeerSupportedExtensions (s : supportedExtensions) (e : ep) : ep :=
  let x := ext e in
  set_ext (mkExt (useInterleaving x) (localInterleaving x) (interleaving s) (forwardTSN s) (iForwardTSN s)
             (sendZeroChecksum x) (recvZeroChecksum x) (maxPayloadSize x) (maxMessageSize x)) e.

Definition setSendZeroChecksum (ps : list param) (e : ep) : ep :=
  let x := ext e in
  set_ext (mkExt (useInterleaving x) (localInterleaving x) (peerInterleaving x) (peerForwardTSN x) (peerIForwardTSN x)
             (zeroChecksum ps (sendZeroChecksum x)) (recvZeroChecksum x) (maxPayloadSize x) (maxMessageSize x)) e.

Definition updateInterleavingState (e : ep) : option aerr * ep :=
  let x := ext e in
  let use := localInterleaving x && peerInterleaving x in
  let '(err, e) :=
    if eqb use (useInterleaving x) then (None, e)
    else
      let (err, q) := PendingSpec.setInterleaving (pendingQueue (sender e)) use in
      let e := on_sender (fun a => set_queues (inflightQueue a) q a) e in
      match err with
      | Some r => (Some (PendingErr r), e)
      | None =>
          (None, set_ext (set_use use (mtu (sender e) -32 (commonHeaderSize +
                            (if use then iDataChunkHeaderSize else dataChunkHeaderSize))) x) e)
      end in
  match err with
  | Some r => (Some r, e)
  | None =>
      (None, on_sender (if use then set_prsctp false (peerIForwardTSN x && localInterleaving x)
                        else set_prsctp (peerForwardTSN x) false) e)
  end.

Definition establish (e : ep) : option aerr * ep :=
  let (err, e) := updateInterleavingState e in
  match err with Some r => (Some r, e) | None => (None, setState established e) end.

(** ** Opening *)

Definition set_ports (src dst : Z) (h : handshake) : handshake :=
  mkHS (peerVerificationTag h) (myVerificationTag h) src dst (myMaxNumInboundStreams h) (myMaxNumOutboundStreams h)
    (myCookie h) (storedInit h) (storedCookieEcho h) (t1Init h) (t1Cookie h).

Definition set_cookie (c : option (list Z)) (h : handshake) : handshake :=
  mkHS (peerVerificationTag h) (myVerificationTag h) (srcPort h) (dstPort h) (myMaxNumInboundStreams h)
    (myMaxNumOutboundStreams h) c (storedInit h) (storedCookieEcho h) (t1Init h) (t1Cookie h).

(** The stored chunks and the timers that send them again. *)
Definition set_stored (i : option chunkInitCommon) (c : option (list Z)) (ti tc : rtxTimer) (h : handshake) : handshake :=
  mkHS (peerVerificationTag h) (myVerificationTag h) (srcPort h) (dstPort h) (myMaxNumInboundStreams h)
    (myMaxNumOutboundStreams h) (myCookie h) i c ti tc.

Definition control_push (p : packet) (e : ep) : ep := awake_ (set_control (WindowedMin.push (control e) p) e).

Definition sendInit (e : ep) : option aerr * ep :=
  match storedInit (hs e) with
  | None => (Some ErrInitNotStoredToSend, e)
  | Some i =>
      let e := set_hs (set_ports defaultSCTPSrcDstPort defaultSCTPSrcDstPort (hs e)) e in
      (None, control_push (mkPacket (srcPort (hs e)) (dstPort (hs e)) 0 [new_chunk (chunkInit i)]) e)
  end.

Definition sendCookieEcho (e : ep) : option aerr * ep :=
  match storedCookieEcho (hs e) with
  | None => (Some ErrCookieEchoNotStoredToSend, e)
  | Some c => (None, control_push (createPacket e [new_chunk (chunkCookieEcho c)]) e)
  end.

Definition initClient (e : ep) : ep :=
  let h := hs e in
  let i := mkInitCommon (myVerificationTag h) (maxReceiveBufferSize (rx e)) (myMaxNumOutboundStreams h)
             (myMaxNumInboundStreams h) (myNextTSN (sender e))
             (extensionsParam (localInterleaving (ext e)) :: zeroChecksumParams (recvZeroChecksum (ext e))) [] in
  let e := set_hs (set_stored (Some i) (storedCookieEcho h) (t1Init h) (t1Cookie h) h) e in
  let e := (sendInit e).2 in
  let e := setState cookieWait e in
  let h := hs e in
  set_hs (set_stored (storedInit h) (storedCookieEcho h) (start (t1Init h) (getRTO (rtoMgr (sender e)))).2 (t1Cookie h) h) e.

(** What an INIT or INIT ACK says of the peer: the numbers of streams, the tag. *)
Definition set_peer (i : chunkInitCommon) (h : handshake) : handshake :=
  mkHS (initiateTag i) (myVerificationTag h) (srcPort h) (dstPort h)
    (Z.min (numInboundStreams i) (myMaxNumInboundStreams h)) (Z.min (numOutboundStreams i) (myMaxNumOutboundStreams h))
    (myCookie h) (storedInit h) (storedCookieEcho h) (t1Init h) (t1Cookie h).

(** [cookie]: the result of [newRandomStateCookie]. *)
Definition handleInit (cookie : option (list Z)) (pkt : packet) (i : chunkInitCommon) (e : ep) : (list packet + aerr) * ep :=
  let st := getState e in
  if negb (bool_decide (st = closed) || bool_decide (st = cookieWait) || bool_decide (st = cookieEchoed)) then
    (inr (ErrHandleInitState st), e)
  else
    let e := set_hs (set_ports (destinationPort pkt) (sourcePort pkt) (set_peer i (hs e))) e in
    let e := set_queue (RecvQueue.init (rxQueue (rx e)) (initialTSN i -32 1)) e in
    let e := on_sender (setRWND (advertisedReceiverWindowCredit i)) e in
    let e := setPeerSupportedExtensions (getSupportedExtensions (params i)) e in
    let e := setSendZeroChecksum (params i) e in
    let (err, e) := updateInterleavingState e in
    match err with
    | Some r => (inr r, e)
    | None =>
        match (match myCookie (hs e) with Some c => Some c | None => cookie end) with
        | None => (inr RandErr, e)
        | Some c =>
            let e := set_hs (set_cookie (Some c) (hs e)) e in
            let h := hs e in
            let ack := mkInitCommon (myVerificationTag h) (maxReceiveBufferSize (rx e)) (myMaxNumOutboundStreams h)
                         (myMaxNumInboundStreams h) (myNextTSN (sender e))
                         (new_param (paramStateCookie c) :: zeroChecksumParams (recvZeroChecksum (ext e))
                            ++ [extensionsParam (localInterleaving (ext e))]) [] in
            (inl [createPacket e [new_chunk (chunkInitAck ack)]], e)
        end
    end.

Definition handleInitAck (pkt : packet) (i : chunkInitCommon) (e : ep) : option aerr * ep :=
  if negb (bool_decide (getState e = cookieWait)) then (None, e)
  else
    let e := set_hs (set_peer i (hs e)) e in
    let e := set_queue (RecvQueue.init (rxQueue (rx e)) (initialTSN i -32 1)) e in
    if negb (srcPort (hs e) =? destinationPort pkt) || negb (dstPort (hs e) =? sourcePort pkt) then (None, e)
    else
      let e := on_sender (setRWND (advertisedReceiverWindowCredit i)) e in
      let e := on_sender (fun a => let c := cc a in
                 set_recovery (rwnd c) (partialBytesAcked c) (inFastRecovery c) (fastRecoverExitPoint c) a) e in
      let h := hs e in
      let e := set_hs (set_stored None (storedCookieEcho h) (stop (t1Init h)) (t1Cookie h) h) e in
      let e := setPeerSupportedExtensions (getSupportedExtensions (params i)) e in
      let e := setSendZeroChecksum (params i) e in
      let (err, e) := updateInterleavingState e in
      match err with
      | Some r => (Some r, e)
      | None =>
          match cookieParam (params i) with
          | None => (Some ErrInitAckNoCookie, e)
          | Some c =>
              let h := hs e in
              let e := set_hs (set_stored (storedInit h) (Some c) (t1Init h) (t1Cookie h) h) e in
              let e := (sendCookieEcho e).2 in
              let h := hs e in
              let e := set_hs (set_stored (storedInit h) (storedCookieEcho h) (t1Init h)
                                 (start (t1Cookie h) (getRTO (rtoMgr (sender e)))).2 h) e in
              (None, setState cookieEchoed e)
          end
      end.

(** [select] on [handshakeCompletedCh] and the channels that are closed with the
    association; [pick] decides when both are ready.  [None]: it waits for
    ever. *)
Definition completeHandshake (pick : bool) (r : option aerr) (e : ep) : option (bool * ep) :=
  let f := fin e in
  let sent := (true, set_fin (mkEnd (willSendShutdownComplete f) (willSendAbort f) (willSendAbortCause f) (t2Shutdown f)
                                (closedCh f) false (Some r)) e) in
  match waiter f, closedCh f with
  | true, false => Some sent
  | false, true => Some (false, e)
  | true, true => Some (if pick then sent else (false, e))
  | false, false => None
  end.

Definition drop_stored (e : ep) : ep :=
  let h := hs e in set_hs (set_stored None None (stop (t1Init h)) (stop (t1Cookie h)) h) e.

Definition handleCookieEcho (pick : bool) (cookie : list Z) (e : ep) : option (list packet * ep) :=
  match myCookie (hs e) with
  | None => Some ([], e)
  | Some c =>
      let ack e := Some ([createPacket e [new_chunk chunkCookieAck]], e) in
      match getState e with
      | established => if negb (bool_decide (c = cookie)) then Some ([], e) else ack e
      | closed | cookieWait | cookieEchoed =>
          if negb (bool_decide (c = cookie)) then Some ([], e)
          else
            let (err, e) := establish (drop_stored e) in
            match err with
            | Some r => '(_, e) ← completeHandshake pick (Some r) e; Some ([], e)
            | None =>
                '(ok, e) ← completeHandshake pick None e;
                if ok : bool then ack e else Some ([], e)
            end
      | _ => Some ([], e)
      end
  end.

Definition handleCookieAck (pick : bool) (e : ep) : option ep :=
  if negb (bool_decide (getState e = cookieEchoed)) then Some e
  else
    let h := hs e in
    let e := set_hs (set_stored (storedInit h) None (t1Init h) (stop (t1Cookie h)) h) e in
    let (err, e) := establish e in
    snd <$> completeHandshake pick err e.

(** ** Heartbeats *)

Definition handleHeartbeat (ps : list param) (e : ep) : list packet :=
  match ps with
  | mkParam _ (paramHeartbeatInfo info) :: _ =>
      [createPacket e [new_chunk (chunkHeartbeatAck [new_param (paramHeartbeatInfo info)])]]
  | _ => []
  end.

(** [now] is the time in nanoseconds since 1970. *)
Definition handleHeartbeatAck (now : Z) (ps : list param) (e : ep) : ep :=
  match ps with
  | mkParam _ (paramHeartbeatInfo info) :: _ =>
      if zlen info =? 8 then
        let ns := fold_left (fun z b => z * 256 + b) info 0 in
        if 2 ^ 63 - 1 <? ns then e
        else if ns <=? now then
          on_sender (fun a =>
            let (s, m) := setNewRTT (rtoMgr a) (milliseconds (now - ns)) in
            push_rtt now (now - ns) (set_timing m (t3RTX a) s a)) e
        else e
      else e
  | _ => e
  end.

Definition sendActiveHeartbeatLocked (now : Z) (e : ep) : ep :=
  let info := new_param (paramHeartbeatInfo (put32 (u64 now / 2 ^ 32) ++ put32 (u64 now mod 2 ^ 32))) in
  control_push (createPacket e [mkChunk (mkChunkHeader ctHeartbeat 0 []) (chunkHeartbeat [info])]) e.

Definition ActiveHeartbeat (now : Z) (e : ep) : ep :=
  if bool_decide (getState e = established) then sendActiveHeartbeatLocked now e else e.

(** ** Ending *)

Definition closeAllTimers (e : ep) : ep :=
  let h := hs e in
  let e := set_hs (set_stored (storedInit h) (storedCookieEcho h) (close (t1Init h)) (close (t1Cookie h)) h) e in
  let e := set_t2 (close (t2Shutdown (fin e))) (willSendShutdownComplete (fin e)) e in
  let e := on_sender (fun a => set_timing (rtoMgr a) (close (t3RTX a)) (srtt_ a) a) e in
  let e := set_reconfigs (reconfigs (rc e)) (close (tReconfig (rc e))) e in
  let e := set_ack (ackState (rx e)) (ack_close (ackTmr (rx e))) e in
  on_sender (fun a => stopPTOTimer (stopRackTimer a)) e.

Definition set_closed (e : ep) : ep :=
  let f := fin e in
  set_fin (mkEnd (willSendShutdownComplete f) (willSendAbort f) (willSendAbortCause f) (t2Shutdown f) true (waiter f) (outcome f)) e.

Definition close_ (e : ep) : ep := set_closed (closeAllTimers (setState closed e)).

(** The end of the read loop: the streams learn of the error. *)
Definition readLoopExit (err : serr) (e : ep) : ep :=
  let e := setState closed (set_closed e) in
  let e := fold_left (fun e si => unregisterStream si err e) (map fst (map_to_list (streams e))) e in
  if blockWrite (sender e) then on_sender (set_writePending false) e else e.

(** The part of [Shutdown] before it waits. *)
Definition Shutdown (e : ep) : option aerr * ep :=
  if negb (bool_decide (getState e = established)) then (Some ErrShutdownNonEstablished, e)
  else
    let e := setState shutdownPending e in
    (None,
     if PayloadQueue.size (inflightQueue (sender e)) =? 0 then
       setState shutdownSent (awake_ (on_sender (fun a => set_shutdown true (willSendShutdownAck (plan a)) a) e))
     else e).

(** The part of [Abort] before it waits. *)
Definition Abort_ (reason : list Z) (e : ep) : ep :=
  awake_ (set_abort true (Some (mkCause (mkCauseHeader 0 0 []) (errorCauseUserInitiatedAbort reason))) e).

Definition sendShutdownAck (e : ep) : ep :=
  awake_ (setState shutdownAckSent (on_sender (fun a => set_shutdown (willSendShutdown (plan a)) true a) e)).

Definition handleShutdown (e : ep) : ep :=
  match getState e with
  | established =>
      if 0 <? PayloadQueue.size (inflightQueue (sender e)) then setState shutdownReceived e else sendShutdownAck e
  | shutdownSent => sendShutdownAck e
  | _ => e
  end.

Definition handleShutdownAck (e : ep) : ep :=
  match getState e with
  | shutdownSent | shutdownAckSent => awake_ (set_t2 (stop (t2Shutdown (fin e))) true e)
  | _ => e
  end.

Definition handleShutdownComplete (e : ep) : ep :=
  match getState e with
  | shutdownAckSent => close_ (set_t2 (stop (t2Shutdown (fin e))) (willSendShutdownComplete (fin e)) e)
  | _ => e
  end.

Definition handleAbort (e : ep) : aerr * ep := (ErrChunk, close_ e).

(** ** Timers *)

Inductive timerId := timerT1Init | timerT1Cookie | timerT2Shutdown | timerT3RTX | timerReconfig.

Definition set_retransmitReconfig (a : @association S Q) : @association S Q :=
  let p := plan a in
  awakeWriteLoop (set_plan (mkPlans (willSendForwardTSN p) (willRetransmitFast p) true (willSendShutdown p)
                              (willSendShutdownAck p) (awake p)) a).

Definition onRetransmissionTimeout (id : timerId) (e : ep) : option ep :=
  match id with
  | timerT1Init => Some (sendInit e).2
  | timerT1Cookie => Some (sendCookieEcho e).2
  | timerT2Shutdown =>
      Some match getState e with
           | shutdownSent => awake_ (on_sender (fun a => set_shutdown true (willSendShutdownAck (plan a)) a) e)
           | shutdownAckSent => awake_ (on_sender (fun a => set_shutdown (willSendShutdown (plan a)) true a) e)
           | _ => e
           end
  | timerT3RTX => a ← onT3Timeout (sender e); Some (on_sender (fun _ => a) e)
  | timerReconfig => Some (on_sender set_retransmitReconfig e)
  end.

Definition onRetransmissionFailure (pick : bool) (id : timerId) (e : ep) : option ep :=
  match id with
  | timerT1Init => snd <$> completeHandshake pick (Some ErrHandshakeInitAck) e
  | timerT1Cookie => snd <$> completeHandshake pick (Some ErrHandshakeCookieEcho) e
  | _ => Some e
  end.

(** The deadline that [timerLoop] waits for, 0 for none. *)
Definition nextDeadline (a : @association S Q) : Z :=
  let r := rackDeadline (rack a) in
  let p := ptoDeadline (rack a) in
  if r =? 0 then p else if p =? 0 then r else if r <? p then r else p.

Definition onRackTimeout (now : Z) (e : ep) : option ep :=
  a ← onRackTimeoutLocked now (sender e); Some (on_sender (fun _ => a) e).

(** Sack.v's [onPTOTimerLocked] says whether a HEARTBEAT is to be sent. *)
Definition onPTOTimer (now : Z) (e : ep) : option ep :=
  '(hb, a) ← onPTOTimerLocked now (sender e);
  let e := on_sender (fun _ => a) e in
  Some (if hb : bool then sendActiveHeartbeatLocked now e else e).

(** [timerLoop] when its timer fires: the deadlines that are due are cleared,
    then handled. *)
Definition timerFires (now : Z) (e : ep) : option ep :=
  let r := rack (sender e) in
  let fireRack := negb (rackDeadline r =? 0) && (rackDeadline r <=? now) in
  let firePTO := negb (ptoDeadline r =? 0) && (ptoDeadline r <=? now) in
  let e := on_sender (set_deadlines (if fireRack then 0 else rackDeadline r) (if firePTO then 0 else ptoDeadline r)) e in
  e ← (if fireRack then onRackTimeout now e else Some e);
  if firePTO then onPTOTimer now e else Some e.

(** ** Packets *)

Definition checkPacket (p : packet) : option aerr :=
  if sourcePort p =? 0 then Some ErrSCTPPacketSourcePortZero
  else if destinationPort p =? 0 then Some ErrSCTPPacketDestinationPortZero
  else if existsb (fun c => match k_body c with chunkInit _ => true | _ => false end) (Packet.chunks p) then
    if negb (zlen (Packet.chunks p) =? 1) then Some ErrInitChunkBundled
    else if negb (verificationTag p =? 0) then Some ErrInitChunkVerifyTagNotZero
    else None
  else None.

Definition check (c : chunk) : bool * option err :=
  match k_body c with
  | chunkInit i => chunkInit_check i
  | chunkInitAck i => chunkInitAck_check i
  | chunkIForwardTSN _ ss => chunkIForwardTSN_check ss
  | chunkForwardTSN _ _ | chunkReconfig _ _ => (true, None)
  | _ => (false, None)
  end.

Definition shouldAbortOnChunkValidationError (c : chunk) : bool :=
  match k_body c with chunkInit _ | chunkInitAck _ | chunkCookieEcho _ => false | _ => true end.

(** What a handler takes from outside: the time, a fresh cookie, the choice of a
    [select], the order in which the reset requests are visited, and the text of
    an error. *)
Record oracle := mkOracle {
  clock : Z;
  randomCookie : option (list Z);
  choice : bool;
  requestOrder : gmap Z resetRequest -> list Z;
  errorText : err -> list Z
}.

(** The handler of a chunk: the packets to send back, or the error. *)
Definition dispatch (o : oracle) (pkt : packet) (c : chunk) (e : ep) : option ((list packet + aerr) * ep) :=
  let ok '(ps, e) := Some (inl ps, e) in
  match k_body c with
  | chunkInit i => Some (handleInit (randomCookie o) pkt i e)
  | chunkInitAck i => let (r, e) := handleInitAck pkt i e in Some (match r with Some x => inr x | None => inl [] end, e)
  | chunkAbort _ => let (r, e) := handleAbort e in Some (inr r, e)
  | chunkError _ => Some (inl [], e)
  | chunkHeartbeat ps => Some (inl (handleHeartbeat ps e), e)
  | chunkHeartbeatAck ps => Some (inl [], handleHeartbeatAck (clock o) ps e)
  | chunkCookieEcho k => r ← handleCookieEcho (choice o) k e; ok r
  | chunkCookieAck => e ← handleCookieAck (choice o) e; Some (inl [], e)
  | chunkPayloadData d => r ← handleData (requestOrder o) (isIDataChunk c d) d e; ok r
  | chunkSelectiveAck cum a_rwnd gaps dups =>
      '(r, a) ← handleSack (clock o) cum a_rwnd gaps dups (sender e);
      Some (match r with inl _ => inl [] | inr x => inr (SenderErr x) end, on_sender (fun _ => a) e)
  | chunkReconfig pa pb => Some (handleReconfig pa pb e)
  | chunkForwardTSN cum ss => r ← handleForwardTSN (requestOrder o) cum ss e; ok r
  | chunkIForwardTSN cum ss => r ← handleIForwardTSN (requestOrder o) cum ss e; ok r
  | chunkShutdown _ => Some (inl [], handleShutdown e)
  | chunkShutdownAck => Some (inl [], handleShutdownAck e)
  | chunkShutdownComplete => Some (inl [], handleShutdownComplete e)
  end.

(** The error is returned for an ABORT, which ends the read loop, and logged
    otherwise. *)
Definition handleChunk (o : oracle) (pkt : packet) (c : chunk) (e : ep) : option (option aerr * ep) :=
  match check c with
  | (abort, Some x) =>
      Some (None, if abort && shouldAbortOnChunkValidationError c then abortProtocolViolation (errorText o x) e else e)
  | (_, None) =>
      '(r, e) ← dispatch o pkt c e;
      match r with
      | inr x => Some (match k_body c with chunkAbort _ => Some x | _ => None end, e)
      | inl [] => Some (None, e)
      | inl ps => Some (None, awake_ (set_control (WindowedMin.pushAll (control e) ps) e))
      end
  end.

Fixpoint handleChunks (o : oracle) (pkt : packet) (cs : list chunk) (e : ep) : option (option aerr * ep) :=
  match cs with
  | [] => Some (None, handleChunksEnd e)
  | c :: cs' =>
      '(r, e) ← handleChunk o pkt c e;
      match r with Some x => Some (Some x, e) | None => handleChunks o pkt cs' e end
  end.

(** A packet that is not well formed is ignored. *)
Definition handlePacket (o : oracle) (pkt : packet) (e : ep) : option (option aerr * ep) :=
  match checkPacket pkt with
  | Some _ => Some (None, e)
  | None => handleChunks o pkt (Packet.chunks pkt) (handleChunksStart e)
  end.

Definition handleInbound (o : oracle) (raw : list Z) (e : ep) : option (option aerr * ep) :=
  match packet_unmarshal (negb (recvZeroChecksum (ext e))) raw with
  | Ok pkt => handlePacket o pkt e
  | Err _ => Some (None, e)
  | Panic | OutOfFuel => None
  end.

End Handshake.
