(* ===== verification/Outbound.v ===== *)
(** * The write loop (association.go, [gatherOutbound] and [writeLoop])

    What the association puts on the wire when the write loop is woken: queued
    control packets, retransmissions, new data and stream resets, fast
    retransmissions, acknowledgements, FORWARD TSN, and the chunks of the
    shutdown sequence or an ABORT.  A packet that cannot be encoded is left out;
    [None] is a panic of the encoder. *)

From S2P Require Import Prelude.
From S2P Require Import Serial.
From S2P Require Import Float64.
From S2P Require Import Bytes.
From S2P Require Import Params.
From S2P Require Import Causes.
From S2P Require Import Chunks.
From S2P Require Import Packet.
From S2P Require Import RingQueue.
From S2P Require Import PayloadQueue.
From S2P Require Import RecvQueue.
From S2P Require Import WindowedMin.
From S2P Require Import PendingQueue.
From S2P Require Import PendingSpec.
From S2P Require Import Reassembly.
From S2P Require Import Stream.
From S2P Require Import Timers.
From S2P Require Import Sender.
From S2P Require Import Sack.
From S2P Require Import Endpoint.
From S2P Require Import Receive.
From S2P Require Import Handshake.

Local Open Scope Z_scope.
Local Open Scope go_scope.

Definition chunkMandatoryChecksum (cs : list chunk) : bool :=
  existsb (fun c => match k_body c with chunkInit _ | chunkCookieEcho _ => true | _ => false end) cs.

Section Outbound.
Context {S : Type} `{SS : StreamScheduler S} {Q : Type} `{QI : QueueImpl loc Q}.

Abbreviation ep := (@endpoint S Q).

Definition marshalPacket (e : ep) (p : packet) : res (list Z) :=
  packet_marshal p (negb (sendZeroChecksum (ext e)) || chunkMandatoryChecksum (Packet.chunks p)).

(** Appends the bytes of a packet; whether it could be encoded. *)
Definition emit (e : ep) (raws : list (list Z)) (p : packet) : option (bool * list (list Z)) :=
  match marshalPacket e p with
  | Ok raw => Some (true, raws ++ [raw])
  | Err _ => Some (false, raws)
  | Panic | OutOfFuel => None
  end.

Fixpoint emitAll (e : ep) (raws : list (list Z)) (ps : list packet) : option (list (list Z)) :=
  match ps with
  | [] => Some raws
  | p :: ps' => '(_, raws) ← emit e raws p; emitAll e raws ps'
  end.

(** A packet of DATA chunks, as they are in the store. *)
Definition dataPacket (e : ep) (ps : list loc) : packet :=
  createPacket e (map (fun p => match heap (sender e) !! p with
                                | Some c => mkChunk (hdr c) (chunkPayloadData (wire c))
                                | None => new_chunk (chunkPayloadData (wire_at ∅ p))
                                end) ps).

Definition gatherDataPacketsToRetransmit (now : Z) (budget : Z * bool) (raws : list (list Z)) (e : ep)
  : option (list (list Z) * (Z * bool) * ep) :=
  '(packets, budget, a) ← getDataPacketsToRetransmit now budget (sender e);
  let e := on_sender (fun _ => a) e in
  raws ← emitAll e raws (map (dataPacket e) packets); Some (raws, budget, e).

(** The orders in which maps are read: the streams of the pending queue, the
    stored RE-CONFIG chunks and the streams of a FORWARD TSN. *)
Record orders := mkOrders {
  pendingOrder : @PendingSpec.pendingQueue S -> list Z;
  reconfigOrder : gmap Z chunk -> list chunk;
  streamOrder : gmap Z Z -> list (Z * Z)
}.

Definition gatherOutboundDataAndReconfigPackets (fuel : nat) (o : orders) (now : Z) (budget : Z * bool)
    (raws : list (list Z)) (e : ep) : option (list (list Z) * (Z * bool) * ep) :=
  '(packets, sis, budget, a) ← gatherOutboundData fuel (pendingOrder o) now budget (sender e);
  let e := on_sender (fun _ => a) e in
  raws ← emitAll e raws (map (dataPacket e) packets);
  let (ps, e) := gatherReconfig (reconfigOrder o) sis e in
  raws ← emitAll e raws ps; Some (raws, budget, e).

Definition gatherFastRetransmission (now : Z) (budget : Z * bool) (raws : list (list Z)) (e : ep)
  : option (list (list Z) * (Z * bool) * ep) :=
  '(packets, budget, a) ← gatherOutboundFastRetransmissionPackets now budget (sender e);
  let e := on_sender (fun _ => a) e in
  raws ← emitAll e raws (map (dataPacket e) packets); Some (raws, budget, e).

Definition gatherOutboundSackPackets (raws : list (list Z)) (e : ep) : option (list (list Z) * ep) :=
  if negb (bool_decide (ackState (rx e) = ackStateImmediate)) then Some (raws, e)
  else
    '(sack, e) ← createSelectiveAckChunk (set_ack ackStateIdle (ackTmr (rx e)) e);
    '(_, raws) ← emit e raws (createPacket e [sack]); Some (raws, e).

Definition gatherOutboundForwardTSNPackets (order : gmap Z Z -> list (Z * Z)) (raws : list (list Z)) (e : ep)
  : option (list (list Z) * ep) :=
  let a := sender e in
  if negb (willSendForwardTSN (plan a)) then Some (raws, e)
  else
    let e := on_sender (set_forward false) e in
    if negb (sna32GT (advancedPeerTSNAckPoint a) (cumulativeTSNAckPoint a)) then Some (raws, e)
    else
      fwdtsn ← (if useIForwardTSN a then Some <$> createIForwardTSN order a
                else if useForwardTSN a then Some <$> createForwardTSN order a else Some None);
      match fwdtsn with
      | None => Some (raws, e)
      | Some c => '(_, raws) ← emit e raws (createPacket e [c]); Some (raws, e)
      end.

Definition startT2 (ok : bool) (e : ep) : ep :=
  if ok then set_t2 (start (t2Shutdown (fin e)) (getRTO (rtoMgr (sender e)))).2 (willSendShutdownComplete (fin e)) e else e.

(** [false]: the association closes after this. *)
Definition gatherOutboundShutdownPackets (raws : list (list Z)) (e : ep) : option (list (list Z) * bool * ep) :=
  let p := plan (sender e) in
  if willSendShutdown p then
    let e := on_sender (set_shutdown false (willSendShutdownAck p)) e in
    '(ok, raws) ← emit e raws (createPacket e [new_chunk (chunkShutdown (cumulativeTSNAckPoint (sender e)))]);
    Some (raws, true, startT2 ok e)
  else if willSendShutdownAck p then
    let e := on_sender (set_shutdown (willSendShutdown p) false) e in
    '(ok, raws) ← emit e raws (createPacket e [new_chunk chunkShutdownAck]);
    Some (raws, true, startT2 ok e)
  else if willSendShutdownComplete (fin e) then
    let e := set_t2 (t2Shutdown (fin e)) false e in
    '(ok, raws) ← emit e raws (createPacket e [new_chunk chunkShutdownComplete]);
    Some (raws, negb ok, e)
  else Some (raws, true, e).

Definition gatherAbortPacket (e : ep) : res (list Z) * ep :=
  let c := new_chunk (chunkAbort (option_list (willSendAbortCause (fin e)))) in
  let e := set_abort false None e in
  (marshalPacket e (createPacket e [c]), e).

(** The control packets that are queued. *)
Definition gatherControl (e : ep) : option (list (list Z) * ep) :=
  let (ps, c) := WindowedMin.popAll (control e) in
  let e := set_control c e in
  raws ← emitAll e [] ps; Some (raws, e).

Definition gatherOutbound (fuel : nat) (o : orders) (now : Z) (e : ep) : option (list (list Z) * bool * ep) :=
  if willSendAbort (fin e) then
    let (r, e) := gatherAbortPacket e in
    match r with Ok raw => Some ([raw], false, e) | Err _ => Some ([], false, e) | _ => None end
  else
    '(raws, e) ← gatherControl e;
    match getState e with
    | established =>
        '(budget, a) ← tlrCurrentBurstBudgetScaledLocked now (sender e);
        '(raws, b, e) ← gatherDataPacketsToRetransmit now (budget, false) raws (on_sender (fun _ => a) e);
        '(raws, b, e) ← gatherOutboundDataAndReconfigPackets fuel o now b raws e;
        '(raws, b, e) ← gatherFastRetransmission now b raws e;
        '(raws, e) ← gatherOutboundSackPackets raws e;
        '(raws, e) ← gatherOutboundForwardTSNPackets (streamOrder o) raws e;
        Some (raws, true, e)
    | shutdownPending | shutdownSent | shutdownReceived =>
        '(budget, a) ← tlrCurrentBurstBudgetScaledLocked now (sender e);
        '(raws, b, e) ← gatherDataPacketsToRetransmit now (budget, false) raws (on_sender (fun _ => a) e);
        '(raws, b, e) ← gatherFastRetransmission now b raws e;
        '(raws, e) ← gatherOutboundSackPackets raws e;
        gatherOutboundShutdownPackets raws e
    | shutdownAckSent => gatherOutboundShutdownPackets raws e
    | _ => Some (raws, true, e)
    end.

(** A turn of the write loop when every write succeeds: the packets written. *)
Definition writeTurn (fuel : nat) (o : orders) (now : Z) (e : ep) : option (list (list Z) * ep) :=
  '(raws, ok, e) ← gatherOutbound fuel o now e; Some (raws, if ok : bool then e else close_ e).

(** The end of the loop, after a failed write or when the association is closed. *)
Definition writeLoopExit (e : ep) : ep := closeAllTimers (setState closed e).

End Outbound.
