(* ===== verification/Config.v ===== *)
(** * Making an association (association.go, association_options.go,
      association_rack_options.go, association_interleaving_options.go)

    The configuration, the options that change it, and the association made
    from it; out-of-band tokens (SNAP).  A logger factory and a connection are
    only looked at for being nil.  Random numbers are arguments. *)

From S2P Require Import Prelude.
From S2P Require Import Serial.
From S2P Require Import Float64.
From S2P Require Import Bytes.
From S2P Require Import Params.
From S2P Require Import Causes.
From S2P Require Import Chunks.
From S2P Require Import Packet.
From S2P Require Import RingQueue.
From S2P Require Import PayloadQueue.
From S2P Require Import RecvQueue.
From S2P Require Import WindowedMin.
From S2P Require Import PendingQueue.
From S2P Require Import PendingSpec.
From S2P Require Import Reassembly.
From S2P Require Import Stream.
From S2P Require Import Timers.
From S2P Require Import Sender.
From S2P Require Import Sack.
From S2P Require Import Endpoint.
From S2P Require Import Receive.
From S2P Require Import Handshake.

Local Open Scope Z_scope.
Local Open Scope go_scope.

Definition initialMTU : Z := 1228.
Definition initialRecvBufSize : Z := 1024 * 1024.
Definition defaultMaxMessageSize : Z := 65536.

(** What the built-in schedulers are made from. *)
Class SchedulerFactory (S : Type) := {
  newWeightedFairQueueing : gmap Z Z -> S;
  newRoundRobin : S
}.

Inductive cerr :=
  | errNilNetConn | errNilLoggerFactory | errZeroMTUOption | errZeroMaxReceiveBufferOption | errZeroMaxMessageSize
  | errInvalidRTOMax | errInvalidRackMinRTTWnd | errInvalidRackReoWndFloor | errInvalidRackWcDelAck | errInvalidSnapToken
  | errNilStreamSchedulerOption | errInvalidStreamSchedulerWeight | SnapDecode (e : err) | SnapEstablish (e : aerr).

Record rackSettings := mkRackSettings {
  rs_rackMinRTTWnd : option windowedMin;
  rs_rackReoWndFloor : Z;
  rs_rackWCDelAck : Z
}.

Section Config.
Context {S : Type} `{SS : StreamScheduler S} `{SF : SchedulerFactory S} {Q : Type} `{QI : QueueImpl loc Q}.

(** [is_newStreamScheduler]: nil, or a function; its result may be nil. *)
Record interleavingSettings := mkInterleaving {
  is_newStreamScheduler : option (option S);
  is_wfqWeights : gmap Z Z
}.

Record Config := mkConfig {
  LoggerFactory : bool;
  Name : list Z;
  NetConn : bool;
  BlockWrite : bool;
  EnableZeroChecksum : bool;
  MTU : Z;
  MaxReceiveBufferSize : Z;
  MaxMessageSize : Z;
  RTOMax : F64.float64;
  MinCwnd : Z;
  FastRtxWnd : Z;
  CwndCAStep : Z;
  c_rack : rackSettings;
  c_interleaving : option interleavingSettings;
  c_snapConfig : option (list Z * list Z);
  enableInterleaving : bool;
  enableInterleavingSet : bool
}.

Definition zeroConfig : Config :=
  mkConfig false [] false false false 0 0 0 F64.zero 0 0 0 (mkRackSettings None 0 0) None None false false.

(** ** Interleaving *)

Definition setWeightedFairQueueingStreamScheduler (s : interleavingSettings) : interleavingSettings :=
  mkInterleaving (Some (Some (newWeightedFairQueueing (is_wfqWeights s)))) (is_wfqWeights s).

Definition cloneInterleavingSettings (s : option interleavingSettings) : interleavingSettings :=
  match s with
  | None => mkInterleaving None ∅
  | Some s => mkInterleaving (is_newStreamScheduler s) (is_wfqWeights s)
  end.

Definition interleavingOption := interleavingSettings -> interleavingSettings + cerr.

Definition WithInterleavingStreamSchedulerFactory (f : option (option S)) : interleavingOption := fun s =>
  match f with
  | None => inr errNilStreamSchedulerOption
  | Some _ => inl (mkInterleaving f (is_wfqWeights s))
  end.

Definition WithInterleavingWeightedFairQueueingScheduler : interleavingOption := fun s =>
  inl (setWeightedFairQueueingStreamScheduler s).

Definition WithInterleavingWeightedFairQueueingWeight (streamID weight : Z) : interleavingOption := fun s =>
  if weight =? 0 then inr errInvalidStreamSchedulerWeight
  else inl (setWeightedFairQueueingStreamScheduler (mkInterleaving (is_newStreamScheduler s) (<[streamID := weight]> (is_wfqWeights s)))).

Definition WithInterleavingRoundRobinScheduler : interleavingOption := fun s =>
  inl (mkInterleaving (Some (Some newRoundRobin)) (is_wfqWeights s)).

(** ** RACK *)

Definition rackOption := rackSettings -> rackSettings + cerr.

Definition WithRackMinRTTWnd (wnd : Z) : rackOption := fun r =>
  if wnd <=? 0 then inr errInvalidRackMinRTTWnd
  else inl (mkRackSettings (Some (newWindowedMin wnd)) (rs_rackReoWndFloor r) (rs_rackWCDelAck r)).

Definition WithRackReoWndFloor (floor : Z) : rackOption := fun r =>
  if floor <? 0 then inr errInvalidRackReoWndFloor else inl (mkRackSettings (rs_rackMinRTTWnd r) floor (rs_rackWCDelAck r)).

Definition WithRackWCDelAck (d : Z) : rackOption := fun r =>
  if d <=? 0 then inr errInvalidRackWcDelAck else inl (mkRackSettings (rs_rackMinRTTWnd r) (rs_rackReoWndFloor r) d).

(** Options one after the other, nil ones left out; the first error ends. *)
Fixpoint applyAll {A} (opts : list (option (A -> A + cerr))) (x : A) : A + cerr :=
  match opts with
  | [] => inl x
  | None :: opts' => applyAll opts' x
  | Some f :: opts' => match f x with inl x' => applyAll opts' x' | inr e => inr e end
  end.

(** ** Options *)

Definition option_ := Config -> Config + cerr.

Definition with_interleaving (i : option interleavingSettings) (c : Config) : Config :=
  mkConfig (LoggerFactory c) (Name c) (NetConn c) (BlockWrite c) (EnableZeroChecksum c) (MTU c) (MaxReceiveBufferSize c)
    (MaxMessageSize c) (RTOMax c) (MinCwnd c) (FastRtxWnd c) (CwndCAStep c) (c_rack c) i (c_snapConfig c)
    (enableInterleaving c) (enableInterleavingSet c).

Definition with_enable (b set : bool) (c : Config) : Config :=
  mkConfig (LoggerFactory c) (Name c) (NetConn c) (BlockWrite c) (EnableZeroChecksum c) (MTU c) (MaxReceiveBufferSize c)
    (MaxMessageSize c) (RTOMax c) (MinCwnd c) (FastRtxWnd c) (CwndCAStep c) (c_rack c) (c_interleaving c) (c_snapConfig c) b set.

(** The sizes, in this order: MTU, receive buffer, message. *)
Definition with_sizes (mtu buf msg : Z) (c : Config) : Config :=
  mkConfig (LoggerFactory c) (Name c) (NetConn c) (BlockWrite c) (EnableZeroChecksum c) mtu buf msg (RTOMax c) (MinCwnd c)
    (FastRtxWnd c) (CwndCAStep c) (c_rack c) (c_interleaving c) (c_snapConfig c) (enableInterleaving c) (enableInterleavingSet c).

(** The parameters of the congestion control: RTO.Max and the three windows. *)
Definition with_windows (rto : F64.float64) (minc fast step : Z) (c : Config) : Config :=
  mkConfig (LoggerFactory c) (Name c) (NetConn c) (BlockWrite c) (EnableZeroChecksum c) (MTU c) (MaxReceiveBufferSize c)
    (MaxMessageSize c) rto minc fast step (c_rack c) (c_interleaving c) (c_snapConfig c) (enableInterleaving c)
    (enableInterleavingSet c).

Definition with_base (logger : bool) (name : list Z) (conn block zero : bool) (c : Config) : Config :=
  mkConfig logger name conn block zero (MTU c) (MaxReceiveBufferSize c) (MaxMessageSize c) (RTOMax c) (MinCwnd c)
    (FastRtxWnd c) (CwndCAStep c) (c_rack c) (c_interleaving c) (c_snapConfig c) (enableInterleaving c) (enableInterleavingSet c).

Definition with_rack (r : rackSettings) (c : Config) : Config :=
  mkConfig (LoggerFactory c) (Name c) (NetConn c) (BlockWrite c) (EnableZeroChecksum c) (MTU c) (MaxReceiveBufferSize c)
    (MaxMessageSize c) (RTOMax c) (MinCwnd c) (FastRtxWnd c) (CwndCAStep c) r (c_interleaving c) (c_snapConfig c)
    (enableInterleaving c) (enableInterleavingSet c).

Definition with_snap (s : option (list Z * list Z)) (c : Config) : Config :=
  mkConfig (LoggerFactory c) (Name c) (NetConn c) (BlockWrite c) (EnableZeroChecksum c) (MTU c) (MaxReceiveBufferSize c)
    (MaxMessageSize c) (RTOMax c) (MinCwnd c) (FastRtxWnd c) (CwndCAStep c) (c_rack c) (c_interleaving c) s
    (enableInterleaving c) (enableInterleavingSet c).

Definition WithLoggerFactory (logger : bool) : option_ := fun c =>
  if logger then inl (with_base true (Name c) (NetConn c) (BlockWrite c) (EnableZeroChecksum c) c) else inr errNilLoggerFactory.

Definition WithName (name : list Z) : option_ := fun c =>
  inl (with_base (LoggerFactory c) name (NetConn c) (BlockWrite c) (EnableZeroChecksum c) c).

Definition WithNetConn (conn : bool) : option_ := fun c =>
  if conn then inl (with_base (LoggerFactory c) (Name c) true (BlockWrite c) (EnableZeroChecksum c) c) else inr errNilNetConn.

Definition WithBlockWrite (b : bool) : option_ := fun c =>
  inl (with_base (LoggerFactory c) (Name c) (NetConn c) b (EnableZeroChecksum c) c).

Definition WithEnableZeroChecksum (b : bool) : option_ := fun c =>
  inl (with_base (LoggerFactory c) (Name c) (NetConn c) (BlockWrite c) b c).

Definition WithEnableInterleaving (b : bool) : option_ := fun c => inl (with_enable b true c).

Definition WithMTU (size : Z) : option_ := fun c =>
  if size =? 0 then inr errZeroMTUOption else inl (with_sizes size (MaxReceiveBufferSize c) (MaxMessageSize c) c).

Definition WithMaxReceiveBufferSize (size : Z) : option_ := fun c =>
  if size =? 0 then inr errZeroMaxReceiveBufferOption else inl (with_sizes (MTU c) size (MaxMessageSize c) c).

Definition WithMaxMessageSize (size : Z) : option_ := fun c =>
  if size =? 0 then inr errZeroMaxMessageSize else inl (with_sizes (MTU c) (MaxReceiveBufferSize c) size c).

Definition WithRTOMax (rtoMax : F64.float64) : option_ := fun c =>
  if F64.le rtoMax F64.zero then inr errInvalidRTOMax else inl (with_windows rtoMax (MinCwnd c) (FastRtxWnd c) (CwndCAStep c) c).

Definition WithMinCwnd (w : Z) : option_ := fun c => inl (with_windows (RTOMax c) w (FastRtxWnd c) (CwndCAStep c) c).

Definition WithFastRtxWnd (w : Z) : option_ := fun c => inl (with_windows (RTOMax c) (MinCwnd c) w (CwndCAStep c) c).

Definition WithCwndCAStep (w : Z) : option_ := fun c => inl (with_windows (RTOMax c) (MinCwnd c) (FastRtxWnd c) w c).

Definition WithSNAP (localSctpInit remoteSctpInit : list Z) : option_ := fun c =>
  if (zlen localSctpInit =? 0) || (zlen remoteSctpInit =? 0) then inr errInvalidSnapToken
  else inl (with_snap (Some (localSctpInit, remoteSctpInit)) c).

Definition WithRACKOptions (opts : list (option rackOption)) : option_ := fun c =>
  match applyAll opts (c_rack c) with inl r => inl (with_rack r c) | inr e => inr e end.

Definition WithInterleavingOptions (opts : list (option interleavingOption)) : option_ := fun c =>
  match applyAll opts (cloneInterleavingSettings (c_interleaving c)) with
  | inl s => inl (with_interleaving (Some s) c)
  | inr e => inr e
  end.

(** ** The configuration *)

Definition orElse (x y : Z) : Z := if x =? 0 then y else x.

Definition applyDefaults (c : Config) : Config :=
  let c := with_base true (Name c) (NetConn c) (BlockWrite c) (EnableZeroChecksum c) c in
  let c := with_sizes (orElse (MTU c) initialMTU) (orElse (MaxReceiveBufferSize c) initialRecvBufSize)
             (orElse (MaxMessageSize c) defaultMaxMessageSize) c in
  let c := if enableInterleavingSet c then c else with_enable true false c in
  let i := default (mkInterleaving None ∅) (c_interleaving c) in
  with_interleaving (Some match is_newStreamScheduler i with None => setWeightedFairQueueingStreamScheduler i | Some _ => i end) c.

(** [Config] as an option: [applyServer], and [applyClient], which takes the
    tokens as well. *)
Definition applyServer (o : Config) : option_ := fun c =>
  let c := with_base (LoggerFactory o || LoggerFactory c) (if bool_decide (Name o = []) then Name c else Name o)
             (NetConn o || NetConn c) (BlockWrite o) (EnableZeroChecksum o) c in
  let c := with_sizes (orElse (MTU o) (MTU c)) (orElse (MaxReceiveBufferSize o) (MaxReceiveBufferSize c))
             (orElse (MaxMessageSize o) (MaxMessageSize c)) c in
  let c := with_windows (if F64.eq (RTOMax o) F64.zero then RTOMax c else RTOMax o) (orElse (MinCwnd o) (MinCwnd c))
             (orElse (FastRtxWnd o) (FastRtxWnd c)) (orElse (CwndCAStep o) (CwndCAStep c)) c in
  let c := with_interleaving (Some (cloneInterleavingSettings (c_interleaving o))) (with_rack (c_rack o) c) in
  inl (if enableInterleavingSet o then with_enable (enableInterleaving o) true c else c).

Definition applyClient (o : Config) : option_ := fun c =>
  let c := with_base (LoggerFactory o || LoggerFactory c) (if bool_decide (Name o = []) then Name c else Name o)
             (NetConn o || NetConn c) (BlockWrite o) (EnableZeroChecksum o) c in
  let c := with_sizes (orElse (MTU o) (MTU c)) (orElse (MaxReceiveBufferSize o) (MaxReceiveBufferSize c))
             (orElse (MaxMessageSize o) (MaxMessageSize c)) c in
  let c := with_windows (if F64.eq (RTOMax o) F64.zero then RTOMax c else RTOMax o) (orElse (MinCwnd o) (MinCwnd c))
             (orElse (FastRtxWnd o) (FastRtxWnd c)) (orElse (CwndCAStep o) (CwndCAStep c)) c in
  let c := with_interleaving (Some (cloneInterleavingSettings (c_interleaving o))) (with_rack (c_rack o) c) in
  let c := if enableInterleavingSet o then with_enable (enableInterleaving o) true c else c in
  inl (with_snap (c_snapConfig o) c).

(** [buildServerConfig], and [buildClientConfig], which is the same code. *)
Definition buildConfig (opts : list (option option_)) : Config + cerr :=
  match applyAll opts (applyDefaults zeroConfig) with
  | inr e => inr e
  | inl c => let c := applyDefaults c in if NetConn c then inl c else inr errNilNetConn
  end.

(** ** The association *)

Abbreviation ep := (@endpoint S Q).

(** [tag] is the result of [generateInitiateTag]; [waiter_] says that [Server] or
    [Client] waits for the handshake. *)
Definition createAssociationFromConfigWithTsn (cfg : Config) (tsn tag : Z) (waiter_ : bool) : ep :=
  let buf := orElse (MaxReceiveBufferSize cfg) initialRecvBufSize in
  let mtu := orElse (MTU cfg) initialMTU in
  let rtoMax := RTOMax cfg in
  let interleaving := default (setWeightedFairQueueingStreamScheduler (mkInterleaving None ∅)) (c_interleaving cfg) in
  let wnd := default (newWindowedMin (30 * second)) (rs_rackMinRTTWnd (c_rack cfg)) in
  let a := mkAssoc ∅ closed tsn tsn (tsn -32 1) (tsn -32 1) newPayloadQueue
             (newPendingQueue (is_newStreamScheduler interleaving)) mtu false false
             (mkCC 0 0 0 0 false 0 (MinCwnd cfg) (FastRtxWnd cfg) (CwndCAStep cfg)) (newRTOManager rtoMax)
             (newRTXTimer noMaxRetrans rtoMax) F64.zero
             (mkRack 0 0 0 0 false 0 [] wnd (rs_rackReoWndFloor (c_rack cfg))
                (orElse (rs_rackWCDelAck (c_rack cfg)) (200 * millisecond)) 0 0)
             (mkTLR false false false 0 tlrBurstDefaultFirstRTT tlrBurstDefaultLaterRTT 0 0)
             (mkPlans false false false false false false) ∅ (BlockWrite cfg) false in
  let a := setCWND (Z.min (u32 (4 * mtu)) (Z.max (u32 (2 * mtu)) 4380)) a in
  mkEP a
    (mkHS 0 tag 0 0 65535 65535 None None None (newRTXTimer maxInitRetrans rtoMax) (newRTXTimer maxInitRetrans rtoMax))
    (mkExt false (enableInterleaving cfg) false false false false (EnableZeroChecksum cfg)
       (mtu -32 (commonHeaderSize + dataChunkHeaderSize)) (orElse (MaxMessageSize cfg) defaultMaxMessageSize))
    (mkRx (newReceivePayloadQueue (getMaxTSNOffset buf)) buf ackStateIdle ackModeNormal newAckTimer false false [] [])
    (mkRc tsn ∅ ∅ (newRTXTimer noMaxRetrans rtoMax))
    (mkEnd false false None (newRTXTimer noMaxRetrans rtoMax) false waiter_ None)
    WindowedMin.newControlQueue.

(** ** Out-of-band tokens *)

Definition set_local (b : bool) (e : ep) : ep :=
  let x := ext e in
  set_ext (mkExt (useInterleaving x) b (peerInterleaving x) (peerForwardTSN x) (peerIForwardTSN x) (sendZeroChecksum x)
             (recvZeroChecksum x) (maxPayloadSize x) (maxMessageSize x)) e.

Definition initWithOutOfBandTokens (localInit remoteInit : chunkInitCommon) (e : ep) : option aerr * ep :=
  let e := set_queue (RecvQueue.init (rxQueue (rx e)) (initialTSN remoteInit -32 1)) e in
  let h := hs e in
  let e := on_sender (setRWND (advertisedReceiverWindowCredit remoteInit)) e in
  let e := set_hs (mkHS (initiateTag remoteInit) (myVerificationTag h) defaultSCTPSrcDstPort defaultSCTPSrcDstPort
                     (Z.min (numInboundStreams localInit) (numInboundStreams remoteInit))
                     (Z.min (numOutboundStreams localInit) (numOutboundStreams remoteInit))
                     (myCookie h) (storedInit h) (storedCookieEcho h) (t1Init h) (t1Cookie h)) e in
  let e := set_local (interleaving (getSupportedExtensions (params localInit))) e in
  let e := setPeerSupportedExtensions (getSupportedExtensions (params remoteInit)) e in
  let e := setSendZeroChecksum (params remoteInit) e in
  let e := on_sender (fun a => let c := cc a in
             set_recovery (rwnd c) (partialBytesAcked c) (inFastRecovery c) (fastRecoverExitPoint c) a) e in
  establish e.

(** The body of a decoded INIT. *)
Definition init_of (raw : list Z) : res chunkInitCommon :=
  match chunkInit_unmarshal raw with
  | Ok (mkChunk _ (chunkInit i)) => Ok i
  | Ok _ => Err ErrChunkTypeNotTypeInit
  | Err e => Err e
  | Panic => Panic
  | OutOfFuel => OutOfFuel
  end.

(** [None]: a panic of the decoder. *)
Definition createSNAPAssociation (cfg : Config) (tag : Z) : option (ep + cerr) :=
  match c_snapConfig cfg with
  | None => None
  | Some (localRaw, remoteRaw) =>
      match init_of remoteRaw with
      | Err e => Some (inr (SnapDecode e))
      | Ok remote =>
          match init_of localRaw with
          | Err e => Some (inr (SnapDecode e))
          | Ok loc =>
              let e := createAssociationFromConfigWithTsn cfg (initialTSN loc) tag false in
              let (err, e) := initWithOutOfBandTokens loc remote e in
              Some (match err with Some r => inr (SnapEstablish r) | None => inl e end)
          | _ => None
          end
      | _ => None
      end
  end.

(** The token is an encoded INIT. *)
Definition outOfBandInit (cfg : Config) (tsn tag : Z) : chunkInitCommon :=
  mkInitCommon tag (MaxReceiveBufferSize cfg) 65535 65535 tsn
    (extensionsParam (enableInterleaving cfg) :: zeroChecksumParams (EnableZeroChecksum cfg)) [].

Definition GenerateOutOfBandToken (opts : list (option option_)) (tsn tag : Z) : list Z + (cerr + err) :=
  match applyAll opts (applyDefaults zeroConfig) with
  | inr e => inr (inl e)
  | inl c =>
      let i := outOfBandInit (applyDefaults c) tsn tag in
      match (chunkInit_check i).2 with
      | Some e => inr (inr e)
      | None => inl (chunkHeader_marshal (chunkInit_marshal (mkChunkHeader 0 0 []) i))
      end
  end.

End Config.

(** ** The schedulers that a configuration names *)

Module Builtin.

Definition scheduler : Type := WFQ.weightedFairQueueingPendingQueuePolicy + RoundRobin.roundRobinPendingQueuePolicy.

#[global] Instance builtin_scheduler : StreamScheduler scheduler := {
  Reset s := match s with inl x => inl (Reset x) | inr y => inr (Reset y) end;
  Push d s c := match s with inl x => inl (Push d x c) | inr y => inr (Push d y c) end;
  Peek o s := match s with
              | inl x => '(r, x) ← Peek o x; Some (r, inl x)
              | inr y => '(r, y) ← Peek o y; Some (r, inr y)
              end;
  Pop s c := match s with
             | inl x => let (r, x) := Pop x c in (r, inl x)
             | inr y => let (r, y) := Pop y c in (r, inr y)
             end
}.

#[global] Instance factory : SchedulerFactory scheduler := {
  newWeightedFairQueueing w := inl (WFQ.newWeightedFairQueueingPendingQueuePolicy w);
  newRoundRobin := inr RoundRobin.newRoundRobinPendingQueuePolicy
}.

(** Both promise what a scheduler has to. *)
#[global] Instance builtin_laws : StreamSchedulerLaws scheduler.
Proof.
  refine {| queues s := match s with inl x => queues x | inr y => queues y end;
            sched_ok s := match s with inl x => sched_ok x | inr y => sched_ok y end;
            fits d s c := match s with inl x => fits d x c | inr y => fits d y c end |}.
  - intros [x|y]; apply ok_queues.
  - intros [x|y]; apply ok_reset.
  - intros d [x|y] c; apply ok_push.
  - intros o [x|y] Hs Ho; destruct (ok_peek o _ Hs Ho) as (r & s' & E & Hs' & Hq & Hr); cbn [Peek builtin_scheduler];
      rewrite E; cbn; eexists r, _; (split; [reflexivity|]); cbn; (split; [done|]); (split; [done|]);
      (destruct r as [c|]; [|done]); destruct Hr as (i & l & H1 & H2 & s'' & H3 & H4 & H5); exists i, l;
      (split; [done|]); (split; [intros o'; specialize (H2 o'); cbn in H2; rewrite H2; done|]);
      [exists (inl s'')|exists (inr s'')]; cbn in H3; rewrite H3; done.
Qed.

End Builtin.
