(* ===== verification/ReceiveSpec.v ===== *)
(** * What the receiving half does

    Each TSN is handed to a stream once, what is acknowledged is what was handed
    over or given up by the peer, and acknowledgements are sent in time. *)

From S2P Require Import Prelude.
From S2P Require Import Serial.
From S2P Require Import Float64.
From S2P Require Import Bytes.
From S2P Require Import Params.
From S2P Require Import Causes.
From S2P Require Import Chunks.
From S2P Require Import Packet.
From S2P Require Import RingQueue.
From S2P Require Import PayloadQueue.
From S2P Require Import RecvQueue.
From S2P Require Import WindowedMin.
From S2P Require Import PendingQueue.
From S2P Require Import PendingSpec.
From S2P Require Import Reassembly.
From S2P Require Import Stream.
From S2P Require Import Timers.
From S2P Require Import Sender.
From S2P Require Import Sack.
From S2P Require Import Endpoint.
From S2P Require Import Receive.
From S2P Require Import Handshake.
From S2P Require Import Outbound.
From S2P Require Import Config.

Local Open Scope Z_scope.
Local Open Scope go_scope.

(** ** The received TSNs *)

(** The window stays clear of the 2^32 wrap while it is passed once. *)
Definition calm (q : receivePayloadQueue) : Prop :=
  cumulativeTSN q + 2 * window q < 2 ^ 32 \/ (window q | 2 ^ 32).

Lemma calm_aligned q : recv_ok q -> calm q -> aligned q.
Proof. intros Hok [H|H]; [left|by right]. pose proof (window_pos q Hok). lia. Qed.

(** [q'] is [q] after [n] TSNs in a row were popped. *)
Record popped (q : receivePayloadQueue) (n : Z) (q' : receivePayloadQueue) : Prop := {
  po_ok : recv_ok q';
  po_window : window q' = window q;
  po_dups : dupTSN q' = dupTSN q;
  po_range : 0 <= n <= window q;
  po_cum : cumulativeTSN q' = cumulativeTSN q +32 n;
  po_run : forall o, 1 <= o <= n -> cumulativeTSN q +32 o ∈ received q;
  po_received : forall x, x ∈ received q' <-> x ∈ received q /\ n < dist32 (cumulativeTSN q) x
}.

Lemma received_dist q x : recv_ok q -> x ∈ received q -> in_u 32 x /\ 1 <= dist32 (cumulativeTSN q) x <= window q.
Proof. intros Hok [Hx Ho]%(received_spec q x Hok). apply offsets_spec in Ho. tauto. Qed.

Lemma popped_refl q : recv_ok q -> popped q 0 q.
Proof.
  intros Hok. pose proof (window_pos q Hok) as Hw. pose proof (r_cum _ Hok) as Hc. constructor; try done; try lia.
  - go_lia.
  - intros x. split; [|tauto]. intros Hx. split; [done|]. apply received_dist in Hx; [lia|done].
Qed.

(** One more. *)
Lemma popped_next q n q1 q2 :
  recv_ok q -> popped q n q1 -> aligned q1 -> RecvQueue.pop q1 false = (true, q2) -> popped q (n + 1) q2.
Proof.
  intros Hok [P1 P2 P3 P4 P5 P6 P7] Ha E. pose proof (window_pos q Hok) as Hw. pose proof (r_cum _ Hok) as Hc.
  pose proof (pop_spec q1 false P1 Ha) as H. rewrite E in H. destruct H as [Ht H]. cbn [orb] in H. destruct H as (H1 & H2 & H3 & H4 & H5).
  symmetry in Ht. apply bool_decide_eq_true in Ht. rewrite P5 in Ht, H2, H3.
  assert (Hn : dist32 (cumulativeTSN q) (cumulativeTSN q +32 n +32 1) = n + 1) by (unfold dist32; go_lia).
  assert (Ht' : cumulativeTSN q +32 n +32 1 = cumulativeTSN q +32 (n + 1)) by go_lia. rewrite Ht' in *.
  pose proof (proj1 (P7 _) Ht) as [Hin _]. apply received_dist in Hin as Hd; [|done]. constructor; try done; try congruence; try lia.
  - intros o Ho. destruct (decide (o = n + 1)) as [->|]; [done|]. apply P6. lia.
  - intros x. rewrite H3, list_elem_of_filter, P7. split.
    + intros (Hx & Hx1 & Hx2). split; [done|]. apply received_dist in Hx1 as Hdx; [|done].
      destruct (decide (dist32 (cumulativeTSN q) x = n + 1)) as [He|]; [|lia]. exfalso. apply Hx. rewrite <- Hn in He.
      unfold dist32 in He. destruct Hdx as [Hdx _]. go_lia.
    + intros [Hx1 Hx2]. split; [|split; [done|lia]]. intros ->. lia.
Qed.

(** Popping ends at a TSN that is missing. *)
Definition complete (q : receivePayloadQueue) : Prop := cumulativeTSN q +32 1 ∉ received q.

Section ReceiveSpec.
Context {S : Type} `{SS : StreamScheduler S} {Q : Type} `{QI : QueueImpl loc Q}.

Abbreviation ep := (@endpoint S Q).

Implicit Types (e : ep) (d : payloadData).

(** ** What a reset changes *)

(** The streams, those released and the pending requests. *)
Definition after_resets (m : gmap Z Stream) (l : list Stream) (r : gmap Z resetRequest) (e : ep) : ep :=
  put_streams m (set_released l (set_requests r e)).

Lemma after_resets_id (e : ep) : after_resets (streams e) (released (rx e)) (reconfigRequests (rc e)) e = e.
Proof. destruct e as [a h x r c f k], a, r, c. reflexivity. Qed.

Lemma resetStream_frame (e : ep) si : exists m l r, resetStream e si = after_resets m l r e.
Proof.
  unfold resetStream. destruct (streams e !! si) as [s|]; [|eexists _, _, _; symmetry; apply after_resets_id].
  exists (delete si (streams e)), (released (rx e) ++ [onInboundStreamReset s]), (reconfigRequests (rc e)).
  destruct e as [a h x r c f k], a, r, c. reflexivity.
Qed.

Lemma resetStreamsIfAny_frame r (e : ep) :
  exists m l rs, (resetStreamsIfAny r e).2 = after_resets m l rs e.
Proof.
  unfold resetStreamsIfAny. destruct (sna32LTE _ _); [|eexists _, _, _; symmetry; apply after_resets_id]. cbn [snd].
  assert (Hf : forall ids e0, exists m l rs, fold_left resetStream ids e0 = after_resets m l rs e0).
  { induction ids as [|id ids IH]; intros e0; [eexists _, _, _; symmetry; apply after_resets_id|]. cbn [fold_left].
    destruct (resetStream_frame e0 id) as (m & l & rs & ->). destruct (IH (after_resets m l rs e0)) as (m' & l' & rs' & ->). by exists m', l', rs'. }
  destruct (Hf (rst_streams r) e) as (m & l & rs & ->). by eexists m, l, _.
Qed.

Lemma answerRequests_frame ks (e : ep) : exists m l rs, (answerRequests ks e).2 = after_resets m l rs e.
Proof.
  unfold answerRequests. match goal with |- context [fold_left ?f _ _] => set (g := f) end.
  generalize (@nil packet) as reply. revert e. induction ks as [|k ks IH]; intros e reply.
  { eexists _, _, _; symmetry; apply after_resets_id. }
  cbn [fold_left]. unfold g at 2. destruct (reconfigRequests (rc e) !! k) as [r|]; [|apply IH].
  destruct (resetStreamsIfAny r e) as [p e'] eqn:E. destruct (resetStreamsIfAny_frame r e) as (m & l & rs & H). rewrite E in H. cbn in H. subst e'.
  destruct (IH (after_resets m l rs e) (reply ++ [p])) as (m' & l' & rs' & ->). by exists m', l', rs'.
Qed.

(** ** The loop that advances *)

Lemma popLoop_spec order fuel : forall n reply q0 (e : ep),
  recv_ok q0 -> calm q0 -> popped q0 n (rxQueue (rx e)) -> rq_size (rxQueue (rx e)) < Z.of_nat fuel ->
  exists reply' n' q' m l rs, popLoop fuel order reply e = Some (reply', after_resets m l rs (set_queue q' e))
    /\ popped q0 n' q' /\ complete q'.
Proof.
  induction fuel as [|fuel IH]; intros n reply q0 e Hok0 Hc Hp Hf.
  { exfalso. pose proof (r_size _ (po_ok _ _ _ Hp)) as Hs. unfold rq_size in Hf. rewrite Hs in Hf. pose proof (zlen_nonneg (offsets (rxQueue (rx e)))). lia. }
  pose proof (po_ok _ _ _ Hp) as Hok. pose proof (window_pos _ Hok0) as Hw. pose proof (r_cum _ Hok0) as Hcum.
  assert (Ha : aligned (rxQueue (rx e))).
  { unfold aligned. rewrite (po_window _ _ _ Hp), (po_cum _ _ _ Hp). destruct Hc as [Hc|Hc]; [left|by right]. pose proof (po_range _ _ _ Hp). go_lia. }
  cbn [popLoop]. pose proof (pop_spec (rxQueue (rx e)) false Hok Ha) as H. destruct (RecvQueue.pop (rxQueue (rx e)) false) as [ok q] eqn:E.
  destruct H as [Hb H]. rewrite orb_false_r in H. destruct ok; cbn [negb].
  2: { subst q. exists reply, n, (rxQueue (rx e)). eexists _, _, _. split; [f_equal; f_equal; symmetry; apply after_resets_id|].
       split; [done|]. symmetry in Hb. by apply bool_decide_eq_false in Hb. }
  pose proof (popped_next q0 n _ q Hok0 Hp Ha E) as Hp'. destruct H as (H1 & H2 & H3 & H4 & H5).
  destruct (answerRequests_frame (order (reconfigRequests (rc (set_queue q e)))) (set_queue q e)) as (m & l & rs & Hfr).
  destruct (answerRequests _ _) as [ps e'] eqn:Ea. cbn in Hfr. subst e'.
  destruct (IH (n + 1) (reply ++ ps) q0 (after_resets m l rs (set_queue q e)) Hok0 Hc) as (reply' & n' & q' & m' & l' & rs' & E' & Hp'' & Hm).
  - done.
  - cbn. unfold rq_size in *. rewrite (r_size _ H1). rewrite (r_size _ Hok) in Hf.
    assert (zlen (received q) < zlen (received (rxQueue (rx e)))) as Hlt.
    { rewrite H3. symmetry in Hb. apply bool_decide_eq_true in Hb. unfold zlen. apply inj_lt. eapply length_filter_lt; [exact Hb|]. intros Hx. by apply Hx. }
    unfold received, zlen in *. rewrite !length_map in Hlt. lia.
  - exists reply', n', q', m', l', rs'. split; [exact E'|]. by split.
Qed.

(** *** The streams: kept as they are, or reset and released *)

Record kept (e e' : ep) : Prop := {
  kp_sub : streams e' ⊆ streams e;
  kp_released : exists l, released (rx e') = released (rx e) ++ l;
  kp_reset : forall si s, streams e !! si = Some s -> streams e' !! si = None -> onInboundStreamReset s ∈ released (rx e')
}.

Lemma rx_kept_refl e : kept e e.
Proof. constructor; [done|exists []; by rewrite app_nil_r|congruence]. Qed.

Lemma rx_kept_trans e1 e2 e3 : kept e1 e2 -> kept e2 e3 -> kept e1 e3.
Proof.
  intros [S1 [l1 L1] R1] [S2 [l2 L2] R2]. constructor.
  - by etrans.
  - exists (l1 ++ l2). by rewrite L2, L1, app_assoc.
  - intros si s Hs Hn. destruct (streams e2 !! si) as [s'|] eqn:E.
    + pose proof (lookup_weaken _ _ _ _ E S1). simplify_eq. by eapply R2.
    + rewrite L2. apply elem_of_app. left. by eapply R1.
Qed.

Lemma kept_resetStream e si : kept e (resetStream e si).
Proof.
  unfold resetStream. destruct (streams e !! si) as [s|] eqn:E; [|apply rx_kept_refl]. constructor; cbn.
  - apply delete_subseteq.
  - by eexists.
  - intros si' s' Hs Hn. destruct (decide (si' = si)) as [->|Hne]; [|by rewrite lookup_delete_ne in Hn; [congruence|done]].
    unfold streams in *. simplify_eq. apply elem_of_app. right. by left.
Qed.

Lemma kept_resetStreamsIfAny r e : kept e (resetStreamsIfAny r e).2.
Proof.
  unfold resetStreamsIfAny. destruct (sna32LTE _ _); [|apply rx_kept_refl]. cbn [snd].
  assert (Hf : forall ids e0, kept e0 (fold_left resetStream ids e0)).
  { induction ids as [|id ids IH]; intros e0; [apply rx_kept_refl|]. eapply rx_kept_trans; [apply kept_resetStream|apply IH]. }
  destruct (Hf (rst_streams r) e) as [S1 L1 R1]. by constructor.
Qed.

Lemma kept_answerRequests ks e : kept e (answerRequests ks e).2.
Proof.
  unfold answerRequests. match goal with |- context [fold_left ?f _ _] => set (g := f) end.
  generalize (@nil packet) as reply. revert e. induction ks as [|k ks IH]; intros e reply; [apply rx_kept_refl|].
  cbn [fold_left]. unfold g at 2. destruct (reconfigRequests (rc e) !! k) as [r|]; [|apply IH].
  pose proof (kept_resetStreamsIfAny r e) as H. destruct (resetStreamsIfAny r e) as [p e']. eapply rx_kept_trans; [exact H|apply IH].
Qed.

Lemma kept_popLoop order fuel : forall reply e r e', popLoop fuel order reply e = Some (r, e') -> kept e e'.
Proof.
  induction fuel as [|fuel IH]; intros reply e r e' E; [done|]. cbn [popLoop] in E. destruct (RecvQueue.pop _ _) as [ok q].
  assert (Hq : kept e (set_queue q e)) by (constructor; [done|exists []; by rewrite app_nil_r|intros ? ? H H'; cbn in *; unfold streams in *; cbn in *; congruence]).
  destruct ok; cbn [negb] in E; [|by simplify_eq]. pose proof (kept_answerRequests (order (reconfigRequests (rc (set_queue q e)))) (set_queue q e)) as Ha.
  destruct (answerRequests _ _) as [ps e1]. apply IH in E. eapply rx_kept_trans; [exact Hq|]. eapply rx_kept_trans; [exact Ha|exact E].
Qed.

(** ** DATA *)

(** The chunk is handed to its stream: it is new and in the window, there is a
    stream for it, and there is room for it or it fills a gap. *)
Definition takes (isIData : bool) (d : payloadData) (e : ep) : bool :=
  receives (getState e) && eqb isIData (useInterleaving (ext e)) && canPush (rxQueue (rx e)) (tsn d)
  && let (ok, e) := getOrCreateStream (streamIdentifier d) true 0 e in
     ok && ((0 <? getMyReceiverWindowCredit e)
            || match getLastTSNReceived (rxQueue (rx e)) with Some l => sna32LT (tsn d) l | None => false end).

Lemma setPayloadType_queue si ppi e : rxQueue (rx (setPayloadType si ppi e)) = rxQueue (rx e).
Proof. unfold setPayloadType. by destruct (_ !! _). Qed.

Lemma getOrCreateStream_queue si acc ppi e : rxQueue (rx (getOrCreateStream si acc ppi e).2) = rxQueue (rx e).
Proof.
  unfold getOrCreateStream, createStream. destruct (_ !! _); [apply setPayloadType_queue|].
  repeat case_match; simplify_eq/=; by rewrite ?setPayloadType_queue.
Qed.

Lemma getOrCreateStream_some si acc ppi e : (getOrCreateStream si acc ppi e).1 = true -> is_Some (streams (getOrCreateStream si acc ppi e).2 !! si).
Proof.
  unfold getOrCreateStream, createStream, setPayloadType. repeat case_match; simplify_eq/=; try done; intros _;
    unfold put_streams, streams in *; cbn in *; rewrite ?lookup_insert_eq in *; simplify_eq; rewrite ?lookup_insert_eq; by eexists.
Qed.

(** What happens before the cumulative TSN is advanced. *)
Lemma acceptPayloadData_queue d e :
  receives (getState e) = true -> canPush (rxQueue (rx e)) (tsn d) = true ->
  let b := takes (useInterleaving (ext e)) d e in
  rxQueue (rx (acceptPayloadData d e).2) = (if b then (RecvQueue.push (rxQueue (rx e)) (tsn d)).2 else rxQueue (rx e))
  /\ (b = true -> exists s0, streams (getOrCreateStream (streamIdentifier d) true 0 e).2 !! streamIdentifier d = Some s0
        /\ streams (acceptPayloadData d e).2 !! streamIdentifier d = Some (Stream.handleData s0 d).2)
  /\ (b = false -> streams (acceptPayloadData d e).2 = streams (getOrCreateStream (streamIdentifier d) true 0 e).2).
Proof.
  intros Hr Hc. unfold takes, acceptPayloadData. rewrite Hr, Hc, eqb_reflx. cbn [andb].
  pose proof (getOrCreateStream_queue (streamIdentifier d) true 0 e) as Hq.
  pose proof (getOrCreateStream_some (streamIdentifier d) true 0 e) as Hs.
  destruct (getOrCreateStream (streamIdentifier d) true 0 e) as [ok e1]. cbn [fst snd] in *. destruct ok; cbn [negb andb fst snd]; [|by split_and!].
  specialize (Hs eq_refl) as [s0 Hs].
  assert (Hp : rxQueue (rx (pushPayloadDataToStream d e1).2) = (RecvQueue.push (rxQueue (rx e)) (tsn d)).2
    /\ streams (pushPayloadDataToStream d e1).2 !! streamIdentifier d = Some (Stream.handleData s0 d).2).
  { unfold pushPayloadDataToStream. rewrite Hq. change (streams (set_queue _ e1)) with (streams e1). rewrite Hs.
    destruct (Stream.handleData s0 d) as [[err ?] s']. destruct err; cbn; split; try done; unfold streams; cbn; apply lookup_insert_eq. }
  destruct (0 <? _); cbn [orb]; [split_and!; [apply Hp|intros _; exists s0; split; [done|apply Hp]|done]|].
  rewrite Hq. destruct (getLastTSNReceived _) as [l|]; [destruct (sna32LT _ l)|]; split_and!; try done; try apply Hp.
  intros _. exists s0. split; [done|apply Hp].
Qed.

Lemma trigger_queue b e : rxQueue (rx (trigger b e)) = rxQueue (rx e) /\ streams (trigger b e) = streams e /\ released (rx (trigger b e)) = released (rx e).
Proof. unfold trigger. by repeat case_match. Qed.

Lemma handlePeer_spec order b e :
  recv_ok (rxQueue (rx e)) -> calm (rxQueue (rx e)) ->
  exists ps e' n, handlePeerLastTSNAndAcknowledgement order b e = Some (ps, e')
    /\ popped (rxQueue (rx e)) n (rxQueue (rx e')) /\ complete (rxQueue (rx e')) /\ kept e e'.
Proof.
  intros Hok Hc. destruct (popLoop_spec order (popFuel e) 0 [] (rxQueue (rx e)) e Hok Hc) as (ps & n & q' & m & l & rs & E & Hp & Hm).
  - by apply popped_refl.
  - unfold popFuel. pose proof (r_size _ Hok) as Hs. pose proof (zlen_nonneg (offsets (rxQueue (rx e)))). unfold rq_size in *. lia.
  - unfold handlePeerLastTSNAndAcknowledgement. rewrite E. cbn [mbind option_bind]. eexists _, _, n. split; [done|].
    apply kept_popLoop in E. destruct (trigger_queue b (after_resets m l rs (set_queue q' e))) as (T1 & T2 & T3). rewrite T1. split_and!; try done.
    destruct E as [S1 L1 R1]. constructor; rewrite ?T2, ?T3; done.
Qed.

(** The reassembly queue of a stream, empty for one that is not there yet. *)
Definition queue_of (si : Z) (e : ep) : reassemblyQueue := default (newReassemblyQueue si) (s_reassemblyQueue <$> streams e !! si).

Lemma queue_of_getOrCreate si si' e : queue_of si' (getOrCreateStream si true 0 e).2 = queue_of si' e.
Proof.
  unfold queue_of, getOrCreateStream, createStream, setPayloadType.
  destruct (streams e !! si) as [s|] eqn:E; [|destruct (_ <? _)]; cbn; unfold put_streams, streams in *; cbn in *; rewrite ?E, ?lookup_insert_eq; cbn;
    try done; (destruct (decide (si' = si)) as [->|]; [rewrite ?lookup_insert_eq, ?E; done|rewrite ?lookup_insert_ne by done; done]).
Qed.

Lemma handleData_queue_of s d : s_reassemblyQueue (Stream.handleData s d).2 = (pushWithError (s_reassemblyQueue s) d).2.
Proof. unfold Stream.handleData. destruct (pushWithError _ _) as [[? err] q]. by destruct err. Qed.

(** What a DATA chunk does: [takes] decides whether its TSN is recorded and the
    chunk goes into the queue of its stream, and no other queue changes. *)
Lemma handleData_spec order ii d e :
  recv_ok (rxQueue (rx e)) -> calm (rxQueue (rx e)) -> in_u 32 (tsn d) ->
  exists ps e' n, handleData order ii d e = Some (ps, e')
    /\ popped (if takes ii d e then (RecvQueue.push (rxQueue (rx e)) (tsn d)).2 else rxQueue (rx e)) n (rxQueue (rx e'))
    /\ forall si s', streams e' !! si = Some s' ->
         s_reassemblyQueue s' = if takes ii d e && (si =? streamIdentifier d) then (pushWithError (queue_of si e) d).2 else queue_of si e.
Proof.
  intros Hok Hc Ht. assert (Hsame : forall si s', streams e !! si = Some s' -> s_reassemblyQueue s' = queue_of si e).
  { intros si s' Hs. unfold queue_of. by rewrite Hs. }
  unfold handleData. destruct (receives (getState e)) eqn:Hr; cbn [negb].
  2: { exists [], e, 0. unfold takes. rewrite Hr. cbn. split_and!; [done|by apply popped_refl|done]. }
  destruct (eqb ii (useInterleaving (ext e))) eqn:Hi; cbn [negb].
  2: { eexists [], _, 0. unfold takes. rewrite Hr, Hi. cbn. split_and!; [done|by apply popped_refl|done]. }
  apply eqb_prop in Hi. subst ii. destruct (canPush (rxQueue (rx e)) (tsn d)) eqn:Hp.
  2: { unfold takes. rewrite Hr, Hp, eqb_reflx. cbn [andb negb].
       match goal with |- context [handlePeerLastTSNAndAcknowledgement order ?b e] => destruct (handlePeer_spec order b e Hok Hc) as (ps & e' & n & E & P & _ & K) end.
       exists ps, e', n. split_and!; [done|done|]. intros si s' Hs. apply Hsame. eapply lookup_weaken; [exact Hs|apply K]. }
  destruct (acceptPayloadData_queue d e Hr Hp) as (A1 & A2 & A3). set (b := takes _ d e) in *.
  destruct (acceptPayloadData d e) as [ok e1] eqn:Ea. cbn [snd] in *.
  assert (Hq1 : forall si s', streams e1 !! si = Some s' ->
    s_reassemblyQueue s' = if b && (si =? streamIdentifier d) then (pushWithError (queue_of si e) d).2 else queue_of si e).
  { intros si s' Hs. rewrite <- (queue_of_getOrCreate (streamIdentifier d)). set (e2 := (getOrCreateStream _ _ _ e).2) in *. destruct b; cbn [andb].
    - destruct (A2 eq_refl) as (s0 & H0 & H1). destruct (Z.eqb_spec si (streamIdentifier d)) as [->|Hne].
      + rewrite Hs in H1. simplify_eq. rewrite handleData_queue_of. unfold queue_of. by rewrite H0.
      + unfold queue_of. enough (streams e1 !! si = streams e2 !! si) as He by (rewrite <- He, Hs; done).
        unfold acceptPayloadData in Ea. destruct (getOrCreateStream _ _ _ e) as [ok' e2'] eqn:Eg. subst e2. cbn [snd] in *.
        assert (Hpush : streams (pushPayloadDataToStream d e2').2 !! si = streams e2' !! si).
        { unfold pushPayloadDataToStream. change (streams (set_queue _ e2')) with (streams e2'). rewrite H0.
          destruct (Stream.handleData s0 d) as [[err ?] s1]. destruct err; cbn; unfold streams; cbn; by rewrite lookup_insert_ne. }
        repeat case_match; simplify_eq/=; try done; rewrite Ea in Hpush; exact Hpush.
    - rewrite (A3 eq_refl) in Hs. unfold queue_of. by rewrite Hs. }
  assert (Hok1 : recv_ok (rxQueue (rx e1)) /\ calm (rxQueue (rx e1))).
  { rewrite A1. destruct b; [|done]. pose proof (push_spec _ (tsn d) Hok (calm_aligned _ Hok Hc) Ht) as H.
    destruct (RecvQueue.push _ _) as [? q1]. destruct H as (_ & _ & H1 & H2 & H3 & _). cbn. split; [done|]. unfold calm. by rewrite H2, H3. }
  rewrite <- A1. destruct Hok1 as [Hok1 Hc1]. destruct ok; cbn [negb].
  - match goal with |- context [handlePeerLastTSNAndAcknowledgement order ?b' e1] => destruct (handlePeer_spec order b' e1 Hok1 Hc1) as (ps & e' & n & E & P & _ & K) end.
    exists ps, e', n. split_and!; [done|done|]. intros si s' Hs. apply Hq1. eapply lookup_weaken; [exact Hs|apply K].
  - exists [], e1, 0. split_and!; [done|by apply popped_refl|exact Hq1].
Qed.

(** ** FORWARD TSN *)

Lemma on_stream_queue f si e : rx (on_stream f si e) = rx e.
Proof. unfold on_stream. by destruct (_ !! _). Qed.

Lemma fold_on_stream_queue {A} (f : A -> Stream -> Stream) (id : A -> Z) l e :
  rx (fold_left (fun e x => on_stream (f x) (id x) e) l e) = rx e.
Proof. revert e. induction l as [|x l IH]; intros e; [done|]. cbn [fold_left]. by rewrite IH, on_stream_queue. Qed.

(** The new cumulative TSN of a FORWARD TSN that is acted upon. *)
Definition forwards (c : chunk) (e : ep) : option Z :=
  match k_body c with
  | chunkForwardTSN cum _ =>
      if negb (useInterleaving (ext e)) && useForwardTSN (sender e) && negb (sna32LTE cum (peerLastTSN e)) then Some cum else None
  | chunkIForwardTSN cum _ =>
      if bool_decide ((check c).2 = None) && useIForwardTSN (sender e) && negb (sna32LTE cum (peerLastTSN e)) then Some cum else None
  | _ => None
  end.

(** What both kinds do when they are acted upon. *)
Lemma forward_common order cum (f : ep -> ep) e :
  recv_ok (rxQueue (rx e)) -> calm (rxQueue (rx e)) -> in_u 32 cum -> sna32LT (peerLastTSN e) cum = true ->
  cum + 2 * window (rxQueue (rx e)) < 2 ^ 32 \/ (window (rxQueue (rx e)) | 2 ^ 32) -> (forall e0, rx (f e0) = rx e0) ->
  exists ps e' q1 n, (q ← advanceCumulativeTSN (rxQueue (rx e)) cum; handlePeerLastTSNAndAcknowledgement order false (f (set_queue q e)))
      = Some (ps, e')
    /\ recv_ok q1 /\ window q1 = window (rxQueue (rx e)) /\ cumulativeTSN q1 = cum
    /\ received q1 = filter (fun t => sna32GT t cum = true) (received (rxQueue (rx e)))
    /\ popped q1 n (rxQueue (rx e')).
Proof.
  intros Hok Hc Hcum Hlt Hcalm Hf. destruct (advance_spec _ cum Hok (calm_aligned _ Hok Hc) Hcum) as (q1 & E & Hok1 & Hw & _ & Hr).
  change (peerLastTSN e) with (cumulativeTSN (rxQueue (rx e))) in Hlt. rewrite Hlt in Hr. destruct Hr as [Hr1 Hr2]. rewrite E. cbn [mbind option_bind].
  destruct (handlePeer_spec order false (f (set_queue q1 e))) as (ps & e' & n & E' & P & _).
  - by rewrite Hf.
  - rewrite Hf. unfold calm. change (rxQueue (rx (set_queue q1 e))) with q1. by rewrite Hw, Hr1.
  - rewrite Hf in P. exists ps, e', q1, n. by split_and!.
Qed.

(** ** What other chunks do to the received TSNs: nothing *)

Lemma handleReconfigParam_queue p e : rxQueue (rx (handleReconfigParam p e).2) = rxQueue (rx e).
Proof.
  unfold handleReconfigParam. destruct p as [[? [| | | | | | | |rsn resp lastTSN ids|rsn result|]]|]; try done.
  - destruct (_ && _); [done|]. destruct (resetStreamsIfAny_frame (mkReset rsn resp lastTSN ids) (set_requests (<[rsn := mkReset rsn resp lastTSN ids]> (reconfigRequests (rc e))) e))
      as (m & l & rs & H). destruct (resetStreamsIfAny _ _) as [pk e']. cbn in *. by rewrite H.
  - destruct (result =? _); [by destruct (_ !! _)|]. cbn. destruct (result =? _); [|done].
    unfold resetOutgoingStreamSequenceNumbers. repeat case_match; try done. by rewrite (fold_on_stream_queue (fun _ => Stream.resetOutgoingStreamSequenceNumbers) (fun x => x)).
Qed.

Lemma handleReconfig_queue pa pb e : rxQueue (rx (handleReconfig pa pb e).2) = rxQueue (rx e).
Proof.
  unfold handleReconfig. pose proof (handleReconfigParam_queue pa e) as H1. destruct (handleReconfigParam pa e) as [[p|] e1]; [|done].
  destruct pb as [b|]; [|done]. pose proof (handleReconfigParam_queue (Some b) e1) as H2. destruct (handleReconfigParam (Some b) e1) as [[p'|] e2]; cbn in *; congruence.
Qed.

Lemma updateInterleavingState_rx e : rx (updateInterleavingState e).2 = rx e.
Proof. unfold updateInterleavingState. by repeat (case_match; simplify_eq/=). Qed.

Lemma establish_rx e : rx (establish e).2 = rx e.
Proof.
  unfold establish. pose proof (updateInterleavingState_rx e) as H. destruct (updateInterleavingState e) as [err e1]. by destruct err.
Qed.

Lemma completeHandshake_rx b r e ok e' : completeHandshake b r e = Some (ok, e') -> rx e' = rx e.
Proof. unfold completeHandshake. repeat case_match; intros; by simplify_eq. Qed.

(** Past the handshake. *)
Definition connected (s : assocState) : bool := match s with closed | cookieWait | cookieEchoed => false | _ => true end.

Lemma dispatch_queue o pkt c e r e' :
  connected (getState e) = true -> (forall d, k_body c <> chunkPayloadData d) -> forwards c e = None -> (check c).2 = None ->
  dispatch o pkt c e = Some (r, e') -> rxQueue (rx e') = rxQueue (rx e).
Proof.
  intros Hc Hd Hf Hk E. unfold dispatch, forwards in *. destruct (k_body c) as [i|i|cs|cs|k| |ps|ps|d|cum rw gaps dups|pa pb|cum ss|cum ss|cum| |]; simplify_eq.
  - unfold handleInit in E. rewrite bool_decide_eq_false_2, bool_decide_eq_false_2, bool_decide_eq_false_2 in E by (intros H; by rewrite H in Hc).
    cbn in E. by simplify_eq.
  - unfold handleInitAck in E. rewrite bool_decide_eq_false_2 in E by (intros H; by rewrite H in Hc). cbn in E. by simplify_eq.
  - cbn in E. by simplify_eq.
  - done.
  - destruct (handleCookieEcho _ _ _) as [[ps e1]|] eqn:E1; [|done]. cbn in E. simplify_eq. unfold handleCookieEcho in E1.
    repeat case_match; simplify_eq/=; try done.
  - destruct (handleCookieAck _ _) as [e1|] eqn:E1; [|done]. cbn in E. simplify_eq. unfold handleCookieAck in E1.
    rewrite bool_decide_eq_false_2 in E1 by (intros H; by rewrite H in Hc). cbn in E1. by simplify_eq.
  - done.
  - unfold handleHeartbeatAck. by repeat case_match.
  - by destruct (Hd d).
  - destruct (handleSack _ _ _ _ _ _) as [[? a]|]; [|done]. cbn in E. by simplify_eq.
  - pose proof (handleReconfig_queue pa pb e) as H. rewrite E in H. done.
  - unfold handleForwardTSN in E. destruct (useInterleaving _); [cbn in E; by simplify_eq|]. destruct (useForwardTSN _); cbn [negb andb] in *; [|cbn in E; by simplify_eq].
    destruct (sna32LTE _ _); [|done]. cbn in E. by simplify_eq.
  - unfold handleIForwardTSN in E. rewrite (bool_decide_eq_true_2 _ Hk) in Hf. destruct (useIForwardTSN _); cbn [negb andb] in *; [|cbn in E; by simplify_eq].
    destruct (sna32LTE _ _); [|done]. cbn in E. by simplify_eq.
  - unfold handleShutdown. by repeat case_match.
  - unfold handleShutdownAck. by repeat case_match.
  - unfold handleShutdownComplete. by repeat case_match.
Qed.

(** ** Histories *)

(** [taken]: the chunks handed to streams; [skips]: the cumulative TSNs of the
    FORWARD TSNs acted upon. *)
Record history := mkHist { h_ep : ep; h_taken : list payloadData; h_skips : list Z }.

Definition news (c : chunk) (e : ep) : list payloadData :=
  match k_body c with
  | chunkPayloadData d => if takes (isIDataChunk c d) d e then [d] else []
  | _ => []
  end.

(** Fewer than 2^31 TSNs from [base] to [t] and a window beyond. *)
Definition reach (base t : Z) (e : ep) : Prop :=
  dist32 base (peerLastTSN e) + dist32 (peerLastTSN e) t + 2 * window (rxQueue (rx e)) < 2 ^ 31.

(** While chunks arrive past the handshake; what else happens leaves the
    received TSNs alone, except that a SACK takes the duplicates. *)
Inductive rxstep (base : Z) : history -> history -> Prop :=
  | rx_chunk o pkt c e tk sk r e' :
      connected (getState e) = true -> calm (rxQueue (rx e)) -> reach base (peerLastTSN e) e ->
      (forall d, k_body c = chunkPayloadData d -> in_u 32 (tsn d)) ->
      (forall t, forwards c e = Some t -> in_u 32 t /\ reach base t e
         /\ (t + 2 * window (rxQueue (rx e)) < 2 ^ 32 \/ (window (rxQueue (rx e)) | 2 ^ 32))) ->
      handleChunk o pkt c e = Some (r, e') ->
      rxstep base (mkHist e tk sk) (mkHist e' (tk ++ news c e) (sk ++ option_list (forwards c e)))
  | rx_local e tk sk e' :
      rxQueue (rx e') = rxQueue (rx e) \/ rxQueue (rx e') = (popDuplicates (rxQueue (rx e))).2 ->
      rxstep base (mkHist e tk sk) (mkHist e' tk sk).

(** What a SACK acknowledges: up to the cumulative TSN, and the TSNs ahead. *)
Definition acknowledged_tsn (base : Z) (q : receivePayloadQueue) (t : Z) : Prop :=
  1 <= dist32 base t <= dist32 base (cumulativeTSN q) \/ t ∈ received q.

(** Given up by the peer. *)
Definition skipped (base : Z) (skips : list Z) (t : Z) : Prop := exists c, c ∈ skips /\ 1 <= dist32 base t <= dist32 base c.

Record rx_inv (base : Z) (h : history) : Prop := {
  ri_ok : recv_ok (rxQueue (rx (h_ep h)));
  ri_once : NoDup (map tsn (h_taken h));
  ri_exact : forall t, in_u 32 t ->
    acknowledged_tsn base (rxQueue (rx (h_ep h))) t <-> t ∈ map tsn (h_taken h) \/ skipped base (h_skips h) t
}.

Lemma dist_add a b c : in_u 32 a -> in_u 32 b -> in_u 32 c -> dist32 a b + dist32 b c < 2 ^ 32 -> dist32 a c = dist32 a b + dist32 b c.
Proof. unfold dist32. intros. go_lia. Qed.

Lemma dist_range a b : 0 <= dist32 a b < 2 ^ 32.
Proof. unfold dist32. apply u32_range. Qed.

(** Popping acknowledges nothing new. *)
Lemma acknowledged_popped base q n q' t :
  in_u 32 base -> in_u 32 t -> recv_ok q -> popped q n q' -> dist32 base (cumulativeTSN q) + window q < 2 ^ 31 ->
  acknowledged_tsn base q' t <-> acknowledged_tsn base q t.
Proof.
  intros Hb Ht Hok [P1 P2 P3 P4 P5 P6 P7] Hs. pose proof (r_cum _ Hok) as Hc. pose proof (window_pos q Hok) as Hw.
  pose proof (dist_range base (cumulativeTSN q)) as Hd0.
  assert (Hn : dist32 (cumulativeTSN q) (cumulativeTSN q +32 n) = n) by (unfold dist32; go_lia).
  assert (Hd : dist32 base (cumulativeTSN q') = dist32 base (cumulativeTSN q) + n).
  { rewrite P5, (dist_add base (cumulativeTSN q)); auto with go; rewrite Hn; lia. }
  assert (Hin : t ∈ received q -> dist32 base t = dist32 base (cumulativeTSN q) + dist32 (cumulativeTSN q) t).
  { intros H. apply received_dist in H; [|done]. apply dist_add; auto. lia. }
  unfold acknowledged_tsn. rewrite Hd, P7. split.
  - intros [H|H]; [|right; tauto]. destruct (decide (dist32 base t <= dist32 base (cumulativeTSN q))); [left; lia|right].
    replace t with (cumulativeTSN q +32 (dist32 base t - dist32 base (cumulativeTSN q))); [apply P6; lia|]. unfold dist32 in *. go_lia.
  - intros [H|H]; [left; lia|]. specialize (Hin H). apply received_dist in H as Hr; [|done].
    destruct (decide (dist32 (cumulativeTSN q) t <= n)); [left; lia|right; split; [done|lia]].
Qed.

Lemma handleChunk_rx o pkt c e r e' :
  handleChunk o pkt c e = Some (r, e') ->
  (exists x, (check c).2 = Some x /\ rx e' = rx e) \/ ((check c).2 = None /\ exists r0 e0, dispatch o pkt c e = Some (r0, e0) /\ rx e' = rx e0).
Proof.
  unfold handleChunk. destruct (check c) as [ab [x|]].
  - intros E. simplify_eq. left. exists x. split; [done|]. by destruct (_ && _).
  - intros E. right. split; [done|]. destruct (dispatch o pkt c e) as [[r0 e0]|]; [|done]. exists r0, e0. split; [done|].
    cbn in E. repeat case_match; by simplify_eq/=.
Qed.

(** Recording a TSN acknowledges it. *)
Lemma acknowledged_push base q x t :
  recv_ok q -> aligned q -> in_u 32 x -> canPush q x = true ->
  acknowledged_tsn base (RecvQueue.push q x).2 t <-> acknowledged_tsn base q t \/ t = x.
Proof.
  intros Hok Ha Hx Hc. pose proof (push_spec q x Hok Ha Hx) as H. destruct (RecvQueue.push q x) as [ok q1]. destruct H as (H1 & H2 & H3 & H4 & H5 & H6 & _).
  rewrite <- H1, Hc in H2. subst ok. unfold acknowledged_tsn. cbn [snd]. rewrite H5, H6. rewrite <- H2. tauto.
Qed.

(** A FORWARD TSN acknowledges what it skips. *)
Lemma acknowledged_forward base q q1 c t :
  in_u 32 base -> in_u 32 t -> in_u 32 c -> recv_ok q -> cumulativeTSN q1 = c ->
  received q1 = filter (fun t => sna32GT t c = true) (received q) ->
  dist32 base (cumulativeTSN q) + dist32 (cumulativeTSN q) c + 2 * window q < 2 ^ 31 ->
  acknowledged_tsn base q1 t <-> acknowledged_tsn base q t \/ 1 <= dist32 base t <= dist32 base c.
Proof.
  intros Hb Ht Hc Hok H1 H2 Hs. pose proof (r_cum _ Hok) as Hcq. pose proof (window_pos q Hok) as Hw.
  pose proof (dist_range base (cumulativeTSN q)). pose proof (dist_range (cumulativeTSN q) c).
  assert (Hd : dist32 base c = dist32 base (cumulativeTSN q) + dist32 (cumulativeTSN q) c) by (apply dist_add; auto; lia).
  assert (Hin : t ∈ received q -> dist32 base t = dist32 base (cumulativeTSN q) + dist32 (cumulativeTSN q) t
    /\ 1 <= dist32 (cumulativeTSN q) t <= window q /\ (sna32GT t c = true <-> dist32 (cumulativeTSN q) c < dist32 (cumulativeTSN q) t)).
  { intros Hr. apply received_dist in Hr as [_ Hr]; [|done]. split; [apply dist_add; auto; lia|]. split; [done|].
    rewrite sna32GT_dist by done. unfold dist32 in *. go_lia. }
  unfold acknowledged_tsn. rewrite H1, H2, list_elem_of_filter. split.
  - intros [Hx|[_ Hx]]; [right; lia|left; by right].
  - intros [[Hx|Hx]|Hx]; [left; lia| |left; lia]. destruct (Hin Hx) as (Hi1 & Hi2 & Hi3).
    destruct (decide (dist32 (cumulativeTSN q) c < dist32 (cumulativeTSN q) t)); [right; tauto|left; lia].
Qed.

Lemma takes_fresh ii d e :
  recv_ok (rxQueue (rx e)) -> aligned (rxQueue (rx e)) -> in_u 32 (tsn d) -> takes ii d e = true ->
  canPush (rxQueue (rx e)) (tsn d) = true /\ 1 <= dist32 (peerLastTSN e) (tsn d) <= window (rxQueue (rx e)) /\ tsn d ∉ received (rxQueue (rx e)).
Proof.
  intros Hok Ha Ht H. unfold takes in H. apply andb_prop in H as [H _]. apply andb_prop in H as [_ H].
  pose proof (push_spec _ _ Hok Ha Ht) as Hs. destruct (RecvQueue.push _ _) as [ok q1]. destruct Hs as (_ & H2 & _). rewrite H in H2. symmetry in H2.
  apply bool_decide_eq_true in H2. by split.
Qed.

(** A DATA chunk. *)
Lemma rx_inv_data base order ii d e tk sk ps e' :
  in_u 32 base -> rx_inv base (mkHist e tk sk) -> calm (rxQueue (rx e)) -> reach base (peerLastTSN e) e -> in_u 32 (tsn d) ->
  handleData order ii d e = Some (ps, e') ->
  rx_inv base (mkHist e' (tk ++ (if takes ii d e then [d] else [])) sk).
Proof.
  intros Hb [Hok Ho Hx] Hc Hr Ht E. cbn in Hok, Ho, Hx. pose proof (calm_aligned _ Hok Hc) as Ha. pose proof (window_pos _ Hok) as Hw.
  pose proof (dist_range (peerLastTSN e) (peerLastTSN e)) as Hd0. pose proof (r_cum _ Hok) as Hcum. unfold reach in Hr. unfold peerLastTSN, getcumulativeTSN in *.
  destruct (handleData_spec order ii d e Hok Hc Ht) as (ps' & e1 & n & E1 & P & _). rewrite E in E1. simplify_eq.
  destruct (takes ii d e) eqn:Htk.
  - destruct (takes_fresh _ _ _ Hok Ha Ht Htk) as (Hcp & Hdt & Hnr). unfold peerLastTSN, getcumulativeTSN in Hdt.
    pose proof (push_spec _ _ Hok Ha Ht) as Hs. destruct (RecvQueue.push (rxQueue (rx e)) (tsn d)) as [ok q1] eqn:Ep. destruct Hs as (_ & _ & H3 & H4 & H5 & _).
    cbn [snd] in P. constructor; cbn.
    + apply P.
    + rewrite map_app. apply NoDup_app. split_and!; [done| |apply NoDup_singleton]. intros x Hx1 Hx2%list_elem_of_singleton. subst x. cbn in Hx1.
      assert (Hack : acknowledged_tsn base (rxQueue (rx e)) (tsn d)) by (apply Hx; auto). destruct Hack as [Hack|Hack]; [|done].
      rewrite (dist_add base (cumulativeTSN (rxQueue (rx e)))) in Hack; auto; lia.
    + intros t Hut. rewrite (acknowledged_popped base _ n _ t Hb Hut H3 P) by (rewrite H4, H5; lia).
      pose proof (acknowledged_push base _ _ t Hok Ha Ht Hcp) as Hpu. rewrite Ep in Hpu. cbn in Hpu. rewrite Hpu, Hx by done.
      rewrite map_app, elem_of_app. cbn. rewrite list_elem_of_singleton. tauto.
  - constructor; cbn; rewrite ?app_nil_r; [apply P|done|]. intros t Hut. rewrite (acknowledged_popped base _ n _ t Hb Hut Hok P) by lia. by apply Hx.
Qed.

(** A FORWARD TSN that is acted upon. *)
Lemma rx_inv_forward base c q1 n e tk sk e' :
  in_u 32 base -> rx_inv base (mkHist e tk sk) -> in_u 32 c -> reach base c e ->
  recv_ok q1 -> window q1 = window (rxQueue (rx e)) -> cumulativeTSN q1 = c ->
  received q1 = filter (fun t => sna32GT t c = true) (received (rxQueue (rx e))) -> popped q1 n (rxQueue (rx e')) ->
  rx_inv base (mkHist e' tk (sk ++ [c])).
Proof.
  intros Hb [Hok Ho Hx] Hc Hr H1 H2 H3 H4 P. cbn in Hok, Ho, Hx. unfold reach, peerLastTSN, getcumulativeTSN in Hr.
  pose proof (window_pos _ Hok) as Hw. pose proof (r_cum _ Hok) as Hcum. pose proof (dist_range base (cumulativeTSN (rxQueue (rx e)))).
  pose proof (dist_range (cumulativeTSN (rxQueue (rx e))) c). constructor; cbn; [apply P|done|]. intros t Hut.
  rewrite (acknowledged_popped base _ n _ t Hb Hut H1 P).
  2: { rewrite H2, H3, (dist_add base (cumulativeTSN (rxQueue (rx e)))); auto; lia. }
  rewrite (acknowledged_forward base (rxQueue (rx e)) q1 c t) by done. rewrite Hx by done. unfold skipped. setoid_rewrite elem_of_app.
  setoid_rewrite list_elem_of_singleton. split.
  - intros [[?|(x & ? & ?)]|?]; [auto|right; exists x; auto|right; exists c; auto].
  - intros [?|(x & [?| ->] & ?)]; [auto|left; right; by exists x|auto].
Qed.

Lemma rx_inv_same base e tk sk e' :
  rx_inv base (mkHist e tk sk) -> rxQueue (rx e') = rxQueue (rx e) -> rx_inv base (mkHist e' tk sk).
Proof. intros [H1 H2 H3] E. constructor; cbn in *; by rewrite ?E. Qed.

Lemma not_handled c e x : (check c).2 = Some x -> news c e = [] /\ forwards c e = None.
Proof.
  intros H. unfold news, forwards. rewrite H. unfold check in H. rewrite bool_decide_eq_false_2 by done. by destruct (k_body c).
Qed.

Lemma forwarded_lt c e t : forwards c e = Some t -> in_u 32 t -> in_u 32 (peerLastTSN e) -> dist32 (peerLastTSN e) t < 2 ^ 31 -> sna32LT (peerLastTSN e) t = true.
Proof.
  intros Hf Ht Hp Hd. assert (Hn : sna32LTE t (peerLastTSN e) = false).
  { unfold forwards in Hf. destruct (k_body c); try done;
    (match type of Hf with (if ?b then _ else _) = _ => destruct b eqn:Hb; [|done] end; simplify_eq; apply andb_prop in Hb as [_ Hb]; by apply negb_true_iff in Hb). }
  apply sna32LT_dist; [done|done|]. assert (~ dist32 t (peerLastTSN e) < 2 ^ 31) by (rewrite <- sna32LTE_dist by done; by rewrite Hn).
  unfold dist32 in *. go_lia.
Qed.

Lemma dispatch_forward o pkt c e t r e' :
  forwards c e = Some t -> recv_ok (rxQueue (rx e)) -> calm (rxQueue (rx e)) -> in_u 32 t -> sna32LT (peerLastTSN e) t = true ->
  (t + 2 * window (rxQueue (rx e)) < 2 ^ 32 \/ (window (rxQueue (rx e)) | 2 ^ 32)) -> dispatch o pkt c e = Some (r, e') ->
  exists q1 n, recv_ok q1 /\ window q1 = window (rxQueue (rx e)) /\ cumulativeTSN q1 = t
    /\ received q1 = filter (fun x => sna32GT x t = true) (received (rxQueue (rx e))) /\ popped q1 n (rxQueue (rx e')).
Proof.
  intros Hf Hok Hc Ht Hlt Hcl E. unfold forwards, dispatch in *. destruct (k_body c) as [i|i|cs|cs|k| |ps|ps|d|cum rw gaps dups|pa pb|cum ss|cum ss|cum| |]; try done.
  - destruct (_ && _) eqn:Hb; [|done]. apply andb_prop in Hb as [Hb Hl]. apply andb_prop in Hb as [Hi Hu]. simplify_eq.
    unfold handleForwardTSN in E. apply negb_true_iff in Hi, Hl. rewrite Hi, Hu, Hl in E. cbn [negb] in E.
    match type of E with context [handlePeerLastTSNAndAcknowledgement ?or false] => set (f := fun e0 : ep => put_streams ((fun s => (handleForwardTSNForUnordered s t).2) <$>
      streams (fold_left (fun e f => on_stream (fun s => (handleForwardTSNForOrdered s (fs_sequence f)).2) (fs_identifier f) e) ss e0))
      (fold_left (fun e f => on_stream (fun s => (handleForwardTSNForOrdered s (fs_sequence f)).2) (fs_identifier f) e) ss e0));
      destruct (forward_common or t f e Hok Hc Ht Hlt Hcl) as (ps & e1 & q1 & n & E1 & R) end.
    { intros e0. unfold f. change (rx (put_streams _ ?x)) with (rx x). apply (fold_on_stream_queue (fun f s => (handleForwardTSNForOrdered s (fs_sequence f)).2) fs_identifier). }
    exists q1, n. unfold f in E1. rewrite E1 in E. cbn in E. simplify_eq. exact R.
  - destruct (_ && _) eqn:Hb; [|done]. apply andb_prop in Hb as [Hb Hl]. apply andb_prop in Hb as [_ Hu]. simplify_eq.
    unfold handleIForwardTSN in E. apply negb_true_iff in Hl. rewrite Hu, Hl in E. cbn [negb] in E.
    match type of E with context [handlePeerLastTSNAndAcknowledgement ?or false] => set (g := fun x s => (if is_unordered x then handleForwardTSNForUnorderedMID s (is_messageIdentifier x)
                           else handleForwardTSNForOrderedMID s (is_messageIdentifier x)).2);
      destruct (forward_common or t (fold_left (fun e x => on_stream (g x) (is_identifier x) e) ss) e Hok Hc Ht Hlt Hcl) as (ps & e1 & q1 & n & E1 & R) end.
    { intros e0. apply (fold_on_stream_queue g is_identifier). }
    exists q1, n. unfold g in E1. rewrite E1 in E. cbn in E. simplify_eq. exact R.
Qed.

Lemma rxstep_inv base h h' : in_u 32 base -> rx_inv base h -> rxstep base h h' -> rx_inv base h'.
Proof.
  intros Hb Hi Hst. destruct Hst as [o pkt c e tk sk r e' Hcon Hc Hr Hd Hf E|e tk sk e' Hq].
  2: { destruct Hq as [Hq|Hq]; [by eapply rx_inv_same|]. destruct Hi as [H1 H2 H3]. cbn in *.
       constructor; cbn; rewrite ?Hq; [destruct H1; by constructor|done|exact H3]. }
  pose proof (ri_ok _ _ Hi) as Hok. cbn in Hok. pose proof (r_cum _ Hok) as Hcum.
  apply handleChunk_rx in E as [(x & Hck & Erx)|(Hck & r0 & e0 & E & Erx)].
  - destruct (not_handled c e x Hck) as [-> ->]. rewrite !app_nil_r. eapply rx_inv_same; [exact Hi|by rewrite Erx].
  - apply (rx_inv_same base e0); [|by rewrite Erx]. destruct (forwards c e) as [t|] eqn:Ef.
    + destruct (Hf t eq_refl) as (Ht & Hrt & Hcl). assert (news c e = []) as -> by (unfold news; unfold forwards in Ef; by destruct (k_body c)).
      rewrite app_nil_r. assert (Hlt : sna32LT (peerLastTSN e) t = true).
      { eapply forwarded_lt; [done..|]. unfold reach in Hrt. pose proof (dist_range base (peerLastTSN e)). pose proof (window_pos _ Hok). lia. }
      destruct (dispatch_forward o pkt c e t r0 e0 Ef Hok Hc Ht Hlt Hcl E) as (q1 & n & H1 & H2 & H3 & H4 & P). by eapply rx_inv_forward.
    + cbn. rewrite app_nil_r. destruct (k_body c) as [| | | | | | | |d| | | | | | |] eqn:Ek.
      9: { unfold dispatch in E. rewrite Ek in E. destruct (handleData _ _ _ _) as [[ps e1]|] eqn:E1; [|done]. cbn in E. simplify_eq.
           unfold news. rewrite Ek. eapply rx_inv_data; eauto. }
      all: unfold news; rewrite Ek, app_nil_r; eapply rx_inv_same; [exact Hi|]; eapply dispatch_queue; [exact Hcon|by rewrite Ek|exact Ef|exact Hck|exact E].
Qed.

(** Before the first DATA chunk. *)
Lemma rx_inv_start base e :
  in_u 32 base -> recv_ok (rxQueue (rx e)) -> peerLastTSN e = base -> received (rxQueue (rx e)) = [] -> rx_inv base (mkHist e [] []).
Proof.
  intros Hb Hok Hcum Hrec. constructor; cbn; [done|constructor|]. intros t _. unfold acknowledged_tsn. rewrite Hrec. unfold peerLastTSN, getcumulativeTSN in Hcum. rewrite Hcum.
  rewrite !elem_of_nil. unfold skipped. setoid_rewrite elem_of_nil. unfold dist32. rewrite Z.sub_diag. change (u32 0) with 0. split; [intros [?|[]]; lia|intros [[]|(c & [] & _)]].
Qed.

End ReceiveSpec.


Module RxExample.

Definition ep_ := @endpoint Builtin.scheduler (RingQueue.queue loc).

Definition cfg : @Config Builtin.scheduler := applyDefaults zeroConfig.

Definition token (tag t : Z) : chunkInitCommon := mkInitCommon tag 1048576 65535 65535 t [extensionsParam false] [].

(** An association set up from tokens: the first TSN of the peer is 1000. *)
Definition up : ep_ := (initWithOutOfBandTokens (token 7 500) (token 8 1000) (createAssociationFromConfigWithTsn cfg 500 7 false)).2.

Definition data (t : Z) : chunk :=
  new_chunk (chunkPayloadData (mkPayload false true true false t 3 0 0 0 51 [1; 2; 3] false)).

Definition pkt (c : chunk) : packet := mkPacket 5000 5000 7 [c].

Definition orc : oracle := mkOracle 0 None true (fun m => map fst (map_to_list m)) (fun _ => []).

Definition get_ (c : chunk) (e : ep_) : ep_ := from_option snd e (handleChunk orc (pkt c) c e).

Definition step_ (c : chunk) (h : @history Builtin.scheduler (RingQueue.queue loc)) :=
  mkHist (get_ c (h_ep h)) (h_taken h ++ news c (h_ep h)) (h_skips h ++ option_list (forwards c (h_ep h))).

(** TSN 1001, then 1000, then 1001 again. *)
Definition history_ := step_ (data 1001) (step_ (data 1000) (step_ (data 1001) (mkHist up [] []))).

Lemma step_ok c h d :
  connected (getState (h_ep h)) = true -> calm (rxQueue (rx (h_ep h))) -> reach 999 (peerLastTSN (h_ep h)) (h_ep h) ->
  k_body c = chunkPayloadData d -> in_u 32 (tsn d) -> is_Some (handleChunk orc (pkt c) c (h_ep h)) -> rxstep 999 h (step_ c h).
Proof.
  intros Hc Hq Hr Hd Ht [[r e'] E]. destruct h as [e tk sk]. unfold step_, get_. cbn [h_ep h_taken h_skips] in *. rewrite E. cbn [from_option snd].
  apply rx_chunk with (o := orc) (pkt := pkt c) (r := r); try done.
  - intros d' Hd'. congruence.
  - intros t Hf. unfold forwards in Hf. by rewrite Hd in Hf.
Qed.


End RxExample.
