(* ===== verification/AckSpec.v ===== *)
(** * Acknowledgements from one end to the other

    The SACK that the receiving half makes of its queue, the packet it is sent
    in, and what the sending half of the peer does with those bytes. *)

From S2P Require Import Prelude.
From S2P Require Import Serial.
From S2P Require Import Float64.
From S2P Require Import Bytes.
From S2P Require Import Params.
From S2P Require Import Causes.
From S2P Require Import Chunks.
From S2P Require Import Packet.
From S2P Require Import RingQueue.
From S2P Require Import PayloadQueue.
From S2P Require Import RecvQueue.
From S2P Require Import WindowedMin.
From S2P Require Import PendingQueue.
From S2P Require Import PendingSpec.
From S2P Require Import Reassembly.
From S2P Require Import Stream.
From S2P Require Import Timers.
From S2P Require Import Sender.
From S2P Require Import Sack.
From S2P Require Import RoundTrip.
From S2P Require Import SenderSpec.
From S2P Require Import SackSpec.
From S2P Require Import SenderSteps.
From S2P Require Import Endpoint.
From S2P Require Import Receive.
From S2P Require Import Handshake.
From S2P Require Import Outbound.
From S2P Require Import Config.
From S2P Require Import ReceiveSpec.

Local Open Scope Z_scope.
Local Open Scope go_scope.

(** ** Sizes *)

Lemma maxEntries_bounds mtu :
  0 <= selectiveAckMaxEntries mtu /\ 4 * selectiveAckMaxEntries mtu <= 65519
  /\ (28 <= mtu -> 28 + 4 * selectiveAckMaxEntries mtu <= mtu).
Proof.
  unfold selectiveAckMaxEntries. change (commonHeaderSize + chunkHeaderSize + selectiveAckHeaderSize) with 28.
  change (65535 - chunkHeaderSize - selectiveAckHeaderSize) with 65519. destruct (Z.ltb_spec 28 mtu); [|lia].
  Z.to_euclidean_division_equations. lia.
Qed.

Lemma take_zlen {A} (l : list A) n : 0 <= n -> zlen (take (Z.to_nat n) l) = Z.min n (zlen l).
Proof. intros Hn. unfold zlen. rewrite length_take. lia. Qed.

Lemma runs_le l : Forall (fun b => b.1 <= b.2) (runs l).
Proof.
  induction l as [|x l IH]; [constructor|]. cbn [runs]. destruct (runs l) as [|[s t] bs]; [by repeat constructor|].
  apply Forall_cons in IH as [H IH]. cbn in H. destruct (Z.eqb_spec s (x + 1)); repeat (constructor; cbn; try lia); done.
Qed.

Section AckSpec.
Context {S : Type} `{SS : StreamScheduler S} {Q : Type} `{QI : QueueImpl loc Q}.

Abbreviation ep := (@endpoint S Q).

Implicit Types e : ep.

Lemma bytesQueued_range m : in_u 32 (bytesQueued m).
Proof. unfold bytesQueued. apply (map_fold_weak_ind (fun r _ => in_u 32 r)); [split; [lia|done]|]. intros. apply u32_range. Qed.

Lemma credit_range e : in_u 32 (maxReceiveBufferSize (rx e)) -> in_u 32 (getMyReceiverWindowCredit e).
Proof.
  intros [H1 H2]. unfold getMyReceiverWindowCredit. destruct (bytesQueued_range (streams e)) as [H3 H4].
  destruct (Z.leb_spec (maxReceiveBufferSize (rx e)) (bytesQueued (streams e))); split; lia.
Qed.

(** The blocks and the duplicates that fit. *)
Definition reported (e : ep) : list gapAckBlock :=
  take (Z.to_nat (selectiveAckMaxEntries (mtu (sender e)))) (map gap (runs (offsets (rxQueue (rx e))))).

Definition reported_dups (e : ep) : list Z :=
  take (Z.to_nat (Z.min (zlen (dupTSN (rxQueue (rx e)))) (selectiveAckMaxEntries (mtu (sender e)) - zlen (reported e))))
    (dupTSN (rxQueue (rx e))).

Definition sack_of (e : ep) : chunk :=
  new_chunk (chunkSelectiveAck (peerLastTSN e) (getMyReceiverWindowCredit e) (reported e) (reported_dups e)).

Lemma createSelectiveAck_spec e :
  recv_ok (rxQueue (rx e)) -> aligned (rxQueue (rx e)) ->
  createSelectiveAckChunk e = Some (sack_of e, set_queue (popDuplicates (rxQueue (rx e))).2 e).
Proof.
  intros Hok Ha. unfold createSelectiveAckChunk. rewrite gapBlocks_runs by done. cbn [mbind option_bind popDuplicates].
  change (take _ (map _ (runs _))) with (reported e).
  destruct (maxEntries_bounds (mtu (sender e))) as [H0 _].
  assert (zlen (reported e) <= selectiveAckMaxEntries (mtu (sender e))) by (unfold reported; rewrite take_zlen by done; lia).
  pose proof (zlen_nonneg (dupTSN (rxQueue (rx e)))). destruct (Z.ltb_spec (Z.min (zlen (dupTSN (rxQueue (rx e))))
    (selectiveAckMaxEntries (mtu (sender e)) - zlen (reported e))) 0); [lia|done].
Qed.

Lemma reported_entries e : zlen (reported e) + zlen (reported_dups e) <= selectiveAckMaxEntries (mtu (sender e)).
Proof.
  destruct (maxEntries_bounds (mtu (sender e))) as [H0 _].
  assert (zlen (reported e) <= selectiveAckMaxEntries (mtu (sender e))) by (unfold reported; rewrite take_zlen by done; lia).
  unfold reported_dups. pose proof (zlen_nonneg (dupTSN (rxQueue (rx e)))). rewrite take_zlen by lia. lia.
Qed.

Lemma offset_range q o : recv_ok q -> o ∈ offsets q -> 1 <= o < 65535.
Proof.
  intros Hok [Ho _]%offsets_spec. pose proof (window_pos q Hok) as Hw. assert (window q mod 64 = 0) by (unfold window, bitlen; rewrite Z.mul_comm; apply Z_mod_mult).
  Z.to_euclidean_division_equations. lia.
Qed.

(** A block that is reported starts and ends with a TSN that was received. *)
Lemma reported_block e g :
  recv_ok (rxQueue (rx e)) -> g ∈ reported e ->
  gap_start g ∈ offsets (rxQueue (rx e)) /\ gap_end g ∈ offsets (rxQueue (rx e)) /\ gap_start g <= gap_end g.
Proof.
  intros Hok Hg. unfold reported in Hg. apply elem_of_take in Hg as (i & Hg & _). apply list_elem_of_lookup_2 in Hg.
  apply list_elem_of_fmap in Hg as ([s t] & -> & Hr). cbn. destruct (runs_spec _ (offsets_sorted (rxQueue (rx e)))) as [Hm _].
  assert (Hst : s <= t) by (exact (proj1 (Forall_forall _ _) (runs_le _) (s, t) Hr)). split; [apply Hm; exists s, t; split; [done|lia]|]. split; [apply Hm; exists s, t; split; [done|lia]|done].
Qed.

(** ** The packet *)

(** What the fields of the receiver hold, by their types. *)
Record rx_typed (e : ep) : Prop := {
  ty_queue : recv_ok (rxQueue (rx e));
  ty_dups : Forall (in_u 32) (dupTSN (rxQueue (rx e)));
  ty_buffer : in_u 32 (maxReceiveBufferSize (rx e));
  ty_ports : in_u 16 (srcPort (hs e)) /\ in_u 16 (dstPort (hs e));
  ty_tag : in_u 32 (peerVerificationTag (hs e))
}.

Lemma sack_chunk_ok e : rx_typed e -> chunk_ok (sack_of e).
Proof.
  intros [Hok Hd Hb _ _]. pose proof (reported_entries e) as Hn. destruct (maxEntries_bounds (mtu (sender e))) as (_ & Hm & _).
  assert (Hg : Forall (fun g => in_u 16 (gap_start g) /\ in_u 16 (gap_end g)) (reported e)).
  { apply Forall_forall. intros g (H1 & H2 & _)%(reported_block e g Hok). apply (offset_range _ _ Hok) in H1, H2. unfold in_u. lia. }
  assert (Hd' : Forall (in_u 32) (reported_dups e)) by (by apply Forall_take).
  split; [split_and!; [apply (r_cum _ Hok)|by apply credit_range|done|done]|].
  intros h Hh. injection Hh as <-. split.
  - unfold chunkSelectiveAck_marshal, fill. cbn [ch_raw]. autorewrite with zlen. rewrite zlen_gaps, zlen_dups. change chunkHeaderSize with 4. lia.
  - unfold chunkHeader_marshal, chunkSelectiveAck_marshal, fill. cbn [ch_raw ch_typ ch_flags]. pose proof (credit_range e Hb). pose proof (r_cum _ Hok : in_u 32 (peerLastTSN e)).
    repeat (apply Forall_app; split); auto using put16_bytes, put32_bytes, u16_range.
    + repeat (apply Forall_cons; split; [by split|]). constructor.
    + apply Forall_concat, Forall_map. eapply Forall_impl; [exact Hg|]. intros g [? ?]. apply Forall_app. split; auto with go.
    + apply Forall_concat, Forall_map. eapply Forall_impl; [exact Hd'|]. auto with go.
Qed.

Lemma sack_size e : zlen (chunk_bytes (sack_of e)) = 16 + 4 * (zlen (reported e) + zlen (reported_dups e)).
Proof.
  unfold chunk_bytes. cbn [chunk_filled sack_of new_chunk k_body k_hdr]. rewrite zlen_app, zlen_chunkHeader_marshal.
  unfold chunkSelectiveAck_marshal, fill. cbn [ch_raw]. autorewrite with zlen. rewrite zlen_gaps, zlen_dups.
  pose proof (zlen_nonneg (reported e)). pose proof (zlen_nonneg (reported_dups e)).
  match goal with |- context [getPadding ?n] => assert (getPadding n = 0) as -> end; [|change (zlen (replicate (Z.to_nat 0) 0)) with 0; lia].
  match goal with |- getPadding ?n = 0 => rewrite (getPadding_mod n 0) end; [done|lia|lia|]. Z.to_euclidean_division_equations. lia.
Qed.

(** The queue and the state of acknowledgement once the SACK is on its way. *)
Definition acked_ep (e : ep) : ep := set_queue (popDuplicates (rxQueue (rx e))).2 (set_ack ackStateIdle (ackTmr (rx e)) e).

Lemma sack_sent recv raws e :
  rx_typed e -> aligned (rxQueue (rx e)) -> ackState (rx e) = ackStateImmediate ->
  (sendZeroChecksum (ext e) = true -> recv = false) ->
  exists raw h, gatherOutboundSackPackets raws e = Some (raws ++ [raw], acked_ep e)
    /\ zlen raw = 28 + 4 * (zlen (reported e) + zlen (reported_dups e))
    /\ packet_unmarshal recv raw
       = Ok (mkPacket (srcPort (hs e)) (dstPort (hs e)) (peerVerificationTag (hs e)) [mkChunk h (k_body (sack_of e))]).
Proof.
  intros Ht Ha Hack Hz. unfold gatherOutboundSackPackets. rewrite bool_decide_eq_true_2 by done. cbn [negb].
  rewrite (createSelectiveAck_spec (set_ack _ _ e)) by (apply Ht || done). cbn [mbind option_bind].
  change (sack_of (set_ack _ _ e)) with (sack_of e). change (set_queue _ (set_ack _ _ e)) with (acked_ep e).
  change (createPacket (acked_ep e) [sack_of e]) with (createPacket e [sack_of e]).
  pose proof (sack_chunk_ok e Ht) as Hc. pose proof Ht as [_ _ _ [? ?] ?].
  destruct (packet_exchange (createPacket e [sack_of e]) (negb (sendZeroChecksum (ext e)) || false) recv) as (raw & p' & E & Hl & Hu & Hs).
  - split_and!; [done|done|done|by apply Forall_singleton|done].
  - destruct (sendZeroChecksum (ext e)) eqn:Es; [right|by left]. split; [by apply Hz|]. intros c h Hh Hf. injection Hh as <-. injection Hf as <-. done.
  - unfold emit, marshalPacket. change (ext (acked_ep e)) with (ext e). change (chunkMandatoryChecksum _) with false. rewrite E.
    cbn [mbind option_bind]. destruct p' as [sp dp vt cs]. destruct Hs as (H1 & H2 & H3 & H4). cbn in H1, H2, H3, H4. subst sp dp vt.
    destruct cs as [|[h b] [|? ?]]; [done| |done]. injection H4 as H4. cbn [k_body] in H4. exists raw, h. split; [done|]. split.
    + rewrite Hl. cbn [createPacket Packet.chunks map concat]. rewrite app_nil_r, sack_size. lia.
    + rewrite Hu. do 3 f_equal. f_equal. destruct b; try discriminate H4. exact H4.
Qed.

Lemma handleInbound_sack o raw h sp dp tag cum w gaps dups called a' (x : ep) :
  packet_unmarshal (negb (recvZeroChecksum (ext x))) raw = Ok (mkPacket sp dp tag [mkChunk h (chunkSelectiveAck cum w gaps dups)]) ->
  sp <> 0 -> dp <> 0 -> handleSack (clock o) cum w gaps dups (sender x) = Some (inl called, a') ->
  handleInbound o raw x = Some (None, on_sender (fun _ => a') (handleChunksStart x)).
Proof.
  intros Hu Hs Hd E. unfold handleInbound. rewrite Hu. unfold handlePacket, checkPacket. cbn [sourcePort destinationPort Packet.chunks existsb k_body].
  apply Z.eqb_neq in Hs, Hd. rewrite Hs, Hd. cbn [orb]. cbn [handleChunks]. unfold handleChunk. cbn [check k_body]. unfold dispatch. cbn [k_body].
  change (sender (handleChunksStart x)) with (sender x). rewrite E. reflexivity.
Qed.

End AckSpec.

(** When all blocks are reported they cover what was received, and nothing else. *)
Lemma reported_covers {S} `{SS : StreamScheduler S} {Q} `{QI : QueueImpl loc Q} (e : @endpoint S Q) (i : nat) :
  recv_ok (rxQueue (rx e)) -> zlen (runs (offsets (rxQueue (rx e)))) <= selectiveAckMaxEntries (mtu (sender e)) ->
  Z.of_nat i < 2 ^ 31 ->
  covered_by (reported e) i = bool_decide (peerLastTSN e +32 (Z.of_nat i + 1) ∈ received (rxQueue (rx e))).
Proof.
  intros Hok Hall Hi. set (q := rxQueue (rx e)) in *. assert (Hr : reported e = map gap (runs (offsets q))).
  { unfold reported. fold q. rewrite take_ge; [done|]. rewrite length_map. unfold zlen in Hall. lia. }
  change (peerLastTSN e +32 _) with (at_offset q (Z.of_nat i + 1)). apply eq_bool_prop_intro. split.
  - intros H%Is_true_true. apply bool_decide_spec. unfold covered_by in H. apply existsb_exists in H as (g & Hg & Hc).
    apply list_elem_of_In in Hg. rewrite Hr in Hg. apply list_elem_of_fmap in Hg as ([s t] & -> & Hst). unfold covers in Hc. cbn in Hc.
    apply list_elem_of_fmap. exists (Z.of_nat i + 1). split; [done|]. apply (proj1 (runs_spec _ (offsets_sorted q))). exists s, t.
    split; [done|]. go_bool. lia.
  - intros H%bool_decide_spec. apply Is_true_true. apply received_spec in H as [_ H]; [|done]. rewrite dist_at in H by lia.
    apply (proj1 (runs_spec _ (offsets_sorted q))) in H as (s & t & Hst & Hle). unfold covered_by. rewrite Hr. apply existsb_exists.
    exists (gap (s, t)). split; [apply list_elem_of_In, list_elem_of_fmap; by exists (s, t)|]. unfold covers. cbn. go_bool. lia.
Qed.


(** ** Acknowledgements are due in time *)

Section AckDue.
Context {S : Type} `{SS : StreamScheduler S} {Q : Type} `{QI : QueueImpl loc Q}.

Abbreviation ep := (@endpoint S Q).

Implicit Types e : ep.

(** An acknowledgement was asked for while a packet is handled. *)
Definition triggered (e : ep) : bool := delayedAckTriggered (rx e) || immediateAckTriggered (rx e).

Definition flags_kept (e e' : ep) : Prop :=
  delayedAckTriggered (rx e') = delayedAckTriggered (rx e) /\ immediateAckTriggered (rx e') = immediateAckTriggered (rx e).

Lemma flags_refl e : flags_kept e e.
Proof. done. Qed.

Lemma flags_rx e e' : rx e' = rx e -> flags_kept e e'.
Proof. intros H. unfold flags_kept. by rewrite H. Qed.

Lemma flags_trans e1 e2 e3 : flags_kept e1 e2 -> flags_kept e2 e3 -> flags_kept e1 e3.
Proof. intros [? ?] [? ?]. split; congruence. Qed.

Lemma flags_triggered e e' : flags_kept e e' -> triggered e = true -> triggered e' = true.
Proof. intros [H1 H2]. unfold triggered. by rewrite H1, H2. Qed.

Lemma trigger_triggered b e : triggered (trigger b e) = true.
Proof. unfold trigger, triggered. repeat case_match; cbn; by rewrite ?orb_true_r. Qed.

Lemma handlePeer_triggered order b e ps e' : handlePeerLastTSNAndAcknowledgement order b e = Some (ps, e') -> triggered e' = true.
Proof.
  unfold handlePeerLastTSNAndAcknowledgement. destruct (popLoop _ _ _ _) as [[r e1]|]; [|done]. cbn. intros. simplify_eq. apply trigger_triggered.
Qed.

Lemma flags_getOrCreate si acc ppi e : flags_kept e (getOrCreateStream si acc ppi e).2.
Proof. unfold getOrCreateStream, createStream, setPayloadType. repeat case_match; by simplify_eq/=. Qed.

Lemma flags_accept d e : flags_kept e (acceptPayloadData d e).2.
Proof.
  unfold acceptPayloadData. pose proof (flags_getOrCreate (streamIdentifier d) true 0 e) as H. destruct (getOrCreateStream _ _ _ e) as [ok e1].
  assert (Hp : flags_kept e1 (pushPayloadDataToStream d e1).2) by (unfold pushPayloadDataToStream; by repeat case_match; simplify_eq/=).
  cbn in H. repeat case_match; cbn; eauto using flags_trans.
Qed.

(** The chunk makes the receiver acknowledge: DATA in a state that receives, of
    the kind negotiated, and not one that the association is aborted for or that
    has no stream. *)
Definition answers (c : chunk) (e : ep) : bool :=
  match k_body c with
  | chunkPayloadData d =>
      receives (getState e) && eqb (isIDataChunk c d) (useInterleaving (ext e))
      && (if canPush (rxQueue (rx e)) (tsn d) then (acceptPayloadData d e).1 else true)
  | _ => false
  end.

Lemma handleData_triggered order ii d e ps e' :
  handleData order ii d e = Some (ps, e') ->
  (triggered e = true -> triggered e' = true)
  /\ (receives (getState e) && eqb ii (useInterleaving (ext e)) && (if canPush (rxQueue (rx e)) (tsn d) then (acceptPayloadData d e).1 else true) = true ->
      triggered e' = true).
Proof.
  unfold handleData. destruct (receives _); cbn [negb andb]; [|intros; by simplify_eq]. destruct (eqb _ _); cbn [negb andb]; [|intros; by simplify_eq].
  pose proof (flags_accept d e) as Hf. destruct (canPush _ _); [destruct (acceptPayloadData d e) as [[|] e1]|]; cbn [negb fst snd] in *; intros E.
  2: { simplify_eq. split; [by apply flags_triggered|done]. }
  all: apply handlePeer_triggered in E; done.
Qed.

Lemma flags_after m l rs e : flags_kept e (after_resets m l rs e).
Proof. done. Qed.

Lemma flags_reconfigParam p e : flags_kept e (handleReconfigParam p e).2.
Proof.
  unfold handleReconfigParam. destruct p as [[? [| | | | | | | |rsn resp lastTSN ids|rsn result|]]|]; try apply flags_refl.
  - destruct (_ && _); [done|]. destruct (resetStreamsIfAny_frame (mkReset rsn resp lastTSN ids) (set_requests (<[rsn := mkReset rsn resp lastTSN ids]> (reconfigRequests (rc e))) e))
      as (m & l & rs & H). destruct (resetStreamsIfAny _ _) as [pk e']. cbn in *. by rewrite H.
  - destruct (result =? _); [by destruct (_ !! _)|]. destruct (result =? _); [|done]. apply flags_rx. cbn.
    unfold resetOutgoingStreamSequenceNumbers. repeat case_match; try done. by rewrite (fold_on_stream_queue (fun _ => Stream.resetOutgoingStreamSequenceNumbers) (fun x => x)).
Qed.

Lemma flags_reconfig pa pb e : flags_kept e (handleReconfig pa pb e).2.
Proof.
  unfold handleReconfig. pose proof (flags_reconfigParam pa e) as H1. destruct (handleReconfigParam pa e) as [[p|] e1]; [|done].
  destruct pb as [b|]; [|done]. pose proof (flags_reconfigParam (Some b) e1) as H2. destruct (handleReconfigParam (Some b) e1) as [[p'|] e2]; by eapply flags_trans.
Qed.

Lemma flags_establish b r e err e1 ok e' : establish e = (err, e1) -> completeHandshake b r e1 = Some (ok, e') -> flags_kept e e'.
Proof. intros E1 E2. apply flags_rx. apply completeHandshake_rx in E2. rewrite E2. pose proof (establish_rx e) as H. by rewrite E1 in H. Qed.

Lemma flags_updateInterleaving e err e1 : updateInterleavingState e = (err, e1) -> flags_kept e e1.
Proof. intros E. apply flags_rx. pose proof (updateInterleavingState_rx e) as H. by rewrite E in H. Qed.

Lemma flags_init k pkt i e : flags_kept e (handleInit k pkt i e).2.
Proof.
  unfold handleInit. destruct (negb _); [done|]. destruct (updateInterleavingState _) as [err e1] eqn:E. apply flags_updateInterleaving in E.
  repeat case_match; done.
Qed.

Lemma flags_initAck pkt i e : flags_kept e (handleInitAck pkt i e).2.
Proof.
  unfold handleInitAck. destruct (negb _); [done|]. destruct (_ || _); [done|]. destruct (updateInterleavingState _) as [err e1] eqn:E. apply flags_updateInterleaving in E.
  repeat case_match; try done.
Qed.

Lemma flags_cookieEcho b k e ps e' : handleCookieEcho b k e = Some (ps, e') -> flags_kept e e'.
Proof.
  unfold handleCookieEcho. destruct (myCookie _); [|intros; by simplify_eq]. 
  assert (Hd : flags_kept e (drop_stored e)) by done.
  assert (Hest : (let (err, e0) := establish (drop_stored e) in
    match err with
    | Some r => '(_, e1) ← completeHandshake b (Some r) e0; Some ([], e1)
    | None => '(ok, e1) ← completeHandshake b None e0;
        if ok : bool then Some ([createPacket e1 [new_chunk chunkCookieAck]], e1) else Some ([], e1)
    end) = Some (ps, e') -> flags_kept e e').
  { destruct (establish _) as [err e0] eqn:E. intros H. eapply flags_trans; [exact Hd|].
    destruct err; (destruct (completeHandshake _ _ _) as [[ok e1]|] eqn:E1; [|done]); eapply flags_establish in E1; eauto; cbn in H; repeat case_match; by simplify_eq. }
  repeat case_match; intros; simplify_eq; try done; by apply Hest.
Qed.

Lemma flags_cookieAck b e e' : handleCookieAck b e = Some e' -> flags_kept e e'.
Proof.
  unfold handleCookieAck. destruct (negb _); [intros; by simplify_eq|]. destruct (establish _) as [err e0] eqn:E.
  destruct (completeHandshake _ _ _) as [[ok e1]|] eqn:E1; [|done]. cbn. intros. simplify_eq. by apply (flags_establish _ _ _ _ _ _ _ E E1).
Qed.

Lemma forward_triggered order cum ss e ps e' : handleForwardTSN order cum ss e = Some (ps, e') -> triggered e = true -> triggered e' = true.
Proof.
  unfold handleForwardTSN. repeat case_match; intros E; simplify_eq; try done.
  destruct (advanceCumulativeTSN _ _); [|done]. cbn [mbind option_bind] in E. apply handlePeer_triggered in E. done.
Qed.

Lemma iforward_triggered order cum ss e ps e' : handleIForwardTSN order cum ss e = Some (ps, e') -> triggered e = true -> triggered e' = true.
Proof.
  unfold handleIForwardTSN. repeat case_match; intros E; simplify_eq; try done.
  destruct (advanceCumulativeTSN _ _); [|done]. cbn [mbind option_bind] in E. apply handlePeer_triggered in E. done.
Qed.

Lemma dispatch_triggered o pkt c e r e' :
  dispatch o pkt c e = Some (r, e') -> (triggered e = true -> triggered e' = true) /\ (answers c e = true -> triggered e' = true).
Proof.
  unfold dispatch, answers. destruct (k_body c) as [i|i|cs|cs|k| |ps|ps|d|cum rw gaps dups|pa pb|cum ss|cum ss|cum| |].
  9: { destruct (handleData _ _ _ _) as [[ps e1]|] eqn:E; [|done]. cbn. intros. simplify_eq. by eapply handleData_triggered. }
  all: intros E; (split; [|done]).
  - pose proof (flags_init (randomCookie o) pkt i e) as H. destruct (handleInit _ _ _ _). simplify_eq. by apply flags_triggered.
  - pose proof (flags_initAck pkt i e) as H. destruct (handleInitAck _ _ _). simplify_eq. by apply flags_triggered.
  - cbn in E. by simplify_eq.
  - by simplify_eq.
  - destruct (handleCookieEcho _ _ _) as [[ps e1]|] eqn:E1; [|done]. cbn in E. simplify_eq. by eapply flags_triggered, flags_cookieEcho.
  - destruct (handleCookieAck _ _) as [e1|] eqn:E1; [|done]. cbn in E. simplify_eq. by eapply flags_triggered, flags_cookieAck.
  - by simplify_eq.
  - simplify_eq. apply flags_triggered, flags_rx. unfold handleHeartbeatAck. by repeat case_match.
  - destruct (handleSack _ _ _ _ _ _) as [[? a]|]; [|done]. cbn in E. by simplify_eq.
  - pose proof (flags_reconfig pa pb e) as H. destruct (handleReconfig _ _ _). simplify_eq. by apply flags_triggered.
  - destruct (handleForwardTSN _ _ _ _) as [[ps e1]|] eqn:E1; [|done]. cbn in E. simplify_eq. by eapply forward_triggered.
  - destruct (handleIForwardTSN _ _ _ _) as [[ps e1]|] eqn:E1; [|done]. cbn in E. simplify_eq. by eapply iforward_triggered.
  - simplify_eq. apply flags_triggered. unfold handleShutdown. by repeat case_match.
  - simplify_eq. apply flags_triggered. unfold handleShutdownAck. by repeat case_match.
  - simplify_eq. apply flags_triggered. unfold handleShutdownComplete. by repeat case_match.
Qed.

Lemma handleChunk_triggered o pkt c e r e' :
  handleChunk o pkt c e = Some (r, e') -> (triggered e = true -> triggered e' = true) /\ (answers c e = true -> triggered e' = true).
Proof.
  unfold handleChunk. destruct (check c) as [ab [x|]] eqn:Ec.
  - intros. simplify_eq. split; [by destruct (_ && _)|]. unfold answers. unfold check in Ec. by destruct (k_body c).
  - destruct (dispatch o pkt c e) as [[r0 e0]|] eqn:E; [|done]. apply dispatch_triggered in E. cbn. intros H.
    repeat case_match; simplify_eq/=; exact E.
Qed.

(** Some chunk of the packet was one to acknowledge, when its turn came. *)
Fixpoint answered (o : oracle) (pkt : packet) (cs : list chunk) (e : ep) : bool :=
  match cs with
  | [] => false
  | c :: cs' => answers c e || match handleChunk o pkt c e with Some (None, e') => answered o pkt cs' e' | _ => false end
  end.

(** A SACK goes out at the next turn of the write loop, which is awake, or when
    the timer fires; a closed timer belongs to a closed association. *)
Definition due (e : ep) : Prop :=
  (ackState (rx e) = ackStateImmediate /\ awake (plan (sender e)) = true)
  \/ (ackState (rx e) = ackStateDelay /\ (a_state (ackTmr (rx e)) = rtxTimerStarted \/ a_state (ackTmr (rx e)) = rtxTimerClosed)).

Lemma end_due e : triggered e = true -> due (handleChunksEnd e).
Proof.
  unfold triggered, handleChunksEnd, due. destruct (immediateAckTriggered (rx e)); [intros _; by left|]. rewrite orb_false_r. intros ->. right. cbn. split; [done|].
  unfold ack_start. case_bool_decide as Hs; cbn; [by left|]. destruct (a_state (ackTmr (rx e))); auto. by destruct Hs.
Qed.

Lemma handleChunks_due o pkt cs : forall e e',
  handleChunks o pkt cs e = Some (None, e') -> triggered e || answered o pkt cs e = true -> due e'.
Proof.
  induction cs as [|c cs IH]; intros e e' E Ht; cbn [handleChunks answered] in *.
  - simplify_eq. rewrite orb_false_r in Ht. by apply end_due.
  - destruct (handleChunk o pkt c e) as [[[x|] e1]|] eqn:E1; cbn [mbind option_bind] in E; [done| |done].
    apply (IH e1); [exact E|]. apply handleChunk_triggered in E1 as [H1 H2]. apply orb_true_iff in Ht as [Ht|Ht]; [by rewrite H1|].
    apply orb_true_iff in Ht as [Ht|Ht]; [by rewrite H2|]. by rewrite Ht, orb_true_r.
Qed.

(** Once the timer, if the acknowledgement is delayed, has fired. *)
Definition when_due (e : ep) : ep := if bool_decide (ackState (rx e) = ackStateImmediate) then e else onAckTimeout e.

End AckDue.

(** C15. Data is acknowledged in time.  After a packet with a DATA chunk that the
    receiver takes or has already, and with no ABORT, a SACK is due: at once, with the write
    loop woken, or when the acknowledgement timer fires, which runs unless the
    association is closed.  Then the loop is awake and sends one packet, which
    decodes to a SACK for the cumulative TSN of that moment. *)
Theorem data_acknowledged_in_time {S} `{SS : StreamScheduler S} {Q} `{QI : QueueImpl loc Q} o pkt (e e' : @endpoint S Q) :
  checkPacket pkt = None -> handlePacket o pkt e = Some (None, e') ->
  answered o pkt (Packet.chunks pkt) (handleChunksStart e) = true ->
  due e' /\ awake (plan (sender (when_due e'))) = true
  /\ (forall raws recv, rx_typed e' -> aligned (rxQueue (rx e')) -> (sendZeroChecksum (ext e') = true -> recv = false) ->
        exists raw h rwnd gaps dups, gatherOutboundSackPackets raws (when_due e') = Some (raws ++ [raw], acked_ep (when_due e'))
        /\ packet_unmarshal recv raw = Ok (mkPacket (srcPort (hs e')) (dstPort (hs e')) (peerVerificationTag (hs e'))
                                             [mkChunk h (chunkSelectiveAck (peerLastTSN e') rwnd gaps dups)])).
Proof.
  intros Hc E Ha. unfold handlePacket in E. rewrite Hc in E.
  assert (Hd : due e') by (eapply handleChunks_due; [exact E|by rewrite Ha, orb_true_r]).
  assert (Hw : ackState (rx (when_due e')) = ackStateImmediate /\ awake (plan (sender (when_due e'))) = true).
  { unfold when_due. case_bool_decide as Hi; [|done]. destruct Hd as [?|[Hx _]]; [done|]. by rewrite Hx in Hi. }
  split; [done|]. split; [apply Hw|]. intros raws recv Ht Hal Hz.
  assert (Hsame : rx_typed (when_due e') /\ rxQueue (rx (when_due e')) = rxQueue (rx e') /\ hs (when_due e') = hs e' /\ ext (when_due e') = ext e').
  { unfold when_due. case_bool_decide; [done|]. split_and!; [|done..]. destruct Ht. by constructor. }
  destruct Hsame as (Ht' & Hq & Hh & Hx).
  destruct (sack_sent recv raws (when_due e') Ht') as (raw & h & Es & _ & Hu); [by rewrite Hq|apply Hw|by rewrite Hx|].
  exists raw, h, (getMyReceiverWindowCredit (when_due e')), (reported (when_due e')), (reported_dups (when_due e')). split; [exact Es|].
  rewrite Hu, Hh. unfold peerLastTSN. by rewrite <- Hq.
Qed.

Module AckExample.
Import SendExample.
Import StepExample.

Definition end_ (a : assoc_) (q : receivePayloadQueue) : @endpoint sched (RingQueue.queue loc) :=
  mkEP a (mkHS 8 7 5000 5000 65535 65535 None None None (newRTXTimer 8 F64.zero) (newRTXTimer 8 F64.zero))
    (mkExt false false false true false false false 72 65536)
    (mkRx q 1048576 ackStateImmediate ackModeNormal newAckTimer false false [] []) (mkRc 1 ∅ ∅ (newRTXTimer 0 F64.zero))
    (mkEnd false false None (newRTXTimer 0 F64.zero) false false None) WindowedMin.newControlQueue.

Lemma end_typed a q : recv_ok q -> dupTSN q = [] -> rx_typed (end_ a q).
Proof. intros Hq Hd. constructor; cbn; [done|by rewrite Hd|by split|by repeat split|by split]. Qed.

(** TSNs 100 and 102 have arrived. *)
Definition got_two : receivePayloadQueue :=
  (RecvQueue.pop (RecvQueue.push (RecvQueue.push (RecvQueue.init (newReceivePayloadQueue (getMaxTSNOffset 1024)) 99) 100).2 102).2 false).2.

Lemma got_two_ok : recv_ok got_two.
Proof.
  assert (H0 : recv_ok (RecvQueue.init (newReceivePayloadQueue (getMaxTSNOffset 1024)) 99)) by (apply (new_init_ok 1024 99); by split).
  assert (H1 : forall q t, recv_ok q -> aligned q -> in_u 32 t -> recv_ok (RecvQueue.push q t).2).
  { intros q t Hq Ha Ht. pose proof (push_spec q t Hq Ha Ht) as H. destruct (RecvQueue.push q t). apply H. }
  assert (H2 : recv_ok (RecvQueue.push (RecvQueue.push (RecvQueue.init (newReceivePayloadQueue (getMaxTSNOffset 1024)) 99) 100).2 102).2).
  { apply H1; [apply H1; [exact H0|left; vm_compute; reflexivity|by split]|left; vm_compute; reflexivity|by split]. }
  pose proof (pop_spec _ false H2 ltac:(left; vm_compute; reflexivity)) as H. unfold got_two. destruct (RecvQueue.pop _ false) as [ok q].
  destruct H as [_ H]. destruct (ok || false); [apply H|by subst].
Qed.


(** A DATA chunk in order: the SACK is delayed. *)
Definition arriving : packet := RxExample.pkt (RxExample.data 1000).

Definition after_data : RxExample.ep_ := from_option snd RxExample.up (handlePacket RxExample.orc arriving RxExample.up).

Lemma data_acknowledged_in_time_witness :
  handlePacket RxExample.orc arriving RxExample.up = Some (None, after_data) /\ ackState (rx after_data) = ackStateDelay /\ due after_data.
Proof.
  assert (E : handlePacket RxExample.orc arriving RxExample.up = Some (None, after_data)) by (vm_compute; reflexivity).
  split; [exact E|]. split; [vm_compute; reflexivity|].
  refine (proj1 (data_acknowledged_in_time RxExample.orc arriving RxExample.up after_data _ E _)); vm_compute; reflexivity.
Defined.

End AckExample.
