(* ===== verification/HandshakeSpec.v ===== *)
(** * What the handshake establishes

    Two endpoints, each a client that has sent an INIT or a server that waits,
    and a network that loses, repeats and reorders the packets.  The invariant
    says what every packet on the way can be, and what each end knows of the
    other. *)

From S2P Require Import Prelude.
From S2P Require Import Serial.
From S2P Require Import Float64.
From S2P Require Import Bytes.
From S2P Require Import Params.
From S2P Require Import Causes.
From S2P Require Import Chunks.
From S2P Require Import Packet.
From S2P Require Import RingQueue.
From S2P Require Import PayloadQueue.
From S2P Require Import RecvQueue.
From S2P Require Import WindowedMin.
From S2P Require Import PendingQueue.
From S2P Require Import PendingSpec.
From S2P Require Import Reassembly.
From S2P Require Import Stream.
From S2P Require Import Timers.
From S2P Require Import Sender.
From S2P Require Import Sack.
From S2P Require Import RoundTrip.
From S2P Require Import Endpoint.
From S2P Require Import Receive.
From S2P Require Import Handshake.
From S2P Require Import Outbound.
From S2P Require Import Config.
From S2P Require Import ReceiveSpec.

Local Open Scope Z_scope.
Local Open Scope go_scope.

(** ** What an endpoint brings *)

Record profile := mkProfile { pf_tag : Z; pf_tsn : Z; pf_buf : Z; pf_inter : bool; pf_zero : bool }.

(** A window below 1500 bytes is refused by the peer. *)
Record profile_ok (p : profile) : Prop := {
  po_tag : 0 < pf_tag p < 2 ^ 32;
  po_tsn : in_u 32 (pf_tsn p);
  po_buf : 1500 <= pf_buf p < 2 ^ 32
}.

Definition cookie_ok (k : list Z) : Prop := bytes k /\ zlen k = 32.

Definition init_of_profile (p : profile) : chunkInitCommon :=
  mkInitCommon (pf_tag p) (pf_buf p) 65535 65535 (pf_tsn p) (extensionsParam (pf_inter p) :: zeroChecksumParams (pf_zero p)) [].

Definition ack_of_profile (p : profile) (k : list Z) : chunkInitCommon :=
  mkInitCommon (pf_tag p) (pf_buf p) 65535 65535 (pf_tsn p)
    (new_param (paramStateCookie k) :: zeroChecksumParams (pf_zero p) ++ [extensionsParam (pf_inter p)]) [].

(** The four packets, from the end [p] to the end [p']. *)
Definition wrapped (tag : Z) (b : chunk_body) : packet := mkPacket 5000 5000 tag [new_chunk b].

Definition init_packet (p : profile) : packet := wrapped 0 (chunkInit (init_of_profile p)).

Definition ack_packet (p p' : profile) (k : list Z) : packet := wrapped (pf_tag p') (chunkInitAck (ack_of_profile p k)).

Definition echo_packet (p' : profile) (k : list Z) : packet := wrapped (pf_tag p') (chunkCookieEcho k).

Definition done_packet (p' : profile) : packet := wrapped (pf_tag p') chunkCookieAck.

Definition hello (p p' : profile) (k : list Z) : list packet :=
  [init_packet p; ack_packet p p' k; echo_packet p' k; done_packet p'].

(** *** They survive the wire *)

Lemma byte_list l : forallb (fun x => (0 <=? x) && (x <? 256)) l = true -> bytes l.
Proof. intros H%Is_true_true%forallb_True. eapply Forall_impl; [exact H|]. intros x Hx%Is_true_true. unfold is_byte. go_bool. lia. Qed.

Lemma extensions_param_ok b : param_ok (extensionsParam b) /\ bytes (param_marshal (extensionsParam b)) /\ 4 < zlen (param_marshal (extensionsParam b)) <= 8.
Proof. destruct b; (split; [split; [by apply byte_list|by vm_compute]|]); (split; [by apply byte_list|by vm_compute]). Qed.

Lemma zero_params_ok b :
  Forall (fun p => param_ok p /\ bytes (param_marshal p) /\ 4 < zlen (param_marshal p) <= 8) (zeroChecksumParams b).
Proof.
  destruct b; [|constructor]. apply Forall_singleton. split; [split; [by split|by vm_compute]|]. split; [by apply byte_list|by vm_compute].
Qed.

Lemma cookie_param_ok k :
  cookie_ok k -> param_ok (new_param (paramStateCookie k)) /\ bytes (param_marshal (new_param (paramStateCookie k)))
    /\ zlen (param_marshal (new_param (paramStateCookie k))) = 36.
Proof.
  intros [Hb Hl]. assert (Hz : zlen (param_marshal (new_param (paramStateCookie k))) = 36).
  { unfold param_marshal. rewrite zlen_paramHeader_marshal. cbn. lia. }
  split; [split; [done|by rewrite Hz]|]. split; [|done]. unfold param_marshal, paramHeader_marshal.
  apply Forall_app; split; [apply put16_bytes, param_filled_typ|apply Forall_app; split; [apply put16_bytes, u16_range|done]].
Qed.

Lemma params_bytes ps :
  Forall (fun p => bytes (param_marshal p) /\ zlen (param_marshal p) <= 36) ps ->
  bytes (params_marshal ps) /\ zlen (params_marshal ps) <= 40 * zlen ps.
Proof.
  intros H. assert (Hz : forall p, 0 <= getPadding (zlen (param_marshal p)) <= 3) by (intros; unfold getPadding, paddingMultiple; Z.to_euclidean_division_equations; lia).
  induction H as [|p ps [Hb Hl] Hps IH]; [by split; [constructor|]|].
  destruct IH as [IHb IHl]. pose proof (zlen_nonneg ps). destruct ps as [|p' ps]; [split; [done|]; change (zlen [p]) with 1; cbn [params_marshal]; lia|].
  change (params_marshal (p :: p' :: ps)) with (padByte (param_marshal p) (getPadding (zlen (param_marshal p))) ++ params_marshal (p' :: ps)). unfold padByte. destruct (Z.ltb_spec (getPadding (zlen (param_marshal p))) 0); [specialize (Hz p); lia|]. split.
  - apply Forall_app. split; [|done]. apply Forall_app. split; [done|]. apply Forall_replicate. unfold is_byte. lia.
  - rewrite zlen_cons, !zlen_app. specialize (Hz p).
    assert (Hr : forall n : nat, zlen (replicate n 0) = Z.of_nat n) by (intros n; unfold zlen; by rewrite length_replicate). rewrite Hr. lia.
Qed.

Lemma header_bytes h : is_byte (ch_typ h) -> is_byte (ch_flags h) -> bytes (ch_raw h) -> bytes (chunkHeader_marshal h).
Proof.
  intros Ht Hf Hr. unfold chunkHeader_marshal. apply Forall_app. split; [by repeat (apply Forall_cons; split; [done|])|]. apply Forall_app. split; [apply put16_bytes, u16_range|done].
Qed.

Lemma init_chunk_ok (mk : chunkInitCommon -> chunk_body) i :
  mk = chunkInit \/ mk = chunkInitAck -> init_ok i -> Forall (fun p => bytes (param_marshal p) /\ zlen (param_marshal p) <= 36) (params i) ->
  zlen (params i) <= 3 -> chunk_ok (new_chunk (mk i)).
Proof.
  intros Hm Hi Hp Hn. pose proof Hi as (H1 & H2 & H3 & H4 & H5 & _). destruct (params_bytes _ Hp) as [Hb Hl].
  assert (Hc : bytes (chunkInitCommon_marshal i) /\ zlen (chunkInitCommon_marshal i) <= 136).
  { unfold chunkInitCommon_marshal. split; [repeat (apply Forall_app; split); auto with go|]. autorewrite with zlen. lia. }
  destruct Hc as [Hcb Hcl]. destruct Hm as [-> | ->]; (split; [by split|]); intros h Hh; injection Hh as <-;
    (split; [change (4 + zlen (chunkInitCommon_marshal i) < 2 ^ 16); lia|]); (apply header_bytes; [by split|by split|exact Hcb]).
Qed.

Lemma init_of_ok p : profile_ok p -> init_ok (init_of_profile p).
Proof.
  intros [Ht Hs Hb]. destruct (extensions_param_ok (pf_inter p)) as (He & _ & Hel). pose proof (zero_params_ok (pf_zero p)) as Hz.
  unfold init_of_profile. split_and!; cbn; try (by split); try (unfold in_u; lia); try done.
  - constructor; [done|]. eapply Forall_impl; [exact Hz|]. tauto.
  - intros q Hq. destruct (pf_zero p); cbn in Hq; simplify_eq; [by vm_compute|lia].
Qed.

Lemma ack_of_ok p k : profile_ok p -> cookie_ok k -> init_ok (ack_of_profile p k).
Proof.
  intros [Ht Hs Hb] Hk. destruct (extensions_param_ok (pf_inter p)) as (He & _ & Hel). pose proof (zero_params_ok (pf_zero p)) as Hz.
  unfold ack_of_profile. split_and!; cbn; try (by split); try (unfold in_u; lia); try done.
  - constructor; [by apply cookie_param_ok|]. apply Forall_app. split; [eapply Forall_impl; [exact Hz|]; tauto|by apply Forall_singleton].
  - intros q Hq. rewrite app_comm_cons, last_snoc in Hq. simplify_eq. lia.
Qed.

(** A chunk without parameters. *)
Lemma small_chunk_ok b h :
  chunk_filled (new_chunk b) = Ok h -> body_ok (mkChunkHeader 0 0 []) b -> is_byte (ch_typ h) -> ch_flags h = 0 -> bytes (ch_raw h) -> zlen (ch_raw h) <= 32 ->
  chunk_ok (new_chunk b).
Proof.
  intros Hf Hb Ht Hfl Hr Hl. split; [done|]. intros h' Hh. rewrite Hf in Hh. injection Hh as <-. split; [change chunkHeaderSize with 4; lia|].
  apply header_bytes; [done|rewrite Hfl; by split|done].
Qed.

Lemma hello_ok p p' k : profile_ok p -> profile_ok p' -> cookie_ok k -> Forall packet_ok (hello p p' k).
Proof.
  intros Hp Hp' Hk. pose proof (po_tag _ Hp') as Ht'.
  destruct (extensions_param_ok (pf_inter p)) as (_ & He & Hel). pose proof (zero_params_ok (pf_zero p)) as Hz.
  assert (Hps : Forall (fun q => bytes (param_marshal q) /\ zlen (param_marshal q) <= 36) (zeroChecksumParams (pf_zero p))).
  { eapply Forall_impl; [exact Hz|]. intros q (_ & ? & ?). split; [done|lia]. }
  destruct (cookie_param_ok k Hk) as (_ & Hkb & Hkl). assert (Hzl : zlen (zeroChecksumParams (pf_zero p)) <= 1) by (by destruct (pf_zero p)).
  assert (Hw : forall tag b, in_u 32 tag -> chunk_ok (new_chunk b) -> packet_ok (wrapped tag b)).
  { intros tag b Hu Hc. split_and!; [by split|by split|done|by apply Forall_singleton|by destruct b]. }
  unfold hello. repeat (apply Forall_cons; split); [..|constructor]; apply Hw; try (unfold in_u; lia).
  - apply init_chunk_ok; [by left|by apply init_of_ok| |]; cbn [init_of_profile params]; [constructor; [split; [done|lia]|done]|rewrite zlen_cons; lia].
  - apply init_chunk_ok; [by right|by apply ack_of_ok| |]; cbn [ack_of_profile params].
    + constructor; [split; [done|lia]|]. apply Forall_app. split; [done|]. apply Forall_singleton. split; [done|lia].
    + rewrite zlen_cons, zlen_app. change (zlen [extensionsParam (pf_inter p)]) with 1. lia.
  - destruct Hk. eapply small_chunk_ok; [reflexivity|done|by split|done|done|cbn; lia].
  - eapply small_chunk_ok; [reflexivity|done|by split|done|constructor|done].
Qed.

(** ** What handlers read of a decoded chunk *)

Lemma decoded_single tag b q :
  same_content (wrapped tag b) q -> exists c, q = mkPacket 5000 5000 tag [c] /\ erase (k_body c) = erase b.
Proof.
  destruct q as [sp dp vt cs]. intros (H1 & H2 & H3 & H4). cbn in *. subst. destruct cs as [|c [|? ?]]; [done| |done]. exists c. injection H4 as H4. done.
Qed.

(** The same INIT, as far as it is read. *)
Record same_init (i i' : chunkInitCommon) : Prop := {
  si_tag : initiateTag i' = initiateTag i;
  si_rwnd : advertisedReceiverWindowCredit i' = advertisedReceiverWindowCredit i;
  si_out : numOutboundStreams i' = numOutboundStreams i;
  si_in : numInboundStreams i' = numInboundStreams i;
  si_tsn : initialTSN i' = initialTSN i;
  si_params : map p_body (params i') = map p_body (params i);
  si_unrecognized : unrecognizedParams i' = unrecognizedParams i
}.

Lemma erased_init i i' : erase_init i' = erase_init i -> same_init i i'.
Proof.
  destruct i, i'. unfold erase_init. cbn. intros H. injection H as -> -> -> -> -> Hp ->. constructor; try done. cbn.
  apply (f_equal (map p_body)) in Hp. by rewrite !map_map in Hp.
Qed.

Lemma fold_bodies {A} (f : A -> param_body -> A) ps ps' x :
  map p_body ps' = map p_body ps -> fold_left (fun x p => f x (p_body p)) ps' x = fold_left (fun x p => f x (p_body p)) ps x.
Proof.
  intros H. assert (Hf : forall l y, fold_left (fun x p => f x (p_body p)) l y = fold_left f (map p_body l) y).
  { induction l as [|p l IH]; intros y; [done|]. apply IH. }
  by rewrite !Hf, H.
Qed.

Lemma same_extensions ps ps' : map p_body ps' = map p_body ps -> getSupportedExtensions ps' = getSupportedExtensions ps.
Proof. apply (fold_bodies (fun x b => match b with paramSupportedExtensions types => Handshake.join x (supportedExtensionsFromChunkTypes types) | _ => x end)). Qed.

Lemma same_zeroChecksum ps ps' b : map p_body ps' = map p_body ps -> zeroChecksum ps' b = zeroChecksum ps b.
Proof. apply (fold_bodies (fun b x => match x with paramZeroChecksumAcceptable edmid => edmid =? dtlsErrorDetectionMethod | _ => b end)). Qed.

Lemma same_cookie ps ps' : map p_body ps' = map p_body ps -> cookieParam ps' = cookieParam ps.
Proof. apply (fold_bodies (fun c x => match x with paramStateCookie k => Some k | _ => c end)). Qed.

(** What both kinds of INIT say. *)
Record speaks_for (p : profile) (i : chunkInitCommon) : Prop := {
  sf_tag : initiateTag i = pf_tag p;
  sf_buf : advertisedReceiverWindowCredit i = pf_buf p;
  sf_out : numOutboundStreams i = 65535;
  sf_in : numInboundStreams i = 65535;
  sf_tsn : initialTSN i = pf_tsn p;
  sf_ext : getSupportedExtensions (params i) = mkSupported true (pf_inter p) (pf_inter p);
  sf_zero : forall b, zeroChecksum (params i) b = pf_zero p || b;
  sf_unrecognized : unrecognizedParams i = []
}.

Lemma init_speaks p i : same_init (init_of_profile p) i -> speaks_for p i.
Proof.
  intros [H1 H2 H3 H4 H5 H6 H7]. constructor; try done.
  - rewrite (same_extensions _ _ H6). cbn. destruct (pf_inter p), (pf_zero p); done.
  - intros b. rewrite (same_zeroChecksum _ _ _ H6). cbn. destruct (pf_zero p); done.
Qed.

Lemma ack_speaks p k i : same_init (ack_of_profile p k) i -> speaks_for p i /\ cookieParam (params i) = Some k.
Proof.
  intros [H1 H2 H3 H4 H5 H6 H7]. split; [constructor; try done|].
  - rewrite (same_extensions _ _ H6). cbn. destruct (pf_inter p), (pf_zero p); done.
  - intros b. rewrite (same_zeroChecksum _ _ _ H6). cbn. destruct (pf_zero p); done.
  - rewrite (same_cookie _ _ H6). cbn. destruct (pf_zero p); done.
Qed.

Section HandshakeSpec.
Context {S : Type} `{SS : StreamScheduler S} {Q : Type} `{QI : QueueImpl loc Q}.

Abbreviation ep := (@endpoint S Q).

Implicit Types (e f : ep) (p : profile).

(** ** What an end keeps and learns *)

(** The sender has nothing in store. *)
Definition idle (a : @association S Q) : Prop :=
  heap a = ∅ /\ inflightQueue a = newPayloadQueue /\ rackList (rack a) = [] /\ cumulativeTSNAckPoint a = myNextTSN a -32 1 /\ streams_ a = ∅.

(** Its pending queue is new, in either mode. *)
Definition fresh (q : @PendingSpec.pendingQueue S) : Prop :=
  if PendingSpec.interleaving q then exists s, policy q = InterleavingPolicy (Reset s)
  else policy q = MessagePolicy Message.newMessagePendingQueuePolicy.

(** What never changes during the handshake. *)
Record base (p : profile) (e : ep) : Prop := {
  b_tag : myVerificationTag (hs e) = pf_tag p;
  b_tsn : myNextTSN (sender e) = pf_tsn p;
  b_buf : maxReceiveBufferSize (rx e) = pf_buf p;
  b_local : localInterleaving (ext e) = pf_inter p;
  b_zero : recvZeroChecksum (ext e) = pf_zero p;
  b_in : myMaxNumInboundStreams (hs e) = 65535;
  b_out : myMaxNumOutboundStreams (hs e) = 65535;
  b_empty : nChunks (pendingQueue (sender e)) = 0;
  b_mode : PendingSpec.interleaving (pendingQueue (sender e)) = useInterleaving (ext e);
  b_sched : exists s, newStreamScheduler (pendingQueue (sender e)) = Some (Some s);
  b_open : closedCh (fin e) = false;
  b_queue : recv_ok (rxQueue (rx e));
  b_cookie : forall k, myCookie (hs e) = Some k -> cookie_ok k;
  b_timers : t_state (t1Init (hs e)) <> rtxTimerClosed /\ t_state (t1Cookie (hs e)) <> rtxTimerClosed;
  b_idle : idle (sender e);
  b_fresh : fresh (pendingQueue (sender e));
  b_dups : dupTSN (rxQueue (rx e)) = [];
  b_wire : in_u 16 (srcPort (hs e)) /\ in_u 16 (dstPort (hs e)) /\ in_u 32 (peerVerificationTag (hs e))
}.

(** What has been negotiated with the peer: both ends compute it from the two
    profiles. *)
Record knows (p p' : profile) (e : ep) : Prop := {
  kn_tag : peerVerificationTag (hs e) = pf_tag p';
  kn_tsn : peerLastTSN e = pf_tsn p' -32 1;
  kn_received : received (rxQueue (rx e)) = [];
  kn_rwnd : rwnd (cc (sender e)) = pf_buf p';
  kn_inter : useInterleaving (ext e) = pf_inter p && pf_inter p';
  kn_fwd : useForwardTSN (sender e) = negb (pf_inter p && pf_inter p');
  kn_ifwd : useIForwardTSN (sender e) = pf_inter p && pf_inter p';
  kn_peer : (peerInterleaving (ext e), peerForwardTSN (ext e), peerIForwardTSN (ext e)) = (pf_inter p', true, pf_inter p');
  kn_zero : sendZeroChecksum (ext e) = pf_zero p';
  kn_ports : srcPort (hs e) = 5000 /\ dstPort (hs e) = 5000
}.

(** Nothing has been negotiated. *)
Definition blank (e : ep) : Prop := useInterleaving (ext e) = false /\ sendZeroChecksum (ext e) = false.

(** What the handlers that learn leave alone. *)
Definition core (e : ep) :=
  (state (sender e), storedInit (hs e), storedCookieEcho (hs e), t1Init (hs e), t1Cookie (hs e), fin e, control e).

Lemma setInterleaving_empty (q : @PendingSpec.pendingQueue S) use :
  nChunks q = 0 -> (exists s, newStreamScheduler q = Some (Some s)) -> fresh q ->
  exists q', PendingSpec.setInterleaving q use = (None, q') /\ nChunks q' = 0 /\ PendingSpec.interleaving q' = use
    /\ newStreamScheduler q' = newStreamScheduler q /\ fresh q'.
Proof.
  intros Hn [s Hs] Hf. unfold PendingSpec.setInterleaving. destruct (eqb _ use) eqn:E; [apply eqb_prop in E; by exists q|]. rewrite Hn. cbn.
  destruct use; rewrite ?Hs; (eexists; split_and!; [reflexivity..|]); [by eexists|done].
Qed.

(** [updateInterleavingState] before any data is queued. *)
Lemma negotiate p e :
  base p e -> exists e1, updateInterleavingState e = (None, e1) /\ base p e1 /\ core e1 = core e /\ rx e1 = rx e /\ hs e1 = hs e
    /\ rwnd (cc (sender e1)) = rwnd (cc (sender e)) /\ sendZeroChecksum (ext e1) = sendZeroChecksum (ext e)
    /\ (peerInterleaving (ext e1), peerForwardTSN (ext e1), peerIForwardTSN (ext e1))
       = (peerInterleaving (ext e), peerForwardTSN (ext e), peerIForwardTSN (ext e))
    /\ let use := pf_inter p && peerInterleaving (ext e) in
       useInterleaving (ext e1) = use /\ useForwardTSN (sender e1) = (negb use && peerForwardTSN (ext e))
       /\ useIForwardTSN (sender e1) = (use && peerIForwardTSN (ext e)).
Proof.
  intros Hb. pose proof Hb as [B1 B2 B3 B4 B5 B6 B7 B8 B9 B10 B11 B12 B13 B14 B15 B16 B17 B18]. unfold updateInterleavingState. rewrite B4.
  set (use := pf_inter p && peerInterleaving (ext e)).
  assert (Hif : (peerIForwardTSN (ext e) && pf_inter p) = peerIForwardTSN (ext e) \/ use = false) by (unfold use; destruct (pf_inter p); rewrite ?andb_true_r; auto).
  destruct (eqb use (useInterleaving (ext e))) eqn:Eu.
  - apply eqb_prop in Eu. eexists. split; [done|]. split; [destruct use; by constructor|]. destruct use; split_and!; try done; cbn; by destruct Hif as [->|].
  - destruct (setInterleaving_empty (pendingQueue (sender e)) use B8 B10 B16) as (q' & -> & Hn & Hi & Hs & Hfr).
    eexists. split; [done|]. split; [destruct use; constructor; cbn; try done; by rewrite Hs|]. destruct use; split_and!; try done; cbn; by destruct Hif as [->|].
Qed.

Lemma init_queue_ok q c : recv_ok q -> in_u 32 c -> recv_ok (RecvQueue.init q c) /\ received (RecvQueue.init q c) = [].
Proof.
  intros Hq Hc. apply empty_ok; [|..|done].
  - intros H%map_eq_nil. by apply (r_bm _ Hq).
  - rewrite (r_max _ Hq). unfold window, bitlen. by rewrite length_map.
  - rewrite (r_max _ Hq). apply (r_small _ Hq).
  - apply Forall_map, Forall_forall. done.
Qed.

(** ** INIT *)

Lemma handleInit_spec p p' ck pkt i e :
  base p e -> profile_ok p' -> speaks_for p' i -> sourcePort pkt = 5000 -> destinationPort pkt = 5000 ->
  state (sender e) ∈ [closed; cookieWait; cookieEchoed] -> (sendZeroChecksum (ext e) = true -> pf_zero p' = true) ->
  (forall k, ck = Some k -> cookie_ok k) ->
  exists r e', handleInit ck pkt i e = (r, e') /\ base p e' /\ knows p p' e' /\ core e' = core e
    /\ match (match myCookie (hs e) with Some k => Some k | None => ck end) with
       | Some k => myCookie (hs e') = Some k /\ r = inl [ack_packet p p' k]
       | None => myCookie (hs e') = None /\ r = inr RandErr
       end.
Proof.
  intros Hb Hp' [I1 I2 I3 I4 I5 I6 I7 I8] Hsp Hdp Hst Hz Hck. unfold handleInit.
  assert (Hst' : (bool_decide (getState e = closed) || bool_decide (getState e = cookieWait) || bool_decide (getState e = cookieEchoed)) = true).
  { unfold getState. apply elem_of_cons in Hst as [->|Hst]; [done|]. apply elem_of_cons in Hst as [->|Hst]; [done|]. apply list_elem_of_singleton in Hst as ->. done. }
  rewrite Hst'. cbn [negb]. rewrite I2, I5, I6, Hsp, Hdp.
  set (e1 := setSendZeroChecksum (params i) _).
  assert (Hb1 : base p e1).
  { destruct (init_queue_ok (rxQueue (rx e)) (pf_tsn p' -32 1) (b_queue _ _ Hb)) as [Hq _]; [apply u32_range|]. destruct Hb. pose proof (po_tag _ Hp'). constructor; cbn; try done; rewrite ?I1, ?I3, ?I4; unfold in_u; lia. }
  destruct (negotiate p e1 Hb1) as (e2 & E2 & Hb2 & Hc2 & Hr2 & Hh2 & Hw2 & Hz2 & Hp2 & Hu2 & Hf2 & Hif2). rewrite E2.
  assert (Hk2 : knows p p' e2).
  { destruct (init_queue_ok (rxQueue (rx e)) (pf_tsn p' -32 1) (b_queue _ _ Hb)) as [_ Hq]; [apply u32_range|].
    constructor; rewrite ?Hh2, ?Hw2, ?Hz2, ?Hp2, ?Hu2, ?Hf2, ?Hif2; unfold peerLastTSN; rewrite ?Hr2; cbn; try done.
    - by rewrite andb_true_r.
    - by destruct (pf_inter p), (pf_inter p').
    - rewrite I7. destruct (pf_zero p'); [done|]. destruct (sendZeroChecksum (ext e)); [by rewrite Hz|done]. }
  rewrite Hh2. change (myCookie (hs e1)) with (myCookie (hs e)).
  assert (Hmc : myCookie (hs e2) = myCookie (hs e)) by (by rewrite Hh2).
  destruct (match myCookie (hs e) with Some k => Some k | None => ck end) as [k|] eqn:Ek.
  - assert (Hk : cookie_ok k) by (destruct (myCookie (hs e)) as [k'|] eqn:Ek'; [injection Ek as ->; by apply (b_cookie _ _ Hb)|by apply Hck]).
    eexists _, _. split; [done|]. split; [|split; [|split; [|split]]].
    + rewrite <- Hh2. destruct Hb2. constructor; cbn; try done. intros k' [= <-]. done.
    + rewrite <- Hh2. destruct Hk2. by constructor.
    + rewrite <- Hh2. rewrite <- (eq_refl : core e1 = core e), <- Hc2. done.
    + done.
    + do 2 f_equal. unfold ack_packet, ack_of_profile, wrapped, createPacket, new_chunk. rewrite <- Hh2. cbn.
      rewrite (b_tag _ _ Hb2), (b_buf _ _ Hb2), (b_in _ _ Hb2), (b_out _ _ Hb2), (b_tsn _ _ Hb2), (b_zero _ _ Hb2), (b_local _ _ Hb2).
      rewrite (kn_tag _ _ _ Hk2). destruct (kn_ports _ _ _ Hk2) as [-> ->]. done.
  - eexists _, _. split; [done|]. split; [done|]. split; [done|]. split; [by rewrite Hc2|]. split; [|done]. rewrite Hmc. by destruct (myCookie (hs e)).
Qed.

(** ** INIT ACK *)

Lemma start_running t r : t_state t <> rtxTimerClosed -> isRunning (start t r).2 = true.
Proof.
  intros H. destruct t as [? ? ? ? ? ? st ?]. by destruct st.
Qed.

(** The cookie goes back. *)
Definition echo_cookie (k : list Z) (e : ep) : ep :=
  let h := hs e in
  let e := (sendCookieEcho (set_hs (set_stored (storedInit h) (Some k) (t1Init h) (t1Cookie h) h) e)).2 in
  let h := hs e in
  setState cookieEchoed
    (set_hs (set_stored (storedInit h) (storedCookieEcho h) (t1Init h) (start (t1Cookie h) (getRTO (rtoMgr (sender e)))).2 h) e).

(** Before it looks for the cookie, the INIT ACK's handler takes what it says and
    gives up its INIT. *)
Lemma handleInitAck_learns p p' pkt i e :
  base p e -> profile_ok p' -> speaks_for p' i -> sourcePort pkt = 5000 -> destinationPort pkt = 5000 ->
  srcPort (hs e) = 5000 /\ dstPort (hs e) = 5000 -> state (sender e) = cookieWait -> (sendZeroChecksum (ext e) = true -> pf_zero p' = true) ->
  exists e', handleInitAck pkt i e
             = match cookieParam (params i) with Some k => (None, echo_cookie k e') | None => (Some ErrInitAckNoCookie, e') end
    /\ base p e' /\ knows p p' e' /\ state (sender e') = cookieWait /\ storedInit (hs e') = None /\ isRunning (t1Init (hs e')) = false
    /\ fin e' = fin e /\ control e' = control e /\ myCookie (hs e') = myCookie (hs e).
Proof.
  intros Hb Hp' [I1 I2 I3 I4 I5 I6 I7 I8] Hsp Hdp [Hps Hpd] Hst Hz. unfold handleInitAck. unfold getState. rewrite Hst. cbn [negb bool_decide decide].
  rewrite bool_decide_eq_true_2 by done. cbn [negb].
  rewrite I2, I5, I6, Hsp, Hdp. cbn [hs set_queue set_hs set_rx set_peer srcPort dstPort]. rewrite Hps, Hpd. cbn [Z.eqb negb orb].
  set (e1 := setSendZeroChecksum (params i) _).
  assert (Hstop : forall t, t_state t <> rtxTimerClosed -> t_state (stop t) = rtxTimerStopped).
  { intros t Ht. unfold stop. case_bool_decide as Hc; [done|]. by destruct (t_state t). }
  assert (Hb1 : base p e1).
  { destruct (init_queue_ok (rxQueue (rx e)) (pf_tsn p' -32 1) (b_queue _ _ Hb)) as [Hq _]; [apply u32_range|].
    pose proof Hb as [? ? ? ? ? ? ? ? ? ? ? ? ? [Ht1 Ht2] ? ? ? ?]. pose proof (po_tag _ Hp'). constructor; cbn; try done; rewrite ?I1, ?I3, ?I4, ?Hps, ?Hpd; try (unfold in_u; lia).
    split; [by rewrite Hstop|done]. }
  destruct (negotiate p e1 Hb1) as (e2 & E2 & Hb2 & Hc2 & Hr2 & Hh2 & Hw2 & Hz2 & Hp2 & Hu2 & Hf2 & Hif2). rewrite E2. exists e2.
  split; [by destruct (cookieParam _)|]. unfold core in Hc2. injection Hc2 as Hs2 Hi2 _ Ht2 _ Hfin2 Hct2. split; [done|]. split.
  - destruct (init_queue_ok (rxQueue (rx e)) (pf_tsn p' -32 1) (b_queue _ _ Hb)) as [_ Hq]; [apply u32_range|].
    constructor; rewrite ?Hh2, ?Hw2, ?Hz2, ?Hp2, ?Hu2, ?Hf2, ?Hif2; unfold peerLastTSN; rewrite ?Hr2; cbn; try done.
    + by rewrite andb_true_r.
    + by destruct (pf_inter p), (pf_inter p').
    + rewrite I7. destruct (pf_zero p'); [done|]. destruct (sendZeroChecksum (ext e)); [by rewrite Hz|done].
  - rewrite Hs2, Hi2, Ht2, Hfin2, Hct2, Hh2. split_and!; try done. unfold isRunning. cbn. rewrite Hstop by apply (b_timers _ _ Hb). done.
Qed.

Lemma handleInitAck_spec p p' k pkt i e :
  base p e -> profile_ok p' -> speaks_for p' i -> cookieParam (params i) = Some k -> sourcePort pkt = 5000 -> destinationPort pkt = 5000 ->
  srcPort (hs e) = 5000 /\ dstPort (hs e) = 5000 -> state (sender e) = cookieWait -> (sendZeroChecksum (ext e) = true -> pf_zero p' = true) ->
  exists e', handleInitAck pkt i e = (None, e') /\ base p e' /\ knows p p' e' /\ state (sender e') = cookieEchoed
    /\ storedInit (hs e') = None /\ storedCookieEcho (hs e') = Some k /\ isRunning (t1Cookie (hs e')) = true /\ fin e' = fin e /\ myCookie (hs e') = myCookie (hs e)
    /\ control e' = WindowedMin.push (control e) (echo_packet p' k).
Proof.
  intros Hb Hp' Hi Hk Hsp Hdp Hports Hst Hz.
  destruct (handleInitAck_learns p p' pkt i e Hb Hp' Hi Hsp Hdp Hports Hst Hz) as (e2 & E & Hb2 & Hk2 & _ & Hi2 & _ & Hf & Hcq & Hmc).
  rewrite E, Hk. eexists. split; [done|]. cbn.
  pose proof (b_timers _ _ Hb2) as [T1 T2]. assert (Hrun := start_running (t1Cookie (hs e2)) (getRTO (rtoMgr (sender e2))) T2).
  split; [|split; [|split; [done|split; [done|split; [done|split; [done|split; [done|split; [done|]]]]]]]].
  - destruct Hb2. constructor; cbn; try done. split; [done|]. unfold isRunning in Hrun. apply bool_decide_eq_true in Hrun. by rewrite Hrun.
  - destruct Hk2. by constructor.
  - rewrite Hcq. f_equal. unfold echo_packet, wrapped, createPacket. cbn. rewrite (kn_tag _ _ _ Hk2). destruct (kn_ports _ _ _ Hk2) as [-> ->]. done.
Qed.

(** An INIT ACK without a cookie leaves a client that waits with nothing to send
    again. *)
Lemma no_cookie_stalls p p' pkt i e :
  base p e -> profile_ok p' -> speaks_for p' i -> cookieParam (params i) = None -> sourcePort pkt = 5000 -> destinationPort pkt = 5000 ->
  srcPort (hs e) = 5000 /\ dstPort (hs e) = 5000 -> state (sender e) = cookieWait -> (sendZeroChecksum (ext e) = true -> pf_zero p' = true) ->
  exists e', handleInitAck pkt i e = (Some ErrInitAckNoCookie, e') /\ state (sender e') = cookieWait /\ storedInit (hs e') = None
    /\ isRunning (t1Init (hs e')) = false /\ fin e' = fin e /\ control e' = control e.
Proof.
  intros Hb Hp' Hi Hk Hsp Hdp Hports Hst Hz.
  destruct (handleInitAck_learns p p' pkt i e Hb Hp' Hi Hsp Hdp Hports Hst Hz) as (e2 & E & _ & _ & H1 & H2 & H3 & H4 & H5 & _).
  exists e2. rewrite E, Hk. split_and!; done.
Qed.

(** ** COOKIE ECHO and COOKIE ACK *)

Lemma establish_spec p p' e :
  base p e -> knows p p' e ->
  exists e1, establish e = (None, e1) /\ base p e1 /\ knows p p' e1 /\ state (sender e1) = established /\ fin e1 = fin e /\ control e1 = control e
    /\ hs e1 = hs e.
Proof.
  intros Hb Hk. pose proof (kn_peer _ _ _ Hk) as Hp. injection Hp as H1 H2 H3.
  destruct (negotiate p e Hb) as (e1 & E & Hb1 & Hc1 & Hr1 & Hh1 & Hw1 & Hz1 & Hp1 & Hu1 & Hf1 & Hif1). unfold establish. rewrite E.
  rewrite H1, H2, ?andb_true_r in *. rewrite H3 in *. assert (Hi2 : useIForwardTSN (sender e1) = pf_inter p && pf_inter p') by (rewrite Hif1; by destruct (pf_inter p), (pf_inter p')).
  unfold core in Hc1. injection Hc1 as _ _ _ _ _ Hf Hcq. eexists. split; [done|]. split; [destruct Hb1; by constructor|].
  split; [|split; [done|by split_and!]]. destruct Hk. constructor; cbn; try done; unfold peerLastTSN in *; cbn; rewrite ?Hr1, ?Hh1, ?Hw1, ?Hz1; done.
Qed.

(** [Server] or [Client] has been told that the handshake is over. *)
Definition told (e : ep) : Prop := waiter (fin e) = false /\ outcome (fin e) = Some None.

Definition waiting (e : ep) : Prop := waiter (fin e) = true /\ outcome (fin e) = None.

Lemma finished_spec pick p p' e :
  base p e -> knows p p' e -> waiting e ->
  exists e', completeHandshake pick None e = Some (true, e') /\ base p e' /\ knows p p' e' /\ told e' /\ state (sender e') = state (sender e)
    /\ control e' = control e /\ hs e' = hs e.
Proof.
  intros Hb Hk [Hw _]. unfold completeHandshake. rewrite Hw, (b_open _ _ Hb). eexists. split; [done|].
  split; [destruct Hb; by constructor|]. split; [destruct Hk; by constructor|]. done.
Qed.

Lemma drop_stored_ok p p' e : base p e -> knows p p' e -> base p (drop_stored e) /\ knows p p' (drop_stored e).
Proof.
  intros Hb Hk. split; [|destruct Hk; by constructor]. destruct Hb as [? ? ? ? ? ? ? ? ? ? ? ? ? [T1 T2]]. constructor; cbn; try done.
  unfold stop. split; by case_bool_decide.
Qed.

Lemma handleCookieEcho_spec p p' pick k e :
  base p e -> knows p p' e -> myCookie (hs e) = Some k -> state (sender e) ∈ [closed; cookieWait; cookieEchoed] -> waiting e ->
  exists e', handleCookieEcho pick k e = Some ([done_packet p'], e') /\ base p e' /\ knows p p' e' /\ told e' /\ state (sender e') = established
    /\ control e' = control e /\ hs e' = hs (drop_stored e).
Proof.
  intros Hb Hk Hc Hst Hw. destruct (drop_stored_ok p p' e Hb Hk) as [Hbd Hkd].
  destruct (establish_spec p p' _ Hbd Hkd) as (e1 & E1 & Hb1 & Hk1 & Hs1 & Hf1 & Hc1 & Hh1).
  destruct (finished_spec pick p p' e1 Hb1 Hk1) as (e2 & E2 & Hb2 & Hk2 & Ht2 & Hs2 & Hc2 & Hh2); [unfold waiting; by rewrite Hf1|].
  exists e2. unfold handleCookieEcho. rewrite Hc.
  assert (Hrun : (let (err, e0) := establish (drop_stored e) in
    match err with
    | Some r => '(_, e1) ← completeHandshake pick (Some r) e0; Some ([], e1)
    | None => '(ok, e1) ← completeHandshake pick None e0;
        if ok : bool then Some ([createPacket e1 [new_chunk chunkCookieAck]], e1) else Some ([], e1)
    end) = Some ([done_packet p'], e2)).
  { rewrite E1, E2. cbn. unfold done_packet, wrapped, createPacket. rewrite (kn_tag _ _ _ Hk2). by destruct (kn_ports _ _ _ Hk2) as [-> ->]. }
  split; [|split_and!; [done|done|done|by rewrite Hs2|by rewrite Hc2, Hc1|by rewrite Hh2, Hh1]].
  unfold getState. rewrite bool_decide_eq_true_2 by done. cbn [negb].
  apply elem_of_cons in Hst as [->|Hst]; [done|]. apply elem_of_cons in Hst as [->|Hst]; [done|]. apply list_elem_of_singleton in Hst as ->. done.
Qed.

Lemma handleCookieEcho_again p p' pick k e :
  knows p p' e -> myCookie (hs e) = Some k -> state (sender e) = established -> handleCookieEcho pick k e = Some ([done_packet p'], e).
Proof.
  intros Hk Hc Hs. unfold handleCookieEcho, getState. rewrite Hc, Hs, bool_decide_eq_true_2 by done. cbn.
  unfold done_packet, wrapped, createPacket. rewrite (kn_tag _ _ _ Hk). by destruct (kn_ports _ _ _ Hk) as [-> ->].
Qed.

Lemma handleCookieAck_spec p p' pick e :
  base p e -> knows p p' e -> state (sender e) = cookieEchoed -> waiting e ->
  exists e', handleCookieAck pick e = Some e' /\ base p e' /\ knows p p' e' /\ told e' /\ state (sender e') = established
    /\ control e' = control e
    /\ hs e' = set_stored (storedInit (hs e)) None (t1Init (hs e)) (stop (t1Cookie (hs e))) (hs e).
Proof.
  intros Hb Hk Hst Hw. unfold handleCookieAck, getState. rewrite Hst, bool_decide_eq_true_2 by done. cbn [negb].
  match goal with |- context [establish ?x] => set (e0 := x) end.
  assert (Hb0 : base p e0).
  { destruct Hb as [? ? ? ? ? ? ? ? ? ? ? ? ? [T1 T2]]. constructor; cbn; try done. split; [done|]. unfold stop. by case_bool_decide. }
  assert (Hk0 : knows p p' e0) by (destruct Hk; by constructor).
  destruct (establish_spec p p' _ Hb0 Hk0) as (e1 & E1 & Hb1 & Hk1 & Hs1 & Hf1 & Hc1 & Hh1). rewrite E1.
  destruct (finished_spec pick p p' e1 Hb1 Hk1) as (e2 & E2 & Hb2 & Hk2 & Ht2 & Hs2 & Hc2 & Hh2); [unfold waiting; by rewrite Hf1|].
  exists e2. rewrite E2. split_and!; [done..|by rewrite Hs2|by rewrite Hc2, Hc1|by rewrite Hh2, Hh1].
Qed.

(** ** The network *)

(** The packets that are on the way to either end. *)
Record network := mkNet { nA : ep; nB : ep; toA : list (list Z); toB : list (list Z) }.

Definition oracle_ok (o : oracle) : Prop := forall k, randomCookie o = Some k -> cookie_ok k.

(** What an end does by itself, with what it sends: it receives a packet, one of
    its T1 timers fires, it writes the packets that are queued. *)
Inductive act (inbox : list (list Z)) (e : ep) : ep -> list (list Z) -> Prop :=
  | act_receive o raw r e' : oracle_ok o -> raw ∈ inbox -> handleInbound o raw e = Some (r, e') -> act inbox e e' []
  | act_t1Init e' : isRunning (t1Init (hs e)) = true -> onRetransmissionTimeout timerT1Init e = Some e' -> act inbox e e' []
  | act_t1Cookie e' : isRunning (t1Cookie (hs e)) = true -> onRetransmissionTimeout timerT1Cookie e = Some e' -> act inbox e e' []
  | act_write raws e' : gatherControl e = Some (raws, e') -> act inbox e e' raws.

(** Packets stay, so that they arrive again or in another order, until they are
    lost. *)
Inductive nstep : network -> network -> Prop :=
  | n_a a b ia ib a' out : act ia a a' out -> nstep (mkNet a b ia ib) (mkNet a' b ia (ib ++ out))
  | n_b a b ia ib b' out : act ib b b' out -> nstep (mkNet a b ia ib) (mkNet a b' (ia ++ out) ib)
  | n_lose a b ia ib ia' ib' : ia' ⊆ ia -> ib' ⊆ ib -> nstep (mkNet a b ia ib) (mkNet a b ia' ib').

(** *** The invariant *)

Definition sent (e : ep) : Prop := state (sender e) = cookieEchoed \/ state (sender e) = established.

(** A packet from [f] to [e]. *)
Inductive legit (p p' : profile) (e f : ep) : packet -> Prop :=
  | legit_init : legit p p' e f (init_packet p')
  | legit_ack k : myCookie (hs f) = Some k -> legit p p' e f (ack_packet p' p k)
  | legit_echo k : myCookie (hs e) = Some k -> sent f -> legit p p' e f (echo_packet p k)
  | legit_done : state (sender f) = established -> legit p p' e f (done_packet p).

Definition phase (p p' : profile) (e f : ep) : Prop :=
  match state (sender e) with
  | closed => waiting e /\ ((myCookie (hs e) = None /\ blank e) \/ knows p p' e)
  | cookieWait => waiting e /\ ((myCookie (hs e) = None /\ blank e) \/ knows p p' e) /\ storedInit (hs e) = Some (init_of_profile p)
      /\ (srcPort (hs e) = 5000 /\ dstPort (hs e) = 5000) /\ isRunning (t1Init (hs e)) = true
  | cookieEchoed => waiting e /\ knows p p' e /\ is_Some (storedCookieEcho (hs e)) /\ isRunning (t1Cookie (hs e)) = true
  | established => told e /\ knows p p' e /\ sent f
  | _ => False
  end.

Definition stored_ok (p : profile) (e f : ep) : Prop :=
  (forall i, storedInit (hs e) = Some i -> i = init_of_profile p)
  /\ (forall k, storedCookieEcho (hs e) = Some k -> myCookie (hs f) = Some k /\ sent e).

Definition arrives (p p' : profile) (e f : ep) (raw : list Z) : Prop :=
  exists P q, legit p p' e f P /\ packet_unmarshal (negb (pf_zero p)) raw = Ok q /\ same_content P q.

Record half (p p' : profile) (e f : ep) (inbox : list (list Z)) : Prop := {
  hf_base : base p e;
  hf_phase : phase p p' e f;
  hf_stored : stored_ok p e f;
  hf_inbox : Forall (arrives p p' e f) inbox;
  hf_queue : Forall (legit p p' e f) (WindowedMin.queue (control f))
}.

(** An end moves forward only. *)
Record forward (e e' : ep) : Prop := {
  fw_cookie : forall k, myCookie (hs e) = Some k -> myCookie (hs e') = Some k;
  fw_sent : sent e -> sent e';
  fw_done : state (sender e) = established -> state (sender e') = established;
  fw_open : state (sender e) <> closed -> state (sender e') <> closed
}.

Lemma forward_refl e : forward e e.
Proof. by constructor. Qed.

Lemma legit_forward p p' e f e' f' P : legit p p' e f P -> forward e e' -> forward f f' -> legit p p' e' f' P.
Proof. intros [|k Hk|k Hk Hs|Hs] [E1 E2 E3 _] [F1 F2 F3 _]; econstructor; eauto. Qed.

Lemma arrives_forward p p' e f e' f' raw : arrives p p' e f raw -> forward e e' -> forward f f' -> arrives p p' e' f' raw.
Proof. intros (P & q & HP & H) He Hf. exists P, q. split; [by eapply legit_forward|done]. Qed.

Lemma phase_forward p p' e f f' : phase p p' e f -> forward f f' -> phase p p' e f'.
Proof. intros H [_ F2 _ _]. unfold phase in *. repeat case_match; try done. destruct H as (? & ? & ?). auto. Qed.

Lemma stored_forward p e f f' : stored_ok p e f -> forward f f' -> stored_ok p e f'.
Proof. intros [H1 H2] [F1 _ _ _]. split; [done|]. intros k Hk. destruct (H2 k Hk). auto. Qed.

(** When [e] has moved, sending [new]. *)
Lemma moved_ok p p' e e' f ia ib out :
  half p p' e f ia -> half p' p f e ib -> forward e e' -> base p e' -> phase p p' e' f -> stored_ok p e' f ->
  Forall (legit p' p f e') (WindowedMin.queue (control e')) -> Forall (arrives p' p f e') out ->
  half p p' e' f ia /\ half p' p f e' (ib ++ out).
Proof.
  intros [A1 A2 A3 A4 A5] [B1 B2 B3 B4 B5] Hf Hb Hph Hs Hq Ho. pose proof (forward_refl f) as Hr. split; constructor; try done.
  - eapply Forall_impl; [exact A4|]. intros raw H. by eapply arrives_forward.
  - eapply Forall_impl; [exact A5|]. intros P H. by eapply legit_forward.
  - by eapply phase_forward.
  - by eapply stored_forward.
  - apply Forall_app. split; [|done]. eapply Forall_impl; [exact B4|]. intros raw H. by eapply arrives_forward.
Qed.

(** *** Receiving *)

(** Equal in what the invariant looks at. *)
Record alike (e e' : ep) : Prop := {
  al_hs : hs e' = hs e;
  al_ext : ext e' = ext e;
  al_fin : fin e' = fin e;
  al_queue : rxQueue (rx e') = rxQueue (rx e);
  al_buf : maxReceiveBufferSize (rx e') = maxReceiveBufferSize (rx e);
  al_state : state (sender e') = state (sender e);
  al_tsn : myNextTSN (sender e') = myNextTSN (sender e);
  al_pending : pendingQueue (sender e') = pendingQueue (sender e);
  al_rwnd : rwnd (cc (sender e')) = rwnd (cc (sender e));
  al_fwd : useForwardTSN (sender e') = useForwardTSN (sender e);
  al_ifwd : useIForwardTSN (sender e') = useIForwardTSN (sender e);
  al_idle : (heap (sender e'), inflightQueue (sender e'), rackList (rack (sender e')), cumulativeTSNAckPoint (sender e'), streams_ (sender e'))
            = (heap (sender e), inflightQueue (sender e), rackList (rack (sender e)), cumulativeTSNAckPoint (sender e), streams_ (sender e))
}.

Lemma alike_base p e e' : alike e e' -> base p e -> base p e'.
Proof.
  intros [H1 H2 H3 H4 H5 H6 H7 H8 H9 H10 H11 H12] []. injection H12 as I1 I2 I3 I4 I5. unfold idle in *.
  constructor; unfold idle; rewrite ?H1, ?H2, ?H3, ?H4, ?H5, ?H7, ?H8, ?I1, ?I2, ?I3, ?I4, ?I5; done.
Qed.

Lemma alike_knows p p' e e' : alike e e' -> knows p p' e -> knows p p' e'.
Proof.
  intros [H1 H2 H3 H4 H5 H6 H7 H8 H9 H10 H11 _] []. constructor; unfold peerLastTSN, getcumulativeTSN in *; rewrite ?H1, ?H2, ?H4, ?H9, ?H10, ?H11; done.
Qed.

Lemma alike_phase p p' e f e' : alike e e' -> phase p p' e f -> phase p p' e' f.
Proof.
  intros Ha. pose proof (alike_knows p p' e e' Ha) as Hk. destruct Ha as [H1 H2 H3 _ _ H6 _ _ _ _ _ _]. unfold phase, waiting, told, blank.
  rewrite H1, H2, H3, H6. repeat case_match; intuition.
Qed.

Lemma alike_stored p e f e' : alike e e' -> stored_ok p e f -> stored_ok p e' f.
Proof. intros [H1 _ _ _ _ H6 _ _ _ _ _ _]. unfold stored_ok, sent. by rewrite H1, H6. Qed.

Lemma alike_forward e e' : alike e e' -> forward e e'.
Proof. intros [H1 _ _ _ _ H6 _ _ _ _ _ _]. constructor; unfold sent; rewrite ?H1, ?H6; done. Qed.

Lemma forward_trans e1 e2 e3 : forward e1 e2 -> forward e2 e3 -> forward e1 e3.
Proof. intros [A1 A2 A3 A4] [B1 B2 B3 B4]. constructor; auto. Qed.

(** What a handler does to [e], the packets it answers with included. *)
Record turns (p p' : profile) (e f e' : ep) : Prop := {
  tn_forward : forward e e';
  tn_base : base p e';
  tn_phase : phase p p' e' f;
  tn_stored : stored_ok p e' f;
  tn_queue : Forall (legit p' p f e') (WindowedMin.queue (control e'))
}.

Lemma turns_alike p p' e f e1 e2 :
  turns p p' e f e1 -> alike e1 e2 -> control e2 = control e1 -> turns p p' e f e2.
Proof.
  intros [T1 T2 T3 T4 T5] Ha Hc. pose proof (alike_forward _ _ Ha) as Hf. constructor.
  - by eapply forward_trans.
  - by eapply alike_base.
  - by eapply alike_phase.
  - by eapply alike_stored.
  - rewrite Hc. eapply Forall_impl; [exact T5|]. intros P HP. eapply legit_forward; [exact HP|apply forward_refl|done].
Qed.

(** A packet of one chunk whose handler does this, and has the effect [R]. *)
Lemma handlePacket_single (R : ep -> Prop) o tag c e p p' f :
  checkPacket (mkPacket 5000 5000 tag [c]) = None -> (check c).2 = None -> (forall cs, k_body c <> chunkAbort cs) ->
  (exists r e1, dispatch o (mkPacket 5000 5000 tag [c]) c (handleChunksStart e) = Some (r, e1)
     /\ let ps := match r with inl ps => ps | inr _ => [] end in
        turns p p' e f (set_control (WindowedMin.pushAll (control e1) ps) e1)
        /\ (forall e', alike e1 e' -> WindowedMin.queue (control e') = WindowedMin.queue (control e1) ++ ps -> R e')) ->
  exists e', handlePacket o (mkPacket 5000 5000 tag [c]) e = Some (None, e') /\ turns p p' e f e' /\ R e'.
Proof.
  intros Hck Hc Ha (r & e1 & E & Ht & HR). unfold handlePacket. rewrite Hck. cbn [Packet.chunks handleChunks]. unfold handleChunk.
  destruct (check c) as [ab err]. cbn in Hc. subst err. rewrite E. cbn [mbind option_bind].
  assert (Hal : forall e2, alike e2 (handleChunksEnd e2) /\ control (handleChunksEnd e2) = control e2).
  { intros e2. unfold handleChunksEnd. repeat case_match; split; try done; by constructor. }
  assert (Hend : forall e2, turns p p' e f e2 -> turns p p' e f (handleChunksEnd e2)).
  { intros e2 H2. destruct (Hal e2). by eapply turns_alike. }
  assert (Hnone : turns p p' e f (set_control (WindowedMin.pushAll (control e1) []) e1) ->
    (forall e', alike e1 e' -> WindowedMin.queue (control e') = WindowedMin.queue (control e1) ++ [] -> R e') ->
    turns p p' e f (handleChunksEnd e1) /\ R (handleChunksEnd e1)).
  { intros H1 H2. split; [|destruct (Hal e1) as [H3 H4]; apply H2; [done|by rewrite H4, app_nil_r]]. apply Hend.
    eapply turns_alike; [exact H1|by constructor|]. cbn. unfold WindowedMin.pushAll. rewrite app_nil_r. by destruct (control e1). }
  destruct r as [[|pk ps]|x].
  - eexists. split; [done|]. by apply Hnone.
  - eexists. split; [done|]. split; [apply Hend; eapply turns_alike; [exact Ht|by constructor|done]|].
    match goal with |- R (handleChunksEnd ?x) => destruct (Hal x) as [[] Hq] end. apply HR; [by constructor|by rewrite Hq].
  - assert (Hn : match k_body c with chunkAbort _ => Some x | _ => None end = None) by (destruct (k_body c); try done; by edestruct Ha).
    rewrite Hn. eexists. split; [done|]. by apply Hnone.
Qed.

Section Receiving.
Context (p p' : profile) (e f : ep) (ia ib : list (list Z)).
Hypothesis Hp : profile_ok p.
Hypothesis Hp' : profile_ok p'.
Hypothesis He : half p p' e f ia.
Hypothesis Hf : half p' p f e ib.

Lemma turns_refl : turns p p' e f e.
Proof. constructor; [apply forward_refl|apply He|apply He|apply He|apply Hf]. Qed.

(** Nothing happens. *)
Lemma turns_idle : turns p p' e f (set_control (WindowedMin.pushAll (control (handleChunksStart e)) []) (handleChunksStart e)).
Proof.
  eapply turns_alike; [exact turns_refl|by constructor|]. cbn. unfold WindowedMin.pushAll. rewrite app_nil_r. by destruct (control e).
Qed.

(** The queue after an answer that is legitimate. *)
Lemma queue_answer e' new :
  forward e e' -> control e' = control e -> Forall (legit p' p f e') new ->
  Forall (legit p' p f (set_control (WindowedMin.pushAll (control e') new) e')) (WindowedMin.queue (WindowedMin.pushAll (control e') new)).
Proof.
  intros Hfw Hc Hn. apply (Forall_impl (legit p' p f e')).
  - cbn. rewrite Hc. apply Forall_app. split; [|done]. eapply Forall_impl; [apply Hf|]. intros P HP. eapply legit_forward; [exact HP|apply forward_refl|done].
  - intros P HP. eapply legit_forward; [exact HP|apply forward_refl|by constructor].
Qed.

Lemma phase_zero : sendZeroChecksum (ext e) = true -> pf_zero p' = true.
Proof.
  intros Hz. pose proof (hf_phase _ _ _ _ _ He) as Hph. unfold phase in Hph.
  assert (Hk : knows p p' e -> pf_zero p' = true) by (intros Hk; by rewrite <- (kn_zero _ _ _ Hk)).
  assert (Hb : ~ blank e) by (intros [_ Hb]; congruence). destruct (state (sender e)); try done; naive_solver.
Qed.

Lemma receive_init o tag c i :
  oracle_ok o -> k_body c = chunkInit i -> same_init (init_of_profile p') i -> tag = 0 ->
  exists e', handlePacket o (mkPacket 5000 5000 tag [c]) e = Some (None, e') /\ turns p p' e f e'
    /\ (state (sender e) <> established -> is_Some (randomCookie o) -> exists k, ack_packet p p' k ∈ WindowedMin.queue (control e')).
Proof.
  intros Ho Hc Hi ->. pose proof (init_speaks _ _ Hi) as Hsp. pose proof Hsp as [I1 I2 I3 I4 I5 I6 I7 I8]. pose proof Hp' as [Q1 Q2 Q3].
  apply handlePacket_single.
  - unfold checkPacket. cbn. by rewrite Hc.
  - unfold check. rewrite Hc. unfold chunkInit_check. rewrite I1, I2, I3, I4, I8. cbn.
    destruct (Z.eqb_spec (pf_tag p') 0); [lia|]. destruct (Z.ltb_spec (pf_buf p') 1500); [lia|done].
  - intros cs. by rewrite Hc.
  - unfold dispatch. rewrite Hc. destruct (decide (state (sender e) = established)) as [Hs|Hs].
    { unfold handleInit, getState. change (state (sender (handleChunksStart e))) with (state (sender e)). rewrite Hs. cbn. eexists _, _. split; [done|]. split; [apply turns_idle|done]. }
    pose proof (hf_phase _ _ _ _ _ He) as Hph. pose proof (hf_base _ _ _ _ _ He) as Hb. pose proof (hf_stored _ _ _ _ _ He) as Hst.
    destruct (handleInit_spec p p' (randomCookie o) (mkPacket 5000 5000 0 [c]) i (handleChunksStart e)) as (r & e' & E & Hb' & Hk' & Hco & Hr); try done.
    + destruct Hb. by constructor.
    + change (state (sender e) ∈ [closed; cookieWait; cookieEchoed]). unfold phase in Hph. destruct (state (sender e)) eqn:Es; try done; set_solver.
    + exact phase_zero.
    + exists r, e'. rewrite E. split; [done|]. split; cycle 1.
      { intros e2 _ ->  _ [k0 Hk0]. cbn in Hr. rewrite Hk0 in Hr.
        destruct (match myCookie (hs e) with Some k => Some k | None => Some k0 end) as [k|] eqn:Ek; [|by destruct (myCookie (hs e))].
        destruct Hr as [_ ->]. exists k. apply elem_of_app. right. by left. }
      unfold core in Hco. injection Hco as C1 C2 C3 C4 C5 C6 C7.
      assert (Hfw : forward e e').
      { constructor; unfold sent; rewrite ?C1; try done. intros k Hk. cbn in Hr. rewrite Hk in Hr. apply Hr. }
      constructor; [destruct Hfw; by constructor|destruct Hb'; by constructor| | |].
      * eapply (alike_phase p p' e'); [by constructor|]. unfold phase in *. rewrite C1. unfold waiting in *. rewrite C6, C2, C3, C4, C5. cbn.
        destruct (state (sender e)); try done; destruct (kn_ports _ _ _ Hk'); naive_solver.
      * eapply (alike_stored p e'); [by constructor|]. unfold stored_ok, sent in *. by rewrite C1, C2, C3.
      * apply queue_answer; [done|by rewrite C7|].
        destruct (match myCookie (hs (handleChunksStart e)) with Some k => Some k | None => randomCookie o end) as [k|]; destruct Hr as [Hr1 ->]; [|constructor].
        apply Forall_singleton. by constructor.
Qed.

(** The end of the handshake on this side. *)
Lemma turns_established e' new :
  forward e e' -> base p e' -> knows p p' e' -> told e' -> sent f -> state (sender e') = established -> control e' = control e ->
  stored_ok p e' f -> Forall (legit p' p f e') new -> turns p p' e f (set_control (WindowedMin.pushAll (control e') new) e').
Proof.
  intros Hfw Hb Hk Ht Hs He' Hc Hst Hn. constructor.
  - destruct Hfw. by constructor.
  - destruct Hb. by constructor.
  - unfold phase. cbn. rewrite He'. split; [done|]. split; [|done]. destruct Hk. by constructor.
  - done.
  - by apply queue_answer.
Qed.

Lemma receive_ack o tag c i k :
  oracle_ok o -> k_body c = chunkInitAck i -> same_init (ack_of_profile p' k) i -> myCookie (hs f) = Some k ->
  exists e', handlePacket o (mkPacket 5000 5000 tag [c]) e = Some (None, e') /\ turns p p' e f e'
    /\ (state (sender e) = cookieWait -> state (sender e') = cookieEchoed).
Proof.
  intros Ho Hc Hi Hk. destruct (ack_speaks _ _ _ Hi) as [Hsp Hck]. pose proof Hsp as [I1 I2 I3 I4 I5 I6 I7 I8]. pose proof Hp' as [Q1 Q2 Q3].
  apply handlePacket_single.
  - unfold checkPacket. cbn. by rewrite Hc.
  - unfold check. rewrite Hc. unfold chunkInitAck_check. rewrite I1, I2, I3, I4. cbn.
    destruct (Z.eqb_spec (pf_tag p') 0); [lia|]. destruct (Z.ltb_spec (pf_buf p') 1500); [lia|done].
  - intros cs. by rewrite Hc.
  - unfold dispatch. rewrite Hc. destruct (decide (state (sender e) = cookieWait)) as [Hs|Hs].
    2: { unfold handleInitAck. rewrite bool_decide_eq_false_2 by done. eexists _, _. split; [done|]. split; [apply turns_idle|done]. }
    pose proof (hf_phase _ _ _ _ _ He) as Hph. unfold phase in Hph. rewrite Hs in Hph. destruct Hph as (Hw & _ & _ & Hpt & _).
    destruct (handleInitAck_spec p p' k (mkPacket 5000 5000 tag [c]) i (handleChunksStart e))
      as (e' & E & Hb' & Hk' & Hs' & Hsi & Hsc & Hrun & Hfin & Hmc & Hq); try done.
    + destruct (hf_base _ _ _ _ _ He). by constructor.
    + exact phase_zero.
    + exists (inl []), e'. rewrite E. split; [done|]. split; [|intros e2 Ha2 _ _; by rewrite (al_state _ _ Ha2)]. assert (Hfw : forward e e').
      { constructor; [by rewrite Hmc|intros _; by left|by rewrite Hs|by rewrite Hs']. }
      constructor; [destruct Hfw; by constructor|destruct Hb'; by constructor| | |].
      * eapply (alike_phase p p' e'); [by constructor|]. unfold phase, waiting. rewrite Hs', Hfin, Hsc. split; [done|]. split; [done|]. by split; [eexists|].
      * split; cbn; [by rewrite Hsi|]. rewrite Hsc. intros k' [= <-]. split; [done|]. left. done.
      * cbn. rewrite app_nil_r, Hq. apply Forall_app. split.
        -- eapply Forall_impl; [apply Hf|]. intros P HP. eapply legit_forward; [exact HP|apply forward_refl|destruct Hfw; by constructor].
        -- apply Forall_singleton. apply legit_echo; [done|by left].
Qed.

Lemma receive_echo o tag c k :
  oracle_ok o -> k_body c = chunkCookieEcho k -> myCookie (hs e) = Some k -> sent f ->
  exists e', handlePacket o (mkPacket 5000 5000 tag [c]) e = Some (None, e') /\ turns p p' e f e'
    /\ (state (sender e') = established /\ done_packet p' ∈ WindowedMin.queue (control e')).
Proof.
  intros Ho Hc Hk Hs. pose proof (hf_phase _ _ _ _ _ He) as Hph. pose proof (hf_base _ _ _ _ _ He) as Hb. apply handlePacket_single.
  - unfold checkPacket. cbn. by rewrite Hc.
  - unfold check. by rewrite Hc.
  - intros cs. by rewrite Hc.
  - unfold dispatch. rewrite Hc. assert (Hkn : knows p p' e) by (unfold phase in Hph; destruct (state (sender e)); naive_solver).
    destruct (decide (state (sender e) = established)) as [Hse|Hse].
    { rewrite (handleCookieEcho_again p p' (choice o) k (handleChunksStart e)); [|destruct Hkn; by constructor|done|done].
      eexists _, _. split; [done|]. split; cycle 1.
      { intros e2 Ha2 ->. split; [by rewrite (al_state _ _ Ha2)|]. apply elem_of_app. right. by left. }
      apply turns_established; try done.
      - destruct Hb. by constructor.
      - destruct Hkn. by constructor.
      - unfold phase in Hph. rewrite Hse in Hph. apply Hph.
      - apply He.
      - apply Forall_singleton. by apply legit_done. }
    destruct (handleCookieEcho_spec p p' (choice o) k (handleChunksStart e)) as (e' & E & Hb' & Hk' & Ht & Hs' & Hq & Hh); try done.
    + destruct Hb. by constructor.
    + destruct Hkn. by constructor.
    + change (state (sender e) ∈ [closed; cookieWait; cookieEchoed]). unfold phase in Hph. destruct (state (sender e)) eqn:Es; try done; set_solver.
    + unfold phase in Hph. change (waiting e). destruct (state (sender e)); naive_solver.
    + rewrite E. eexists _, _. split; [done|]. split; cycle 1.
      { intros e2 Ha2 ->. split; [by rewrite (al_state _ _ Ha2)|]. apply elem_of_app. right. by left. }
      apply turns_established; try done.
      * constructor; unfold sent; rewrite ?Hh, ?Hs'; auto.
      * split; rewrite Hh; done.
      * apply Forall_singleton. by apply legit_done.
Qed.

Lemma receive_done o tag c :
  oracle_ok o -> k_body c = chunkCookieAck -> state (sender f) = established ->
  exists e', handlePacket o (mkPacket 5000 5000 tag [c]) e = Some (None, e') /\ turns p p' e f e'
    /\ (state (sender e) = cookieEchoed -> state (sender e') = established).
Proof.
  intros Ho Hc Hs. pose proof (hf_phase _ _ _ _ _ He) as Hph. pose proof (hf_base _ _ _ _ _ He) as Hb. apply handlePacket_single.
  - unfold checkPacket. cbn. by rewrite Hc.
  - unfold check. by rewrite Hc.
  - intros cs. by rewrite Hc.
  - unfold dispatch. rewrite Hc. destruct (decide (state (sender e) = cookieEchoed)) as [Hse|Hse].
    2: { unfold handleCookieAck. rewrite bool_decide_eq_false_2 by done. eexists _, _. split; [done|]. split; [apply turns_idle|done]. }
    unfold phase in Hph. rewrite Hse in Hph. destruct Hph as (Hw & Hkn & _).
    destruct (handleCookieAck_spec p p' (choice o) (handleChunksStart e)) as (e' & E & Hb' & Hk' & Ht & Hs' & Hq & Hh); try done.
    + destruct Hb. by constructor.
    + destruct Hkn. by constructor.
    + rewrite E. eexists _, _. split; [done|]. split; [|intros e2 Ha2 _ _; by rewrite (al_state _ _ Ha2)]. apply turns_established; try done.
      * constructor; unfold sent; rewrite ?Hh, ?Hs'; auto.
      * by right.
      * split; rewrite Hh; [|done]. apply (proj1 (hf_stored _ _ _ _ _ He)).
Qed.

(** How each kind of packet takes the handshake further. *)
Definition effect (o : oracle) (e' : ep) (P : packet) : Prop :=
  (P = init_packet p' -> state (sender e) <> established -> is_Some (randomCookie o) -> exists k, ack_packet p p' k ∈ WindowedMin.queue (control e'))
  /\ (forall k, P = ack_packet p' p k -> state (sender e) = cookieWait -> state (sender e') = cookieEchoed)
  /\ (forall k, P = echo_packet p k -> state (sender e') = established /\ done_packet p' ∈ WindowedMin.queue (control e'))
  /\ (P = done_packet p -> state (sender e) = cookieEchoed -> state (sender e') = established).

Lemma receive_packet o P q :
  oracle_ok o -> legit p p' e f P -> same_content P q ->
  exists e', handlePacket o q e = Some (None, e') /\ turns p p' e f e' /\ effect o e' P.
Proof.
  intros Ho HP Hsame. unfold effect.
  destruct HP as [|k Hk|k Hk Hs|Hs]; apply decoded_single in Hsame as (c & -> & Hc); destruct (k_body c) eqn:Ek; try discriminate Hc.
  - destruct (receive_init o 0 c i) as (e' & E & T & R); try done; [apply erased_init; unfold erase in Hc; congruence|]. exists e'. by split_and!.
  - destruct (receive_ack o (pf_tag p) c i k) as (e' & E & T & R); try done; [apply erased_init; unfold erase in Hc; congruence|]. exists e'. by split_and!.
  - injection Hc as ->. destruct (receive_echo o (pf_tag p) c k) as (e' & E & T & R); try done. exists e'. by split_and!.
  - destruct (receive_done o (pf_tag p) c) as (e' & E & T & R); try done. exists e'. by split_and!.
Qed.

(** Every packet on the way is handled, and the invariant is kept. *)
Lemma receive_ok o raw :
  oracle_ok o -> raw ∈ ia -> exists e', handleInbound o raw e = Some (None, e') /\ turns p p' e f e'.
Proof.
  intros Ho Hr. pose proof (proj1 (Forall_forall _ _) (hf_inbox _ _ _ _ _ He) raw Hr) as (P & q & HP & Hu & Hsame).
  unfold handleInbound. rewrite (b_zero _ _ (hf_base _ _ _ _ _ He)), Hu. destruct (receive_packet o P q Ho HP Hsame) as (e' & E & T & _). by exists e'.
Qed.

(** *** Timers *)

Lemma t1Init_ok e' : onRetransmissionTimeout timerT1Init e = Some e' -> turns p p' e f e'.
Proof.
  intros E. injection E as <-. unfold sendInit. destruct (storedInit (hs e)) as [i|] eqn:Ei; [|exact turns_refl]. cbn [snd].
  rewrite (proj1 (hf_stored _ _ _ _ _ He) i Ei). pose proof (hf_base _ _ _ _ _ He) as Hb. pose proof (hf_phase _ _ _ _ _ He) as Hph.
  set (e' := control_push _ _). assert (Hfw : forward e e') by (by constructor). constructor; [done|destruct Hb as [? ? ? ? ? ? ? ? ? ? ? ? ? ? ? ? ? (_ & _ & Htg)]; constructor; try done; by split_and!| |apply He|].
  - unfold phase in *. change (state (sender e')) with (state (sender e)).
    assert (Hkn : knows p p' e -> knows p p' e') by (intros []; by constructor). destruct (state (sender e)); naive_solver.
  - cbn. apply Forall_app. split; [|apply Forall_singleton, legit_init]. eapply Forall_impl; [apply Hf|]. intros P HP.
    eapply legit_forward; [exact HP|apply forward_refl|done].
Qed.

Lemma t1Cookie_ok e' : onRetransmissionTimeout timerT1Cookie e = Some e' -> turns p p' e f e'.
Proof.
  intros E. injection E as <-. unfold sendCookieEcho. destruct (storedCookieEcho (hs e)) as [k|] eqn:Ek; [|exact turns_refl]. cbn [snd].
  destruct (proj2 (hf_stored _ _ _ _ _ He) k Ek) as [Hk Hs]. pose proof (hf_base _ _ _ _ _ He) as Hb. pose proof (hf_phase _ _ _ _ _ He) as Hph.
  assert (Hkn : knows p p' e) by (unfold phase in Hph; destruct Hs as [Hs|Hs]; rewrite Hs in Hph; apply Hph).
  set (e' := control_push _ _). assert (Hfw : forward e e') by (by constructor).
  constructor; [done|destruct Hb; by constructor|eapply (alike_phase p p' e); [by constructor|done]|apply He|].
  cbn. apply Forall_app. split.
  - eapply Forall_impl; [apply Hf|]. intros P HP. eapply legit_forward; [exact HP|apply forward_refl|done].
  - apply Forall_singleton. unfold createPacket. rewrite (kn_tag _ _ _ Hkn). destruct (kn_ports _ _ _ Hkn) as [-> ->]. by apply legit_echo.
Qed.

(** *** Writing *)

Lemma legit_ok P : legit p' p f e P -> packet_ok P.
Proof.
  pose proof (hf_base _ _ _ _ _ He) as Hb. pose proof (hf_base _ _ _ _ _ Hf) as Hbf. intros [|k Hk|k Hk Hs|Hs].
  - assert (Hc : cookie_ok (replicate 32 0)) by (split; [apply Forall_replicate; unfold is_byte; lia|done]).
    pose proof (hello_ok p p' _ Hp Hp' Hc) as H. by inversion H.
  - pose proof (hello_ok p p' k Hp Hp' (b_cookie _ _ Hb k Hk)) as H. inversion H as [|? ? _ H']. by inversion H'.
  - pose proof (hello_ok p p' k Hp Hp' (b_cookie _ _ Hbf k Hk)) as H. do 2 apply Forall_inv_tail in H. by apply Forall_inv in H.
  - assert (Hc : cookie_ok (replicate 32 0)) by (split; [apply Forall_replicate; unfold is_byte; lia|done]).
    pose proof (hello_ok p p' _ Hp Hp' Hc) as H. do 3 apply Forall_inv_tail in H. by apply Forall_inv in H.
Qed.

Lemma legit_emitted e0 P raws :
  legit p' p f e P -> ext e0 = ext e ->
  exists raw q, emit e0 raws P = Some (true, raws ++ [raw]) /\ packet_unmarshal (negb (pf_zero p')) raw = Ok q /\ same_content P q.
Proof.
  intros HP Hx. unfold emit, marshalPacket. rewrite Hx.
  destruct (packet_exchange P (negb (sendZeroChecksum (ext e)) || chunkMandatoryChecksum (Packet.chunks P)) (negb (pf_zero p')))
    as (raw & q & E & _ & Hu & Hs).
  - by apply legit_ok.
  - destruct (sendZeroChecksum (ext e)) eqn:Ez; [|by left]. rewrite (phase_zero Ez). cbn [negb orb].
    destruct HP; [by left|right|by left|right]; (split; [done|]); intros c h Hh Hfi; injection Hh as <-; injection Hfi as <-; done.
  - rewrite E. by exists raw, q.
Qed.

Lemma emitAll_legit ps : forall acc e0,
  Forall (legit p' p f e) ps -> ext e0 = ext e ->
  exists raws, emitAll e0 acc ps = Some (acc ++ raws) /\ Forall (arrives p' p f e) raws
    /\ forall P, P ∈ ps -> exists raw q, raw ∈ raws /\ packet_unmarshal (negb (pf_zero p')) raw = Ok q /\ same_content P q.
Proof.
  induction ps as [|P ps IH]; intros acc e0 Hl Hx.
  { exists []. split; [by rewrite app_nil_r|]. split; [constructor|]. by intros P ?%elem_of_nil. }
  apply Forall_cons in Hl as [HP Hl]. cbn [emitAll]. destruct (legit_emitted e0 P acc HP Hx) as (raw & q & -> & Hu & Hs). cbn [mbind option_bind].
  destruct (IH (acc ++ [raw]) e0 Hl Hx) as (raws & -> & Hr & Hin). exists (raw :: raws). split; [by rewrite <- app_assoc|]. split; [constructor; [by exists P, q|done]|].
  intros P' [->|HP']%elem_of_cons; [exists raw, q; split; [left|done]|]. destruct (Hin P' HP') as (raw' & q' & ? & ?). exists raw', q'. split; [by right|done].
Qed.

(** The queued packets are written. *)
Lemma written_spec :
  exists raws, gatherControl e = Some (raws, set_control (WindowedMin.mkControl []) e) /\ Forall (arrives p' p f e) raws
    /\ forall P, P ∈ WindowedMin.queue (control e) -> exists raw q, raw ∈ raws /\ packet_unmarshal (negb (pf_zero p')) raw = Ok q /\ same_content P q.
Proof.
  unfold gatherControl, WindowedMin.popAll.
  destruct (emitAll_legit (WindowedMin.queue (control e)) [] (set_control (WindowedMin.mkControl []) e)) as (raws & -> & Hr & Hin); [apply Hf|done|].
  exists raws. by split_and!.
Qed.

Lemma written_ok raws e' : gatherControl e = Some (raws, e') -> turns p p' e f e' /\ Forall (arrives p' p f e') raws.
Proof.
  destruct written_spec as (raws' & -> & Hr & _). intros E. injection E as <- <-. set (e' := set_control _ e).
  assert (Ha : alike e e') by (by constructor). split.
  - constructor; [by apply alike_forward|eapply alike_base; [exact Ha|apply He]|eapply alike_phase; [exact Ha|apply He]|apply He|constructor].
  - eapply Forall_impl; [exact Hr|]. intros raw H. eapply arrives_forward; [exact H|apply forward_refl|by apply alike_forward].
Qed.

Lemma act_turns e' out : act ia e e' out -> turns p p' e f e' /\ Forall (arrives p' p f e') out.
Proof.
  intros Ha. destruct Ha as [o raw r e' Ho Hr E|e' _ E|e' _ E|raws e' E].
  - destruct (receive_ok o raw Ho Hr) as (e1 & E1 & Ht). rewrite E in E1. by simplify_eq.
  - by split; [apply t1Init_ok|].
  - by split; [apply t1Cookie_ok|].
  - by apply written_ok.
Qed.

Lemma act_ok e' out : act ia e e' out -> half p p' e' f ia /\ half p' p f e' (ib ++ out).
Proof. intros Ha. destruct (act_turns e' out Ha) as [[T1 T2 T3 T4 T5] Hout]. by eapply moved_ok. Qed.

End Receiving.

(** Both halves. *)
Definition shaking (p p' : profile) (n : network) : Prop :=
  half p p' (nA n) (nB n) (toA n) /\ half p' p (nB n) (nA n) (toB n).

Lemma nstep_ok p p' n n' : profile_ok p -> profile_ok p' -> shaking p p' n -> nstep n n' -> shaking p p' n'.
Proof.
  intros Hp Hp' [Ha Hb] Hst. destruct Hst as [a b ia ib a' out H|a b ia ib b' out H|a b ia ib ia' ib' Hia Hib]; cbn in *.
  - destruct (act_ok p p' a b ia ib Hp Hp' Ha Hb a' out H). by split.
  - destruct (act_ok p' p b a ib ia Hp' Hp Hb Ha b' out H). by split.
  - split; cbn; [destruct Ha as [? ? ? Hi ?]|destruct Hb as [? ? ? Hi ?]]; constructor; try done; rewrite Forall_forall in *; auto.
Qed.

(** An end that has left the closed state does not return to it. *)
Lemma nstep_open p p' n n' :
  profile_ok p -> profile_ok p' -> shaking p p' n -> nstep n n' ->
  (state (sender (nA n)) <> closed -> state (sender (nA n')) <> closed) /\ (state (sender (nB n)) <> closed -> state (sender (nB n')) <> closed).
Proof.
  intros Hp Hp' [Ha Hb] Hst. destruct Hst as [a b ia ib a' out H|a b ia ib b' out H|]; cbn in *; [| |done].
  - split; [|done]. apply (act_turns p p' a b ia ib Hp Hp' Ha Hb a' out H).
  - split; [done|]. apply (act_turns p' p b a ib ia Hp' Hp Hb Ha b' out H).
Qed.

(** *** The handshake can be finished *)

Definition swap (n : network) : network := mkNet (nB n) (nA n) (toB n) (toA n).

Lemma nstep_swap n n' : nstep n n' -> nstep (swap n) (swap n').
Proof. intros [a b ia ib a' out H|a b ia ib b' out H|a b ia ib ia' ib' H1 H2]; by constructor. Qed.

Lemma rtc_swap n n' : rtc nstep n n' -> rtc nstep (swap n) (swap n').
Proof. induction 1 as [|x y z H _ IH]; [done|]. eapply rtc_l; [by apply nstep_swap|done]. Qed.

Lemma shaking_rtc p p' n n' : profile_ok p -> profile_ok p' -> shaking p p' n -> rtc nstep n n' -> shaking p p' n'.
Proof. intros Hp Hp' Hs Hr. induction Hr as [|x y z H _ IH]; [done|]. apply IH. by eapply nstep_ok. Qed.

Definition some_oracle : oracle := mkOracle 0 (Some (replicate 32 0)) true (fun _ => []) (fun _ => []).

Lemma some_oracle_ok : oracle_ok some_oracle.
Proof. intros k Hk. injection Hk as <-. split; [by apply byte_list|done]. Qed.

(** A queued packet reaches the other end. *)
Lemma send_over p p' a b ia ib P :
  profile_ok p -> profile_ok p' -> shaking p p' (mkNet a b ia ib) -> P ∈ WindowedMin.queue (control a) ->
  exists a' b' ia' ib', rtc nstep (mkNet a b ia ib) (mkNet a' b' ia' ib') /\ alike a a' /\ effect p' p b some_oracle b' P.
Proof.
  intros Hp Hp' Hs HP. pose proof Hs as [Ha Hb]. cbn in Ha, Hb.
  destruct (written_spec p p' a b ia ib Hp Hp' Ha Hb) as (raws & E & _ & Hin). destruct (Hin P HP) as (raw & q & Hraw & Hu & Hsame).
  set (a' := set_control (WindowedMin.mkControl []) a) in *.
  assert (H1 : nstep (mkNet a b ia ib) (mkNet a' b ia (ib ++ raws))) by (by apply n_a, act_write).
  pose proof (nstep_ok p p' _ _ Hp Hp' Hs H1) as [Ha1 Hb1]. cbn in Ha1, Hb1.
  assert (HP' : legit p' p b a' P).
  { eapply legit_forward; [exact (proj1 (Forall_forall _ _) (hf_queue _ _ _ _ _ Hb) P HP)|apply forward_refl|by constructor]. }
  destruct (receive_packet p' p b a' (ib ++ raws) ia Hp' Hp Hb1 Ha1 some_oracle P q some_oracle_ok HP' Hsame) as (b' & E' & _ & Heff).
  exists a', b', (ia ++ []), (ib ++ raws). split; [|split; [by constructor|done]]. eapply rtc_l; [exact H1|]. apply rtc_once, n_b.
  apply (act_receive _ _ some_oracle raw None); [apply some_oracle_ok|apply elem_of_app; by right|].
  unfold handleInbound. by rewrite (b_zero _ _ (hf_base _ _ _ _ _ Hb)), Hu.
Qed.

Definition both (n : network) : Prop := state (sender (nA n)) = established /\ state (sender (nB n)) = established.

Lemma finish_echoed p p' n :
  profile_ok p -> profile_ok p' -> shaking p p' n -> state (sender (nA n)) = cookieEchoed -> exists n', rtc nstep n n' /\ both n'.
Proof.
  intros Hp Hp' Hs Hst. destruct n as [a b ia ib]. cbn in Hst. pose proof (hf_phase _ _ _ _ _ (proj1 Hs)) as Hph. cbn in Hph. unfold phase in Hph. rewrite Hst in Hph.
  destruct Hph as (_ & Hk & [k Hsc] & Hrun). set (a1 := (sendCookieEcho a).2).
  assert (H1 : nstep (mkNet a b ia ib) (mkNet a1 b ia (ib ++ []))) by (by apply n_a, act_t1Cookie).
  assert (Hq : echo_packet p' k ∈ WindowedMin.queue (control a1)).
  { unfold a1, sendCookieEcho. rewrite Hsc. cbn. apply elem_of_app. right. unfold createPacket. rewrite (kn_tag _ _ _ Hk). destruct (kn_ports _ _ _ Hk) as [-> ->]. by left. }
  assert (Hst1 : state (sender a1) = cookieEchoed) by (unfold a1, sendCookieEcho; by rewrite Hsc).
  pose proof (nstep_ok p p' _ _ Hp Hp' Hs H1) as Hs1.
  destruct (send_over p p' a1 b ia (ib ++ []) _ Hp Hp' Hs1 Hq) as (a2 & b2 & ia2 & ib2 & R2 & Al2 & _ & _ & Heff & _).
  destruct (Heff k eq_refl) as [Hb2 Hd]. destruct (shaking_rtc p p' _ _ Hp Hp' Hs1 R2) as [Ha2 Hbb2].
  destruct (send_over p' p b2 a2 ib2 ia2 _ Hp' Hp (conj Hbb2 Ha2) Hd) as (b3 & a3 & ib3 & ia3 & R3 & Al3 & _ & _ & _ & Heff3).
  exists (mkNet a3 b3 ia3 ib3). split; [|split; cbn].
  - eapply rtc_l; [exact H1|]. etrans; [exact R2|]. exact (rtc_swap _ _ R3).
  - apply Heff3; [done|]. by rewrite (al_state _ _ Al2).
  - by rewrite (al_state _ _ Al3).
Qed.

Lemma finish_wait p p' n :
  profile_ok p -> profile_ok p' -> shaking p p' n -> state (sender (nA n)) = cookieWait -> exists n', rtc nstep n n' /\ both n'.
Proof.
  intros Hp Hp' Hs Hst. destruct n as [a b ia ib]. cbn in Hst. pose proof (hf_phase _ _ _ _ _ (proj1 Hs)) as Hph. cbn in Hph. unfold phase in Hph. rewrite Hst in Hph.
  destruct Hph as (_ & _ & Hsi & _ & Hrun). set (a1 := (sendInit a).2).
  assert (H1 : nstep (mkNet a b ia ib) (mkNet a1 b ia (ib ++ []))) by (by apply n_a, act_t1Init).
  assert (Hq : init_packet p ∈ WindowedMin.queue (control a1)).
  { unfold a1, sendInit. rewrite Hsi. cbn. apply elem_of_app. right. by left. }
  assert (Hst1 : state (sender a1) = cookieWait) by (unfold a1, sendInit; by rewrite Hsi).
  assert (Hb : state (sender b) <> established).
  { intros Hb. pose proof (hf_phase _ _ _ _ _ (proj2 Hs)) as Hph. cbn in Hph. unfold phase in Hph. rewrite Hb in Hph. destruct Hph as (_ & _ & [?|?]); congruence. }
  pose proof (nstep_ok p p' _ _ Hp Hp' Hs H1) as Hs1.
  destruct (send_over p p' a1 b ia (ib ++ []) _ Hp Hp' Hs1 Hq) as (a2 & b2 & ia2 & ib2 & R2 & Al2 & Heff & _).
  destruct (Heff eq_refl Hb) as [k Hd]; [by eexists|]. pose proof (shaking_rtc p p' _ _ Hp Hp' Hs1 R2) as [Ha2 Hbb2].
  destruct (send_over p' p b2 a2 ib2 ia2 _ Hp' Hp (conj Hbb2 Ha2) Hd) as (b3 & a3 & ib3 & ia3 & R3 & _ & _ & Heff3 & _).
  assert (R : rtc nstep (mkNet a b ia ib) (mkNet a3 b3 ia3 ib3)) by (eapply rtc_l; [exact H1|]; etrans; [exact R2|]; exact (rtc_swap _ _ R3)).
  destruct (finish_echoed p p' (mkNet a3 b3 ia3 ib3) Hp Hp') as (n' & R' & Hn').
  - exact (shaking_rtc p p' _ _ Hp Hp' Hs R).
  - cbn. apply (Heff3 k eq_refl). by rewrite (al_state _ _ Al2).
  - exists n'. split; [by etrans|done].
Qed.

(** From wherever the handshake has got to, once one end has started it. *)
Lemma finish p p' n :
  profile_ok p -> profile_ok p' -> shaking p p' n -> state (sender (nA n)) <> closed -> exists n', rtc nstep n n' /\ both n'.
Proof.
  intros Hp Hp' Hs Hst. pose proof (hf_phase _ _ _ _ _ (proj1 Hs)) as Hph. unfold phase in Hph. destruct (state (sender (nA n))) eqn:Es; try done.
  - by apply (finish_wait p p').
  - by apply (finish_echoed p p').
  - destruct Hph as (_ & _ & [Hb|Hb]); [|by exists n].
    destruct (finish_echoed p' p (swap n) Hp' Hp) as (n' & R & H1 & H2); [split; apply Hs|done|].
    exists (swap n'). split; [|done]. apply rtc_swap in R. by destruct n.
Qed.

End HandshakeSpec.

(** ** From the configuration to an established association *)

Section FromConfig.
Context {S : Type} `{SS : StreamScheduler S} `{SF : SchedulerFactory S} {Q : Type} `{QI : QueueImpl loc Q}.

Abbreviation ep := (@endpoint S Q).

(** A configuration with a receive buffer that peers accept and a scheduler. *)
Definition usable (cfg : @Config S) : Prop :=
  1500 <= orElse (MaxReceiveBufferSize cfg) initialRecvBufSize < 2 ^ 32
  /\ exists s, is_newStreamScheduler (default (setWeightedFairQueueingStreamScheduler (mkInterleaving None ∅)) (c_interleaving cfg)) = Some (Some s).

Definition profile_of (cfg : @Config S) (tsn tag : Z) : profile :=
  mkProfile tag tsn (orElse (MaxReceiveBufferSize cfg) initialRecvBufSize) (enableInterleaving cfg) (EnableZeroChecksum cfg).

(** [Client] sends an INIT, [Server] waits for one. *)
Definition opened (client : bool) (e : ep) : ep := if client then initClient e else e.

Definition endpoint_of (client : bool) (cfg : @Config S) (tsn tag : Z) : ep :=
  opened client (createAssociationFromConfigWithTsn cfg tsn tag true).

Lemma new_queue_ok b : recv_ok (newReceivePayloadQueue (getMaxTSNOffset b)).
Proof.
  destruct (new_init_ok b 0) as [H _]; [by split|]. unfold RecvQueue.init, newReceivePayloadQueue in *. cbn [tsnBitmask maxTSNOffset] in H.
  assert (E : forall n, map (fun _ : Z => 0) (replicate n 0) = replicate n 0) by (induction n as [|n IH]; cbn; congruence).
  by rewrite E in H.
Qed.

Lemma created_base cfg tsn tag w : usable cfg -> base (profile_of cfg tsn tag) (createAssociationFromConfigWithTsn cfg tsn tag w : ep).
Proof. intros [_ Hs]. constructor; try done. apply new_queue_ok. Qed.

Lemma opened_half p' (f : ep) client cfg tsn tag :
  usable cfg -> in_u 32 tsn -> 0 < tag < 2 ^ 32 -> WindowedMin.queue (control f) = [] \/ WindowedMin.queue (control f) = [init_packet p'] ->
  half (profile_of cfg tsn tag) p' (endpoint_of client cfg tsn tag) f [].
Proof.
  intros Hu Ht Hg Hc. pose proof (created_base cfg tsn tag true Hu) as Hb. constructor.
  - destruct client; [|done]. destruct Hb. constructor; cbn; done.
  - destruct client; [|by split; [|left]]. split; [done|]. split; [by left|]. done.
  - destruct client; [|done]. split; cbn; [intros i Hi; by injection Hi as <-|done].
  - constructor.
  - destruct Hc as [-> | ->]; [constructor|]. apply Forall_singleton, legit_init.
Qed.

Lemma opened_queue client cfg tsn tag :
  let q := WindowedMin.queue (control (endpoint_of client cfg tsn tag : ep)) in q = [] \/ q = [init_packet (profile_of cfg tsn tag)].
Proof. destruct client; [by right|by left]. Qed.

Lemma profile_of_ok cfg tsn tag : usable cfg -> in_u 32 tsn -> 0 < tag < 2 ^ 32 -> profile_ok (profile_of cfg tsn tag).
Proof. intros [? _] ? ?. by constructor. Qed.

(** One of the two that connect: its role, its configuration, and the random
    numbers it drew. *)
Record party := mkParty { pt_client : bool; pt_cfg : @Config S; pt_tsn : Z; pt_tag : Z }.

Definition party_ok (a : party) : Prop := usable (pt_cfg a) /\ in_u 32 (pt_tsn a) /\ 0 < pt_tag a < 2 ^ 32.

Definition party_ep (a : party) : ep := endpoint_of (pt_client a) (pt_cfg a) (pt_tsn a) (pt_tag a).

Definition party_profile (a : party) : profile := profile_of (pt_cfg a) (pt_tsn a) (pt_tag a).

Definition connecting (a b : party) : network := mkNet (party_ep a) (party_ep b) [] [].

Lemma connecting_shaking a b : party_ok a -> party_ok b -> shaking (party_profile a) (party_profile b) (connecting a b).
Proof. intros (? & ? & ?) (? & ? & ?). split; (apply opened_half; [done..|apply opened_queue]). Qed.

(** What one end holds of the other is what the other has. *)
Record matches (e f : ep) : Prop := {
  ag_tsn : peerLastTSN e = myNextTSN (sender f) -32 1;
  ag_received : received (rxQueue (rx e)) = [];
  ag_window : rwnd (cc (sender e)) = maxReceiveBufferSize (rx f);
  ag_interleaving : useInterleaving (ext e) = useInterleaving (ext f);
  ag_forward : useForwardTSN (sender e) = useForwardTSN (sender f) /\ useIForwardTSN (sender e) = useIForwardTSN (sender f);
  ag_checksum : sendZeroChecksum (ext e) = recvZeroChecksum (ext f)
}.

Definition agree (e f : ep) : Prop := peerVerificationTag (hs e) = myVerificationTag (hs f) /\ matches e f.

(** Tags do not matter to the rest. *)
Definition retag (t : Z) (p : profile) : profile := mkProfile t (pf_tsn p) (pf_buf p) (pf_inter p) (pf_zero p).

Lemma knows_matches p p' t t' (e f : ep) : base (retag t' p') f -> knows p p' e -> knows (retag t' p') (retag t p) f -> matches e f.
Proof.
  intros [] [] []. cbn in *. constructor; try congruence.
  - rewrite kn_inter0, kn_inter1. apply andb_comm.
  - rewrite kn_fwd0, kn_fwd1, kn_ifwd0, kn_ifwd1. by rewrite (andb_comm (pf_inter p)).
Qed.

Lemma knows_agree p p' (e f : ep) : base p' f -> knows p p' e -> knows p' p f -> agree e f.
Proof.
  intros Hb He Hf. split; [by rewrite (kn_tag _ _ _ He), (b_tag _ _ Hb)|]. apply (knows_matches p p' (pf_tag p) (pf_tag p')); by destruct p, p'.
Qed.

(** An established end and its peer agree. *)
Lemma half_established p p' (e f : ep) ie ie' :
  half p p' e f ie -> half p' p f e ie' -> getState e = established -> told e /\ sent f /\ agree e f /\ agree f e.
Proof.
  intros He Hf Hs. pose proof (hf_phase _ _ _ _ _ He) as Hph. unfold phase in Hph. unfold getState in Hs. rewrite Hs in Hph.
  destruct Hph as (Ht & Hk & Hsent). assert (Hk' : knows p' p f).
  { pose proof (hf_phase _ _ _ _ _ Hf) as Hph. unfold phase in Hph. destruct Hsent as [Hx|Hx]; rewrite Hx in Hph; apply Hph. }
  split_and!; [done|done|eapply knows_agree; [apply Hf|done..]|eapply knows_agree; [apply He|done..]].
Qed.

End FromConfig.



Module ShakeExample.

(** Two clients, as WebRTC peers are, one with interleaving switched off. *)
Definition alice : @party Builtin.scheduler := mkParty true (applyDefaults zeroConfig) 500 7.

Definition bob : @party Builtin.scheduler := mkParty true (with_enable false true (applyDefaults zeroConfig)) 1000 8.

Lemma alice_ok : party_ok alice.
Proof. split; [|by split]. split; [by vm_compute|]. by eexists. Qed.

Lemma bob_ok : party_ok bob.
Proof. split; [|by split]. split; [by vm_compute|]. by eexists. Qed.

Definition start_ : @network Builtin.scheduler (RingQueue.queue loc) := connecting alice bob.

(** Both write their INIT. *)
Definition written_ : @network Builtin.scheduler (RingQueue.queue loc) :=
  match gatherControl (nA start_) with
  | Some (raws, a') => mkNet a' (nB start_) [] raws
  | None => start_
  end.

Lemma written_step : nstep start_ written_.
Proof.
  unfold written_. destruct (gatherControl (nA start_)) as [[raws a']|] eqn:E; [|vm_compute in E; discriminate].
  exact (n_a _ _ [] [] a' raws (act_write _ _ _ _ E)).
Qed.



End ShakeExample.
