(* ===== verification/SnapSpec.v ===== *)
(** * Associations from out-of-band tokens

    Both ends exchange an encoded INIT on another channel (SNAP) and are
    established without a handshake.  The theorem composes the options, the
    encoder of the token, its decoder and the association that is set up
    from two tokens. *)

From S2P Require Import Prelude.
From S2P Require Import Serial.
From S2P Require Import Float64.
From S2P Require Import Bytes.
From S2P Require Import Params.
From S2P Require Import Causes.
From S2P Require Import Chunks.
From S2P Require Import Packet.
From S2P Require Import RingQueue.
From S2P Require Import PayloadQueue.
From S2P Require Import RecvQueue.
From S2P Require Import WindowedMin.
From S2P Require Import PendingQueue.
From S2P Require Import PendingSpec.
From S2P Require Import Reassembly.
From S2P Require Import Stream.
From S2P Require Import Timers.
From S2P Require Import Sender.
From S2P Require Import Sack.
From S2P Require Import RoundTrip.
From S2P Require Import Endpoint.
From S2P Require Import Receive.
From S2P Require Import Handshake.
From S2P Require Import Outbound.
From S2P Require Import Config.
From S2P Require Import ReceiveSpec.
From S2P Require Import HandshakeSpec.

Local Open Scope Z_scope.
Local Open Scope go_scope.

(** ** The token *)

(** The bytes of an INIT chunk. *)
Definition token_bytes (i : chunkInitCommon) : list Z := chunkHeader_marshal (chunkInit_marshal (mkChunkHeader 0 0 []) i).

Lemma token_decodes p : profile_ok p -> exists i, init_of (token_bytes (init_of_profile p)) = Ok i /\ speaks_for p i.
Proof.
  intros Hp. assert (Hk : cookie_ok (replicate 32 0)) by (split; [by apply byte_list|done]).
  pose proof (hello_ok p p _ Hp Hp Hk) as [(_ & _ & _ & Hc & _) _]%Forall_cons. apply Forall_singleton in Hc as [_ Hc].
  destruct (Hc _ eq_refl) as [Hl _]. cbn [fill ch_raw] in Hl.
  pose proof (chunkHeader_roundtrip (fill (mkChunkHeader 0 0 []) ctInit (chunkInitCommon_marshal (init_of_profile p))) [] Hl) as Hh.
  destruct (init_decodes _ _ [] false (Hh ltac:(by left)) eq_refl (init_of_ok p Hp)) as (b & Hu & He).
  rewrite app_nil_r in Hu. change (unmarshal_chunk _ ?r) with (chunkInit_unmarshal r) in Hu.
  destruct b; try done. exists i. unfold init_of, token_bytes. split; [|apply init_speaks, erased_init; exact (f_equal (fun b => match b with chunkInit j => j | _ => i end) He)].
  change (chunkInit_marshal _ ?x) with (fill (mkChunkHeader 0 0 []) ctInit (chunkInitCommon_marshal x)). by rewrite Hu.
Qed.

(** ** The association *)

Section Snap.
Context {S : Type} `{SS : StreamScheduler S} `{SF : SchedulerFactory S} {Q : Type} `{QI : QueueImpl loc Q}.

Abbreviation ep := (@endpoint S Q).

Lemma tokens_establish (cfg : @Config S) tsn own tag l r p' :
  usable cfg -> profile_ok p' -> speaks_for (profile_of cfg tsn own) l -> speaks_for p' r ->
  exists e : ep, initWithOutOfBandTokens l r (createAssociationFromConfigWithTsn cfg tsn tag false) = (None, e)
    /\ getState e = established /\ base (profile_of cfg tsn tag) e /\ knows (profile_of cfg tsn tag) p' e.
Proof.
  intros Hu Hp' [L1 L2 L3 L4 L5 L6 L7 L8] [R1 R2 R3 R4 R5 R6 R7 R8]. unfold initWithOutOfBandTokens. rewrite R1, R2, R3, R4, R5, R6, L3, L4, L6.
  set (e := on_sender _ _). pose proof (created_base (Q := Q) cfg tsn tag false Hu) as Hb.
  destruct (init_queue_ok _ (pf_tsn p' -32 1) (b_queue _ _ Hb)) as [Hq Hn]; [apply u32_range|].
  assert (He : base (profile_of cfg tsn tag) e) by (destruct Hb; pose proof (po_tag _ Hp'); constructor; cbn; try done; unfold in_u, defaultSCTPSrcDstPort; lia).
  destruct (negotiate _ e He) as (e1 & E1 & Hb1 & Hc1 & Hr1 & Hh1 & Hw1 & Hz1 & Hp1 & Hu1 & Hf1 & Hif1).
  unfold establish. rewrite E1. eexists. split; [done|]. split; [done|]. split; [destruct Hb1; by constructor|].
  constructor; cbn; rewrite ?Hh1, ?Hw1, ?Hz1, ?Hp1, ?Hu1, ?Hf1, ?Hif1; unfold peerLastTSN; cbn; rewrite ?Hr1; cbn; try done.
  - by rewrite andb_true_r.
  - by destruct (enableInterleaving cfg), (pf_inter p').
  - rewrite R7. by rewrite orb_false_r.
Qed.

(** One end: its options, the random numbers of its token, and the tag that the
    association draws for itself. *)
Record side := mkSide { sd_opts : list (option (@option_ S)); sd_tsn : Z; sd_tag : Z; sd_own : Z }.

Definition side_token (a : side) : list Z + (cerr + err) := GenerateOutOfBandToken (sd_opts a) (sd_tsn a) (sd_tag a).

(** The configuration of the client that is given both tokens. *)
Definition side_config (a : side) (mine theirs : list Z) : @Config S + cerr :=
  buildConfig (sd_opts a ++ [Some (WithSNAP mine theirs)]).

(** The numbers fit their types and the scheduler factory makes a scheduler. *)
Record side_ok (a : side) (cfg : @Config S) : Prop := {
  so_tsn : in_u 32 (sd_tsn a);
  so_tag : in_u 32 (sd_tag a);
  so_buf : MaxReceiveBufferSize cfg < 2 ^ 32;
  so_sched : exists i s, c_interleaving cfg = Some i /\ is_newStreamScheduler i = Some (Some s)
}.

Lemma applyAll_app {A} (l l' : list (option (A -> A + cerr))) x :
  applyAll (l ++ l') x = match applyAll l x with inl y => applyAll l' y | inr e => inr e end.
Proof. revert x. induction l as [|[f|] l IH]; intros x; cbn; [done| |apply IH]. destruct (f x); [apply IH|done]. Qed.

(** The tokens do not change the rest. *)
Lemma default_fields t (c : @Config S) :
  let c' := applyDefaults (with_snap t c) in
  MaxReceiveBufferSize c' = orElse (MaxReceiveBufferSize c) initialRecvBufSize /\ MaxReceiveBufferSize (applyDefaults c) = MaxReceiveBufferSize c'
  /\ enableInterleaving (applyDefaults c) = enableInterleaving c' /\ EnableZeroChecksum (applyDefaults c) = EnableZeroChecksum c' /\ c_snapConfig c' = t.
Proof. unfold applyDefaults. cbn. by destruct (enableInterleavingSet c). Qed.

(** The token says what the association will be. *)
Lemma side_profile a cfg tok mine theirs :
  side_ok a cfg -> side_token a = inl tok -> side_config a mine theirs = inl cfg ->
  let p := profile_of cfg (sd_tsn a) (sd_tag a) in
  tok = token_bytes (init_of_profile p) /\ profile_ok p /\ usable cfg /\ c_snapConfig cfg = Some (mine, theirs).
Proof.
  intros [Ht Hg Hb (i & s & Hi & Hs)] Htok Hcfg. unfold side_token, GenerateOutOfBandToken in Htok. unfold side_config, buildConfig in Hcfg.
  unfold option_ in *. rewrite applyAll_app in Hcfg. destruct (applyAll (sd_opts a) _) as [c|]; [|done]. unfold WithSNAP in Hcfg. cbn [applyAll] in Hcfg.
  destruct (_ || _); [done|]. destruct (NetConn _); [|done]. injection Hcfg as <-.
  destruct (default_fields (Some (mine, theirs)) c) as (D1 & D2 & D3 & D4 & D5). set (cfg := applyDefaults _) in *.
  assert (Hd : orElse (MaxReceiveBufferSize cfg) initialRecvBufSize = MaxReceiveBufferSize cfg).
  { rewrite D1. unfold orElse. by destruct (MaxReceiveBufferSize c =? 0) eqn:E; rewrite ?E. }
  unfold outOfBandInit in Htok. rewrite D2, D3, D4 in Htok. set (i0 := mkInitCommon _ _ _ _ _ _ _) in Htok.
  assert (Hsize : 1500 <= MaxReceiveBufferSize cfg /\ sd_tag a <> 0).
  { unfold chunkInit_check in Htok. cbn [i0 initiateTag numInboundStreams numOutboundStreams advertisedReceiverWindowCredit] in Htok.
    destruct (Z.eqb_spec (sd_tag a) 0); [done|]. destruct (Z.ltb_spec (MaxReceiveBufferSize cfg) 1500); [done|]. by split. }
  destruct Hsize as [Hsize Htag]. unfold profile_of, init_of_profile, usable. cbn [pf_tag pf_tsn pf_buf pf_inter pf_zero]. rewrite Hd.
  split_and!; [|constructor; cbn [pf_tag pf_tsn pf_buf]; [unfold in_u in Hg; lia|done|lia]|lia|done|rewrite Hi; by exists s|done].
  destruct (snd _); [done|]. by injection Htok as <-.
Qed.

End Snap.

(** C22. Two ends that exchange tokens are connected.  Whatever options each end
    has, if both tokens are generated and both configurations accepted, then
    both associations are created from the tokens without an error, are
    established, and hold of each other the first TSN, the receive window,
    interleaving, partial reliability and zero checksums that the other has;
    each sends with the tag of the other's token. *)
Theorem snap_tokens_agree {S} `{SS : StreamScheduler S} `{SF : SchedulerFactory S} {Q} `{QI : QueueImpl loc Q} (a b : @side S) tokA tokB cfgA cfgB :
  side_token a = inl tokA -> side_token b = inl tokB ->
  side_config a tokA tokB = inl cfgA -> side_config b tokB tokA = inl cfgB -> side_ok a cfgA -> side_ok b cfgB ->
  exists e f : @endpoint S Q,
    createSNAPAssociation cfgA (sd_own a) = Some (inl e) /\ createSNAPAssociation cfgB (sd_own b) = Some (inl f)
    /\ getState e = established /\ getState f = established /\ matches e f /\ matches f e
    /\ peerVerificationTag (hs e) = sd_tag b /\ peerVerificationTag (hs f) = sd_tag a
    /\ (agree e f <-> sd_own b = sd_tag b) /\ (agree f e <-> sd_own a = sd_tag a).
Proof.
  intros Ta Tb Ca Cb Ha Hb.
  destruct (side_profile a cfgA tokA tokA tokB Ha Ta Ca) as (-> & Pa & Ua & Sa). destruct (side_profile b cfgB tokB tokB _ Hb Tb Cb) as (-> & Pb & Ub & Sb).
  destruct (token_decodes _ Pa) as (ia & Da & Ia), (token_decodes _ Pb) as (ib & Db & Ib).
  destruct (tokens_establish (Q := Q) cfgA (sd_tsn a) (sd_tag a) (sd_own a) ia ib _ Ua Pb Ia Ib) as (e & Ee & Se & Be & Ke).
  destruct (tokens_establish (Q := Q) cfgB (sd_tsn b) (sd_tag b) (sd_own b) ib ia _ Ub Pa Ib Ia) as (f & Ef & Sf & Bf & Kf).
  assert (Mef : matches e f) by (exact (knows_matches (profile_of cfgA (sd_tsn a) (sd_own a)) (profile_of cfgB (sd_tsn b) (sd_tag b)) (sd_tag a) (sd_own b) e f Bf Ke Kf)).
  assert (Mfe : matches f e) by (exact (knows_matches (profile_of cfgB (sd_tsn b) (sd_own b)) (profile_of cfgA (sd_tsn a) (sd_tag a)) (sd_tag b) (sd_own a) f e Be Kf Ke)).
  exists e, f. unfold createSNAPAssociation. rewrite Sa, Sb, Da, Db, (sf_tsn _ _ Ia), (sf_tsn _ _ Ib). cbn [profile_of pf_tsn]. rewrite Ee, Ef.
  unfold agree. rewrite (kn_tag _ _ _ Ke), (kn_tag _ _ _ Kf), (b_tag _ _ Be), (b_tag _ _ Bf). cbn [profile_of pf_tag].
  split_and!; try done; split; [by intros [-> _]|by intros ->|by intros [-> _]|by intros ->].
Qed.

Module SnapExample.

(** An end with the default options and one with zero checksums and a smaller
    buffer, that shares interleaving. *)
Definition left_ : @side Builtin.scheduler := mkSide [Some (WithNetConn true)] 4294967295 7 70.

Definition right_ : @side Builtin.scheduler :=
  mkSide [Some (WithNetConn true); None; Some (WithEnableZeroChecksum true); Some (WithMaxReceiveBufferSize 65536)] 1000 8 80.

Definition token_of (a : @side Builtin.scheduler) : list Z := match side_token a with inl t => t | inr _ => [] end.

Definition config_of (a b : @side Builtin.scheduler) : @Config Builtin.scheduler :=
  match side_config a (token_of a) (token_of b) with inl c => c | inr _ => zeroConfig end.

Lemma snap_tokens_agree_witness :
  exists e f : @endpoint Builtin.scheduler (RingQueue.queue loc),
    createSNAPAssociation (config_of left_ right_) 70 = Some (inl e) /\ createSNAPAssociation (config_of right_ left_) 80 = Some (inl f)
    /\ getState e = established /\ getState f = established /\ matches e f /\ matches f e.
Proof.
  destruct (snap_tokens_agree (Q := RingQueue.queue loc) left_ right_ (token_of left_) (token_of right_) (config_of left_ right_) (config_of right_ left_))
    as (e & f & E1 & E2 & S1 & S2 & M1 & M2 & _).
  - vm_compute. reflexivity.
  - vm_compute. reflexivity.
  - vm_compute. reflexivity.
  - vm_compute. reflexivity.
  - constructor; [by split|by split|vm_compute; reflexivity|]. eexists _, _. split; vm_compute; reflexivity.
  - constructor; [by split|by split|vm_compute; reflexivity|]. eexists _, _. split; vm_compute; reflexivity.
  - exists e, f. split; [exact E1|]. split; [exact E2|]. split; [exact S1|]. split; [exact S2|]. split; [exact M1|exact M2].
Defined.

End SnapExample.
