(* ===== verification/ReadySpec.v ===== *)
(** * Associations are ready for data

    The constructor and the handshake set up the state that the theorems on
    sending (SenderSteps.v, SackSpec.v) and on acknowledging (AckSpec.v,
    ReceiveSpec.v) start from. *)

From S2P Require Import Prelude.
From S2P Require Import Serial.
From S2P Require Import Float64.
From S2P Require Import Bytes.
From S2P Require Import Params.
From S2P Require Import Causes.
From S2P Require Import Chunks.
From S2P Require Import Packet.
From S2P Require Import RingQueue.
From S2P Require Import PayloadQueue.
From S2P Require Import RecvQueue.
From S2P Require Import WindowedMin.
From S2P Require Import PendingQueue.
From S2P Require Import PendingSpec.
From S2P Require Import Reassembly.
From S2P Require Import Stream.
From S2P Require Import Timers.
From S2P Require Import Sender.
From S2P Require Import Sack.
From S2P Require Import SenderSpec.
From S2P Require Import SackSpec.
From S2P Require Import SenderSteps.
From S2P Require Import RoundTrip.
From S2P Require Import Endpoint.
From S2P Require Import Receive.
From S2P Require Import Handshake.
From S2P Require Import Outbound.
From S2P Require Import Config.
From S2P Require Import ReceiveSpec.
From S2P Require Import AckSpec.
From S2P Require Import HandshakeSpec.
From S2P Require Import SnapSpec.

Local Open Scope Z_scope.
Local Open Scope go_scope.

Section Ready.
Context {S : Type} `{SL : StreamSchedulerLaws S} {Q : Type} `{QL : QueueLaws loc Q}.

Abbreviation ep := (@endpoint S Q).

(** A new pending queue, in either mode, is well formed and empty. *)
Lemma fresh_policy deref (q : @PendingSpec.pendingQueue S) : fresh q -> policy_ok deref (policy q) /\ contents q = [].
Proof.
  unfold fresh, contents. destruct (PendingSpec.interleaving q); [intros [s ->]|intros ->].
  2: { split; [|done]. exists [], [], (fun _ => []). constructor; try done; by intros []. }
  - destruct (ok_reset s) as [Hs Hq]. split; [split; [done|rewrite Hq; apply map_Forall_empty]|by rewrite Hq].
Qed.

Lemma idle_flight p (e : ep) : base p e -> in_u 32 (pf_tsn p) -> flight 0 (sender e) /\ timed (sender e).
Proof.
  intros Hb Ht. destruct (b_idle _ _ Hb) as (Hh & Hi & Hr & Hc & _). destruct (fresh_policy (deref (sender e)) _ (b_fresh _ _ Hb)) as [Hp Hn].
  pose proof (b_tsn _ _ Hb) as Htsn. destruct (newPayloadQueue_ok (Q := Q) (heap (sender e))) as [Hq Hl]. rewrite <- Hi in Hq, Hl. split; [|unfold timed; by rewrite Hl].
  constructor; [constructor|constructor|..]; rewrite ?Hl, ?Hn, ?Hr, ?Hc, ?Htsn; try done.
  - by rewrite (b_empty _ _ Hb : PendingSpec.size _ = 0).
  - constructor.
  - apply u32_range.
  - intros i x Hx. by rewrite Hl, lookup_nil in Hx.
  - unfold in_u in Ht. cbn [length]. go_lia.
Qed.

Lemma base_typed p (e : ep) : base p e -> profile_ok p -> rx_typed e.
Proof.
  intros Hb [_ _ Hs]. destruct (b_wire _ _ Hb) as (H1 & H2 & H3).
  constructor; [apply (b_queue _ _ Hb)|by rewrite (b_dups _ _ Hb)|rewrite (b_buf _ _ Hb); unfold in_u; lia|done|done].
Qed.

(** What the rest of the development asks of an association before its first
    message. *)
Record ready (e : ep) : Prop := {
  rd_flight : flight 0 (sender e);
  rd_timed : timed (sender e);
  rd_typed : rx_typed e;
  rd_none : contents (pendingQueue (sender e)) = [] /\ locs (inflightQueue (sender e)) = []
}.

Lemma base_ready p (e : ep) : base p e -> profile_ok p -> ready e.
Proof.
  intros Hb Hp. destruct (idle_flight p e Hb (po_tsn _ Hp)) as [Hf Ht]. constructor; [done|done|by eapply base_typed|].
  split; [apply (fresh_policy (deref (sender e)) _ (b_fresh _ _ Hb))|]. destruct (b_idle _ _ Hb) as (_ & -> & _). apply (newPayloadQueue_ok (heap (sender e))).
Qed.

End Ready.


Module ReadyExample.
Import ShakeExample.

(** The streams of the queue, in the order of the map. *)
Definition visit (q : @PendingSpec.pendingQueue Builtin.scheduler) : list Z :=
  match policy q with MessagePolicy _ => [] | InterleavingPolicy s => elements (dom (queues s)) end.

Lemma visit_ok : SenderSpec.order_ok visit.
Proof. intros q. unfold visits, visit. destruct (policy q); [done|]. intros i. by rewrite elem_of_elements. Qed.


End ReadyExample.
