(* ===== verification/StateSpec.v ===== *)
(** * The states of an association

    Which chunk, timer or call takes an association from which state to which,
    and what becomes of the data that is queued when it is shut down. *)

From S2P Require Import Prelude.
From S2P Require Import Serial.
From S2P Require Import Float64.
From S2P Require Import Bytes.
From S2P Require Import Params.
From S2P Require Import Causes.
From S2P Require Import Chunks.
From S2P Require Import Packet.
From S2P Require Import RingQueue.
From S2P Require Import PayloadQueue.
From S2P Require Import RecvQueue.
From S2P Require Import WindowedMin.
From S2P Require Import PendingQueue.
From S2P Require Import PendingSpec.
From S2P Require Import Reassembly.
From S2P Require Import Stream.
From S2P Require Import Timers.
From S2P Require Import Sender.
From S2P Require Import Sack.
From S2P Require Import Endpoint.
From S2P Require Import Receive.
From S2P Require Import Handshake.
From S2P Require Import Outbound.
From S2P Require Import Config.
From S2P Require Import ReceiveSpec.

Local Open Scope Z_scope.
Local Open Scope go_scope.

(** [opt E]: the successful path of a chain of binds. *)
Ltac opt E :=
  repeat match type of E with
  | mbind _ ?x = Some _ => let F := fresh "F" in destruct x as [?|] eqn:F; cbn [mbind option_bind] in E; [|discriminate E]
  | (let (_, _) := ?x in _) = Some _ => let F := fresh "F" in destruct x eqn:F
  end.

Section StateSpec.
Context {S : Type} `{SS : StreamScheduler S} {Q : Type} `{QI : QueueImpl loc Q}.

Abbreviation ep := (@endpoint S Q).
Abbreviation assoc := (@association S Q).

Implicit Types (e : ep) (a : assoc).

(** ** The sender leaves the state alone *)

(** The state and what is queued are the same. *)
Definition steady (a a' : assoc) : Prop := state a' = state a /\ pendingQueue a' = pendingQueue a.

Lemma steady_refl a : steady a a.
Proof. done. Qed.

Lemma steady_trans a b c : steady a b -> steady b c -> steady a c.
Proof. intros [? ?] [? ?]. split; congruence. Qed.

Lemma steady_measureRTT now c a : steady a (measureRTT now c a).
Proof. unfold measureRTT. by repeat case_match. Qed.

Lemma steady_cumAckLoop fuel now cum : forall idx acc a r a', cumAckLoop fuel now cum idx acc a = Some (r, a') -> steady a a'.
Proof.
  induction fuel as [|fuel IH]; intros idx acc a r a' E; [done|]. cbn [cumAckLoop] in E. destruct (negb _); [by simplify_eq|].
  opt E. destruct o as [x|]; [|by simplify_eq]. opt E. apply IH in E. eapply steady_trans; [|exact E].
  assert (Hs : steady a a0) by (destruct (acked s); cbn [negb] in F2; simplify_eq; [done|]; eapply steady_trans; [|apply steady_measureRTT]; by destruct (_ =? _)).
  eapply steady_trans; [exact Hs|]. by destruct (_ && _).
Qed.

Lemma steady_gapLoop fuel now cum : forall i last acc htna a r a', gapLoop fuel now cum i last acc htna a = Some (r, a') -> steady a a'.
Proof.
  induction fuel as [|fuel IH]; intros i last acc htna a r a' E; [done|]. cbn [gapLoop] in E. destruct (_ <? _); [by simplify_eq|].
  opt E. destruct o as [x|]; [|by simplify_eq]. opt E. apply IH in E. eapply steady_trans; [|exact E].
  destruct (acked s); cbn [negb] in F1; [by simplify_eq|]. opt F1. simplify_eq. eapply steady_trans; [|apply steady_measureRTT]. done.
Qed.

Lemma steady_gapBlocks now cum gaps : forall acc htna a r a', gapBlocksLoop now cum gaps acc htna a = Some (r, a') -> steady a a'.
Proof.
  induction gaps as [|g gaps IH]; intros acc htna a r a' E; cbn [gapBlocksLoop] in E; [by simplify_eq|]. opt E. apply steady_gapLoop in F.
  destruct s as [[? ?]|?]; [apply IH in E; by eapply steady_trans|by simplify_eq].
Qed.

Lemma steady_processSack now cum gaps a r a' : processSelectiveAck now cum gaps a = Some (r, a') -> steady a a'.
Proof.
  unfold processSelectiveAck. intros E. opt E. apply steady_cumAckLoop in F.
  destruct s as [?|?]; [apply steady_gapBlocks in E; by eapply steady_trans|by simplify_eq].
Qed.

Lemma steady_advanced n a : steady a (onCumulativeTSNAckPointAdvanced n a).
Proof. unfold onCumulativeTSNAckPointAdvanced. by repeat case_match. Qed.

Lemma steady_releaseBuffers bytes a : steady a (releaseBuffers bytes a).2.
Proof.
  unfold releaseBuffers. induction (map_to_list bytes) as [|[si n] l IH]; [done|]. cbn [foldr]. destruct (foldr _ _ l) as [called b].
  cbn in *. destruct (streams_ b !! si) as [s|]; [|done]. by destruct (onBufferReleased s n).
Qed.

(** What is in flight is the same, too. *)
Definition still (a a' : assoc) : Prop := steady a a' /\ inflightQueue a' = inflightQueue a.

Lemma still_trans a b c : still a b -> still b c -> still a c.
Proof. intros [H1 ?] [H2 ?]. split; [by eapply steady_trans|congruence]. Qed.

Lemma still_loss now a : still a (tlrApplyAdditionalLossLocked now a).
Proof. unfold tlrApplyAdditionalLossLocked, tlrUpdatePhaseLocked. by repeat case_match. Qed.

Lemma steady_missLoop fuel now htna m : forall t a r a', missLoop fuel now htna m t a = Some (r, a') -> steady a a'.
Proof.
  induction fuel as [|fuel IH]; intros t a r a' E; [done|]. cbn [missLoop] in E. destruct (negb _); [by simplify_eq|].
  opt E. destruct o as [x|]; [|by simplify_eq]. opt E. apply IH in E. eapply steady_trans; [|exact E]. destruct (_ && _); [|done]. destruct (_ =? _); [|done].
  set (a1 := if tlrActive _ then _ else _). assert (Hb : steady a a1) by (unfold a1; destruct (tlrActive _); [eapply steady_trans; [|apply still_loss]|]; done).
  eapply steady_trans; [exact Hb|]. by destruct (negb _).
Qed.

Lemma steady_fastRetransmission now cum gaps htna adv a r a' : processFastRetransmission now cum gaps htna adv a = Some (r, a') -> steady a a'.
Proof.
  unfold processFastRetransmission. intros E. opt E.
  assert (Hs : steady a a0) by (destruct (_ || _); [by eapply steady_missLoop|by simplify_eq]).
  destruct o; simplify_eq; [done|]. eapply steady_trans; [exact Hs|]. by destruct (inFastRecovery (cc a0) && adv).
Qed.

Lemma steady_advanceLoop fuel : forall i a a', advanceLoop fuel i a = Some a' -> steady a a'.
Proof.
  induction fuel as [|fuel IH]; intros i a a' E; [done|]. cbn [advanceLoop] in E. opt E. destruct o as [x|]; [|by simplify_eq]. opt E.
  destruct (negb _); [by simplify_eq|]. apply IH in E. by eapply steady_trans.
Qed.

Lemma steady_advancePeer a a' : advancePeerAckPoint a = Some a' -> steady a a'.
Proof. unfold advancePeerAckPoint. intros E. opt E. apply steady_advanceLoop in F. simplify_eq. by destruct (sna32GT _ _). Qed.

Lemma still_rackLoop l : forall m a r a', rackLoop l m a = Some (r, a') -> still a a'.
Proof.
  induction l as [|p l IH]; intros m a r a' E; cbn [rackLoop] in E; [by simplify_eq|]. opt E.
  repeat (case_match; [|]); simplify_eq; try done; apply IH in E; by eapply still_trans.
Qed.

Lemma still_rackMark now a a' : rackMark now a = Some a' -> still a a'.
Proof.
  unfold rackMark. intros E. opt E. apply still_rackLoop in F. simplify_eq. eapply still_trans; [exact F|]. destruct b; [|done].
  destruct (tlrActive _); [|done]. eapply still_trans; [apply still_loss|done].
Qed.

Lemma still_schedulePTO now a : still a (schedulePTOAfterSendLocked now a).
Proof. unfold schedulePTOAfterSendLocked. by case_match. Qed.

Lemma still_rackUpdate now d dups a : still a (rackUpdate now d dups a).
Proof. unfold rackUpdate. by destruct (Min _ _). Qed.

Lemma still_onRack now d dups a a' : onRackAfterSACK now d dups a = Some a' -> still a a'.
Proof.
  unfold onRackAfterSACK. intros E. opt E. simplify_eq. pose proof (still_rackUpdate now d dups a) as H0.
  assert (H1 : still (rackUpdate now d dups a) a0) by (destruct (negb _); [by apply still_rackMark in F|by simplify_eq]).
  eapply still_trans; [exact H0|]. eapply still_trans; [exact H1|]. eapply still_trans; [|apply still_schedulePTO]. clear F. by case_match.
Qed.

Lemma still_finish b a : still a (tlrMaybeFinishLocked b a).
Proof. unfold tlrMaybeFinishLocked. by repeat case_match. Qed.

(** *** A SACK may end the wait of a shutdown *)

Definition drained_state (s : assocState) : assocState :=
  match s with shutdownPending => shutdownSent | shutdownReceived => shutdownAckSent | _ => s end.

(** The state is the same, or nothing is in flight any more and the next step of
    the shutdown is taken; what is queued stays. *)
Definition sack_moves (a a' : assoc) : Prop :=
  (state a' = state a \/ (state a' = drained_state (state a) /\ (0 <? PayloadQueue.size (inflightQueue a')) = false)) /\ pendingQueue a' = pendingQueue a.

Lemma sack_moves_steady a a' : steady a a' -> sack_moves a a'.
Proof. intros [? ?]. split; [by left|done]. Qed.

Lemma postprocess_moves b a : sack_moves a (postprocessSack (state a) b a).
Proof.
  unfold postprocessSack. destruct (0 <? _) eqn:Hz; [by destruct b; apply sack_moves_steady|].
  destruct (state a) eqn:E; cbn; destruct b; try (by apply sack_moves_steady); (split; [right|done]); (split; [by rewrite E|done]).
Qed.

Lemma handleSack_moves now cum w gaps dups a r a' : handleSack now cum w gaps dups a = Some (r, a') -> sack_moves a a'.
Proof.
  unfold handleSack. destruct (negb _); [intros; simplify_eq; by apply sack_moves_steady|].
  destruct (sna32GT _ _); [intros; simplify_eq; by apply sack_moves_steady|]. intros E. opt E.
  apply steady_processSack in F. destruct s as [[[bytes d] htna]|x]; [|simplify_eq; by apply sack_moves_steady].
  set (a1 := if sna32LT _ _ then _ else _) in E.
  assert (H1 : steady a a1) by (eapply steady_trans; [exact F|]; unfold a1; destruct (sna32LT _ _); [|done]; eapply steady_trans; [|apply steady_advanced]; done).
  clearbody a1. pose proof (steady_releaseBuffers bytes a1) as H2. destruct (releaseBuffers bytes a1) as [called a2]. cbn [snd] in H2.
  destruct (processFastRetransmission _ _ _ _ _ _) as [[err a3]|] eqn:F3 in E; [|done]. cbn [mbind option_bind] in E. apply steady_fastRetransmission in F3.
  assert (H3 : steady a a3) by (eapply steady_trans; [exact H1|]; eapply steady_trans; [exact H2|]; eapply steady_trans; [|exact F3]; done).
  destruct err; [simplify_eq; by apply sack_moves_steady|].
  destruct (if partialReliabilityEnabled a3 then _ else _) as [a4|] eqn:F4; [|done]. cbn [mbind option_bind] in E.
  assert (H4 : steady a a4).
  { eapply steady_trans; [exact H3|]. destruct (partialReliabilityEnabled a3); [|by simplify_eq]. opt F4. simplify_eq. apply steady_advancePeer in F1.
    destruct (sna32LT _ _); by eapply steady_trans. }
  opt E. simplify_eq. apply still_onRack in F1. pose proof (still_finish (sna32LT (cumulativeTSNAckPoint a0) cum || d_found d) a5) as H5.
  pose proof (still_trans _ _ _ F1 H5) as [[S6 P6] I6]. destruct H4 as [S4 P4]. unfold sack_moves. rewrite S6, P6, I6, <- S4, <- P4. apply postprocess_moves.
Qed.

(** *** Timers and retransmission *)

Lemma steady_partial now p a r a' : checkPartialReliabilityStatus now p a = Some (r, a') -> steady a a'.
Proof.
  unfold checkPartialReliabilityStatus. destruct (negb _); [intros; by simplify_eq|]. intros E. opt E. destruct (_ =? PayloadTypeWebRTCDCEP); [by simplify_eq|].
  destruct (streams_ a !! streamIdentifier (wire s)) as [st|]; [|by simplify_eq].
  match type of E with (if ?b then _ else _) = _ => destruct b end; [|by simplify_eq]. opt E. by simplify_eq.
Qed.

Lemma steady_resend now rtx p a r a' : resend now rtx p a = Some (r, a') -> steady a a'.
Proof. unfold resend. intros E. opt E. apply steady_partial in E. eapply steady_trans; [|exact E]. unfold rackInsert. by destruct (bool_decide _). Qed.

Lemma steady_retransmitLoop fuel now awnd : forall i b bip bts cs a r a', retransmitLoop fuel now awnd i b bip bts cs a = Some (r, a') -> steady a a'.
Proof.
  induction fuel as [|fuel IH]; intros i b bip bts cs a r a' E; [done|]. cbn [retransmitLoop] in E. opt E. destruct o as [x|]; [|by simplify_eq]. opt E.
  destruct (negb (retransmit s)); [by apply IH in E|]. destruct (_ && _); [by simplify_eq|]. destruct (place _ _ _ _) as [[? ?]|]; [|by simplify_eq].
  opt E. apply steady_resend in F1. apply IH in E. by eapply steady_trans.
Qed.

Lemma steady_fastLoop fuel now wnd : forall i b bip bts cs a r a', fastLoop fuel now wnd i b bip bts cs a = Some (r, a') -> steady a a'.
Proof.
  induction fuel as [|fuel IH]; intros i b bip bts cs a r a' E; [done|]. cbn [fastLoop] in E. opt E. destruct o as [x|]; [|by simplify_eq]. opt E.
  destruct (_ || _); [by apply IH in E|]. destruct (wnd <? _); [by simplify_eq|]. destruct (place _ _ _ _) as [[? ?]|]; [|by simplify_eq].
  opt E. apply steady_resend in F2. apply IH in E. by eapply steady_trans.
Qed.

Lemma steady_retransmit now b a r a' : getDataPacketsToRetransmit now b a = Some (r, a') -> steady a a'.
Proof. unfold getDataPacketsToRetransmit. intros E. opt E. simplify_eq. by eapply steady_retransmitLoop. Qed.

Lemma steady_fast now b a r a' : gatherOutboundFastRetransmissionPackets now b a = Some (r, a') -> steady a a'.
Proof.
  unfold gatherOutboundFastRetransmissionPackets. destruct (negb _); [intros; by simplify_eq|]. intros E. opt E. apply steady_fastLoop in F.
  destruct (bool_decide _); [by simplify_eq|]. opt E. by simplify_eq.
Qed.

Lemma steady_budget now a r a' : tlrCurrentBurstBudgetScaledLocked now a = Some (r, a') -> steady a a'.
Proof.
  unfold tlrCurrentBurstBudgetScaledLocked. destruct (tlrActive (tlr a)) eqn:En; cbn [negb]; [|intros; by simplify_eq].
  unfold tlrCurrentBurstUnitsLocked, mbind, M_bind, mret, M_ret. rewrite En. cbn [negb mbind option_bind].
  intros. simplify_eq. unfold tlrUpdatePhaseLocked. by repeat case_match.
Qed.

Lemma steady_t3 a a' : onT3Timeout a = Some a' -> steady a a'.
Proof.
  unfold onT3Timeout. set (a1 := if inFastRecovery _ then _ else _). assert (H1 : steady a a1) by (unfold a1; by case_match). clearbody a1.
  intros E. opt E. simplify_eq. eapply steady_trans; [exact H1|]. destruct (partialReliabilityEnabled a1); [by apply steady_advancePeer in F|by simplify_eq].
Qed.

Lemma steady_pto now a r a' : onPTOTimerLocked now a = Some (r, a') -> steady a a'.
Proof.
  unfold onPTOTimerLocked. destruct (_ =? 0); [intros; by simplify_eq|]. intros E. opt E.
  assert (H1 : steady a a0).
  { destruct (negb _); [|simplify_eq; apply still_loss]. unfold tlrBeginLocked in F. destruct (tlrHighestOutstandingTSNLocked a); [|done]. cbn in F. by simplify_eq. }
  eapply steady_trans; [exact H1|]. clear F. destruct (0 <? _); [by simplify_eq|]. opt E. destruct o as [p|]; [|by simplify_eq]. opt E. simplify_eq. by case_match.
Qed.

Lemma steady_rackTimeout now a a' : onRackTimeoutLocked now a = Some a' -> steady a a'.
Proof. unfold onRackTimeoutLocked. destruct (_ =? 0); [intros; by simplify_eq|]. intros E. by apply still_rackMark in E as [? _]. Qed.

(** *** Sending new data *)

#[local] Existing Instances M_ret M_bind.

Definition keeps {T} (m : Sender.M (S := S) (Q := Q) T) : Prop := forall a x a', m a = Some (x, a') -> state a' = state a.

Lemma keeps_mbind {T U} (m : Sender.M T) (f : T -> Sender.M U) : keeps m -> (forall x, keeps (f x)) -> keeps (mbind f m).
Proof. intros Hm Hf a x a' E. unfold mbind, M_bind in E. destruct (m a) as [[y b]|] eqn:F; [|done]. cbn in E. by rewrite (Hf _ _ _ _ E), (Hm _ _ _ F). Qed.

Lemma keeps_mret {T} (x : T) : keeps (mret x).
Proof. intros a y a' E. unfold mret, M_ret in E. by simplify_eq. Qed.

Lemma keeps_upd f : (forall a, state (f a) = state a) -> keeps (upd f).
Proof. intros Hf a x a' E. unfold upd in E. simplify_eq. apply Hf. Qed.

Lemma keeps_look {T} (f : assoc -> option T) : keeps (look f).
Proof. intros a x a' E. unfold look in E. destruct (f a); [|done]. cbn in E. by simplify_eq. Qed.

Lemma keeps_read {T} (f : assoc -> T) : keeps (read f).
Proof. intros a x a' E. unfold read in E. by simplify_eq. Qed.

Lemma keeps_try f : (forall a a', f a = Some a' -> state a' = state a) -> keeps (try f).
Proof. intros Hf a x a' E. unfold try in E. destruct (f a) eqn:F; [|done]. cbn in E. simplify_eq. by apply Hf. Qed.

Lemma keeps_peek order : keeps (pending_peek order).
Proof. intros a x a' E. unfold pending_peek in E. destruct (PendingSpec.peek _ _) as [[? ?]|]; [|done]. cbn in E. by simplify_eq. Qed.

Lemma keeps_rackInsert p a : state (rackInsert p a) = state a.
Proof. unfold rackInsert. by destruct (bool_decide _). Qed.

Lemma keeps_move now p : keeps (movePendingDataChunkToInflightQueue now p).
Proof.
  unfold movePendingDataChunkToInflightQueue, chunk_at, set_chunk.
  repeat first [apply keeps_mbind; [|intros ?] | apply keeps_look | apply keeps_upd; done | apply keeps_mret].
  - match goal with |- keeps (if ?b then _ else _) => destruct b end; [|apply keeps_mret]. apply keeps_try. intros a a' E. destruct (setAllInflight _ _); [|done]. cbn in E. by simplify_eq.
  - intros a y a' E. unfold generateNextTSN in E. by simplify_eq.
  - intros a y a' E. by apply steady_partial in E as [? _].
  - apply keeps_try. intros a a' E. destruct (PayloadQueue.pushNoCheck _ _ _); [|done]. cbn in E. by simplify_eq.
  - apply keeps_upd. apply keeps_rackInsert.
Qed.

Lemma keeps_popLoop fuel order now : forall b bip cs sis, keeps (popPendingLoop fuel order now b bip cs sis).
Proof.
  induction fuel as [|fuel IH]; intros b bip cs sis; [done|]. cbn [popPendingLoop]. apply keeps_mbind; [apply keeps_peek|]. intros [p|]; [|apply keeps_mret].
  apply keeps_mbind; [apply keeps_look|]. intros c. destruct (_ =? 0); [apply keeps_mbind; [by apply keeps_upd|intros _; apply IH]|].
  apply keeps_mbind; [apply keeps_read|]. intros a. destruct (_ <? _); [apply keeps_mret|]. destruct (_ <? _); [apply keeps_mret|].
  destruct (_ && _); [apply IH|]. destruct (_ && _); [apply keeps_mret|]. destruct (tlrAllowSendLocked _ _ _) as [ok b']. destruct (negb ok); [apply keeps_mret|].
  apply keeps_mbind; [by apply keeps_upd|]. intros _. apply keeps_mbind; [apply keeps_move|]. intros _. apply IH.
Qed.

Lemma keeps_probe order now b cs : keeps (windowProbe order now b cs).
Proof.
  unfold windowProbe. apply keeps_mbind; [apply keeps_read|]. intros a. destruct (negb _); [apply keeps_mret|]. apply keeps_mbind; [apply keeps_peek|].
  intros [p|]; [|apply keeps_mret]. apply keeps_mbind; [apply keeps_look|]. intros c. destruct (0 <? _); [|apply keeps_mret]. destruct (_ <=? _); [|apply keeps_mret].
  destruct (tlrAllowSendLocked _ _ _) as [[|] b']; [|apply keeps_mret]. apply keeps_mbind; [apply keeps_move|]. intros _. apply keeps_mret.
Qed.

Lemma keeps_popPending fuel order now b : keeps (popPendingDataChunksToSend fuel order now b).
Proof.
  unfold popPendingDataChunksToSend. apply keeps_mbind; [apply keeps_read|]. intros a. apply keeps_mbind.
  - destruct (0 <? _); [|apply keeps_mret]. apply keeps_mbind; [apply keeps_popLoop|]. intros [[cs sis] b']. apply keeps_mbind; [apply keeps_probe|].
    intros [cs' b'']. apply keeps_mret.
  - intros r. apply keeps_mbind; [apply keeps_read|]. intros a'. apply keeps_mbind; [|intros _; apply keeps_mret]. destruct (_ && _); [by apply keeps_upd|apply keeps_mret].
Qed.

Lemma keeps_gatherData fuel order now b : keeps (gatherOutboundData fuel order now b).
Proof.
  intros a x a' E. unfold gatherOutboundData in E. opt E. apply keeps_popPending in F. destruct (bool_decide _); [by simplify_eq|]. opt E. simplify_eq.
  rewrite <- F. exact (proj1 (proj1 (still_schedulePTO now (t3_start a0)))).
Qed.

(** ** Chunks *)

Inductive event := EvInitAck | EvCookieEcho | EvCookieAck | EvShutdown | EvShutdownComplete | EvAbort | EvSack | EvOther.

Definition event_of (c : chunk) : event :=
  match k_body c with
  | chunkInitAck _ => EvInitAck
  | chunkCookieEcho _ => EvCookieEcho
  | chunkCookieAck => EvCookieAck
  | chunkShutdown _ => EvShutdown
  | chunkShutdownComplete => EvShutdownComplete
  | chunkAbort _ => EvAbort
  | chunkSelectiveAck _ _ _ _ => EvSack
  | _ => EvOther
  end.

(** The state diagram: [before] and [after] say whether data is in flight before
    and after the event. *)
Inductive edge (before after : bool) : event -> assocState -> assocState -> Prop :=
  | edge_stay ev s : edge before after ev s s
  | edge_initAck : edge before after EvInitAck cookieWait cookieEchoed
  | edge_cookieEcho s : s ∈ [closed; cookieWait; cookieEchoed] -> edge before after EvCookieEcho s established
  | edge_cookieAck : edge before after EvCookieAck cookieEchoed established
  | edge_shutdown_data : before = true -> edge before after EvShutdown established shutdownReceived
  | edge_shutdown_idle : before = false -> edge before after EvShutdown established shutdownAckSent
  | edge_shutdown_crossed : edge before after EvShutdown shutdownSent shutdownAckSent
  | edge_sack_pending : after = false -> edge before after EvSack shutdownPending shutdownSent
  | edge_sack_received : after = false -> edge before after EvSack shutdownReceived shutdownAckSent
  | edge_complete : edge before after EvShutdownComplete shutdownAckSent closed
  | edge_abort s : edge before after EvAbort s closed.

Definition busy (e : ep) : bool := 0 <? PayloadQueue.size (inflightQueue (sender e)).

(** The endpoint's sender keeps its state and its queue. *)
Definition settled (e e' : ep) : Prop := steady (sender e) (sender e').

Lemma settled_trans e1 e2 e3 : settled e1 e2 -> settled e2 e3 -> settled e1 e3.
Proof. apply steady_trans. Qed.

Lemma settled_getOrCreate si acc ppi e : settled e (getOrCreateStream si acc ppi e).2.
Proof. unfold getOrCreateStream, createStream, setPayloadType. repeat case_match; by simplify_eq/=. Qed.

Lemma settled_accept d e : settled e (acceptPayloadData d e).2.
Proof.
  unfold acceptPayloadData. pose proof (settled_getOrCreate (streamIdentifier d) true 0 e) as H. destruct (getOrCreateStream _ _ _ e) as [ok e1].
  assert (Hp : settled e1 (pushPayloadDataToStream d e1).2) by (unfold pushPayloadDataToStream; by repeat case_match; simplify_eq/=).
  cbn in H. repeat case_match; cbn; eauto using settled_trans.
Qed.

Lemma settled_popLoop order fuel : forall reply e r e', popLoop fuel order reply e = Some (r, e') -> settled e e'.
Proof.
  induction fuel as [|fuel IH]; intros reply e r e' E; [done|]. cbn [popLoop] in E. destruct (RecvQueue.pop _ _) as [ok q]. destruct (negb ok); [by simplify_eq|].
  destruct (answerRequests_frame (order (reconfigRequests (rc (set_queue q e)))) (set_queue q e)) as (m & l & rs & Hfr).
  destruct (answerRequests _ _) as [ps e1]. cbn in Hfr. subst e1. apply IH in E. by eapply settled_trans.
Qed.

Lemma settled_handlePeer order b e r e' : handlePeerLastTSNAndAcknowledgement order b e = Some (r, e') -> settled e e'.
Proof.
  unfold handlePeerLastTSNAndAcknowledgement. intros E. opt E. apply settled_popLoop in F. simplify_eq. eapply settled_trans; [exact F|].
  unfold trigger. by repeat case_match.
Qed.

Lemma settled_handleData order ii d e r e' : handleData order ii d e = Some (r, e') -> settled e e'.
Proof.
  unfold handleData. destruct (negb _); [intros; by simplify_eq|]. destruct (negb _); [intros; by simplify_eq|].
  pose proof (settled_accept d e) as H. destruct (canPush _ _); [destruct (acceptPayloadData d e) as [[|] e1]|]; cbn [negb snd] in *.
  - intros E%settled_handlePeer. by eapply settled_trans.
  - intros. by simplify_eq.
  - apply settled_handlePeer.
Qed.

Lemma settled_fold {A} (f : A -> Stream -> Stream) (id : A -> Z) l e : settled e (fold_left (fun e x => on_stream (f x) (id x) e) l e).
Proof.
  revert e. induction l as [|x l IH]; intros e; [done|]. cbn [fold_left]. eapply settled_trans; [|apply IH]. unfold on_stream. by destruct (_ !! _).
Qed.

Lemma settled_forward order cum ss e r e' : handleForwardTSN order cum ss e = Some (r, e') -> settled e e'.
Proof.
  unfold handleForwardTSN. repeat (case_match; [intros; by simplify_eq|]). intros E. opt E. apply settled_handlePeer in E.
  eapply settled_trans; [|exact E]. eapply settled_trans; [apply (settled_fold (fun f s => (handleForwardTSNForOrdered s (fs_sequence f)).2) fs_identifier ss (set_queue r0 e))|done].
Qed.

Lemma settled_iforward order cum ss e r e' : handleIForwardTSN order cum ss e = Some (r, e') -> settled e e'.
Proof.
  unfold handleIForwardTSN. repeat (case_match; [intros; by simplify_eq|]). intros E. opt E. apply settled_handlePeer in E.
  eapply settled_trans; [|exact E]. apply (settled_fold (fun x s => (if is_unordered x then handleForwardTSNForUnorderedMID s (is_messageIdentifier x)
                           else handleForwardTSNForOrderedMID s (is_messageIdentifier x)).2) is_identifier ss (set_queue r0 e)).
Qed.

Lemma settled_reconfigParam p e : settled e (handleReconfigParam p e).2.
Proof.
  unfold handleReconfigParam. destruct p as [[? [| | | | | | | |rsn resp lastTSN ids|rsn result|]]|]; try done.
  - destruct (_ && _); [done|]. destruct (resetStreamsIfAny_frame (mkReset rsn resp lastTSN ids) (set_requests (<[rsn := mkReset rsn resp lastTSN ids]> (reconfigRequests (rc e))) e))
      as (m & l & rs & H). destruct (resetStreamsIfAny _ _) as [pk e']. cbn in *. by rewrite H.
  - destruct (result =? _); [by destruct (_ !! _)|]. destruct (result =? _); [|done]. unfold resetOutgoingStreamSequenceNumbers. repeat case_match; try done;
      match goal with |- settled e (_, set_reconfigs _ _ ?x).2 => change (settled e x) end;
      apply (settled_fold (fun _ => Stream.resetOutgoingStreamSequenceNumbers) (fun x => x)).
Qed.

Lemma settled_reconfig pa pb e : settled e (handleReconfig pa pb e).2.
Proof.
  unfold handleReconfig. pose proof (settled_reconfigParam pa e) as H1. destruct (handleReconfigParam pa e) as [[p|] e1]; [|done].
  destruct pb as [b|]; [|done]. pose proof (settled_reconfigParam (Some b) e1) as H2. destruct (handleReconfigParam (Some b) e1) as [[p'|] e2]; by eapply settled_trans.
Qed.

Lemma updateInterleaving_state e : getState (updateInterleavingState e).2 = getState e.
Proof. unfold updateInterleavingState. destruct (eqb _ _); [cbn; by case_match|]. destruct (PendingSpec.setInterleaving _ _) as [[?|] ?]; [done|]. cbn. by case_match. Qed.

Lemma establish_state e : getState (establish e).2 = match (establish e).1 with Some _ => getState e | None => established end.
Proof. unfold establish. pose proof (updateInterleaving_state e) as H. destruct (updateInterleavingState e) as [[?|] e1]; cbn in *; [done|done]. Qed.

Lemma completeHandshake_sender b r e ok e' : completeHandshake b r e = Some (ok, e') -> sender e' = sender e.
Proof. unfold completeHandshake. repeat case_match; intros; by simplify_eq. Qed.

Lemma handleInit_state k pkt i e :
  getState (handleInit k pkt i e).2 = getState e
  /\ (connected (getState e) = true -> sender (handleInit k pkt i e).2 = sender e).
Proof.
  unfold handleInit. destruct (bool_decide (getState e = closed) || bool_decide (getState e = cookieWait) || bool_decide (getState e = cookieEchoed)) eqn:Es;
    cbn [negb]; [|done].
  match goal with |- context [updateInterleavingState ?x] => pose proof (updateInterleaving_state x) as H; destruct (updateInterleavingState x) as [err e1] end.
  cbn in H. split; [repeat case_match; done|]. intros Hc. exfalso. destruct (getState e); cbn in Es, Hc; done.
Qed.

Lemma handleInitAck_state pkt i e :
  edge (busy e) (busy (handleInitAck pkt i e).2) EvInitAck (getState e) (getState (handleInitAck pkt i e).2)
  /\ (connected (getState e) = true -> sender (handleInitAck pkt i e).2 = sender e).
Proof.
  unfold handleInitAck. destruct (bool_decide (getState e = cookieWait)) eqn:Es; cbn [negb]; [|split; [apply edge_stay|done]].
  apply bool_decide_eq_true in Es. split; [|by rewrite Es]. destruct (_ || _); [apply edge_stay|].
  match goal with |- context [updateInterleavingState ?x] => pose proof (updateInterleaving_state x) as H; destruct (updateInterleavingState x) as [err e1] end.
  cbn in H. destruct err; [cbn; rewrite H; apply edge_stay|]. destruct (cookieParam _); [|cbn; rewrite H; apply edge_stay].
  rewrite Es. apply edge_initAck.
Qed.

Lemma handleCookieEcho_state b k e ps e' :
  handleCookieEcho b k e = Some (ps, e') ->
  edge (busy e) (busy e') EvCookieEcho (getState e) (getState e') /\ (connected (getState e) = true -> sender e' = sender e).
Proof.
  unfold handleCookieEcho. destruct (myCookie _); [|intros; simplify_eq; split; [apply edge_stay|done]].
  assert (Hest : getState e ∈ [closed; cookieWait; cookieEchoed] -> (let (err, e0) := establish (drop_stored e) in
    match err with
    | Some r => '(_, e1) ← completeHandshake b (Some r) e0; Some ([], e1)
    | None => '(ok, e1) ← completeHandshake b None e0;
        if ok : bool then Some ([createPacket e1 [new_chunk chunkCookieAck]], e1) else Some ([], e1)
    end) = Some (ps, e') -> edge (busy e) (busy e') EvCookieEcho (getState e) (getState e')).
  { intros Hin. pose proof (establish_state (drop_stored e)) as He. destruct (establish _) as [err e0]. cbn in He. intros H.
    destruct err; (destruct (completeHandshake _ _ _) as [[ok e1]|] eqn:E1; [|done]); apply completeHandshake_sender in E1; cbn in H.
    - simplify_eq. unfold getState in *. rewrite E1, He. apply edge_stay.
    - assert (e' = e1) as -> by (repeat case_match; by simplify_eq). unfold getState in *. rewrite E1, He. by apply edge_cookieEcho. }
  destruct (getState e) eqn:Es; try (intros; simplify_eq; split; [rewrite Es; apply edge_stay|done]);
    (destruct (negb _); [intros; simplify_eq; split; [rewrite Es; apply edge_stay|done]|]);
    try (intros E; split; [apply Hest; [set_solver|exact E]|done]).
  intros. simplify_eq. split; [rewrite Es; apply edge_stay|done].
Qed.

Lemma handleCookieAck_state b e e' :
  handleCookieAck b e = Some e' -> edge (busy e) (busy e') EvCookieAck (getState e) (getState e') /\ (connected (getState e) = true -> sender e' = sender e).
Proof.
  unfold handleCookieAck. destruct (bool_decide (getState e = cookieEchoed)) eqn:Es; cbn [negb]; [|intros; simplify_eq; split; [apply edge_stay|done]].
  apply bool_decide_eq_true in Es. match goal with |- context [establish ?x] => pose proof (establish_state x) as H; destruct (establish x) as [err e0] end.
  cbn in H. destruct (completeHandshake _ _ _) as [[ok e1]|] eqn:E1; [|done]. apply completeHandshake_sender in E1. cbn. intros. simplify_eq.
  split; [|by rewrite Es]. unfold getState in *. rewrite E1, Es. destruct err; rewrite H; [|apply edge_cookieAck]. cbn. rewrite Es. apply edge_stay.
Qed.

Lemma dispatch_edge o pkt c e r e' :
  dispatch o pkt c e = Some (r, e') ->
  edge (busy e) (busy e') (event_of c) (getState e) (getState e')
  /\ (connected (getState e) = true -> pendingQueue (sender e') = pendingQueue (sender e)).
Proof.
  assert (Hset : forall ev e1, settled e e1 -> edge (busy e) (busy e1) ev (getState e) (getState e1)
    /\ (connected (getState e) = true -> pendingQueue (sender e1) = pendingQueue (sender e))).
  { intros ev e1 [H1 H2]. unfold getState. rewrite H1. split; [apply edge_stay|done]. }
  unfold dispatch, event_of. destruct (k_body c) as [i|i|cs|cs|k| |ps|ps|d|cum rw gaps dups|pa pb|cum ss|cum ss|cum| |]; intros E.
  - destruct (handleInit_state (randomCookie o) pkt i e) as [H1 H2]. destruct (handleInit _ _ _ _). simplify_eq. cbn in *. rewrite H1.
    split; [apply edge_stay|]. intros Hc. by rewrite (H2 Hc).
  - destruct (handleInitAck_state pkt i e) as [H1 H2]. destruct (handleInitAck _ _ _). simplify_eq. cbn in *. split; [done|]. intros Hc. by rewrite (H2 Hc).
  - cbn in E. simplify_eq. split; [apply edge_abort|done].
  - simplify_eq. by apply Hset.
  - opt E. destruct p. simplify_eq. apply handleCookieEcho_state in F as [H1 H2]. split; [done|]. intros Hc. by rewrite (H2 Hc).
  - opt E. simplify_eq. apply handleCookieAck_state in F as [H1 H2]. split; [done|]. intros Hc. by rewrite (H2 Hc).
  - simplify_eq. by apply Hset.
  - simplify_eq. apply Hset. unfold handleHeartbeatAck. repeat case_match; try done. unfold settled. cbn. by destruct (setNewRTT _ _).
  - opt E. destruct p. simplify_eq. apply Hset. by eapply settled_handleData.
  - opt E. simplify_eq. apply handleSack_moves in F as [H1 H2]. split; [|done]. unfold getState, busy. cbn.
    destruct H1 as [->|[-> Hz]]; [apply edge_stay|]. destruct (state (sender e)); cbn; try apply edge_stay; [by apply edge_sack_pending|by apply edge_sack_received].
  - pose proof (settled_reconfig pa pb e) as H. destruct (handleReconfig _ _ _). simplify_eq. by apply Hset.
  - opt E. destruct p. simplify_eq. apply Hset. by eapply settled_forward.
  - opt E. destruct p. simplify_eq. apply Hset. by eapply settled_iforward.
  - simplify_eq. unfold handleShutdown. destruct (getState e) eqn:Es; try (rewrite Es; split; [apply edge_stay|done]).
    + destruct (0 <? _) eqn:Hz; (split; [|done]); [exact (edge_shutdown_data _ _ Hz)|exact (edge_shutdown_idle _ _ Hz)].
    + split; [apply edge_shutdown_crossed|done].
  - simplify_eq. apply Hset. unfold handleShutdownAck. by repeat case_match.
  - simplify_eq. unfold handleShutdownComplete. destruct (getState e) eqn:Es; try (rewrite Es; split; [apply edge_stay|done]).
    split; [apply edge_complete|done].
Qed.

Lemma handleChunk_edge o pkt c e r e' :
  handleChunk o pkt c e = Some (r, e') ->
  edge (busy e) (busy e') (event_of c) (getState e) (getState e')
  /\ (connected (getState e) = true -> pendingQueue (sender e') = pendingQueue (sender e)).
Proof.
  unfold handleChunk. destruct (check c) as [ab [x|]].
  - intros. simplify_eq. destruct (_ && _); (split; [apply edge_stay|done]).
  - intros E. opt E. apply dispatch_edge in F. repeat case_match; by simplify_eq.
Qed.

(** ** Timers *)

Lemma settled_timeout id e e' : Handshake.onRetransmissionTimeout id e = Some e' -> settled e e'.
Proof.
  destruct id; cbn; intros E.
  - injection E as <-. unfold sendInit. by case_match.
  - injection E as <-. unfold sendCookieEcho. by case_match.
  - injection E as <-. by case_match.
  - opt E. injection E as <-. by apply steady_t3 in F.
  - by injection E as <-.
Qed.

Lemma settled_timerFires now e e' : timerFires now e = Some e' -> settled e e'.
Proof.
  unfold timerFires. match goal with |- context [on_sender ?f e] => set (e0 := on_sender f e) end. assert (H0 : settled e e0) by done. clearbody e0.
  intros E. opt E. assert (H1 : settled e0 e1).
  { destruct (negb _ && _); [|by simplify_eq]. unfold onRackTimeout in F. opt F. simplify_eq. by apply steady_rackTimeout in F0. }
  eapply settled_trans; [exact H0|]. eapply settled_trans; [exact H1|]. clear F. destruct (negb _ && _); [|by simplify_eq].
  unfold onPTOTimer in E. opt E. apply steady_pto in F. injection E as <-. by destruct b.
Qed.

(** ** The write loop *)

Lemma settled_sack raws e raws' e' : gatherOutboundSackPackets raws e = Some (raws', e') -> settled e e' /\ fin e' = fin e.
Proof.
  unfold gatherOutboundSackPackets. destruct (negb _); [intros; by simplify_eq|]. intros E. opt E. unfold createSelectiveAckChunk in F. opt F.
  destruct (_ <? 0); [done|]. by simplify_eq.
Qed.

Lemma settled_fwd order raws e raws' e' : gatherOutboundForwardTSNPackets order raws e = Some (raws', e') -> settled e e'.
Proof.
  unfold gatherOutboundForwardTSNPackets. destruct (negb _); [intros; by simplify_eq|]. destruct (negb _); [intros; by simplify_eq|]. intros E. opt E.
  destruct o; [opt E|]; by simplify_eq.
Qed.

Lemma settled_shutdown raws e raws' ok e' :
  gatherOutboundShutdownPackets raws e = Some (raws', ok, e') -> settled e e' /\ (ok = false -> willSendShutdownComplete (fin e) = true).
Proof.
  unfold gatherOutboundShutdownPackets, startT2. destruct (willSendShutdown _); [intros E; opt E; simplify_eq; split; [by case_match|done]|].
  destruct (willSendShutdownAck _); [intros E; opt E; simplify_eq; split; [by case_match|done]|].
  destruct (willSendShutdownComplete _); [intros E; opt E; by simplify_eq|]. intros. by simplify_eq.
Qed.

Lemma settled_resent now b raws e x e' : gatherDataPacketsToRetransmit now b raws e = Some (x, e') -> settled e e' /\ fin e' = fin e.
Proof. unfold gatherDataPacketsToRetransmit. intros E. opt E. simplify_eq. by apply steady_retransmit in F. Qed.

Lemma settled_fastResent now b raws e x e' : gatherFastRetransmission now b raws e = Some (x, e') -> settled e e' /\ fin e' = fin e.
Proof. unfold gatherFastRetransmission. intros E. opt E. simplify_eq. by apply steady_fast in F. Qed.

Lemma settled_reconfigOut order sis e : settled e (gatherReconfig order sis e).2.
Proof.
  unfold gatherReconfig. destruct (_ && _); [done|]. destruct (bool_decide (sis = [])); cbn; by destruct (0 <? _).
Qed.

Lemma data_state fuel o now b raws e x e' : gatherOutboundDataAndReconfigPackets fuel o now b raws e = Some (x, e') -> getState e' = getState e.
Proof.
  unfold gatherOutboundDataAndReconfigPackets. intros E. opt E. simplify_eq. apply keeps_gatherData in F. unfold getState. rewrite <- F.
  pose proof (settled_reconfigOut (reconfigOrder o) l0 (on_sender (fun _ => a) e)) as [H _]. by rewrite F4 in H.
Qed.

(** The burst budget, then what has to be sent again. *)
Lemma settled_first now raws e bud a x e1 :
  tlrCurrentBurstBudgetScaledLocked now (sender e) = Some (bud, a) ->
  gatherDataPacketsToRetransmit now (bud, false) raws (on_sender (fun _ => a) e) = Some (x, e1) -> settled e e1 /\ fin e1 = fin e.
Proof. intros H1%steady_budget [H2 H3]%settled_resent. split; [exact (settled_trans _ (on_sender (fun _ => a) e) _ H1 H2)|done]. Qed.

Lemma gatherOutbound_state fuel o now e raws ok e' :
  gatherOutbound fuel o now e = Some (raws, ok, e') ->
  getState e' = getState e /\ (getState e <> established -> pendingQueue (sender e') = pendingQueue (sender e))
  /\ (ok = false -> willSendAbort (fin e) = true \/ willSendShutdownComplete (fin e) = true).
Proof.
  unfold gatherOutbound. destruct (willSendAbort _).
  { unfold gatherAbortPacket. destruct (marshalPacket _ _); intros E; simplify_eq; (split; [done|]); (split; [done|by left]). }
  unfold gatherControl. destruct (WindowedMin.popAll _) as [ps c]. intros E. destruct (emitAll (set_control c e) [] ps) as [raws0|]; [|done]. cbn [mbind option_bind] in E.
  set (e0 := set_control c e) in *. change (fin e) with (fin e0). change (getState e) with (getState e0). change (pendingQueue (sender e)) with (pendingQueue (sender e0)). clearbody e0.
  assert (Hset : settled e0 e' -> (ok = false -> willSendShutdownComplete (fin e0) = true) ->
    getState e' = getState e0 /\ (getState e0 <> established -> pendingQueue (sender e') = pendingQueue (sender e0))
    /\ (ok = false -> false = true \/ willSendShutdownComplete (fin e0) = true)).
  { intros [H1 H2] H3. split; [exact H1|]. split; [by intros _|]. intros Hok. right. by apply H3. }
  assert (Hend : ('(budget, a) ← tlrCurrentBurstBudgetScaledLocked now (sender e0);
        '(raws, b, e) ← gatherDataPacketsToRetransmit now (budget, false) raws0 (on_sender (fun _ => a) e0);
        '(raws, b, e) ← gatherFastRetransmission now b raws e;
        '(raws, e) ← gatherOutboundSackPackets raws e;
        gatherOutboundShutdownPackets raws e) = Some (raws, ok, e') -> settled e0 e' /\ (ok = false -> willSendShutdownComplete (fin e0) = true)).
  { clear E. intros E. opt E. simplify_eq. destruct (settled_first _ _ _ _ _ _ _ F F1) as [H1 G1]. apply settled_fastResent in F4 as [H2 G2]. apply settled_sack in F7 as [H3 G3].
    apply settled_shutdown in E as [H4 H5]. split; [eapply settled_trans; [exact H1|]; eapply settled_trans; [exact H2|]; by eapply settled_trans|].
    by rewrite <- G1, <- G2, <- G3. }
  destruct (getState e0) eqn:Es.
  - simplify_eq. by apply Hset.
  - simplify_eq. by apply Hset.
  - simplify_eq. by apply Hset.
  - opt E. simplify_eq. destruct (settled_first _ _ _ _ _ _ _ F F1) as [[H1 _] _]. apply data_state in F4 as H2. apply settled_fastResent in F7 as [[H3 _] _].
    apply settled_sack in F10 as [[H4 _] _]. apply settled_fwd in F12 as [H5 _]. unfold getState in *. split; [congruence|]. done.
  - apply settled_shutdown in E as [H1 H2]. by apply Hset.
  - destruct (Hend E). by apply Hset.
  - destruct (Hend E). by apply Hset.
  - destruct (Hend E). by apply Hset.
Qed.

Lemma writeTurn_state fuel o now e raws e' :
  writeTurn fuel o now e = Some (raws, e') ->
  (getState e' = getState e \/ (getState e' = closed /\ (willSendAbort (fin e) = true \/ willSendShutdownComplete (fin e) = true)))
  /\ (getState e <> established -> pendingQueue (sender e') = pendingQueue (sender e)).
Proof.
  unfold writeTurn. intros E. destruct (gatherOutbound _ _ _ _) as [[[raws0 ok] e1]|] eqn:F; [|done]. cbn in E. simplify_eq.
  apply gatherOutbound_state in F as (H1 & H2 & H3). destruct ok; [auto|]. split; [right; auto|done].
Qed.

End StateSpec.

(** ** After [Shutdown] *)

Definition ending_state (s : assocState) : Prop := s ∈ [shutdownPending; shutdownSent; shutdownReceived; shutdownAckSent].

(** What happens to an association that is being shut down. *)
Inductive endstep {S} `{SS : StreamScheduler S} {Q} `{QI : QueueImpl loc Q} : @endpoint S Q -> @endpoint S Q -> Prop :=
  | end_chunk o pkt c e r e' : ending_state (getState e) -> handleChunk o pkt c e = Some (r, e') -> endstep e e'
  | end_timeout id e e' : ending_state (getState e) -> Handshake.onRetransmissionTimeout id e = Some e' -> endstep e e'
  | end_timers now e e' : ending_state (getState e) -> timerFires now e = Some e' -> endstep e e'
  | end_ack e : ending_state (getState e) -> endstep e (onAckTimeout e)
  | end_packet e : ending_state (getState e) -> endstep e (handleChunksEnd e)
  | end_write fuel o now e raws e' : ending_state (getState e) -> writeTurn fuel o now e = Some (raws, e') -> endstep e e'.

Lemma ending_cases (P : assocState -> Prop) s :
  ending_state s -> P shutdownPending -> P shutdownSent -> P shutdownReceived -> P shutdownAckSent -> P s.
Proof.
  intros H. unfold ending_state in H. repeat (apply elem_of_cons in H as [->|H]; [done|]). by apply elem_of_nil in H.
Qed.

Lemma ending_edge b a ev s s' : ending_state s -> edge b a ev s s' -> ending_state s' \/ s' = closed.
Proof.
  intros Hs He. destruct He; auto; left; unfold ending_state in *; set_solver.
Qed.

Lemma endstep_keeps {S} `{SS : StreamScheduler S} {Q} `{QI : QueueImpl loc Q} (e e' : @endpoint S Q) :
  endstep e e' -> pendingQueue (sender e') = pendingQueue (sender e) /\ (ending_state (getState e') \/ getState e' = closed).
Proof.
  intros Hst. assert (Hset : forall e1 e2 : @endpoint S Q, ending_state (getState e1) -> settled e1 e2 -> pendingQueue (sender e2) = pendingQueue (sender e1) /\ (ending_state (getState e2) \/ getState e2 = closed)).
  { intros e1 e2 He [H1 H2]. split; [done|]. left. unfold getState in *. by rewrite H1. }
  destruct Hst as [o pkt c e r e' Hs E|id e e' Hs E|now e e' Hs E|e Hs|e Hs|fuel o now e raws e' Hs E].
  - apply handleChunk_edge in E as [H1 H2]. split; [apply H2; by apply (ending_cases (fun s => connected s = true) _ Hs)|by eapply ending_edge].
  - apply Hset; [done|by eapply settled_timeout].
  - apply Hset; [done|by eapply settled_timerFires].
  - by apply Hset.
  - apply Hset; [done|]. unfold handleChunksEnd. by repeat case_match.
  - apply writeTurn_state in E as [H1 H2]. split; [apply H2; intros He; rewrite He in Hs; revert Hs; unfold ending_state; set_solver|].
    destruct H1 as [->|[-> _]]; auto.
Qed.


(** What is queued when an association is shut down is never sent: nothing moves
    it to the chunks in flight before the association is closed. *)
Theorem queued_data_lost_at_shutdown {S} `{SS : StreamScheduler S} {Q} `{QI : QueueImpl loc Q} (e e' : @endpoint S Q) :
  getState e = established -> rtc endstep (Shutdown e).2 e' -> pendingQueue (sender e') = pendingQueue (sender e).
Proof.
  intros Hs Hr. assert (H0 : pendingQueue (sender (Shutdown e).2) = pendingQueue (sender e)).
  { unfold Shutdown. rewrite Hs. cbn. by destruct (_ =? 0). }
  rewrite <- H0. clear H0 Hs. induction Hr as [|x y z Hxy _ IH]; [done|]. by rewrite IH, (proj1 (endstep_keeps _ _ Hxy)).
Qed.

(** An end that has sent its SHUTDOWN ignores the data its peer still sends: there
    is no acknowledgement. *)
Lemma shutdown_sent_ignores_data {S} `{SS : StreamScheduler S} {Q} `{QI : QueueImpl loc Q} o pkt h d (e : @endpoint S Q) :
  getState e = shutdownSent -> handleChunk o pkt (mkChunk h (chunkPayloadData d)) e = Some (None, e).
Proof. intros Hs. unfold handleChunk, check, dispatch, handleData. cbn [k_body]. by rewrite Hs. Qed.

Module StateExample.

(** A SHUTDOWN from the peer when nothing is in flight. *)
Definition shut : chunk := new_chunk (chunkShutdown 499).


End StateExample.
