(* ===== verification/TransferSpec.v ===== *)
(** * What is sent and what arrives

    The sending half of one association, the bytes it puts on the wire, and the
    receiving half of the other.  The ghost state is a log: every DATA chunk as
    it was when it got its TSN. *)

From S2P Require Import Prelude.
From S2P Require Import Serial.
From S2P Require Import Float64.
From S2P Require Import Bytes.
From S2P Require Import Params.
From S2P Require Import Causes.
From S2P Require Import Chunks.
From S2P Require Import Packet.
From S2P Require Import RingQueue.
From S2P Require Import PayloadQueue.
From S2P Require Import RecvQueue.
From S2P Require Import WindowedMin.
From S2P Require Import PendingQueue.
From S2P Require Import PendingSpec.
From S2P Require Import Reassembly.
From S2P Require Import Stream.
From S2P Require Import Timers.
From S2P Require Import Sender.
From S2P Require Import Sack.
From S2P Require Import SenderSpec.
From S2P Require Import SackSpec.
From S2P Require Import SenderSteps.
From S2P Require Import RoundTrip.
From S2P Require Import Endpoint.
From S2P Require Import Receive.
From S2P Require Import Handshake.
From S2P Require Import Outbound.
From S2P Require Import Config.
From S2P Require Import ReceiveSpec.
From S2P Require Import AckSpec.

Local Open Scope Z_scope.
Local Open Scope go_scope.

Definition with_tsn (t : Z) (d : payloadData) : payloadData :=
  mkPayload (unordered d) (beginningFragment d) (endingFragment d) (immediateSack d) t (streamIdentifier d)
    (streamSequenceNumber d) (messageIdentifier d) (fragmentSequenceNumber d) (payloadType d) (userData d) (iData d).

Lemma with_tsn_same d : with_tsn (tsn d) d = d.
Proof. by destruct d. Qed.

Lemma shape_wire c c' : shape_of c' = shape_of c -> with_tsn 0 (wire c') = with_tsn 0 (wire c) /\ acked c' = acked c /\ hdr c' = hdr c.
Proof. unfold shape_of, with_tsn. intros E. injection E as -> -> -> -> -> -> -> -> -> -> -> -> _ -> _. done. Qed.

Lemma same_wire d d' : with_tsn 0 d' = with_tsn 0 d -> tsn d' = tsn d -> d' = d.
Proof. destruct d, d'. cbn. intros E ->. by injection E as -> -> -> -> -> -> -> -> -> -> ->. Qed.

Lemma shuffle {A} (P L N R G : list A) : P ++ (L ++ N) ++ R ++ G ≡ₚ (N ++ R ++ P) ++ L ++ G.
Proof.
  transitivity ((P ++ L) ++ (N ++ R) ++ G); [by rewrite <- !app_assoc|]. rewrite Permutation_app_swap_app. by rewrite <- !app_assoc.
Qed.

(** The encoding has no field for the message identifier and the fragment number
    of a DATA chunk, and only one for the payload type and the fragment number of an
    I-DATA chunk: the first fragment carries the one, the others the other. *)
Definition as_sent (d : payloadData) : payloadData :=
  mkPayload (unordered d) (beginningFragment d) (endingFragment d) (immediateSack d) (tsn d) (streamIdentifier d) (streamSequenceNumber d)
    (if iData d then messageIdentifier d else 0)
    (if iData d then if beginningFragment d then 0 else fragmentSequenceNumber d else 0)
    (if iData d then if beginningFragment d then payloadType d else 0 else payloadType d)
    (userData d) (iData d).

Lemma as_sent_marshal h d : iData d = Chunks.isIData h d -> chunkPayloadData_marshal h (as_sent d) = chunkPayloadData_marshal h d.
Proof.
  intros E. unfold chunkPayloadData_marshal. assert (E' : Chunks.isIData h (as_sent d) = Chunks.isIData h d) by done.
  rewrite E', <- E. destruct d as [u b l im t si sq mid fsn ppi data idt]. cbn in *. by destruct idt, b.
Qed.

Section Log.
Context {S : Type} `{SL : StreamSchedulerLaws S} {Q : Type} `{QL : QueueLaws loc Q}.

Abbreviation assoc := (@association S Q).

(** The chunks that a step puts in flight. *)
Definition entered (a a' : assoc) : list payloadData :=
  map (wire_at (heap a')) (filter (fun p => p ∉ locs (inflightQueue a)) (locs (inflightQueue a'))).

(** [base] is the TSN before the first.  The chunks in flight are the last of the
    log, and those not acknowledged are as the log has them. *)
Record logged (base : Z) (log : list payloadData) (a : assoc) : Prop := {
  lg_next : myNextTSN a = base +32 (1 + Z.of_nat (length log));
  lg_tsn : forall i d, log !! i = Some d -> tsn d = base +32 (1 + Z.of_nat i);
  lg_flight : forall j p c, locs (inflightQueue a) !! j = Some p -> heap a !! p = Some c -> acked c = false ->
    exists i, (i + length (locs (inflightQueue a)) = length log + j)%nat /\ log !! i = Some (wire c)
}.

Lemma flight_live k a p : flight k a -> p ∈ locs (inflightQueue a) -> exists c, heap a !! p = Some c.
Proof.
  intros Hf Hp. pose proof (pq_live _ _ (sk_inflight _ (fl_send _ _ Hf))) as Hl. rewrite Forall_forall in Hl. destruct (Hl p Hp) as (c & Hc & _). by exists c.
Qed.

(** Chunks leave the queue, flags change, acknowledged chunks are emptied. *)
Lemma logged_intact base log k a a' popped :
  flight k a -> logged base log a -> intact (heap a) (heap a') -> locs (inflightQueue a) = popped ++ locs (inflightQueue a') ->
  myNextTSN a' = myNextTSN a -> logged base log a'.
Proof.
  intros Hf [L1 L2 L3] Hi Hl Hn. constructor; [by rewrite Hn|done|]. intros j p c' Hj Hp Ha.
  assert (Hj' : locs (inflightQueue a) !! (length popped + j)%nat = Some p) by (rewrite Hl, lookup_app_r by lia; by replace (length popped + j - length popped)%nat with j by lia).
  destruct (flight_live k a p Hf) as [c Hc]; [by eapply list_elem_of_lookup_2|]. destruct (Hi p c Hc) as (c2 & Hc2 & E).
  rewrite Hp in Hc2. injection Hc2 as <-. destruct (E Ha) as (Ha0 & _ & ->). destruct (L3 _ _ _ Hj' Hc Ha0) as (i & Hlen & Hlog).
  exists i. split; [|done]. rewrite Hl, length_app in Hlen. lia.
Qed.

Lemma entered_none a a' popped : locs (inflightQueue a) = popped ++ locs (inflightQueue a') -> entered a a' = [].
Proof.
  intros Hl. unfold entered. replace (filter _ _) with (@nil loc); [done|]. symmetry. apply filter_none.
  intros p Hp Hn. apply Hn. rewrite Hl. apply elem_of_app. by right.
Qed.

Lemma entered_sent now k a new resets a' :
  flight k a -> sent now a new resets a' -> entered a a' = map (wire_at (heap a')) new.
Proof.
  intros Hf Hs. unfold entered. rewrite (st_inflight _ _ _ _ _ Hs), filter_app. pose proof (sk_nodup _ (st_ok _ _ _ _ _ Hs)) as Hn.
  rewrite (st_inflight _ _ _ _ _ Hs) in Hn. apply NoDup_app in Hn as (_ & _ & Hn). apply NoDup_app in Hn as (_ & Hd & _).
  rewrite filter_none by (intros p Hp Hn; by apply Hn). rewrite filter_all; [done|]. intros p Hp Hp'. by apply (Hd p).
Qed.

Lemma sent_old now a new resets a' p c' :
  sent now a new resets a' -> p ∉ new -> heap a' !! p = Some c' ->
  exists c, heap a !! p = Some c /\ wire c' = wire c /\ acked c' = acked c /\ hdr c' = hdr c.
Proof.
  intros Hs Hp Hc. pose proof (kp_shape _ _ (st_kept _ _ _ _ _ Hs)) as Hsh. symmetry in Hsh. destruct (same_shape_lookup _ _ _ _ Hsh Hc) as (c & Hc0 & E).
  exists c. split; [done|]. symmetry in E. destruct (shape_wire _ _ E) as (Hw & Ha & Hh). split_and!; try done.
  apply same_wire; [done|]. pose proof (st_others _ _ _ _ _ Hs p Hp) as Hx. unfold sending in Hx. rewrite Hc, Hc0 in Hx. by injection Hx.
Qed.

Lemma logged_sent base log now k a new resets a' :
  flight k a -> logged base log a -> sent now a new resets a' -> logged base (log ++ entered a a') a'.
Proof.
  intros Hf [L1 L2 L3] Hs. rewrite (entered_sent _ _ _ _ _ _ Hf Hs). pose proof (st_inflight _ _ _ _ _ Hs) as Hl.
  constructor.
  - rewrite (st_next _ _ _ _ _ Hs), L1, length_app, length_map. go_lia.
  - intros i d Hi. apply lookup_app_Some in Hi as [Hi|[Hge Hi]]; [by apply L2|]. rewrite list_lookup_fmap in Hi.
    destruct (new !! (i - length log)%nat) as [p|] eqn:Ep; [|done]. injection Hi as <-. apply (st_tsn _ _ _ _ _ Hs), sending_tsn in Ep as (c & Hc & Ht).
    unfold wire_at. rewrite Hc. cbn. rewrite Ht, L1. go_lia.
  - intros j p c' Hj Hp Ha. rewrite Hl in Hj |- *. rewrite !length_app, length_map. apply lookup_app_Some in Hj as [Hj|[Hge Hj]].
    + assert (Hn : p ∉ new).
      { pose proof (sk_nodup _ (st_ok _ _ _ _ _ Hs)) as Hnd. rewrite Hl in Hnd. apply NoDup_app in Hnd as (_ & _ & Hnd). apply NoDup_app in Hnd as (_ & Hd & _).
        apply Hd. by eapply list_elem_of_lookup_2. }
      destruct (sent_old _ _ _ _ _ _ _ Hs Hn Hp) as (c & Hc & -> & Hac & _). rewrite Hac in Ha. destruct (L3 j p c Hj Hc Ha) as (i & Hlen & Hi).
      exists i. split; [lia|]. by apply lookup_app_l_Some.
    + exists (length log + (j - length (locs (inflightQueue a))))%nat. split; [lia|]. rewrite lookup_app_r by lia.
      rewrite list_lookup_fmap. replace (_ + _ - length log)%nat with (j - length (locs (inflightQueue a)))%nat by lia. rewrite Hj. cbn.
      unfold wire_at. by rewrite Hp.
Qed.

(** New chunks are queued. *)
Lemma logged_grow base log k a a' :
  flight k a -> logged base log a -> heap a ⊆ heap a' -> inflightQueue a' = inflightQueue a -> myNextTSN a' = myNextTSN a -> logged base log a'.
Proof.
  intros Hf [L1 L2 L3] Hh Hq Hn. constructor; [by rewrite Hn|done|]. rewrite Hq. intros j p c Hj Hp Ha.
  destruct (flight_live k a p Hf) as [c0 Hc]; [by eapply list_elem_of_lookup_2|]. pose proof (lookup_weaken _ _ _ _ Hc Hh) as Hc'. rewrite Hp in Hc'. injection Hc' as <-.
  by apply (L3 j p).
Qed.

(** ** The three kinds of steps *)

Inductive kind (a a' : assoc) : Prop :=
  | k_grow m u :
      heap a ⊆ heap a' -> (forall p, p ∈ m -> heap a !! p = None) -> NoDup m -> Forall (fun p => acked_at (heap a') p = false) m ->
      inflightQueue a' = inflightQueue a -> myNextTSN a' = myNextTSN a ->
      contents (pendingQueue a') ≡ₚ contents (pendingQueue a) ++ m -> whole (deref a') u m ->
      pendingQueue a' = fold_left (PendingSpec.push (deref a')) m (pendingQueue a) -> kind a a'
  | k_sent now new resets a1 :
      sent now a new resets a1 -> heap a' = heap a1 -> inflightQueue a' = inflightQueue a1 -> pendingQueue a' = pendingQueue a1 ->
      myNextTSN a' = myNextTSN a1 -> kind a a'
  | k_acks popped :
      intact (heap a) (heap a') -> (forall p, p ∉ locs (inflightQueue a) -> acked_at (heap a') p = acked_at (heap a) p) ->
      locs (inflightQueue a) = popped ++ locs (inflightQueue a') -> pendingQueue a' = pendingQueue a -> myNextTSN a' = myNextTSN a ->
      same_tags (heap a) (heap a') -> kind a a'.

Lemma kind_logged base log k a a' : flight k a -> logged base log a -> kind a a' -> logged base (log ++ entered a a') a'.
Proof.
  intros Hf Hl [m u Hh _ _ _ Hq Hn _ _ _|now new resets a1 Hs Hh Hq Hp Hn|popped Hi _ Hlo Hp Hn _].
  - rewrite (entered_none a a' []), app_nil_r by (by rewrite Hq). by eapply logged_grow.
  - pose proof (logged_sent _ _ _ _ _ _ _ _ Hf Hl Hs) as [L1 L2 L3]. assert (He : entered a a' = entered a a1) by (unfold entered; by rewrite Hh, Hq).
    rewrite He. constructor; [by rewrite Hn|done|by rewrite Hq, Hh].
  - rewrite (entered_none a a' popped), app_nil_r by done. by eapply logged_intact.
Qed.

Lemma kind_idle a a' : idle a a' -> kind a a'.
Proof.
  intros [A _ _ _]. apply (k_acks _ _ []); apply A.
Qed.

(** What is sent for the first time. *)
Lemma gather_sent fuel order now budget packets sis budget' k a a' :
  flight k a -> small a -> SenderSpec.order_ok order -> 2 * PendingSpec.size (pendingQueue a) < Z.of_nat fuel ->
  gatherOutboundData fuel order now budget a = Some ((packets, sis, budget'), a') ->
  exists resets a1, sent now a (concat packets) resets a1 /\ heap a' = heap a1 /\ inflightQueue a' = inflightQueue a1
    /\ pendingQueue a' = pendingQueue a1 /\ myNextTSN a' = myNextTSN a1.
Proof.
  intros Hf Hsm Ho Hfuel. unfold gatherOutboundData.
  destruct (popPending_spec fuel order now budget a (fl_send _ _ Hf) Hsm Ho Hfuel) as (chunks & resets & b & a1 & -> & Hs & _ & Hfit & _).
  cbn [mbind option_bind]. case_bool_decide as En.
  - intros [= <- <- <- <-]. subst chunks. by exists resets, a1.
  - destruct (sent_bundles _ _ _ _ _ (fl_send _ _ Hf) Hs Hfit) as (ps & E & Hc & _).
    change (bundleDataChunksIntoPackets (t3_start a1) chunks) with (bundleDataChunksIntoPackets a1 chunks). rewrite E. cbn [mbind option_bind].
    intros [= <- <- <- <-]. exists resets, a1. rewrite Hc. split; [done|]. pose proof (quiet_pto now (t3_start a1)) as [Q1 Q2 Q3 Q4 _ _ _]. done.
Qed.

Lemma write_contents (a : assoc) h u m a' :
  send_ok a -> fresh_message a h u m ->
  quiet (set_queues (inflightQueue a) (fold_left (PendingSpec.push (wire_at h)) m (pendingQueue a)) (set_heap h a)) a' ->
  contents (pendingQueue a') ≡ₚ contents (pendingQueue a) ++ m.
Proof.
  intros Ha [F1 F2 F3 F4 F5 F6 F7] [_ _ -> _ _ _ _]. cbn.
  pose proof (policy_ok_grow _ _ _ (sk_policy _ Ha) F1 (sk_live _ Ha)) as P'. destruct (fold_push (wire_at h) (pendingQueue a) m) as (E1 & _).
  destruct (policy_push_message (wire_at h) (policy (pendingQueue a)) u m P' F6 F7) as (_ & Hc & _). by rewrite <- E1, <- !contents_policy in Hc.
Qed.

Lemma write_kind (a : assoc) h u m a' :
  send_ok a -> fresh_message a h u m ->
  quiet (set_queues (inflightQueue a) (fold_left (PendingSpec.push (wire_at h)) m (pendingQueue a)) (set_heap h a)) a' -> kind a a'.
Proof.
  intros Ha Hm Hq. pose proof (write_contents a h u m a' Ha Hm Hq) as Hc. destruct Hm as [F1 F2 F3 F4 F5 F6 F7], Hq as [Q1 Q2 Q3 Q4 Q5 Q6 Q7]. cbn in *.
  apply (k_grow _ _ m u); unfold deref; rewrite ?Q1, ?Q2, ?Q4; done.
Qed.

Lemma write_quiet (a : assoc) h m a' :
  sendPayloadData (set_heap h a) [] m = Some (None, a') ->
  quiet (set_queues (inflightQueue a) (fold_left (PendingSpec.push (wire_at h)) m (pendingQueue a)) (set_heap h a)) a'.
Proof.
  unfold sendPayloadData. destruct (negb _); [done|]. cbn [awaitWritable].
  destruct (blockWrite _); [destruct (negb _); [|done]|]; simpl; intros E; injection E as <-; by constructor.
Qed.

Lemma sstep_kind order k a a' : SenderSpec.order_ok order -> flight k a -> sstep order a a' -> kind a a'.
Proof.
  intros Ho Hf Hst. pose proof (fl_send _ _ Hf) as Hok.
  destruct Hst as [a h u m a' Hm E|a p si a' Hp E Hfit|a fuel now b [[packets sis] b'] a' Hsm Hh Hfu E|a now cum rw gaps dups called a' H1 H2 H3 H4 E
    |a n t a' Ht E|a now a' E|a now hb a' E|a now b r a' E|a now b r a' E].
  - eapply write_kind; [done|exact Hm|by apply write_quiet].
  - unfold sendResetRequest in E. destruct (negb _); [done|]. injection E as <-. eapply write_kind; [done|exact (reset_message a p si Hp Hfit)|by constructor].
  - destruct (gather_sent fuel order now b packets sis b' k a a' Hf Hsm Ho Hfu E) as (resets & a1 & Hs & E1 & E2 & E3 & E4). by eapply k_sent.
  - destruct (handleSack_spec now cum rw gaps dups k a Hf H1 H2 H3 H4) as (r' & a1 & k' & E1 & _ & _ & _ & Hc). rewrite E1 in E. simplify_eq.
    destruct (Hc called eq_refl) as [->|K]; [eapply kind_idle, idle_refl; eassumption|]. destruct (kn_popped _ _ _ _ _ K) as (popped & Hl & _).
    apply (k_acks _ _ popped); [apply K..|done|apply K|apply K|apply K].
  - assert (Hq : quiet a (set_timing (rtoMgr a) t (srtt_ a) a)) by (by constructor).
    destruct (onT3Timeout_spec k _ (flight_quiet _ _ _ Hf Hq)) as (a1 & E1 & I1). rewrite E1 in E. simplify_eq.
    apply (k_acks _ _ []); apply (id_acks _ _ I1).
  - unfold onRackTimeoutLocked in E. destruct (_ =? 0); [simplify_eq; eapply kind_idle, idle_refl; eassumption|].
    destruct (rackMark_total k now a Hf) as (a1 & E1 & I1). rewrite E1 in E. simplify_eq. by apply kind_idle.
  - destruct (onPTOTimerLocked_spec k now a Hf) as (? & a1 & E1 & I1). rewrite E1 in E. simplify_eq. by apply kind_idle.
  - destruct (getDataPacketsToRetransmit_spec now b k a Hf) as (? & ? & a1 & E1 & [I1 _ _] & _). rewrite E1 in E. simplify_eq. by apply kind_idle.
  - destruct (gatherFast_spec now b k a Hf) as (? & ? & a1 & E1 & [I1 _ _] & _). rewrite E1 in E. simplify_eq. by apply kind_idle.
Qed.

(** ** From the application to the log *)

(** The chunk can be encoded, whatever its TSN will be. *)
Definition sendable (c : sendChunk) : Prop :=
  forall t, in_u 32 t -> chunk_ok (mkChunk (hdr c) (chunkPayloadData (as_sent (with_tsn t (wire c))))).

(** What a chunk says, its TSN aside. *)
Definition said (h : store) (p : loc) : payloadData := with_tsn 0 (wire_at h p).

(** The chunks that a step puts in the pending queue. *)
Definition queued (a a' : assoc) : list loc :=
  filter (fun p => p ∉ contents (pendingQueue a)) (contents (pendingQueue a')).

(** What was written is in the pending queue, has got a TSN, or was an empty
    chunk that asked for a reset. *)
Record outgoing (base : Z) (written log : list payloadData) (a : assoc) : Prop := {
  og_logged : logged base log a;
  og_unacked : Forall (fun p => acked_at (heap a) p = false) (contents (pendingQueue a));
  og_sendable : forall p c, p ∈ contents (pendingQueue a) ++ locs (inflightQueue a) -> heap a !! p = Some c -> acked c = false -> sendable c;
  og_written : exists gone, map (said (heap a)) (contents (pendingQueue a)) ++ map (with_tsn 0) log ++ gone ≡ₚ written
    /\ Forall (fun d => userData d = []) gone
}.

Lemma said_shape h h' p : same_shape h h' -> said h' p = said h p.
Proof.
  intros Hs. unfold said, wire_at. destruct (h !! p) as [c|] eqn:E.
  - destruct (same_shape_lookup _ _ _ _ Hs E) as (c' & -> & Hc). by apply shape_wire in Hc as [? _].
  - specialize (Hs p). rewrite E in Hs. by destruct (h' !! p).
Qed.

Lemma pending_live (a : assoc) p : send_ok a -> p ∈ contents (pendingQueue a) -> exists c, heap a !! p = Some c.
Proof. intros Ha Hp. pose proof (sk_live _ Ha) as Hl. rewrite Forall_forall in Hl. destruct (Hl p Hp) as (c & Hc & _). by exists c. Qed.

Lemma pending_not_flying (a : assoc) p : send_ok a -> p ∈ contents (pendingQueue a) -> p ∉ locs (inflightQueue a).
Proof. intros Ha Hp. pose proof (sk_nodup _ Ha) as Hn. apply NoDup_app in Hn as (_ & Hd & _). by apply Hd. Qed.

(** Writing. *)
Lemma outgoing_grow base written log k a a' m :
  flight k a -> send_ok a' -> outgoing base written log a -> heap a ⊆ heap a' -> (forall p, p ∈ m -> heap a !! p = None) ->
  Forall (fun p => acked_at (heap a') p = false) m -> inflightQueue a' = inflightQueue a -> myNextTSN a' = myNextTSN a ->
  contents (pendingQueue a') ≡ₚ contents (pendingQueue a) ++ m ->
  (forall p c, p ∈ queued a a' -> heap a' !! p = Some c -> sendable c) ->
  outgoing base (written ++ map (said (heap a')) (queued a a')) log a'.
Proof.
  intros Hf Hok' [L U D (gone & W & G)] Hh Hfr Hun Hq Hn Hc Hsend. pose proof (fl_send _ _ Hf) as Hok.
  assert (Hold : forall p c, p ∈ contents (pendingQueue a) ++ locs (inflightQueue a) -> heap a' !! p = Some c -> heap a !! p = Some c).
  { intros p c Hp Hc'. assert (Hl : exists c0, heap a !! p = Some c0) by (apply elem_of_app in Hp as [Hp|Hp]; [by apply pending_live|by eapply flight_live]).
    destruct Hl as [c0 H0']. pose proof (lookup_weaken _ _ _ _ H0' Hh) as E. congruence. }
  assert (Hqueued : queued a a' ≡ₚ m).
  { unfold queued. rewrite Hc, filter_app, filter_none by (intros p Hp Hn'; by apply Hn'). rewrite filter_all; [done|].
    intros p Hp Hp'. destruct (pending_live a p Hok Hp') as [c Hc']. by rewrite Hfr in Hc'. }
  constructor.
  - by eapply logged_grow.
  - rewrite Hc. apply Forall_app. split; [|done]. rewrite Forall_forall in *. intros p Hp. destruct (pending_live a p Hok Hp) as [c Hc'].
    specialize (U p Hp). unfold acked_at in *. by rewrite (lookup_weaken _ _ _ _ Hc' Hh), <- Hc'.
  - intros p c Hp Hc' Ha. destruct (decide (p ∈ queued a a')) as [Hin|Hout]; [by eapply Hsend|]. assert (Hp' : p ∈ contents (pendingQueue a) ++ locs (inflightQueue a)).
    { rewrite Hq in Hp. apply elem_of_app in Hp as [Hp|Hp]; apply elem_of_app; [|by right]. rewrite Hc in Hp. apply elem_of_app in Hp as [?|Hp]; [by left|].
      exfalso. apply Hout. by rewrite Hqueued. }
    eapply D; [done|by apply Hold|done].
  - exists gone. split; [|done]. rewrite Hqueued, Hc, map_app.
    assert (Hs : map (said (heap a')) (contents (pendingQueue a)) = map (said (heap a)) (contents (pendingQueue a))).
    { apply map_ext_in. intros p Hp%list_elem_of_In. destruct (pending_live a p Hok Hp) as [c Hc']. unfold said, wire_at. by rewrite (lookup_weaken _ _ _ _ Hc' Hh), Hc'. }
    rewrite Hs, <- W. rewrite <- !app_assoc. apply Permutation_app_head. rewrite (Permutation_app_comm (map (said (heap a')) m)), <- app_assoc. done.
Qed.

Lemma queued_none (a a' : assoc) : contents (pendingQueue a') ⊆ contents (pendingQueue a) -> queued a a' = [].
Proof. intros Hc. apply filter_none. intros p Hp Hn. apply Hn. by apply Hc. Qed.

(** Sending. *)
Lemma outgoing_sent base written log now k a new resets a' :
  flight k a -> outgoing base written log a -> sent now a new resets a' -> outgoing base written (log ++ entered a a') a'.
Proof.
  intros Hf [L U D (gone & W & G)] Hs. pose proof (fl_send _ _ Hf) as Hok. pose proof (kp_shape _ _ (st_kept _ _ _ _ _ Hs)) as Hsh.
  pose proof (st_pending _ _ _ _ _ Hs) as Hp. pose proof (st_inflight _ _ _ _ _ Hs) as Hl.
  assert (Hcs : forall p, p ∈ contents (pendingQueue a') ++ new -> p ∈ contents (pendingQueue a)) by (intros p Hin; rewrite Hp, !elem_of_app in *; tauto).
  assert (Hack : forall p, acked_at (heap a') p = acked_at (heap a) p).
  { intros p. unfold acked_at. destruct (heap a !! p) as [c|] eqn:E; [destruct (same_shape_lookup _ _ _ _ Hsh E) as (c' & -> & (_ & Ha & _)%shape_wire); done|].
    specialize (Hsh p). rewrite E in Hsh. by destruct (heap a' !! p). }
  constructor.
  - by eapply logged_sent.
  - rewrite Forall_forall in *. intros p Hin. rewrite Hack. apply U, Hcs, elem_of_app. by left.
  - intros p c' Hin Hc' Ha t Ht. symmetry in Hsh. destruct (same_shape_lookup _ _ _ _ Hsh Hc') as (c & Hc & E).
    destruct (shape_wire _ _ E) as (Hw & Hac & Hh). rewrite <- Hh. replace (with_tsn t (wire c')) with (with_tsn t (wire c)).
    2: { apply (f_equal (with_tsn t)) in Hw. exact Hw. }
    apply (D p c); [|done|by rewrite Hac|done]. apply elem_of_app. apply elem_of_app in Hin as [Hin|Hin]; [left; apply Hcs, elem_of_app; by left|].
    rewrite Hl in Hin. apply elem_of_app in Hin as [?|Hin]; [by right|]. left. apply Hcs, elem_of_app. by right.
  - exists (map (said (heap a)) resets ++ gone). rewrite (entered_sent _ _ _ _ _ _ Hf Hs). split.
    + rewrite <- W, Hp, !map_app. rewrite (map_ext (said (heap a')) (said (heap a))) by (intros p; by apply said_shape).
      rewrite map_map. change (map (fun x => with_tsn 0 (wire_at (heap a') x)) new) with (map (said (heap a')) new).
      rewrite (map_ext (said (heap a')) (said (heap a))) by (intros p; by apply said_shape). set (f := said (heap a)).
      apply shuffle.
    + apply Forall_app. split; [|done]. rewrite Forall_map. pose proof (st_resets _ _ _ _ _ Hs) as Hr. rewrite Forall_forall in *. intros p Hin.
      specialize (Hr p Hin). unfold len_at in Hr. unfold said, wire_at. cbn. destruct (heap a !! p) as [c|]; [|done]. cbn in *. unfold dataLen in Hr.
      destruct (userData (wire c)); [done|]. rewrite zlen_cons in Hr. pose proof (zlen_nonneg l). lia.
Qed.

(** Nothing a chunk that waits says is touched. *)
Lemma said_intact (a a' : assoc) p :
  send_ok a -> p ∈ contents (pendingQueue a) -> intact (heap a) (heap a') -> acked_at (heap a') p = false -> said (heap a') p = said (heap a) p.
Proof.
  intros Hok Hin Hi Hun. unfold said, wire_at. destruct (pending_live a p Hok Hin) as [c Hc]. destruct (Hi p c Hc) as (c' & Hc' & E).
  unfold acked_at in Hun. rewrite Hc' in Hun. cbn in Hun. destruct (E Hun) as (_ & _ & Hw). rewrite Hc, Hc'. cbn. by rewrite Hw.
Qed.

(** Acknowledgements and timers. *)
Lemma outgoing_acks base written log k a a' popped :
  flight k a -> outgoing base written log a -> intact (heap a) (heap a') ->
  (forall p, p ∉ locs (inflightQueue a) -> acked_at (heap a') p = acked_at (heap a) p) ->
  locs (inflightQueue a) = popped ++ locs (inflightQueue a') -> pendingQueue a' = pendingQueue a -> myNextTSN a' = myNextTSN a ->
  outgoing base written log a'.
Proof.
  intros Hf [L U D (gone & W & G)] Hi Hack Hl Hp Hn. pose proof (fl_send _ _ Hf) as Hok. rewrite Forall_forall in U.
  assert (Hun : forall p, p ∈ contents (pendingQueue a) -> acked_at (heap a') p = false) by (intros p Hin; rewrite Hack by (by apply pending_not_flying); by apply U).
  assert (Hkeep : forall p c', p ∈ contents (pendingQueue a) ++ locs (inflightQueue a) -> heap a' !! p = Some c' -> acked c' = false ->
    exists c, heap a !! p = Some c /\ acked c = false /\ hdr c' = hdr c /\ wire c' = wire c).
  { intros p c' Hin Hc' Ha. assert (Hlive : exists c, heap a !! p = Some c) by (apply elem_of_app in Hin as [Hin|Hin]; [by apply pending_live|by eapply flight_live]).
    destruct Hlive as [c Hc]. destruct (Hi p c Hc) as (c2 & Hc2 & E). rewrite Hc' in Hc2. injection Hc2 as <-. exists c. split; [done|by apply E]. }
  constructor.
  - by eapply logged_intact.
  - rewrite Hp. by apply Forall_forall.
  - intros p c' Hin Hc' Ha. rewrite Hp in Hin. assert (Hin' : p ∈ contents (pendingQueue a) ++ locs (inflightQueue a)) by (rewrite Hl; set_solver).
    destruct (Hkeep p c' Hin' Hc' Ha) as (c & Hc & Hac & Hh & Hw). intros t Ht. rewrite Hh, Hw. by apply (D p c).
  - exists gone. split; [|done]. rewrite Hp, <- W. apply Permutation_app_tail. erewrite map_ext_in; [reflexivity|].
    intros p Hin%list_elem_of_In. apply said_intact; [done|done|done|by apply Hun].
Qed.

Lemma outgoing_step order base written log k a a' :
  SenderSpec.order_ok order -> flight k a -> outgoing base written log a -> sstep order a a' ->
  (forall p c, p ∈ queued a a' -> heap a' !! p = Some c -> sendable c) ->
  outgoing base (written ++ map (said (heap a')) (queued a a')) (log ++ entered a a') a'.
Proof.
  intros Ho Hf Hog Hst Hsend. pose proof (sstep_ok order k a a' Ho Hf Hst) as [Hf' _].
  destruct (sstep_kind order k a a' Ho Hf Hst) as [m u Hh Hfr _ Hun Hq Hn Hc _ _|now new resets a1 Hs Hh Hq Hp Hn|popped Hi Ha Hl Hp Hn _].
  - rewrite (entered_none a a' []), app_nil_r by (by rewrite Hq). eapply outgoing_grow; try done. apply Hf'.
  - pose proof (outgoing_sent _ _ _ _ _ _ _ _ _ Hf Hog Hs) as [[L1 L2 L3] U D W].
    assert (He : entered a a' = entered a a1) by (unfold entered; by rewrite Hh, Hq). rewrite He, queued_none, app_nil_r.
    + constructor; rewrite ?Hh, ?Hq, ?Hp; try done. constructor; rewrite ?Hh, ?Hq, ?Hn; done.
    + rewrite Hp. intros p Hin. rewrite (st_pending _ _ _ _ _ Hs), !elem_of_app. tauto.
  - rewrite (entered_none a a' popped) by done. rewrite queued_none by (by rewrite Hp). cbn [map]. rewrite !app_nil_r. eapply (outgoing_acks base written log k a a' popped); eassumption.
Qed.

(** ** What goes out *)

(** The packets that a step puts on the wire, if any: new data, or one of the two
    retransmissions. *)
Definition emits (order : @PendingSpec.pendingQueue S -> list Z) (a a' : assoc) (packets : list (list loc)) : Prop :=
  packets = []
  \/ (exists fuel now b sis b', small a /\ 2 * PendingSpec.size (pendingQueue a) < Z.of_nat fuel
       /\ gatherOutboundData fuel order now b a = Some ((packets, sis, b'), a'))
  \/ (exists now b b', getDataPacketsToRetransmit now b a = Some ((packets, b'), a'))
  \/ (exists now b b', gatherOutboundFastRetransmissionPackets now b a = Some ((packets, b'), a')).

(** A chunk to send: not acknowledged, as in the log, fit to be encoded. *)
Definition outbound (log : list payloadData) (a : assoc) (p : loc) : Prop :=
  exists c, heap a !! p = Some c /\ wire c ∈ log /\ sendable c.

Lemma resents_outbound base written log k a new a' :
  flight k a -> outgoing base written log a -> resents a new a' -> Forall (fun p => acked_at (heap a) p = false) new -> Forall (outbound log a') new.
Proof.
  intros Hf [L U D W] [[A Hheld _ _] _ Hin] Hack. rewrite Forall_forall in *. intros p Hp. destruct (Hin p Hp) as [Hfl _].
  destruct (flight_live k a p Hf Hfl) as [c Hc]. destruct (ak_intact _ _ _ _ A p c Hc) as (c' & Hc' & E).
  assert (Ha' : acked c' = false).
  { pose proof (Hheld p) as Hx. pose proof (Hack p Hp) as Hy. unfold held, acked_at in *. rewrite Hc' in Hx. injection Hx as Hx _. cbn in Hx. by rewrite Hx. }
  destruct (E Ha') as (Ha & Hh & Hw). exists c'. split; [done|]. rewrite Hw. apply list_elem_of_lookup_1 in Hfl as [j Hj].
  destruct (lg_flight _ _ _ L j p c Hj Hc Ha) as (i & _ & Hlog). split; [by eapply list_elem_of_lookup_2|].
  intros t Ht. rewrite Hh, Hw. apply (D p c); [apply elem_of_app; right; by eapply list_elem_of_lookup_2|done..].
Qed.

Lemma flight_unmarked k a p : flight k a -> p ∈ locs (inflightQueue a) -> rtx_at (heap a) p = true -> acked_at (heap a) p = false.
Proof.
  intros Hf Hp Hr. pose proof (fl_drained _ _ Hf) as Hd. rewrite Forall_app in Hd. destruct Hd as [_ Hd]. rewrite Forall_forall in Hd.
  destruct (Hd p Hp) as (c & Hc & Hz). unfold rtx_at, acked_at in *. rewrite Hc in *. cbn in *. destruct (acked c); [|done]. destruct (Hz eq_refl). congruence.
Qed.

Lemma emits_outbound order base written log k a a' packets :
  SenderSpec.order_ok order -> flight k a -> outgoing base written log a -> sstep order a a' ->
  (forall p c, p ∈ queued a a' -> heap a' !! p = Some c -> sendable c) ->
  emits order a a' packets -> Forall (outbound (log ++ entered a a') a') (concat packets).
Proof.
  intros Ho Hf Hog Hst Hsend [->|[(fuel & now & b & sis & b' & Hsm & Hfu & E)|[(now & b & b' & E)|(now & b & b' & E)]]].
  - constructor.
  - pose proof (outgoing_step order base written log k a a' Ho Hf Hog Hst Hsend) as Hog'. pose proof (sstep_ok order k a a' Ho Hf Hst) as [Hf' _].
    destruct (gather_sent fuel order now b packets sis b' k a a' Hf Hsm Ho Hfu E) as (resets & a1 & Hs & Hh & Hq & Hp & _).
    assert (He : entered a a' = map (wire_at (heap a')) (concat packets)) by (unfold entered; rewrite Hh, Hq; by apply (entered_sent now k a _ resets a1)).
    apply Forall_forall. intros p Hin. assert (Hfl : p ∈ locs (inflightQueue a')) by (rewrite Hq, (st_inflight _ _ _ _ _ Hs); apply elem_of_app; by right).
    destruct (flight_live k a' p Hf' Hfl) as [c Hc]. exists c. split; [done|]. split.
    + apply elem_of_app. right. rewrite He. apply list_elem_of_fmap. exists p. split; [|done]. unfold wire_at. by rewrite Hc.
    + apply (og_sendable _ _ _ _ Hog' p c); [apply elem_of_app; by right|done|].
      assert (Hpa : p ∈ contents (pendingQueue a)) by (rewrite (st_pending _ _ _ _ _ Hs); apply elem_of_app; by left).
      pose proof (og_unacked _ _ _ _ Hog) as U. rewrite Forall_forall in U. specialize (U p Hpa). destruct (pending_live a p (fl_send _ _ Hf) Hpa) as [c0 Hc0].
      pose proof (kp_shape _ _ (st_kept _ _ _ _ _ Hs)) as Hsh. destruct (same_shape_lookup _ _ _ _ Hsh Hc0) as (c1 & Hc1 & (_ & Ha & _)%shape_wire).
      rewrite Hh, Hc1 in Hc. injection Hc as ->. unfold acked_at in U. rewrite Hc0 in U. cbn in U. congruence.
  - destruct (getDataPacketsToRetransmit_spec now b k a Hf) as (ps & b1 & a1 & E1 & R & _ & Hr & _). rewrite E1 in E. simplify_eq.
    rewrite (entered_none a a' []), app_nil_r by (apply (id_acks _ _ (rx_idle _ _ _ R))). eapply resents_outbound; [done..|].
    pose proof (rx_fits _ _ _ R) as Hfit. rewrite Forall_forall in *. intros p Hin. eapply flight_unmarked; [done|by apply Hfit|by apply Hr].
  - destruct (gatherFast_spec now b k a Hf) as (ps & b1 & a1 & E1 & R & _ & Hr). rewrite E1 in E. simplify_eq.
    rewrite (entered_none a a' []), app_nil_r by (apply (id_acks _ _ (rx_idle _ _ _ R))). by eapply resents_outbound.
Qed.

End Log.

(** ** On the wire *)

Lemma data_order cs : Forall (fun c => exists d, k_body c = chunkPayloadData d) cs -> RoundTrip.order_ok cs.
Proof.
  induction 1 as [|c cs [d Hd] Hcs IH]; [done|]. destruct cs; [done|]. split; [by rewrite Hd|exact IH].
Qed.

(** A chunk says what one of the log does. *)
Definition says (log : list payloadData) (c : chunk) : Prop := exists d, d ∈ log /\ k_body c = chunkPayloadData (as_sent d).

Lemma decoded_data log cs cs' :
  Forall (says log) cs -> map (fun c => erase (k_body c)) cs' = map (fun c => erase (k_body c)) cs -> Forall (says log) cs'.
Proof.
  intros H. revert cs'. induction H as [|c cs (d & Hin & Hd) _ IH]; intros [|c' cs'] E; try done. cbn in E. injection E as E1 E2.
  constructor; [|by apply IH]. rewrite Hd in E1. exists d. split; [done|]. by destruct (k_body c').
Qed.

(** A packet decodes to DATA chunks of the log. *)
Definition carries (recv : bool) (log : list payloadData) (raw : list Z) : Prop :=
  exists pkt, packet_unmarshal recv raw = Ok pkt /\ Forall (says log) (Packet.chunks pkt).

Lemma carries_grow recv log log' raw : carries recv log raw -> carries recv (log ++ log') raw.
Proof.
  intros (pkt & E & H). exists pkt. split; [done|]. eapply Forall_impl; [exact H|]. intros c (d & Hin & Hd). exists d. split; [|done].
  apply elem_of_app. by left.
Qed.

(** Only the bytes of the chunks matter. *)
Lemma marshal_chunks_same cs cs' : forall raw, Forall2 (fun c c' => chunk_filled c = chunk_filled c') cs cs' -> marshal_chunks raw cs = marshal_chunks raw cs'.
Proof.
  intros raw H. revert raw. induction H as [|c c' cs cs' Hc _ IH]; intros raw; [done|]. cbn [marshal_chunks]. unfold chunk_marshal. rewrite Hc.
  destruct (chunk_filled c'); cbn; [apply IH|done..].
Qed.

Section Wire.
Context {S : Type} `{SL : StreamSchedulerLaws S} {Q : Type} `{QL : QueueLaws loc Q}.

Abbreviation ep := (@endpoint S Q).

(** The header fields are within their types. *)
Definition addressed (e : ep) : Prop := in_u 16 (srcPort (hs e)) /\ in_u 16 (dstPort (hs e)) /\ in_u 32 (peerVerificationTag (hs e)).

(** The packet as the peer will see it. *)
Definition sentPacket (e : ep) (ps : list loc) : packet :=
  createPacket e (map (fun p => mkChunk (from_option hdr (mkChunkHeader 0 0 []) (heap (sender e) !! p)) (chunkPayloadData (as_sent (wire_at (heap (sender e)) p)))) ps).

Lemma sentPacket_chunks log (e : ep) ps :
  Forall (fun d => in_u 32 (tsn d)) log -> Forall (outbound log (sender e)) ps ->
  Forall chunk_ok (Packet.chunks (sentPacket e ps)) /\ Forall (says log) (Packet.chunks (sentPacket e ps))
  /\ Forall2 (fun c c' => chunk_filled c = chunk_filled c') (Packet.chunks (dataPacket e ps)) (Packet.chunks (sentPacket e ps)).
Proof.
  intros Ht Hp. unfold dataPacket, sentPacket, createPacket. cbn [Packet.chunks]. rewrite Forall_forall in Ht. rewrite !Forall_map.
  assert (Hall : Forall (fun p => exists c, heap (sender e) !! p = Some c /\ wire c ∈ log /\ chunk_ok (mkChunk (hdr c) (chunkPayloadData (as_sent (wire c))))) ps).
  { eapply Forall_impl; [exact Hp|]. intros p (c & Hc & Hin & Hs). exists c. split_and!; [done..|].
    pose proof (Hs (tsn (wire c)) (Ht _ Hin)) as Ho. by rewrite with_tsn_same in Ho. }
  split_and!.
  - eapply Forall_impl; [exact Hall|]. intros p (c & Hc & _ & Ho). unfold wire_at. cbn. by rewrite Hc.
  - eapply Forall_impl; [exact Hall|]. intros p (c & Hc & Hin & _). exists (wire c). split; [done|]. unfold wire_at. cbn. by rewrite Hc.
  - clear Hp. induction Hall as [|p ps (c & Hc & _ & [Ho _]) _ IH]; [constructor|]. cbn [map]. constructor; [|exact IH]. unfold wire_at. rewrite Hc. cbn in *.
    destruct Ho as (_ & _ & _ & Hi & _). unfold chunk_filled. cbn. f_equal. symmetry. by apply as_sent_marshal.
Qed.

(** The encoder cannot fail, and the peer reads what is in the log. *)
Lemma dataPacket_emitted log recv (e : ep) raws ps :
  addressed e -> (sendZeroChecksum (ext e) = true -> recv = false) -> Forall (fun d => in_u 32 (tsn d)) log -> Forall (outbound log (sender e)) ps ->
  exists raw, emit e raws (dataPacket e ps) = Some (true, raws ++ [raw]) /\ carries recv log raw.
Proof.
  intros (H1 & H2 & H3) Hz Ht Hp. destruct (sentPacket_chunks log e ps Ht Hp) as (Hok & Hd & Hsame).
  assert (Hdata : Forall (fun c => exists d, k_body c = chunkPayloadData d) (Packet.chunks (sentPacket e ps))).
  { eapply Forall_impl; [exact Hd|]. intros c (d & _ & ?). by exists (as_sent d). }
  unfold emit, marshalPacket. set (b := negb _ || _).
  destruct (packet_exchange (sentPacket e ps) b recv) as (raw & q & E & _ & Hu & (_ & _ & _ & Hs)).
  - split_and!; [done..|by apply data_order].
  - unfold b. destruct (sendZeroChecksum (ext e)) eqn:Ez; [|by left]. destruct (chunkMandatoryChecksum _); [by left|]. right. split; [by apply Hz|].
    intros c h Hc Hf. rewrite Forall_forall in Hdata. destruct (Hdata c) as [d Hb]; [by apply head_Some_elem_of|].
    unfold chunk_filled in Hf. rewrite Hb in Hf. injection Hf as <-. unfold chunkPayloadData_marshal. by destruct (Chunks.isIData _ _).
  - assert (E' : packet_marshal (dataPacket e ps) b = Ok raw) by (rewrite <- E; unfold packet_marshal; by rewrite (marshal_chunks_same _ _ _ Hsame)).
    rewrite E'. exists raw. split; [done|]. exists q. split; [done|]. by eapply decoded_data.
Qed.

Lemma emitAll_data log recv (e : ep) packets : forall acc,
  addressed e -> (sendZeroChecksum (ext e) = true -> recv = false) -> Forall (fun d => in_u 32 (tsn d)) log ->
  Forall (outbound log (sender e)) (concat packets) ->
  exists raws, emitAll e acc (map (dataPacket e) packets) = Some (acc ++ raws) /\ length raws = length packets /\ Forall (carries recv log) raws.
Proof.
  induction packets as [|ps packets IH]; intros acc Ha Hz Ht Hp.
  { exists []. by rewrite app_nil_r. }
  cbn [concat] in Hp. apply Forall_app in Hp as [Hp Hps]. cbn [map emitAll].
  destruct (dataPacket_emitted log recv e acc ps Ha Hz Ht Hp) as (raw & -> & Hr). cbn [mbind option_bind].
  destruct (IH (acc ++ [raw]) Ha Hz Ht Hps) as (raws & -> & Hl & Hrs). exists (raw :: raws). rewrite <- app_assoc. split; [done|]. split; [by cbn; rewrite Hl|by constructor].
Qed.

End Wire.

(** ** The sender, the network and the receiver *)

Section World.
Context {S : Type} `{SL : StreamSchedulerLaws S} {Q : Type} `{QL : QueueLaws loc Q}.

Abbreviation ep := (@endpoint S Q).

(** [w_written] is what was queued at the sender and [w_log] what got a TSN;
    [w_net] is every packet of DATA that was ever sent, so that any of them may
    arrive, in any order, any number of times or never. *)
Record world := mkWorld { w_ep : ep; w_written : list payloadData; w_log : list payloadData; w_net : list (list Z); w_hist : @history S Q }.

(** [base] is the TSN before the sender's first, [zero] whether the receiver
    accepts packets without a checksum. *)
Inductive wstep (order : @PendingSpec.pendingQueue S -> list Z) (base : Z) (zero : bool) : world -> world -> Prop :=
  | w_send e wr lg net h a' packets raws :
      sstep order (sender e) a' -> (forall p c, p ∈ queued (sender e) a' -> heap a' !! p = Some c -> sendable c) ->
      emits order (sender e) a' packets ->
      emitAll (on_sender (fun _ => a') e) [] (map (dataPacket (on_sender (fun _ => a') e)) packets) = Some raws ->
      wstep order base zero (mkWorld e wr lg net h)
        (mkWorld (on_sender (fun _ => a') e) (wr ++ map (said (heap a')) (queued (sender e) a')) (lg ++ entered (sender e) a') (net ++ raws) h)
  | w_receive e wr lg net b tk sk o raw pkt c r b' :
      raw ∈ net -> recvZeroChecksum (ext b) = zero -> packet_unmarshal (negb (recvZeroChecksum (ext b))) raw = Ok pkt -> c ∈ Packet.chunks pkt ->
      connected (getState b) = true -> calm (rxQueue (rx b)) -> reach base (peerLastTSN b) b -> handleChunk o pkt c b = Some (r, b') ->
      wstep order base zero (mkWorld e wr lg net (mkHist b tk sk)) (mkWorld e wr lg net (mkHist b' (tk ++ news c b) sk))
  (* what else happens at the sender leaves its queues alone *)
  | w_tx e wr lg net h e' :
      quiet (sender e) (sender e') -> addressed e' -> sendZeroChecksum (ext e') = sendZeroChecksum (ext e) ->
      wstep order base zero (mkWorld e wr lg net h) (mkWorld e' wr lg net h)
  (* and the receiver gets chunks of other kinds *)
  | w_rx e wr lg net h h' :
      rxstep base h h' -> h_taken h' = h_taken h -> wstep order base zero (mkWorld e wr lg net h) (mkWorld e wr lg net h').

Record transfer (base : Z) (zero : bool) (w : world) : Prop := {
  tf_flight : flight 0 (sender (w_ep w));
  tf_out : outgoing base (w_written w) (w_log w) (sender (w_ep w));
  tf_addressed : addressed (w_ep w);
  tf_zero : sendZeroChecksum (ext (w_ep w)) = true -> zero = true;
  tf_net : Forall (carries (negb zero) (w_log w)) (w_net w);
  tf_rx : rx_inv base (w_hist w);
  tf_taken : h_taken (w_hist w) ⊆ map as_sent (w_log w)
}.

Lemma log_range base log (a : @association S Q) : logged base log a -> Forall (fun d => in_u 32 (tsn d)) log.
Proof. intros L. apply Forall_forall. intros d [i Hi]%list_elem_of_lookup_1. rewrite (lg_tsn _ _ _ L i d Hi). apply u32_range. Qed.

(** Whatever the sender does next can be encoded, packet by packet. *)
Lemma transfer_emits order base zero w a' packets :
  SenderSpec.order_ok order -> transfer base zero w -> sstep order (sender (w_ep w)) a' ->
  (forall p c, p ∈ queued (sender (w_ep w)) a' -> heap a' !! p = Some c -> sendable c) -> emits order (sender (w_ep w)) a' packets ->
  let e' := on_sender (fun _ => a') (w_ep w) in
  exists raws, emitAll e' [] (map (dataPacket e') packets) = Some raws /\ length raws = length packets
    /\ Forall (carries (negb zero) (w_log w ++ entered (sender (w_ep w)) a')) raws.
Proof.
  intros Ho [Hf Hog Ha Hz _ _ _] Hst Hsend Hem e'. pose proof (outgoing_step order _ _ _ _ _ _ Ho Hf Hog Hst Hsend) as Hog'.
  apply (emitAll_data (w_log w ++ entered (sender (w_ep w)) a') (negb zero) e' packets []); [done| |by eapply log_range, Hog'|by eapply emits_outbound].
  cbn. intros Hs. by rewrite Hz.
Qed.

Lemma transfer_step order base zero w w' :
  SenderSpec.order_ok order -> in_u 32 base -> transfer base zero w -> wstep order base zero w w' -> transfer base zero w'.
Proof.
  intros Ho Hb Ht Hst. destruct Hst as [e wr lg net h a' packets raws Hs Hsend Hem E|e wr lg net b tk sk o raw pkt c r b' Hin Hze Hu Hc Hcon Hcalm Hre E
    |e wr lg net h e' Hq Ha Hz|e wr lg net h h' Hr Hk].
  - destruct (transfer_emits order base zero _ a' packets Ho Ht Hs Hsend Hem) as (raws' & E' & _ & Hraws). cbn in E', Hraws. rewrite E' in E. injection E as <-.
    destruct Ht as [Hf Hog Ha Hz Hn Hrx Htk]. cbn in *. constructor; cbn; try done.
    + by apply (sstep_ok order 0 (sender e) a').
    + by eapply outgoing_step.
    + apply Forall_app. split; [|done]. eapply Forall_impl; [exact Hn|]. intros raw. apply carries_grow.
    + intros d Hd. rewrite map_app. apply elem_of_app. left. by apply Htk.
  - destruct Ht as [Hf Hog Ha Hz Hn Hrx Htk]. cbn in *. rewrite Forall_forall in Hn. destruct (Hn raw Hin) as (pkt' & Hu' & Hcs).
    rewrite Hze, Hu' in Hu. injection Hu as ->. rewrite Forall_forall in Hcs. destruct (Hcs c Hc) as (d & Hlog & Hd).
    pose proof (log_range _ _ _ (og_logged _ _ _ _ Hog)) as Hrange. rewrite Forall_forall in Hrange.
    assert (Hf0 : forwards c b = None) by (unfold forwards; by rewrite Hd). constructor; cbn; try done; [by apply Forall_forall| |].
    + eapply (rxstep_inv base (mkHist b tk sk)); [done..|]. replace (mkHist b' (tk ++ news c b) sk) with (mkHist b' (tk ++ news c b) (sk ++ option_list (forwards c b))) by (rewrite Hf0; cbn; by rewrite app_nil_r).
      eapply rx_chunk; [done..| | |exact E]; [|by rewrite Hf0]. intros d' Hd'. rewrite Hd in Hd'. injection Hd' as <-. cbn. by apply Hrange.
    + intros d' [Hd'|Hd']%elem_of_app; [by apply Htk|]. unfold news in Hd'. rewrite Hd in Hd'. destruct (takes _ _ _); [|by apply elem_of_nil in Hd'].
      apply list_elem_of_singleton in Hd' as ->. apply list_elem_of_fmap. by exists d.
  - destruct Ht as [Hf Hog Ha' Hz' Hn Hrx Htk]. cbn in *. constructor; cbn; try done; [by eapply flight_quiet| |by rewrite Hz].
    pose proof (acks_quiet _ _ _ Hf Hq) as A. eapply (outgoing_acks _ _ _ 0 (sender e) (sender e') []); [done|done|apply A..].
  - destruct Ht as [Hf Hog Ha Hz Hn Hrx Htk]. cbn in *. constructor; cbn; try done; [by eapply rxstep_inv|by rewrite Hk].
Qed.

Lemma transfer_rtc order base zero w w' :
  SenderSpec.order_ok order -> in_u 32 base -> transfer base zero w -> rtc (wstep order base zero) w w' -> transfer base zero w'.
Proof. intros Ho Hb Ht Hr. revert Ht. induction Hr as [|x y z Hxy _ IH]; [done|]. intros Hx. by eapply IH, transfer_step. Qed.

(** What was acknowledged of the log is with its stream, unless it was given up. *)
Lemma log_taken base zero w d :
  in_u 32 base -> transfer base zero w -> Z.of_nat (length (w_log w)) < 2 ^ 32 -> d ∈ w_log w ->
  acknowledged_tsn base (rxQueue (rx (h_ep (w_hist w)))) (tsn d) <-> as_sent d ∈ h_taken (w_hist w) \/ skipped base (h_skips (w_hist w)) (tsn d).
Proof.
  intros Hb [Hf Hog Ha Hz Hn Hrx Htk] Hlen Hd. pose proof (og_logged _ _ _ _ Hog) as L. pose proof (log_range _ _ _ L) as Hr. rewrite Forall_forall in Hr.
  rewrite (ri_exact _ _ Hrx _ (Hr d Hd)). split; (intros [Ht|Ht]; [left|by right]); [|apply list_elem_of_fmap; by exists (as_sent d)].
  apply list_elem_of_fmap in Ht as (x & E & Hx). pose proof (Htk x Hx) as Hl. apply list_elem_of_fmap in Hl as (d' & -> & Hd').
  apply list_elem_of_lookup_1 in Hd' as [i Hi], Hd as [j Hj]. change (tsn (as_sent d')) with (tsn d') in E.
  rewrite (lg_tsn _ _ _ L i d' Hi), (lg_tsn _ _ _ L j d Hj) in E. apply lookup_lt_Some in Hi as Hi1, Hj as Hj1.
  assert (i = j) as -> by go_lia. congruence.
Qed.

(** Before the first message. *)
Lemma world_start base zero (e b : ep) :
  flight 0 (sender e) -> contents (pendingQueue (sender e)) = [] -> locs (inflightQueue (sender e)) = [] -> myNextTSN (sender e) = base +32 1 ->
  addressed e -> (sendZeroChecksum (ext e) = true -> zero = true) ->
  in_u 32 base -> recv_ok (rxQueue (rx b)) -> peerLastTSN b = base -> received (rxQueue (rx b)) = [] ->
  transfer base zero (mkWorld e [] [] [] (mkHist b [] [])).
Proof.
  intros Hf Hp Hi Hn Ha Hz Hb Hok Hcum Hrec. constructor; cbn; try done.
  - constructor; rewrite ?Hp, ?Hi; [constructor; [done| |]|constructor| |]; rewrite ?Hi.
    + intros i d. by rewrite lookup_nil.
    + intros j p c Hj. by rewrite lookup_nil in Hj.
    + by intros p c ?%elem_of_nil.
    + by exists [].
  - by apply rx_inv_start.
Qed.

End World.
