(* ===== verification/WriteSpec.v ===== *)
(** * From a stream to the association

    The fragments that a write of a stream makes are a message that the pending
    queue can take, and every one of them can be encoded. *)

From S2P Require Import Prelude.
From S2P Require Import Serial.
From S2P Require Import Float64.
From S2P Require Import Bytes.
From S2P Require Import Params.
From S2P Require Import Causes.
From S2P Require Import Chunks.
From S2P Require Import Packet.
From S2P Require Import RingQueue.
From S2P Require Import PayloadQueue.
From S2P Require Import RecvQueue.
From S2P Require Import WindowedMin.
From S2P Require Import PendingQueue.
From S2P Require Import PendingSpec.
From S2P Require Import Reassembly.
From S2P Require Import Stream.
From S2P Require Import Timers.
From S2P Require Import Sender.
From S2P Require Import Sack.
From S2P Require Import SenderSpec.
From S2P Require Import SackSpec.
From S2P Require Import SenderSteps.
From S2P Require Import RoundTrip.
From S2P Require Import Endpoint.
From S2P Require Import Receive.
From S2P Require Import Handshake.
From S2P Require Import Outbound.
From S2P Require Import Config.
From S2P Require Import ReceiveSpec.
From S2P Require Import AckSpec.
From S2P Require Import ReassemblySpec.
From S2P Require Import StreamSpec.
From S2P Require Import HandshakeSpec.
From S2P Require Import TransferSpec.

Local Open Scope Z_scope.
Local Open Scope go_scope.

(** The numbers of a fragment are within their types. *)
Record spec_ok (f : fragmentSpec) : Prop := {
  so_sid : in_u 16 (f_sid f);
  so_ppi : in_u 32 (f_ppi f);
  so_ssn : in_u 16 (f_seq f);
  so_mid : in_u 32 (f_mid f)
}.

(** The largest fragment: a chunk with its header is less than 2^16 bytes. *)
Definition largest : Z := 2 ^ 16 - 21.

Lemma data_flags_byte d : is_byte (data_flags d).
Proof. unfold data_flags. destruct (endingFragment d), (beginningFragment d), (unordered d), (immediateSack d); by split. Qed.

Lemma fragment_sendable f first last fsn data head :
  spec_ok f -> in_u 32 fsn -> bytes data -> zlen data <= largest -> sendable (fragment f first last fsn data head).
Proof.
  intros [H1 H2 H3 H4] Hf Hd Hl t Ht. unfold largest in Hl. destruct f as [sid u ppi sq mid idt]. cbn in *. split.
  - cbn. split_and!; try done. { unfold as_sent. cbn. destruct idt, first; done. }
    { unfold Chunks.isIData. cbn. by rewrite orb_false_r. }
    destruct idt; cbn; [|done]. split_and!; try done; by destruct first.
  - intros h Hh. injection Hh as <-. set (d := as_sent _).
    assert (Hz : chunkHeaderSize + zlen (ch_raw (chunkPayloadData_marshal (mkChunkHeader 0 0 []) d)) < 2 ^ 16).
    { unfold chunkPayloadData_marshal, chunkHeaderSize. destruct (Chunks.isIData _ _); cbn [ch_raw]; autorewrite with zlen; cbn; lia. }
    split; [done|]. apply header_bytes; unfold chunkPayloadData_marshal; destruct (Chunks.isIData _ _); cbn [ch_typ ch_flags ch_raw]; try (by split); try apply data_flags_byte;
      unfold d; cbn; repeat (apply Forall_app; split); auto with go; try done.
    + by apply put16_bytes.
    + destruct idt; by apply put32_bytes.
    + destruct first, idt; by apply put32_bytes.
    + destruct idt; [apply put16_bytes, u16_range|by apply put16_bytes].
    + destruct idt; [destruct first|]; by apply put32_bytes.
Qed.

Lemma pieces_bytes n l : (0 < n)%nat -> bytes l -> Forall bytes (pieces n l).
Proof.
  intros Hn Hl. rewrite <- (pieces_concat n l Hn) in Hl. by apply Forall_concat in Hl.
Qed.

(** The locations of a message of [n] fragments. *)
Definition block (fresh : loc) (n : nat) : list loc := map (nth_loc fresh) (seq 0 n).

Lemma block_lookup fresh n j p : block fresh n !! j = Some p <-> (j < n)%nat /\ p = nth_loc fresh j.
Proof.
  unfold block. change (map ?g ?l) with (g <$> l). rewrite list_lookup_fmap. destruct (seq 0 n !! j) as [i|] eqn:E.
  - apply lookup_seq in E as [-> Hj]. cbn. split; [intros [= <-]|intros [_ ->]]; done.
  - apply lookup_ge_None in E. rewrite length_seq in E. cbn. split; [done|lia].
Qed.

(** A list that starts with [true], and one that ends with it. *)
Lemma first_true n (g : nat -> bool) : (0 < n)%nat -> (forall j, g j = (j =? 0)%nat) -> map g (seq 0 n) = true :: replicate (pred n) false.
Proof.
  intros Hn Hg. destruct n as [|n]; [lia|]. cbn [seq map pred]. rewrite Hg. f_equal.
  assert (H : forall k i, map g (seq (Datatypes.S i) k) = replicate k false) by (induction k as [|k IH]; intros i; [done|]; cbn [seq map replicate]; by rewrite Hg, IH).
  apply H.
Qed.

Lemma last_true n (g : nat -> bool) : (0 < n)%nat -> (forall j, g j = bool_decide (Datatypes.S j = n)) -> map g (seq 0 n) = replicate (pred n) false ++ [true].
Proof.
  intros Hn Hg. destruct n as [|n]; [lia|]. rewrite seq_S, map_app. cbn [pred map]. rewrite Hg, bool_decide_eq_true_2 by done. f_equal.
  assert (H : forall i k, (i + k <= n)%nat -> map g (seq i k) = replicate k false).
  { intros i k. revert i. induction k as [|k IH]; intros i Hk; [done|]. cbn. rewrite Hg, bool_decide_eq_false_2 by lia. by rewrite IH by lia. }
  by apply H.
Qed.

(** Locations from the next free one on stay free. *)
Lemma fragmentLoop_free fuel : forall mps f rest off fsn head st fresh ps st' fresh',
  fragmentLoop fuel mps f rest off fsn head st fresh = Some (ps, st', fresh') -> (forall p, (fresh <= p)%positive -> st !! p = None) ->
  forall p, (fresh' <= p)%positive -> st' !! p = None.
Proof.
  induction fuel as [|fuel IH]; intros mps f rest off fsn head st fresh ps st' fresh' E Hf; cbn [fragmentLoop] in E; (destruct (_ =? 0); [by simplify_eq|]); [done|].
  match type of E with context [fragmentLoop fuel ?m ?f0 ?r ?o ?n ?h ?s ?fr] => destruct (fragmentLoop fuel m f0 r o n h s fr) as [[[ps1 st1] fr1]|] eqn:E1; [|done] end.
  cbn in E. simplify_eq. eapply IH; [exact E1|]. intros p Hp. rewrite lookup_insert_ne by lia. apply Hf. lia.
Qed.

Section Write.
Context {S : Type} `{SL : StreamSchedulerLaws S} {Q : Type} `{QL : QueueLaws loc Q}.

Implicit Types a : @association S Q.

(** The cut message goes into the pending queue, from the first free location on. *)
Lemma packetize_message a fuel mps il s raw ppi fresh :
  0 < mps <= largest -> raw <> [] -> bytes raw -> zlen raw < 2 ^ 32 -> (length raw <= fuel)%nat -> spec_ok (spec_of il s ppi) ->
  (forall p, (fresh <= p)%positive -> heap a !! p = None) ->
  exists ps st', packetize fuel mps il s raw ppi (heap a) fresh = Some (ps, f_unordered (spec_of il s ppi), st', nth_loc fresh (length ps), counted il s raw ppi)
    /\ ps = block fresh (length (pieces (Z.to_nat mps) raw))
    /\ (fits_all (wire_at st') (policy (pendingQueue a)) ps -> fresh_message a st' (f_unordered (spec_of il s ppi)) ps)
    /\ (forall p c, p ∈ ps -> st' !! p = Some c -> sendable c)
    /\ (forall p, (nth_loc fresh (length ps) <= p)%positive -> st' !! p = None).
Proof.
  intros Hm Hne Hb Hz Hf Hs Hfree. assert (Hn : (0 < Z.to_nat mps)%nat) by lia.
  destruct (packetize_spec fuel mps il s raw ppi (heap a) fresh) as (st' & E & Hold & Hnew); [lia|done..|].
  set (ds := pieces (Z.to_nat mps) raw) in *. set (f := spec_of il s ppi) in *. set (n := length ds) in *.
  assert (Hpos : (0 < n)%nat) by (unfold n; destruct ds eqn:Ed; [by apply pieces_nil in Ed|cbn; lia]).
  assert (Hat : forall j, (j < n)%nat -> exists d, ds !! j = Some d /\ st' !! nth_loc fresh j = Some (piece_of f 0 0 None fresh n j d)).
  { intros j Hj. destruct (lookup_lt_is_Some_2 ds j Hj) as [d Hd]. exists d. split; [done|by apply Hnew]. }
  assert (Hlen : length (block fresh n) = n) by (unfold block; by rewrite length_map, length_seq).
  exists (block fresh n), st'. rewrite Hlen. split; [exact E|]. split; [done|].
  assert (Hin : forall p, p ∈ block fresh n -> exists j d, (j < n)%nat /\ p = nth_loc fresh j /\ ds !! j = Some d /\ st' !! p = Some (piece_of f 0 0 None fresh n j d)).
  { intros p [j [Hj ->]%block_lookup]%list_elem_of_lookup_1. destruct (Hat j Hj) as (d & Hd & Hst). by exists j, d. }
  split_and!.
  - intros Hfit. constructor; [| | | | | |exact Hfit].
    + apply map_subseteq_spec. intros p c Hp. rewrite Hold; [done|]. destruct (decide (fresh <= p)%positive); [by rewrite Hfree in Hp|lia].
    + intros p (j & d & _ & -> & _)%Hin. apply Hfree. rewrite Pos2Nat.inj_le, nth_loc_nat. lia.
    + by apply nth_loc_NoDup, NoDup_seq.
    + apply Forall_forall. intros p (j & d & _ & Hp & _ & Hst)%Hin. eexists. split; [exact Hst|]. unfold message_of, piece_of, fragment. cbn [head_].
      destruct j; cbn; [by eexists|]. destruct (Hat 0%nat Hpos) as (d0 & _ & H0'). by eexists.
    + apply Forall_forall. intros p (j & d & _ & _ & _ & Hst)%Hin. unfold acked_at. by rewrite Hst.
    + assert (Hw : forall {A} (g : payloadData -> A) (k : nat -> A), (forall j d, g (wire (piece_of f 0 0 None fresh n j d)) = k j) ->
        map (fun p => g (wire_at st' p)) (block fresh n) = map k (seq 0 n)).
      { intros A g k Hg. unfold block. rewrite map_map. apply map_ext_in. intros j Hj%in_seq. destruct (Hat j) as (d & _ & Hst); [lia|]. unfold wire_at. rewrite Hst. apply Hg. }
      constructor.
      * rewrite (Hw _ beginningFragment (fun j => (j =? 0)%nat)), Hlen by done. by apply first_true.
      * rewrite (Hw _ endingFragment (fun j => bool_decide (Datatypes.S j = n))), Hlen by done. by apply last_true.
      * apply Forall_forall. intros p (j & d & _ & _ & _ & Hst)%Hin. unfold wire_at. by rewrite Hst.
  - intros p c (j & d & Hj & _ & Hd & Hst)%Hin Hc. rewrite Hst in Hc. injection Hc as <-. apply list_elem_of_lookup_2 in Hd.
    pose proof (pieces_size (Z.to_nat mps) raw Hn) as Hps. pose proof (pieces_bytes (Z.to_nat mps) raw Hn Hb) as Hpb. rewrite Forall_forall in Hps, Hpb.
    apply fragment_sendable; [done|apply u32_range|by apply Hpb|]. destruct (Hps d Hd) as [_ Hle]. unfold zlen. lia.
  - unfold packetize in E. destruct (fragmentLoop _ _ _ _ _ _ _ _ _) as [[[ps1 st1] fr1]|] eqn:E1; [|done]. cbn in E. simplify_eq. by eapply fragmentLoop_free.
Qed.

End Write.

(** The empty chunk that asks for a reset. *)
Lemma reset_sendable si : in_u 16 si -> sendable (reset_chunk si).
Proof. intros Hs. apply (fragment_sendable (mkSpec si false 0 0 0 false) true true 0 [] None); [by constructor|done|constructor|done]. Qed.
