(* ===== verification/DeliverySpec.v ===== *)
(** * Data from one association to the other

    Two associations that have shaken hands, from the application that writes at
    one end to the streams at the other. *)

From S2P Require Import Prelude.
From S2P Require Import Serial.
From S2P Require Import Float64.
From S2P Require Import Bytes.
From S2P Require Import Params.
From S2P Require Import Causes.
From S2P Require Import Chunks.
From S2P Require Import Packet.
From S2P Require Import RingQueue.
From S2P Require Import PayloadQueue.
From S2P Require Import RecvQueue.
From S2P Require Import WindowedMin.
From S2P Require Import PendingQueue.
From S2P Require Import PendingSpec.
From S2P Require Import Reassembly.
From S2P Require Import Stream.
From S2P Require Import Timers.
From S2P Require Import Sender.
From S2P Require Import Sack.
From S2P Require Import ReassemblySpec.
From S2P Require Import StreamSpec.
From S2P Require Import SenderSpec.
From S2P Require Import SackSpec.
From S2P Require Import SenderSteps.
From S2P Require Import RoundTrip.
From S2P Require Import Endpoint.
From S2P Require Import Receive.
From S2P Require Import Handshake.
From S2P Require Import Outbound.
From S2P Require Import Config.
From S2P Require Import ReceiveSpec.
From S2P Require Import AckSpec.
From S2P Require Import HandshakeSpec.
From S2P Require Import ReadySpec.
From S2P Require Import TransferSpec.
From S2P Require Import WriteSpec.

Local Open Scope Z_scope.
Local Open Scope go_scope.

Section Delivery.
Context {S : Type} `{SL : StreamSchedulerLaws S} `{SF : SchedulerFactory S} {Q : Type} `{QL : QueueLaws loc Q}.

(** Nothing is written, sent or received yet. *)
Definition connected_world (n : @network S Q) : world := mkWorld (nA n) [] [] [] (mkHist (nB n) [] []).

Lemma connected_transfer a b (n : @network S Q) :
  party_ok a -> party_ok b -> rtc nstep (connecting a b) n -> getState (nA n) = established ->
  in_u 32 (peerLastTSN (nB n)) /\ transfer (peerLastTSN (nB n)) (recvZeroChecksum (ext (nB n))) (connected_world n).
Proof.
  intros Ha Hb Hr Hs. assert (Hpa : profile_ok (party_profile a)) by (by apply profile_of_ok; apply Ha). assert (Hpb : profile_ok (party_profile b)) by (by apply profile_of_ok; apply Hb).
  destruct (shaking_rtc _ _ _ _ Hpa Hpb (connecting_shaking a b Ha Hb) Hr) as [HA HB].
  destruct (half_established _ _ _ _ _ _ HA HB Hs) as (_ & _ & [_ MA] & [_ MB]).
  pose proof (hf_base _ _ _ _ _ HA) as BA. pose proof (hf_base _ _ _ _ _ HB) as BB. destruct (base_ready _ _ BA Hpa) as [Hf _ _ [Hp Hi]].
  pose proof (ag_tsn _ _ MB) as Ht. pose proof (po_tsn _ Hpa) as Hu. pose proof (b_tsn _ _ BA) as Hn.
  assert (Hbase : in_u 32 (peerLastTSN (nB n))) by (rewrite Ht; apply u32_range). split; [done|].
  apply world_start; try done.
  - rewrite Ht, Hn. go_lia.
  - apply (b_wire _ _ BA).
  - by rewrite (ag_checksum _ _ MA).
  - apply (b_queue _ _ BB).
  - apply MB.
Qed.

End Delivery.


Module CrossExample.
Import ShakeExample ReadyExample.

Abbreviation net_ := (@network Builtin.scheduler (RingQueue.queue loc)).

Abbreviation world_ := (@world Builtin.scheduler (RingQueue.queue loc)).

(** A script for the two ends: write the queued packets, or hear the [i]-th. *)
Inductive move := SpeakA | SpeakB | HearA (i : nat) | HearB (i : nat).

Definition play1 (m : move) (n : net_) : option net_ :=
  match m with
  | SpeakA => '(raws, a) ← gatherControl (nA n); Some (mkNet a (nB n) (toA n) (toB n ++ raws))
  | SpeakB => '(raws, b) ← gatherControl (nB n); Some (mkNet (nA n) b (toA n ++ raws) (toB n))
  | HearA i => raw ← toA n !! i; '(_, a) ← handleInbound some_oracle raw (nA n); Some (mkNet a (nB n) (toA n) (toB n ++ []))
  | HearB i => raw ← toB n !! i; '(_, b) ← handleInbound some_oracle raw (nB n); Some (mkNet (nA n) b (toA n ++ []) (toB n))
  end.

Fixpoint play (ms : list move) (n : net_) : option net_ :=
  match ms with [] => Some n | m :: ms' => n ← play1 m n; play ms' n end.

Lemma play1_step m n n' : play1 m n = Some n' -> nstep n n'.
Proof.
  destruct n as [a b ia ib], m as [| |i|i]; cbn [play1 nA nB toA toB].
  - destruct (gatherControl a) as [[raws a']|] eqn:E; [|done]. intros [= <-]. by apply n_a, act_write.
  - destruct (gatherControl b) as [[raws b']|] eqn:E; [|done]. intros [= <-]. by apply n_b, act_write.
  - destruct (ia !! i) as [raw|] eqn:Ei; [|done]. cbn [mbind option_bind]. destruct (handleInbound _ _ _) as [[r a']|] eqn:E; [|done]. intros [= <-].
    apply n_a. eapply act_receive; [apply some_oracle_ok|by eapply list_elem_of_lookup_2|exact E].
  - destruct (ib !! i) as [raw|] eqn:Ei; [|done]. cbn [mbind option_bind]. destruct (handleInbound _ _ _) as [[r b']|] eqn:E; [|done]. intros [= <-].
    apply n_b. eapply act_receive; [apply some_oracle_ok|by eapply list_elem_of_lookup_2|exact E].
Qed.

Lemma play_steps ms : forall n n', play ms n = Some n' -> rtc nstep n n'.
Proof.
  induction ms as [|m ms IH]; intros n n'; [intros [= <-]; done|]. cbn [play]. destruct (play1 m n) as [n1|] eqn:E; [|done].
  intros E'. eapply rtc_l; [by eapply play1_step|by apply IH].
Qed.

(** INIT, INIT ACK, COOKIE ECHO, COOKIE ACK. *)
Definition script : list move := [SpeakA; HearB 0; SpeakB; HearA 1; SpeakA; HearB 1; SpeakB; HearA 2].

Definition up_ : net_ := from_option id start_ (play script start_).

Lemma up_steps : rtc nstep start_ up_.
Proof. apply (play_steps script). unfold up_. destruct (play script start_) eqn:E; [done|]. vm_compute in E. discriminate. Qed.

Lemma up_established : getState (nA up_) = established.
Proof. vm_compute. reflexivity. Qed.

(** A message of three bytes, cut in two. *)
Abbreviation e0 := (nA up_).

Definition cut_ := packetize 3 2 false (newStream 3) [1; 2; 3] 51 (heap (sender e0)) 1.

Definition heap1 : store := match cut_ with Some (_, _, st, _, _) => st | None => ∅ end.

Definition a1 := from_option snd (sender e0) (sendPayloadData (set_heap heap1 (sender e0)) [] [1; 2]%positive).

Lemma spec_fine : spec_ok (spec_of false (newStream 3) 51).
Proof. by constructor. Qed.

Lemma heap_empty : heap (sender e0) = ∅.
Proof. vm_compute. reflexivity. Qed.

Lemma a1_step : sstep visit (sender e0) a1 /\ (forall p c, p ∈ queued (sender e0) a1 -> heap a1 !! p = Some c -> sendable c).
Proof.
  destruct (packetize_message (sender e0) 3 2 false (newStream 3) [1; 2; 3] 51 1) as (ps & st & E & Eps & Hm & Hs & _).
  { split; [reflexivity|discriminate]. } { discriminate. } { apply byte_list. reflexivity. } { reflexivity. } { apply le_n. } { exact spec_fine. } { intros p _. rewrite heap_empty. reflexivity. }
  change (block 1 _) with [1; 2]%positive in Eps. subst ps.
  assert (Est : heap1 = st) by (unfold heap1, cut_; rewrite E; done). subst st.
  assert (Ea : heap a1 = heap1 /\ queued (sender e0) a1 = [1; 2]%positive) by (split; vm_compute; reflexivity). destruct Ea as [Ea Eq].
  split; [|rewrite Ea, Eq; exact Hs].
  eapply (s_write _ _ heap1 false [1; 2]%positive); [apply Hm|].
  - assert (Ep : exists m, policy (pendingQueue (sender e0)) = MessagePolicy m) by (vm_compute; by eexists). destruct Ep as [m ->]. split; [exact I|]. split; [exact I|exact I].
  - assert (Ok : match sendPayloadData (set_heap heap1 (sender e0)) [] [1; 2]%positive with Some (None, _) => True | _ => False end) by (vm_compute; exact I).
    unfold a1. destruct (sendPayloadData _ _ _) as [[[x|] a']|]; [destruct Ok|reflexivity|destruct Ok].
Qed.

(** Both fragments are sent, in one packet. *)
Definition sent_ := gatherOutboundData 9 visit 0 (0, false) a1.

Definition a2 := from_option snd a1 sent_.

Definition packets_ : list (list loc) := match sent_ with Some ((ps, _, _), _) => ps | None => [] end.

Abbreviation e2 := (on_sender (fun _ => a2) (on_sender (fun _ => a1) (nA up_))).

Definition raws_ : list (list Z) := default [] (emitAll e2 [] (map (dataPacket e2) packets_)).

Abbreviation e1 := (on_sender (fun _ => a1) e0).

(** The messages written, the log, and the packets on the network. *)
Definition wr1 := [] ++ map (said (heap a1)) (queued (sender e0) a1).

Definition wr2 := wr1 ++ map (said (heap a2)) (queued (sender e1) a2).

Definition lg1 := [] ++ entered (sender e0) a1.

Definition lg2 := lg1 ++ entered (sender e1) a2.

Abbreviation b0 := (mkHist (nB up_) [] []).

Definition w1 : world_ := mkWorld e1 wr1 lg1 ([] ++ []) b0.

Definition w2 : world_ := mkWorld e2 wr2 lg2 (([] ++ []) ++ raws_) b0.

Abbreviation step_ := (wstep visit (peerLastTSN (nB up_)) (recvZeroChecksum (ext (nB up_)))).

Lemma w1_step : step_ (connected_world up_) w1.
Proof.
  destruct a1_step as [Hs Hq]. unfold connected_world, w1, wr1, lg1. apply w_send with (packets := []); [exact Hs|exact Hq|by left|reflexivity].
Qed.

Lemma a2_sent : exists sis b, sent_ = Some ((packets_, sis, b), a2) /\ emitAll e2 [] (map (dataPacket e2) packets_) = Some raws_.
Proof.
  assert (Ok : is_Some sent_) by (vm_compute; eexists; reflexivity). assert (Ok' : is_Some (emitAll e2 [] (map (dataPacket e2) packets_))) by (vm_compute; eexists; reflexivity).
  destruct Ok' as [raws E']. unfold raws_. rewrite E'. unfold packets_, a2. destruct Ok as [[[[ps sis] b] a'] E]. rewrite E. exists sis, b. split; reflexivity.
Qed.

Lemma a1_small : small a1 /\ half_space a1 /\ 2 * PendingSpec.size (pendingQueue a1) < Z.of_nat 9.
Proof.
  split; [constructor|split; vm_compute; (discriminate || reflexivity)].
  - vm_compute. split; [discriminate|reflexivity].
  - vm_compute. split; [discriminate|reflexivity].
  - vm_compute. reflexivity.
  - assert (E : contents (pendingQueue a1) = [1; 2]%positive) by (vm_compute; reflexivity). rewrite E. repeat constructor; vm_compute; reflexivity.
  - vm_compute. split; [discriminate|reflexivity].
Qed.

Lemma w2_step : step_ w1 w2.
Proof.
  destruct a2_sent as (sis & b & E & Er). unfold sent_ in E. destruct a1_small as (Hsm & Hh & Hf).
  unfold w1, w2, wr2, lg2. apply w_send with (packets := packets_); [| | |exact Er].
  all: change (sender (on_sender (fun _ => a1) e0)) with a1.
  - eapply s_send; [exact Hsm|exact Hh|exact Hf|exact E].
  - assert (Eq : queued a1 a2 = []) by (vm_compute; reflexivity). rewrite Eq. intros p c Hp. destruct (not_elem_of_nil p Hp).
  - right. left. exists 9%nat, 0, (0, false), sis, b. split; [exact Hsm|]. split; [exact Hf|exact E].
Qed.

(** The second fragment is handled first. *)
Definition raw_ : list Z := default [] (raws_ !! 0%nat).

Definition pkt_ : packet := match packet_unmarshal (negb (recvZeroChecksum (ext (nB up_)))) raw_ with Ok p => p | _ => mkPacket 0 0 0 [] end.

Definition chunk_ : chunk := default (new_chunk chunkCookieAck) (Packet.chunks pkt_ !! 1%nat).

Definition w3 : world_ :=
  mkWorld e2 wr2 lg2 (([] ++ []) ++ raws_)
    (mkHist (from_option snd (nB up_) (handleChunk some_oracle pkt_ chunk_ (nB up_))) ([] ++ news chunk_ (nB up_)) []).

Lemma w3_step : step_ w2 w3.
Proof.
  assert (Ok : is_Some (handleChunk some_oracle pkt_ chunk_ (nB up_))) by (vm_compute; eexists; reflexivity). destruct Ok as [[r b'] E].
  unfold w2, w3. rewrite E. cbn [from_option snd]. apply w_receive with (o := some_oracle) (raw := raw_) (pkt := pkt_) (r := r); [..|exact E].
  - assert (En : ([] ++ []) ++ raws_ = [raw_]) by (vm_compute; reflexivity). rewrite En. left.
  - reflexivity.
  - vm_compute. reflexivity.
  - apply (list_elem_of_lookup_2 _ 1%nat). vm_compute. reflexivity.
  - vm_compute. reflexivity.
  - left. vm_compute. reflexivity.
  - vm_compute. reflexivity.
Qed.


End CrossExample.
