(* ===== verification/ThreadSpec.v ===== *)
(** * Whole messages in the log

    Without interleaving the fragments of a message get consecutive TSNs.  The
    book keeps the messages that were queued, the chunks that got a TSN, in that
    order, those that only asked for a reset, and what each chunk said. *)

From S2P Require Import Prelude.
From S2P Require Import Serial.
From S2P Require Import Float64.
From S2P Require Import Bytes.
From S2P Require Import Params.
From S2P Require Import Causes.
From S2P Require Import Chunks.
From S2P Require Import Packet.
From S2P Require Import RingQueue.
From S2P Require Import PayloadQueue.
From S2P Require Import RecvQueue.
From S2P Require Import WindowedMin.
From S2P Require Import PendingQueue.
From S2P Require Import PendingSpec.
From S2P Require Import Reassembly.
From S2P Require Import Stream.
From S2P Require Import Timers.
From S2P Require Import Sender.
From S2P Require Import Sack.
From S2P Require Import SenderSpec.
From S2P Require Import SackSpec.
From S2P Require Import SenderSteps.
From S2P Require Import RoundTrip.
From S2P Require Import Endpoint.
From S2P Require Import Receive.
From S2P Require Import Handshake.
From S2P Require Import Outbound.
From S2P Require Import Config.
From S2P Require Import ReceiveSpec.
From S2P Require Import AckSpec.
From S2P Require Import TransferSpec.

Local Open Scope Z_scope.
Local Open Scope go_scope.

(** ** Lists *)

Lemma merge_elem l r o p : merge l r o -> p ∈ o <-> p ∈ l \/ p ∈ r.
Proof. induction 1 as [|x l r o _ IH|x l r o _ IH]; rewrite ?elem_of_nil, ?elem_of_cons, ?IH; tauto. Qed.

Lemma merge_perm l r o : merge l r o -> o ≡ₚ l ++ r.
Proof. induction 1 as [|x l r o _ IH|x l r o _ IH]; cbn; [done|by rewrite IH|by rewrite IH, Permutation_middle]. Qed.

Lemma merge_split l r x y : merge l r (x ++ y) -> exists l1 l2 r1 r2, l = l1 ++ l2 /\ r = r1 ++ r2 /\ merge l1 r1 x /\ merge l2 r2 y.
Proof.
  revert l r. induction x as [|p x IH]; intros l r H.
  { exists [], l, [], r. split_and!; [done..|constructor|done]. }
  cbn in H. inversion H as [|? l' r' o' H'|? l' r' o' H']; subst; destruct (IH _ _ H') as (l1 & l2 & r1 & r2 & -> & -> & H1 & H2).
  - exists (p :: l1), l2, r1, r2. split_and!; [done..|by constructor|done].
  - exists l1, l2, (p :: r1), r2. split_and!; [done..|by constructor|done].
Qed.

Lemma merge_all l r x : merge l r x -> (forall p, p ∈ x -> p ∉ r) -> l = x.
Proof.
  intros H Hx. assert (r = []) as ->.
  { destruct r as [|p r]; [done|]. exfalso. apply (Hx p); [apply (merge_elem _ _ _ _ H); right; left|left]. }
  clear Hx. remember [] as r eqn:E. induction H as [|p l r o _ IH|]; [done|by rewrite IH|done].
Qed.

(** A block of the whole that has nothing of the second list is a block of the
    first. *)
Lemma merge_block l r x m y : merge l r (x ++ m ++ y) -> (forall p, p ∈ m -> p ∉ r) -> exists l1 l2, l = l1 ++ m ++ l2.
Proof.
  intros (l1 & l2 & r1 & r2 & -> & -> & _ & H2)%merge_split Hm. apply merge_split in H2 as (l3 & l4 & r3 & r4 & -> & -> & H3 & _).
  exists l1, l4. f_equal. f_equal. apply (merge_all _ r3); [done|]. intros p Hp Hr. apply (Hm p Hp). rewrite !elem_of_app. tauto.
Qed.

Lemma concat_perm {A} (l l' : list (list A)) : l ≡ₚ l' -> concat l ≡ₚ concat l'.
Proof. induction 1 as [|x l l' _ IH|x y l|l l' l'' _ IH1 _ IH2]; cbn; [done|by rewrite IH|by rewrite Permutation_app_swap_app|by etrans]. Qed.

Lemma elem_concat {A} (l : list (list A)) m (p : A) : m ∈ l -> p ∈ m -> p ∈ concat l.
Proof. intros Hm Hp. apply list_elem_of_In, in_concat. exists m. by rewrite <- !list_elem_of_In. Qed.

Lemma concat_elem {A} (l : list (list A)) (p : A) : p ∈ concat l -> exists m, m ∈ l /\ p ∈ m.
Proof. intros (m & H1 & H2)%list_elem_of_In%in_concat. exists m. split; by apply list_elem_of_In. Qed.

Lemma concat_unique {A} (l : list (list A)) : forall k k' m m' j j' p,
  NoDup (concat l) -> l !! k = Some m -> m !! j = Some p -> l !! k' = Some m' -> m' !! j' = Some p -> k = k' /\ j = j'.
Proof.
  induction l as [|x l IH]; intros k k' m m' j j' p Hn Hk Hj Hk' Hj'; [done|]. cbn in Hn. apply NoDup_app in Hn as (N1 & N2 & N3).
  assert (Hin : forall i y z, l !! i = Some y -> y !! z = Some p -> p ∈ concat l) by (intros i y z Hi Hz; eapply elem_concat; by eapply list_elem_of_lookup_2).
  destruct k as [|k], k' as [|k']; cbn in Hk, Hk'; simplify_eq.
  - split; [done|]. exact (NoDup_lookup _ _ _ _ N1 Hj Hj').
  - exfalso. apply (N2 p); [by eapply list_elem_of_lookup_2|by eapply Hin].
  - exfalso. apply (N2 p); [by eapply list_elem_of_lookup_2|by eapply Hin].
  - destruct (IH k k' m m' j j' p) as [-> ->]; done.
Qed.

(** Where a message starts among the chunks sent. *)
Definition start_in (out m : list loc) : nat :=
  match m with [] => 0%nat | p :: _ => from_option fst 0%nat (list_find (fun x => x = p) out) end.

Lemma find_at (l1 l2 : list loc) p : NoDup (l1 ++ p :: l2) -> list_find (fun x => x = p) (l1 ++ p :: l2) = Some (length l1, p).
Proof.
  intros Hn. apply list_find_Some. rewrite lookup_app_r, Nat.sub_diag by lia. split; [done|]. split; [done|].
  intros j y Hj Hlt ->. apply (NoDup_lookup _ j (length l1) p Hn) in Hj; [lia|]. by rewrite lookup_app_r, Nat.sub_diag by lia.
Qed.

(** The chunks of a message that were sent are its first ones, in a row. *)
Definition begun (out m : list loc) : Prop :=
  exists l1 p1 l2 p2, m = p1 ++ p2 /\ out = l1 ++ p1 ++ l2 /\ forall p, p ∈ p2 -> p ∉ out.

Lemma begun_at out m j p :
  NoDup out -> begun out m -> m !! j = Some p -> p ∈ out -> (exists q, m !! 0%nat = Some q /\ q ∈ out) /\ out !! (start_in out m + j)%nat = Some p.
Proof.
  intros Hn (l1 & p1 & l2 & p2 & -> & -> & H2) Hj Hp. apply lookup_app_Some in Hj as [Hj|[_ Hj]].
  2: { exfalso. apply (H2 p); [by eapply list_elem_of_lookup_2|done]. }
  destruct p1 as [|q p1]; [done|]. split; [exists q; split; [done|]; apply elem_of_app; right; left|].
  cbn [app start_in]. rewrite find_at by done. cbn. change (q :: p1 ++ l2) with ((q :: p1) ++ l2).
  rewrite lookup_app_r by lia. replace (length l1 + j - length l1)%nat with j by lia. by apply lookup_app_l_Some.
Qed.

Lemma start_grow out new m q : m !! 0%nat = Some q -> q ∈ out -> NoDup (out ++ new) -> start_in (out ++ new) m = start_in out m.
Proof.
  intros Hh Hq Hn. destruct m as [|p m]; [done|]. injection Hh as ->. cbn. apply list_elem_of_split in Hq as (l1 & l2 & ->).
  rewrite <- app_assoc in Hn |- *. cbn in Hn |- *. rewrite find_at by done. apply NoDup_app in Hn as (N1 & N2 & N3). rewrite find_at; [done|].
  apply NoDup_app. split; [done|]. apply NoDup_cons in N3 as [N3 N4]. apply NoDup_app in N4 as (N4 & _). split.
  - intros x Hx Hx'. apply (N2 x Hx). apply elem_of_cons. apply elem_of_cons in Hx' as [->|Hx']; [by left|right; apply elem_of_app; by left].
  - apply NoDup_cons. split; [|done]. intros Hx. apply N3, elem_of_app. by left.
Qed.

(** ** The book *)

Record book := mkBook {
  bk_ms : list (list loc);
  bk_out : list loc;
  bk_gone : list loc;
  bk_data : gmap loc payloadData
}.

(** A later book: [added] are the messages queued since. *)
Record extends (B : book) (added : list (list loc)) (B' : book) : Prop := {
  ex_ms : bk_ms B' = bk_ms B ++ added;
  ex_out : exists new, bk_out B' = bk_out B ++ new;
  ex_data : bk_data B ⊆ bk_data B'
}.

Section Threads.
Context {S : Type} `{SL : StreamSchedulerLaws S} {Q : Type} `{QL : QueueLaws loc Q}.

Abbreviation assoc := (@association S Q).

(** What has left the pending queue is whole messages and the first fragments of
    the one being sent. *)
Definition in_order (B : book) (a : assoc) : Prop :=
  exists m part rest W fin o, policy (pendingQueue a) = MessagePolicy m /\ msg_inv (deref a) m part rest W
    /\ merge (bk_out B) (bk_gone B) o /\ o = concat fin ++ part /\ fin ++ current part rest ++ waiting W ≡ₚ bk_ms B.

Record threads (B : book) (log : list payloadData) (a : assoc) : Prop := {
  th_live : Forall (fun p => is_Some (heap a !! p)) (concat (bk_ms B));
  th_nodup : NoDup (concat (bk_ms B));
  th_order : in_order B a;
  th_data : forall p, p ∈ contents (pendingQueue a) -> bk_data B !! p = Some (said (heap a) p);
  th_log : Forall2 (fun p d => bk_data B !! p = Some (TransferSpec.with_tsn 0 d)) (bk_out B) log;
  th_gone : forall p, p ∈ bk_gone B -> exists d, bk_data B !! p = Some d /\ userData d = [];
  th_dom : forall p, is_Some (bk_data B !! p) <-> p ∈ concat (bk_ms B)
}.

(** Every chunk queued waits, has a TSN or asked for a reset. *)
Lemma threads_split B log a : threads B log a -> bk_out B ++ bk_gone B ++ contents (pendingQueue a) ≡ₚ concat (bk_ms B).
Proof.
  intros [_ _ (m & part & rest & W & fin & o & Ep & Hi & Hm & Ho & Hms) _ _ _ _]. apply concat_perm in Hms. rewrite <- Hms, !concat_app.
  rewrite app_assoc, <- (merge_perm _ _ _ Hm), Ho. unfold contents. rewrite Ep.
  pose proof (mi_queue _ _ _ _ _ Hi true) as Ht. pose proof (mi_queue _ _ _ _ _ Hi false) as Hf. cbn in Ht, Hf. rewrite Ht, Hf.
  pose proof (mi_part _ _ _ _ _ Hi) as Hp.
  assert (Hc : concat (current part rest) ≡ₚ part ++ rest) by (unfold current; destruct rest; [by rewrite (proj2 Hp)|cbn; by rewrite app_nil_r]).
  unfold waiting. rewrite Hc, concat_app. destruct (Message.unorderedIsSelected m); cbn; solve_Permutation.
Qed.

Lemma threads_nodup B log a : threads B log a -> NoDup (bk_out B ++ bk_gone B ++ contents (pendingQueue a)).
Proof. intros Ht. rewrite (threads_split _ _ _ Ht). apply Ht. Qed.

(** A message with data is sent from its first fragment on, in a row. *)
Lemma threads_begun B log a m :
  threads B log a -> m ∈ bk_ms B -> (forall p d, p ∈ m -> bk_data B !! p = Some d -> userData d <> []) -> begun (bk_out B) m.
Proof.
  intros Ht Hm Hd. pose proof Ht as [_ Hn (p0 & part & rest & W & fin & o & _ & Hi & Hmg & -> & Hms) _ _ Hg _].
  assert (Hr : forall p, p ∈ m -> p ∉ bk_gone B) by (intros p Hp (d & E & Hz)%Hg; by apply (Hd p d)).
  rewrite <- (concat_perm _ _ Hms) in Hn. rewrite <- Hms in Hm. apply elem_of_app in Hm as [Hm|Hm].
  - apply list_elem_of_split in Hm as (f1 & f2 & ->). rewrite concat_app in Hmg. cbn in Hmg. rewrite <- !app_assoc in Hmg.
    destruct (merge_block _ _ _ _ _ Hmg Hr) as (l1 & l2 & E). exists l1, m, l2, []. rewrite app_nil_r. split_and!; [done|done|]. by intros p ?%elem_of_nil.
  - rewrite concat_app in Hn. apply NoDup_app in Hn as (_ & Hn & Hn'). apply elem_of_app in Hm as [Hm|Hm].
    + assert (m = part ++ rest) as -> by (unfold current in Hm; destruct rest; [by apply elem_of_nil in Hm|by apply list_elem_of_singleton in Hm]).
      rewrite <- (app_nil_r part) in Hmg at 1. destruct (merge_block _ _ _ _ _ Hmg) as (l1 & l2 & E).
      { intros p Hp. apply Hr, elem_of_app. by left. }
      exists l1, part, l2, rest. split_and!; [done|done|]. intros p Hp Ho. assert (Hin : p ∈ concat fin ++ part) by (rewrite app_nil_r in Hmg; apply (merge_elem _ _ _ _ Hmg); by left).
      rewrite concat_app in Hn, Hn'. apply NoDup_app in Hn' as (Hc & _ & _).
      assert (Hcur : concat (current part rest) = part ++ rest) by (unfold current; destruct rest; [by apply elem_of_nil in Hp|cbn; by rewrite app_nil_r]).
      rewrite Hcur in Hn, Hc. apply elem_of_app in Hin as [Hin|Hin].
      * apply (Hn p Hin). rewrite !elem_of_app. tauto.
      * apply NoDup_app in Hc as (_ & Hc & _). by apply (Hc p).
    + exists [], [], (bk_out B), m. split_and!; [done|done|]. intros p Hp Ho. assert (Hin : p ∈ concat fin ++ part) by (apply (merge_elem _ _ _ _ Hmg); by left).
      pose proof (elem_concat _ _ _ Hm Hp) as Hw. rewrite concat_app in Hn, Hn'. apply NoDup_app in Hn' as (_ & Hc & _). apply elem_of_app in Hin as [Hin|Hin].
      * apply (Hn p Hin), elem_of_app. by right.
      * apply (Hc p); [|done]. pose proof (mi_part _ _ _ _ _ Hi) as Hpr. unfold current. destruct rest; [rewrite (proj2 Hpr) in Hin by done; by apply elem_of_nil in Hin|].
        cbn. rewrite app_nil_r. apply elem_of_app. by left.
Qed.

(** *** Steps *)

Lemma msg_inv_in (d d' : loc -> payloadData) m part rest W :
  (forall c, c ∈ concat (current part rest ++ waiting W) -> d c = d' c) -> msg_inv d m part rest W -> msg_inv d' m part rest W.
Proof.
  intros H' [H1 H2 H3 H4 H5]. constructor; try done.
  - intros u. specialize (H1 u). rewrite Forall_forall in *. intros x Hx. eapply whole_ext_in; [|by apply H1]. intros c Hc. apply H'.
    apply (elem_concat _ x); [|done]. unfold waiting. rewrite !elem_of_app. right. destruct u; tauto.
  - intros Hr. eapply whole_ext_in; [|by apply H4]. intros c Hc. apply H', (elem_concat _ (part ++ rest)); [|done].
    unfold current. destruct rest; [done|]. apply elem_of_app. left. left.
Qed.

(** What the new chunks say is written down. *)
Definition note (h : store) (m : list loc) (data : gmap loc payloadData) : gmap loc payloadData :=
  list_to_map (map (fun p => (p, said h p)) m) ∪ data.

Lemma note_lookup h m data p : note h m data !! p = if bool_decide (p ∈ m) then Some (said h p) else data !! p.
Proof.
  unfold note. rewrite lookup_union. case_bool_decide as Hp.
  - assert (E : (list_to_map (map (fun p => (p, said h p)) m) : gmap loc payloadData) !! p = Some (said h p)).
    { induction m as [|x m IH]; [by apply elem_of_nil in Hp|]. cbn. destruct (decide (x = p)) as [->|Hne]; [by rewrite lookup_insert_eq|].
      rewrite lookup_insert_ne by done. apply IH. by apply elem_of_cons in Hp as [?|?]. }
    rewrite E. by destruct (data !! p).
  - assert (E : (list_to_map (map (fun p => (p, said h p)) m) : gmap loc payloadData) !! p = None).
    { apply not_elem_of_list_to_map. intros Hin. apply Hp. by rewrite map_map, map_id in Hin. }
    rewrite E. by destruct (data !! p).
Qed.

(** A message is queued. *)
Lemma threads_grow B log (a a' : assoc) u m :
  send_ok a -> send_ok a' -> threads B log a -> heap a ⊆ heap a' -> (forall p, p ∈ m -> heap a !! p = None) -> NoDup m ->
  contents (pendingQueue a') ≡ₚ contents (pendingQueue a) ++ m -> whole (deref a') u m ->
  pendingQueue a' = fold_left (PendingSpec.push (deref a')) m (pendingQueue a) ->
  threads (mkBook (bk_ms B ++ [m]) (bk_out B) (bk_gone B) (note (heap a') m (bk_data B))) log a'.
Proof.
  intros Hok Hok' Ht Hh Hfr Hnm Hc Hw Hpq. pose proof Ht as [Hl Hn Ho Hd Hlog Hg Hdom]. rewrite Forall_forall in Hl.
  assert (Hnew : forall p, p ∈ concat (bk_ms B) -> p ∉ m) by (intros p Hp Hm; destruct (Hl p Hp) as [c Hc']; by rewrite Hfr in Hc').
  assert (Hsame : forall p, p ∈ concat (bk_ms B) -> wire_at (heap a') p = wire_at (heap a) p).
  { intros p Hp. destruct (Hl p Hp) as [c Hc']. unfold wire_at. by rewrite (lookup_weaken _ _ _ _ Hc' Hh), Hc'. }
  assert (Hout : forall p, p ∈ bk_out B ++ bk_gone B ++ contents (pendingQueue a) -> p ∈ concat (bk_ms B)) by (intros p; by rewrite (threads_split _ _ _ Ht)).
  assert (Hold : forall p, p ∈ concat (bk_ms B) -> note (heap a') m (bk_data B) !! p = bk_data B !! p).
  { intros p Hp. rewrite note_lookup, bool_decide_eq_false_2; [done|by apply Hnew]. }
  constructor; cbn.
  - rewrite concat_app. cbn. rewrite app_nil_r. apply Forall_app. split; apply Forall_forall; intros p Hp.
    + destruct (Hl p Hp) as [c Hc']. exists c. by eapply lookup_weaken.
    + apply (pending_live a' p Hok'). rewrite Hc. apply elem_of_app. by right.
  - rewrite concat_app. cbn. rewrite app_nil_r. apply NoDup_app. split_and!; [done|exact Hnew|done].
  - destruct Ho as (m0 & part & rest & W & fin & o & Ep & Hi & Hmg & Eo & Hms). eexists _, part, rest, _, fin, o.
    destruct (fold_push (deref a') (pendingQueue a) m) as (E & _). split; [by rewrite Hpq, E, Ep, fold_policy_push|]. split.
    + apply message_push; [|exact Hw]. eapply msg_inv_in; [|exact Hi]. intros c Hcc. symmetry. apply Hsame. rewrite <- (concat_perm _ _ Hms), concat_app. apply elem_of_app. by right.
    + split; [done|]. split; [done|]. cbn [bk_ms]. rewrite <- Hms. unfold waiting. destruct u; cbn; rewrite ?app_nil_r; solve_Permutation.
  - intros p Hp. rewrite note_lookup. case_bool_decide as Hm; [done|]. rewrite Hc in Hp. apply elem_of_app in Hp as [Hp|?]; [|done].
    rewrite (Hd p Hp). unfold said. rewrite Hsame; [done|]. apply Hout. rewrite !elem_of_app. tauto.
  - eapply Forall2_impl; [exact Hlog|]. intros p d E. cbn in *. rewrite Hold; [done|]. apply Hdom. by eexists.
  - intros p Hp. rewrite Hold; [by apply Hg|]. apply Hout. rewrite !elem_of_app. tauto.
  - intros p. rewrite note_lookup, concat_app. cbn. rewrite app_nil_r, elem_of_app, <- Hdom. case_bool_decide as Hm; [|tauto]. split; [by right|by eexists].
Qed.

(** Chunks get a TSN, or are dropped. *)
Lemma threads_sent B log now k (a a' : assoc) new resets :
  flight k a -> threads B log a -> sent now a new resets a' ->
  threads (mkBook (bk_ms B) (bk_out B ++ new) (bk_gone B ++ resets) (bk_data B)) (log ++ entered a a') a'.
Proof.
  intros Hf Ht Hs. pose proof Ht as [Hl Hn Ho Hd Hlog Hg Hdom]. pose proof (kp_shape _ _ (st_kept _ _ _ _ _ Hs)) as Hsh.
  pose proof (st_pending _ _ _ _ _ Hs) as Hp. constructor; cbn; try done.
  - eapply Forall_impl; [exact Hl|]. intros p [c Hc]. destruct (same_shape_lookup _ _ _ _ Hsh Hc) as (c' & -> & _). by eexists.
  - destruct Ho as (m & part & rest & W & fin & o & Ep & Hi & Hmg & -> & Hms). destruct (st_served _ _ _ _ _ Hs) as (o' & Hmg' & Hv).
    destruct (Hv m part rest W Ep Hi) as (m' & part' & rest' & W' & fin' & Ep' & Hi' & Ho & Hms').
    exists m', part', rest', W', (fin ++ fin'), ((concat fin ++ part) ++ o'). split_and!; cbn.
    + done.
    + eapply msg_inv_ext; [|exact Hi']. by apply wire_at_place.
    + by apply merge_app.
    + by rewrite concat_app, <- !app_assoc, Ho.
    + by rewrite <- Hms, <- Hms', <- app_assoc.
  - intros p Hin. rewrite (said_shape _ _ _ Hsh). apply Hd. rewrite Hp, !elem_of_app. tauto.
  - apply Forall2_app; [done|]. rewrite (entered_sent _ _ _ _ _ _ Hf Hs). apply Forall2_fmap_r, Forall_Forall2_diag, Forall_forall.
    intros p Hin. rewrite Hd by (rewrite Hp, !elem_of_app; tauto). by rewrite <- (said_shape _ _ _ Hsh).
  - intros p [Hin|Hin]%elem_of_app; [by apply Hg|]. exists (said (heap a) p). split; [apply Hd; rewrite Hp, !elem_of_app; tauto|].
    pose proof (st_resets _ _ _ _ _ Hs) as Hr. rewrite Forall_forall in Hr. specialize (Hr p Hin). unfold len_at in Hr. unfold said, wire_at. cbn.
    destruct (heap a !! p) as [c|]; [|done]. cbn in *. unfold dataLen in Hr. destruct (userData (wire c)); [done|]. rewrite zlen_cons in Hr. pose proof (zlen_nonneg l). lia.
Qed.

(** Acknowledgements, timers. *)
Lemma threads_acks B log k (a a' : assoc) :
  flight k a -> threads B log a -> Forall (fun p => acked_at (heap a) p = false) (contents (pendingQueue a)) -> intact (heap a) (heap a') ->
  (forall p, p ∉ locs (inflightQueue a) -> acked_at (heap a') p = acked_at (heap a) p) -> pendingQueue a' = pendingQueue a ->
  same_tags (heap a) (heap a') -> threads B log a'.
Proof.
  intros Hf Ht Hun Hi Hack Hp Hst. pose proof Ht as [Hl Hn Ho Hd Hlog Hg Hdom]. pose proof (fl_send _ _ Hf) as Hok. rewrite Forall_forall in Hun.
  constructor; try done; rewrite ?Hp.
  - eapply Forall_impl; [exact Hl|]. intros p [c Hc]. destruct (same_tags_lookup _ _ _ _ Hst Hc) as (c' & -> & _). by eexists.
  - destruct Ho as (m & part & rest & W & fin & o & Ep & Hi' & Hrest). exists m, part, rest, W, fin, o. rewrite Hp. split; [done|]. split; [|done].
    eapply msg_inv_ext; [|exact Hi']. by apply tags_place.
  - intros p Hin. rewrite (Hd p Hin). f_equal. symmetry. eapply said_intact; [done|done|done|]. by rewrite Hack by (by apply pending_not_flying); apply Hun.
Qed.

Lemma threads_kind base written B log k (a a' : assoc) :
  flight k a -> send_ok a' -> outgoing base written log a -> threads B log a -> kind a a' ->
  exists B' added, threads B' (log ++ entered a a') a' /\ extends B added B' /\ concat added ≡ₚ queued a a'
    /\ forall p, p ∈ queued a a' -> bk_data B' !! p = Some (said (heap a') p).
Proof.
  intros Hf Hok' Hog Ht [m u Hh Hfr Hnm Hun Hq Hn Hc Hw Hpq|now new resets a1 Hs Hh Hq Hp Hn|popped Hi Ha Hl Hp Hn Hst].
  - pose proof (fl_send _ _ Hf) as Hok. rewrite (entered_none a a' []), app_nil_r by (by rewrite Hq).
    assert (Hqm : queued a a' ≡ₚ m).
    { unfold queued. rewrite Hc, filter_app, filter_none by (intros p Hp Hn'; by apply Hn'). rewrite filter_all; [done|].
      intros p Hp Hp'. destruct (pending_live a p Hok Hp') as [c Hc']. by rewrite Hfr in Hc'. }
    eexists _, [m]. split; [by eapply (threads_grow B log a a' u m)|]. cbn. rewrite app_nil_r. split; [|split; [by symmetry|]].
    + constructor; cbn; [done|exists []; by rewrite app_nil_r|]. apply map_subseteq_spec. intros p d E. rewrite note_lookup, bool_decide_eq_false_2; [done|].
      intros Hin. assert (Hp : p ∈ concat (bk_ms B)) by (apply (th_dom _ _ _ Ht); by eexists). pose proof (th_live _ _ _ Ht) as Hl. rewrite Forall_forall in Hl.
      destruct (Hl p Hp) as [c Hc']. by rewrite Hfr in Hc'.
    + intros p Hin. rewrite Hqm in Hin. by rewrite note_lookup, bool_decide_eq_true_2.
  - assert (He : entered a a' = entered a a1) by (unfold entered; by rewrite Hh, Hq).
    pose proof (threads_sent B log now k a a1 new resets Hf Ht Hs) as [T1 T2 T3 T4 T5 T6 T7]. cbn in *.
    assert (Hqn : queued a a' = []) by (apply queued_none; rewrite Hp; intros p Hin; rewrite (st_pending _ _ _ _ _ Hs), !elem_of_app; tauto).
    rewrite He, Hqn. exists (mkBook (bk_ms B) (bk_out B ++ new) (bk_gone B ++ resets) (bk_data B)), []. split; [|split; [|split; [done|by intros p ?%elem_of_nil]]].
    + constructor; cbn; rewrite ?Hh, ?Hp; try done. unfold in_order, deref in *. by rewrite Hp, Hh.
    + constructor; cbn; [by rewrite app_nil_r|by eexists|done].
  - rewrite (entered_none a a' popped), app_nil_r by done. rewrite queued_none by (by rewrite Hp). exists B, []. split; [|split; [|split; [done|by intros p ?%elem_of_nil]]].
    + eapply threads_acks; [done|done|apply Hog|done..].
    + constructor; [by rewrite app_nil_r|exists []; by rewrite app_nil_r|done].
Qed.

End Threads.
