(* ===== verification/StreamDelivery.v ===== *)
(** * From one application to the other

    One ordered stream of two connected associations that do not interleave:
    messages are cut by the writer's stream, numbered and sent by its
    association, carried by the network, taken by the other association and put
    together by the reader's stream. *)

From S2P Require Import Prelude.
From S2P Require Import Serial.
From S2P Require Import Float64.
From S2P Require Import Bytes.
From S2P Require Import Params.
From S2P Require Import Causes.
From S2P Require Import Chunks.
From S2P Require Import Packet.
From S2P Require Import RingQueue.
From S2P Require Import PayloadQueue.
From S2P Require Import RecvQueue.
From S2P Require Import WindowedMin.
From S2P Require Import PendingQueue.
From S2P Require Import PendingSpec.
From S2P Require Import Reassembly.
From S2P Require Import Stream.
From S2P Require Import Timers.
From S2P Require Import Sender.
From S2P Require Import Sack.
From S2P Require Import ReassemblySpec.
From S2P Require Import StreamSpec.
From S2P Require Import SenderSpec.
From S2P Require Import SackSpec.
From S2P Require Import SenderSteps.
From S2P Require Import RoundTrip.
From S2P Require Import Endpoint.
From S2P Require Import Receive.
From S2P Require Import Handshake.
From S2P Require Import Outbound.
From S2P Require Import Config.
From S2P Require Import ReceiveSpec.
From S2P Require Import AckSpec.
From S2P Require Import HandshakeSpec.
From S2P Require Import ReadySpec.
From S2P Require Import TransferSpec.
From S2P Require Import WriteSpec.
From S2P Require Import DeliverySpec.
From S2P Require Import ThreadSpec.

Local Open Scope Z_scope.
Local Open Scope go_scope.

(** ** The messages as the reader sees them *)

(** The chunks [m] hold message number [k]. *)
Record spells (sid : Z) (data : gmap loc payloadData) (k : nat) (msg : list Z * Z) (m : list loc) : Prop := {
  sp_len : 0 < Z.of_nat (length m) < 2 ^ 31;
  sp_raw : concat (map (fun p => userData (data !!! p)) m) = msg.1;
  sp_at : forall j p, m !! j = Some p -> exists d, data !! p = Some d /\ streamIdentifier d = sid /\ unordered d = false /\ iData d = false
    /\ streamSequenceNumber d = u16 (Z.of_nat k) /\ payloadType d = msg.2 /\ userData d <> []
    /\ beginningFragment d = bool_decide (j = 0%nat) /\ endingFragment d = bool_decide (Datatypes.S j = length m)
}.

Lemma spells_grow sid data data' k msg m : data ⊆ data' -> spells sid data k msg m -> spells sid data' k msg m.
Proof.
  intros Hs [H1 H2 H3]. constructor; [done| |].
  - rewrite <- H2. f_equal. apply map_ext_in. intros p [j Hj]%list_elem_of_In%list_elem_of_lookup_1. destruct (H3 j p Hj) as (d & Hd & _).
    unfold lookup_total, map_lookup_total. by rewrite Hd, (lookup_weaken _ _ _ _ Hd Hs).
  - intros j p Hj. destruct (H3 j p Hj) as (d & Hd & Hr). exists d. split; [by eapply lookup_weaken|done].
Qed.

Section Reader.
Context (sid base : Z).

(** Message number [k]: its fragments, from the TSN of its first one on; any
    message where none was written. *)
Definition fragments_of (B : book) (m : list loc) : list payloadData :=
  imap (fun j p => as_sent (TransferSpec.with_tsn (base +32 (1 + Z.of_nat (start_in (bk_out B) m + j))) (bk_data B !!! p))) m.

Definition omsg (B : book) (mine : list (list loc)) (k : nat) : list payloadData :=
  match mine !! k with
  | Some m => fragments_of B m
  | None => [mkPayload false true true false 0 sid (u16 (Z.of_nat k)) 0 0 0 [0] false]
  end.

Definition otsn (B : book) (mine : list (list loc)) (k : nat) : Z :=
  match mine !! k with Some m => base + 1 + Z.of_nat (start_in (bk_out B) m) | None => 0 end.

Definition oppi (msgs : list (list Z * Z)) (k : nat) : Z := from_option snd 0 (msgs !! k).

(** No message is unordered. *)
Definition uat (t : nat) : payloadData := mkPayload true true true false (u32 (Z.of_nat t)) sid 0 0 0 0 [0] false.

Definition pictures (B : book) (mine : list (list loc)) (msgs : list (list Z * Z)) (n : nat) (seen : gset (nat * nat)) (q : reassemblyQueue) : Prop :=
  represents sid (omsg B mine) (oppi msgs) uat (fun k => k) (fun _ => 1%nat) (fun _ => 0) (mkReceiver n seen ∅ []) q.

Definition all_spell (B : book) (mine : list (list loc)) (msgs : list (list Z * Z)) : Prop :=
  length mine = length msgs /\ forall k m, mine !! k = Some m -> exists msg, msgs !! k = Some msg /\ spells sid (bk_data B) k msg m.

Lemma mine_sender B mine msgs :
  all_spell B mine msgs ->
  sender_ok sid (omsg B mine) (otsn B mine) (oppi msgs) uat (fun k => k) (fun _ => 1%nat) (fun _ => 0) (fun _ => 0).
Proof.
  intros [Hl Hs]. constructor.
  - intros k. unfold omsg, otsn, oppi. destruct (mine !! k) as [m|] eqn:Em.
    + destruct (Hs k m Em) as (msg & Hk & [H1 H2 H3]). rewrite Hk. cbn. constructor; unfold fragments_of; [by rewrite length_imap|].
      intros j c Hc. rewrite list_lookup_imap in Hc. destruct (m !! j) as [p|] eqn:Ej; [|done]. injection Hc as <-.
      destruct (H3 j p Ej) as (d & Hd & A1 & A2 & A3 & A4 & A5 & A6 & A7 & A8). unfold lookup_total, map_lookup_total. rewrite Hd. cbn. rewrite A3, length_imap.
      split_and!; try done. f_equal. lia.
    + rewrite (lookup_ge_None_2 msgs) by (rewrite <- Hl; by apply lookup_ge_None). cbn. constructor; [cbn; lia|].
      intros [|j] c; cbn; [|done]. intros [= <-]. split_and!; done.
  - intros k. constructor; [cbn; lia|]. intros [|j] c; cbn; [|done]. intros [= <-]. split_and!; try done. cbn. f_equal. lia.
  - intros k. lia.
Qed.

Lemma omsg_pos B mine msgs i : all_spell B mine msgs -> (0 < length (omsg B mine i))%nat.
Proof. intros Ha. pose proof (fr_len _ _ _ _ _ _ (so_ordered _ _ _ _ _ _ _ _ _ (mine_sender _ _ _ Ha) i)). lia. Qed.

End Reader.

(** ** The system *)

Section Sessions.
Context {S : Type} `{SL : StreamSchedulerLaws S} {Q : Type} `{QL : QueueLaws loc Q}.
Context (order : @PendingSpec.pendingQueue S -> list Z) (base : Z) (zero : bool) (sid mps : Z).

Abbreviation ep := (@endpoint S Q).

(** The world, the writer's stream, the messages written to it and those its
    reader has got. *)
Record session := mkSession { ss_world : @world S Q; ss_tx : Stream; ss_msgs : list (list Z * Z); ss_got : list (list Z * Z) }.

(** The sender has moved to [a'] and put [raws] on the wire. *)
Definition moved_to (a' : @association S Q) (raws : list (list Z)) (w : @world S Q) : @world S Q :=
  mkWorld (on_sender (fun _ => a') (w_ep w)) (w_written w ++ map (said (heap a')) (queued (sender (w_ep w)) a'))
    (w_log w ++ entered (sender (w_ep w)) a') (w_net w ++ raws) (w_hist w).

Inductive dstep : session -> session -> Prop :=
  (* a write: the writer is less than 2^15 messages ahead of the reader *)
  | d_write w s msgs got raw ppi fuel fresh ps u st fresh' s' a' :
      Z.of_nat (length msgs) < Z.of_nat (length got) + 2 ^ 15 -> raw <> [] -> bytes raw -> zlen raw < 2 ^ 31 -> in_u 32 ppi -> (length raw <= fuel)%nat ->
      (forall p, (fresh <= p)%positive -> heap (sender (w_ep w)) !! p = None) ->
      packetize fuel mps false s raw ppi (heap (sender (w_ep w))) fresh = Some (ps, u, st, fresh', s') ->
      sendPayloadData (set_heap st (sender (w_ep w))) [] ps = Some (None, a') ->
      dstep (mkSession w s msgs got) (mkSession (moved_to a' [] w) s' (msgs ++ [(raw, ppi)]) got)
  (* the association sends, retransmits, takes a SACK or times out, and other
     streams write and are reset *)
  | d_send w s msgs got w' :
      wstep order base zero w w' -> w_hist w' = w_hist w ->
      (forall p, p ∈ queued (sender (w_ep w)) (sender (w_ep w')) -> sid_at (heap (sender (w_ep w'))) p <> sid) ->
      dstep (mkSession w s msgs got) (mkSession w' s msgs got)
  (* a chunk arrives, and the stream is not reset by it *)
  | d_receive e wr lg net b tk sk s msgs got o raw pkt c r b' :
      raw ∈ net -> recvZeroChecksum (ext b) = zero -> packet_unmarshal (negb (recvZeroChecksum (ext b))) raw = Ok pkt -> c ∈ Packet.chunks pkt ->
      connected (getState b) = true -> calm (rxQueue (rx b)) -> reach base (peerLastTSN b) b -> handleChunk o pkt c b = Some (r, b') ->
      (streams b' !! sid = None -> streams b !! sid = None /\ Forall (fun d => streamIdentifier d <> sid) (news c b)) ->
      dstep (mkSession (mkWorld e wr lg net (mkHist b tk sk)) s msgs got) (mkSession (mkWorld e wr lg net (mkHist b' (tk ++ news c b) sk)) s msgs got)
  (* the reader reads *)
  | d_read e wr lg net b tk sk s msgs got s0 buf x closed s1 :
      streams b !! sid = Some s0 -> ReadSCTP s0 buf = (x, closed, s1) ->
      dstep (mkSession (mkWorld e wr lg net (mkHist b tk sk)) s msgs got)
        (mkSession (mkWorld e wr lg net (mkHist (put_streams (<[sid := s1]> (streams b)) b) tk sk)) s msgs (got ++ taken x))
  (* whatever else the receiver does leaves the stream alone *)
  | d_rest e wr lg net h s msgs got h' :
      rxstep base h h' -> h_taken h' = h_taken h -> queue_of sid (h_ep h') = queue_of sid (h_ep h) ->
      dstep (mkSession (mkWorld e wr lg net h) s msgs got) (mkSession (mkWorld e wr lg net h') s msgs got).

(** [tl] are the chunks that were taken. *)
Definition took (B : book) (log : list payloadData) (tl : list loc) (tk : list payloadData) : Prop :=
  Forall2 (fun p d => exists i d0, bk_out B !! i = Some p /\ log !! i = Some d0 /\ d = as_sent d0) tl tk.

Record delivering (B : book) (mine : list (list loc)) (tl : list loc) (seen : gset (nat * nat)) (ss : session) : Prop := {
  di_transfer : transfer base zero (ss_world ss);
  di_threads : threads B (w_log (ss_world ss)) (sender (w_ep (ss_world ss)));
  di_mine : Forall (fun m => m ∈ bk_ms B) mine;
  di_distinct : NoDup (concat mine);
  di_cover : forall p d, bk_data B !! p = Some d -> streamIdentifier d = sid -> p ∈ concat mine;
  di_spells : all_spell sid B mine (ss_msgs ss);
  di_tx : s_streamIdentifier (ss_tx ss) = sid /\ s_unordered (ss_tx ss) = false /\ s_sequenceNumber (ss_tx ss) = u16 (Z.of_nat (length (ss_msgs ss)));
  di_got : ss_got ss = take (length (ss_got ss)) (ss_msgs ss);
  di_ahead : Z.of_nat (length (ss_msgs ss)) <= Z.of_nat (length (ss_got ss)) + 2 ^ 15;
  di_took : took B (w_log (ss_world ss)) tl (h_taken (w_hist (ss_world ss)));
  di_seen : forall k j, (k, j) ∈ seen <-> exists m p, mine !! k = Some m /\ m !! j = Some p /\ p ∈ tl;
  di_rx : pictures sid base B mine (ss_msgs ss) (length (ss_got ss)) seen (queue_of sid (h_ep (w_hist (ss_world ss))))
}.

Lemma took_grow B added B' log new tl tk : extends B added B' -> took B log tl tk -> took B' (log ++ new) tl tk.
Proof.
  intros [_ [nw Eo] _] Ht. eapply Forall2_impl; [exact Ht|]. intros p d (i & d0 & H1 & H2 & H3). exists i, d0.
  rewrite Eo. split_and!; [by apply lookup_app_l_Some..|done].
Qed.

(** The fragments of a message that has been begun do not change any more. *)
Lemma fragments_stable B added B' log log' (a a' : @association S Q) k msg m p :
  threads B log a -> threads B' log' a' -> extends B added B' -> m ∈ bk_ms B -> spells sid (bk_data B) k msg m -> p ∈ m -> p ∈ bk_out B ->
  fragments_of base B' m = fragments_of base B m.
Proof.
  intros Ht Ht' [Em [new Eo] Ed] Hm [H1 H2 H3] Hp Ho. apply list_elem_of_lookup_1 in Hp as [j Hj].
  assert (Hn : NoDup (bk_out B ++ new)) by (pose proof (threads_nodup _ _ _ Ht') as Hn; rewrite Eo in Hn; by apply NoDup_app in Hn as (? & _)).
  destruct (begun_at (bk_out B) m j p) as [(q & Hq & Hqo) _]; [by apply NoDup_app in Hn as (? & _)| |done|done|].
  { eapply threads_begun; [done|done|]. intros x d Hx Hd. apply list_elem_of_lookup_1 in Hx as [i Hi]. destruct (H3 i x Hi) as (d' & Hd' & _ & _ & _ & _ & _ & Hne & _). congruence. }
  unfold fragments_of. rewrite Eo, (start_grow _ _ _ q Hq Hqo Hn). apply imap_ext. intros i x Hi. destruct (H3 i x Hi) as (d & Hd & _).
  unfold lookup_total, map_lookup_total. by rewrite Hd, (lookup_weaken _ _ _ _ Hd Ed).
Qed.

Lemma took_out B log tl tk p : took B log tl tk -> p ∈ tl -> p ∈ bk_out B.
Proof.
  intros Ht [i Hi]%list_elem_of_lookup_1. destruct (Forall2_lookup_l _ _ _ _ _ Ht Hi) as (d & _ & j & d0 & Hj & _). by eapply list_elem_of_lookup_2.
Qed.

Lemma pictures_grow B added B' log log' (a a' : @association S Q) mine extra msgs extra' n seen q tl tk :
  threads B log a -> threads B' log' a' -> extends B added B' -> Forall (fun m => m ∈ bk_ms B) mine -> all_spell sid B mine msgs ->
  took B log tl tk -> (forall k j, (k, j) ∈ seen <-> exists m p, mine !! k = Some m /\ m !! j = Some p /\ p ∈ tl) ->
  pictures sid base B mine msgs n seen q -> pictures sid base B' (mine ++ extra) (msgs ++ extra') n seen q.
Proof.
  intros Ht Ht' He Hm Ha Hk Hs Hp. eapply represents_change; [|intros i; by eapply omsg_pos|exact Hp]. intros i j Hij. cbn in Hij.
  apply Hs in Hij as (m & p & Hi & Hj & Hin). destruct Ha as [Hl Ha]. destruct (Ha i m Hi) as (msg & Hmsg & Hsp). rewrite Forall_forall in Hm. split.
  - unfold omsg. rewrite (lookup_app_l_Some _ _ _ _ Hi), Hi. eapply (fragments_stable B added B'); try done; [|by eapply list_elem_of_lookup_2|by eapply took_out].
    apply Hm. by eapply list_elem_of_lookup_2.
  - unfold oppi. by rewrite (lookup_app_l_Some _ _ _ _ Hmsg), Hmsg.
Qed.

(** *** Sending *)

Lemma world_threads B w w' :
  SenderSpec.order_ok order -> transfer base zero w -> threads B (w_log w) (sender (w_ep w)) -> wstep order base zero w w' -> w_hist w' = w_hist w ->
  exists B' added new, threads B' (w_log w') (sender (w_ep w')) /\ extends B added B' /\ w_log w' = w_log w ++ new
    /\ concat added ≡ₚ queued (sender (w_ep w)) (sender (w_ep w'))
    /\ forall p, p ∈ queued (sender (w_ep w)) (sender (w_ep w')) -> bk_data B' !! p = Some (said (heap (sender (w_ep w'))) p).
Proof.
  intros Ho Ht Hth Hst Hh. pose proof (tf_flight _ _ _ Ht) as Hf. pose proof (tf_out _ _ _ Ht) as Hog.
  assert (Hsame : forall a', a' = sender (w_ep w) -> queued (sender (w_ep w)) a' = []) by (intros a' ->; by apply queued_none).
  destruct Hst as [e wr lg net h a' packets raws Hs Hsend Hem E|e wr lg net b tk sk o raw pkt c r b' _ _ _ _ _ _ _ _|e wr lg net h e' Hq _ _|e wr lg net h h' _ _]; cbn in *.
  - pose proof (sstep_kind order 0 _ _ Ho Hf Hs) as Hk. pose proof (sstep_ok order 0 _ _ Ho Hf Hs) as [Hf' _].
    destruct (threads_kind _ _ _ _ _ _ _ Hf (fl_send _ _ Hf') Hog Hth Hk) as (B' & added & H1 & H2 & H3 & H4). by exists B', added, (entered (sender e) a').
  - exists B, [], []. rewrite app_nil_r, Hsame by done. split_and!; [done| |done|done|by intros p ?%elem_of_nil]. constructor; [by rewrite app_nil_r|exists []; by rewrite app_nil_r|done].
  - exists B, [], []. pose proof (acks_quiet _ _ _ Hf Hq) as A. rewrite app_nil_r, queued_none by (by rewrite (qt_pending _ _ Hq)).
    split_and!; [|constructor; [by rewrite app_nil_r|exists []; by rewrite app_nil_r|done]|done|done|by intros p ?%elem_of_nil].
    eapply threads_acks; [done|done|apply Hog|apply A..].
  - exists B, [], []. rewrite app_nil_r, Hsame by done. split_and!; [done| |done|done|by intros p ?%elem_of_nil]. constructor; [by rewrite app_nil_r|exists []; by rewrite app_nil_r|done].
Qed.

Lemma delivering_send B mine tl seen w s msgs got w' :
  SenderSpec.order_ok order -> in_u 32 base -> delivering B mine tl seen (mkSession w s msgs got) -> wstep order base zero w w' -> w_hist w' = w_hist w ->
  (forall p, p ∈ queued (sender (w_ep w)) (sender (w_ep w')) -> sid_at (heap (sender (w_ep w'))) p <> sid) ->
  exists B', delivering B' mine tl seen (mkSession w' s msgs got).
Proof.
  intros Ho Hb [D1 D2 D3 D4 D5 D6 D7 D8 D9 D10 D11 D12] Hst Hh Hq. cbn in *.
  destruct (world_threads B w w' Ho D1 D2 Hst Hh) as (B' & added & new & Ht & He & Hlog & Hadd & Hdata). pose proof He as [E1 [nw E2] E3]. exists B'.
  assert (Hsp : all_spell sid B' mine msgs).
  { destruct D6 as [Hl Ha]. split; [done|]. intros k m Hk. destruct (Ha k m Hk) as (msg & ? & ?). exists msg. split; [done|by eapply spells_grow]. }
  constructor; cbn; try done.
  - by eapply transfer_step.
  - eapply Forall_impl; [exact D3|]. intros m Hm. rewrite E1. apply elem_of_app. by left.
  - intros p d Hd Hs. assert (Hin : p ∈ concat (bk_ms B')) by (apply (th_dom _ _ _ Ht); by eexists). rewrite E1, concat_app in Hin.
    apply elem_of_app in Hin as [Hin|Hin].
    + apply (th_dom _ _ _ D2) in Hin as [d' Hd']. pose proof (lookup_weaken _ _ _ _ Hd' E3). simplify_eq. by eapply D5.
    + exfalso. rewrite Hadd in Hin. pose proof (Hdata p Hin) as Hx. rewrite Hd in Hx. injection Hx as ->. by apply (Hq p Hin).
  - rewrite Hlog, Hh. by eapply took_grow.
  - rewrite Hh. rewrite <- (app_nil_r mine), <- (app_nil_r msgs). by eapply (pictures_grow B added B').
Qed.

(** *** Writing *)

Lemma cut_spells fuel s raw ppi st fresh n h' :
  0 < mps -> raw <> [] -> zlen raw < 2 ^ 31 -> (length raw <= fuel)%nat -> s_streamIdentifier s = sid -> s_unordered s = false ->
  s_sequenceNumber s = u16 (Z.of_nat n) -> packetize fuel mps false s raw ppi st fresh = Some h' ->
  let '(ps, _, st', _, _) := h' in forall data, spells sid (note st' ps data) n (raw, ppi) ps.
Proof.
  intros Hm Hne Hz Hf Hsid Hun Hseq E. destruct (packetize_spec fuel mps false s raw ppi st fresh Hm ltac:(lia) Hf) as (st' & E' & _ & Hnew).
  rewrite E in E'. injection E' as ->. intros data. set (ds := pieces (Z.to_nat mps) raw) in *. assert (Hn : (0 < Z.to_nat mps)%nat) by lia.
  assert (Hpos : ds <> []) by (intros Ed; by apply pieces_nil in Ed). pose proof (pieces_count (Z.to_nat mps) raw Hn) as Hcnt. fold ds in Hcnt.
  pose proof (pieces_size (Z.to_nat mps) raw Hn) as Hsz. rewrite Forall_forall in Hsz. set (ps := map (nth_loc fresh) (seq 0 (length ds))).
  change (spells sid (note st' ps data) n (raw, ppi) ps). assert (Hlen : length ps = length ds) by (unfold ps; by rewrite length_map, length_seq).
  assert (Hat : forall j p, ps !! j = Some p -> exists d, ds !! j = Some d /\ note st' ps data !! p = Some (TransferSpec.with_tsn 0 (wire (piece_of (spec_of false s ppi) 0 0 None fresh (length ds) j d)))).
  { intros j p Hj. pose proof (proj1 (block_lookup fresh (length ds) j p) Hj) as [Hlt ->]. destruct (lookup_lt_is_Some_2 ds j Hlt) as [d Hd].
    exists d. split; [done|]. rewrite note_lookup, bool_decide_eq_true_2 by (by eapply list_elem_of_lookup_2). unfold said, wire_at. by rewrite (Hnew j d Hd). }
  constructor.
  - rewrite Hlen. unfold zlen in Hz. destruct ds; [done|]. cbn in *. lia.
  - cbn. rewrite <- (pieces_concat (Z.to_nat mps) raw Hn). fold ds. f_equal. apply list_eq. intros j. change (map ?g ?l) with (g <$> l). rewrite list_lookup_fmap.
    destruct (ps !! j) as [p|] eqn:Ej; cbn.
    + destruct (Hat j p Ej) as (d & -> & Hd). unfold lookup_total, map_lookup_total. by rewrite Hd.
    + symmetry. apply lookup_ge_None. apply lookup_ge_None in Ej. lia.
  - intros j p Hj. destruct (Hat j p Hj) as (d & Hd & Hx). eexists. split; [exact Hx|]. cbn. rewrite Hun, andb_false_r, Hlen.
    split_and!; try done. { destruct (Hsz d) as [? _]; [by eapply list_elem_of_lookup_2|done]. } by destruct j.
Qed.

Lemma delivering_write B mine tl seen w s msgs got raw ppi fuel fresh ps u st fresh' s' a' :
  SenderSpec.order_ok order -> in_u 32 base -> in_u 16 sid -> 0 < mps <= largest -> delivering B mine tl seen (mkSession w s msgs got) ->
  Z.of_nat (length msgs) < Z.of_nat (length got) + 2 ^ 15 -> raw <> [] -> bytes raw -> zlen raw < 2 ^ 31 -> in_u 32 ppi -> (length raw <= fuel)%nat ->
  (forall p, (fresh <= p)%positive -> heap (sender (w_ep w)) !! p = None) ->
  packetize fuel mps false s raw ppi (heap (sender (w_ep w))) fresh = Some (ps, u, st, fresh', s') ->
  sendPayloadData (set_heap st (sender (w_ep w))) [] ps = Some (None, a') ->
  exists B', delivering B' (mine ++ [ps]) tl seen (mkSession (moved_to a' [] w) s' (msgs ++ [(raw, ppi)]) got).
Proof.
  intros Ho Hb Hsid Hm [D1 D2 D3 D4 D5 D6 D7 D8 D9 D10 D11 D12] Hahead Hne Hby Hz Hppi Hf Hfree E Es. cbn in *.
  destruct D7 as (T1 & T2 & T3). pose proof (tf_flight _ _ _ D1) as Hfl. pose proof (fl_send _ _ Hfl) as Hok.
  pose proof (cut_spells fuel s raw ppi _ fresh (length msgs) _ ltac:(lia) Hne Hz Hf T1 T2 T3 E) as Hsp. cbn in Hsp.
  destruct (packetize_message (sender (w_ep w)) fuel mps false s raw ppi fresh) as (ps' & st' & E' & _ & Hfm & Hsend & _); try done; [lia| |].
  { constructor; cbn; try done; [by rewrite T1|rewrite T3; apply u16_range]. }
  rewrite E in E'. simplify_eq. destruct (th_order _ _ _ D2) as (m0 & _ & _ & _ & _ & _ & Ep & _). rewrite Ep in Hfm.
  assert (Hm0 : fresh_message (sender (w_ep w)) st' (f_unordered (spec_of false s ppi)) ps').
  { apply Hfm. clear. revert m0. induction ps' as [|p ps IH]; intros m0; [done|]. split; [done|apply IH]. }
  pose proof (write_quiet _ _ _ _ Es) as Hq. pose proof Hq as [Q1 Q2 Q3 Q4 _ _ _]. cbn in Q1, Q2, Q3, Q4.
  pose proof (write_contents _ _ _ _ _ Hok Hm0 Hq) as Hc. set (a := sender (w_ep w)) in *.
  assert (Hst : sstep order a a') by (by eapply s_write). pose proof (sstep_ok order 0 a a' Ho Hfl Hst) as [Hfl' _].
  assert (Hqd : forall p, p ∈ queued a a' -> p ∈ ps').
  { intros p Hp. unfold queued in Hp. apply list_elem_of_filter in Hp as [Hn Hp]. rewrite Hc in Hp. apply elem_of_app in Hp as [?|?]; [done|done]. }
  assert (Hw : wstep order base zero w (moved_to a' [] w)).
  { destruct w as [e wr lg net h]. cbn in *. eapply (w_send _ _ _ e wr lg net h a' [] []); [done| |by left|done]. intros p c Hp Hpc. rewrite Q1 in Hpc. by eapply Hsend; [apply Hqd|]. }
  pose proof Hm0 as [F1 F2 F3 F4 F5 F6 F7].
  assert (Hfr : forall p, p ∈ ps' -> p ∉ concat (bk_ms B)).
  { intros p Hp Hin. pose proof (th_live _ _ _ D2) as Hl. rewrite Forall_forall in Hl. destruct (Hl p Hin) as [c Hpc]. by rewrite (F2 p Hp) in Hpc. }
  assert (Ht : threads (mkBook (bk_ms B ++ [ps']) (bk_out B) (bk_gone B) (note (heap a') ps' (bk_data B))) (w_log w) a').
  { apply (threads_grow B (w_log w) a a' (f_unordered (spec_of false s ppi)) ps'); try done; [apply Hfl'|by rewrite Q1|unfold deref; by rewrite Q1|unfold deref; by rewrite Q1, Q3]. }
  set (B' := mkBook _ _ _ _) in Ht. assert (He : extends B [ps'] B').
  { constructor; cbn; [done|exists []; by rewrite app_nil_r|]. apply map_subseteq_spec. intros p d Hd. rewrite note_lookup, bool_decide_eq_false_2; [done|].
    intros Hp. apply (Hfr p Hp), (th_dom _ _ _ D2). by eexists. }
  assert (Hent : entered a a' = []) by (apply (entered_none a a' []); by rewrite Q2).
  assert (Hall : all_spell sid B' (mine ++ [ps']) (msgs ++ [(raw, ppi)])).
  { destruct D6 as [Hl Ha]. split; [by rewrite !length_app, Hl|]. intros k m Hk. apply lookup_app_Some in Hk as [Hk|[Hge Hk]].
    - destruct (Ha k m Hk) as (msg & Hmsg & Hs). exists msg. split; [by apply lookup_app_l_Some|]. eapply spells_grow; [apply He|done].
    - apply list_lookup_singleton_Some in Hk as [Hk <-]. assert (k = length msgs) as -> by lia. exists (raw, ppi). split; [by rewrite lookup_app_r, Nat.sub_diag by lia|].
      cbn. rewrite Q1. apply Hsp. }
  exists B'. unfold moved_to. fold a. constructor; cbn; rewrite ?Hent, ?app_nil_r; try done.
  - pose proof (transfer_step order base zero w _ Ho Hb D1 Hw) as Htr. unfold moved_to in Htr. fold a in Htr. by rewrite Hent, !app_nil_r in Htr.
  - apply Forall_app. split; [eapply Forall_impl; [exact D3|]; intros m Hmm; apply elem_of_app; by left|]. apply Forall_singleton, elem_of_app. right. left.
  - rewrite concat_app. cbn. rewrite app_nil_r. apply NoDup_app. split_and!; [done| |done]. intros p Hp Hp'. apply (Hfr p Hp'). apply concat_elem in Hp as (m & Hmi & Hpm). rewrite Forall_forall in D3. by apply (elem_concat _ m); [apply D3|].
  - intros p d Hd Hs. rewrite concat_app. cbn. rewrite app_nil_r, elem_of_app. rewrite note_lookup in Hd. case_bool_decide as Hp; [by right|left; by eapply D5].
  - unfold counted. cbn. rewrite T2, andb_false_r, T3, length_app. cbn. split_and!; [done|done|]. go_lia.
  - rewrite take_app_le; [done|]. rewrite D8, length_take. lia.
  - rewrite length_app. cbn. lia.
  - intros k j. rewrite D11. split; intros (m & p & Hk & Hj & Hp); exists m, p; (split; [|done]).
    + by apply lookup_app_l_Some.
    + apply lookup_app_Some in Hk as [Hk|[_ Hk]]; [done|]. exfalso. apply list_lookup_singleton_Some in Hk as [_ <-]. apply (Hfr p); [by eapply list_elem_of_lookup_2|].
      rewrite <- (threads_split _ _ _ D2). apply elem_of_app. left. by eapply took_out.
  - by eapply (pictures_grow B [ps'] B').
Qed.

(** *** Receiving *)

Lemma handleChunk_data o pkt c (e : ep) r e' d :
  handleChunk o pkt c e = Some (r, e') -> k_body c = chunkPayloadData d ->
  exists f ps e0, handleData f (isIDataChunk c d) d e = Some (ps, e0) /\ streams e' = streams e0.
Proof.
  intros E Hd. unfold handleChunk, check, dispatch in E. rewrite Hd in E.
  match type of E with context [handleData ?f _ _ _] => destruct (handleData f (isIDataChunk c d) d e) as [[ps e0]|] eqn:E1; [exists f, ps, e0|done] end.
  split; [done|]. cbn in E. destruct ps; by simplify_eq.
Qed.

(** What a DATA chunk does to the queue of the stream. *)
Lemma queue_after o pkt c (b : ep) r b' d :
  recv_ok (rxQueue (rx b)) -> calm (rxQueue (rx b)) -> in_u 32 (tsn d) -> handleChunk o pkt c b = Some (r, b') -> k_body c = chunkPayloadData d ->
  (streams b' !! sid = None -> streams b !! sid = None /\ Forall (fun d => streamIdentifier d <> sid) (news c b)) ->
  queue_of sid b' = if takes (isIDataChunk c d) d b && (sid =? streamIdentifier d) then (pushWithError (queue_of sid b) d).2 else queue_of sid b.
Proof.
  intros Hok Hc Ht E Hd Hkeep. destruct (handleChunk_data o pkt c b r b' d E Hd) as (f & ps & e0 & E0 & Hs).
  destruct (handleData_spec f (isIDataChunk c d) d b Hok Hc Ht) as (ps' & e1 & n & E1 & _ & Hq). rewrite E0 in E1. simplify_eq. unfold queue_of at 1.
  destruct (streams b' !! sid) as [s'|] eqn:Eb; cbn.
  - rewrite Hs in Eb. by rewrite (Hq sid s' Eb).
  - destruct (Hkeep eq_refl) as [Hn Hf]. unfold queue_of. rewrite Hn. cbn. unfold news in Hf. rewrite Hd in Hf.
    destruct (takes _ d b); [|done]. apply Forall_inv in Hf. destruct (Z.eqb_spec sid (streamIdentifier d)) as [->|]; done.
Qed.

Lemma log_out B log (a : @association S Q) i d0 : threads B log a -> log !! i = Some d0 -> exists p, bk_out B !! i = Some p /\ bk_data B !! p = Some (TransferSpec.with_tsn 0 d0).
Proof. intros Ht Hi. destruct (Forall2_lookup_r _ _ _ _ _ (th_log _ _ _ Ht) Hi) as (p & ? & ?). by exists p. Qed.

(** A chunk of the stream is the fragment that the reader expects. *)
Lemma chunk_is_fragment B mine msgs log (a : @association S Q) wr i d0 p k j m :
  threads B log a -> outgoing base wr log a -> all_spell sid B mine msgs -> Forall (fun m => m ∈ bk_ms B) mine ->
  log !! i = Some d0 -> bk_out B !! i = Some p -> mine !! k = Some m -> m !! j = Some p ->
  omsg sid base B mine k !!! j = as_sent d0 /\ (j < length (omsg sid base B mine k))%nat.
Proof.
  intros Ht Hog [_ Ha] Hm Hi Hp Hk Hj. destruct (Ha k m Hk) as (msg & _ & [H1 H2 H3]). rewrite Forall_forall in Hm.
  assert (Hn : NoDup (bk_out B)) by (pose proof (threads_nodup _ _ _ Ht) as Hn; by apply NoDup_app in Hn as (? & _)).
  destruct (begun_at (bk_out B) m j p Hn) as [_ Hst]; [|done|by eapply list_elem_of_lookup_2|].
  { eapply threads_begun; [done|apply Hm; by eapply list_elem_of_lookup_2|]. intros x d Hx Hd. apply list_elem_of_lookup_1 in Hx as [i' Hi']. destruct (H3 i' x Hi') as (d' & Hd' & _ & _ & _ & _ & _ & Hne & _). congruence. }
  pose proof (NoDup_lookup _ _ _ _ Hn Hst Hp) as Ei. destruct (log_out _ _ _ _ _ Ht Hi) as (p' & Hp' & Hd0). rewrite Hp in Hp'. injection Hp' as <-.
  unfold omsg. rewrite Hk. unfold fragments_of. rewrite length_imap. split; [|by eapply lookup_lt_Some].
  apply list_lookup_total_correct. rewrite list_lookup_imap, Hj. cbn. unfold lookup_total, map_lookup_total. rewrite Hd0, Ei. cbn. f_equal.
  rewrite <- (lg_tsn _ _ _ (og_logged _ _ _ _ Hog) i d0 Hi). by destruct d0.
Qed.

Lemma delivering_receive B mine tl seen e wr lg net b tk sk s msgs got o raw pkt c r b' :
  SenderSpec.order_ok order -> in_u 32 base -> delivering B mine tl seen (mkSession (mkWorld e wr lg net (mkHist b tk sk)) s msgs got) ->
  raw ∈ net -> recvZeroChecksum (ext b) = zero -> packet_unmarshal (negb (recvZeroChecksum (ext b))) raw = Ok pkt -> c ∈ Packet.chunks pkt ->
  connected (getState b) = true -> calm (rxQueue (rx b)) -> reach base (peerLastTSN b) b -> handleChunk o pkt c b = Some (r, b') ->
  (streams b' !! sid = None -> streams b !! sid = None /\ Forall (fun d => streamIdentifier d <> sid) (news c b)) ->
  exists tl' seen', delivering B mine tl' seen' (mkSession (mkWorld e wr lg net (mkHist b' (tk ++ news c b) sk)) s msgs got).
Proof.
  intros Ho Hb [D1 D2 D3 D4 D5 D6 D7 D8 D9 D10 D11 D12] Hin Hze Hu Hc Hcon Hcalm Hre E Hkeep. cbn in *.
  assert (Hw : wstep order base zero (mkWorld e wr lg net (mkHist b tk sk)) (mkWorld e wr lg net (mkHist b' (tk ++ news c b) sk))) by (by eapply w_receive).
  pose proof (transfer_step order base zero _ _ Ho Hb D1 Hw) as Htr. destruct D1 as [_ Hog _ _ Hn Hrx _]. cbn in *.
  rewrite Forall_forall in Hn. destruct (Hn raw Hin) as (pkt' & Hu' & Hcs). rewrite Hze, Hu' in Hu. injection Hu as ->. rewrite Forall_forall in Hcs.
  destruct (Hcs c Hc) as (d0 & Hlog & Hd). pose proof (log_range _ _ _ (og_logged _ _ _ _ Hog)) as Hrange. rewrite Forall_forall in Hrange.
  pose proof (queue_after o pkt c b r b' (as_sent d0) (ri_ok _ _ Hrx) Hcalm (Hrange d0 Hlog) E Hd Hkeep) as Hq. cbn [streamIdentifier as_sent] in Hq.
  assert (Hnews : news c b = if takes (isIDataChunk c (as_sent d0)) (as_sent d0) b then [as_sent d0] else []) by (unfold news; by rewrite Hd).
  destruct (takes (isIDataChunk c (as_sent d0)) (as_sent d0) b) eqn:Etk; cbn [andb] in Hq.
  2: { exists tl, seen. rewrite Hnews, app_nil_r in *. by constructor; cbn; rewrite ?Hq. }
  apply list_elem_of_lookup_1 in Hlog as [i Hi]. destruct (log_out _ _ _ _ _ D2 Hi) as (p & Hp & Hdp).
  assert (Hnew : p ∉ tl).
  { intros [x Hx]%list_elem_of_lookup_1. destruct (Forall2_lookup_l _ _ _ _ _ D10 Hx) as (d & Hdx & i' & d' & Hi' & Hl' & ->).
    assert (i' = i) as -> by (pose proof (threads_nodup _ _ _ D2) as Hnn; apply NoDup_app in Hnn as (Hnn & _); by eapply NoDup_lookup). rewrite Hi in Hl'. injection Hl' as <-.
    pose proof (ri_once _ _ (tf_rx _ _ _ Htr)) as Hone. cbn in Hone. rewrite Hnews, map_app in Hone. apply NoDup_app in Hone as (_ & Hone & _).
    apply (Hone (tsn (as_sent d0))); [apply list_elem_of_fmap; exists (as_sent d0); split; [done|by eapply list_elem_of_lookup_2]|left]. }
  assert (Htook : took B lg (tl ++ [p]) (tk ++ news c b)) by (rewrite Hnews; apply Forall2_app; [done|]; constructor; [by exists i, d0|constructor]).
  assert (Hon : forall k m j, mine !! k = Some m -> m !! j = Some p -> streamIdentifier d0 = sid).
  { intros k m j Hk Hj. destruct D6 as [_ Ha]. destruct (Ha k m Hk) as (msg & _ & [_ _ H3]). destruct (H3 j p Hj) as (d & Hd' & Hs & _). rewrite Hdp in Hd'. by injection Hd' as <-. }
  destruct (Z.eqb_spec sid (streamIdentifier d0)) as [Es|Es].
  2: { exists (tl ++ [p]), seen. constructor; cbn; rewrite ?Hq; try done. intros k j. rewrite D11. split; intros (m & x & Hk & Hj & Hx); exists m, x; (split_and!; [done|done|]).
       - apply elem_of_app. by left.
       - apply elem_of_app in Hx as [?| ->%list_elem_of_singleton]; [done|]. exfalso. apply Es. symmetry. by eapply Hon. }
  destruct (concat_elem mine p) as (m & Hm & Hpm); [by eapply D5|]. apply list_elem_of_lookup_1 in Hm as [k Hk], Hpm as [j Hj].
  destruct (chunk_is_fragment B mine msgs lg (sender e) wr i d0 p k j m D2 Hog D6 D3 Hi Hp Hk Hj) as [Hfrag Hlt].
  assert (Huniq : forall k' m' j', mine !! k' = Some m' -> m' !! j' = Some p -> k' = k /\ j' = j) by (intros k' m' j' Hk' Hj'; by eapply concat_unique).
  exists (tl ++ [p]), (seen ∪ {[(k, j)]}). constructor; cbn; try done.
  - intros k' j'. rewrite elem_of_union, elem_of_singleton, D11. split.
    + intros [(m' & x & Hk' & Hj' & Hx)|[= -> ->]]; [exists m', x|exists m, p]; (split_and!; [done|done|]); apply elem_of_app; [by left|right; left].
    + intros (m' & x & Hk' & Hj' & [Hx|Hx%list_elem_of_singleton]%elem_of_app); [left; by exists m', x|]. subst x. right. destruct (Huniq k' m' j' Hk' Hj') as [-> ->]. done.
  - rewrite Hq. destruct (step_arrive _ _ _ _ _ _ _ _ _ (mine_sender sid base B mine msgs D6) (mkReceiver (length got) seen ∅ []) (queue_of sid b) k j D12) as [_ Hr].
    + split; [done|]. split; [|cbn; apply lookup_lt_Some in Hk; destruct D6 as [Hl _]; lia].
      cbn. intros (m' & x & Hk' & Hj' & Hx)%D11. rewrite Hk in Hk'. injection Hk' as <-. rewrite Hj in Hj'. by injection Hj' as <-.
    + cbn in Hr. unfold Reassembly.push in Hr. rewrite Hfrag in Hr. unfold pictures. by destruct (pushWithError (queue_of sid b) (as_sent d0)) as [[? ?] ?].
Qed.

(** *** Reading *)

Lemma omsg_data B mine msgs k msg : all_spell sid B mine msgs -> msgs !! k = Some msg -> concat (map userData (omsg sid base B mine k)) = msg.1.
Proof.
  intros [Hl Ha] Hk. destruct (lookup_lt_is_Some_2 mine k) as [m Hm]; [rewrite Hl; by eapply lookup_lt_Some|]. destruct (Ha k m Hm) as (msg' & Hk' & [_ H2 _]).
  rewrite Hk in Hk'. injection Hk' as <-. unfold omsg. rewrite Hm, <- H2. f_equal. unfold fragments_of. apply list_eq. intros j.
  change (map ?g ?l) with (g <$> l). rewrite !list_lookup_fmap, list_lookup_imap. by destruct (m !! j).
Qed.

Lemma read_next B mine msgs n seen s0 buf x closed s1 :
  all_spell sid B mine msgs -> (forall k j, (k, j) ∈ seen -> (k < length msgs)%nat) ->
  pictures sid base B mine msgs n seen (s_reassemblyQueue s0) -> ReadSCTP s0 buf = (x, closed, s1) ->
  taken x = match msgs !! n with
            | Some m => if full (omsg sid base B mine) (mkReceiver n seen ∅ []) n && (zlen m.1 <=? zlen buf) then [m] else []
            | None => []
            end
  /\ pictures sid base B mine msgs (n + length (taken x)) seen (s_reassemblyQueue s1).
Proof.
  intros Ha Hseen Hr E. pose proof (mine_sender sid base B mine msgs Ha) as Hso.
  destruct (step_read _ _ _ _ _ _ _ _ _ Hso (mkReceiver n seen ∅ []) (s_reassemblyQueue s0) buf Hr) as [Eo Hr'].
  assert (Hf : full (omsg sid base B mine) (mkReceiver n seen ∅ []) n = true -> (n < length msgs)%nat).
  { intros Hf. apply (Hseen n 0%nat). apply (proj1 (full_spec _ _ n) Hf 0%nat). by eapply omsg_pos. }
  unfold cstep, astep in Eo, Hr'. cbn in Eo, Hr'. unfold ReadSCTP in E. destruct (Reassembly.read (s_reassemblyQueue s0) buf) as [y q]. cbn in Eo, Hr'.
  assert (Hdrop : forall s2 : Stream, s_reassemblyQueue (dropDeadline s2).2 = s_reassemblyQueue s2) by (intros s2; unfold dropDeadline; by destruct (s_readTimeoutCancel s2), (s_readErr s2)).
  destruct (full (omsg sid base B mine) (mkReceiver n seen ∅ []) n) eqn:Ef.
  - destruct (lookup_lt_is_Some_2 msgs n (Hf eq_refl)) as [m Hm]. assert (Hd : concat (map userData (omsg sid base B mine n)) = m.1) by (by eapply omsg_data).
    assert (Ht : ReassemblySpec.total (omsg sid base B mine n) = zlen m.1) by (by rewrite total_concat, Hd). rewrite Hm. cbn [andb].
    unfold handed in Eo. rewrite Ht, Hd in Eo. rewrite Ht in Hr'. assert (Hp : oppi msgs n = m.2) by (unfold oppi; by rewrite Hm). rewrite Hp in Eo.
    injection Eo as Eo. unfold observe in Eo. destruct (Z.ltb_spec (zlen buf) (zlen m.1)) as [Hs|Hs].
    + injection Eo as _ _ He _. rewrite He in E. rewrite (proj2 (Z.leb_gt _ _)) by lia. pose proof (Hdrop (with_queue s0 q)) as Hdq. destruct (dropDeadline _) as [cl s2].
      injection E as <- _ <-. cbn in *. split; [done|]. rewrite Nat.add_0_r, Hdq. exact Hr'.
    + destruct (r_err y) as [?|] eqn:He; [by injection Eo|]. injection Eo as E1 E2 E3. rewrite (proj2 (Z.leb_le _ _)) by lia.
      pose proof (Hdrop (with_queue s0 q)) as Hdq. destruct (dropDeadline _) as [cl s2]. injection E as <- _ <-. cbn in *. rewrite E2.
      assert (Ems : [(take (Z.to_nat (r_n y)) (r_buf y), m.2)] = [m]) by (rewrite E3; by destruct m). split; [done|]. rewrite Nat.add_1_r, Hdq. exact Hr'.
  - unfold observe in Eo. injection Eo as _ _ He _. rewrite He in E. pose proof (Hdrop (with_queue s0 q)) as Hdq.
    assert (Htk : taken x = [] /\ s_reassemblyQueue s1 = q) by (cbn in E; destruct (s_readErr s0); [destruct (dropDeadline _) as [cl s2]; by simplify_eq|by simplify_eq]).
    destruct Htk as [-> ->]. cbn. split; [by destruct (msgs !! n)|]. rewrite Nat.add_0_r. exact Hr'.
Qed.

Lemma seen_bound (mine : list (list loc)) (tl : list loc) (seen : gset (nat * nat)) (msgs : list (list Z * Z)) k j :
  length mine = length msgs -> (forall k j, (k, j) ∈ seen <-> exists m p, mine !! k = Some m /\ m !! j = Some p /\ p ∈ tl) ->
  (k, j) ∈ seen -> (k < length msgs)%nat.
Proof. intros Hl Hs (m & p & Hk & _)%Hs. rewrite <- Hl. by eapply lookup_lt_Some. Qed.

Lemma delivering_read B mine tl seen e wr lg net b tk sk s msgs got s0 buf x closed s1 :
  SenderSpec.order_ok order -> in_u 32 base -> delivering B mine tl seen (mkSession (mkWorld e wr lg net (mkHist b tk sk)) s msgs got) ->
  streams b !! sid = Some s0 -> ReadSCTP s0 buf = (x, closed, s1) ->
  delivering B mine tl seen (mkSession (mkWorld e wr lg net (mkHist (put_streams (<[sid := s1]> (streams b)) b) tk sk)) s msgs (got ++ taken x)).
Proof.
  intros Ho Hb [D1 D2 D3 D4 D5 D6 D7 D8 D9 D10 D11 D12] Hs0 E. cbn in *.
  assert (Hq : queue_of sid b = s_reassemblyQueue s0) by (unfold queue_of; by rewrite Hs0). rewrite Hq in D12.
  destruct (read_next B mine msgs (length got) seen s0 buf x closed s1 D6) as [Hx Hp]; [intros k j; eapply seen_bound; [apply D6|done]|done|done|].
  assert (Hxt : taken x = [] \/ exists m, taken x = [m] /\ msgs !! length got = Some m).
  { rewrite Hx. destruct (msgs !! length got) as [m|]; [|by left]. destruct (_ && _); [right; by exists m|by left]. }
  constructor; cbn; try done.
  - eapply (transfer_step order base zero); [done|done|exact D1|]. apply w_rx; [|done]. apply rx_local. by left.
  - rewrite length_app. destruct Hxt as [-> |(m & -> & Hm)]; cbn; [by rewrite app_nil_r, Nat.add_0_r|]. rewrite Nat.add_1_r, (take_S_r _ _ _ Hm). by f_equal.
  - rewrite length_app. lia.
  - rewrite length_app. assert (Hq' : queue_of sid (put_streams (<[sid := s1]> (streams b)) b) = s_reassemblyQueue s1).
    { unfold queue_of, put_streams, streams. cbn. by rewrite lookup_insert_eq. }
    by rewrite Hq'.
Qed.

Lemma delivering_step B mine tl seen ss ss' :
  SenderSpec.order_ok order -> in_u 32 base -> in_u 16 sid -> 0 < mps <= largest -> delivering B mine tl seen ss -> dstep ss ss' ->
  exists B' mine' tl' seen', delivering B' mine' tl' seen' ss'.
Proof.
  intros Ho Hb Hsid Hm Hd Hst. destruct Hst.
  - edestruct delivering_write as (B' & Hd'); [exact Ho|exact Hb|exact Hsid|exact Hm|exact Hd|eassumption..|]. by exists B', (mine ++ [ps]), tl, seen.
  - edestruct delivering_send as (B' & Hd'); [exact Ho|exact Hb|exact Hd|eassumption..|]. by exists B', mine, tl, seen.
  - edestruct delivering_receive as (tl' & seen' & Hd'); [exact Ho|exact Hb|exact Hd|eassumption..|]. by exists B, mine, tl', seen'.
  - exists B, mine, tl, seen. by eapply delivering_read.
  - exists B, mine, tl, seen. destruct Hd as [D1 D2 D3 D4 D5 D6 D7 D8 D9 D10 D11 D12]. cbn in *. constructor; cbn; try done.
    + eapply (transfer_step order base zero); [done|done|exact D1|]. by apply w_rx.
    + congruence.
    + congruence.
Qed.

Lemma delivering_rtc B mine tl seen ss ss' :
  SenderSpec.order_ok order -> in_u 32 base -> in_u 16 sid -> 0 < mps <= largest -> delivering B mine tl seen ss -> rtc dstep ss ss' ->
  exists B' mine' tl' seen', delivering B' mine' tl' seen' ss'.
Proof.
  intros Ho Hb Hsid Hm Hd Hr. revert B mine tl seen Hd. induction Hr as [|x y z Hxy _ IH]; intros B mine tl seen Hd; [by exists B, mine, tl, seen|].
  destruct (delivering_step B mine tl seen x y Ho Hb Hsid Hm Hd Hxy) as (B' & mine' & tl' & seen' & Hd'). by eapply IH.
Qed.

End Sessions.

Section Start.
Context {S : Type} `{SL : StreamSchedulerLaws S} `{SF : SchedulerFactory S} {Q : Type} `{QL : QueueLaws loc Q}.

(** Two connected ends; the stream has not been used. *)
Definition new_session (n : @network S Q) (sid : Z) : session := mkSession (connected_world n) (newStream sid) [] [].

Lemma session_start a b (n : @network S Q) sid :
  party_ok a -> party_ok b -> rtc nstep (connecting a b) n -> getState (nA n) = established -> useInterleaving (ext (nA n)) = false ->
  in_u 32 (peerLastTSN (nB n))
  /\ delivering (peerLastTSN (nB n)) (recvZeroChecksum (ext (nB n))) sid (mkBook [] [] [] ∅) [] [] ∅ (new_session n sid).
Proof.
  intros Ha Hb Hr Hs Hi. destruct (connected_transfer a b n Ha Hb Hr Hs) as [Hu Ht]. split; [done|].
  assert (Hpa : profile_ok (party_profile a)) by (by apply profile_of_ok; apply Ha). assert (Hpb : profile_ok (party_profile b)) by (by apply profile_of_ok; apply Hb).
  destruct (shaking_rtc _ _ _ _ Hpa Hpb (connecting_shaking a b Ha Hb) Hr) as [HA HB].
  pose proof (hf_base _ _ _ _ _ HA) as BA. pose proof (hf_base _ _ _ _ _ HB) as BB. destruct (base_ready _ _ BA Hpa) as [_ _ _ [Hc _]].
  assert (Hp : policy (pendingQueue (sender (nA n))) = MessagePolicy Message.newMessagePendingQueuePolicy).
  { pose proof (b_fresh _ _ BA) as Hf. unfold HandshakeSpec.fresh in Hf. by rewrite (b_mode _ _ BA), Hi in Hf. }
  destruct (b_idle _ _ BB) as (_ & _ & _ & _ & Hst).
  constructor; cbn; try done.
  - constructor; cbn; try done; [apply NoDup_nil_2| |by rewrite Hc; intros p ?%elem_of_nil|by intros p ?%elem_of_nil|].
    + exists Message.newMessagePendingQueuePolicy, [], [], (fun _ => []), [], []. split_and!; [done| |constructor|done|done]. constructor; try done. by intros [].
    + intros p. rewrite lookup_empty, elem_of_nil. split; [by intros [? ?]|done].
  - apply NoDup_nil_2.
  - constructor.
  - intros k j. split; [by intros ?%not_elem_of_empty|]. by intros (m & p & Hk & _).
  - unfold queue_of, streams. rewrite Hst. cbn. apply represents_new.
Qed.

(** Everything sent and acknowledged has been put together. *)
Lemma acknowledged_read base zero sid B mine tl seen (ss : @session S Q) m s0 buf x closed s1 :
  in_u 32 base -> delivering base zero sid B mine tl seen ss ->
  let w := ss_world ss in let h := w_hist w in
  contents (pendingQueue (sender (w_ep w))) = [] -> h_skips h = [] -> Z.of_nat (length (w_log w)) < 2 ^ 32 ->
  (forall d, d ∈ w_log w -> acknowledged_tsn base (rxQueue (rx (h_ep h))) (tsn d)) ->
  ss_msgs ss !! length (ss_got ss) = Some m -> streams (h_ep h) !! sid = Some s0 -> zlen m.1 <= zlen buf ->
  ReadSCTP s0 buf = (x, closed, s1) -> taken x = [m].
Proof.
  intros Hb [D1 D2 D3 D4 D5 D6 D7 D8 D9 D10 D11 D12] w h Hc Hsk Hlen Hack Hm Hs0 Hbuf E. fold w in D1, D2, D10, D12. fold h in D10, D12.
  assert (Hq : queue_of sid (h_ep h) = s_reassemblyQueue s0) by (unfold queue_of; by rewrite Hs0). rewrite Hq in D12.
  destruct (read_next base sid B mine (ss_msgs ss) (length (ss_got ss)) seen s0 buf x closed s1 D6) as [Hx _]; [intros k j; eapply seen_bound; [apply D6|done]|done|done|].
  rewrite Hx, Hm. rewrite (proj2 (Z.leb_le _ _)) by done. rewrite andb_true_r. rewrite (proj2 (full_spec _ _ _)); [done|]. intros j Hj. cbn. apply D11.
  pose proof D6 as [Hl Ha]. destruct (lookup_lt_is_Some_2 mine (length (ss_got ss))) as [l Hml]; [rewrite Hl; by eapply lookup_lt_Some|].
  destruct (Ha _ _ Hml) as (msg & _ & [_ _ H3]). unfold omsg in Hj. rewrite Hml in Hj. unfold fragments_of in Hj. rewrite length_imap in Hj.
  destruct (lookup_lt_is_Some_2 l j Hj) as [p Hp]. exists l, p. split_and!; [done|done|]. destruct (H3 j p Hp) as (d & Hd & _ & _ & _ & _ & _ & Hne & _).
  assert (Hin : p ∈ bk_out B).
  { assert (Hms : p ∈ concat (bk_ms B)) by (apply (th_dom _ _ _ D2); by eexists). rewrite <- (threads_split _ _ _ D2), Hc, app_nil_r in Hms.
    apply elem_of_app in Hms as [?|Hg]; [done|]. destruct (th_gone _ _ _ D2 p Hg) as (d' & Hd' & Hz). congruence. }
  apply list_elem_of_lookup_1 in Hin as [i Hi]. destruct (Forall2_lookup_l _ _ _ _ _ (th_log _ _ _ D2) Hi) as (d0 & Hi0 & _).
  assert (Hin0 : d0 ∈ w_log w) by (by eapply list_elem_of_lookup_2). pose proof (proj1 (log_taken base zero w d0 Hb D1 Hlen Hin0) (Hack d0 Hin0)) as [Htk|(t & Ht & _)].
  2: { fold h in Ht. rewrite Hsk in Ht. by apply elem_of_nil in Ht. }
  fold h in Htk. apply list_elem_of_lookup_1 in Htk as [y Hy]. destruct (Forall2_lookup_r _ _ _ _ _ D10 Hy) as (p' & Hp' & i' & d' & Hi' & Hl' & Ed).
  assert (i' = i) as ->.
  { pose proof (og_logged _ _ _ _ (tf_out _ _ _ D1)) as L. apply (f_equal tsn) in Ed. cbn in Ed. rewrite (lg_tsn _ _ _ L i d0 Hi0), (lg_tsn _ _ _ L i' d' Hl') in Ed.
    apply lookup_lt_Some in Hi0, Hl'. go_lia. }
  rewrite Hi in Hi'. injection Hi' as <-. by eapply list_elem_of_lookup_2.
Qed.

End Start.


Module StreamExample.
Import ShakeExample ReadyExample CrossExample.

Abbreviation session_ := (@session Builtin.scheduler (RingQueue.queue loc)).

Abbreviation base_ := (peerLastTSN (nB up_)).

Abbreviation zero_ := (recvZeroChecksum (ext (nB up_))).

Abbreviation dstep_ := (dstep visit base_ zero_ 3 2).

(** The message is written. *)
Definition tx1 : Stream := match cut_ with Some (_, _, _, _, s) => s | None => newStream 3 end.

Definition s1 : session_ := mkSession (moved_to a1 [] (connected_world up_)) tx1 ([] ++ [([1; 2; 3], 51)]) [].

Lemma s1_step : dstep_ (new_session up_ 3) s1.
Proof.
  assert (Ok : exists u f, cut_ = Some ([1; 2]%positive, u, heap1, f, tx1)) by (unfold heap1, tx1; vm_compute; eexists _, _; reflexivity).
  destruct Ok as (u & f & E). unfold cut_ in E.
  assert (Ok : match sendPayloadData (set_heap heap1 (sender e0)) [] [1; 2]%positive with Some (None, _) => True | _ => False end) by (vm_compute; exact I).
  unfold new_session, s1. apply d_write with (fuel := 3%nat) (fresh := 1%positive) (ps := [1; 2]%positive) (u := u) (st := heap1) (fresh' := f).
  - vm_compute. reflexivity.
  - discriminate.
  - apply byte_list. reflexivity.
  - reflexivity.
  - split; [discriminate|reflexivity].
  - apply le_n.
  - intros p _. change (heap (sender (w_ep (connected_world up_)))) with (heap (sender e0)). rewrite heap_empty. reflexivity.
  - exact E.
  - unfold a1. change (sender (w_ep (connected_world up_))) with (sender e0). destruct (sendPayloadData _ _ _) as [[[x|] a']|]; [destruct Ok|reflexivity|destruct Ok].
Qed.

(** It is sent. *)
Definition s2 : session_ := mkSession w2 tx1 ([] ++ [([1; 2; 3], 51)]) [].

Lemma s2_step : dstep_ s1 s2.
Proof.
  unfold s1, s2. change (moved_to a1 [] (connected_world up_)) with w1. apply d_send; [exact w2_step|reflexivity|].
  change (sender (w_ep w1)) with a1. change (sender (w_ep w2)) with a2. assert (Eq : queued a1 a2 = []) by (vm_compute; reflexivity).
  rewrite Eq. intros p Hp. destruct (not_elem_of_nil p Hp).
Qed.

(** The second fragment arrives before the first. *)
Definition first_ : chunk := default (new_chunk chunkCookieAck) (Packet.chunks pkt_ !! 0%nat).

Definition hear_ (c : chunk) (b : @endpoint Builtin.scheduler (RingQueue.queue loc)) := from_option snd b (handleChunk some_oracle pkt_ c b).

Definition b1 := hear_ chunk_ (nB up_).

Definition b2 := hear_ first_ b1.

Definition tk1 := [] ++ news chunk_ (nB up_).

Definition tk2 := tk1 ++ news first_ b1.

Definition at_ b tk got : session_ := mkSession (mkWorld e2 wr2 lg2 (([] ++ []) ++ raws_) (mkHist b tk [])) tx1 ([] ++ [([1; 2; 3], 51)]) got.

Lemma hear_step c b tk :
  raws_ = [raw_] -> recvZeroChecksum (ext b) = zero_ -> packet_unmarshal (negb (recvZeroChecksum (ext b))) raw_ = Ok pkt_ -> c ∈ Packet.chunks pkt_ ->
  connected (getState b) = true -> calm (rxQueue (rx b)) -> reach base_ (peerLastTSN b) b -> is_Some (handleChunk some_oracle pkt_ c b) ->
  is_Some (streams (hear_ c b) !! 3) -> dstep_ (at_ b tk []) (at_ (hear_ c b) (tk ++ news c b) []).
Proof.
  intros Hr H1 H2 H3 H4 H5 H6 [[r b'] E] [s0 Hs]. unfold at_. apply d_receive with (o := some_oracle) (raw := raw_) (pkt := pkt_) (r := r); try assumption.
  - rewrite Hr. left.
  - unfold hear_. rewrite E. reflexivity.
  - rewrite Hs. discriminate.
Qed.

Lemma s3_step : dstep_ s2 (at_ b1 tk1 []).
Proof.
  change s2 with (at_ (nB up_) [] []). unfold b1, tk1. apply hear_step.
  - vm_compute. reflexivity.
  - reflexivity.
  - vm_compute. reflexivity.
  - apply (list_elem_of_lookup_2 _ 1%nat). vm_compute. reflexivity.
  - vm_compute. reflexivity.
  - left. vm_compute. reflexivity.
  - vm_compute. reflexivity.
  - vm_compute. eexists. reflexivity.
  - vm_compute. eexists. reflexivity.
Qed.

Lemma s4_step : dstep_ (at_ b1 tk1 []) (at_ b2 tk2 []).
Proof.
  unfold b2, tk2. apply hear_step.
  - vm_compute. reflexivity.
  - vm_compute. reflexivity.
  - vm_compute. reflexivity.
  - apply (list_elem_of_lookup_2 _ 0%nat). vm_compute. reflexivity.
  - vm_compute. reflexivity.
  - left. vm_compute. reflexivity.
  - vm_compute. reflexivity.
  - vm_compute. eexists. reflexivity.
  - vm_compute. eexists. reflexivity.
Qed.

Definition buf_ : list Z := [0; 0; 0; 0].

Definition stream_ : Stream := default (newStream 3) (streams b2 !! 3).

Lemma s5_step : dstep_ (at_ b2 tk2 []) (at_ (put_streams (<[3 := (ReadSCTP stream_ buf_).2]> (streams b2)) b2) tk2 ([] ++ taken (ReadSCTP stream_ buf_).1.1)).
Proof.
  assert (Hs : streams b2 !! 3 = Some stream_) by (vm_compute; reflexivity). unfold at_.
  apply d_read with (s0 := stream_) (buf := buf_) (x := (ReadSCTP stream_ buf_).1.1) (closed := (ReadSCTP stream_ buf_).1.2); [exact Hs|].
  destruct (ReadSCTP stream_ buf_) as [[x closed] s]. reflexivity.
Qed.


End StreamExample.
