(* ===== verification/TimerLoop.v ===== *)
(** * The deadlines of RACK and of the tail loss probe (association.go)

    [timerLoop] with the goroutines that move its deadlines, the runtime timer
    it sleeps on and the clock, as the interleavings of their steps.  A timer
    that expires sends to its channel some time later, so a stopped timer may
    still wake the loop. *)

From S2P Require Import Prelude.
From S2P Require Import Sender.
From S2P Require Import Handshake.

Local Open Scope Z_scope.

(** ** State *)

Inductive alarm := Rack | PTO.

(** What has happened to the deadlines, in the order of [timerMu]: a fire
    carries the deadline that was due and the time the loop read. *)
Inductive event := Start (k : alarm) (deadline : Z) | Stop (k : alarm) | Fire (k : alarm) (deadline now : Z).

(** Where the loop is. *)
Inductive pc :=
  | LTop                           (* about to lock [timerMu] *)
  | LArm (rackDl ptoDl : Z)        (* has read the deadlines *)
  | LSelect
  | LNow (currTime : Z)            (* the timer fired; has read the clock *)
  | LCall (fireRack firePTO : bool)   (* [timerMu] is unlocked; callbacks to come *)
  | LExit.

Record loop := mkLoop {
  clock : Z;
  rackDl : Z;              (* 0 for the zero time *)
  ptoDl : Z;
  pokes : nat;             (* calls of start and stop that have not poked yet *)
  update : bool;           (* [timerUpdateCh], of capacity 1 *)
  closing : bool;          (* [closeWriteLoopCh] is closed *)
  timer : option Z;        (* when the runtime timer expires, if it runs *)
  sending : nat;           (* expiries that have not sent yet *)
  tick : bool;             (* [timer.C], of capacity 1 *)
  armed : bool;
  at_ : pc;
  log : list event;        (* ghost *)
  calls : list alarm       (* ghost: the callbacks run *)
}.

Definition deadline (k : alarm) (s : loop) : Z := match k with Rack => rackDl s | PTO => ptoDl s end.

Definition at_pc (p : pc) (s : loop) : loop :=
  mkLoop (clock s) (rackDl s) (ptoDl s) (pokes s) (update s) (closing s) (timer s) (sending s) (tick s) (armed s) p (log s) (calls s).

(** ** Operations *)

Definition set_deadline (k : alarm) (d : Z) (e : event) (s : loop) : loop :=
  mkLoop (clock s) (match k with Rack => d | PTO => rackDl s end) (match k with Rack => ptoDl s | PTO => d end)
    (Datatypes.S (pokes s)) (update s) (closing s) (timer s) (sending s) (tick s) (armed s) (at_ s) (log s ++ [e]) (calls s).

(** [startRackTimer], [startPTOTimer] up to their call of [pokeTimerLoop]. *)
Definition start_deadline (k : alarm) (dur : Z) (s : loop) : loop :=
  if dur <=? 0 then set_deadline k 0 (Stop k) s else set_deadline k (clock s + dur) (Start k (clock s + dur)) s.

(** [stopRackTimer], [stopPTOTimer]. *)
Definition stop_deadline (k : alarm) (s : loop) : loop := set_deadline k 0 (Stop k) s.

(** [pokeTimerLoop]: a full channel keeps the value it has. *)
Definition pokeTimerLoop (s : loop) : loop :=
  mkLoop (clock s) (rackDl s) (ptoDl s) (Nat.pred (pokes s)) true (closing s) (timer s) (sending s) (tick s) (armed s) (at_ s) (log s) (calls s).

(** [drainTimer]: [Stop] reports whether the timer was running. *)
Definition drainTimer (t : option Z) (tick : bool) : option Z * bool :=
  match t with Some _ => (None, tick) | None => (None, false) end.

Definition with_timer (t : option Z) (c a : bool) (s : loop) : loop :=
  mkLoop (clock s) (rackDl s) (ptoDl s) (pokes s) (update s) (closing s) t (sending s) c a (at_ s) (log s) (calls s).

(** The earliest deadline that is set, 0 for none. *)
Definition earliest (r p : Z) : Z := if r =? 0 then p else if p =? 0 then r else if r <? p then r else p.

(** The timer is armed for the deadlines that were read, or stopped. *)
Definition arm (r p : Z) (s : loop) : loop :=
  let next := earliest r p in
  let (t, c) := if armed s then drainTimer (timer s) (tick s) else (timer s, tick s) in
  if next =? 0 then with_timer t c false s
  else
    let d := next - clock s in
    with_timer (Some (clock s + (if d <=? 0 then 1 else d))) c true s.

(** The deadlines that are due at [currTime] are cleared. *)
Definition due (currTime d : Z) : bool := negb (d =? 0) && (d <=? currTime).

Definition note_fire (k : alarm) (currTime d : Z) (es : list event) : list event :=
  if due currTime d then es ++ [Fire k d currTime] else es.

Definition snapshot (currTime : Z) (s : loop) : loop :=
  let fr := due currTime (rackDl s) in
  let fp := due currTime (ptoDl s) in
  mkLoop (clock s) (if fr then 0 else rackDl s) (if fp then 0 else ptoDl s) (pokes s) (update s) (closing s) (timer s)
    (sending s) (tick s) (armed s) (LCall fr fp)
    (note_fire PTO currTime (ptoDl s) (note_fire Rack currTime (rackDl s) (log s))) (calls s).

Definition set_update (s : loop) : loop :=
  mkLoop (clock s) (rackDl s) (ptoDl s) (pokes s) false (closing s) (timer s) (sending s) (tick s) (armed s) LTop (log s) (calls s).

Definition called (k : alarm) (p : pc) (s : loop) : loop :=
  mkLoop (clock s) (rackDl s) (ptoDl s) (pokes s) (update s) (closing s) (timer s) (sending s) (tick s) (armed s) p (log s) (calls s ++ [k]).

Definition set_clock (t : Z) (s : loop) : loop :=
  mkLoop t (rackDl s) (ptoDl s) (pokes s) (update s) (closing s) (timer s) (sending s) (tick s) (armed s) (at_ s) (log s) (calls s).

Definition set_closing (s : loop) : loop :=
  mkLoop (clock s) (rackDl s) (ptoDl s) (pokes s) (update s) true (timer s) (sending s) (tick s) (armed s) (at_ s) (log s) (calls s).

(** The runtime: the timer expires, then sends. *)
Definition expire (s : loop) : loop :=
  mkLoop (clock s) (rackDl s) (ptoDl s) (pokes s) (update s) (closing s) None (Datatypes.S (sending s)) (tick s) (armed s) (at_ s) (log s) (calls s).

Definition send_tick (s : loop) : loop :=
  mkLoop (clock s) (rackDl s) (ptoDl s) (pokes s) (update s) (closing s) (timer s) (Nat.pred (sending s)) true (armed s) (at_ s) (log s) (calls s).

(** ** Steps *)

(** The loop. *)
Inductive lstep (s : loop) : loop -> Prop :=
  | l_read : at_ s = LTop -> lstep s (at_pc (LArm (rackDl s) (ptoDl s)) s)
  | l_arm r p : at_ s = LArm r p -> lstep s (at_pc LSelect (arm r p s))
  | l_update : at_ s = LSelect -> update s = true -> lstep s (set_update s)
  | l_tick : at_ s = LSelect -> tick s = true -> lstep s (at_pc (LNow (clock s)) (with_timer (timer s) false false s))
  | l_close : at_ s = LSelect -> closing s = true ->
      lstep s (at_pc LExit (let (t, c) := if armed s then drainTimer (timer s) (tick s) else (timer s, tick s) in with_timer t c (armed s) s))
  | l_snapshot t : at_ s = LNow t -> lstep s (snapshot t s)
  | l_rack fp : at_ s = LCall true fp -> lstep s (called Rack (LCall false fp) s)
  | l_pto : at_ s = LCall false true -> lstep s (called PTO (LCall false false) s)
  | l_again : at_ s = LCall false false -> lstep s (at_pc LTop s).

(** The loop, the runtime, the clock, and calls that have yet to poke. *)
Inductive qstep (s : loop) : loop -> Prop :=
  | q_loop s' : lstep s s' -> qstep s s'
  | q_poke n : pokes s = Datatypes.S n -> qstep s (pokeTimerLoop s)
  | q_clock t : clock s <= t -> qstep s (set_clock t s)
  | q_expire t : timer s = Some t -> t <= clock s -> qstep s (expire s)
  | q_send n : sending s = Datatypes.S n -> qstep s (send_tick s).

Inductive tstep (s : loop) : loop -> Prop :=
  | t_quiet s' : qstep s s' -> tstep s s'
  | t_start k dur : tstep s (start_deadline k dur s)
  | t_stop k : tstep s (stop_deadline k s)
  | t_close : tstep s (set_closing s).

(** [timerLoop] begins with a stopped timer. *)
Definition newLoop (now : Z) : loop := mkLoop now 0 0 0 false false None 0 false false LTop [] [].

(** ** What the loop promises *)

#[global] Instance alarm_eq_dec : EqDecision alarm.
Proof. solve_decision. Defined.

(** The deadline that is set after some events. *)
Definition update_deadline (k : alarm) (d : Z) (e : event) : Z :=
  match e with
  | Start k' d' => if decide (k = k') then d' else d
  | Stop k' | Fire k' _ _ => if decide (k = k') then 0 else d
  end.

Definition current (k : alarm) (es : list event) : Z := fold_left (update_deadline k) es 0.
#[global] Arguments current : simpl never.

(** An alarm clock: only a deadline that is set, and due, fires. *)
Definition rings_right (es : list event) : Prop :=
  forall i k d t, es !! i = Some (Fire k d t) -> d <> 0 /\ d = current k (take i es) /\ d <= t.

Definition is_fire (k : alarm) (e : event) : bool := match e with Fire k' _ _ => bool_decide (k' = k) | _ => false end.

Definition fires_of (k : alarm) (es : list event) : list event := filter (is_fire k) es.
#[global] Arguments fires_of : simpl never.

(** Callbacks that are due but not run yet. *)
Definition owed (k : alarm) (p : pc) : nat :=
  match p with LCall fr fp => Nat.b2n (match k with Rack => fr | PTO => fp end) | _ => 0%nat end.

Abbreviation next s := (earliest (rackDl s) (ptoDl s)).

(** Something is going to make the loop read the deadlines again. *)
Definition told (s : loop) : Prop := (0 < pokes s)%nat \/ update s = true.

Definition roused (s : loop) : Prop :=
  tick s = true \/ (0 < sending s)%nat \/ exists t, timer s = Some t /\ t <= Z.max (next s) (clock s + 1).

Definition watched (s : loop) : Prop :=
  match at_ s with
  | LArm r p => told s \/ (r = rackDl s /\ p = ptoDl s)
  | LSelect => told s \/ next s = 0 \/ roused s
  | _ => True
  end.

Record loop_ok (s : loop) : Prop := {
  lo_clock : 0 < clock s;
  lo_current : forall k, deadline k s = current k (log s);
  lo_rings : rings_right (log s);
  lo_calls : forall k, (length (filter (eq k) (calls s)) + owed k (at_ s))%nat = length (fires_of k (log s));
  lo_now : forall t, at_ s = LNow t -> t <= clock s;
  lo_watched : watched s;
  lo_exit : at_ s = LExit -> closing s = true
}.

(** The loop waits for the deadline that Handshake.v names. *)
Lemma earliest_next {S Q} (a : @association S Q) : nextDeadline a = earliest (rackDeadline (rack a)) (ptoDeadline (rack a)).
Proof. reflexivity. Qed.

Lemma current_snoc k es e : current k (es ++ [e]) = update_deadline k (current k es) e.
Proof. unfold current. by rewrite fold_left_app. Qed.

Lemma rings_quiet es e : rings_right es -> (forall k d t, e <> Fire k d t) -> rings_right (es ++ [e]).
Proof.
  intros Hr He i k d t Hi. apply lookup_app_Some in Hi as [Hi|[_ Hi]].
  - rewrite take_app_le by (apply lookup_lt_Some in Hi; lia). by apply Hr.
  - apply list_lookup_singleton_Some in Hi as [_ Hi]. by destruct (He k d t).
Qed.

Lemma rings_fire es k d t : rings_right es -> d = current k es -> due t d = true -> rings_right (es ++ [Fire k d t]).
Proof.
  intros Hr Hd Hdue i k' d' t' Hi. apply lookup_app_Some in Hi as [Hi|[Hge Hi]].
  - rewrite take_app_le by (apply lookup_lt_Some in Hi; lia). by apply Hr.
  - apply list_lookup_singleton_Some in Hi as [Hz Hi]. injection Hi as <- <- <-. unfold due in Hdue. apply andb_true_iff in Hdue as [H1 H2].
    rewrite take_app_le, take_ge by lia. split_and!; [|done|]; lia.
Qed.

Lemma fires_snoc k es e : length (fires_of k (es ++ [e])) = (length (fires_of k es) + Nat.b2n (is_fire k e))%nat.
Proof. unfold fires_of. rewrite filter_app, length_app. f_equal. rewrite filter_cons, filter_nil. by destruct (is_fire k e). Qed.

(** Starting and stopping. *)
Lemma ok_set k d e s :
  loop_ok s -> (forall k' d' t, e <> Fire k' d' t) -> (forall k', update_deadline k' (current k' (log s)) e = if decide (k' = k) then d else current k' (log s)) ->
  loop_ok (set_deadline k d e s).
Proof.
  intros [H1 H2 H3 H4 H5 H6 H7] He Hu. constructor; cbn.
  - done.
  - intros k'. rewrite current_snoc, Hu, <- H2. destruct k, k'; done.
  - by apply rings_quiet.
  - intros k'. rewrite fires_snoc, H4. destruct e as [| |k1 d1 t1]; [cbn; lia..|]. by destruct (He k1 d1 t1).
  - done.
  - unfold watched, told in *. cbn. destruct (at_ s); try done; left; left; lia.
  - done.
Qed.

Lemma ok_start k dur s : loop_ok s -> loop_ok (start_deadline k dur s).
Proof. intros Hs. unfold start_deadline. destruct (dur <=? 0); (apply ok_set; [done|done|intros k'; cbn; by repeat case_decide]). Qed.

Lemma ok_stop k s : loop_ok s -> loop_ok (stop_deadline k s).
Proof. intros Hs. apply ok_set; [done|done|]. intros k'. cbn. by repeat case_decide. Qed.

(** A step that leaves deadlines and log alone. *)
Lemma ok_same s s' :
  loop_ok s -> clock s <= clock s' -> rackDl s' = rackDl s -> ptoDl s' = ptoDl s -> log s' = log s ->
  (forall k, (length (filter (eq k) (calls s')) + owed k (at_ s'))%nat = (length (filter (eq k) (calls s)) + owed k (at_ s))%nat) ->
  (forall t, at_ s' = LNow t -> t <= clock s') -> (at_ s' = LExit -> closing s' = true) -> watched s' -> loop_ok s'.
Proof.
  intros [H1 H2 H3 H4 H5 H6 H7] Hc Hr Hp Hl Hk Hn Hx Hw. constructor; [lia| | | |done|done|done].
  - intros k. rewrite Hl, <- H2. destruct k; cbn; congruence.
  - by rewrite Hl.
  - intros k. by rewrite Hk, Hl.
Qed.

Lemma note_fire_ok k t d es :
  rings_right es -> d = current k es ->
  rings_right (note_fire k t d es)
  /\ (forall k', current k' (note_fire k t d es) = if decide (k' = k) then (if due t d then 0 else d) else current k' es)
  /\ (forall k', length (fires_of k' (note_fire k t d es)) = (length (fires_of k' es) + (if decide (k' = k) then Nat.b2n (due t d) else 0))%nat).
Proof.
  intros Hr Hd. unfold note_fire. destruct (due t d) eqn:E.
  - split_and!; [by apply rings_fire| |]; intros k'; [rewrite current_snoc|rewrite fires_snoc]; cbn; [done|]. repeat (case_decide || case_bool_decide); subst; done.
  - split_and!; [done| |]; intros k'; case_decide; subst; cbn; [done|done|lia|lia].
Qed.

Lemma ok_snapshot t s : loop_ok s -> at_ s = LNow t -> loop_ok (snapshot t s).
Proof.
  intros [H1 H2 H3 H4 H5 H6 H7] Hat. pose proof (H2 Rack) as HR. pose proof (H2 PTO) as HP. cbn in HR, HP.
  destruct (note_fire_ok Rack t (rackDl s) (log s) H3 HR) as (A1 & A2 & A3).
  destruct (note_fire_ok PTO t (ptoDl s) _ A1) as (B1 & B2 & B3); [by rewrite A2|].
  unfold snapshot. constructor; cbn -[note_fire]; try done.
  - intros k. rewrite B2, A2. by destruct k.
  - intros k. rewrite B3, A3, <- H4, Hat. cbn [owed]. destruct k; cbn -[due]; repeat case_decide; (lia || done).
Qed.

Lemma earliest_zero r p : earliest r p = 0 <-> r = 0 /\ p = 0.
Proof. unfold earliest. destruct (Z.eqb_spec r 0), (Z.eqb_spec p 0), (r <? p); lia. Qed.

Lemma earliest_le k s : deadline k s <> 0 -> next s <> 0 /\ next s <= deadline k s.
Proof. unfold earliest. destruct k; cbn; intros ?; destruct (Z.eqb_spec (rackDl s) 0), (Z.eqb_spec (ptoDl s) 0), (Z.ltb_spec (rackDl s) (ptoDl s)); lia. Qed.

Lemma arm_fields r p s :
  let s' := arm r p s in
  clock s' = clock s /\ rackDl s' = rackDl s /\ ptoDl s' = ptoDl s /\ pokes s' = pokes s /\ update s' = update s /\ closing s' = closing s
  /\ sending s' = sending s /\ log s' = log s /\ calls s' = calls s
  /\ (earliest r p <> 0 -> timer s' = Some (Z.max (earliest r p) (clock s + 1))).
Proof.
  unfold arm. set (n := earliest r p). destruct (if armed s then drainTimer (timer s) (tick s) else (timer s, tick s)) as [t c].
  destruct (Z.eqb_spec n 0) as [Hn|Hn]; cbn; split_and!; try done. intros _. f_equal. destruct (Z.leb_spec (n - clock s) 0); lia.
Qed.

Lemma calls_snoc (k k' : alarm) l : length (filter (eq k) (l ++ [k'])) = (length (filter (eq k) l) + if decide (k = k') then 1 else 0)%nat.
Proof. rewrite filter_app, length_app, filter_cons, filter_nil. by case_decide. Qed.

Lemma ok_lstep s s' : loop_ok s -> lstep s s' -> loop_ok s'.
Proof.
  intros Hs Hst. pose proof (lo_watched _ Hs) as Hw. unfold watched in Hw. destruct Hst as [Hat|r p Hat|Hat Hu|Hat Hu|Hat Hc|t Hat|fp Hat|Hat|Hat]; rewrite Hat in Hw.
  - eapply ok_same; [exact Hs|cbn; try done; try lia..|]; [intros k; by rewrite Hat|]. by right.
  - destruct (arm_fields r p s) as (A1 & A2 & A3 & A4 & A5 & A6 & A7 & A8 & A9 & A10).
    eapply ok_same; [exact Hs|cbn; rewrite ?A1, ?A2, ?A3, ?A8, ?A9; try done; try lia..|]; [intros k; by rewrite Hat|].
    unfold watched, told, roused in *. cbn. rewrite A1, A2, A3, A4, A5, A7. destruct Hw as [Hw|[-> ->]]; [by left|].
    right. destruct (decide (next s = 0)) as [Hz|Hz]; [by left|right; right; right]. eexists. split; [by apply A10|lia].
  - eapply ok_same; [exact Hs|cbn; try done; try lia..]. intros k. by rewrite Hat.
  - eapply ok_same; [exact Hs|cbn; try done; try lia..]; [intros k; by rewrite Hat|intros t [= <-]; lia].
  - destruct (if armed s then drainTimer (timer s) (tick s) else (timer s, tick s)) as [t c]. eapply ok_same; [exact Hs|cbn; try done; try lia..]. intros k. by rewrite Hat.
  - by apply ok_snapshot.
  - eapply ok_same; [exact Hs|cbn; try done; try lia..]. intros k. rewrite calls_snoc, Hat. destruct k; case_decide; cbn; (lia || done).
  - eapply ok_same; [exact Hs|cbn; try done; try lia..]. intros k. rewrite calls_snoc, Hat. destruct k; case_decide; cbn; (lia || done).
  - eapply ok_same; [exact Hs|cbn; try done; try lia..]. intros k. rewrite Hat. destruct k; cbn; lia.
Qed.

Lemma ok_qstep s s' : loop_ok s -> qstep s s' -> loop_ok s'.
Proof.
  intros Hs Hst. pose proof (lo_watched _ Hs) as Hw. pose proof (lo_now _ Hs) as Hn. pose proof (lo_exit _ Hs) as Hx. destruct Hst as [s' Hl|n Hp|t Ht|t Ht Hle|n Hn'].
  - by eapply ok_lstep.
  - eapply ok_same; [exact Hs|cbn; try done; try lia..|]. unfold watched, told in *. cbn. destruct (at_ s); try done; left; by right.
  - eapply ok_same; [exact Hs|cbn; try done; try lia..|]; [intros t' Hy; specialize (Hn t' Hy); lia|]. unfold watched, told, roused in *. cbn. destruct (at_ s); try done.
    destruct Hw as [?|[?|[?|[?|(t' & ? & ?)]]]]; [by left|by right; left|by right; right; left|by right; right; right; left|]. right; right; right; right. exists t'. split; [done|lia].
  - eapply ok_same; [exact Hs|cbn; try done; try lia..|]. unfold watched, told, roused in *. cbn. destruct (at_ s); try done.
    destruct Hw as [?|[?|_]]; [by left|by right; left|]. right; right; right; left. lia.
  - eapply ok_same; [exact Hs|cbn; try done; try lia..|]. unfold watched, told, roused in *. cbn. destruct (at_ s); try done.
    destruct Hw as [?|[?|_]]; [by left|by right; left|]. right; right; by left.
Qed.

Lemma ok_tstep s s' : loop_ok s -> tstep s s' -> loop_ok s'.
Proof.
  intros Hs Hst. destruct Hst as [s' Hq|k dur|k|]; [by eapply ok_qstep|by apply ok_start|by apply ok_stop|].
  pose proof (lo_watched _ Hs) as Hw. pose proof (lo_now _ Hs) as Hn. pose proof (lo_exit _ Hs) as Hx. eapply ok_same; [exact Hs|cbn; try done; try lia..].
Qed.

Lemma ok_newLoop now : 0 < now -> loop_ok (newLoop now).
Proof. intros Hn. constructor; cbn; try done. by intros []. Qed.

Lemma ok_trun now s : 0 < now -> rtc tstep (newLoop now) s -> loop_ok s.
Proof. intros Hn Hr. eapply rtc_preserve; [exact ok_tstep|by apply ok_newLoop|exact Hr]. Qed.

(** ** A deadline that is set fires *)

Lemma snapshot_log t s :
  log (snapshot t s) = log s ++ (if due t (rackDl s) then [Fire Rack (rackDl s) t] else []) ++ (if due t (ptoDl s) then [Fire PTO (ptoDl s) t] else []).
Proof. cbn. unfold note_fire. destruct (due t (rackDl s)), (due t (ptoDl s)); rewrite ?app_nil_r, <- ?app_assoc; done. Qed.

Section Fires.
Context (k : alarm) (d bound : Z).

(** On its own the loop fires the deadline by [bound]. *)
Definition will_fire (s : loop) : Prop :=
  exists s' new t, rtc qstep s s' /\ log s' = log s ++ new /\ Fire k d t ∈ new /\ t <= bound.

Lemma fires_later s s' new : qstep s s' -> log s' = log s ++ new -> will_fire s' -> will_fire s.
Proof.
  intros Hq Hl (s2 & new2 & t & Hr & Hl2 & Hin & Ht). exists s2, (new ++ new2), t. split_and!; [by eapply rtc_l| |apply elem_of_app; by right|done].
  by rewrite Hl2, Hl, app_assoc.
Qed.

Lemma fires_quiet s s' : qstep s s' -> log s' = log s -> will_fire s' -> will_fire s.
Proof. intros Hq Hl. apply (fires_later s s' []); [done|by rewrite app_nil_r]. Qed.

Lemma fires_snapshot s t : at_ s = LNow t -> deadline k s = d -> due t d = true -> t <= bound -> will_fire s.
Proof.
  intros Hat Hd Hdue Ht.
  exists (snapshot t s), ((if due t (rackDl s) then [Fire Rack (rackDl s) t] else []) ++ (if due t (ptoDl s) then [Fire PTO (ptoDl s) t] else [])), t.
  split_and!; [by apply rtc_once, q_loop, l_snapshot| | |done].
  - apply snapshot_log.
  - apply elem_of_app. destruct k; cbn in Hd; subst d; rewrite Hdue; [left|right]; left.
Qed.

Lemma fires_top s : at_ s = LTop -> deadline k s = d -> 0 < clock s -> d <> 0 -> Z.max d (clock s) + 1 <= bound -> will_fire s.
Proof.
  intros Hat Hd Hc Hz Hb. set (T := Z.max d (clock s)) in *.
  eapply (fires_quiet s (set_clock T s)); [apply q_clock; lia|done|]. eapply fires_quiet; [apply q_loop, l_read; done|done|].
  eapply fires_quiet; [apply q_loop; eapply l_arm; done|by apply (arm_fields _ _ _)|]. set (s1 := at_pc _ (set_clock T s)). cbn [rackDl ptoDl set_clock].
  destruct (arm_fields (rackDl s) (ptoDl s) s1) as (A1 & A2 & A3 & _ & _ & _ & _ & A8 & _ & A10).
  rewrite <- Hd in Hz. destruct (earliest_le k s Hz) as [N1 N2]. specialize (A10 N1). cbn in A10. replace (Z.max (next s) (T + 1)) with (T + 1) in A10 by lia.
  set (s2 := at_pc LSelect (arm (rackDl s) (ptoDl s) s1)). assert (Ht2 : timer s2 = Some (T + 1)) by done. assert (Hc2 : clock s2 = T) by done.
  assert (Hd2 : deadline k s2 = d) by (rewrite <- Hd; destruct k; cbn; [by rewrite A2|by rewrite A3]).
  eapply (fires_quiet s2 (set_clock (T + 1) s2)); [apply q_clock; lia|done|]. eapply fires_quiet; [apply (q_expire _ (T + 1)); cbn; [done|lia]|done|].
  eapply fires_quiet; [by eapply q_send|done|]. eapply fires_quiet; [apply q_loop, l_tick; done|done|].
  apply (fires_snapshot _ (T + 1)); [done|by rewrite <- Hd2; destruct k| |lia].
  unfold due. rewrite Hd in Hz. destruct (Z.eqb_spec d 0), (Z.leb_spec d (T + 1)); done || lia.
Qed.

Lemma fires_call s fr fp : at_ s = LCall fr fp -> deadline k s = d -> 0 < clock s -> d <> 0 -> Z.max d (clock s) + 1 <= bound -> will_fire s.
Proof.
  intros Hat Hd Hc Hz Hb. assert (H0 : forall s, at_ s = LCall false false -> deadline k s = d -> 0 < clock s -> Z.max d (clock s) + 1 <= bound -> will_fire s).
  { clear s Hat Hd Hc Hb. intros s Hat Hd Hc Hb. eapply fires_quiet; [by apply q_loop, l_again|done|]. by apply fires_top. }
  assert (H1 : forall s, at_ s = LCall false fp -> deadline k s = d -> 0 < clock s -> Z.max d (clock s) + 1 <= bound -> will_fire s).
  { clear s Hat Hd Hc Hb. intros s Hat Hd Hc Hb. destruct fp; [|by apply H0]. eapply fires_quiet; [by apply q_loop, l_pto|done|]. apply H0; try done. }
  destruct fr; [|by apply H1]. eapply fires_quiet; [by apply q_loop, l_rack|done|]. by apply H1.
Qed.

Lemma fires_now s t : loop_ok s -> at_ s = LNow t -> deadline k s = d -> d <> 0 -> Z.max d (clock s) + 1 <= bound -> will_fire s.
Proof.
  intros Hok Hat Hd Hz Hb. destruct (due t d) eqn:E; [apply (fires_snapshot s t); try done; pose proof (lo_now _ Hok t Hat); lia|].
  assert (Hd' : deadline k (snapshot t s) = d) by (destruct k; cbn in Hd |- *; subst d; by rewrite E).
  eapply fires_later; [by apply q_loop, l_snapshot|apply snapshot_log|]. eapply fires_call; [done|done|apply Hok|done|done].
Qed.

Lemma fires_tick s : loop_ok s -> at_ s = LSelect -> tick s = true -> deadline k s = d -> d <> 0 -> Z.max d (clock s) + 1 <= bound -> will_fire s.
Proof.
  intros Hok Hat Ht Hd Hz Hb. assert (Hst : lstep s (at_pc (LNow (clock s)) (with_timer (timer s) false false s))) by (by apply l_tick).
  eapply fires_quiet; [apply q_loop, Hst|done|]. eapply (fires_now _ (clock s)); [by eapply ok_lstep|done|by destruct k|done|done].
Qed.

Lemma fires_send s : loop_ok s -> at_ s = LSelect -> (0 < sending s)%nat -> deadline k s = d -> d <> 0 -> Z.max d (clock s) + 1 <= bound -> will_fire s.
Proof.
  intros Hok Hat Hn Hd Hz Hb. destruct (sending s) as [|n] eqn:E; [lia|]. eapply fires_quiet; [by eapply q_send|done|].
  apply fires_tick; try done; eapply ok_qstep; [done|by eapply q_send].
Qed.

Lemma fires_select s : loop_ok s -> at_ s = LSelect -> deadline k s = d -> d <> 0 -> Z.max d (clock s) + 2 <= bound -> will_fire s.
Proof.
  intros Hok Hat Hd Hz Hb. pose proof (lo_clock _ Hok) as Hc. pose proof (lo_watched _ Hok) as Hw. unfold watched in Hw. rewrite Hat in Hw.
  assert (Hu : forall s, at_ s = LSelect -> update s = true -> deadline k s = d -> 0 < clock s -> Z.max d (clock s) + 2 <= bound -> will_fire s).
  { clear s Hok Hat Hd Hb Hc Hw. intros s Hat Hu Hd Hc Hb. eapply fires_quiet; [by apply q_loop, l_update|done|]. apply fires_top; try done; cbn; lia. }
  rewrite <- Hd in Hz. destruct (earliest_le k s Hz) as [N1 N2]. rewrite Hd in Hz, N2.
  destruct Hw as [[Hp|Hp]|[?|[Ht|[Hs|(t & Ht & Hle)]]]]; [| |done| | |].
  - destruct (pokes s) as [|n] eqn:E; [lia|]. eapply fires_quiet; [by eapply q_poke|done|]. apply Hu; try done.
  - by apply Hu.
  - apply fires_tick; try done. lia.
  - apply fires_send; try done. lia.
  - set (T := Z.max t (clock s)). assert (Q1 : qstep s (set_clock T s)) by (apply q_clock; lia). eapply fires_quiet; [exact Q1|done|].
    assert (Q2 : qstep (set_clock T s) (expire (set_clock T s))) by (apply (q_expire _ t); cbn; [done|lia]). eapply fires_quiet; [exact Q2|done|].
    apply fires_send; try done; [by do 2 (eapply ok_qstep; [|eassumption])|cbn; lia..].
Qed.

End Fires.

Lemma set_fires k s :
  loop_ok s -> at_ s <> LExit -> deadline k s <> 0 -> will_fire k (deadline k s) (Z.max (deadline k s) (clock s) + 2) s.
Proof.
  intros Hok Hx Hd. pose proof (lo_clock _ Hok) as Hc. destruct (at_ s) as [|r p| |t|fr fp|] eqn:Hat; [..|done].
  - apply fires_top; try done. lia.
  - assert (Q : lstep s (at_pc LSelect (arm r p s))) by (by apply l_arm). destruct (arm_fields r p s) as (A1 & A2 & A3 & _ & _ & _ & _ & A8 & _ & _).
    eapply fires_quiet; [apply q_loop, Q|done|]. apply fires_select; try done; [by eapply ok_lstep| |cbn; rewrite A1; lia].
    destruct k; cbn; [by rewrite A2|by rewrite A3].
  - by apply fires_select; try done.
  - eapply fires_now; try done. lia.
  - eapply fires_call; try done. lia.
Qed.

(** ** Main property *)


Module TimerExample.

(** Both deadlines are set while the loop is arming: the poke is late. *)
Definition s1 : loop := at_pc (LArm 0 0) (newLoop 100).

Definition s2 : loop := start_deadline PTO 30 (start_deadline Rack 50 s1).

Definition s3 : loop := pokeTimerLoop (at_pc LSelect (arm 0 0 s2)).

Lemma s3_run : rtc tstep (newLoop 100) s3.
Proof.
  eapply rtc_l; [apply t_quiet, q_loop, l_read; reflexivity|]. eapply rtc_l; [apply (t_start _ Rack 50)|]. eapply rtc_l; [apply (t_start _ PTO 30)|].
  eapply rtc_l; [apply t_quiet, q_loop, (l_arm _ 0 0); reflexivity|]. apply rtc_once, t_quiet. apply (q_poke _ 1). reflexivity.
Qed.


End TimerExample.
