(* ===== verification/Lifecycle.v ===== *)
(** * The goroutines of an association (association.go)

    The read loop, the write loop and the calls of [Close], [Abort], [Shutdown],
    [Client] and [Server], as the interleavings of their steps on the endpoint,
    the transport and the channels they close.  The transport is a net.Conn:
    once it is closed, or its read deadline has passed, a read returns an error. *)

From S2P Require Import Prelude.
From S2P Require Import Serial.
From S2P Require Import Float64.
From S2P Require Import Bytes.
From S2P Require Import Params.
From S2P Require Import Causes.
From S2P Require Import Chunks.
From S2P Require Import Packet.
From S2P Require Import RingQueue.
From S2P Require Import PayloadQueue.
From S2P Require Import RecvQueue.
From S2P Require Import WindowedMin.
From S2P Require Import PendingQueue.
From S2P Require Import PendingSpec.
From S2P Require Import Reassembly.
From S2P Require Import Stream.
From S2P Require Import Timers.
From S2P Require Import Sender.
From S2P Require Import Sack.
From S2P Require Import Endpoint.
From S2P Require Import Receive.
From S2P Require Import Handshake.
From S2P Require Import Outbound.
From S2P Require Import Config.
From S2P Require Import ReceiveSpec.
From S2P Require Import StateSpec.

Local Open Scope Z_scope.

(** Where the read loop is. *)
Inductive read_pc :=
  | RdRead                        (* in [netConn.Read] *)
  | RdGot (raw : list Z)          (* in [handleInbound] *)
  | RdStop (err : serr)           (* left the loop: its deferred function begins *)
  | RdLock (err : serr)           (* has closed [closeWriteLoopCh] *)
  | RdLast                        (* has unlocked *)
  | RdGone.

Inductive write_pc :=
  | WrGather
  | WrSend (raws : list (list Z)) (ok : bool)
  | WrWait                        (* at the select *)
  | WrEnd                         (* past the loop *)
  | WrGone.

(** A call by the application. *)
Inductive call_pc :=
  | ClWait                        (* [Close] waits for the read loop *)
  | AbFlush | AbWait | AbLast     (* the three waits of [Abort] *)
  | ShSet | ShLock | ShWait       (* [Shutdown] past its check, past [setState], waiting *)
  | OpWait                        (* [Client], [Server] *)
  | Returned (ok : bool).

(** The first byte after the common header. *)
Definition isAbortPacket (raw : list Z) : bool :=
  (packetHeaderSize <? zlen raw) && bool_decide (raw !! Z.to_nat packetHeaderSize = Some ctAbort).

Section Lifecycle.
Context {S : Type} `{SS : StreamScheduler S} {Q : Type} `{QI : QueueImpl loc Q}.

Abbreviation ep := (@endpoint S Q).

Record life := mkLife {
  l_ep : ep;
  l_open : bool;           (* [netConn] *)
  l_late : bool;           (* its read deadline has passed *)
  l_readDone : bool;       (* [readLoopCloseCh] is closed *)
  l_abortSent : bool;      (* [abortSentCh] is closed *)
  l_reader : read_pc;
  l_writer : write_pc;
  l_calls : gmap nat call_pc;
  l_wire : list (list Z)   (* ghost: what was written *)
}.

(** [closeWriteLoopCh]. *)
Definition closing (s : life) : bool := closedCh (fin (l_ep s)).

Definition on_ep (f : ep -> ep) (s : life) : life :=
  mkLife (f (l_ep s)) (l_open s) (l_late s) (l_readDone s) (l_abortSent s) (l_reader s) (l_writer s) (l_calls s) (l_wire s).

Definition at_rd (p : read_pc) (s : life) : life :=
  mkLife (l_ep s) (l_open s) (l_late s) (l_readDone s) (l_abortSent s) p (l_writer s) (l_calls s) (l_wire s).

Definition at_wr (p : write_pc) (s : life) : life :=
  mkLife (l_ep s) (l_open s) (l_late s) (l_readDone s) (l_abortSent s) (l_reader s) p (l_calls s) (l_wire s).

Definition at_call (k : nat) (p : call_pc) (s : life) : life :=
  mkLife (l_ep s) (l_open s) (l_late s) (l_readDone s) (l_abortSent s) (l_reader s) (l_writer s) (<[k := p]> (l_calls s)) (l_wire s).

Definition close_conn (s : life) : life :=
  mkLife (l_ep s) false (l_late s) (l_readDone s) (l_abortSent s) (l_reader s) (l_writer s) (l_calls s) (l_wire s).

(** [a.close]. *)
Definition close_all (s : life) : life := close_conn (on_ep close_ s).

(** [SetReadDeadline(now)]. *)
Definition past_deadline (s : life) : life :=
  mkLife (l_ep s) (l_open s) true (l_readDone s) (l_abortSent s) (l_reader s) (l_writer s) (l_calls s) (l_wire s).

Definition read_done (s : life) : life :=
  mkLife (l_ep s) (l_open s) (l_late s) true (l_abortSent s) RdGone (l_writer s) (l_calls s) (l_wire s).

(** The handler of a packet has returned; a handler that closes the association
    closes the transport too. *)
Definition handled (r : option aerr) (e : ep) (err : serr) (s : life) : life :=
  mkLife e (l_open s && negb (closedCh (fin e))) (l_late s) (l_readDone s) (l_abortSent s)
    (match r with Some _ => RdStop err | None => RdRead end) (l_writer s) (l_calls s) (l_wire s).

(** [netConn.Write] has returned. *)
Definition wrote (raw : list Z) (success : bool) (p : write_pc) (s : life) : life :=
  mkLife (l_ep s) (l_open s) (l_late s) (l_readDone s) (l_abortSent s || isAbortPacket raw) (l_reader s) p (l_calls s)
    (if success then l_wire s ++ [raw] else l_wire s).

(** The write loop takes the value of [awakeWriteLoopCh]. *)
Definition asleep (e : ep) : ep :=
  on_sender (fun a => let p := plan a in
    set_plan (mkPlans (willSendForwardTSN p) (willRetransmitFast p) (willRetransmitReconfig p) (willSendShutdown p)
                (willSendShutdownAck p) false) a) e.

(** [Shutdown] under the lock. *)
Definition shutdownLocked (e : ep) : ep :=
  if PayloadQueue.size (inflightQueue (sender e)) =? 0
  then setState shutdownSent (awake_ (on_sender (fun a => set_shutdown true (willSendShutdownAck (plan a)) a) e))
  else e.

(** Nobody waits for the handshake any more. *)
Definition unwait (e : ep) : ep :=
  let f := fin e in
  set_fin (mkEnd (willSendShutdownComplete f) (willSendAbort f) (willSendAbortCause f) (t2Shutdown f) (closedCh f) false (outcome f)) e.

(** ** Steps *)

Inductive rdstep (s : life) : life -> Prop :=
  | rd_packet raw : l_reader s = RdRead -> l_open s = true -> l_late s = false -> rdstep s (at_rd (RdGot raw) s)
  | rd_error err : l_reader s = RdRead -> rdstep s (at_rd (RdStop err) s)
  | rd_handled o raw r e err : l_reader s = RdGot raw -> handleInbound o raw (l_ep s) = Some (r, e) -> rdstep s (handled r e err s)
  | rd_stop err : l_reader s = RdStop err -> rdstep s (at_rd (RdLock err) (on_ep set_closed s))
  | rd_unregister err : l_reader s = RdLock err -> rdstep s (at_rd RdLast (on_ep (readLoopExit err) s))
  | rd_last : l_reader s = RdLast -> rdstep s (read_done s).

Inductive wrstep (s : life) : life -> Prop :=
  | wr_gather fuel o now raws ok e : l_writer s = WrGather -> gatherOutbound fuel o now (l_ep s) = Some (raws, ok, e) ->
      wrstep s (at_wr (WrSend raws ok) (on_ep (fun _ => e) s))
  | wr_sent raw raws ok : l_writer s = WrSend (raw :: raws) ok -> l_open s = true -> wrstep s (wrote raw true (WrSend raws ok) s)
  | wr_failed raw raws ok : l_writer s = WrSend (raw :: raws) ok -> wrstep s (wrote raw false WrEnd s)
  | wr_again : l_writer s = WrSend [] true -> wrstep s (at_wr WrWait s)
  | wr_close : l_writer s = WrSend [] false -> wrstep s (at_wr WrGone (close_all s))
  | wr_awake : l_writer s = WrWait -> awake (plan (sender (l_ep s))) = true -> wrstep s (at_wr WrGather (on_ep asleep s))
  | wr_closed : l_writer s = WrWait -> closing s = true ->
      wrstep s (at_wr (if willSendAbort (fin (l_ep s)) then WrGather else WrEnd) s)
  | wr_end : l_writer s = WrEnd -> wrstep s (at_wr WrGone (on_ep writeLoopExit s)).

(** [Close]. *)
Inductive clstep (s : life) : life -> Prop :=
  | cl_close k : l_calls s !! k = None -> clstep s (at_call k ClWait (close_all s))
  | cl_closed k : l_calls s !! k = Some ClWait -> l_readDone s = true -> clstep s (at_call k (Returned true) s).

(** [Abort]; its flush is bounded by a time-out. *)
Inductive abstep (s : life) : life -> Prop :=
  | ab_begin k reason : l_calls s !! k = None -> abstep s (at_call k AbFlush (on_ep (Abort_ reason) s))
  | ab_flushed k : l_calls s !! k = Some AbFlush -> abstep s (at_call k AbWait (past_deadline s))
  | ab_read k : l_calls s !! k = Some AbWait -> l_readDone s = true -> abstep s (at_call k AbLast s)
  | ab_return k : l_calls s !! k = Some AbLast -> abstep s (at_call k (Returned true) s).

(** [Shutdown]. *)
Inductive shstep (s : life) : life -> Prop :=
  | sh_refuse k : l_calls s !! k = None -> getState (l_ep s) <> established -> shstep s (at_call k (Returned false) s)
  | sh_check k : l_calls s !! k = None -> getState (l_ep s) = established -> shstep s (at_call k ShSet s)
  | sh_set k : l_calls s !! k = Some ShSet -> shstep s (at_call k ShLock (on_ep (setState shutdownPending) s))
  | sh_lock k : l_calls s !! k = Some ShLock -> shstep s (at_call k ShWait (on_ep shutdownLocked s))
  | sh_closed k : l_calls s !! k = Some ShWait -> closing s = true -> shstep s (at_call k (Returned true) s)
  | sh_cancel k : l_calls s !! k = Some ShWait -> shstep s (at_call k (Returned false) s).

(** [Client] with its context; [Server] is never cancelled. *)
Inductive opstep (s : life) : life -> Prop :=
  | op_done k r : l_calls s !! k = Some OpWait -> outcome (fin (l_ep s)) = Some r ->
      opstep s (at_call k (Returned (match r with None => true | Some _ => false end)) s)
  | op_closed k : l_calls s !! k = Some OpWait -> l_readDone s = true -> opstep s (at_call k (Returned false) (on_ep unwait s))
  | op_cancel k : l_calls s !! k = Some OpWait -> opstep s (at_call k ClWait (close_all (on_ep unwait s))).

Definition callstep (s s' : life) : Prop := clstep s s' \/ abstep s s' \/ shstep s s' \/ opstep s s'.

(** Timers and the application's other calls work on the endpoint; none of them
    closes it or forgets an ABORT. *)
Definition keeps_ends (e e' : ep) : Prop :=
  closedCh (fin e') = closedCh (fin e) /\ (willSendAbort (fin e) = true -> willSendAbort (fin e') = true).

Inductive lifestep (s : life) : life -> Prop :=
  | ls_read s' : rdstep s s' -> lifestep s s'
  | ls_write s' : wrstep s s' -> lifestep s s'
  | ls_call s' : callstep s s' -> lifestep s s'
  | ls_other e : keeps_ends (l_ep s) e -> lifestep s (on_ep (fun _ => e) s).

(** [initClient] or [initServer] has started the loops; one call waits. *)
Definition newLife (e : ep) : life := mkLife e true false false false RdRead WrGather {[0%nat := OpWait]} [].

(** The parts of [Shutdown], one after the other. *)
Lemma shutdown_parts e : getState e = established -> Shutdown e = (None, shutdownLocked (setState shutdownPending e)).
Proof. intros Hs. unfold Shutdown. by rewrite Hs. Qed.

(** ** What closes stays closed *)

Definition latched (e e' : ep) : Prop :=
  (closedCh (fin e) = true -> closedCh (fin e') = true) /\ (willSendAbort (fin e) = true -> willSendAbort (fin e') = true).

Lemma latched_same e e' : fin e' = fin e -> latched e e'.
Proof. intros E. unfold latched. by rewrite E. Qed.

Lemma latched_trans e1 e2 e3 : latched e1 e2 -> latched e2 e3 -> latched e1 e3.
Proof. intros [A1 A2] [B1 B2]. split; auto. Qed.

Lemma end_getOrCreate si acc ppi (e : ep) : fin (getOrCreateStream si acc ppi e).2 = fin e.
Proof. unfold getOrCreateStream, createStream, setPayloadType. repeat case_match; by simplify_eq/=. Qed.

Lemma end_accept d (e : ep) : latched e (acceptPayloadData d e).2.
Proof.
  unfold acceptPayloadData. pose proof (latched_same _ _ (end_getOrCreate (streamIdentifier d) true 0 e)) as H. destruct (getOrCreateStream _ _ _ e) as [ok e1]. cbn in H.
  assert (Hp : latched e1 (pushPayloadDataToStream d e1).2) by (unfold pushPayloadDataToStream; repeat case_match; simplify_eq/=; by split).
  repeat case_match; cbn; eauto using latched_trans.
Qed.

Lemma end_popLoop order fuel : forall reply (e : ep) r e', popLoop fuel order reply e = Some (r, e') -> fin e' = fin e.
Proof.
  induction fuel as [|fuel IH]; intros reply e r e' E; [done|]. cbn [popLoop] in E. destruct (RecvQueue.pop _ _) as [ok q]. destruct (negb ok); [by simplify_eq|].
  destruct (answerRequests_frame (order (reconfigRequests (rc (set_queue q e)))) (set_queue q e)) as (m & l & rs & Hfr).
  destruct (answerRequests _ _) as [ps e1]. cbn in Hfr. subst e1. by apply IH in E.
Qed.

Lemma end_handlePeer order b (e : ep) r e' : handlePeerLastTSNAndAcknowledgement order b e = Some (r, e') -> fin e' = fin e.
Proof. unfold handlePeerLastTSNAndAcknowledgement. intros E. opt E. apply end_popLoop in F. simplify_eq. rewrite <- F. unfold trigger. repeat case_match; done. Qed.

Lemma end_handleData order ii d (e : ep) r e' : handleData order ii d e = Some (r, e') -> latched e e'.
Proof.
  unfold handleData. destruct (negb _); [intros; simplify_eq; by split|]. destruct (negb _); [intros; simplify_eq; by split|].
  pose proof (end_accept d e) as H. destruct (canPush _ _); [destruct (acceptPayloadData d e) as [[|] e1]|]; cbn [negb snd] in *.
  - intros E%end_handlePeer%latched_same. by eapply latched_trans.
  - intros. by simplify_eq.
  - intros E%end_handlePeer. by apply latched_same.
Qed.

Lemma end_fold {A} (f : A -> Stream -> Stream) (id : A -> Z) l : forall e : ep, fin (fold_left (fun e x => on_stream (f x) (id x) e) l e) = fin e.
Proof. induction l as [|x l IH]; intros e; [done|]. cbn [fold_left]. rewrite IH. unfold on_stream. by destruct (_ !! _). Qed.

Lemma end_forward order cum ss (e : ep) r e' : handleForwardTSN order cum ss e = Some (r, e') -> latched e e'.
Proof.
  unfold handleForwardTSN. repeat (case_match; [intros; simplify_eq; by split|]). intros E. opt E. apply end_handlePeer in E. apply latched_same. rewrite E.
  apply (end_fold (fun f s => (handleForwardTSNForOrdered s (fs_sequence f)).2) fs_identifier ss (set_queue r0 e)).
Qed.

Lemma end_iforward order cum ss (e : ep) r e' : handleIForwardTSN order cum ss e = Some (r, e') -> latched e e'.
Proof.
  unfold handleIForwardTSN. repeat (case_match; [intros; simplify_eq; by split|]). intros E. opt E. apply end_handlePeer in E. apply latched_same. rewrite E.
  apply (end_fold (fun x s => (if is_unordered x then handleForwardTSNForUnorderedMID s (is_messageIdentifier x)
                           else handleForwardTSNForOrderedMID s (is_messageIdentifier x)).2) is_identifier ss (set_queue r0 e)).
Qed.

Lemma end_reconfigParam p (e : ep) : fin (handleReconfigParam p e).2 = fin e.
Proof.
  unfold handleReconfigParam. destruct p as [[? [| | | | | | | |rsn resp lastTSN ids|rsn result|]]|]; try done.
  - destruct (_ && _); [done|]. destruct (resetStreamsIfAny_frame (mkReset rsn resp lastTSN ids) (set_requests (<[rsn := mkReset rsn resp lastTSN ids]> (reconfigRequests (rc e))) e))
      as (m & l & rs & H). destruct (resetStreamsIfAny _ _) as [pk e']. cbn in *. by rewrite H.
  - destruct (result =? _); [by destruct (_ !! _)|]. destruct (result =? _); [|done]. unfold resetOutgoingStreamSequenceNumbers. repeat case_match; try done;
      match goal with |- fin (_, set_reconfigs _ _ ?x).2 = _ => change (fin x = fin e) end;
      apply (end_fold (fun _ => Stream.resetOutgoingStreamSequenceNumbers) (fun x => x)).
Qed.

Lemma end_reconfig pa pb (e : ep) : fin (handleReconfig pa pb e).2 = fin e.
Proof.
  unfold handleReconfig. pose proof (end_reconfigParam pa e) as H1. destruct (handleReconfigParam pa e) as [[p|] e1]; [|done].
  destruct pb as [b|]; [|done]. pose proof (end_reconfigParam (Some b) e1) as H2. destruct (handleReconfigParam (Some b) e1) as [[p'|] e2]; cbn in *; congruence.
Qed.

Lemma end_interleaving (e : ep) : fin (updateInterleavingState e).2 = fin e.
Proof. unfold updateInterleavingState. destruct (eqb _ _); [done|]. destruct (PendingSpec.setInterleaving _ _) as [[?|] ?]; [done|]. done. Qed.

Lemma end_establish (e : ep) : fin (establish e).2 = fin e.
Proof. unfold establish. pose proof (end_interleaving e) as H. by destruct (updateInterleavingState e) as [[?|] e1]. Qed.

Lemma end_complete b r (e : ep) ok e' : completeHandshake b r e = Some (ok, e') -> latched e e'.
Proof. unfold completeHandshake, latched. repeat case_match; intros; simplify_eq; cbn; auto. Qed.

Lemma end_handleInit k pkt i (e : ep) : fin (handleInit k pkt i e).2 = fin e.
Proof.
  unfold handleInit. destruct (negb _); [done|].
  match goal with |- context [updateInterleavingState ?x] => pose proof (end_interleaving x) as H; destruct (updateInterleavingState x) as [err e1] end.
  cbn in H. repeat case_match; done.
Qed.

Lemma end_handleInitAck pkt i (e : ep) : fin (handleInitAck pkt i e).2 = fin e.
Proof.
  unfold handleInitAck. destruct (negb _); [done|]. destruct (_ || _); [done|].
  match goal with |- context [updateInterleavingState ?x] => pose proof (end_interleaving x) as H; destruct (updateInterleavingState x) as [err e1] end.
  cbn in H. repeat case_match; done.
Qed.

Lemma end_cookieEcho b k (e : ep) ps e' : handleCookieEcho b k e = Some (ps, e') -> latched e e'.
Proof.
  unfold handleCookieEcho. destruct (myCookie _); [|intros; simplify_eq; by split].
  pose proof (latched_same _ _ (end_establish (drop_stored e))) as He. destruct (establish _) as [err e0]. cbn in He.
  assert (Hest : match err with
    | Some r => '(_, e1) ← completeHandshake b (Some r) e0; Some ([], e1)
    | None => '(ok, e1) ← completeHandshake b None e0;
        if ok : bool then Some ([createPacket e1 [new_chunk chunkCookieAck]], e1) else Some ([], e1)
    end = Some (ps, e') -> latched e e').
  { intros H. destruct err; (destruct (completeHandshake _ _ _) as [[ok e1]|] eqn:E1; [|done]); apply end_complete in E1; cbn in H;
      (assert (e' = e1) as -> by (repeat case_match; by simplify_eq)); eapply latched_trans; [exact He|exact E1|exact He|exact E1]. }
  destruct (getState e) eqn:Es; try (intros; simplify_eq; by split); (destruct (negb _); [intros; simplify_eq; by split|]); try exact Hest. intros; simplify_eq; by split.
Qed.

Lemma end_cookieAck b (e : ep) e' : handleCookieAck b e = Some e' -> latched e e'.
Proof.
  unfold handleCookieAck. destruct (negb _); [intros; simplify_eq; by split|].
  match goal with |- context [establish ?x] => pose proof (latched_same _ _ (end_establish x)) as H; destruct (establish x) as [err e0] end.
  cbn in H. destruct (completeHandshake _ _ _) as [[ok e1]|] eqn:E1; [|done]. apply end_complete in E1. cbn. intros. simplify_eq. eapply latched_trans; [exact H|exact E1].
Qed.

Lemma end_dispatch o pkt c (e : ep) r e' : dispatch o pkt c e = Some (r, e') -> latched e e'.
Proof.
  unfold dispatch. destruct (k_body c) as [i|i|cs|cs|k| |ps|ps|d|cum rw gaps dups|pa pb|cum ss|cum ss|cum| |]; intros E.
  - pose proof (end_handleInit (randomCookie o) pkt i e) as H. destruct (handleInit _ _ _ _). simplify_eq. by apply latched_same.
  - pose proof (end_handleInitAck pkt i e) as H. destruct (handleInitAck _ _ _). simplify_eq. by apply latched_same.
  - cbn in E. simplify_eq. by split.
  - simplify_eq. by split.
  - opt E. destruct p. simplify_eq. by eapply end_cookieEcho.
  - opt E. simplify_eq. by eapply end_cookieAck.
  - simplify_eq. by split.
  - simplify_eq. apply latched_same. unfold handleHeartbeatAck. by repeat case_match.
  - opt E. destruct p. simplify_eq. by eapply end_handleData.
  - opt E. simplify_eq. by apply latched_same.
  - pose proof (end_reconfig pa pb e) as H. destruct (handleReconfig _ _ _). simplify_eq. by apply latched_same.
  - opt E. destruct p. simplify_eq. by eapply end_forward.
  - opt E. destruct p. simplify_eq. by eapply end_iforward.
  - simplify_eq. apply latched_same. unfold handleShutdown. by repeat case_match.
  - simplify_eq. unfold handleShutdownAck. by repeat case_match; split.
  - simplify_eq. unfold handleShutdownComplete. by repeat case_match; split.
Qed.

Lemma end_handleChunk o pkt c (e : ep) r e' : handleChunk o pkt c e = Some (r, e') -> latched e e'.
Proof.
  unfold handleChunk. destruct (check c) as [ab [x|]].
  - intros. simplify_eq. by destruct (_ && _); split.
  - intros E. opt E. apply end_dispatch in F. repeat case_match; by simplify_eq.
Qed.

Lemma end_handleChunks o pkt cs : forall (e : ep) r e', handleChunks o pkt cs e = Some (r, e') -> latched e e'.
Proof.
  induction cs as [|c cs IH]; intros e r e' E; cbn in E.
  - simplify_eq. apply latched_same. unfold handleChunksEnd. by repeat case_match.
  - opt E. apply end_handleChunk in F. destruct o0; [by simplify_eq|]. eapply latched_trans; [exact F|by eapply IH].
Qed.

Lemma end_handleInbound o raw (e : ep) r e' : handleInbound o raw e = Some (r, e') -> latched e e'.
Proof.
  unfold handleInbound, handlePacket. destruct (packet_unmarshal _ _) as [pkt| | |]; [|intros; simplify_eq; by split|done|done].
  destruct (checkPacket pkt); [intros; simplify_eq; by split|]. apply end_handleChunks.
Qed.

(** A turn of the write loop closes nothing. *)
Lemma end_shutdownPackets raws (e : ep) raws' ok e' : gatherOutboundShutdownPackets raws e = Some (raws', ok, e') -> closedCh (fin e') = closedCh (fin e).
Proof.
  unfold gatherOutboundShutdownPackets, startT2. destruct (willSendShutdown _); [intros E; opt E; simplify_eq; by case_match|].
  destruct (willSendShutdownAck _); [intros E; opt E; simplify_eq; by case_match|].
  destruct (willSendShutdownComplete _); [intros E; opt E; by simplify_eq|]. intros. by simplify_eq.
Qed.

Lemma end_gather fuel o now (e : ep) raws ok e' : gatherOutbound fuel o now e = Some (raws, ok, e') -> closedCh (fin e') = closedCh (fin e).
Proof.
  unfold gatherOutbound. destruct (willSendAbort _); [unfold gatherAbortPacket; destruct (marshalPacket _ _); intros E; by simplify_eq|].
  unfold gatherControl. destruct (WindowedMin.popAll _) as [ps c]. intros E. destruct (emitAll (set_control c e) [] ps) as [raws0|]; [|done]. cbn [mbind option_bind] in E.
  set (e0 := set_control c e) in *. change (fin e) with (fin e0). clearbody e0.
  assert (Hfwd : forall order x (e1 : ep) y e2, gatherOutboundForwardTSNPackets order x e1 = Some (y, e2) -> fin e2 = fin e1).
  { intros order x e1 y e2. unfold gatherOutboundForwardTSNPackets. destruct (negb _); [intros; by simplify_eq|]. destruct (negb _); [intros; by simplify_eq|]. intros G. opt G.
    destruct o0; [opt G|]; by simplify_eq. }
  assert (Hdata : forall b x (e1 : ep) y e2, gatherOutboundDataAndReconfigPackets fuel o now b x e1 = Some (y, e2) -> fin e2 = fin e1).
  { intros b x e1 y e2. unfold gatherOutboundDataAndReconfigPackets. intros G. opt G. simplify_eq.
    assert (Hr : fin (gatherReconfig (reconfigOrder o) l0 (on_sender (fun _ => a) e1)).2 = fin e1).
    { unfold gatherReconfig. destruct (_ && _); [done|]. destruct (bool_decide (l0 = [])); cbn; by destruct (0 <? _). }
    match goal with H : gatherReconfig _ _ _ = _ |- _ => by rewrite H in Hr end. }
  assert (Hend : ('(budget, a) ← tlrCurrentBurstBudgetScaledLocked now (sender e0);
        '(raws, b, e) ← gatherDataPacketsToRetransmit now (budget, false) raws0 (on_sender (fun _ => a) e0);
        '(raws, b, e) ← gatherFastRetransmission now b raws e;
        '(raws, e) ← gatherOutboundSackPackets raws e;
        gatherOutboundShutdownPackets raws e) = Some (raws, ok, e') -> closedCh (fin e') = closedCh (fin e0)).
  { clear E. intros E. opt E. simplify_eq. destruct (settled_first _ _ _ _ _ _ _ F F1) as [_ G1]. apply settled_fastResent in F4 as [_ G2]. apply settled_sack in F7 as [_ G3].
    apply end_shutdownPackets in E. congruence. }
  destruct (getState e0) eqn:Es; [by simplify_eq..| | | | |].
  - opt E. simplify_eq. destruct (settled_first _ _ _ _ _ _ _ F F1) as [_ H1]. apply Hdata in F4 as H2. apply settled_fastResent in F7 as [_ H3].
    apply settled_sack in F10 as [_ H4]. apply Hfwd in F12 as H5. congruence.
  - by apply end_shutdownPackets in E.
  - by apply Hend.
  - by apply Hend.
  - by apply Hend.
Qed.

(** ** The end of the read loop *)

Lemma unregister_all err l : forall e : ep,
  (forall k, streams (fold_left (fun e si => unregisterStream si err e) l e) !! k = if decide (k ∈ l) then None else streams e !! k)
  /\ fin (fold_left (fun e si => unregisterStream si err e) l e) = fin e /\ getState (fold_left (fun e si => unregisterStream si err e) l e) = getState e.
Proof.
  induction l as [|x l IH]; intros e; [split_and!; try done; intros k; by rewrite decide_False by apply not_elem_of_nil|]. cbn [fold_left].
  assert (H1 : (forall k, streams (unregisterStream x err e) !! k = if decide (k = x) then None else streams e !! k)
    /\ fin (unregisterStream x err e) = fin e /\ getState (unregisterStream x err e) = getState e).
  { unfold unregisterStream. destruct (streams e !! x) as [s|] eqn:Ex; (split_and!; [|done|done]); intros k; cbn; case_decide; subst; try done.
    - apply lookup_delete_eq.
    - by apply lookup_delete_ne. }
  destruct H1 as (S1 & F1 & G1). destruct (IH (unregisterStream x err e)) as (S2 & F2 & G2). split_and!; [|congruence|congruence].
  intros k. rewrite S2, S1. repeat case_decide; try done; set_solver.
Qed.

Lemma readLoopExit_all err (e : ep) :
  streams (readLoopExit err e) = ∅ /\ getState (readLoopExit err e) = closed /\ closedCh (fin (readLoopExit err e)) = true
  /\ willSendAbort (fin (readLoopExit err e)) = willSendAbort (fin e)
  /\ (blockWrite (sender (readLoopExit err e)) = true -> writePending (sender (readLoopExit err e)) = false).
Proof.
  unfold readLoopExit. set (e0 := setState closed (set_closed e)). destruct (unregister_all err (map fst (map_to_list (streams e0))) e0) as (S1 & F1 & G1).
  set (e1 := fold_left _ _ e0) in *. assert (Hs : streams e1 = ∅).
  { apply map_empty. intros k. rewrite S1. case_decide as Hk; [done|]. destruct (streams e0 !! k) as [s|] eqn:Ek; [|done]. exfalso. apply Hk.
    apply list_elem_of_fmap. exists (k, s). split; [done|]. by apply elem_of_map_to_list. }
  destruct (blockWrite (sender e1)) eqn:Eb; cbn; (split_and!; [exact Hs|exact G1|by rewrite F1|by rewrite F1|congruence || done]).
Qed.

(** ** The ABORT *)

(** The byte after the header of a packet is the type of its chunk. *)
Lemma marshal_single sp dp vt c b raw t :
  packet_marshal (mkPacket sp dp vt [c]) b = Ok raw -> (forall r, chunk_marshal c = Ok r -> exists tl, r = t :: tl) ->
  exists pre tl, length pre = 12%nat /\ raw = pre ++ t :: tl.
Proof.
  unfold packet_marshal. cbn [sourcePort destinationPort verificationTag Packet.chunks]. set (hd := put16 _ ++ put16 _ ++ put32 _ ++ [0; 0; 0; 0]).
  assert (Hh : length hd = 12%nat) by done. clearbody hd. cbn [marshal_chunks]. intros E Hc. destruct (chunk_marshal c) as [r| | |]; try done.
  destruct (Hc r eq_refl) as [rest ->]. cbn [mbind res_bind] in E.
  match type of E with (if _ then _ else mret ?x) = _ => assert (Hraw : exists tl, x = hd ++ t :: tl); [|destruct Hraw as [tl Hraw]; rewrite Hraw in E; clear Hraw] end.
  { destruct (negb _); [|by eexists]. rewrite <- app_assoc. by eexists. }
  destruct b; [|injection E as <-; by exists hd, tl].
  destruct (generatePacketChecksum _) as [sum| | |]; try done. injection E as <-. exists (take 8 (hd ++ t :: tl) ++ put32le sum), tl. split.
  - rewrite length_app, length_take, length_app, Hh. done.
  - rewrite <- app_assoc. f_equal. f_equal. by rewrite drop_app_length'.
Qed.

Lemma abort_packet (e : ep) raw e' : gatherAbortPacket e = (Ok raw, e') -> isAbortPacket raw = true.
Proof.
  unfold gatherAbortPacket, marshalPacket, createPacket. intros E. injection E as E _.
  destruct (marshal_single _ _ _ _ _ _ ctAbort E) as (pre & tl & Hp & ->).
  { intros r Hr. unfold chunk_marshal, chunk_filled, chunkAbort_marshal in Hr. cbn [k_body new_chunk] in Hr. destruct (causes_marshal _); try done. cbn in Hr. injection Hr as <-. by eexists. }
  unfold isAbortPacket. rewrite bool_decide_eq_true_2 by (by rewrite lookup_app_r, Hp by (rewrite Hp; apply le_n)).
  unfold zlen. rewrite length_app, Hp. cbn. rewrite andb_true_r. apply Z.ltb_lt. unfold packetHeaderSize. lia.
Qed.

(** ** Invariant *)

Definition past_close (p : read_pc) : bool := match p with RdLock _ | RdLast | RdGone => true | _ => false end.

(** What a call has reached. *)
Definition call_ok (s : life) (p : call_pc) : Prop :=
  match p with ClWait => l_open s = false | AbWait => l_late s = true | AbLast => l_readDone s = true | _ => True end.

Record life_ok (s : life) : Prop := {
  lf_done : l_readDone s = true <-> l_reader s = RdGone;
  lf_reader : past_close (l_reader s) = true -> closing s = true;
  lf_closing : closing s = true -> l_open s = false \/ past_close (l_reader s) = true;
  lf_open : l_open s = false -> closing s = true;
  lf_calls : forall k p, l_calls s !! k = Some p -> call_ok s p
}.

Lemma ok_newLife e : closedCh (fin e) = false -> life_ok (newLife e).
Proof.
  intros Hc. constructor; unfold closing; cbn; try done; [congruence|]. intros k p. rewrite lookup_singleton_Some. by intros [_ <-].
Qed.

(** A step of the endpoint alone. *)
Lemma ok_on_ep f s : life_ok s -> closedCh (fin (f (l_ep s))) = closing s -> life_ok (on_ep f s).
Proof. intros [] Hc. constructor; unfold closing in *; cbn in *; rewrite ?Hc; done. Qed.

Lemma ok_close_all s : life_ok s -> life_ok (close_all s).
Proof.
  intros []. constructor; unfold closing; cbn; try done; [by left|]. intros k p Hk. specialize (lf_calls0 k p Hk). by destruct p.
Qed.

Lemma ok_at_call k p s : life_ok s -> call_ok s p -> life_ok (at_call k p s).
Proof.
  intros [] Hp. constructor; cbn; try done. intros k' p'. destruct (decide (k = k')) as [<-|]; [rewrite lookup_insert_eq|rewrite lookup_insert_ne by done].
  - intros [= <-]. by destruct p.
  - intros Hk. specialize (lf_calls0 k' p' Hk). by destruct p'.
Qed.

Lemma ok_at_wr p s : life_ok s -> life_ok (at_wr p s).
Proof. intros []. by constructor. Qed.

Lemma ok_wrote raw b p s : life_ok s -> life_ok (wrote raw b p s).
Proof. intros []. by constructor. Qed.

Lemma ok_rdstep s s' : life_ok s -> rdstep s s' -> life_ok s'.
Proof.
  intros Hok Hst. pose proof Hok as []. assert (Hnd : l_reader s <> RdGone -> l_readDone s = false).
  { intros Hg. destruct (l_readDone s); [|done]. by destruct Hg; apply lf_done0. }
  destruct Hst as [raw Hr Ho Hl|err Hr|o raw r e err Hr E|err Hr|err Hr|Hr]; rewrite Hr in *.
  - constructor; cbn; try done. by rewrite (Hnd ltac:(done)).
  - constructor; cbn; try done. by rewrite (Hnd ltac:(done)).
  - apply end_handleInbound in E as [E1 _]. constructor; unfold closing in *; cbn in *.
    + rewrite (Hnd ltac:(done)). by destruct r.
    + by destruct r.
    + intros Hc. rewrite Hc, andb_false_r. by left.
    + destruct (closedCh (fin e)); [done|]. rewrite andb_true_r. intros Ho. specialize (lf_open0 Ho). auto.
    + intros k p Hk. specialize (lf_calls0 k p Hk). destruct p; cbn in *; try done. by rewrite lf_calls0.
  - constructor; unfold closing; cbn; try done; [by rewrite (Hnd ltac:(done))|by right].
  - destruct (readLoopExit_all err (l_ep s)) as (_ & _ & Hc & _). constructor; unfold closing; cbn; try done; [by rewrite (Hnd ltac:(done))|by right].
  - constructor; unfold closing in *; cbn; try done; auto. intros k p Hk. specialize (lf_calls0 k p Hk). by destruct p.
Qed.

Lemma ok_wrstep s s' : life_ok s -> wrstep s s' -> life_ok s'.
Proof.
  intros Hok Hst. destruct Hst as [fuel o now raws ok e Hw E|raw raws ok Hw Ho|raw raws ok Hw|Hw|Hw|Hw Ha|Hw Hc|Hw].
  - apply ok_at_wr, ok_on_ep; [done|]. by eapply end_gather.
  - by apply ok_wrote.
  - by apply ok_wrote.
  - by apply ok_at_wr.
  - by apply ok_at_wr, ok_close_all.
  - by apply ok_at_wr, ok_on_ep.
  - by apply ok_at_wr.
  - by apply ok_at_wr, ok_on_ep.
Qed.

Lemma ok_callstep s s' : life_ok s -> callstep s s' -> life_ok s'.
Proof.
  intros Hok [Hst|[Hst|[Hst|Hst]]]; pose proof Hok as [].
  - destruct Hst; apply ok_at_call; try done. by apply ok_close_all.
  - destruct Hst; apply ok_at_call; try done. constructor; cbn; try done. intros k' p' Hk'. specialize (lf_calls0 k' p' Hk'). by destruct p'.
  - destruct Hst; apply ok_at_call; try done. apply ok_on_ep; [done|]. unfold shutdownLocked. by destruct (_ =? 0).
  - destruct Hst; apply ok_at_call; try done. by apply ok_close_all, ok_on_ep.
Qed.

Lemma ok_lifestep s s' : life_ok s -> lifestep s s' -> life_ok s'.
Proof.
  intros Hok Hst. destruct Hst as [s' H|s' H|s' H|e [He _]]; [by eapply ok_rdstep|by eapply ok_wrstep|by eapply ok_callstep|by apply ok_on_ep].
Qed.

Lemma ok_life e s : closedCh (fin e) = false -> rtc lifestep (newLife e) s -> life_ok s.
Proof. intros Hc Hr. eapply rtc_preserve; [exact ok_lifestep|by apply ok_newLife|exact Hr]. Qed.

(** ** The read loop ends *)

(** Nothing more can be read. *)
Definition deaf (s : life) : Prop := l_open s = false \/ l_late s = true.

Definition read_weight (p : read_pc) : nat :=
  match p with RdGot _ => 5 | RdRead => 4 | RdStop _ => 3 | RdLock _ => 2 | RdLast => 1 | RdGone => 0 end.

Lemma deaf_step s s' : deaf s -> rdstep s s' -> deaf s' /\ (read_weight (l_reader s') < read_weight (l_reader s))%nat.
Proof.
  unfold deaf. intros Hd Hst. destruct Hst as [raw Hr Ho Hl|err Hr|o raw r e err Hr E|err Hr|err Hr|Hr]; rewrite Hr; cbn; try (split; [done|lia]).
  - exfalso. destruct Hd; congruence.
  - split; [destruct Hd as [Hx|Hx]; rewrite Hx; [by left|by right]|]. destruct r; cbn; lia.
Qed.

Lemma reader_moves s : l_reader s = RdGone \/ (exists s', rdstep s s') \/ (exists raw, l_reader s = RdGot raw).
Proof.
  destruct (l_reader s) as [|raw|err|err| |] eqn:Hr; [|by right; right; eexists|..|by left]; right; left; eexists.
  - by apply (rd_error _ EOF).
  - by eapply rd_stop.
  - by eapply rd_unregister.
  - by apply rd_last.
Qed.

End Lifecycle.

(** ** Main property *)

(** C19. [Close] and [Abort] come to an end, and so does what waits for them.
    Whatever the loops, the handlers, the timers and other calls do: the channel
    that tells of the end of the read loop is closed exactly when the loop is
    gone, so never twice.  While a call waits for the read loop nothing can be
    read any more; each step of the loop then brings its end nearer, and it
    always has one unless it is still handling a packet, which it ends when
    the handler does.  At its end every stream has been given the error and
    let go, the state is closed and no write is held back; every
    call that waits - [Close], [Abort], [Shutdown], [Client], [Server] - can
    return.  And an ABORT that is due is sent even though the association
    closes meanwhile: the write loop leaves its wait only to gather it, alone,
    and ends after it. *)
Theorem close_comes_to_an_end {S} `{SS : StreamScheduler S} {Q} `{QI : QueueImpl loc Q} (e0 : @endpoint S Q) s :
  closedCh (fin e0) = false -> rtc lifestep (newLife e0) s ->
  (l_readDone s = true <-> l_reader s = RdGone)
  /\ (forall k, l_calls s !! k = Some ClWait \/ l_calls s !! k = Some AbWait -> deaf s)
  /\ (deaf s -> forall s', rdstep s s' -> deaf s' /\ (read_weight (l_reader s') < read_weight (l_reader s))%nat)
  /\ (l_reader s = RdGone \/ (exists s', rdstep s s') \/ (exists raw, l_reader s = RdGot raw))
  /\ (forall raw o r e, l_reader s = RdGot raw -> handleInbound o raw (l_ep s) = Some (r, e) -> exists s', rdstep s s')
  /\ (forall err s', l_reader s = RdLock err -> rdstep s s' ->
        streams (l_ep s') = ∅ /\ getState (l_ep s') = closed /\ (blockWrite (sender (l_ep s')) = true -> writePending (sender (l_ep s')) = false))
  /\ (l_reader s = RdGone -> forall k p, l_calls s !! k = Some p -> p ∈ [ClWait; AbWait; ShWait; OpWait] ->
        exists s', callstep s s' /\ exists p', l_calls s' !! k = Some p' /\ (p' = AbLast \/ exists ok, p' = Returned ok))
  /\ (willSendAbort (fin (l_ep s)) = true ->
        (l_writer s = WrWait -> forall s', wrstep s s' -> l_writer s' = WrGather /\ willSendAbort (fin (l_ep s')) = true)
        /\ (l_writer s = WrWait -> closing s = true -> exists s', wrstep s s')
        /\ (l_writer s = WrGather -> forall s', wrstep s s' ->
              exists raws, l_writer s' = WrSend raws false /\ Forall (fun raw => isAbortPacket raw = true) raws /\ (length raws <= 1)%nat)).
Proof.
  intros Hc Hr. pose proof (ok_life e0 s Hc Hr) as Hok. split; [apply Hok|]. split.
  { intros k [Hk|Hk]; pose proof (lf_calls _ Hok k _ Hk) as H; cbn in H; [by left|by right]. }
  split; [intros Hd s'; by apply deaf_step|]. split; [apply reader_moves|]. split_and!.
  - intros raw o r e Hrd E. eexists. by apply (rd_handled _ o raw r e EOF).
  - intros err s' Hrd Hst. destruct Hst as [? H|? H|? ? ? ? ? H|? H|err' H|H]; try congruence. cbn. destruct (readLoopExit_all err' (l_ep s)) as (H1 & H2 & _ & _ & H3). done.
  - intros Hg k p Hk Hp. pose proof (proj2 (lf_done _ Hok) Hg) as Hd. assert (Hcl : closing s = true) by (apply (lf_reader _ Hok); by rewrite Hg).
    assert (Hlk : forall (s' : @life S Q) p', l_calls (at_call k p' s') !! k = Some p') by (intros s' p'; apply lookup_insert_eq).
    repeat (apply elem_of_cons in Hp as [-> |Hp]; [|]); [..|by apply elem_of_nil in Hp].
    + eexists. split; [left; by apply cl_closed|]. eexists. split; [apply Hlk|]. right. by eexists.
    + eexists. split; [right; left; by apply ab_read|]. eexists. split; [apply Hlk|]. by left.
    + eexists. split; [right; right; left; by apply sh_closed|]. eexists. split; [apply Hlk|]. right. by eexists.
    + eexists. split; [right; right; right; by apply op_closed|]. eexists. split; [apply Hlk|]. right. by eexists.
  - intros Ha. split_and!.
    + intros Hw s' Hst. destruct Hst as [? ? ? ? ? ? H|? ? ? H|? ? ? H|H|H|H|H|H]; try congruence; cbn; [done|]. by rewrite Ha.
    + intros Hw Hcl. eexists. by apply wr_closed.
    + intros Hw s' Hst. destruct Hst as [fuel o now raws ok e H E|? ? ? H|? ? ? H|H|H|H|H|H]; try congruence. cbn. unfold gatherOutbound in E. rewrite Ha in E.
      destruct (gatherAbortPacket (l_ep s)) as [r e1] eqn:Eg. destruct r as [raw| | |]; simplify_eq; eexists; (split; [done|]); split; [|cbn; lia| |cbn; lia].
      * constructor; [by eapply abort_packet|constructor].
      * constructor.
Qed.

(** [Shutdown] looks at the state and sets it without the lock: an association
    whose loops are gone and that was closed in between is left in the state
    shutdown-pending. *)
Lemma shutdown_reopens {S} `{SS : StreamScheduler S} {Q} `{QI : QueueImpl loc Q} (e : @endpoint S Q) :
  getState e = established ->
  exists s1 s2, rtc lifestep (newLife e) s1 /\ lifestep s1 s2 /\ l_readDone s1 = true /\ getState (l_ep s1) = closed
    /\ getState (l_ep s2) = shutdownPending.
Proof.
  intros He. set (s0 := at_call 1%nat ShSet (newLife e)). set (sa := at_rd (RdLock EOF) (on_ep set_closed (at_rd (RdStop EOF) s0))).
  set (sb := read_done (at_rd RdLast (on_ep (readLoopExit EOF) sa))). exists sb, (at_call 1%nat ShLock (on_ep (setState shutdownPending) sb)). split_and!.
  - eapply rtc_l; [apply ls_call; right; right; left; apply (sh_check _ 1%nat); done|]. eapply rtc_l; [apply ls_read, (rd_error _ EOF); done|].
    eapply rtc_l; [apply ls_read, (rd_stop _ EOF); done|]. eapply rtc_l; [apply ls_read, (rd_unregister _ EOF); done|]. apply rtc_once, ls_read, rd_last. done.
  - apply ls_call. right. right. left. apply (sh_set _ 1%nat). done.
  - done.
  - apply readLoopExit_all.
  - done.
Qed.

Module LifeExample.
Import RxExample.

Definition closing_ := at_call 1%nat ClWait (close_all (newLife up)).

Lemma closing_run : rtc lifestep (newLife up) closing_.
Proof. apply rtc_once, ls_call. left. apply (cl_close _ 1%nat). reflexivity. Qed.

Lemma close_comes_to_an_end_witness :
  l_reader closing_ = RdRead /\ deaf closing_
  /\ forall s', rdstep closing_ s' -> deaf s' /\ (read_weight (l_reader s') < 4)%nat.
Proof.
  split; [reflexivity|].
  destruct (close_comes_to_an_end up closing_ ltac:(vm_compute; reflexivity) closing_run) as (_ & H1 & H2 & _).
  assert (Hd : deaf closing_) by (apply (H1 1%nat); left; reflexivity). split; [exact Hd|]. exact (H2 Hd).
Defined.

End LifeExample.
