(* ===== verification/Connection.v ===== *)
(** * A WebSocket connection (server.go [handleWebSocket])

    The three goroutines of a connection - the reader, which runs the handlers,
    the writer and the pinger - with the producers of outbound frames, the
    clock and the ways they take the connection down, as the interleavings of
    their channel operations and socket calls.  The socket itself is gorilla's:
    once it is closed, a read or write in progress or to come returns an error. *)

From S2P Require Import Prelude.
From S2P Require Import Trace.
From S2P Require Import Session.

Local Open Scope Z_scope.

(** ** State *)

Definition second : Z := 1000000000.

Definition pongTimeout : Z := 30 * second.

Definition writeChanSize : Z := 8192.

(** A frame from the peer is named by a number. *)
Definition inbound := nat.

(** The deferred calls of [handleWebSocket] stop the ticker, close the queue and
    close the socket, in this order. *)
Inductive reader_pc :=
  | RRead                                (* in [NextReader] *)
  | RHandle (i : inbound)                (* in [processFrame] *)
  | RRespond (i : inbound) (k : frame)   (* in a call of [enqueue] from there *)
  | RStopTicker | RCloseQueue | RCloseConn | RGone.

(** Those of the writer close the socket, then the queue. *)
Inductive wsock_pc :=
  | SSelect | SWrite (f : frame) | SCloseConn | SCloseQueue | SGone.

Inductive ping_pc := PingSelect | PingWrite | PingGone.

Record conn := mkConn {
  c_clock : Z;
  c_deadline : Z;              (* the read deadline *)
  c_open : bool;               (* the socket *)
  c_ch : list frame;           (* [cw.ch] *)
  c_done : bool;               (* [cw.done] *)
  c_ticker : bool;             (* the ping ticker runs *)
  c_enqs : gmap frame enq_pc;  (* the calls of [enqueue], as in Session.v *)
  c_reader : reader_pc;
  c_writer : wsock_pc;
  c_pinger : ping_pc;
  c_accepted : list frame;     (* ghost: in the order they entered the channel *)
  c_written : list frame;      (* ghost: what [WriteMessage] took *)
  c_handled : list inbound     (* ghost: the frames read *)
}.

(** After the upgrade. *)
Definition newConn (now : Z) : conn :=
  mkConn now (now + pongTimeout) true [] false true ∅ RRead SSelect PingSelect [] [] [].

(** ** Operations *)

Definition put_enq (k : frame) (p : enq_pc) (s : conn) : conn :=
  mkConn (c_clock s) (c_deadline s) (c_open s) (c_ch s) (c_done s) (c_ticker s) (<[k := p]> (c_enqs s)) (c_reader s) (c_writer s)
    (c_pinger s) (c_accepted s) (c_written s) (c_handled s).

Definition enter (k : frame) (s : conn) : conn :=
  mkConn (c_clock s) (c_deadline s) (c_open s) (c_ch s ++ [k]) (c_done s) (c_ticker s) (<[k := POk_]> (c_enqs s)) (c_reader s) (c_writer s)
    (c_pinger s) (c_accepted s ++ [k]) (c_written s) (c_handled s).

Definition at_reader (p : reader_pc) (s : conn) : conn :=
  mkConn (c_clock s) (c_deadline s) (c_open s) (c_ch s) (c_done s) (c_ticker s) (c_enqs s) p (c_writer s) (c_pinger s) (c_accepted s)
    (c_written s) (c_handled s).

Definition at_writer (p : wsock_pc) (s : conn) : conn :=
  mkConn (c_clock s) (c_deadline s) (c_open s) (c_ch s) (c_done s) (c_ticker s) (c_enqs s) (c_reader s) p (c_pinger s) (c_accepted s)
    (c_written s) (c_handled s).

Definition at_pinger (p : ping_pc) (s : conn) : conn :=
  mkConn (c_clock s) (c_deadline s) (c_open s) (c_ch s) (c_done s) (c_ticker s) (c_enqs s) (c_reader s) (c_writer s) p (c_accepted s)
    (c_written s) (c_handled s).

(** [cw.close]: only the first call closes the channel. *)
Definition close_queue (s : conn) : conn :=
  mkConn (c_clock s) (c_deadline s) (c_open s) (c_ch s) true (c_ticker s) (c_enqs s) (c_reader s) (c_writer s) (c_pinger s) (c_accepted s)
    (c_written s) (c_handled s).

Definition close_conn (s : conn) : conn :=
  mkConn (c_clock s) (c_deadline s) false (c_ch s) (c_done s) (c_ticker s) (c_enqs s) (c_reader s) (c_writer s) (c_pinger s) (c_accepted s)
    (c_written s) (c_handled s).

Definition stop_ticker (s : conn) : conn :=
  mkConn (c_clock s) (c_deadline s) (c_open s) (c_ch s) (c_done s) false (c_enqs s) (c_reader s) (c_writer s) (c_pinger s) (c_accepted s)
    (c_written s) (c_handled s).

Definition take_frame (f : frame) (l : list frame) (s : conn) : conn :=
  mkConn (c_clock s) (c_deadline s) (c_open s) l (c_done s) (c_ticker s) (c_enqs s) (c_reader s) (SWrite f) (c_pinger s) (c_accepted s)
    (c_written s) (c_handled s).

Definition wrote (f : frame) (s : conn) : conn :=
  mkConn (c_clock s) (c_deadline s) (c_open s) (c_ch s) (c_done s) (c_ticker s) (c_enqs s) (c_reader s) SSelect (c_pinger s) (c_accepted s)
    (c_written s ++ [f]) (c_handled s).

Definition got_frame (i : inbound) (s : conn) : conn :=
  mkConn (c_clock s) (c_deadline s) (c_open s) (c_ch s) (c_done s) (c_ticker s) (c_enqs s) (RHandle i) (c_writer s) (c_pinger s) (c_accepted s)
    (c_written s) (c_handled s ++ [i]).

(** The pong handler, run by the reader's [NextReader]. *)
Definition pong (s : conn) : conn :=
  mkConn (c_clock s) (c_clock s + pongTimeout) (c_open s) (c_ch s) (c_done s) (c_ticker s) (c_enqs s) (c_reader s) (c_writer s) (c_pinger s)
    (c_accepted s) (c_written s) (c_handled s).

Definition pass_time (t : Z) (s : conn) : conn :=
  mkConn t (c_deadline s) (c_open s) (c_ch s) (c_done s) (c_ticker s) (c_enqs s) (c_reader s) (c_writer s) (c_pinger s) (c_accepted s)
    (c_written s) (c_handled s).

(** The writer's counters for a frame of [size] bytes that took [ns]. *)
Definition count_write (size ns : Z) (t : PionTrace) : PionTrace :=
  if Enabled t then
    {| enabled := enabled t; ReadFrames := ReadFrames t; ReadBytes := ReadBytes t;
       DCFrames := DCFrames t; DCBytes := DCBytes t; DCNs := DCNs t; DCQDepth := DCQDepth t;
       WriteFrames := i64 (WriteFrames t + 1); WriteBytes := i64 (WriteBytes t + size); WriteNs := i64 (WriteNs t + ns);
       dcIndex := dcIndex t; nextIdx := nextIdx t; freeIdx := freeIdx t |}
  else t.

(** ** Steps *)

(** The three goroutines; [processFrame] returns in the end.  A frame may fail to be read at any time, and does
    when the socket is closed or the deadline has passed. *)
Inductive gstep (s : conn) : conn -> Prop :=
  | r_frame i : c_reader s = RRead -> c_open s = true -> c_clock s <= c_deadline s -> gstep s (got_frame i s)
  | r_pong : c_reader s = RRead -> c_open s = true -> c_clock s <= c_deadline s -> gstep s (pong s)
  | r_error : c_reader s = RRead -> gstep s (at_reader RStopTicker s)
  | r_handled i : c_reader s = RHandle i -> gstep s (at_reader RRead s)
  | r_responded i k : c_reader s = RRespond i k -> c_enqs s !! k = Some POk_ \/ c_enqs s !! k = Some PClosed -> gstep s (at_reader (RHandle i) s)
  | r_stop_ticker : c_reader s = RStopTicker -> gstep s (at_reader RCloseQueue (stop_ticker s))
  | r_close_queue : c_reader s = RCloseQueue -> gstep s (at_reader RCloseConn (close_queue s))
  | r_close_conn : c_reader s = RCloseConn -> gstep s (at_reader RGone (close_conn s))
  | s_done : c_writer s = SSelect -> c_done s = true -> gstep s (at_writer SCloseConn s)
  | s_take f l : c_writer s = SSelect -> c_ch s = f :: l -> gstep s (take_frame f l s)
  | s_written f : c_writer s = SWrite f -> c_open s = true -> gstep s (wrote f s)
  | s_failed f : c_writer s = SWrite f -> gstep s (at_writer SCloseConn s)
  | s_close_conn : c_writer s = SCloseConn -> gstep s (at_writer SCloseQueue (close_conn s))
  | s_close_queue : c_writer s = SCloseQueue -> gstep s (at_writer SGone (close_queue s))
  | p_done : c_pinger s = PingSelect -> c_done s = true -> gstep s (at_pinger PingGone s)
  | p_tick : c_pinger s = PingSelect -> c_ticker s = true -> gstep s (at_pinger PingWrite s)
  | p_pinged : c_pinger s = PingWrite -> c_open s = true -> gstep s (at_pinger PingSelect s)
  | p_failed : c_pinger s = PingWrite -> gstep s (at_pinger PingGone s).

(** A call of [enqueue], by the reader or another producer. *)
Inductive estep (s : conn) : conn -> Prop :=
  | x_was_closed k : c_enqs s !! k = Some PCheck -> c_done s = true -> estep s (put_enq k PClosed s)
  | x_was_open k : c_enqs s !! k = Some PCheck -> c_done s = false -> estep s (put_enq k PSelect s)
  | x_send k : c_enqs s !! k = Some PSelect -> Z.of_nat (length (c_ch s)) < writeChanSize -> estep s (enter k s)
  | x_closed k : c_enqs s !! k = Some PSelect -> c_done s = true -> estep s (put_enq k PClosed s).

Inductive cstep (s : conn) : conn -> Prop :=
  | c_goroutine s' : gstep s s' -> cstep s s'
  | c_enqueue s' : estep s s' -> cstep s s'
  (* the handler queues an event or its response *)
  | c_respond i k : c_reader s = RHandle i -> c_enqs s !! k = None -> cstep s (at_reader (RRespond i k) (put_enq k PCheck s))
  | c_produce k : c_enqs s !! k = None -> cstep s (put_enq k PCheck s)
  | c_time t : c_clock s <= t -> cstep s (pass_time t s).

(** ** Invariant *)

Definition in_hand (p : wsock_pc) : list frame := match p with SWrite f => [f] | _ => [] end.

Definition ending (p : wsock_pc) : bool := match p with SSelect | SWrite _ => false | _ => true end.

(** The connection is on its way down. *)
Definition down (s : conn) : Prop := c_done s = true \/ c_open s = false.

Record conn_ok (s : conn) : Prop := {
  co_fifo : if ending (c_writer s) then c_written s `prefix_of` c_accepted s else c_accepted s = c_written s ++ in_hand (c_writer s) ++ c_ch s;
  co_keys : forall k, k ∈ c_accepted s <-> c_enqs s !! k = Some POk_;
  co_nodup : NoDup (c_accepted s);
  co_cap : Z.of_nat (length (c_ch s)) <= writeChanSize;
  co_done : c_done s = true -> c_open s = false \/ c_reader s = RCloseConn;
  co_open : c_open s = false -> c_done s = true \/ c_writer s = SCloseQueue;
  co_reader : match c_reader s with RCloseConn => c_done s = true | RGone => c_done s = true /\ c_open s = false | _ => True end;
  co_writer : match c_writer s with SCloseQueue => c_open s = false | SGone => c_done s = true /\ c_open s = false | SCloseConn => True | _ => True end;
  co_ticker : c_ticker s = false <-> match c_reader s with RCloseQueue | RCloseConn | RGone => True | _ => False end;
  co_respond : forall i k, c_reader s = RRespond i k -> is_Some (c_enqs s !! k)
}.

Lemma ok_newConn now : conn_ok (newConn now).
Proof.
  constructor; cbn; try done; [|constructor].
  intros k. rewrite lookup_empty. split; [by intros ?%not_elem_of_nil|done].
Qed.

(** What [enqueue] does without sending. *)
Lemma ok_put k p s : conn_ok s -> p <> POk_ -> c_enqs s !! k <> Some POk_ -> conn_ok (put_enq k p s).
Proof.
  intros [] Hp Hk. constructor; cbn; try done.
  - intros k'. rewrite co_keys0. destruct (decide (k = k')) as [<-|]; [rewrite lookup_insert_eq|rewrite lookup_insert_ne by done]; [|done]. split; [done|by intros [= ?]].
  - intros i k' Hr. destruct (decide (k = k')) as [<-|]; [rewrite lookup_insert_eq|rewrite lookup_insert_ne by done]; [done|by eapply co_respond0].
Qed.

Lemma ok_enter k s : conn_ok s -> c_enqs s !! k = Some PSelect -> Z.of_nat (length (c_ch s)) < writeChanSize -> conn_ok (enter k s).
Proof.
  intros [] Hk Hc. constructor; cbn; try done.
  - destruct (ending (c_writer s)); [by apply prefix_app_r|]. rewrite co_fifo0, <- !app_assoc. done.
  - intros k'. rewrite elem_of_app, co_keys0, list_elem_of_singleton. destruct (decide (k = k')) as [<-|]; [rewrite lookup_insert_eq|rewrite lookup_insert_ne by done]; naive_solver.
  - apply NoDup_app. split_and!; [done| |apply NoDup_singleton]. intros k' Hk' ->%list_elem_of_singleton. apply co_keys0 in Hk'. congruence.
  - rewrite length_app. cbn. lia.
  - intros i k' Hr. destruct (decide (k = k')) as [<-|]; [rewrite lookup_insert_eq|rewrite lookup_insert_ne by done]; [done|by eapply co_respond0].
Qed.

(** One field of the invariant after a step. *)
Ltac field Hd Ho :=
  first
    [ done
    | intros Hx; first [by left | by right]
    | let Hx := fresh "Hx" in let E := fresh "E" in
      intros Hx; first [destruct (Hd Hx) as [E|E] | destruct (Ho Hx) as [E|E]]; first [by left | by right | congruence]
    | match goal with
      | |- match c_reader ?s with _ => _ end => destruct (c_reader s); tauto
      | |- match c_writer ?s with _ => _ end => destruct (c_writer s); tauto
      end ].

Lemma ok_gstep s s' : conn_ok s -> gstep s s' -> conn_ok s'.
Proof.
  intros Hok Hst. destruct Hok. destruct Hst as [i Hr Ho _|Hr Ho _|Hr|i Hr|i k Hr _|Hr|Hr|Hr|Hw Hd|f l Hw Hc|f Hw Ho|f Hw|Hw|Hw|Hp Hd|Hp Ht|Hp Ho|Hp];
    try rewrite Hr in co_reader0, co_ticker0; try rewrite Hw in co_fifo0, co_writer0; constructor; cbn; try rewrite Hr; try field co_done0 co_open0.
  - rewrite co_fifo0. by apply prefix_app_r.
  - by rewrite co_fifo0, Hc.
  - rewrite Hc in co_cap0. cbn in co_cap0. lia.
  - by rewrite co_fifo0, <- app_assoc.
  - rewrite co_fifo0. by apply prefix_app_r.

Qed.

Lemma ok_estep s s' : conn_ok s -> estep s s' -> conn_ok s'.
Proof. intros Hok Hst. destruct Hst as [k Hk|k Hk|k Hk Hc|k Hk]; [..|by apply ok_enter|]; apply ok_put; congruence || done. Qed.

Lemma ok_cstep s s' : conn_ok s -> cstep s s' -> conn_ok s'.
Proof.
  intros Hok Hst. destruct Hst as [s' Hg|s' He|i k Hr Hk|k Hk|t Ht]; [by eapply ok_gstep|by eapply ok_estep| | |].
  - pose proof (ok_put k PCheck s Hok ltac:(done) ltac:(congruence)) as []. constructor; cbn in *; rewrite ?Hr in *; try done.
    + intros Hd. by destruct (co_done0 Hd) as [?|?]; [left|].
    + intros i' k' [= <- <-]. by rewrite lookup_insert_eq.
  - apply ok_put; congruence || done.
  - destruct Hok. by constructor.
Qed.

Lemma ok_conn now s : rtc cstep (newConn now) s -> conn_ok s.
Proof. intros Hr. eapply rtc_preserve; [exact ok_cstep|apply ok_newConn|exact Hr]. Qed.

(** ** Coming down *)

(** The steps that a call of [enqueue] may still take or cause. *)
Definition enq_weight (p : enq_pc) : nat := match p with PCheck => 4 | PSelect => 3 | _ => 0 end.

Definition enqs_weight (m : gmap frame enq_pc) : nat := map_fold (fun _ p n => (enq_weight p + n)%nat) 0%nat m.

Definition reader_weight (p : reader_pc) : nat :=
  match p with RRespond _ _ => 8 | RHandle _ => 7 | RRead => 6 | RStopTicker => 5 | RCloseQueue => 3 | RCloseConn => 2 | RGone => 0 end.

Definition writer_weight (p : wsock_pc) : nat :=
  match p with SSelect => 3 | SWrite _ => 4 | SCloseConn => 2 | SCloseQueue => 1 | SGone => 0 end.

Definition pinger_weight (ticker : bool) (p : ping_pc) : nat :=
  match p with PingSelect => if ticker then 2 else 1 | PingWrite => if ticker then 1 else 2 | PingGone => 0 end.

Definition effort (s : conn) : nat :=
  (reader_weight (c_reader s) + (writer_weight (c_writer s) + (2 * length (c_ch s) + (pinger_weight (c_ticker s) (c_pinger s) + enqs_weight (c_enqs s)))))%nat.

Definition all_gone (s : conn) : Prop := c_reader s = RGone /\ c_writer s = SGone /\ c_pinger s = PingGone.

Lemma enqs_weight_insert m k p q : m !! k = Some p -> (enqs_weight (<[k := q]> m) + enq_weight p = enqs_weight m + enq_weight q)%nat.
Proof.
  intros Hk. unfold enqs_weight. rewrite <- (insert_delete_id m k p Hk) at 2. rewrite <- insert_delete_eq.
  rewrite !map_fold_insert_L by (lia || (intros; lia) || apply lookup_delete_eq). lia.
Qed.

Lemma effort_gstep s s' : conn_ok s -> down s -> gstep s s' -> (effort s' < effort s)%nat.
Proof.
  intros [] Hd Hst. assert (Hup : c_open s = true -> c_reader s = RCloseConn) by (intros Ho; destruct Hd as [Hd|Hd]; [destruct (co_done0 Hd); congruence|congruence]).
  unfold effort. destruct Hst as [i Hr Ho _|Hr Ho _|Hr|i Hr|i k Hr _|Hr|Hr|Hr|Hw Hd'|f l Hw Hc|f Hw Ho|f Hw|Hw|Hw|Hp Hd'|Hp Ht|Hp Ho|Hp]; cbn; try (specialize (Hup Ho)); try congruence.
  all: try rewrite Hr; try rewrite Hw; try rewrite Hp; try rewrite Hc; try rewrite Ht; cbn; try lia.
  - destruct (c_ticker s), (c_pinger s); cbn; lia.
  - destruct (c_ticker s); cbn; lia.
  - rewrite (proj2 co_ticker0) by (by rewrite Hup). cbn. lia.
  - destruct (c_ticker s); cbn; lia.
Qed.

Lemma effort_estep s s' : estep s s' -> (effort s' < effort s)%nat.
Proof.
  intros Hst. unfold effort. destruct Hst as [k Hk|k Hk|k Hk|k Hk]; cbn -[enqs_weight].
  1: pose proof (enqs_weight_insert _ k _ PClosed Hk) as E.
  2: pose proof (enqs_weight_insert _ k _ PSelect Hk) as E.
  3: pose proof (enqs_weight_insert _ k _ POk_ Hk) as E.
  4: pose proof (enqs_weight_insert _ k _ PClosed Hk) as E.
  all: cbn [enq_weight] in E; rewrite ?length_app; cbn [length]; lia.
Qed.

Definition own (s s' : conn) : Prop := gstep s s' \/ estep s s'.

Lemma down_own s s' : down s -> own s s' -> down s'.
Proof. unfold down. intros Hd [Hst|Hst]; destruct Hst; cbn; tauto. Qed.

Lemma down_moves s : conn_ok s -> down s -> all_gone s \/ exists s', own s s'.
Proof.
  intros [] Hd. unfold own. assert (Hq : c_done s = false -> c_writer s = SCloseQueue).
  { intros Hn. destruct Hd as [Hd|Hd]; [congruence|]. destruct (co_open0 Hd); [congruence|done]. }
  destruct (c_reader s) as [|i|i k| | | |] eqn:Hr.
  - right. eexists. left. by apply r_error.
  - right. eexists. left. by eapply r_handled.
  - right. destruct (co_respond0 i k eq_refl) as [[] Hk]; destruct (c_done s) eqn:Ed.
    + eexists. right. by apply (x_was_closed _ k).
    + eexists. right. by apply (x_was_open _ k).
    + eexists. right. by apply (x_closed _ k).
    + eexists. left. apply s_close_queue. by apply Hq.
    + eexists. left. eapply r_responded; [done|by left].
    + eexists. left. eapply r_responded; [done|by left].
    + eexists. left. eapply r_responded; [done|by right].
    + eexists. left. eapply r_responded; [done|by right].
  - right. eexists. left. by apply r_stop_ticker.
  - right. eexists. left. by apply r_close_queue.
  - right. eexists. left. by apply r_close_conn.
  - destruct co_reader0 as [H1 _]. destruct (c_writer s) as [|f| | |] eqn:Hw.
    + right. eexists. left. by apply s_done.
    + right. eexists. left. by eapply s_failed.
    + right. eexists. left. by apply s_close_conn.
    + right. eexists. left. by apply s_close_queue.
    + destruct (c_pinger s) eqn:Hp; [right; eexists; left; by apply p_done|right; eexists; left; by apply p_failed|by left].
Qed.

Lemma own_ok s s' : conn_ok s -> own s s' -> conn_ok s'.
Proof. intros Hok [Hst|Hst]; [by eapply ok_gstep|by eapply ok_estep]. Qed.

Lemma effort_own s s' : conn_ok s -> down s -> own s s' -> (effort s' < effort s)%nat.
Proof. intros Hok Hd [Hst|Hst]; [by apply effort_gstep|by apply effort_estep]. Qed.

Lemma down_ends s : conn_ok s -> down s -> exists s', rtc own s s' /\ all_gone s'.
Proof.
  intros Hok Hd. remember (effort s) as n eqn:En. revert s Hok Hd En. induction (lt_wf n) as [n _ IH]. intros s Hok Hd ->.
  destruct (down_moves s Hok Hd) as [Hg|[s1 Hs1]]; [by exists s|].
  destruct (IH (effort s1) (effort_own s s1 Hok Hd Hs1) s1 (own_ok s s1 Hok Hs1) (down_own s s1 Hd Hs1) eq_refl) as (s' & Hr & Hg).
  exists s'. split; [by eapply rtc_l|done].
Qed.

(** ** Main property *)


Module ConnExample.

(** An answer is queued and taken by the writer, whose write fails. *)
Definition s1 : conn := put_enq 7%nat PSelect (at_reader (RRespond 1%nat 7%nat) (put_enq 7%nat PCheck (got_frame 1%nat (newConn 5)))).

Definition s2 : conn := at_writer SCloseConn (take_frame 7%nat [] (enter 7%nat s1)).

Lemma s2_run : rtc cstep (newConn 5) s2.
Proof.
  eapply rtc_l; [apply c_goroutine, (r_frame _ 1%nat); [reflexivity|reflexivity|discriminate]|].
  eapply rtc_l; [apply (c_respond _ 1%nat 7%nat); reflexivity|]. eapply rtc_l; [apply c_enqueue, (x_was_open _ 7%nat); reflexivity|].
  eapply rtc_l; [apply c_enqueue, (x_send _ 7%nat); reflexivity|]. eapply rtc_l; [apply c_goroutine, (s_take _ 7%nat []); reflexivity|].
  eapply rtc_l; [apply c_goroutine, (s_failed _ 7%nat); reflexivity|]. apply rtc_refl.
Qed.

Definition s3 : conn := at_writer SCloseQueue (close_conn s2).


End ConnExample.
