(* ===== verification/Entry.v ===== *)
(** * The entry points (cshared.go, mobile.go, main.go)

    The table of sessions behind the C interface, and the start and stop of the
    server on mobile.  A session is seen from its callers here: the frames
    pushed and not yet taken by its reader, and whether it was closed; what goes
    on inside is in Session.v and Server.v. *)

From Stdlib Require Import Ascii String.
From S2P Require Import Prelude.

Local Open Scope Z_scope.

(** ** Background clean-up (registry.go [StartCleanup]) *)

(** The goroutine, by its interval and age in seconds, while it runs. *)
Record cleanup := mkCleanup { interval : Z; maxAge : Z; running : bool }.

Definition StartCleanup (interval maxAge : Z) : cleanup := mkCleanup interval maxAge true.

(** The function it returns; a second call does nothing. *)
Definition stop (c : cleanup) : cleanup := mkCleanup (interval c) (maxAge c) false.

Module CShared.

(** ** Sessions behind the C interface *)

Definition bytes := list Z.

(** frame_session.go: [in] holds [writeChanSize] frames. *)
Definition writeChanSize : nat := Z.to_nat 8192.

Record FrameSession := mkFS { fs_callback : nat; fs_in : list bytes; fs_done : bool }.

Definition NewFrameSession (cb : nat) : FrameSession := mkFS cb [] false.

(** [Push] when no [Close] runs at the same time: [None] when it waits for room. *)
Definition Push (f : bytes) (s : FrameSession) : option (bool * FrameSession) :=
  if fs_done s then Some (false, s)
  else if (length (fs_in s) <? writeChanSize)%nat then Some (true, mkFS (fs_callback s) (fs_in s ++ [f]) false)
  else None.

Definition Close (s : FrameSession) : FrameSession := mkFS (fs_callback s) (fs_in s) true.

(** The package's variables. *)
Record shared := mkShared { server : option cleanup; nextID : Z; sessions : gmap Z FrameSession }.

Definition start : shared := mkShared None 1 ∅.

Definition ensureServer (s : shared) : shared :=
  match server s with Some _ => s | None => mkShared (Some (StartCleanup 30 300)) (nextID s) (sessions s) end.

Definition PionBridgeOpen (cb : nat) (s : shared) : Z * shared :=
  let id := nextID s in
  let s := mkShared (server s) (i64 (id + 1)) (sessions s) in
  let s := ensureServer s in
  (id, mkShared (server s) (nextID s) (<[id := NewFrameSession cb]> (sessions s))).

(** The result, or [None] while it waits. *)
Definition PionBridgeSend (id : Z) (data : bytes) (s : shared) : option (Z * shared) :=
  match sessions s !! id with
  | None => Some (-1, s)
  | Some fs =>
      '(ok, fs') ← Push data fs;
      Some (if ok : bool then 0 else -1, mkShared (server s) (nextID s) (<[id := fs']> (sessions s)))
  end.

(** The session that is closed, outside the lock, and the table. *)
Definition PionBridgeClose (id : Z) (s : shared) : option FrameSession * shared :=
  (Close <$> sessions s !! id, mkShared (server s) (nextID s) (delete id (sessions s))).

(** The reader of a session takes a frame. *)
Definition take_in (id : Z) (s : shared) : shared :=
  match sessions s !! id with
  | Some fs => mkShared (server s) (nextID s) (<[id := mkFS (fs_callback fs) (tail (fs_in fs)) (fs_done fs)]> (sessions s))
  | None => s
  end.

Inductive op := Open (cb : nat) | Send (id : Z) (data : bytes) | CloseId (id : Z) | Take (id : Z).

(** What a caller sees. *)
Inductive answer := Opened (id : Z) | Sent (code : Z) | Closed | Took.

Inductive call (s : shared) : op -> answer -> shared -> Prop :=
  | call_open cb id s' : PionBridgeOpen cb s = (id, s') -> call s (Open cb) (Opened id) s'
  | call_send id data code s' : PionBridgeSend id data s = Some (code, s') -> call s (Send id data) (Sent code) s'
  | call_close id fs s' : PionBridgeClose id s = (fs, s') -> call s (CloseId id) Closed s'
  | call_take id : call s (Take id) Took (take_in id s).

(** The calls so far, with their answers. *)
Inductive runs : list (op * answer) -> shared -> Prop :=
  | runs_start : runs [] start
  | runs_call l s o a s' : runs l s -> call s o a s' -> runs (l ++ [(o, a)]) s'.

Definition opened (l : list (op * answer)) : list Z := omap (fun x => match x.2 with Opened id => Some id | _ => None end) l.

(** Opened and not closed since. *)
Definition live (id : Z) (l : list (op * answer)) : bool :=
  fold_left (fun b x => match x with
                        | (Open _, Opened id') => if id =? id' then true else b
                        | (CloseId id', _) => if id =? id' then false else b
                        | _ => b
                        end) l false.

Record table_ok (l : list (op * answer)) (s : shared) : Prop := {
  tb_ids : opened l = map Z.of_nat (seq 1 (length (opened l)));
  tb_next : nextID s = Z.of_nat (length (opened l)) + 1;
  tb_live : forall id, is_Some (sessions s !! id) <-> live id l = true;
  tb_bound : forall id, is_Some (sessions s !! id) -> 1 <= id < nextID s;
  tb_open : forall id fs, sessions s !! id = Some fs -> fs_done fs = false /\ (length (fs_in fs) <= writeChanSize)%nat;
  tb_server : server s = if bool_decide (opened l = []) then None else Some (StartCleanup 30 300)
}.

Lemma opened_app l l' : opened (l ++ l') = opened l ++ opened l'.
Proof. apply omap_app. Qed.

Lemma live_snoc id l o a : live id (l ++ [(o, a)]) = match o, a with
  | Open _, Opened id' => if id =? id' then true else live id l
  | CloseId id', _ => if id =? id' then false else live id l
  | _, _ => live id l end.
Proof. unfold live. rewrite fold_left_app. cbn. by destruct o, a. Qed.

(** Nothing but the session changes. *)
Lemma table_touch l s id fs fs' o a :
  table_ok l s -> sessions s !! id = Some fs -> fs_done fs' = false -> (length (fs_in fs') <= writeChanSize)%nat ->
  (match o, a with Open _, _ | CloseId _, _ | _, Opened _ => False | _, _ => True end) ->
  table_ok (l ++ [(o, a)]) (mkShared (server s) (nextID s) (<[id := fs']> (sessions s))).
Proof.
  intros [] Hs Hd Hl Ho. assert (Hop : opened (l ++ [(o, a)]) = opened l) by (rewrite opened_app; destruct o, a; cbn; by rewrite ?app_nil_r).
  constructor; cbn; rewrite ?Hop; try done.
  - intros id'. rewrite lookup_insert_is_Some', tb_live0, live_snoc. assert (Hid : live id l = true) by (apply tb_live0; by eexists). destruct o, a; try done; naive_solver.
  - intros id' [<-|Hid]%lookup_insert_is_Some'; [apply tb_bound0; by eexists|by apply tb_bound0].
  - intros id' fs0. rewrite lookup_insert_Some. intros [[<- <-]|[_ H]]; [done|by eapply tb_open0].
Qed.

Lemma table_same l s o a :
  table_ok l s -> (match o, a with Open _, _ | CloseId _, _ | _, Opened _ => False | _, _ => True end) -> table_ok (l ++ [(o, a)]) s.
Proof.
  intros [] Ho. assert (Hop : opened (l ++ [(o, a)]) = opened l) by (rewrite opened_app; destruct o, a; cbn; by rewrite ?app_nil_r).
  constructor; rewrite ?Hop; try done. intros id. rewrite tb_live0, live_snoc. by destruct o, a.
Qed.

Lemma i64_small z : 0 <= z < 2 ^ 63 -> i64 z = z.
Proof. intros Hz. unfold i64. rewrite Z.mod_small by lia. by rewrite (proj2 (Z.ltb_lt _ _)) by lia. Qed.

Lemma table_opens l s cb :
  Z.of_nat (length (opened l)) + 2 < 2 ^ 63 -> table_ok l s -> table_ok (l ++ [(Open cb, Opened (nextID s))]) (PionBridgeOpen cb s).2.
Proof.
  intros Hb []. assert (Hop : opened (l ++ [(Open cb, Opened (nextID s))]) = opened l ++ [nextID s]) by (by rewrite opened_app).
  assert (Hn : i64 (nextID s + 1) = nextID s + 1) by (apply i64_small; lia).
  assert (E : (PionBridgeOpen cb s).2 = mkShared (Some (StartCleanup 30 300)) (nextID s + 1) (<[nextID s := NewFrameSession cb]> (sessions s))).
  { unfold PionBridgeOpen, ensureServer. cbn. rewrite Hn. rewrite tb_server0. by case_bool_decide. }
  rewrite E. constructor; cbn; rewrite ?Hop, ?length_app; cbn [length].
  - rewrite seq_app, map_app, <- tb_ids0. cbn. f_equal. f_equal. lia.
  - lia.
  - intros id. rewrite lookup_insert_is_Some', live_snoc, tb_live0. destruct (Z.eqb_spec id (nextID s)); naive_solver.
  - intros id [<-|Hid]%lookup_insert_is_Some'; [lia|]. specialize (tb_bound0 id Hid). lia.
  - intros id fs. rewrite lookup_insert_Some. intros [[_ <-]|[_ H]]; [cbn; split; [done|lia]|by eapply tb_open0].
  - rewrite bool_decide_eq_false_2; [done|]. by destruct (opened l).
Qed.

Lemma table_closes l s id a : table_ok l s -> a = Closed -> table_ok (l ++ [(CloseId id, a)]) (PionBridgeClose id s).2.
Proof.
  intros [] ->. assert (Hop : opened (l ++ [(CloseId id, Closed)]) = opened l) by (rewrite opened_app; cbn; by rewrite app_nil_r).
  constructor; cbn; rewrite ?Hop; try done.
  - intros id'. rewrite lookup_delete_is_Some, tb_live0, live_snoc. destruct (Z.eqb_spec id' id); naive_solver.
  - intros id' [_ Hid]%lookup_delete_is_Some. by apply tb_bound0.
  - intros id' fs [_ H]%lookup_delete_Some. by eapply tb_open0.
Qed.

Lemma table_sends l s id data code s' : table_ok l s -> PionBridgeSend id data s = Some (code, s') -> table_ok (l ++ [(Send id data, Sent code)]) s'.
Proof.
  intros Ht. unfold PionBridgeSend. destruct (sessions s !! id) as [fs|] eqn:Es; [|intros [= <- <-]; by apply table_same].
  destruct (tb_open _ _ Ht id fs Es) as [Hd Hl]. unfold Push. rewrite Hd. destruct (Nat.ltb_spec (length (fs_in fs)) writeChanSize) as [Hlt|]; [|done]. intros [= <- <-].
  apply (table_touch l s id fs); try done. cbn [fs_in]. rewrite length_app. cbn [length]. lia.
Qed.

Lemma table_takes l s id : table_ok l s -> table_ok (l ++ [(Take id, Took)]) (take_in id s).
Proof.
  intros Ht. unfold take_in. destruct (sessions s !! id) as [fs|] eqn:Es; [|by apply table_same]. destruct (tb_open _ _ Ht id fs Es) as [Hd Hl].
  apply (table_touch l s id fs); try done. cbn [fs_in]. destruct (fs_in fs); cbn [tail length] in *; lia.
Qed.

Lemma table_runs l s : runs l s -> Z.of_nat (length (opened l)) + 1 < 2 ^ 63 -> table_ok l s.
Proof.
  intros Hr. induction Hr as [|l s o a s' Hr IH Hc]; intros Hb.
  - constructor; cbn; try done; intros id; [rewrite lookup_empty; split; [by intros [? ?]|done]|by intros [? ?]].
  - rewrite opened_app, length_app in Hb. destruct Hc as [cb id s' E|id data code s' E|id fs s' E|id].
    + cbn in Hb. specialize (IH ltac:(lia)). assert (id = nextID s) as -> by (by injection E). replace s' with (PionBridgeOpen cb s).2 by (by rewrite E). apply table_opens; [lia|done].
    + eapply table_sends; [apply IH; lia|done].
    + replace s' with (PionBridgeClose id s).2 by (by rewrite E). apply table_closes; [apply IH; lia|done].
    + apply table_takes, IH. lia.
Qed.

(** The sessions of the C interface are kept apart.  After any calls, with
    fewer than 2^63 sessions opened in all: the ids given out are 1, 2, 3, ..., so
    no id is used twice; a frame is refused with -1 exactly when its session was
    never opened or has been closed, accepted with 0 when there is room, and the
    call waits exactly when 8192 frames are waiting; it reaches that session
    only; a closed session is out of the table and stays so; and there is one
    server with one clean-up, made by the first session. *)
Theorem sessions_kept_apart l s :
  runs l s -> Z.of_nat (length (opened l)) + 1 < 2 ^ 63 ->
  opened l = map Z.of_nat (seq 1 (length (opened l))) /\ NoDup (opened l)
  /\ server s = (if bool_decide (opened l = []) then None else Some (StartCleanup 30 300))
  /\ (forall id data,
        match PionBridgeSend id data s with
        | Some (code, s') =>
            (code = -1 /\ live id l = false /\ s' = s)
            \/ (code = 0 /\ live id l = true /\ exists fs, sessions s !! id = Some fs
                /\ sessions s' = <[id := mkFS (fs_callback fs) (fs_in fs ++ [data]) false]> (sessions s))
        | None => live id l = true /\ exists fs, sessions s !! id = Some fs /\ length (fs_in fs) = writeChanSize
        end)
  /\ (forall id, live id l = false -> id ∈ opened l -> forall l' s', runs (l ++ l') s' -> Z.of_nat (length (opened (l ++ l'))) + 1 < 2 ^ 63 ->
        live id (l ++ l') = false).
Proof.
  intros Hr Hb. pose proof (table_runs l s Hr Hb) as Ht. split; [apply Ht|].
  assert (Hnd : forall l0 s0, table_ok l0 s0 -> NoDup (opened l0)).
  { intros l0 s0 H0. rewrite (tb_ids _ _ H0). apply (NoDup_fmap_2 Z.of_nat), NoDup_seq. }
  split; [by eapply Hnd|]. split; [apply Ht|]. split.
  - intros id data. unfold PionBridgeSend. destruct (sessions s !! id) as [fs|] eqn:Es.
    + assert (Hl : live id l = true) by (apply (tb_live _ _ Ht); by eexists). destruct (tb_open _ _ Ht id fs Es) as [Hd Hn]. unfold Push. rewrite Hd.
      destruct (Nat.ltb_spec (length (fs_in fs)) writeChanSize); cbn; [right; split_and!; [done|done|by exists fs]|]. split; [done|]. exists fs. split; [done|lia].
    + left. split_and!; [done| |done]. destruct (live id l) eqn:El; [|done]. apply (tb_live _ _ Ht) in El as [? ?]. congruence.
  - intros id Hd Hin l' s' Hr' Hb'. pose proof (Hnd _ _ (table_runs _ _ Hr' Hb')) as Hnd'. rewrite opened_app in Hnd'. apply NoDup_app in Hnd' as (_ & Hdis & _).
    specialize (Hdis id Hin). clear -Hd Hdis. revert Hdis. induction l' as [|[o a] l' IH] using rev_ind; intros Hdis; [by rewrite app_nil_r|].
    rewrite opened_app, elem_of_app in Hdis. rewrite app_assoc, live_snoc. assert (Hp : live id (l ++ l') = false) by (apply IH; tauto).
    destruct o, a; try done; [|by case_match..]. destruct (Z.eqb_spec id id0) as [->|]; [|done]. exfalso. apply Hdis. right. left.
Qed.

(** Two sessions; the first is closed, then used again. *)
Definition script : list (op * answer) :=
  [(Open 7%nat, Opened 1); (Open 8%nat, Opened 2); (Send 1 [5; 6], Sent 0); (CloseId 1, Closed); (Send 1 [5], Sent (-1))].

Definition s1 : shared := (PionBridgeOpen 7%nat start).2.

Definition s2 : shared := (PionBridgeOpen 8%nat s1).2.

Definition s3 : shared := from_option snd s2 (PionBridgeSend 1 [5; 6] s2).

Definition s4 : shared := (PionBridgeClose 1 s3).2.

Lemma script_runs : runs script s4.
Proof.
  assert (H1 : runs [(Open 7%nat, Opened 1)] s1) by (exact (runs_call [] start _ _ _ runs_start (call_open _ _ _ _ eq_refl))).
  assert (H2 : runs [(Open 7%nat, Opened 1); (Open 8%nat, Opened 2)] s2) by (exact (runs_call _ _ _ _ _ H1 (call_open _ _ _ _ eq_refl))).
  assert (H3 : runs [(Open 7%nat, Opened 1); (Open 8%nat, Opened 2); (Send 1 [5; 6], Sent 0)] s3).
  { apply (runs_call _ _ _ _ _ H2), call_send. unfold s3. vm_compute. reflexivity. }
  assert (H4 : runs [(Open 7%nat, Opened 1); (Open 8%nat, Opened 2); (Send 1 [5; 6], Sent 0); (CloseId 1, Closed)] s4).
  { apply (runs_call _ _ _ _ _ H3). apply call_close with (fs := (PionBridgeClose 1 s3).1). reflexivity. }
  apply (runs_call _ _ _ _ _ H4), call_send. vm_compute. reflexivity.
Qed.

Lemma sessions_kept_apart_witness :
  opened script = [1; 2] /\ live 1 script = false /\ live 2 script = true /\ NoDup (opened script).
Proof.
  split; [reflexivity|]. split; [reflexivity|]. split; [reflexivity|].
  exact (proj1 (proj2 (sessions_kept_apart script s4 script_runs ltac:(vm_compute; reflexivity)))).
Defined.

End CShared.

Module Mobile.

(** ** Start and stop on mobile *)

(** The package's variables, and the clean-ups ever started. *)
Record app := mkApp { listener : option Z; stopCleanup : option nat; cleanups : list cleanup; listening : list Z }.

Definition fresh : app := mkApp None None [] [].

Inductive result := Started (port : Z) (token : string) | AlreadyRunning | ListenFailed.

(** [strings.ReplaceAll(uuid, "-", "")]. *)
Fixpoint dropHyphens (s : string) : string :=
  match s with
  | EmptyString => EmptyString
  | String c s' => if Ascii.eqb c "-"%char then dropHyphens s' else String c (dropHyphens s')
  end.

(** [Start]; the port that the listener got, or none, and the uuid are given. *)
Definition Start (port : option Z) (uuid : string) (a : app) : result * app :=
  match listener a with
  | Some _ => (AlreadyRunning, a)
  | None =>
      let i := length (cleanups a) in
      let cs := cleanups a ++ [StartCleanup 30 300] in
      match port with
      | None => (ListenFailed, mkApp None (stopCleanup a) (alter stop i cs) (listening a))
      | Some p => (Started p (dropHyphens uuid), mkApp (Some p) (Some i) cs (listening a ++ [p]))
      end
  end.

Definition Stop (a : app) : app :=
  match listener a with
  | None => a
  | Some p =>
      let cs := match stopCleanup a with Some i => alter stop i (cleanups a) | None => cleanups a end in
      mkApp None None cs (filter (fun q => q <> p) (listening a))
  end.

Inductive astep : app -> app -> Prop :=
  | a_start port uuid a : astep a (Start port uuid a).2
  | a_stop a : astep a (Stop a).

Definition active (a : app) : list cleanup := filter (fun c => running c = true) (cleanups a).
#[global] Arguments active : simpl never.

(** The server runs with its clean-up, or neither does. *)
Definition app_ok (a : app) : Prop :=
  match listener a with
  | None => stopCleanup a = None /\ active a = [] /\ listening a = []
  | Some p => listening a = [p] /\ exists i c, stopCleanup a = Some i /\ cleanups a !! i = Some c /\ running c = true
      /\ forall j c', cleanups a !! j = Some c' -> running c' = true -> j = i
  end.

Lemma active_none a : active a = [] <-> forall j c, cleanups a !! j = Some c -> running c = false.
Proof.
  unfold active. split.
  - intros Hn j c Hj. destruct (running c) eqn:Er; [|done]. exfalso. assert (Hin : c ∈ filter (fun c => running c = true) (cleanups a)) by (apply list_elem_of_filter; split; [done|by eapply list_elem_of_lookup_2]).
    rewrite Hn in Hin. by apply elem_of_nil in Hin.
  - intros Hn. apply elem_of_nil_inv. intros c [Hr [j Hj]%list_elem_of_lookup_1]%list_elem_of_filter. by rewrite (Hn j c Hj) in Hr.
Qed.

Lemma stop_lookup (i j : nat) (cs : list cleanup) c : alter stop i cs !! j = Some c -> running c = true -> j <> i /\ cs !! j = Some c.
Proof.
  destruct (decide (j = i)) as [->|Hne]; [rewrite list_lookup_alter_eq|rewrite list_lookup_alter_ne by done]; [|done].
  destruct (cs !! i) as [c0|]; [|done]. cbn. by intros [= <-].
Qed.

Lemma app_start port uuid a : app_ok a -> app_ok (Start port uuid a).2.
Proof.
  unfold app_ok, Start. destruct (listener a) eqn:El; [cbn; by rewrite El|]. intros (Hs & Ha & Hl). rewrite active_none in Ha. destruct port as [p|]; cbn.
  - rewrite Hl. split; [done|]. exists (length (cleanups a)), (StartCleanup 30 300). split_and!; [done|by rewrite lookup_app_r, Nat.sub_diag by lia|done|].
    intros j c' Hj Hr. apply lookup_app_Some in Hj as [Hj|[Hge Hj]]; [by rewrite (Ha j c' Hj) in Hr|]. apply list_lookup_singleton_Some in Hj as [? _]. lia.
  - split_and!; [done| |done]. apply active_none. cbn. intros j c Hj. destruct (running c) eqn:Er; [|done]. apply stop_lookup in Hj as [Hne Hj]; [|done].
    apply lookup_app_Some in Hj as [Hj|[Hge Hj]]; [by rewrite (Ha j c Hj) in Er|]. apply list_lookup_singleton_Some in Hj as [? _]. lia.
Qed.

Lemma app_stop a : app_ok a -> app_ok (Stop a).
Proof.
  unfold app_ok, Stop. destruct (listener a) as [p|] eqn:El; [|cbn; by rewrite ?El]. intros (Hl & i & c & Hs & Hi & Hr & Hu). cbn. rewrite Hs, Hl.
  split_and!; [done| |rewrite filter_cons, filter_nil; by rewrite decide_False by (intros Hn; by apply Hn)].
  apply active_none. cbn. intros j c' Hj. destruct (running c') eqn:Er; [|done]. apply stop_lookup in Hj as [Hne Hj]; [|done]. by specialize (Hu j c' Hj Er).
Qed.

(** However often the server is started and stopped, and whether or not its
    listener could be made: at most one clean-up runs, exactly while the
    server listens, on one port; a second start is refused and changes nothing. *)
Theorem start_stop_balanced a :
  rtc astep fresh a ->
  (if listener a then length (active a) = 1%nat /\ (forall port uuid, Start port uuid a = (AlreadyRunning, a)) else active a = [] /\ Stop a = a)
  /\ listening a = option_list (listener a).
Proof.
  intros Hr. assert (Hok : app_ok a).
  { eapply (rtc_preserve astep app_ok fresh a); [|unfold app_ok; cbn; split_and!; reflexivity|exact Hr]. intros x y Hx Hst. destruct Hst; [by apply app_start|by apply app_stop]. }
  unfold app_ok in Hok. destruct (listener a) as [p|] eqn:El.
  - destruct Hok as (Hl & i & c & Hs & Hi & Hrun & Hu). split; [|done]. split; [|intros port uuid; unfold Start; by rewrite El].
    unfold active. rewrite <- (take_drop_middle _ _ _ Hi), filter_app, filter_cons, decide_True by done.
    assert (Hz : forall l', (forall c', c' ∈ l' -> running c' = false) -> filter (fun c => running c = true) l' = []).
    { intros l' Hf. apply elem_of_nil_inv. intros c' [Hc Hin]%list_elem_of_filter. by rewrite (Hf c' Hin) in Hc. }
    rewrite !Hz; [done| |].
    + intros c' [j Hj]%list_elem_of_lookup_1. rewrite lookup_drop in Hj. destruct (running c') eqn:Er; [|done]. specialize (Hu _ c' Hj Er). lia.
    + intros c' [j Hj]%list_elem_of_lookup_1. apply lookup_take_Some in Hj as [Hj Hlt]. destruct (running c') eqn:Er; [|done]. specialize (Hu _ c' Hj Er). lia.
  - destruct Hok as (Hs & Ha & Hl). split; [split; [done|unfold Stop; by rewrite El]|done].
Qed.

End Mobile.
